(* ===== verification/_CoqProject ===== *)
-Q . S2P
Prelude.v
F64.v
Csc.v
Umfpack.v
DataBuilder.v
Validator.v
Cache.v
Service.v
SignedFlow.v
Text.v
Json.v
Tidas.v
Location.v
ProviderLink.v
Lineage.v
Balance.v
Exchange.v
Assemble.v
Documents.v
Selection.v
Resource.v
ContributionPath.v
Identity.v
References.v
RefGraph.v
BinarySearch.v
Wire.v
Issues.v
ExternalSort.v
SnapshotProvider.v
Preflight.v
IssueMerge.v
Partitions.v
Administrative.v
ArtifactGc.v
Readiness.v
StudySource.v
StudyCompile.v
StudyExecute.v
StaticFactors.v
FactorSets.v
StudyRun.v
StudyAnalysis.v
