(* ===== verification/Prelude.v ===== *)
(** * Verification of the Tiangong LCA calculator

    The program computes life-cycle inventories and impacts.  A snapshot
    builder reads process documents, links every technosphere exchange to the
    processes that can balance it, and writes sparse matrices: the technosphere
    matrix A, the biosphere matrix B and the characterization factors C.  A
    solver service factorizes M = I - A with UMFPACK, keeps the factorization in
    a byte-bounded cache and answers demands y with x = M^-1 y, g = B x, h = C g.
    The contribution path analysis explains a result by walking upstream.
    Before a release is calculated, the source-closure preflight follows every
    reference of the requested datasets to its exact version and records what
    is missing, with the roots each problem affects.  A calculated snapshot is
    checked for readiness, its artifacts are collected when they expire, and a
    study compiles one life-cycle model with its own documents, overrides and
    cutoffs into dense matrices that the same solver executes.

    ** Files and the code they model (under [src/crates])

    - [Prelude]: outcomes of Rust functions ([result] with [Ok], [Err] and
      [Panic]), machine integers, loops with early return ([foldM], [mapR]),
      stable sorting with comparators ([TotalPreorder]), absence of panics,
      and [outcome], what a fallible computation may end in.
    - [F64]: [f64] as IEEE-754 binary64, bit exact, with the methods used.
    - [Text], [Json]: the [str] methods on UTF-8 bytes, [serde_json::Value],
      [str::parse] at [f64] and [i32].
    - [Csc]: [suitesparse-ffi/src/matrix.rs].  [Umfpack]: [umfpack.rs] of the same
      crate; the C library is the class [UmfpackLib], its objects a trace of
      allocations and releases.
    - [DataBuilder], [Validator], [Cache], [Service]: the files of the same names
      in [solver-core/src].  The state of the service is the cache's
      [CacheInner]; an operation is a function on it, so interleaved threads are
      sequences of operations ([Cache.reachable], [Service.shared_cache]).
    - [SignedFlow]: [solver-worker/src/signed_flow.rs].  [Resource]: [resource.rs].
      [ContributionPath]: [contribution_path.rs].  [Tidas]:
      [tidas_process_semantics.rs].
    - [Selection], [Exchange], [Documents], [Location], [ProviderLink], [Lineage],
      [Balance], [Assemble]: [solver-worker/src/bin/snapshot_builder.rs] with the records of
      [compiled_graph.rs], in the order the builder runs them: select the processes
      of a request ([resolve_process_selection_with_flow_versions]), parse a document
      ([parse_process_chunk]), parse the scope and resolve its flows (the front of
      [compile_scope_graph]), score locations, choose among providers
      ([resolve_multi_provider]), keep a life-cycle model's result and components
      apart ([apply_provider_lineage_gate]), turn residual exchanges into edges
      ([compile_signed_flow_balances]), and accumulate edges and factors into the
      sparse data ([assemble_sparse_payload_with_selection]).
    - [Identity], [References], [RefGraph], [BinarySearch], [Wire], [Issues],
      [ExternalSort], [SnapshotProvider], [Preflight], [IssueMerge], [Partitions],
      [Administrative]: the source closure of
      [solver-worker/src/scope_closure.rs] with [source_reference_policy.rs]:
      exact identities and versions; the walk that finds the references of a
      document and the policy that classifies them; the reversed graph over
      32-bit ordinals and its breadth-first search; the binary files the
      evidence is stored in; the issues; spools and their external sort; the
      frozen snapshot around the live tables; the scan itself
      ([collect_scope_closure]); the merge of sorted issue records with their
      affected roots and the lines of the finished issues; the partitions relation streams are cut into; and the
      administrative bundle and its manifest.  The trait [ScopeClosureProvider] is a class,
      what the scan relies on is [LawfulProvider], and the database-backed
      provider implements it.
    - [Readiness]: [readiness.rs], the verdict on a snapshot.  [ArtifactGc]:
      [artifact_gc.rs]; the trait of its backend is a class, a run is the log of
      the calls it makes.
    - [StudySource], [StudyCompile], [StudyExecute]: [study/source.rs],
      [study/contracts.rs], [study/compile.rs] and [study/identity.rs], from the
      documents of a study to its prepared input and its result.  [StudyRun],
      [StudyAnalysis]: [study/analysis.rs] with [study/analysis_contracts.rs], the
      verification of a frozen run and the facts drawn from one run or two.
    - [StaticFactors], [FactorSets]: where characterization factors come from.
      The first is [lcia_nonregional.rs] with [VerifiedMethods::from_static], the
      second [load_impact_factor_sets], [build_lcia_factor_coverage],
      [visit_lcia_gaps] and [build_snapshot_impact_map] of the snapshot builder
      with [lcia_method_metadata.rs].

    ** What the theorems show

    - Solver: [validate] decides the CSC invariant; a matrix built from triplets
      is the reference sum of them, independently of hash-map order;
      [mul_vector] and the compensated residual are the row-by-row ones; M is
      I - A; a solve refines at most once and never panics; every UMFPACK object
      is released except on the singular path; [prepare] then [solve] returns
      the solution and its products with B and C.
    - Cache: an invariant preserved by every operation, refinement of an
      abstract queue in order of last use, eviction independent of hash order.
    - Selection: the processes of a request are exactly the closure of its roots
      under the chosen providers, and the queue that computes it ends.
    - Documents to matrices: an allocation is read exactly on its declared
      shapes; a parsed process has normalized, finite, attributed amounts and one
      unit reference; every edge balances a residual exchange within the
      tolerance; one decision per residual; providers come from the candidates
      by the rule in force and never from both a model result and its
      components; and the matrix the solver builds holds exactly the negated
      sums of the compiled edges plus the identity.
    - Contribution paths: the branches are simple upstream paths ending as they
      say, within the node, depth and branch bounds, and the analysis returns.
    - Source closure: extraction finds exactly the references; the scan ends
      and returns exactly the closure of the roots with every document, edge,
      reference and missing dataset, or an error of the provider or a resource
      limit; only unchanged documents of the snapshot pass; affected roots are
      those a chain of references leads from, with shortest witnesses;
      coalescing and merging issues lose no affected root and invent none; the
      external sort is a sort for every run size and fan-in; partitions restore
      to the stream they were cut from and respect their bounds; both binary
      formats decode to what was encoded; the bundle and the manifest agree.
    - Operation: the readiness verdict is the one its checks define; a garbage
      collection follows the protocol of its backend and reports totals that
      equal what it did.
    - Studies: a normalized study is well formed; the prepared matrices are the
      reference sums over exchanges, connections and factors; an execution that
      succeeds solved the system within the tolerance it states; the methods
      recovered from a prepared input compile to the same input; a run accepted
      for analysis is genuine and solves its own matrices; and what the analysis
      of such runs returns passes its own final check.
    - Factors: one default per family whatever the order of the records; factor
      sets hold exactly the default factors of their methods; coverage counted
      by groups is coverage counted by observations, and the records visited
      later are as many as announced.
    - Resources: admission reports the first violated limit; a cancellation
      is permanent and reaches exactly the clones of its token.

    ** Bounds and fuel

    The traversal of contribution paths recurses on [max_depth] (at most 8 after
    [normalized]).  Expansion of models takes a depth, and every depth above the
    number of models gives the same, complete result.  Eviction takes the number
    of entries as fuel, the selection queue the number of candidates, and trimming
    the number of bytes; all are shown to be enough.  The closure scan takes fuel for any finite set
    that contains the closure ([closure_finite] gives one), merge passes the number
    of runs, and a merge the number of bytes.  The loops of the garbage collector
    are bounded by the code itself: [max_batches], 10,000 rounds of a listing and
    three attempts of a call.  Counters of type [i64] are unbounded integers.

    ** Arguments of the model

    The document provider, resident memory and free disk space, the zstd stream
    and the text of JSON scalars; UMFPACK, BLAKE3 and SHA-256, [Uuid] parsing and
    display, the printing of floating-point numbers and of errors, serde's
    encoders and decoders of studies, analyses and closure issues, the parsed file of nonregional defaults,
    RFC 3339 parsing, the iteration order of hash maps and sets, the clock, the
    file system, the backend of the garbage collector and the results of database
    queries are arguments; a theorem that needs something of them says so in a
    hypothesis.

    ** Not modelled

    SQL and the queue (their behaviour is PostgreSQL's), HTTP and object
    storage, HDF5 and JSON serialization of artifacts, package archives, the
    advanced analyses of studies and the child processes they run in, the
    language-model worker, command-line parsing, and the generated region table.  Of the
    snapshot builder, the review overlay, release evidence and reports are left
    out; of the source closure, the reports; and of retention, whose decisions
    are SQL, everything but the collector. *)

From stdpp Require Export base list gmap strings sorting.
From Stdlib Require Export ZArith Lia.

#[export] Set Default Goal Selector "!".

(** ** Outcomes of Rust functions

    A Rust function returning [Result<A, E>] either returns [Ok], returns
    [Err], or panics (an index out of range, an [expect] on [None]); all
    three are values here, so "never panics" is a statement. *)

Inductive result (E A : Type) : Type :=
| Ok (a : A)
| Err (e : E)
| Panic.
Arguments Ok {E A} a.
Arguments Err {E A} e.
Arguments Panic {E A}.

#[export] Instance result_ret E : MRet (result E) := fun A a => Ok a.
#[export] Instance result_bind E : MBind (result E) := fun A B f m =>
  match m with Ok a => f a | Err e => Err e | Panic => Panic end.
#[export] Instance result_fmap E : FMap (result E) := fun A B f m =>
  match m with Ok a => Ok (f a) | Err e => Err e | Panic => Panic end.

(** [result.map_err(f)], also what [?] does through a [From] conversion. *)
Definition map_err {E F A} (f : E -> F) (m : result E A) : result F A :=
  match m with Ok a => Ok a | Err e => Err (f e) | Panic => Panic end.

(** [option.ok_or(e)]. *)
Definition ok_or {E A} (e : E) (o : option A) : result E A :=
  match o with Some a => Ok a | None => Err e end.

(** [option.expect(..)], and slice indexing, panic on [None]. *)
Definition expect {E A} (o : option A) : result E A :=
  match o with Some a => Ok a | None => Panic end.

(** [if !c { return Err(e) }]. *)
Definition ensure {E} (c : bool) (e : E) : result E unit :=
  if c then Ok tt else Err e.

(** A [for] loop with early return, threading its mutable locals. *)
Fixpoint foldM {E A B} (f : B -> A -> result E B) (l : list A) (b : B) : result E B :=
  match l with
  | [] => Ok b
  | a :: l' => match f b a with Ok b' => foldM f l' b' | Err e => Err e | Panic => Panic end
  end.

(** [iter.map(f).collect::<Result<Vec<_>, _>>()]. *)
Fixpoint mapR {E A B} (f : A -> result E B) (l : list A) : result E (list B) :=
  match l with
  | [] => Ok []
  | a :: l' =>
      match f a with
      | Ok b => match mapR f l' with Ok bs => Ok (b :: bs) | Err e => Err e | Panic => Panic end
      | Err e => Err e
      | Panic => Panic
      end
  end.

Definition is_ok {E A} (m : result E A) : bool := match m with Ok _ => true | _ => false end.
Definition is_err {E A} (m : result E A) : bool := match m with Err _ => true | _ => false end.

(** ** Machine integers: values in [Z], width written out *)

Definition I32_MAX : Z := 2^31 - 1.
Definition I32_MIN : Z := - 2^31.
Definition U32_MAX : Z := 2^32 - 1.
Definition U64_MAX : Z := 2^64 - 1.
(** [usize] on the 64-bit targets the workers run on. *)
Definition USIZE_MAX : Z := U64_MAX.

(** Wrapping [i32] addition (two's complement, the release profile). *)
Definition wrap_i32 (z : Z) : Z := (z + 2^31) `mod` 2^32 - 2^31.
Definition i32_add (a b : Z) : Z := wrap_i32 (a + b).

(** [usize::saturating_add] and friends; [u64] has the same width. *)
Definition saturating_add (a b : Z) : Z := Z.min (a + b) USIZE_MAX.
Definition saturating_sub (a b : Z) : Z := Z.max (a - b) 0.
Definition saturating_mul (a b : Z) : Z := Z.min (a * b) USIZE_MAX.

(** [usize::try_from(x : i32)]. *)
Definition usize_of_i32 (z : Z) : option nat :=
  if decide (0 <= z)%Z then Some (Z.to_nat z) else None.
(** [usize::try_from(x).unwrap_or_default()]. *)
Definition usize_or_default (z : Z) : nat := Z.to_nat z.
(** [i32::try_from(n : usize)]. *)
Definition i32_of_usize (n : nat) : option Z :=
  if decide (Z.of_nat n <= I32_MAX)%Z then Some (Z.of_nat n) else None.

(** ** Tactics and hints *)

Create HintDb lca discriminated.

(** Split every conjunction, existential and injected equation in sight. *)
Ltac inv_result :=
  repeat match goal with
  | H : Ok _ = Ok _ |- _ => injection H as H
  | H : Err _ = Err _ |- _ => injection H as H
  | H : Ok _ = Err _ |- _ => discriminate H
  | H : Err _ = Ok _ |- _ => discriminate H
  | H : Panic = Ok _ |- _ => discriminate H
  | H : Panic = Err _ |- _ => discriminate H
  | H : Ok _ = Panic |- _ => discriminate H
  | H : Err _ = Panic |- _ => discriminate H
  | H : Some _ = Some _ |- _ => injection H as H
  | H : Some _ = None |- _ => discriminate H
  | H : None = Some _ |- _ => discriminate H
  | H : (_, _) = (_, _) |- _ => injection H as H
  end; subst.

(** Case analysis on the scrutinee of the innermost [match] of [H]. *)
Ltac case_in H :=
  match type of H with
  | context [ match ?x with _ => _ end ] =>
      lazymatch x with
      | context [ match _ with _ => _ end ] => fail
      | _ => let E := fresh "E" in destruct x eqn:E; simpl in H; try discriminate H
      end
  end.

Ltac bool_hyps :=
  repeat match goal with
  | H : _ && _ = true |- _ => apply andb_true_iff in H; destruct H
  | H : _ || _ = false |- _ => apply orb_false_iff in H; destruct H
  | H : negb _ = true |- _ => apply negb_true_iff in H
  | H : negb _ = false |- _ => apply negb_false_iff in H
  | H : (_ <=? _)%Z = true |- _ => apply Z.leb_le in H
  | H : (_ <=? _)%Z = false |- _ => apply Z.leb_gt in H
  | H : (_ <? _)%Z = true |- _ => apply Z.ltb_lt in H
  | H : (_ <? _)%Z = false |- _ => apply Z.ltb_ge in H
  | H : (_ =? _)%Z = true |- _ => apply Z.eqb_eq in H
  | H : (_ =? _)%Z = false |- _ => apply Z.eqb_neq in H
  end.

(** ** Lemmas on outcomes and loops *)

Lemma bind_ok {E A B} (f : A -> result E B) (m : result E A) b :
  (m ≫= f) = Ok b <-> exists a, m = Ok a /\ f a = Ok b.
Proof.
  destruct m; simpl; split.
  - eauto.
  - by intros (? & [= <-] & ?).
  - done.
  - by intros (? & ? & _).
  - done.
  - by intros (? & ? & _).
Qed.

Lemma map_err_ok {E F A} (f : E -> F) (m : result E A) a :
  map_err f m = Ok a <-> m = Ok a.
Proof. destruct m; simpl; split; intros H; by inv_result. Qed.

Lemma foldM_app {E A B} (f : B -> A -> result E B) l1 l2 b :
  foldM f (l1 ++ l2) b = (foldM f l1 b ≫= foldM f l2).
Proof.
  revert b; induction l1 as [|a l1 IH]; intros b; simpl; [done|].
  destruct (f b a); simpl; auto.
Qed.

(** Loop rule: an invariant over the processed prefix, on success. *)
Lemma foldM_ind {E A B} (P : list A -> B -> Prop) (f : B -> A -> result E B) l b b' :
  P [] b ->
  (forall pre a post c c', l = pre ++ a :: post -> P pre c -> f c a = Ok c' -> P (pre ++ [a]) c') ->
  foldM f l b = Ok b' -> P l b'.
Proof.
  intros H0 Hstep. revert b H0.
  enough (forall post pre b, l = pre ++ post -> P pre b -> foldM f post b = Ok b' -> P l b') as HH.
  { intros b H0. by apply (HH l []). }
  induction post as [|a post IH]; intros pre b -> HP Hf; simpl in Hf.
  { inv_result. by rewrite app_nil_r. }
  destruct (f b a) as [c| |] eqn:Ef; try done.
  apply (IH (pre ++ [a]) c); [by rewrite <- app_assoc| |done].
  by apply (Hstep pre a post b c).
Qed.

(** A loop whose body always succeeds under an invariant succeeds. *)
Lemma foldM_total {E A B} (I : B -> Prop) (f : B -> A -> result E B) l b :
  I b ->
  (forall a c, a ∈ l -> I c -> exists c', f c a = Ok c' /\ I c') ->
  exists b', foldM f l b = Ok b' /\ I b'.
Proof.
  revert b; induction l as [|a l IH]; intros b Hb Hs; simpl; [by eauto|].
  destruct (Hs a b) as (c & -> & Hc); [apply list_elem_of_here|done|].
  apply IH; [done|]. intros a' c' Hin. apply Hs. by apply list_elem_of_further.
Qed.

(** The same, with an invariant that may mention what was processed. *)
Lemma foldM_total_ind {E A B} (P : list A -> B -> Prop) (f : B -> A -> result E B) l b :
  P [] b ->
  (forall pre x post acc, l = pre ++ x :: post -> P pre acc -> exists acc', f acc x = Ok acc' /\ P (pre ++ [x]) acc') ->
  exists b', foldM f l b = Ok b' /\ P l b'.
Proof.
  revert P b. induction l as [|x l IH]; intros P b Hb Hstep; cbn [foldM]; [by eexists|].
  destruct (Hstep [] x l b eq_refl Hb) as (b1 & -> & Hb1). cbn [mbind result_bind].
  apply (IH (fun pre => P (x :: pre))); [done|]. intros pre y post acc -> Hacc.
  exact (Hstep (x :: pre) y post acc eq_refl Hacc).
Qed.

(** A loop with a body that is pure at every element is a [foldl]. *)
Lemma foldM_pure {E A B} (f : B -> A -> result E B) (g : B -> A -> B) l b :
  (forall c a, a ∈ l -> f c a = Ok (g c a)) ->
  foldM f l b = Ok (foldl g b l).
Proof.
  revert b; induction l as [|a l IH]; intros b Hs; simpl; [done|].
  rewrite Hs by apply list_elem_of_here. apply IH.
  intros c a' Hin. apply Hs. by apply list_elem_of_further.
Qed.

Lemma mapR_ok {E A B} (f : A -> result E B) l bs :
  mapR f l = Ok bs <-> Forall2 (fun a b => f a = Ok b) l bs.
Proof.
  revert bs; induction l as [|a l IH]; intros bs; simpl.
  { split; intros H; [inv_result; constructor | by inversion H]. }
  split.
  - intros H. destruct (f a) eqn:Ef; try done. destruct (mapR f l) eqn:El; try done.
    inv_result. constructor; [done|]. by apply IH.
  - intros H. inversion H as [|? b ? bs' Hb Hbs]; subst. rewrite Hb.
    apply IH in Hbs. by rewrite Hbs.
Qed.

(** A collected [map] whose function, where it succeeds, is [g]. *)
Lemma mapR_fun {E A B} (f : A -> result E B) (g : A -> B) l bs :
  mapR f l = Ok bs -> (forall x y, f x = Ok y -> y = g x) -> bs = g <$> l.
Proof. intros Hm%mapR_ok Hg. induction Hm as [|x y l bs Hf _ IH]; [done|]. by rewrite IH, (Hg x y Hf). Qed.

Lemma usize_of_i32_Some z n : usize_of_i32 z = Some n <-> (0 <= z)%Z /\ n = Z.to_nat z.
Proof. unfold usize_of_i32. case_decide; split; intros Heq; destruct_and?; simplify_eq; done. Qed.

Lemma saturating_add_bounds a b :
  (0 <= a -> 0 <= b -> 0 <= saturating_add a b <= USIZE_MAX)%Z.
Proof. unfold saturating_add, USIZE_MAX, U64_MAX. lia. Qed.

Lemma wrap_i32_small z : (I32_MIN <= z <= I32_MAX)%Z -> wrap_i32 z = z.
Proof. unfold I32_MIN, I32_MAX, wrap_i32. intros ?. rewrite Z.mod_small; lia. Qed.

Lemma wrap_i32_range z : (I32_MIN <= wrap_i32 z <= I32_MAX)%Z.
Proof.
  unfold I32_MIN, I32_MAX, wrap_i32.
  pose proof (Z.mod_pos_bound (z + 2^31) (2^32)). lia.
Qed.

(** ** Stable sorting: [slice::sort_by]

    Rust's [sort_by] is a stable sort; insertion from the right places an
    element before the ones it ties with, which keeps the input order. *)

Section Sorting.
Context {A : Type} (cmp : A -> A -> comparison).

Definition not_gt (x y : A) : bool := match cmp x y with Gt => false | _ => true end.

Fixpoint insert_by (x : A) (l : list A) : list A :=
  match l with
  | [] => [x]
  | y :: l' => if not_gt x y then x :: y :: l' else y :: insert_by x l'
  end.

Definition sort_by (l : list A) : list A := foldr insert_by [] l.

Lemma insert_by_perm x l : insert_by x l ≡ₚ x :: l.
Proof.
  induction l as [|y l IH]; simpl; [done|].
  destruct (not_gt x y); [done|]. rewrite IH. constructor.
Qed.

Lemma sort_by_perm l : sort_by l ≡ₚ l.
Proof. induction l as [|x l IH]; simpl; [done|]. by rewrite insert_by_perm, IH. Qed.

Lemma length_sort_by l : length (sort_by l) = length l.
Proof. by rewrite sort_by_perm. Qed.

(** The comparator is a total preorder: antisymmetric up to [CompOpp] and
    transitive on "not greater". *)
Context (Hopp : forall x y, cmp y x = CompOpp (cmp x y)).
Context (Htrans : forall x y z, not_gt x y = true -> not_gt y z = true -> not_gt x z = true).

Lemma not_gt_total x y : not_gt x y = false -> not_gt y x = true.
Proof. unfold not_gt. rewrite (Hopp x y). by destruct (cmp x y). Qed.

Lemma insert_by_sorted x l :
  StronglySorted (fun a b => not_gt a b = true) l ->
  StronglySorted (fun a b => not_gt a b = true) (insert_by x l).
Proof using Hopp Htrans.
  induction 1 as [|y l Hs IH Hall]; simpl; [repeat constructor|].
  destruct (not_gt x y) eqn:Exy.
  - constructor; [by constructor|]. constructor; [done|].
    eapply Forall_impl; [exact Hall|]. simpl. eauto.
  - constructor; [done|]. rewrite insert_by_perm. constructor; [|done].
    by apply not_gt_total.
Qed.

Lemma sort_by_sorted l : StronglySorted (fun a b => not_gt a b = true) (sort_by l).
Proof using Hopp Htrans. induction l; simpl; [constructor|]. by apply insert_by_sorted. Qed.
End Sorting.

(** A strict sort has one result: two permutations sorted by a relation that
    is antisymmetric on their elements are equal. *)
Lemma sorted_unique {A} (R : A -> A -> Prop) (l1 l2 : list A) :
  (forall x y, x ∈ l1 -> y ∈ l1 -> R x y -> R y x -> x = y) ->
  StronglySorted R l1 -> StronglySorted R l2 -> l1 ≡ₚ l2 -> l1 = l2.
Proof.
  intros Hanti H1. revert l2. induction H1 as [|x l1 Hs1 IH Hall1]; intros l2 H2 Hp.
  { symmetry. by apply Permutation_nil. }
  destruct H2 as [|y l2 Hs2 Hall2]; [symmetry in Hp; by apply Permutation_nil in Hp|].
  assert (x = y) as <-.
  { assert (x ∈ y :: l2) as Hx by (rewrite <- Hp; apply list_elem_of_here).
    assert (y ∈ x :: l1) as Hy by (rewrite Hp; apply list_elem_of_here).
    apply elem_of_cons in Hx as [->|Hx]; [done|].
    apply elem_of_cons in Hy as [->|Hy]; [done|].
    rewrite Forall_forall in Hall1, Hall2.
    apply Hanti; [apply list_elem_of_here|by apply list_elem_of_further|by apply Hall1|by apply Hall2]. }
  f_equal. apply IH; [|done|by apply Permutation_cons_inv in Hp].
  intros a b Ha Hb. apply Hanti; by apply list_elem_of_further.
Qed.

#[export] Hint Resolve saturating_add_bounds wrap_i32_range : lca.

(** ** Slices and indexed loops *)

(** [&l[start..stop]]. *)
Definition slice {E A} (l : list A) (start stop : nat) : result E (list A) :=
  if (start <=? stop)%nat && (stop <=? length l)%nat
  then Ok (take (stop - start) (drop start l)) else Panic.

(** [l.windows(2).any(|[a, b]| p(a, b))]. *)
Definition windows_any {A} (p : A -> A -> bool) (l : list A) : bool :=
  existsb (fun '(a, b) => p a b) (zip l (tail l)).

Lemma windows_any_false {A} (p : A -> A -> bool) (l : list A) :
  windows_any p l = false <->
  forall i a b, l !! i = Some a -> l !! S i = Some b -> p a b = false.
Proof.
  unfold windows_any. rewrite <- not_true_iff_false, existsb_exists. split.
  - intros H i a b Ha Hb. apply not_true_iff_false. intros Hp. apply H.
    exists (a, b). split; [|done]. apply list_elem_of_In, list_elem_of_lookup.
    exists i. rewrite lookup_zip_with, Ha. simpl. by rewrite lookup_tail, Hb.
  - intros H ([a b] & Hin & Hp). apply list_elem_of_In, list_elem_of_lookup in Hin as [i Hi].
    apply lookup_zip_with_Some in Hi as (a' & b' & [= <- <-] & Ha & Hb).
    rewrite lookup_tail in Hb. by rewrite (H i a b) in Hp.
Qed.

(** Adjacent pairs related by a transitive relation: the list is sorted. *)
Lemma adjacent_sorted {A} (R : A -> A -> Prop) `{!Transitive R} (l : list A) :
  (forall i a b, l !! i = Some a -> l !! S i = Some b -> R a b) <-> StronglySorted R l.
Proof.
  split.
  - intros H. apply Sorted_StronglySorted; [intros ???; apply transitivity|].
    induction l as [|x l IH]; constructor.
    + apply IH. intros i a b. apply (H (S i)).
    + destruct l as [|y l]; constructor. by apply (H 0%nat).
  - induction 1 as [|x l Hs IH Hall]; intros [|i] a b Ha Hb; simplify_eq/=.
    + rewrite Forall_lookup in Hall. eauto.
    + eauto.
Qed.

(** A loop over an index range that reads a list is a loop over the slice. *)
Lemma foldM_seq_lookup {E A B} (l : list A) (f : B -> A -> result E B) s n b :
  (s + n <= length l)%nat ->
  foldM (fun b i => x ← expect (l !! i); f b x) (seq s n) b = foldM f (take n (drop s l)) b.
Proof.
  revert s b. induction n as [|n IH]; intros s b Hlen; simpl; [done|].
  destruct (lookup_lt_is_Some_2 l s ltac:(lia)) as [x Hx].
  rewrite (drop_S l x s Hx). rewrite Hx. simpl.
  destruct (f b x); [|done..]. apply IH. lia.
Qed.

Lemma foldM_ext {E A B} (f g : B -> A -> result E B) l b :
  (forall b a, a ∈ l -> f b a = g b a) -> foldM f l b = foldM g l b.
Proof.
  revert b. induction l as [|a l IH]; intros b H; simpl; [done|].
  rewrite H by apply list_elem_of_here. destruct (g b a); [|done..].
  apply IH. intros. apply H. by apply list_elem_of_further.
Qed.

Lemma filter_none {A} (P : A -> Prop) `{!forall x, Decision (P x)} (l : list A) :
  Forall (fun x => ~ P x) l -> filter P l = [].
Proof. induction 1; [done|]. rewrite filter_cons, decide_False by done. done. Qed.

Lemma filter_all {A} (P : A -> Prop) `{!forall x, Decision (P x)} (l : list A) :
  Forall P l -> filter P l = l.
Proof. induction 1; [done|]. rewrite filter_cons, decide_True by done. by f_equal. Qed.

Lemma StronglySorted_filter {A} (R : A -> A -> Prop) (P : A -> Prop) `{!forall x, Decision (P x)} l :
  StronglySorted R l -> StronglySorted R (filter P l).
Proof.
  induction 1 as [|x l Hs IH Hall]; [constructor|]. rewrite filter_cons.
  case_decide; [|done]. constructor; [done|].
  rewrite Forall_forall in Hall |- *. intros y [_ Hy]%list_elem_of_filter. auto.
Qed.

Lemma StronglySorted_impl {A} (R S : A -> A -> Prop) l :
  (forall x y, R x y -> S x y) -> StronglySorted R l -> StronglySorted S l.
Proof. intros Hi. induction 1; constructor; eauto using Forall_impl. Qed.

Lemma StronglySorted_fmap {A B} (f : A -> B) (R : A -> A -> Prop) (S : B -> B -> Prop) l :
  (forall x y, x ∈ l -> y ∈ l -> R x y -> S (f x) (f y)) ->
  StronglySorted R l -> StronglySorted S (f <$> l).
Proof.
  intros HRS Hs. induction Hs as [|x l Hs IH Hall]; simpl; [constructor|]. constructor.
  - apply IH. intros y z Hy Hz. apply HRS; by apply list_elem_of_further.
  - rewrite Forall_forall in Hall. apply Forall_fmap, Forall_forall. intros y Hy.
    apply HRS; [apply list_elem_of_here|by apply list_elem_of_further|by apply Hall].
Qed.

Lemma drop_split {A} (l a b : list A) : l = a ++ b -> drop (length a) l = b.
Proof. intros ->. apply drop_app_length. Qed.

Lemma take_split {A} (l a b : list A) : l = a ++ b -> take (length a) l = a.
Proof. intros ->. apply take_app_length. Qed.

(** Splitting a list sorted by a key at a threshold. *)
Lemma sorted_split {A} (f : A -> Z) (k : Z) (l : list A) :
  StronglySorted (fun a b => f a <= f b)%Z l ->
  l = filter (fun a => f a < k)%Z l ++ filter (fun a => k <= f a)%Z l.
Proof.
  induction 1 as [|x l Hs IH Hall]; [done|]. rewrite !filter_cons.
  destruct (decide (f x < k)%Z) as [Hlt|Hge].
  - rewrite decide_False by lia. simpl. by f_equal.
  - rewrite decide_True by lia.
    assert (filter (fun a => f a < k)%Z l = []) as Hnil.
    { apply filter_none, (Forall_impl _ _ _ Hall). simpl. lia. }
    rewrite Hnil in IH |- *. simpl. by f_equal.
Qed.

Lemma foldM_unit_ok {E A} (f : A -> result E unit) l :
  foldM (fun _ a => f a) l tt = Ok tt <-> forall a, a ∈ l -> f a = Ok tt.
Proof.
  induction l as [|a l IH]; simpl.
  { split; [intros _ a Ha; by apply elem_of_nil in Ha|done]. }
  destruct (f a) as [[]| |] eqn:Ef.
  - rewrite IH. split.
    + intros H b Hb. apply elem_of_cons in Hb as [->|Hb]; auto.
    + intros H b Hb. apply H. by apply list_elem_of_further.
  - split; [done|]. intros H. by rewrite H in Ef by apply list_elem_of_here.
  - split; [done|]. intros H. by rewrite H in Ef by apply list_elem_of_here.
Qed.

Lemma ensure_ok {E} (c : bool) (e : E) : ensure c e = Ok tt <-> c = true.
Proof. by destruct c. Qed.

(** ** Absence of panics

    The constructs of the error monad preserve it; [no_panic] walks through a
    function body down to its indexing operations. *)

Lemma bind_no_panic {E A B} (f : A -> result E B) (m : result E A) :
  m <> Panic -> (forall a, m = Ok a -> f a <> Panic) -> (m ≫= f) <> Panic.
Proof. destruct m; cbn; auto. Qed.

Lemma ensure_no_panic {E} (c : bool) (e : E) : ensure c e <> Panic.
Proof. by destruct c. Qed.

Lemma ok_or_no_panic {E A} (e : E) (o : option A) : ok_or e o <> Panic.
Proof. by destruct o. Qed.

Lemma map_err_no_panic {E F A} (f : E -> F) (m : result E A) : m <> Panic -> map_err f m <> Panic.
Proof. by destruct m. Qed.

Lemma foldM_no_panic {E A B} (f : B -> A -> result E B) l b :
  (forall a c, a ∈ l -> f c a <> Panic) -> foldM f l b <> Panic.
Proof.
  revert b. induction l as [|a l IH]; intros b Hf; cbn [foldM]; [done|].
  apply bind_no_panic; [apply Hf, list_elem_of_here|]. intros c _. apply IH.
  intros a' c' Hin. apply Hf. by apply list_elem_of_further.
Qed.

Lemma mapR_no_panic {E A B} (f : A -> result E B) l : (forall a, a ∈ l -> f a <> Panic) -> mapR f l <> Panic.
Proof.
  induction l as [|a l IH]; intros Hf; cbn [mapR]; [done|].
  apply bind_no_panic; [apply Hf, list_elem_of_here|]. intros b _. apply bind_no_panic; [|done].
  apply IH. intros a' Hin. apply Hf. by apply list_elem_of_further.
Qed.

#[export] Hint Resolve ensure_no_panic ok_or_no_panic map_err_no_panic : lca.

Ltac no_panic :=
  repeat first
    [ solve [auto with lca nocore]
    | apply bind_no_panic; [|intros ? ?]
    | apply foldM_no_panic; intros ? ? ?
    | apply mapR_no_panic; intros ? ?
    | match goal with
      | |- Ok _ <> Panic => discriminate
      | |- Err _ <> Panic => discriminate
      | |- (let _ := _ in _) <> Panic => cbn zeta
      | |- match ?x with _ => _ end <> Panic => destruct x eqn:?
      end ].

(** ** Comparators

    [Ordering] values composed the way the code composes them. *)

Class TotalPreorder {A} (cmp : A -> A -> comparison) : Prop := {
  cmp_opp : forall x y, cmp y x = CompOpp (cmp x y);
  cmp_trans : forall x y z, not_gt cmp x y = true -> not_gt cmp y z = true -> not_gt cmp x z = true;
}.

(** [a.cmp(b).then_with(|| ..)]. *)
Definition cmp_then {A} (c1 c2 : A -> A -> comparison) (x y : A) : comparison :=
  match c1 x y with Eq => c2 x y | c => c end.
(** [f(a).cmp(&f(b))]. *)
Definition cmp_by {A B} (f : A -> B) (cmp : B -> B -> comparison) (x y : A) : comparison :=
  cmp (f x) (f y).
(** [b.cmp(a)]. *)
Definition cmp_rev {A} (cmp : A -> A -> comparison) (x y : A) : comparison := cmp y x.
#[global] Typeclasses Opaque cmp_then cmp_by cmp_rev.

#[export] Instance Z_compare_preorder : TotalPreorder Z.compare.
Proof.
  split.
  - apply Z.compare_antisym.
  - unfold not_gt. intros x y z. do 3 case Z.compare_spec; intros; (done || lia).
Qed.

#[export] Instance cmp_by_preorder {A B} (f : A -> B) cmp `{!TotalPreorder cmp} :
  TotalPreorder (cmp_by f cmp).
Proof.
  split; unfold cmp_by.
  - intros. apply cmp_opp.
  - intros x y z. apply (cmp_trans (f x) (f y) (f z)).
Qed.

#[export] Instance cmp_rev_preorder {A} (cmp : A -> A -> comparison) `{!TotalPreorder cmp} :
  TotalPreorder (cmp_rev cmp).
Proof.
  split; unfold cmp_rev.
  - intros. apply cmp_opp.
  - intros x y z Hxy Hyz. exact (cmp_trans z y x Hyz Hxy).
Qed.

(** Ties are compatible with the order. *)
Lemma cmp_eq_lt {A} (cmp : A -> A -> comparison) `{!TotalPreorder cmp} x y z :
  not_gt cmp x y = true -> not_gt cmp y z = true -> cmp x z = Eq -> cmp x y = Eq /\ cmp y z = Eq.
Proof.
  intros Hxy Hyz Hxz. assert (not_gt cmp z x = true) as Hzx.
  { unfold not_gt. by rewrite cmp_opp, Hxz. }
  pose proof (cmp_trans _ _ _ Hyz Hzx) as Hyx. pose proof (cmp_trans _ _ _ Hzx Hxy) as Hzy.
  unfold not_gt in *. rewrite (cmp_opp x y) in Hyx. rewrite (cmp_opp y z) in Hzy.
  by destruct (cmp x y), (cmp y z).
Qed.

#[export] Instance cmp_then_preorder {A} (c1 c2 : A -> A -> comparison)
  `{!TotalPreorder c1, !TotalPreorder c2} : TotalPreorder (cmp_then c1 c2).
Proof.
  split; unfold cmp_then.
  - intros x y. rewrite (cmp_opp (cmp := c1) x y). destruct (c1 x y); simpl; [apply cmp_opp|done..].
  - intros x y z Hxy Hyz.
    assert (not_gt c1 x y = true) as H1 by (unfold not_gt in *; by destruct (c1 x y)).
    assert (not_gt c1 y z = true) as H2 by (unfold not_gt in *; by destruct (c1 y z)).
    pose proof (cmp_trans _ _ _ H1 H2) as H3. pose proof (cmp_eq_lt c1 x y z H1 H2) as He.
    unfold not_gt in *. destruct (c1 x z); [|done..]. destruct He as [E1 E2]; [done|].
    rewrite E1 in Hxy. rewrite E2 in Hyz. exact (cmp_trans (cmp := c2) x y z Hxy Hyz).
Qed.

#[export] Instance string_compare_preorder : TotalPreorder String.compare.
Proof.
  split; [intros; apply String.compare_antisym|].
  unfold not_gt. induction x as [|a x IH]; intros [|b y] [|c z]; simpl; try done.
  destruct (Ascii.compare a b) eqn:E1; [|intros _|done].
  - apply Ascii.compare_eq_iff in E1 as ->. intros Hxy.
    destruct (Ascii.compare b c); [|done..]. by apply (IH y z).
  - destruct (Ascii.compare b c) eqn:E2; [|intros _|done].
    + apply Ascii.compare_eq_iff in E2 as ->. by rewrite E1.
    + unfold Ascii.compare in *. rewrite N.compare_lt_iff in E1, E2.
      by rewrite (proj2 (N.compare_lt_iff _ _) (N.lt_trans _ _ _ E1 E2)).
Qed.

Lemma sort_by_sorted' {A} (cmp : A -> A -> comparison) `{!TotalPreorder cmp} l :
  StronglySorted (fun a b => not_gt cmp a b = true) (sort_by cmp l).
Proof. apply sort_by_sorted; [apply cmp_opp|apply cmp_trans]. Qed.

(** No two different elements of [l] compare equal. *)
Definition strict_on {A} (cmp : A -> A -> comparison) (l : list A) : Prop :=
  forall x y, x ∈ l -> y ∈ l -> cmp x y = Eq -> x = y.

Lemma strict_on_perm {A} (cmp : A -> A -> comparison) l1 l2 :
  l1 ≡ₚ l2 -> strict_on cmp l1 -> strict_on cmp l2.
Proof. intros Hp Hs x y. rewrite <- Hp. apply Hs. Qed.

(** A sorted list is the sort of each of its permutations, if no ties occur. *)
Lemma sort_by_unique {A} (cmp : A -> A -> comparison) `{!TotalPreorder cmp} l s :
  strict_on cmp l -> s ≡ₚ l -> StronglySorted (fun a b => not_gt cmp a b = true) s ->
  sort_by cmp l = s.
Proof.
  intros Hst Hp Hs. symmetry. eapply sorted_unique; [|exact Hs|apply sort_by_sorted', _|].
  - intros x y Hx Hy Hxy Hyx. rewrite Hp in Hx, Hy. apply Hst; [done..|].
    unfold not_gt in *. rewrite (cmp_opp x y) in Hyx. by destruct (cmp x y).
  - by rewrite sort_by_perm.
Qed.

(** [Iterator::min_by]: the first of the minimal elements. *)
Definition min_by {A} (cmp : A -> A -> comparison) (l : list A) : option A :=
  match l with
  | [] => None
  | x :: l => Some (foldl (fun best y => match cmp best y with Gt => y | _ => best end) x l)
  end.

Lemma min_by_spec {A} (cmp : A -> A -> comparison) `{!TotalPreorder cmp} l b :
  min_by cmp l = Some b -> b ∈ l /\ forall y, y ∈ l -> not_gt cmp b y = true.
Proof.
  destruct l as [|x l]; [done|]. intros [= <-].
  assert (not_gt cmp x x = true) as Hrefl.
  { pose proof (cmp_opp x x) as Ho. unfold not_gt. by destruct (cmp x x). }
  assert (forall b l, not_gt cmp b b = true ->
    let r := foldl (fun best y => match cmp best y with Gt => y | _ => best end) b l in
    r ∈ b :: l /\ forall y, y ∈ b :: l -> not_gt cmp r y = true) as HH.
  { clear x l Hrefl. intros b l. revert b. induction l as [|z l IH]; intros b Hb; simpl.
    { split; [apply list_elem_of_here|]. by intros y ->%list_elem_of_singleton. }
    destruct (not_gt cmp b z) eqn:Ebz.
    - replace (match cmp b z with Gt => z | _ => b end) with b
        by (unfold not_gt in Ebz; by destruct (cmp b z)).
      destruct (IH b Hb) as [Hin Hle]. split.
      + apply elem_of_cons in Hin as [->|Hin]; [apply list_elem_of_here|].
        by do 2 apply list_elem_of_further.
      + intros y [->|[->|Hy]%elem_of_cons]%elem_of_cons.
        * apply Hle, list_elem_of_here.
        * eapply cmp_trans; [apply Hle, list_elem_of_here|done].
        * apply Hle. by apply list_elem_of_further.
    - replace (match cmp b z with Gt => z | _ => b end) with z
        by (unfold not_gt in Ebz; by destruct (cmp b z)).
      assert (not_gt cmp z z = true) as Hz.
      { pose proof (cmp_opp z z) as Ho. unfold not_gt. by destruct (cmp z z). }
      destruct (IH z Hz) as [Hin Hle]. split; [by apply list_elem_of_further|].
      intros y [->|Hy]%elem_of_cons; [|by apply Hle].
      eapply cmp_trans; [apply Hle, list_elem_of_here|]. apply (not_gt_total cmp); [apply cmp_opp|done]. }
  by apply HH.
Qed.

(** Without ties, the minimum is the head of the sort, whatever the order in
    which the elements are enumerated. *)
Lemma min_by_head {A} (cmp : A -> A -> comparison) `{!TotalPreorder cmp} l s :
  strict_on cmp s -> l ≡ₚ s -> min_by cmp l = head (sort_by cmp s).
Proof.
  intros Hst Hp. destruct (min_by cmp l) as [b|] eqn:Eb.
  - apply min_by_spec in Eb as [Hb Hle]; [|done].
    pose proof (sort_by_perm cmp s) as Hsp. pose proof (sort_by_sorted' cmp s) as Hss.
    destruct (sort_by cmp s) as [|x t].
    { apply Permutation_nil in Hsp as ->. rewrite Hp in Hb. by apply elem_of_nil in Hb. }
    simpl. f_equal. apply StronglySorted_inv in Hss as [_ Hx]. rewrite Forall_forall in Hx.
    assert (x ∈ s) as Hxs by (rewrite <- Hsp; apply list_elem_of_here).
    rewrite Hp in Hb. apply Hst; [done..|]. specialize (Hle x). rewrite Hp in Hle.
    specialize (Hle Hxs). assert (not_gt cmp x b = true \/ x = b) as [Hxb|<-].
    { rewrite <- Hsp in Hb. apply elem_of_cons in Hb as [->|Hb]; auto. }
    + unfold not_gt in *. rewrite (cmp_opp b x) in Hxb. by destruct (cmp b x).
    + pose proof (cmp_opp x x) as Ho. by destruct (cmp x x).
  - destruct l; [|done]. apply Permutation_nil in Hp as ->. done.
Qed.

Lemma filter_ext_in {A} (P Q : A -> Prop) `{!forall x, Decision (P x), !forall x, Decision (Q x)}
    (l : list A) :
  (forall x, x ∈ l -> P x <-> Q x) -> filter P l = filter Q l.
Proof.
  intros Hpq. induction l as [|x l IH]; [done|]. rewrite !filter_cons.
  rewrite IH by (intros y Hy; apply Hpq; by apply list_elem_of_further).
  specialize (Hpq x ltac:(apply list_elem_of_here)). repeat case_decide; tauto.
Qed.

Lemma filter_fmap {A B} (f : A -> B) (P : B -> Prop) `{!forall y, Decision (P y)} (l : list A) :
  filter P (f <$> l) = f <$> filter (fun x => P (f x)) l.
Proof.
  induction l as [|x l IH]; [done|]. rewrite fmap_cons, !filter_cons.
  case_decide; [rewrite fmap_cons|]; by rewrite IH.
Qed.

Lemma Forall2_filter {A B} (R : A -> B -> Prop) (P : A -> Prop) (Q : B -> Prop)
    `{!forall a, Decision (P a), !forall b, Decision (Q b)} l k :
  Forall2 R l k -> (forall a b, R a b -> P a <-> Q b) -> Forall2 R (filter P l) (filter Q k).
Proof.
  intros Hl HPQ. induction Hl as [|a b l k Hab Hl IH]; [constructor|]. destruct (decide (P a)) as [Ha|Ha].
  - rewrite (filter_cons_True P), (filter_cons_True Q) by first [exact Ha|by apply (HPQ a b Hab)]. by constructor.
  - rewrite (filter_cons_False P), (filter_cons_False Q) by first [exact Ha|by rewrite <- (HPQ a b Hab)]. done.
Qed.

Lemma length_filter_impl {A} (P Q : A -> Prop) `{!forall x, Decision (P x), !forall x, Decision (Q x)} l :
  (forall x, P x -> Q x) -> (length (filter P l) <= length (filter Q l))%nat.
Proof.
  intros HPQ. induction l as [|x l IH]; [done|]. destruct (decide (P x)) as [HP|HP].
  - rewrite !filter_cons_True by auto. cbn. lia.
  - rewrite filter_cons_False by done. rewrite filter_cons. case_decide; cbn; lia.
Qed.

(** [dedup]: drops an element equal to the one kept before it. *)
Fixpoint dedup (l : list Z) : list Z :=
  match l with
  | [] => []
  | a :: l => match l with
              | b :: _ => if (a =? b)%Z then dedup l else a :: dedup l
              | [] => [a]
              end
  end.

Lemma dedup_cons a b l :
  dedup (a :: b :: l) = if (a =? b)%Z then dedup (b :: l) else a :: dedup (b :: l).
Proof. reflexivity. Qed.

Lemma elem_of_dedup x l : x ∈ dedup l <-> x ∈ l.
Proof.
  induction l as [|a l IH]; [done|]. destruct l as [|b l]; [done|].
  rewrite dedup_cons. destruct (Z.eqb_spec a b) as [->|Hne].
  - rewrite IH, !elem_of_cons. tauto.
  - rewrite elem_of_cons, IH. by rewrite (elem_of_cons (b :: l) x a).
Qed.

Lemma dedup_sorted l : StronglySorted Z.le l -> StronglySorted Z.lt (dedup l).
Proof.
  induction 1 as [|a l Hs IH Hall]; [constructor|]. destruct l as [|b l]; [repeat constructor|].
  rewrite dedup_cons. destruct (Z.eqb_spec a b) as [->|Hne]; [done|].
  constructor; [done|]. apply Forall_forall. intros x Hx. apply (proj1 (elem_of_dedup _ _)) in Hx.
  rewrite Forall_forall in Hall. apply StronglySorted_inv in Hs as [_ Hb]. rewrite Forall_forall in Hb.
  pose proof (Hall b ltac:(apply list_elem_of_here)) as Hab.
  apply elem_of_cons in Hx as [->|Hx]; [lia|]. specialize (Hb x Hx). lia.
Qed.

(** ** Outcomes

    What a fallible computation may end in: a value with [P], or an error under
    [Q]; never a panic. *)

Definition outcome {E A} (P : A -> Prop) (Q : E -> Prop) (r : result E A) : Prop :=
  match r with Ok a => P a | Err e => Q e | Panic => False end.

Section Outcomes.
Context {E : Type} (Q : E -> Prop).

Lemma outcome_mono {A} (P P' : A -> Prop) (r : result E A) :
  outcome P Q r -> (forall a, r = Ok a -> P a -> P' a) -> outcome P' Q r.
Proof. intros Hr HP. destruct r; simpl in *; auto. Qed.

Lemma outcome_bind {A B} (P : A -> Prop) (P' : B -> Prop) (m : result E A) (f : A -> result E B) :
  outcome P Q m -> (forall a, m = Ok a -> P a -> outcome P' Q (f a)) -> outcome P' Q (m ≫= f).
Proof. intros Hm Hf. destruct m as [a| |]; simpl in *; auto. Qed.

Lemma outcome_err_mono {A} (P : A -> Prop) (Q' : E -> Prop) (r : result E A) :
  (forall e, Q' e -> Q e) -> outcome P Q' r -> outcome P Q r.
Proof. intros HQ Hr. destruct r; simpl in *; auto. Qed.

Lemma outcome_ensure (c : bool) (e : E) : (c = false -> Q e) -> outcome (fun _ => c = true) Q (ensure c e).
Proof. intros Hc. destruct c; simpl; auto. Qed.

Lemma outcome_foldM {A B} (I : list A -> B -> Prop) (f : B -> A -> result E B) l b :
  I [] b -> (forall pre a post c, l = pre ++ a :: post -> I pre c -> outcome (I (pre ++ [a])) Q (f c a)) ->
  outcome (I l) Q (foldM f l b).
Proof.
  revert I b. induction l as [|a l IH]; intros I b H0 Hs; [done|].
  change (foldM f (a :: l) b) with (f b a ≫= foldM f l).
  eapply outcome_bind; [exact (Hs [] a l b eq_refl H0)|]. intros c _ Hc.
  apply (IH (fun pre => I (a :: pre))); [done|]. intros pre a' post c' -> Hc'. exact (Hs (a :: pre) a' post c' eq_refl Hc').
Qed.

Lemma outcome_mapR {A B} (R : A -> B -> Prop) (f : A -> result E B) l :
  (forall a, a ∈ l -> outcome (R a) Q (f a)) -> outcome (Forall2 R l) Q (mapR f l).
Proof.
  induction l as [|a l IH]; intros Hf; cbn [mapR]; [constructor|].
  pose proof (Hf a (list_elem_of_here _ _)) as Ha. destruct (f a) as [b| |]; [|done..]. simpl in Ha.
  assert (outcome (Forall2 R l) Q (mapR f l)) as Hl by (apply IH; intros a' Hin; apply Hf; by apply list_elem_of_further).
  destruct (mapR f l); [|done..]. by constructor.
Qed.
End Outcomes.
