(* ===== verification/F64.v ===== *)
(** * IEEE-754 binary64, as Rust's [f64] computes it

    Values are the Standard Library's [spec_float] at precision 53 and
    maximal exponent 1024, rounding to nearest, ties to even: the exact
    bit-level semantics of [+ - * /] on [f64] (one NaN, no payloads).
    This file adds the [f64] methods the calculator calls ([max], [ceil],
    [signum], [mul_add], [total_cmp], [to_bits], the decimal conversions)
    and the order and sign lemmas the components use. *)

From S2P Require Import Prelude.
From Stdlib Require Export SpecFloat.

Local Open Scope Z_scope.

Abbreviation f64 := spec_float.

#[export] Instance f64_eq_dec : EqDecision f64.
Proof. solve_decision. Defined.

Definition f64_add : f64 -> f64 -> f64 := SFadd 53 1024.
Definition f64_sub : f64 -> f64 -> f64 := SFsub 53 1024.
Definition f64_mul : f64 -> f64 -> f64 := SFmul 53 1024.
Definition f64_div : f64 -> f64 -> f64 := SFdiv 53 1024.
Definition f64_neg : f64 -> f64 := SFopp.
Definition f64_abs : f64 -> f64 := SFabs.

Declare Scope f64_scope.
Delimit Scope f64_scope with f64.
Infix "+" := f64_add : f64_scope.
Infix "-" := f64_sub : f64_scope.
Infix "*" := f64_mul : f64_scope.
Infix "/" := f64_div : f64_scope.
Notation "- x" := (f64_neg x) : f64_scope.
Infix "=?" := SFeqb : f64_scope.
Infix "<?" := SFltb : f64_scope.
Infix "<=?" := SFleb : f64_scope.
Notation "x >? y" := (SFltb y x) (only parsing) : f64_scope.
Notation "x >=? y" := (SFleb y x) (only parsing) : f64_scope.

(** A finite value in canonical form: what a 64-bit pattern can hold. *)
Definition f64_valid : f64 -> bool := valid_binary 53 1024.

Definition f64_zero : f64 := S754_zero false.
Definition f64_neg_zero : f64 := S754_zero true.
Definition f64_inf : f64 := S754_infinity false.
Definition f64_nan : f64 := S754_nan.

(** [f64::from(n)] / [n as f64]: the nearest binary64 to an integer. *)
Definition f64_of_Z (n : Z) : f64 := binary_normalize 53 1024 n 0 false.

(** The literal [n / d], and what [str::parse::<f64>] returns for the
    decimal numeral of value [n / d]: the nearest binary64. *)
Definition f64_of_ratio (n : Z) (d : positive) : f64 :=
  match n with
  | Z0 => f64_zero
  | Zpos p => f64_div (S754_finite false p 0) (S754_finite false d 0)
  | Zneg p => f64_div (S754_finite true p 0) (S754_finite false d 0)
  end.

Definition f64_one : f64 := f64_of_Z 1.
(** [f64::EPSILON], 2^-52. *)
Definition f64_epsilon : f64 := S754_finite false (2^52) (-104).

Definition is_finite (x : f64) : bool :=
  match x with S754_zero _ | S754_finite _ _ _ => true | _ => false end.
Definition is_nan (x : f64) : bool := match x with S754_nan => true | _ => false end.
Definition is_sign_negative (x : f64) : bool :=
  match x with
  | S754_zero s | S754_infinity s | S754_finite s _ _ => s
  | S754_nan => false
  end.

(** [f64::max]: a NaN argument is ignored. *)
Definition f64_max (x y : f64) : f64 :=
  if is_nan x then y else if is_nan y then x else if (x <? y)%f64 then y else x.
Definition f64_min (x y : f64) : f64 :=
  if is_nan x then y else if is_nan y then x else if (y <? x)%f64 then y else x.
(** [f64::clamp(lo, hi)] for [lo <= hi]. *)
Definition f64_clamp (x lo hi : f64) : f64 :=
  if (x <? lo)%f64 then lo else if (hi <? x)%f64 then hi else x.

(** [f64::signum]: [1.0] with the sign of the number, NaN for NaN. *)
Definition f64_signum (x : f64) : f64 :=
  match x with
  | S754_nan => S754_nan
  | _ => if is_sign_negative x then (- f64_one)%f64 else f64_one
  end.

Definition f64_recip (x : f64) : f64 := (f64_one / x)%f64.

(** [f64::ceil]. *)
Definition f64_ceil (x : f64) : f64 :=
  match x with
  | S754_finite s m e =>
      if 0 <=? e then x
      else
        let d := 2 ^ (- e) in
        let n := if s then - (Z.pos m / d) else (Z.pos m + d - 1) / d in
        binary_normalize 53 1024 n 0 s
  | _ => x
  end.

(** The integer [format!("{x:.0}").parse::<usize>()] yields on an
    integer-valued [x]; a sign, "inf", "NaN" and values over the range fail
    to parse. *)
Definition f64_integral_to_usize (x : f64) : option Z :=
  match x with
  | S754_zero false => Some 0
  | S754_finite false m e =>
      let n := Z.shiftl (Z.pos m) e in
      if n <=? USIZE_MAX then Some n else None
  | _ => None
  end.

(** [f64::mul_add]: one rounding of the exact [x * y + z]. *)
Definition f64_mul_add (x y z : f64) : f64 :=
  match x, y with
  | S754_finite sx mx ex, S754_finite sy my ey =>
      match z with
      | S754_finite sz mz ez =>
          let sp := xorb sx sy in
          let ep := ex + ey in
          let e := Z.min ep ez in
          binary_normalize 53 1024
            (cond_Zopp sp (Z.pos mx * Z.pos my * 2 ^ (ep - e))
             + cond_Zopp sz (Z.pos mz * 2 ^ (ez - e))) e false
      | S754_zero _ => f64_mul x y
      | _ => z
      end
  | _, _ => f64_add (f64_mul x y) z
  end.

(** [f64::to_bits] (the canonical quiet NaN for NaN). *)
Definition f64_to_bits (x : f64) : Z :=
  match x with
  | S754_zero s => if s then 2^63 else 0
  | S754_infinity s => (if s then 2^63 else 0) + 2047 * 2^52
  | S754_nan => 2047 * 2^52 + 2^51
  | S754_finite s m e =>
      (if s then 2^63 else 0)
      + (if Z.pos m <? 2^52 then Z.pos m else (e + 1075) * 2^52 + (Z.pos m - 2^52))
  end.

(** The integer [f64::total_cmp] compares: the bits as a signed integer,
    with the low 63 bits flipped when the sign bit is set. *)
Definition total_key (x : f64) : Z :=
  let b := f64_to_bits x in
  if b <? 2^63 then b else - (b - 2^63) - 1.
Definition total_cmp (x y : f64) : comparison := total_key x ?= total_key y.

(** [iter.sum::<f64>()]: the neutral element is [-0.0]. *)
Definition f64_sum (l : list f64) : f64 := foldl f64_add f64_neg_zero l.

(** ** Order lemmas *)

Lemma SFcompare_opp x y :
  SFcompare y x = match SFcompare x y with Some c => Some (CompOpp c) | None => None end.
Proof.
  destruct x as [[]|[]| |[] mx ex], y as [[]|[]| |[] my ey]; simpl; try done.
  all: rewrite (Z.compare_antisym ex ey); destruct (ex ?= ey) eqn:E; simpl; try done.
  all: fold (Pos.compare my mx) (Pos.compare mx my); rewrite (Pos.compare_antisym mx my);
    by destruct (mx ?= my)%positive.
Qed.

Lemma SFcompare_Some x y c :
  SFcompare x y = Some c -> is_nan x = false /\ is_nan y = false.
Proof. by destruct x as [[]|[]| |[] mx ex], y as [[]|[]| |[] my ey]. Qed.

Lemma SFcompare_not_nan x y :
  is_nan x = false -> is_nan y = false -> exists c, SFcompare x y = Some c.
Proof. destruct x as [[]|[]| |[] mx ex], y as [[]|[]| |[] my ey]; simpl; eauto; done. Qed.

Lemma SFltb_not_leb x y :
  is_nan x = false -> is_nan y = false -> SFltb x y = negb (SFleb y x).
Proof.
  intros Hx Hy. unfold SFltb, SFleb. rewrite (SFcompare_opp x y).
  destruct (SFcompare_not_nan x y Hx Hy) as [[] ->]; done.
Qed.

Lemma SFleb_abs_nonneg x : is_nan x = false -> SFleb f64_zero (f64_abs x) = true.
Proof. by destruct x as [[]|[]| |[] m e]. Qed.

Lemma is_finite_abs x : is_finite (f64_abs x) = is_finite x.
Proof. by destruct x. Qed.

Lemma is_finite_not_nan x : is_finite x = true -> is_nan x = false.
Proof. by destruct x. Qed.

Lemma SFltb_not_nan x y : SFltb x y = true -> is_nan x = false /\ is_nan y = false.
Proof.
  unfold SFltb. destruct (SFcompare x y) eqn:E; [|done].
  intros _. by apply SFcompare_Some in E.
Qed.

Lemma SFleb_not_nan x y : SFleb x y = true -> is_nan x = false /\ is_nan y = false.
Proof.
  unfold SFleb. destruct (SFcompare x y) eqn:E; [|done].
  intros _. by apply SFcompare_Some in E.
Qed.

(** [total_cmp] is a total preorder on bit patterns, for every value. *)
Lemma total_cmp_opp x y : total_cmp y x = CompOpp (total_cmp x y).
Proof. apply Z.compare_antisym. Qed.

Lemma total_cmp_not_gt x y : not_gt total_cmp x y = true <-> total_key x <= total_key y.
Proof. unfold not_gt, total_cmp. destruct (Z.compare_spec (total_key x) (total_key y)); lia. Qed.

Lemma pos_compare_cont_spec (m n : positive) :
  CompareSpec (m = n) (m < n)%positive (n < m)%positive (Pos.compare_cont Eq m n).
Proof. exact (Pos.compare_spec m n). Qed.

Lemma SFleb_trans x y z : SFleb x y = true -> SFleb y z = true -> SFleb x z = true.
Proof.
  unfold SFleb.
  destruct x as [[]|[]| |[] mx ex], y as [[]|[]| |[] my ey], z as [[]|[]| |[] mz ez];
    simpl; try done.
  all: destruct (Z.compare_spec ex ey), (Z.compare_spec ey ez), (Z.compare_spec ex ez);
    try done; try lia.
  all: destruct (pos_compare_cont_spec mx my), (pos_compare_cont_spec my mz),
    (pos_compare_cont_spec mx mz); simpl; try done; lia.
Qed.

Lemma SFltb_leb x y : SFltb x y = true -> SFleb x y = true.
Proof. unfold SFltb, SFleb. by destruct (SFcompare x y) as [[]|]. Qed.

Lemma SFleb_refl x : is_nan x = false -> SFleb x x = true.
Proof.
  unfold SFleb. destruct x as [[]|[]| |[] mx ex]; simpl; try done.
  all: by rewrite Z.compare_refl; fold (Pos.compare mx mx); rewrite Pos.compare_refl.
Qed.

Lemma f64_max_ge_l x y : is_nan x = false -> SFleb x (f64_max x y) = true.
Proof.
  intros Hx. unfold f64_max. rewrite Hx. destruct (is_nan y); [by apply SFleb_refl|].
  destruct (SFltb x y) eqn:E; [by apply SFltb_leb|by apply SFleb_refl].
Qed.

Lemma f64_max_ge_r x y : is_nan y = false -> SFleb y (f64_max x y) = true.
Proof.
  intros Hy. unfold f64_max. destruct (is_nan x) eqn:Hx; [by apply SFleb_refl|]. rewrite Hy.
  destruct (SFltb x y) eqn:E; [by apply SFleb_refl|].
  rewrite SFltb_not_leb in E by done. by apply negb_false_iff in E.
Qed.

(** ** Exact products by one

    Rounding an exactly represented value returns it: [1.0 * x] and
    [-1.0 * x] lose nothing. *)

Lemma digits2_shift m n : digits2_pos (Pos.iter xO m n) = (digits2_pos m + n)%positive.
Proof.
  revert m. induction n as [|n IH] using Pos.peano_ind; intros m; simpl; [lia|].
  rewrite Pos.iter_succ. simpl. rewrite IH. lia.
Qed.

Lemma iter_pos_shr_1 m n :
  iter_pos shr_1 n {| shr_m := Z.pos (Pos.iter xO m n); shr_r := false; shr_s := false |}
  = {| shr_m := Z.pos m; shr_r := false; shr_s := false |}.
Proof.
  assert (forall A (f : A -> A) p x, iter_pos f p x = Pos.iter f x p) as Hiter.
  { intros A f p. induction p as [p IH|p IH|]; intros x; simpl; [| |done].
    - rewrite !IH. by rewrite <- !Pos.iter_swap.
    - by rewrite !IH. }
  rewrite Hiter. revert m. induction n as [|n IH] using Pos.peano_ind; intros m; [done|].
  rewrite Pos.iter_succ_r, Pos.iter_succ. simpl. apply IH.
Qed.

Lemma pos_mul_pow52 m : (2^52 * m)%positive = Pos.iter xO m 52.
Proof. reflexivity. Qed.

(** [m * 2^n] at exponent [e - n], for canonical [(m, e)]. *)
Lemma round_exact_shift s m e (n : positive) :
  bounded 53 1024 m e = true ->
  binary_round_aux 53 1024 s (Z.pos (Pos.iter xO m n)) (e - Z.pos n) loc_Exact = S754_finite s m e.
Proof.
  intros Hb. unfold bounded, canonical_mantissa in Hb. bool_hyps.
  unfold binary_round_aux, shr_fexp.
  cbn [Zdigits2 shr_record_of_loc]. rewrite digits2_shift.
  replace (Z.pos (digits2_pos m + n) + (e - Z.pos n)) with (Z.pos (digits2_pos m) + e) by lia.
  rewrite H. replace (e - (e - Z.pos n)) with (Z.pos n) by lia. cbn [shr].
  rewrite iter_pos_shr_1. cbn [shr_m loc_of_shr_record round_nearest_even Zdigits2].
  replace (e - Z.pos n + Z.pos n) with e by lia. rewrite H, Z.sub_diag. cbn [shr shr_m].
  rewrite (proj2 (Z.leb_le e (1024 - 53))) by lia. done.
Qed.

Lemma round_exact_52 s m e :
  bounded 53 1024 m e = true ->
  binary_round_aux 53 1024 s (Z.pos (2^52 * m)) (e + -52) loc_Exact = S754_finite s m e.
Proof. apply round_exact_shift. Qed.

Lemma round_exact_0 s m e :
  bounded 53 1024 m e = true ->
  binary_round_aux 53 1024 s (Z.pos m) e loc_Exact = S754_finite s m e.
Proof.
  intros Hb. unfold bounded, canonical_mantissa in Hb. bool_hyps.
  unfold binary_round_aux, shr_fexp. cbn [Zdigits2 shr_record_of_loc].
  rewrite H, Z.sub_diag. cbn [shr shr_m loc_of_shr_record round_nearest_even Zdigits2].
  rewrite H, Z.sub_diag. cbn [shr shr_m]. by rewrite (proj2 (Z.leb_le e (1024 - 53))) by lia.
Qed.

Lemma f64_one_eq : f64_one = S754_finite false (2^52) (-52).
Proof. reflexivity. Qed.

Lemma f64_mul_one_l x : f64_valid x = true -> (f64_one * x)%f64 = x.
Proof.
  rewrite f64_one_eq. destruct x as [[]|[]| |s m e]; simpl; try done.
  intros Hb. unfold f64_mul. simpl. rewrite Z.add_comm. by apply round_exact_52.
Qed.

Lemma f64_mul_neg_one_l x : f64_valid x = true -> ((- f64_one) * x)%f64 = (- x)%f64.
Proof.
  rewrite f64_one_eq. destruct x as [[]|[]| |s m e]; simpl; try done.
  intros Hb. unfold f64_mul. simpl. rewrite Z.add_comm.
  replace (match s with true => false | false => true end) with (negb s) by by destruct s.
  by apply round_exact_52.
Qed.

Lemma f64_mul_comm x y : (x * y)%f64 = (y * x)%f64.
Proof.
  destruct x as [[]|[]| |[] mx ex], y as [[]|[]| |[] my ey]; try done;
    unfold f64_mul; cbn [SFmul xorb]; by rewrite Pos.mul_comm, Z.add_comm.
Qed.

(** Division by one, and by minus one, loses nothing. *)
Lemma div_core_one m e :
  bounded 53 1024 m e = true ->
  SFdiv_core_binary 53 1024 (Z.pos m) e (2^52) (-52) = (Z.pos m, e, loc_Exact)
  \/ SFdiv_core_binary 53 1024 (Z.pos m) e (2^52) (-52) = (Z.pos (Pos.iter xO m 1), e - 1, loc_Exact).
Proof.
  intros Hb. unfold bounded, canonical_mantissa in Hb. bool_hyps. apply Z.eqb_eq in H || idtac.
  unfold SFdiv_core_binary. cbn [Zdigits2].
  assert (forall k, Z.div_eucl (Z.shiftl (Z.pos m) (52 + k)) (2^52) = (Z.shiftl (Z.pos m) k, 0)
    \/ k < 0) as Hdiv.
  { intros k. destruct (decide (k < 0)) as [|Hk]; [by right|left].
    pose proof (Z_div_mod (Z.shiftl (Z.pos m) (52 + k)) (2^52) ltac:(lia)) as Hd.
    destruct (Z.div_eucl _ _) as [q r]. destruct Hd as [Hq Hr].
    rewrite Z.shiftl_mul_pow2, Z.pow_add_r in Hq by lia. rewrite Z.shiftl_mul_pow2 by lia.
    assert (q = Z.pos m * 2^k /\ r = 0) as [-> ->]; [|done].
    assert (2^52 * (Z.pos m * 2^k - q) = r) as Hr' by lia. clear Hq.
    assert (Z.pos m * 2^k - q = 0) by nia. lia. }
  change (Zdigits2 (2^52) + -52) with 1. unfold fexp, emin in *.
  set (d := Z.pos (digits2_pos m)) in *. apply Z.eqb_eq in H.
  assert (Z.min (Z.max (d + e - 1 - 53) (3 - 1024 - 53)) (e - -52) = e
    \/ Z.min (Z.max (d + e - 1 - 53) (3 - 1024 - 53)) (e - -52) = e - 1) as [-> | ->] by lia.
  - left. replace (e - -52 - e) with 52 by lia.
    destruct (Hdiv 0) as [Hd|]; [|lia]. change (52 + 0) with 52 in Hd. by rewrite Hd.
  - right. replace (e - -52 - (e - 1)) with 53 by lia.
    destruct (Hdiv 1) as [Hd|]; [|lia]. change (52 + 1) with 53 in Hd. by rewrite Hd.
Qed.

Lemma f64_div_one x : f64_valid x = true -> (x / f64_one)%f64 = x.
Proof.
  rewrite f64_one_eq. destruct x as [[]|[]| |s m e]; try done. intros Hb.
  unfold f64_div. cbn [SFdiv]. change (Z.pos (2^52)) with (2^52)%Z. rewrite xorb_false_r.
  destruct (div_core_one m e Hb) as [-> | ->]; [by apply round_exact_0|by apply (round_exact_shift s m e 1)].
Qed.

Lemma f64_div_neg_one x : f64_valid x = true -> (x / (- f64_one))%f64 = (- x)%f64.
Proof.
  rewrite f64_one_eq. destruct x as [[]|[]| |s m e]; try done. intros Hb.
  unfold f64_div, f64_neg. cbn [SFdiv SFopp negb]. change (Z.pos (2^52)) with (2^52)%Z. rewrite xorb_true_r.
  destruct (div_core_one m e Hb) as [-> | ->]; [by apply round_exact_0|by apply (round_exact_shift _ m e 1)].
Qed.

Lemma f64_mul_one_r x : f64_valid x = true -> (x * f64_one)%f64 = x.
Proof. rewrite f64_mul_comm. apply f64_mul_one_l. Qed.

(** Opposite values cancel exactly. *)
Lemma f64_add_opp x : is_finite x = true -> (x + (- x))%f64 = f64_zero.
Proof.
  destruct x as [[]|[]| |s m e]; try done. intros _. unfold f64_add, f64_neg. cbn [SFadd SFopp].
  rewrite Z.min_id. unfold shl_align. rewrite Z.sub_diag. cbn [fst].
  replace (cond_Zopp s (Z.pos m) + cond_Zopp (negb s) (Z.pos m)) with 0; [done|].
  destruct s; cbn [cond_Zopp negb]; lia.
Qed.

Lemma f64_zero_add x : is_finite x = true -> (x =? f64_zero)%f64 = false -> (f64_zero + x)%f64 = x.
Proof. by destruct x as [[]|[]| |s m e]. Qed.

(** A product of positive values is not negative. *)
Lemma shr_1_nonneg r : 0 <= shr_m r -> 0 <= shr_m (shr_1 r).
Proof. destruct r as [[|[]|[]] r s]; simpl; lia. Qed.

Lemma shr_nonneg r e n : 0 <= shr_m r -> 0 <= shr_m (shr r e n).1.
Proof.
  intros Hr. destruct n as [|p|p]; [done| |done]. simpl. revert r Hr.
  induction p as [p IH|p IH|]; intros r Hr; simpl; auto using shr_1_nonneg.
Qed.

Lemma round_sign_nonneg m e l :
  0 <= m -> (f64_zero <=? binary_round_aux 53 1024 false m e l)%f64 = true.
Proof.
  intros Hm. unfold binary_round_aux.
  assert (0 <= shr_m (shr_fexp 53 1024 m e l).1) as H1.
  { apply shr_nonneg. by destruct l as [|[]]. }
  destruct (shr_fexp 53 1024 m e l) as [r1 e1]. cbn [fst] in H1.
  set (m2 := round_nearest_even (shr_m r1) (loc_of_shr_record r1)).
  assert (0 <= m2) as H2.
  { unfold m2, round_nearest_even. repeat case_match; lia. }
  assert (0 <= shr_m (shr_fexp 53 1024 m2 e1 loc_Exact).1) as H3 by by apply shr_nonneg.
  destruct (shr_fexp 53 1024 m2 e1 loc_Exact) as [r2 e2]. cbn [fst] in H3.
  destruct (shr_m r2); [done| |lia]. by destruct (_ <=? _).
Qed.

Definition f64_positive (x : f64) : Prop := is_finite x = true /\ (f64_zero <? x)%f64 = true.

Lemma f64_mul_positive x y :
  f64_positive x -> f64_positive y -> (f64_zero <=? x * y)%f64 = true.
Proof.
  intros [Hx Hx'] [Hy Hy']. destruct x as [[]|[]| |[] mx ex]; try done.
  destruct y as [[]|[]| |[] my ey]; try done. by apply round_sign_nonneg.
Qed.

Lemma f64_valid_neg x : f64_valid (- x)%f64 = f64_valid x.
Proof. by destruct x. Qed.

Lemma is_finite_neg x : is_finite (- x)%f64 = is_finite x.
Proof. by destruct x. Qed.

(** ** Signs of products and differences *)

Lemma round_sign s m e l :
  is_finite (binary_round_aux 53 1024 s m e l) = true -> is_sign_negative (binary_round_aux 53 1024 s m e l) = s.
Proof.
  unfold binary_round_aux. destruct (shr_fexp 53 1024 m e l) as [r1 e1].
  destruct (shr_fexp _ _ _ _ _) as [r2 e2]. destruct (shr_m r2); [done| |done]. by destruct (_ <=? _).
Qed.

Lemma f64_mul_finite x y : is_finite (x * y)%f64 = true -> is_finite x = true /\ is_finite y = true.
Proof. by destruct x, y. Qed.

Lemma f64_mul_sign x y :
  is_finite (x * y)%f64 = true -> is_sign_negative (x * y)%f64 = xorb (is_sign_negative x) (is_sign_negative y).
Proof. destruct x as [| | |sx mx ex], y as [| | |sy my ey]; try done. apply round_sign. Qed.

Lemma round_abs s m e l :
  f64_abs (binary_round_aux 53 1024 s m e l) = f64_abs (binary_round_aux 53 1024 (negb s) m e l).
Proof.
  unfold binary_round_aux. destruct (shr_fexp 53 1024 m e l) as [r1 e1].
  destruct (shr_fexp _ _ _ _ _) as [r2 e2]. destruct (shr_m r2); [done| |done]. by destruct (_ <=? _).
Qed.

Lemma normalize_abs m e s : f64_abs (binary_normalize 53 1024 m e s) = f64_abs (binary_normalize 53 1024 (- m) e s).
Proof.
  destruct m as [|m|m]; [done|rewrite Pos2Z.opp_pos|rewrite Pos2Z.opp_neg]; cbn [binary_normalize]; unfold binary_round;
    destruct (shl_align _ _ _) as [mz ez];
    [exact (round_abs false _ _ _)|exact (round_abs true _ _ _)].
Qed.

Lemma f64_abs_sub_neg x y : f64_abs (- x - y)%f64 = f64_abs (x - - y)%f64.
Proof.
  destruct x as [[]|[]| |sx mx ex], y as [[]|[]| |sy my ey]; try done.
  unfold f64_sub, f64_neg. cbn [SFopp SFsub]. rewrite normalize_abs. do 2 f_equal. destruct sx, sy; cbn [negb cond_Zopp]; lia.
Qed.

Lemma f64_abs_sign x : f64_abs x = if is_sign_negative x then (- x)%f64 else x.
Proof. by destruct x as [[]|[]| |[]]. Qed.

#[export] Hint Resolve SFleb_trans SFltb_leb SFleb_refl is_finite_not_nan : lca.
