(* ===== verification/Csc.v ===== *)
(** * Compressed sparse column matrices

    Models [crates/suitesparse-ffi/src/matrix.rs]: the triplet and matrix
    records, [validate], [new], [from_triplets] / [from_triplet_iter],
    [mul_vector] and the byte accounting.  The theorems relate [validate] to
    the structural invariant [csc_wf], the constructor to the reference
    "sum of the kept triplets" matrix, and [mul_vector] to the row-by-row
    product. *)

From S2P Require Import Prelude F64.

Local Open Scope Z_scope.

Record MatrixTriplet := mk_triplet { t_row : Z; t_col : Z; t_value : f64 }.

Record CscMatrix := mk_csc {
  nrows : Z;
  ncols : Z;
  col_ptr : list Z;
  row_idx : list Z;
  values : list f64;
}.

Inductive MatrixError :=
| InvalidDimensions (nrows ncols : Z)
| InvalidColPtrLength (got expected : nat)
| InvalidColPtrStart
| NonMonotonicColPtr
| InvalidNnz (last : Z) (nnz : nat)
| RowOutOfRange (row nrows : Z)
| ColOutOfRange (col ncols : Z)
| NonSortedOrDuplicateRows
| IndexOverflow.

#[export] Instance CscMatrix_eq_dec : EqDecision CscMatrix.
Proof. solve_decision. Defined.
#[export] Instance MatrixError_eq_dec : EqDecision MatrixError.
Proof. solve_decision. Defined.

(** [(0..n).contains(&z)]. *)
Definition in_range (z n : Z) : bool := (0 <=? z) && (z <? n).

(** One iteration of the last loop of [validate]: the rows of column [col]. *)
Definition validate_column (m : CscMatrix) (col : nat) : result MatrixError unit :=
  s ← expect (col_ptr m !! col);
  start ← ok_or IndexOverflow (usize_of_i32 s);
  e ← expect (col_ptr m !! S col);
  stop ← ok_or IndexOverflow (usize_of_i32 e);
  rows ← slice (row_idx m) start stop;
  ensure (negb (windows_any (fun a b => b <=? a) rows)) NonSortedOrDuplicateRows.

Definition validate (m : CscMatrix) : result MatrixError unit :=
  _ ← ensure (negb ((nrows m <=? 0) || (ncols m <=? 0))) (InvalidDimensions (nrows m) (ncols m));
  nc ← ok_or IndexOverflow (usize_of_i32 (ncols m));
  let expected_col_len := (nc + 1)%nat in
  _ ← ensure (length (col_ptr m) =? expected_col_len)%nat
        (InvalidColPtrLength (length (col_ptr m)) expected_col_len);
  _ ← ensure (bool_decide (head (col_ptr m) = Some 0)) InvalidColPtrStart;
  _ ← ensure (negb (windows_any (fun a b => b <? a) (col_ptr m))) NonMonotonicColPtr;
  let nnz := length (values m) in
  _ ← (if (length (row_idx m) =? nnz)%nat then Ok tt
       else l ← ok_or IndexOverflow (i32_of_usize (length (row_idx m))); Err (InvalidNnz l nnz));
  let last_ := default (-1) (last (col_ptr m)) in
  _ ← ensure (bool_decide (usize_of_i32 last_ = Some nnz)) (InvalidNnz last_ nnz);
  _ ← foldM (fun _ row => ensure (in_range row (nrows m)) (RowOutOfRange row (nrows m)))
        (row_idx m) tt;
  nc' ← ok_or IndexOverflow (usize_of_i32 (ncols m));
  foldM (fun _ col => validate_column m col) (seq 0 nc') tt.

(** [CscMatrix::new]. *)
Definition csc_new (nrows ncols : Z) (col_ptr row_idx : list Z) (values : list f64)
    : result MatrixError CscMatrix :=
  let matrix := mk_csc nrows ncols col_ptr row_idx values in
  _ ← validate matrix;
  Ok matrix.

(** The aggregation pass of [from_triplet_iter]: one iteration of the loop
    over the triplets, on the [HashMap] [acc]. *)
Definition accumulate_triplet (nrows ncols : Z) (zero_epsilon : f64)
    (acc : gmap (Z * Z) f64) (t : MatrixTriplet) : result MatrixError (gmap (Z * Z) f64) :=
  _ ← ensure (in_range (t_row t) nrows) (RowOutOfRange (t_row t) nrows);
  _ ← ensure (in_range (t_col t) ncols) (ColOutOfRange (t_col t) ncols);
  if (f64_abs (t_value t) <=? zero_epsilon)%f64 then Ok acc
  else
    let key := (t_row t, t_col t) in
    Ok (<[key := (default f64_zero (acc !! key) + t_value t)%f64]> acc).

Abbreviation entry := (Z * Z * f64)%type.
Definition e_row (e : entry) : Z := e.1.1.
Definition e_col (e : entry) : Z := e.1.2.

(** The comparator of [entries.sort_by]: column, then row. *)
Definition entry_cmp (a b : entry) : comparison :=
  match e_col a ?= e_col b with Eq => e_row a ?= e_row b | c => c end.

(** [acc.into_iter().filter_map(..).collect()] followed by the sort, for the
    iteration order [iter] of the [HashMap]. *)
Definition collect_entries (zero_epsilon : f64) (iter : list entry) : list entry :=
  sort_by entry_cmp (filter (fun e => (f64_abs e.2 >? zero_epsilon)%f64 = true) iter).

(** [col_ptr[col + 1] += 1] for each entry. *)
Definition count_columns (nc : nat) (entries : list entry) : result MatrixError (list Z) :=
  foldM (fun cp e =>
    c ← ok_or IndexOverflow (usize_of_i32 (e_col e));
    x ← expect (cp !! S c);
    Ok (<[S c := i32_add x 1]> cp)) entries (replicate (nc + 1) 0).

(** [col_ptr[col + 1] += col_ptr[col]] for each column. *)
Definition prefix_sum (nc : nat) (cp : list Z) : result MatrixError (list Z) :=
  foldM (fun cp col =>
    b ← expect (cp !! col);
    a ← expect (cp !! S col);
    Ok (<[S col := i32_add a b]> cp)) (seq 0 nc) cp.

(** The matrix assembled from the sorted entries. *)
Definition csc_of_entries (nrows ncols : Z) (entries : list entry)
    : result MatrixError CscMatrix :=
  nc ← ok_or IndexOverflow (usize_of_i32 ncols);
  counts ← count_columns nc entries;
  col_ptr ← prefix_sum nc counts;
  csc_new nrows ncols col_ptr (e_row <$> entries) (snd <$> entries).

Definition from_triplet_iter (nrows ncols : Z) (triplets : list MatrixTriplet)
    (zero_epsilon : f64) : result MatrixError CscMatrix :=
  if (nrows <=? 0) || (ncols <=? 0) then Err (InvalidDimensions nrows ncols)
  else
    acc ← foldM (accumulate_triplet nrows ncols zero_epsilon) triplets ∅;
    csc_of_entries nrows ncols (collect_entries zero_epsilon (map_to_list acc)).

Definition from_triplets := from_triplet_iter.

Definition shape (m : CscMatrix) : Z * Z := (nrows m, ncols m).
Definition nnz (m : CscMatrix) : nat := length (values m).

(** Read-modify-write of slot [row] of a buffer, for one stored (row, value)
    pair; indexing panics out of range. *)
Definition scatter_at {E S} (g : f64 -> S -> S) (out : list S) (rv : Z * f64)
    : result E (list S) :=
  let row := usize_or_default rv.1 in
  o ← expect (out !! row);
  Ok (<[row := g rv.2 o]> out).

(** [out[row] += v * xj]. *)
Definition mul_acc (xj v o : f64) : f64 := (o + v * xj)%f64.

(** The body of the column loop of [mul_vector]. *)
Definition mul_column {E} (m : CscMatrix) (out : list f64) (cx : nat * f64)
    : result E (list f64) :=
  let '(col, xj) := cx in
  s ← expect (col_ptr m !! col);
  e ← expect (col_ptr m !! S col);
  let start := usize_or_default s in
  let stop := usize_or_default e in
  foldM (fun out idx =>
    r ← expect (row_idx m !! idx);
    v ← expect (values m !! idx);
    scatter_at (mul_acc xj) out (r, v)) (seq start (stop - start)) out.

Definition mul_vector {E} (m : CscMatrix) (x : list f64) : result E (list f64) :=
  let out := replicate (usize_or_default (nrows m)) f64_zero in
  if negb (length x =? usize_or_default (ncols m))%nat then Ok out
  else foldM (mul_column m) (take (usize_or_default (ncols m)) (imap pair x)) out.

(** [estimated_owned_bytes]: 4-byte indices and 8-byte values, at the
    capacity the allocator granted for a vector of the given length. *)
Definition estimated_owned_bytes (capacity : nat -> Z) (m : CscMatrix) : Z :=
  saturating_add
    (saturating_add (saturating_mul (capacity (length (col_ptr m))) 4)
       (saturating_mul (capacity (length (row_idx m))) 4))
    (saturating_mul (capacity (length (values m))) 8).

(** ** The structural invariant and [validate] *)

Record csc_wf (m : CscMatrix) : Prop := {
  wf_nrows : 0 < nrows m;
  wf_ncols : 0 < ncols m;
  wf_len : length (col_ptr m) = S (Z.to_nat (ncols m));
  wf_start : head (col_ptr m) = Some 0;
  wf_mono : StronglySorted Z.le (col_ptr m);
  wf_nnz : length (row_idx m) = length (values m);
  wf_last : last (col_ptr m) = Some (Z.of_nat (length (values m)));
  wf_rows : Forall (fun r => 0 <= r < nrows m) (row_idx m);
  wf_cols : forall j s e, col_ptr m !! j = Some s -> col_ptr m !! S j = Some e ->
    StronglySorted Z.lt (take (Z.to_nat e - Z.to_nat s) (drop (Z.to_nat s) (row_idx m)));
}.

Lemma in_range_true z n : in_range z n = true <-> 0 <= z < n.
Proof. unfold in_range. rewrite andb_true_iff, Z.leb_le, Z.ltb_lt. lia. Qed.

Lemma sorted_head_le l i z : head l = Some 0 -> StronglySorted Z.le l -> l !! i = Some z -> 0 <= z.
Proof.
  intros Hh Hs Hi. destruct Hs as [|x l Hs Hall]; [done|]. simplify_eq/=.
  destruct i as [|i]; simplify_eq/=; [lia|]. rewrite Forall_lookup in Hall. eauto.
Qed.

Lemma sorted_last_ge l i z y : StronglySorted Z.le l -> l !! i = Some z -> last l = Some y -> z <= y.
Proof.
  intros Hs. revert i z. induction Hs as [|x l Hs IH Hall]; [done|]. intros i z Hi Hl.
  destruct l as [|x' l].
  { destruct i; simplify_eq/=. lia. }
  rewrite last_cons_cons in Hl. destruct i as [|i]; simplify_eq/=; [|by apply (IH i)].
  apply Forall_inv in Hall. etrans; [exact Hall|]. by apply (IH 0%nat).
Qed.

(** In range, the offsets of a well-formed column are ordered and bounded. *)
Lemma wf_offsets m j :
  head (col_ptr m) = Some 0 -> StronglySorted Z.le (col_ptr m) ->
  last (col_ptr m) = Some (Z.of_nat (length (values m))) ->
  (S j < length (col_ptr m))%nat ->
  exists s e, col_ptr m !! j = Some s /\ col_ptr m !! S j = Some e /\
    0 <= s <= e /\ e <= Z.of_nat (length (values m)).
Proof.
  intros Hh Hs Hl Hj.
  destruct (lookup_lt_is_Some_2 (col_ptr m) j) as [s Hsj]; [lia|].
  destruct (lookup_lt_is_Some_2 (col_ptr m) (S j)) as [e He]; [lia|].
  exists s, e. split_and!; [done..| | |].
  - by eapply sorted_head_le.
  - apply (proj2 (adjacent_sorted Z.le (col_ptr m)) Hs j); done.
  - by eapply sorted_last_ge.
Qed.

Lemma validate_column_ok m j s e :
  col_ptr m !! j = Some s -> col_ptr m !! S j = Some e ->
  0 <= s <= e -> e <= Z.of_nat (length (row_idx m)) ->
  validate_column m j = Ok tt <->
  StronglySorted Z.lt (take (Z.to_nat e - Z.to_nat s) (drop (Z.to_nat s) (row_idx m))).
Proof.
  intros Hs He Hse Hle. unfold validate_column. rewrite Hs, He. simpl.
  unfold usize_of_i32. rewrite !decide_True by lia. simpl. unfold slice.
  rewrite (proj2 (Nat.leb_le _ _)) by lia. rewrite (proj2 (Nat.leb_le _ _)) by lia. simpl.
  rewrite ensure_ok, negb_true_iff, windows_any_false, <- (adjacent_sorted _).
  split; intros H i a b Ha Hb; specialize (H i a b Ha Hb); bool_hyps; [lia|]. by apply Z.leb_gt.
Qed.

(** The guards of [validate] before its column loop, as propositions. *)
Definition guards (m : CscMatrix) : Prop :=
  0 < nrows m /\ 0 < ncols m /\
  length (col_ptr m) = S (Z.to_nat (ncols m)) /\
  head (col_ptr m) = Some 0 /\
  StronglySorted Z.le (col_ptr m) /\
  length (row_idx m) = length (values m) /\
  last (col_ptr m) = Some (Z.of_nat (length (values m))) /\
  Forall (fun r => 0 <= r < nrows m) (row_idx m).

Lemma windows_mono l : windows_any (fun a b => b <? a) l = false <-> StronglySorted Z.le l.
Proof.
  rewrite windows_any_false, <- (adjacent_sorted _).
  by setoid_rewrite Z.ltb_ge.
Qed.

Lemma usize_last (l : list Z) n :
  usize_of_i32 (default (-1) (last l)) = Some n <-> last l = Some (Z.of_nat n).
Proof.
  rewrite usize_of_i32_Some. destruct (last l); simpl; split.
  - intros [? ->]. f_equal. lia.
  - intros [= ->]. lia.
  - lia.
  - done.
Qed.

Lemma rows_loop m l :
  foldM (fun _ row => ensure (in_range row (nrows m)) (RowOutOfRange row (nrows m))) l tt = Ok tt
    /\ Forall (fun r => 0 <= r < nrows m) l
  \/ (exists e, foldM (fun _ row => ensure (in_range row (nrows m)) (RowOutOfRange row (nrows m))) l tt
        = Err e) /\ ~ Forall (fun r => 0 <= r < nrows m) l.
Proof.
  induction l as [|r l IH]; simpl; [left; by split|].
  destruct (in_range r (nrows m)) eqn:Er; simpl.
  - apply in_range_true in Er. destruct IH as [[? ?]|[? ?]]; [left; by split; [|constructor]|].
    right. split; [done|]. by intros ?%Forall_inv_tail.
  - right. split; [by eauto|]. intros Hr%Forall_inv. by apply in_range_true in Hr; congruence.
Qed.

Ltac guard_fails := left; split; [eexists; reflexivity | tauto].

(** Either a guard rejects with an error, or the outcome is the column loop. *)
Lemma validate_cases m :
  (exists e, validate m = Err e) /\ ~ guards m \/
  validate m = foldM (fun _ col => validate_column m col) (seq 0 (Z.to_nat (ncols m))) tt /\ guards m.
Proof.
  unfold validate, guards.
  destruct ((nrows m <=? 0) || (ncols m <=? 0)) eqn:Ed; simpl.
  { left. split; [by eauto|]. apply orb_true_iff in Ed as [?|?]; bool_hyps; lia. }
  bool_hyps. assert (usize_of_i32 (ncols m) = Some (Z.to_nat (ncols m))) as ->
    by (apply usize_of_i32_Some; lia). cbn [ok_or mbind result_bind]. rewrite Nat.add_1_r.
  destruct (Nat.eqb_spec (length (col_ptr m)) (S (Z.to_nat (ncols m)))); simpl; [|guard_fails].
  destruct (bool_decide_reflect (head (col_ptr m) = Some 0)); simpl; [|guard_fails].
  destruct (windows_any _ (col_ptr m)) eqn:Ew; simpl.
  { apply not_false_iff_true in Ew. rewrite windows_mono in Ew. guard_fails. }
  apply windows_mono in Ew.
  destruct (Nat.eqb_spec (length (row_idx m)) (length (values m))); simpl.
  2: { destruct (i32_of_usize _); simpl; guard_fails. }
  case_bool_decide as Hn; simpl; rewrite usize_last in Hn; [|guard_fails].
  destruct (rows_loop m (row_idx m)) as [[-> ?]|[[err ->] ?]]; simpl; [|guard_fails].
  right. done.
Qed.

Lemma validate_column_cases m j :
  guards m -> (j < Z.to_nat (ncols m))%nat ->
  validate_column m j = Ok tt \/ exists e, validate_column m j = Err e.
Proof.
  intros (?&?&?&?&?&?&?&?) Hj.
  destruct (wf_offsets m j) as (s & e & Hs & He & ? & ?); try done; [lia|].
  unfold validate_column. rewrite Hs, He. simpl. unfold usize_of_i32.
  rewrite !decide_True by lia. simpl. unfold slice.
  rewrite !(proj2 (Nat.leb_le _ _)) by lia. simpl. destruct (windows_any _ _); eauto.
Qed.

Lemma validate_wf m : validate m = Ok tt <-> csc_wf m.
Proof.
  destruct (validate_cases m) as [[[e ->] Hg]|[-> Hg]].
  { split; [done|]. intros []. by destruct Hg. }
  rewrite foldM_unit_ok. setoid_rewrite elem_of_seq.
  destruct Hg as (?&?&Hlen&?&?&Hnnz&?&?). split.
  - intros Hc. constructor; try done. intros j s e Hs He. apply lookup_lt_Some in He as Hj.
    destruct (wf_offsets m j) as (s' & e' & ? & ? & ? & ?); try done. simplify_eq.
    apply (validate_column_ok m j s e); try done; [lia|]. apply Hc. lia.
  - intros [] j [_ Hj]. destruct (wf_offsets m j) as (s & e & Hs & He & ? & ?); try done; [lia|].
    rewrite (validate_column_ok m j s e); try done; [|lia]. eauto.
Qed.

(** [validate] indexes and slices only where it has checked: no input makes
    it panic. *)
Lemma validate_no_panic m : validate m <> Panic.
Proof.
  destruct (validate_cases m) as [[[e ->] _]|[-> Hg]]; [done|].
  assert (Forall (fun j => (j < Z.to_nat (ncols m))%nat) (seq 0 (Z.to_nat (ncols m)))) as Hj.
  { apply Forall_forall. intros j Hin%elem_of_seq. lia. }
  induction Hj as [|j l Hj _ IH]; simpl; [done|].
  by destruct (validate_column_cases m j Hg Hj) as [->|[e ->]].
Qed.

(** ** Building from triplets: the reference matrix

    [cell eps ts k] is the value position [k] of the reference matrix holds:
    the float sum, in input order from [0.0], of the triplets at [k] whose
    magnitude is above [eps]; [None] when there is none. *)

Definition cell_step (zero_epsilon : f64) (k : Z * Z) (o : option f64) (t : MatrixTriplet)
    : option f64 :=
  if bool_decide ((t_row t, t_col t) = k) && negb (f64_abs (t_value t) <=? zero_epsilon)%f64
  then Some (default f64_zero o + t_value t)%f64 else o.

Definition cell (zero_epsilon : f64) (ts : list MatrixTriplet) (k : Z * Z) : option f64 :=
  foldl (cell_step zero_epsilon k) None ts.

(** What survives the final pruning pass. *)
Definition prune (zero_epsilon : f64) (o : option f64) : option f64 :=
  match o with
  | Some v => if (f64_abs v >? zero_epsilon)%f64 then Some v else None
  | None => None
  end.

Definition triplet_in_range (nrows ncols : Z) (t : MatrixTriplet) : Prop :=
  0 <= t_row t < nrows /\ 0 <= t_col t < ncols.

Lemma accumulate_step nr nc eps acc t :
  triplet_in_range nr nc t ->
  exists acc', accumulate_triplet nr nc eps acc t = Ok acc' /\
    (forall k, acc' !! k = cell_step eps k (acc !! k) t) /\ (size acc' <= S (size acc))%nat.
Proof.
  intros [Hr Hc]. unfold accumulate_triplet, cell_step.
  rewrite (proj2 (in_range_true _ _) Hr), (proj2 (in_range_true _ _) Hc). simpl.
  destruct (f64_abs (t_value t) <=? eps)%f64; simpl.
  - eexists. split; [done|]. split; [|lia]. intros k. by rewrite andb_false_r.
  - eexists. split; [done|]. split.
    + intros k. rewrite andb_true_r, lookup_insert.
      case_decide as Hk; [|by rewrite bool_decide_false].
      subst k. by rewrite bool_decide_true.
    + destruct (acc !! (t_row t, t_col t)) eqn:E.
      * rewrite map_size_insert_Some by eauto. lia.
      * rewrite map_size_insert_None by done. lia.
Qed.

Lemma accumulate_ok nr nc eps ts acc :
  Forall (triplet_in_range nr nc) ts ->
  exists acc', foldM (accumulate_triplet nr nc eps) ts acc = Ok acc' /\
    (forall k, acc' !! k = foldl (cell_step eps k) (acc !! k) ts) /\
    (size acc' <= size acc + length ts)%nat.
Proof.
  intros Hts. revert acc. induction Hts as [|t ts Ht _ IH]; intros acc; simpl.
  { eexists. split; [done|]. split; [done|lia]. }
  destruct (accumulate_step nr nc eps acc t Ht) as (acc1 & -> & Hl & Hs).
  destruct (IH acc1) as (acc2 & -> & Hl2 & Hs2). eexists. split; [done|]. split; [|lia].
  intros k. by rewrite Hl2, Hl.
Qed.

(** The first triplet out of range is the error that is reported. *)
Lemma accumulate_err nr nc eps pre t post acc :
  Forall (triplet_in_range nr nc) pre -> ~ triplet_in_range nr nc t ->
  foldM (accumulate_triplet nr nc eps) (pre ++ t :: post) acc =
    Err (if in_range (t_row t) nr then ColOutOfRange (t_col t) nc else RowOutOfRange (t_row t) nr).
Proof.
  intros Hpre Ht. rewrite foldM_app.
  destruct (accumulate_ok nr nc eps pre acc Hpre) as (acc' & -> & _). simpl.
  unfold accumulate_triplet at 1.
  destruct (in_range (t_row t) nr) eqn:Er; simpl; [|done].
  destruct (in_range (t_col t) nc) eqn:Ec; simpl; [|done].
  apply in_range_true in Er, Ec. by destruct Ht.
Qed.

(** *** Sorted, duplicate-free entries *)

Definition entry_lt (a b : entry) : Prop :=
  e_col a < e_col b \/ e_col a = e_col b /\ e_row a < e_row b.

Lemma entry_cmp_opp a b : entry_cmp b a = CompOpp (entry_cmp a b).
Proof.
  unfold entry_cmp. rewrite (Z.compare_antisym (e_col a)), (Z.compare_antisym (e_row a)).
  by destruct (e_col a ?= e_col b).
Qed.

Lemma entry_not_gt a b : not_gt entry_cmp a b = true <-> entry_lt a b \/ a.1 = b.1.
Proof.
  unfold not_gt, entry_cmp, entry_lt.
  destruct a as [[ra ca] va], b as [[rb cb] vb]. unfold e_col, e_row. simpl.
  destruct (Z.compare_spec ca cb); subst; [destruct (Z.compare_spec ra rb); subst|..].
  all: split; intros; first [done | by right | by left; auto | idtac].
  all: destruct_or?; destruct_and?; simplify_eq; lia.
Qed.

Lemma entry_not_gt_trans a b c :
  not_gt entry_cmp a b = true -> not_gt entry_cmp b c = true -> not_gt entry_cmp a c = true.
Proof.
  rewrite !entry_not_gt. destruct a as [[ra ca] va], b as [[rb cb] vb], c as [[rc cc] vc].
  unfold entry_lt, e_col, e_row. simpl. intros [?|[= ? ?]] [?|[= ? ?]]; subst; auto. left. lia.
Qed.

Lemma sort_entries_strict l :
  NoDup (fst <$> l) -> StronglySorted entry_lt (sort_by entry_cmp l).
Proof.
  intros Hnd.
  pose proof (sort_by_sorted entry_cmp entry_cmp_opp entry_not_gt_trans l) as Hs.
  assert (NoDup (fst <$> sort_by entry_cmp l)) as Hnd' by by rewrite sort_by_perm.
  induction Hs as [|x s Hs IH Hall]; [constructor|]. rewrite fmap_cons in Hnd'.
  apply NoDup_cons in Hnd' as [Hx Hnd']. constructor; [by apply IH|].
  rewrite Forall_forall in Hall |- *. intros y Hy. specialize (Hall y Hy).
  apply entry_not_gt in Hall as [?|Heq]; [done|]. destruct Hx. rewrite Heq.
  apply list_elem_of_fmap. by exists y.
Qed.

(** The sort is determined by the set of entries: the iteration order of
    the [HashMap] does not matter. *)
Lemma collect_entries_perm eps l1 l2 :
  NoDup (fst <$> l1) -> l1 ≡ₚ l2 -> collect_entries eps l1 = collect_entries eps l2.
Proof.
  intros Hnd Hp. unfold collect_entries.
  set (P := fun e : entry => (f64_abs e.2 >? eps)%f64 = true).
  assert (forall l, NoDup (fst <$> l) -> NoDup (fst <$> filter P l)) as Hf.
  { intros l Hl. eapply sublist_NoDup; [exact Hl|]. apply fmap_sublist, sublist_filter. }
  apply (sorted_unique entry_lt).
  - unfold entry_lt. intros. lia.
  - by apply sort_entries_strict, Hf.
  - apply sort_entries_strict, Hf. by rewrite <- Hp.
  - rewrite !sort_by_perm. by rewrite Hp.
Qed.

Lemma collect_entries_strict (eps : f64) (acc : gmap (Z * Z) f64) :
  StronglySorted entry_lt (collect_entries eps (map_to_list acc)).
Proof.
  apply sort_entries_strict. eapply sublist_NoDup; [apply (NoDup_fst_map_to_list acc)|].
  apply fmap_sublist, sublist_filter.
Qed.

Lemma elem_of_collect_entries (eps : f64) (acc : gmap (Z * Z) f64) k v :
  (k, v) ∈ collect_entries eps (map_to_list acc) <-> prune eps (acc !! k) = Some v.
Proof.
  unfold collect_entries. rewrite sort_by_perm, list_elem_of_filter, elem_of_map_to_list.
  unfold prune. simpl. split.
  - intros [Hv ->]. by rewrite Hv.
  - destruct (acc !! k) as [w|]; [|done]. destruct (SFltb eps (f64_abs w)) eqn:E; [|done].
    by intros [= <-].
Qed.

(** *** Column pointers *)

Definition in_col (j : nat) (e : entry) : Prop := e_col e = Z.of_nat j.
Definition below_col (j : nat) (e : entry) : Prop := e_col e < Z.of_nat j.
#[export] Instance in_col_dec j e : Decision (in_col j e).
Proof. unfold in_col. apply _. Defined.
#[export] Instance below_col_dec j e : Decision (below_col j e).
Proof. unfold below_col. apply _. Defined.

(** Entries in, and strictly before, column [j]. *)
Definition in_count (es : list entry) (j : nat) : Z := Z.of_nat (length (filter (in_col j) es)).
Definition below_count (es : list entry) (j : nat) : Z :=
  Z.of_nat (length (filter (below_col j) es)).

Lemma below_count_S es j : below_count es (S j) = below_count es j + in_count es j.
Proof.
  unfold below_count, in_count. induction es as [|e es IH]; [done|]. rewrite !filter_cons.
  unfold below_col, in_col in *. repeat case_decide; simpl; lia.
Qed.

Lemma below_count_bound es j : 0 <= below_count es j <= Z.of_nat (length es).
Proof. unfold below_count. pose proof (length_filter (below_col j) es). lia. Qed.

Lemma in_count_bound es j : 0 <= in_count es j <= Z.of_nat (length es).
Proof. unfold in_count. pose proof (length_filter (in_col j) es). lia. Qed.

Lemma in_count_snoc es e j :
  in_count (es ++ [e]) j = in_count es j + (if decide (in_col j e) then 1 else 0).
Proof.
  unfold in_count. rewrite filter_app, length_app, filter_cons, filter_nil.
  case_decide; simpl; lia.
Qed.

(** Updating one position of a tabulated list. *)
Lemma insert_tabulate {A} (f g : nat -> A) (n i : nat) (a : A) :
  (i < n)%nat -> g i = a -> (forall j, j <> i -> g j = f j) ->
  <[i := a]> (f <$> seq 0 n) = g <$> seq 0 n.
Proof.
  intros Hi Ha Hg. apply list_eq. intros j. rewrite list_lookup_fmap.
  destruct (decide (i = j)) as [<-|Hne].
  - rewrite list_lookup_insert_eq by (rewrite length_fmap, length_seq; lia).
    rewrite lookup_seq_lt by lia. simpl. by rewrite Ha.
  - rewrite list_lookup_insert_ne by done. rewrite list_lookup_fmap.
    destruct (seq 0 n !! j) as [k|] eqn:Ek; [|done]. simpl.
    apply lookup_seq in Ek as [-> ?]. by rewrite Hg.
Qed.

Lemma lookup_tabulate {A} (f : nat -> A) (n i : nat) :
  (i < n)%nat -> (f <$> seq 0 n) !! i = Some (f i).
Proof. intros Hi. by rewrite list_lookup_fmap, lookup_seq_lt. Qed.

(** Counts before the prefix sum: slot [S j] holds the size of column [j]. *)
Definition count_slot (es : list entry) (k : nat) : Z :=
  match k with O => 0 | S j => in_count es j end.

Lemma count_columns_ok nc es :
  Forall (fun e => 0 <= e_col e < Z.of_nat nc) es ->
  Z.of_nat (length es) <= I32_MAX ->
  count_columns nc es = Ok (count_slot es <$> seq 0 (S nc)).
Proof.
  unfold count_columns. rewrite Nat.add_1_r.
  induction es as [|e es IH] using rev_ind; intros Hall Hlen.
  { simpl. do 2 f_equal. apply list_eq. intros i. rewrite list_lookup_fmap.
    destruct (decide (i < nc)%nat) as [Hi|Hi].
    - rewrite lookup_replicate_2, lookup_seq_lt by lia. by destruct i.
    - rewrite !lookup_ge_None_2; [done|rewrite length_seq; lia|rewrite length_replicate; lia]. }
  apply Forall_app in Hall as [Hall He%Forall_inv]. rewrite length_app in Hlen. simpl in Hlen.
  rewrite foldM_app, IH by (done || lia). clear IH. cbn [mbind result_bind foldM].
  unfold usize_of_i32. rewrite decide_True by lia. cbn [ok_or mbind result_bind].
  rewrite lookup_tabulate by lia. cbn [expect]. f_equal.
  apply insert_tabulate; [lia|..].
  - simpl. rewrite in_count_snoc. unfold in_col. rewrite decide_True by lia.
    pose proof (in_count_bound es (Z.to_nat (e_col e))). unfold I32_MAX in *.
    unfold i32_add. rewrite wrap_i32_small by (unfold I32_MIN, I32_MAX; lia). lia.
  - intros [|j] Hj; simpl; [done|]. rewrite in_count_snoc. unfold in_col.
    rewrite decide_False by lia. lia.
Qed.

(** After [k] rounds of the prefix sum. *)
Definition prefix_slot (es : list entry) (k i : nat) : Z :=
  if decide (i <= k)%nat then below_count es i else count_slot es i.

Lemma prefix_sum_rounds nc es k :
  (k <= nc)%nat -> Z.of_nat (length es) <= I32_MAX -> below_count es 0 = 0 ->
  foldM (E:=MatrixError) (fun cp col =>
    b ← expect (cp !! col);
    a ← expect (cp !! S col);
    Ok (<[S col := i32_add a b]> cp)) (seq 0 k) (count_slot es <$> seq 0 (S nc))
  = Ok (prefix_slot es k <$> seq 0 (S nc)).
Proof.
  intros Hk Hlen H0. induction k as [|k IH].
  { change (seq 0 0) with (@nil nat). cbn [foldM]. f_equal. apply list_fmap_ext. intros i x Hx%lookup_seq. unfold prefix_slot.
    case_decide; [|done]. replace x with 0%nat by lia. by rewrite H0. }
  rewrite seq_S, foldM_app, IH by lia. cbn [mbind result_bind foldM Nat.add].
  rewrite !lookup_tabulate by lia. cbn [expect]. f_equal.
  apply insert_tabulate; [lia|..].
  - unfold prefix_slot. repeat case_decide; try lia. rewrite below_count_S. cbn [count_slot].
    pose proof (below_count_bound es (S k)) as Hb. rewrite below_count_S in Hb.
    pose proof (in_count_bound es k). pose proof (below_count_bound es k).
    unfold i32_add. rewrite wrap_i32_small by (unfold I32_MIN; unfold I32_MAX in *; lia). lia.
  - intros j Hj. unfold prefix_slot. repeat case_decide; done || lia.
Qed.

Lemma column_pointers_ok nc es :
  Forall (fun e => 0 <= e_col e < Z.of_nat nc) es ->
  Z.of_nat (length es) <= I32_MAX ->
  (count_columns nc es ≫= prefix_sum nc) = Ok (below_count es <$> seq 0 (S nc)).
Proof.
  intros Hall Hlen. rewrite count_columns_ok by done. cbn [mbind result_bind].
  unfold prefix_sum. rewrite prefix_sum_rounds; [|done|done|].
  - f_equal. apply list_fmap_ext. intros i x Hx%lookup_seq. unfold prefix_slot.
    by rewrite decide_True by lia.
  - unfold below_count, below_col. rewrite filter_none; [done|].
    eapply Forall_impl; [exact Hall|]. simpl. lia.
Qed.

(** *** Columns of the assembled matrix *)

(** The stored (row, value) pairs of column [j]. *)
Definition column (m : CscMatrix) (j : nat) : list (Z * f64) :=
  match col_ptr m !! j, col_ptr m !! S j with
  | Some s, Some e =>
      take (Z.to_nat e - Z.to_nat s) (drop (Z.to_nat s) (zip (row_idx m) (values m)))
  | _, _ => []
  end.

Fixpoint assoc (i : Z) (l : list (Z * f64)) : option f64 :=
  match l with
  | [] => None
  | (r, v) :: l' => if decide (r = i) then Some v else assoc i l'
  end.

(** The value stored at row [i], column [j]. *)
Definition csc_get (m : CscMatrix) (i j : Z) : option f64 :=
  if decide (0 <= j) then assoc i (column m (Z.to_nat j)) else None.

Lemma assoc_Some i v l :
  NoDup (fst <$> l) -> assoc i l = Some v <-> (i, v) ∈ l.
Proof.
  induction l as [|[r w] l IH]; intros Hnd; simpl; [by rewrite elem_of_nil|].
  rewrite fmap_cons in Hnd. apply NoDup_cons in Hnd as [Hr Hnd]. simpl in Hr.
  rewrite elem_of_cons. case_decide as Hri.
  - subst. split; [intros [= <-]; by left|]. intros [[= ->]|Hin]; [done|].
    destruct Hr. apply list_elem_of_fmap. by exists (i, v).
  - rewrite IH by done. split; [by right|]. by intros [[= -> ->]|?].
Qed.

Lemma entry_slice es j :
  StronglySorted entry_lt es ->
  take (Z.to_nat (below_count es (S j)) - Z.to_nat (below_count es j))
    (drop (Z.to_nat (below_count es j)) es) = filter (in_col j) es.
Proof.
  intros Hs. rewrite below_count_S. pose proof (in_count_bound es j) as Hin.
  pose proof (below_count_bound es j) as Hbel.
  replace (_ - _)%nat with (length (filter (in_col j) es)) by (unfold in_count in *; lia).
  clear Hin Hbel. unfold below_count. rewrite Nat2Z.id.
  assert (StronglySorted (fun a b => e_col a <= e_col b) es) as Hc.
  { clear j. induction Hs as [|x l Hs IH Hall]; constructor; [done|].
    eapply Forall_impl; [exact Hall|]. unfold entry_lt. simpl. lia. }
  set (r := filter (fun a => Z.of_nat j <= e_col a) es).
  rewrite (drop_split es (filter (below_col j) es) r) by exact (sorted_split e_col _ es Hc).
  assert (filter (fun a => e_col a < Z.of_nat (S j)) r = filter (in_col j) es) as Hf.
  { unfold r. rewrite list_filter_filter. apply list_filter_iff. intros e. unfold in_col. lia. }
  rewrite <- Hf. eapply take_split. apply (sorted_split e_col (Z.of_nat (S j))).
  by apply StronglySorted_filter.
Qed.

(** The matrix [csc_of_entries] assembles, spelled out. *)
Definition assembled (nr nc : Z) (es : list entry) : CscMatrix :=
  mk_csc nr nc (below_count es <$> seq 0 (S (Z.to_nat nc))) (e_row <$> es) (snd <$> es).

Definition entry_in_range (nr nc : Z) (e : entry) : Prop :=
  0 <= e_row e < nr /\ 0 <= e_col e < nc.

Lemma filter_in_col_rows es j :
  StronglySorted entry_lt es -> StronglySorted Z.lt (e_row <$> filter (in_col j) es).
Proof.
  intros Hs. apply (StronglySorted_fmap e_row entry_lt).
  - intros x y [Hx _]%list_elem_of_filter [Hy _]%list_elem_of_filter.
    unfold entry_lt, in_col in *. lia.
  - by apply StronglySorted_filter.
Qed.

Lemma assembled_wf nr nc es :
  0 < nr -> 0 < nc -> Forall (entry_in_range nr nc) es -> StronglySorted entry_lt es ->
  csc_wf (assembled nr nc es).
Proof.
  intros Hnr Hnc Hall Hs. constructor; simpl; try done.
  - by rewrite length_fmap, length_seq.
  - f_equal. unfold below_count, below_col. rewrite filter_none; [done|].
    eapply Forall_impl; [exact Hall|]. unfold entry_in_range. simpl. lia.
  - change (StronglySorted Z.le (below_count es <$> seq 0 (S (Z.to_nat nc)))).
    apply adjacent_sorted; [apply _|]. intros i a b.
    rewrite !list_lookup_fmap. intros (x & Hx & ->)%fmap_Some (y & Hy & ->)%fmap_Some.
    apply lookup_seq in Hx as [-> _], Hy as [-> _]. cbn [Nat.add]. rewrite below_count_S.
    pose proof (in_count_bound es i). lia.
  - by rewrite !length_fmap.
  - change (last (below_count es <$> seq 0 (S (Z.to_nat nc))) = Some (Z.of_nat (length (snd <$> es)))).
    rewrite seq_S, fmap_app. simpl. rewrite last_snoc, length_fmap. f_equal.
    unfold below_count, below_col. rewrite filter_all; [done|].
    eapply Forall_impl; [exact Hall|]. unfold entry_in_range. simpl. lia.
  - apply Forall_fmap. eapply Forall_impl; [exact Hall|]. unfold entry_in_range. simpl. lia.
  - change (forall j s e, (below_count es <$> seq 0 (S (Z.to_nat nc))) !! j = Some s ->
      (below_count es <$> seq 0 (S (Z.to_nat nc))) !! S j = Some e ->
      StronglySorted Z.lt (take (Z.to_nat e - Z.to_nat s) (drop (Z.to_nat s) (e_row <$> es)))).
    intros j s e. rewrite !list_lookup_fmap.
    intros (x & Hx & ->)%fmap_Some (y & Hy & ->)%fmap_Some.
    apply lookup_seq in Hx as [-> _], Hy as [-> _]. cbn [Nat.add].
    rewrite <- fmap_drop, <- fmap_take, entry_slice by done. by apply filter_in_col_rows.
Qed.

Lemma csc_of_entries_ok nr nc es :
  0 < nr -> 0 < nc -> Forall (entry_in_range nr nc) es -> StronglySorted entry_lt es ->
  Z.of_nat (length es) <= I32_MAX ->
  csc_of_entries nr nc es = Ok (assembled nr nc es).
Proof.
  intros Hnr Hnc Hall Hs Hlen. unfold csc_of_entries, usize_of_i32.
  rewrite decide_True by lia. cbn [ok_or mbind result_bind].
  assert (Forall (fun e => 0 <= e_col e < Z.of_nat (Z.to_nat nc)) es) as Hc
    by (eapply Forall_impl; [exact Hall|]; unfold entry_in_range; simpl; lia).
  destruct (proj1 (bind_ok _ _ _) (column_pointers_ok _ _ Hc Hlen)) as (counts & -> & Hp).
  cbn [mbind result_bind]. rewrite Hp.
  assert (validate (assembled nr nc es) = Ok tt) as Hv by by apply validate_wf, assembled_wf.
  unfold csc_new. cbn [mbind result_bind].
  change (mk_csc nr nc _ _ _) with (assembled nr nc es). by rewrite Hv.
Qed.

Lemma column_assembled nr nc es j :
  StronglySorted entry_lt es -> (j < Z.to_nat nc)%nat ->
  column (assembled nr nc es) j = (fun e => (e_row e, e.2)) <$> filter (in_col j) es.
Proof.
  intros Hs Hj. unfold column, assembled. cbn [col_ptr row_idx values].
  rewrite !lookup_tabulate by lia.
  rewrite zip_with_fmap_l, zip_with_fmap_r, zip_with_diag.
  change ((fun x : entry => (e_row x, x.2)) <$> es) with ((fun e : entry => (e_row e, e.2)) <$> es).
  by rewrite <- fmap_drop, <- fmap_take, entry_slice.
Qed.

Lemma csc_get_assembled nr nc es i j v :
  StronglySorted entry_lt es -> 0 <= j < nc ->
  csc_get (assembled nr nc es) i j = Some v <-> ((i, j), v) ∈ es.
Proof.
  intros Hs Hj. unfold csc_get. rewrite decide_True by lia.
  rewrite column_assembled by (done || lia). rewrite assoc_Some.
  - rewrite list_elem_of_fmap. split.
    + intros (e & [= -> ->] & [Hc Hin]%list_elem_of_filter). unfold in_col in Hc.
      destruct e as [[r c] w]. unfold e_row, e_col in *. simpl in *.
      replace j with c by lia. done.
    + intros Hin. exists ((i, j), v). split; [done|]. apply list_elem_of_filter. split; [|done].
      unfold in_col, e_col. simpl. lia.
  - rewrite <- list_fmap_compose. change (fst ∘ (fun e : entry => (e_row e, e.2))) with e_row.
    pose proof (filter_in_col_rows es (Z.to_nat j) Hs) as Hr. revert Hr.
    generalize (e_row <$> filter (in_col (Z.to_nat j)) es). clear.
    induction 1 as [|x l Hr IH Hall]; constructor; [|done].
    intros Hx. rewrite Forall_forall in Hall. specialize (Hall x Hx). lia.
Qed.

(** Everything about a successful build from in-range triplets. *)
Lemma from_triplet_iter_spec nr nc ts eps :
  0 < nr -> 0 < nc -> Forall (triplet_in_range nr nc) ts -> Z.of_nat (length ts) <= I32_MAX ->
  exists m, from_triplet_iter nr nc ts eps = Ok m /\ csc_wf m /\ nrows m = nr /\ ncols m = nc /\
    forall i j, 0 <= j < nc -> csc_get m i j = prune eps (cell eps ts (i, j)).
Proof.
  intros Hnr Hnc Hts Hlen. unfold from_triplet_iter.
  rewrite (proj2 (Z.leb_gt nr 0)), (proj2 (Z.leb_gt nc 0)) by lia. cbn [orb].
  destruct (accumulate_ok nr nc eps ts ∅ Hts) as (acc & Hacc & Hcell & Hsize).
  rewrite Hacc. cbn [mbind result_bind].
  set (es := collect_entries eps (map_to_list acc)).
  assert (forall k v, (k, v) ∈ es <-> prune eps (cell eps ts k) = Some v) as Hes.
  { intros k v. unfold es. rewrite elem_of_collect_entries, Hcell, lookup_empty. done. }
  assert (Forall (entry_in_range nr nc) es) as Hall.
  { apply Forall_forall. intros [[r c] v] Hin. apply Hes in Hin.
    unfold entry_in_range, e_row, e_col. simpl. clear -Hts Hin.
    unfold prune in Hin. destruct (cell eps ts (r, c)) as [w|] eqn:Ec; [|done]. clear Hin.
    unfold cell in Ec. revert Ec. induction ts as [|t ts IH] using rev_ind; [done|].
    rewrite foldl_app. simpl. apply Forall_app in Hts as [Hts Ht%Forall_inv].
    unfold cell_step at 1. case_bool_decide as Hk; simpl; [|by apply IH].
    destruct Ht as [? ?]. simplify_eq. by intros _. }
  assert (StronglySorted entry_lt es) as Hs by apply collect_entries_strict.
  assert (Z.of_nat (length es) <= I32_MAX) as Hl.
  { unfold es, collect_entries. rewrite length_sort_by. eapply Z.le_trans; [|exact Hlen].
    apply Nat2Z.inj_le. etrans; [apply length_filter|]. rewrite length_map_to_list.
    rewrite map_size_empty in Hsize. lia. }
  exists (assembled nr nc es). split_and!; [by apply csc_of_entries_ok|by apply assembled_wf|done..|].
  intros i j Hj. apply option_eq. intros v. by rewrite csc_get_assembled, Hes.
Qed.

(** *** No panic, whatever the triplets *)

Lemma count_columns_total nc es :
  Forall (fun e : entry => 0 <= e_col e < Z.of_nat nc) es ->
  exists cp, count_columns nc es = Ok cp /\ length cp = S nc.
Proof.
  intros Hall. apply foldM_total; [rewrite length_replicate; lia|].
  intros e cp Hin Hlen. rewrite Forall_forall in Hall. specialize (Hall e Hin).
  unfold usize_of_i32. rewrite decide_True by lia. cbn [ok_or mbind result_bind].
  destruct (lookup_lt_is_Some_2 cp (S (Z.to_nat (e_col e)))) as [x ->]; [lia|].
  eexists. split; [done|]. by rewrite length_insert.
Qed.

Lemma prefix_sum_total nc cp :
  length cp = S nc -> exists cp', prefix_sum nc cp = Ok cp'.
Proof.
  intros Hlen. destruct (foldM_total (E:=MatrixError) (fun cp => length cp = S nc) (fun cp col =>
    b ← expect (cp !! col); a ← expect (cp !! S col);
    Ok (<[S col := i32_add a b]> cp)) (seq 0 nc) cp) as (cp' & Hcp & _); [done| |by exists cp'].
  intros j c [_ Hj]%elem_of_seq Hc.
  destruct (lookup_lt_is_Some_2 c j) as [b ->]; [lia|].
  destruct (lookup_lt_is_Some_2 c (S j)) as [a ->]; [lia|].
  eexists. split; [done|]. by rewrite length_insert.
Qed.

Lemma accumulate_in_range (nr nc : Z) (eps : f64) (ts : list MatrixTriplet) (acc acc' : gmap (Z * Z) f64) :
  foldM (accumulate_triplet nr nc eps) ts acc = Ok acc' ->
  (forall k v, acc !! k = Some v -> 0 <= k.2 < nc) ->
  forall k v, acc' !! k = Some v -> 0 <= k.2 < nc.
Proof.
  revert acc. induction ts as [|t ts IH]; intros acc Hf Hacc; simpl in Hf; [by inv_result|].
  destruct (accumulate_triplet nr nc eps acc t) as [acc1| |] eqn:Et; [|done..].
  apply (IH acc1 Hf). clear IH Hf. unfold accumulate_triplet in Et.
  destruct (in_range (t_row t) nr); [|done].
  destruct (in_range (t_col t) nc) eqn:Ec; [|done]. simpl in Et. apply in_range_true in Ec.
  destruct (f64_abs (t_value t) <=? eps)%f64; inv_result; [done|].
  intros k v. rewrite lookup_insert. case_decide as Hk; [subst k; done|]. apply Hacc.
Qed.

Lemma accumulate_no_panic nr nc eps ts acc :
  foldM (accumulate_triplet nr nc eps) ts acc <> Panic.
Proof.
  revert acc. induction ts as [|t ts IH]; intros acc; simpl; [done|].
  unfold accumulate_triplet at 1. destruct (in_range (t_row t) nr); [|done].
  destruct (in_range (t_col t) nc); [|done]. simpl.
  destruct (f64_abs (t_value t) <=? eps)%f64; apply IH.
Qed.

Lemma from_triplet_iter_no_panic nr nc ts eps : from_triplet_iter nr nc ts eps <> Panic.
Proof.
  unfold from_triplet_iter. destruct (nr <=? 0) eqn:E1; [done|].
  destruct (nc <=? 0) eqn:E2; [done|]. bool_hyps. cbn [orb].
  pose proof (accumulate_no_panic nr nc eps ts ∅) as Hp.
  destruct (foldM _ ts ∅) as [acc| |] eqn:Ea; cbn [mbind result_bind]; [|done|done].
  unfold csc_of_entries, usize_of_i32. rewrite decide_True by lia. cbn [ok_or mbind result_bind].
  set (es := collect_entries eps (map_to_list acc)).
  destruct (count_columns_total (Z.to_nat nc) es) as (cp & -> & Hl).
  { apply Forall_forall. intros [[r c] v] Hin. apply elem_of_collect_entries in Hin.
    unfold prune in Hin. destruct (acc !! (r, c)) as [w|] eqn:Ek; [|done].
    eapply (accumulate_in_range _ _ _ _ _ _ Ea) in Ek; [|by intros ? ? ?%lookup_empty_Some].
    unfold e_col. simpl in *. lia. }
  cbn [mbind result_bind]. destruct (prefix_sum_total (Z.to_nat nc) cp Hl) as [cp' ->].
  cbn [mbind result_bind]. unfold csc_new.
  pose proof (validate_no_panic (mk_csc nr nc cp' (e_row <$> es) (snd <$> es))) as Hv.
  by destruct (validate _).
Qed.

(** ** The matrix-vector product *)

(** The reference product: row [r] accumulates the stored entries of its row
    in column order, starting from [0.0]. *)
Definition row_step {S} (h : f64 -> f64 -> S -> S) (m : CscMatrix) (r : nat) (acc : S)
    (cx : nat * f64) : S :=
  match csc_get m (Z.of_nat r) (Z.of_nat cx.1) with
  | Some v => h cx.2 v acc
  | None => acc
  end.
Definition row_dot (m : CscMatrix) (x : list f64) (r : nat) : f64 :=
  foldl (row_step mul_acc m r) f64_zero (imap pair x).

Lemma imap_id {A} (f : nat -> A -> A) (l : list A) :
  (forall i a, f i a = a) -> imap f l = l.
Proof.
  intros Hf. apply list_eq. intros i. rewrite list_lookup_imap.
  destruct (l !! i); [|done]. simpl. by rewrite Hf.
Qed.

(** Scattering one column: each slot is updated by the entry of its row. *)
Lemma scatter_column {E S} (g : f64 -> S -> S) (col : list (Z * f64)) (out : list S) :
  NoDup (fst <$> col) -> Forall (fun rv => 0 <= rv.1 < Z.of_nat (length out)) col ->
  foldM (E:=E) (scatter_at g) col out =
  Ok (imap (fun r o => match assoc (Z.of_nat r) col with Some v => g v o | None => o end) out).
Proof.
  revert out. induction col as [|[r v] col IH]; intros out Hnd Hall.
  { cbn [foldM assoc]. by rewrite imap_id. }
  rewrite fmap_cons in Hnd. apply NoDup_cons in Hnd as [Hr Hnd].
  apply Forall_cons in Hall as [Hrv Hall]. cbn [fst] in *. cbn [foldM].
  unfold scatter_at at 1. unfold usize_or_default. cbn [fst snd].
  destruct (lookup_lt_is_Some_2 out (Z.to_nat r)) as [o Ho]; [lia|]. rewrite Ho.
  cbn [expect mbind result_bind]. rewrite IH; [|done|by rewrite length_insert].
  f_equal. apply list_eq. intros i. rewrite !list_lookup_imap. cbn [assoc].
  destruct (decide (Z.to_nat r = i)) as [<-|Hne].
  - rewrite list_lookup_insert_eq by lia. rewrite Ho. cbn [fmap option_fmap option_map].
    rewrite decide_True by lia. rewrite Z2Nat.id by lia.
    destruct (assoc r col) as [w|] eqn:Ea; [|done].
    apply assoc_Some in Ea; [|done]. destruct Hr. apply list_elem_of_fmap. by exists (r, w).
  - rewrite list_lookup_insert_ne by done. destruct (out !! i); [|done].
    cbn [fmap option_fmap option_map]. by rewrite decide_False by lia.
Qed.

(** Columns of a well-formed matrix: distinct rows, all in range. *)
Lemma wf_column m j :
  csc_wf m -> (j < Z.to_nat (ncols m))%nat ->
  NoDup (fst <$> column m j) /\ Forall (fun rv => 0 <= rv.1 < nrows m) (column m j).
Proof.
  intros [] Hj. destruct (wf_offsets m j) as (s & e & Hs & He & ? & ?); try done; [lia|].
  unfold column. rewrite Hs, He. split.
  - rewrite fmap_take, fmap_drop, fst_zip by lia.
    pose proof (wf_cols0 j s e Hs He) as Hr. revert Hr. generalize (take (Z.to_nat e - Z.to_nat s)
      (drop (Z.to_nat s) (row_idx m))). clear.
    induction 1 as [|x l Hr IH Hall]; constructor; [|done].
    intros Hx. rewrite Forall_forall in Hall. specialize (Hall x Hx). lia.
  - apply Forall_take, Forall_drop, Forall_forall. intros [r v] Hin.
    apply elem_of_zip_l in Hin. rewrite Forall_forall in wf_rows0. by apply wf_rows0.
Qed.

(** A loop over the stored indices of column [j] is a loop over [column m j]. *)
Lemma column_loop {E S} m j s e (f : S -> Z * f64 -> result E S) out :
  csc_wf m -> col_ptr m !! j = Some s -> col_ptr m !! Datatypes.S j = Some e ->
  foldM (fun out idx =>
    r ← expect (row_idx m !! idx);
    v ← expect (values m !! idx);
    f out (r, v)) (seq (Z.to_nat s) (Z.to_nat e - Z.to_nat s)) out = foldM f (column m j) out.
Proof.
  intros [] Hs He. apply lookup_lt_Some in He as Hj.
  destruct (wf_offsets m j) as (s' & e' & ? & ? & ? & ?); try done. simplify_eq.
  unfold column. rewrite Hs, He. rewrite <- foldM_seq_lookup by (rewrite length_zip_with; lia).
  apply foldM_ext. intros o idx [_ Hidx]%elem_of_seq. rewrite lookup_zip_with.
  destruct (lookup_lt_is_Some_2 (row_idx m) idx) as [r ->]; [lia|].
  by destruct (lookup_lt_is_Some_2 (values m) idx) as [v ->]; [lia|].
Qed.

Lemma mul_column_eq {E} m out j xj :
  csc_wf m -> (j < Z.to_nat (ncols m))%nat ->
  mul_column (E:=E) m out (j, xj) = foldM (scatter_at (mul_acc xj)) (column m j) out.
Proof.
  intros Hwf Hj. pose proof Hwf as [].
  destruct (wf_offsets m j) as (s & e & Hs & He & ? & ?); try done; [lia|].
  unfold mul_column. rewrite Hs, He. cbn [expect mbind result_bind].
  unfold usize_or_default. by apply column_loop.
Qed.

(** Scattering column after column: each slot folds over its own row. *)
Lemma scatter_columns {E S} (h : f64 -> f64 -> S -> S)
    (step : list S -> nat * f64 -> result E (list S)) m cxs out :
  csc_wf m -> Forall (fun cx => (cx.1 < Z.to_nat (ncols m))%nat) cxs ->
  length out = Z.to_nat (nrows m) ->
  (forall out cx, cx ∈ cxs -> length out = Z.to_nat (nrows m) ->
     step out cx = foldM (scatter_at (h cx.2)) (column m cx.1) out) ->
  foldM step cxs out = Ok (imap (fun r o => foldl (row_step h m r) o cxs) out).
Proof.
  intros Hwf Hall Hlen Hstep. revert out Hlen.
  induction Hall as [|[j xj] cxs Hj _ IH]; intros out Hlen.
  { cbn [foldM foldl]. by rewrite imap_id. }
  cbn [foldM fst] in *. destruct (wf_column m j Hwf Hj) as [Hnd Hr].
  rewrite Hstep by (done || apply list_elem_of_here). cbn [fst snd].
  rewrite scatter_column; [|done|].
  2: { destruct Hwf. eapply Forall_impl; [exact Hr|]. simpl. lia. }
  rewrite IH; [|intros; apply Hstep; [by apply list_elem_of_further|done]|by rewrite length_imap].
  f_equal. apply list_eq. intros i.
  rewrite !list_lookup_imap. destruct (out !! i); [|done]. cbn. f_equal. f_equal.
  unfold row_step, csc_get. cbn [fst snd]. rewrite decide_True by lia. by rewrite Nat2Z.id.
Qed.

Lemma imap_pair_in_range (x : list f64) (n : nat) :
  (length x <= n)%nat -> Forall (fun cx : nat * f64 => (cx.1 < n)%nat) (imap pair x).
Proof.
  intros Hx. apply Forall_forall. intros [j xj] Hin. apply list_elem_of_lookup in Hin as [i Hi].
  rewrite list_lookup_imap in Hi. apply fmap_Some in Hi as (y & Hy & [= -> ->]).
  apply lookup_lt_Some in Hy. simpl. lia.
Qed.

Lemma imap_replicate {A B} (f : nat -> A -> B) (n : nat) (a : A) :
  imap f (replicate n a) = (fun r => f r a) <$> seq 0 n.
Proof.
  apply list_eq. intros i. rewrite list_lookup_imap, list_lookup_fmap.
  destruct (decide (i < n)%nat).
  - by rewrite lookup_replicate_2, lookup_seq_lt by lia.
  - rewrite !lookup_ge_None_2; [done|rewrite length_seq; lia|rewrite length_replicate; lia].
Qed.

Lemma mul_vector_eq {E} m x :
  csc_wf m -> length x = Z.to_nat (ncols m) ->
  mul_vector (E:=E) m x = Ok (row_dot m x <$> seq 0 (Z.to_nat (nrows m))).
Proof.
  intros Hwf Hx. unfold mul_vector, usize_or_default. rewrite Hx, Nat.eqb_refl. cbn [negb].
  rewrite take_ge by (rewrite length_imap; lia).
  pose proof (imap_pair_in_range x (Z.to_nat (ncols m)) ltac:(lia)) as Hin.
  rewrite (scatter_columns mul_acc _ m); [|done|done|by rewrite length_replicate|].
  - f_equal. apply imap_replicate.
  - intros out [j xj] Hcx _. rewrite Forall_forall in Hin. apply mul_column_eq; [done|].
    by apply Hin in Hcx.
Qed.

(** ** Properties *)

(** [validate] accepts exactly the matrices satisfying the CSC structural
    invariant, and no matrix value, however malformed, makes it panic. *)
Theorem validate_exact (m : CscMatrix) :
  validate m <> Panic /\ (validate m = Ok tt <-> csc_wf m).
Proof. split; [apply validate_no_panic|apply validate_wf]. Qed.

(** C4: for positive dimensions and in-range triplets (at most [i32::MAX] of
    them) [from_triplets] succeeds; the matrix is well formed, and position
    [(i, j)] stores the input-order float sum of the triplets above the zero
    threshold, pruned once more against the threshold. *)
Theorem from_triplets_builds_reference (nr nc : Z) (ts : list MatrixTriplet) (eps : f64)
    (Hnr : 0 < nr) (Hnc : 0 < nc)
    (Hts : Forall (triplet_in_range nr nc) ts)
    (Hlen : Z.of_nat (length ts) <= I32_MAX) :
  exists m, from_triplets nr nc ts eps = Ok m /\ csc_wf m /\ shape m = (nr, nc) /\
    forall i j, 0 <= j < nc -> csc_get m i j = prune eps (cell eps ts (i, j)).
Proof.
  destruct (from_triplet_iter_spec nr nc ts eps) as (m & Hm & Hwf & <- & <- & Hget); try done.
  by exists m.
Qed.

Definition example_triplets : list MatrixTriplet :=
  [mk_triplet 0 0 (f64_of_ratio 3 2); mk_triplet 0 0 (f64_of_ratio 5 2);
   mk_triplet 1 1 (f64_of_Z 3); mk_triplet 1 0 (f64_of_ratio 1 (10^15))].

Lemma from_triplets_builds_reference_witness :
  exists m, from_triplets 2 2 example_triplets (f64_of_ratio 1 (10^12)) = Ok m /\
    csc_get m 0 0 = Some (f64_of_Z 4) /\ csc_get m 1 0 = None.
Proof.
  destruct (from_triplets_builds_reference 2 2 example_triplets (f64_of_ratio 1 (10^12)))
    as (m & Hm & _ & _ & Hget).
  - lia.
  - lia.
  - repeat constructor; simpl; lia.
  - vm_compute. discriminate.
  - exists m. split; [exact Hm|]. rewrite !Hget by lia. by split; vm_compute.
Defined.

(** Whatever the input, a matrix [from_triplets] returns is well formed and
    stores only values strictly above the zero threshold in magnitude; in
    particular no NaN is ever stored. *)
Theorem from_triplets_ok_sound (nr nc : Z) (ts : list MatrixTriplet) (eps : f64) (m : CscMatrix)
    (Hm : from_triplets nr nc ts eps = Ok m) :
  csc_wf m /\ Forall (fun v => (f64_abs v >? eps)%f64 = true /\ is_nan v = false) (values m).
Proof.
  unfold from_triplets, from_triplet_iter in Hm. case_in Hm.
  apply bind_ok in Hm as (acc & _ & Hm). unfold csc_of_entries in Hm.
  apply bind_ok in Hm as (n & _ & Hm). apply bind_ok in Hm as (counts & _ & Hm).
  apply bind_ok in Hm as (cp & _ & Hm). unfold csc_new in Hm.
  apply bind_ok in Hm as ([] & Hv & Hm). inv_result. split; [by apply validate_wf|].
  cbn [values]. apply Forall_fmap, Forall_forall. intros e Hin.
  unfold collect_entries in Hin. rewrite sort_by_perm in Hin.
  apply list_elem_of_filter in Hin as [Hgt _]. split; [done|].
  apply SFltb_not_nan in Hgt as [_ Hnan]. by destruct e.2.
Qed.

Lemma from_triplets_ok_sound_witness :
  exists m, from_triplets 2 2 example_triplets f64_zero = Ok m /\ csc_wf m.
Proof.
  eexists. split; [vm_compute; reflexivity|].
  eapply (from_triplets_ok_sound 2 2 example_triplets f64_zero). vm_compute. reflexivity.
Defined.

(** The first triplet outside the matrix decides the error: its row is
    reported if the row is out of range, its column otherwise, and nothing
    after it is looked at. *)
Theorem from_triplets_first_error (nr nc : Z) (pre post : list MatrixTriplet) (t : MatrixTriplet)
    (eps : f64) (Hnr : 0 < nr) (Hnc : 0 < nc)
    (Hpre : Forall (triplet_in_range nr nc) pre) (Ht : triplet_in_range nr nc t -> False) :
  from_triplets nr nc (pre ++ t :: post) eps =
    Err (if in_range (t_row t) nr then ColOutOfRange (t_col t) nc else RowOutOfRange (t_row t) nr).
Proof.
  unfold from_triplets, from_triplet_iter.
  rewrite (proj2 (Z.leb_gt nr 0)), (proj2 (Z.leb_gt nc 0)) by lia. cbn [orb].
  by rewrite accumulate_err.
Qed.

Lemma from_triplets_first_error_witness :
  from_triplets 2 2 (example_triplets ++ mk_triplet 1 2 f64_one :: [mk_triplet 9 9 f64_one]) f64_zero
  = Err (ColOutOfRange 2 2).
Proof.
  rewrite from_triplets_first_error.
  - reflexivity.
  - lia.
  - lia.
  - repeat constructor; simpl; lia.
  - unfold triplet_in_range. simpl. lia.
Defined.

(** The iteration order of the accumulation [HashMap], which Rust leaves
    unspecified, cannot be observed: every order yields the same outcome. *)
Theorem from_triplets_iteration_order (nr nc : Z) (eps : f64) (acc : gmap (Z * Z) f64)
    (iter : list entry) (Hiter : iter ≡ₚ map_to_list acc) :
  csc_of_entries nr nc (collect_entries eps iter) =
  csc_of_entries nr nc (collect_entries eps (map_to_list acc)).
Proof.
  f_equal. apply collect_entries_perm; [|done]. rewrite Hiter. apply NoDup_fst_map_to_list.
Qed.

Lemma from_triplets_iteration_order_witness :
  let acc : gmap (Z * Z) f64 := {[ (0, 0) := f64_one; (1, 0) := f64_epsilon ]} in
  csc_of_entries 2 2 (collect_entries f64_zero (reverse (map_to_list acc))) =
  csc_of_entries 2 2 (collect_entries f64_zero (map_to_list acc)).
Proof.
  intros acc. apply (from_triplets_iteration_order 2 2 f64_zero acc). apply reverse_Permutation.
Defined.

(** On a well-formed matrix and a vector of matching length [mul_vector]
    never indexes out of range, and row [r] of the result is the float
    accumulation of row [r]'s stored entries in column order. *)
Theorem mul_vector_row_products {E} (m : CscMatrix) (x : list f64)
    (Hwf : csc_wf m) (Hx : length x = Z.to_nat (ncols m)) :
  mul_vector (E:=E) m x = Ok (row_dot m x <$> seq 0 (Z.to_nat (nrows m))).
Proof. by apply mul_vector_eq. Qed.

Definition example_matrix : CscMatrix :=
  mk_csc 2 2 [0; 2; 4] [0; 1; 0; 1]
    [f64_of_Z 4; f64_of_Z 2; f64_of_Z 1; f64_of_Z 3].

Lemma mul_vector_row_products_witness :
  mul_vector (E:=MatrixError) example_matrix [f64_of_Z 1; f64_of_Z 2] = Ok [f64_of_Z 6; f64_of_Z 8].
Proof.
  rewrite mul_vector_row_products.
  - vm_compute. reflexivity.
  - apply validate_wf. vm_compute. reflexivity.
  - reflexivity.
Defined.
