(* ===== verification/Umfpack.v ===== *)
(** * The UMFPACK factorization wrapper

    Models [crates/suitesparse-ffi/src/umfpack.rs]: [factorize], [solve] with
    its one-step refinement, [compensated_residual], the byte accounting and
    [Drop].  The C library is not part of the repository: the class
    [UmfpackLib] is the interface the wrapper calls it through (status code,
    possibly null handle, info array), and every definition is a function of
    it.  Allocation and release of UMFPACK objects are recorded as a trace of
    events, so that leaks are visible. *)

From S2P Require Import Prelude F64 Csc.

Local Open Scope Z_scope.

Definition UMFPACK_INFO_LEN : nat := 90.
Definition UMFPACK_CONTROL_LEN : nat := 20.
Definition UMFPACK_OK : Z := 0.
Definition UMFPACK_WARNING_SINGULAR : Z := 1.
Definition UMFPACK_A : Z := 0.
Definition UMFPACK_PRL : nat := 0.
Definition UMFPACK_SIZE_OF_UNIT : nat := 3.
Definition UMFPACK_SYMBOLIC_SIZE : nat := 14.
Definition UMFPACK_NUMERIC_SIZE_ESTIMATE : nat := 20.
Definition UMFPACK_PEAK_MEMORY_ESTIMATE : nat := 21.
Definition UMFPACK_NUMERIC_SIZE : nat := 40.
Definition UMFPACK_PEAK_MEMORY : nat := 41.

(** The C entry points.  An output array of fixed length is a function from
    its indices; [None] is the null pointer. *)
Class UmfpackLib := {
  di_defaults : nat -> f64;
  di_symbolic (n_row n_col : Z) (ap ai : list Z) (ax : list f64) (control : list f64)
    : Z * option positive * (nat -> f64);
  di_numeric (ap ai : list Z) (ax : list f64) (symbolic : positive) (control : list f64)
    : Z * option positive * (nat -> f64);
  di_solve (sys : Z) (ap ai : list Z) (ax : list f64) (b : list f64) (numeric : positive)
    (control : list f64) : Z * (nat -> f64);
}.

(** The buffer of length [n] a C function filled. *)
Definition buffer (n : nat) (f : nat -> f64) : list f64 := f <$> seq 0 n.

Record UmfpackNumericOptions := { print_level : f64 }.
Definition default_numeric_options : UmfpackNumericOptions := {| print_level := f64_zero |}.

Record FactorizationStats := {
  symbolic_status : Z;
  numeric_status : Z;
  symbolic_info : list f64;
  numeric_info : list f64;
}.

Inductive UmfpackError :=
| UMatrix (e : MatrixError)
| URhsDimensionMismatch (rhs_len ncols : nat)
| SingularMatrix
| SymbolicStatus (status : Z)
| NumericStatus (status : Z)
| SolveStatus (status : Z)
| NullHandle.

Record UmfpackFactorization := mk_factorization {
  f_matrix : CscMatrix;
  f_symbolic : positive;
  f_numeric : positive;
  f_control : list f64;
  f_stats : FactorizationStats;
}.

(** ** Object lifetimes *)

Inductive object := SymbolicObject (p : positive) | NumericObject (p : positive).
#[export] Instance object_eq_dec : EqDecision object.
Proof. solve_decision. Defined.

Inductive event := Allocated (o : object) | Freed (o : object).

(** The objects still allocated after a trace of events. *)
Definition live_step (live : list object) (e : event) : list object :=
  match e with
  | Allocated o => o :: live
  | Freed o => filter (fun o' => o' <> o) live
  end.
Definition live (trace : list event) : list object := foldl live_step [] trace.

Definition allocated (mk : positive -> object) (p : option positive) : list event :=
  match p with Some p => [Allocated (mk p)] | None => [] end.

Section Wrapper.
Context `{UmfpackLib}.

(** [UmfpackFactorization::factorize], with the events it causes. *)
Definition factorize (matrix : CscMatrix) (options : UmfpackNumericOptions)
    : result UmfpackError UmfpackFactorization * list event :=
  match validate matrix with
  | Err e => (Err (UMatrix e), [])
  | Panic => (Panic, [])
  | Ok _ =>
      if negb (nrows matrix =? ncols matrix)
      then (Err (UMatrix (InvalidDimensions (nrows matrix) (ncols matrix))), [])
      else
        let control := <[UMFPACK_PRL := print_level options]>
                         (buffer UMFPACK_CONTROL_LEN di_defaults) in
        let '(sym_status, symbolic_ptr, sym_info) :=
          di_symbolic (nrows matrix) (ncols matrix) (col_ptr matrix) (row_idx matrix)
            (values matrix) control in
        let tr1 := allocated SymbolicObject symbolic_ptr in
        if sym_status =? UMFPACK_WARNING_SINGULAR then (Err SingularMatrix, tr1)
        else if negb (sym_status =? UMFPACK_OK) then (Err (SymbolicStatus sym_status), tr1)
        else
          match symbolic_ptr with
          | None => (Err NullHandle, tr1)
          | Some symbolic =>
              let '(num_status, numeric_ptr, num_info) :=
                di_numeric (col_ptr matrix) (row_idx matrix) (values matrix) symbolic control in
              let tr2 := tr1 ++ allocated NumericObject numeric_ptr in
              if num_status =? UMFPACK_WARNING_SINGULAR
              then (Err SingularMatrix, tr2 ++ [Freed (SymbolicObject symbolic)])
              else if negb (num_status =? UMFPACK_OK)
              then (Err (NumericStatus num_status), tr2 ++ [Freed (SymbolicObject symbolic)])
              else
                match numeric_ptr with
                | None => (Err NullHandle, tr2)
                | Some numeric =>
                    (Ok (mk_factorization matrix symbolic numeric control
                           {| symbolic_status := sym_status;
                              numeric_status := num_status;
                              symbolic_info := buffer UMFPACK_INFO_LEN sym_info;
                              numeric_info := buffer UMFPACK_INFO_LEN num_info |}), tr2)
                end
          end
  end.

(** [Drop for UmfpackFactorization]. *)
Definition drop_factorization (f : UmfpackFactorization) : list event :=
  [Freed (SymbolicObject (f_symbolic f)); Freed (NumericObject (f_numeric f))].

Definition back_substitute (f : UmfpackFactorization) (rhs : list f64)
    : result UmfpackError (list f64) :=
  let m := f_matrix f in
  let '(status, x) :=
    di_solve UMFPACK_A (col_ptr m) (row_idx m) (values m) rhs (f_numeric f) (f_control f) in
  if status =? UMFPACK_WARNING_SINGULAR then Err SingularMatrix
  else if negb (status =? UMFPACK_OK) then Err (SolveStatus status)
  else Ok (buffer (length rhs) x).

(** The FMA/Neumaier update of one (sum, error) pair by one coefficient. *)
Definition residual_update (activity value : f64) (se : f64 * f64) : f64 * f64 :=
  let '(sum, error) := se in
  let coefficient := (- value)%f64 in
  let product := (coefficient * activity)%f64 in
  let next := (sum + product)%f64 in
  let lost_sum :=
    if (f64_abs sum >=? f64_abs product)%f64
    then ((sum - next) + product)%f64 else ((product - next) + sum)%f64 in
  (next, (error + (f64_mul_add coefficient activity (- product)%f64 + lost_sum))%f64).

(** The body of the inner loop of [compensated_residual] on the vectors
    [sums] and [errors]. *)
Definition residual_entry (activity : f64) (st : list f64 * list f64) (rv : Z * f64)
    : result UmfpackError (list f64 * list f64) :=
  let '(sums, errors) := st in
  row ← expect (usize_of_i32 rv.1);
  sum ← expect (sums !! row);
  error ← expect (errors !! row);
  let '(next, error') := residual_update activity rv.2 (sum, error) in
  Ok (<[row := next]> sums, <[row := error']> errors).

Definition residual_column (m : CscMatrix) (st : list f64 * list f64) (cx : nat * f64)
    : result UmfpackError (list f64 * list f64) :=
  let '(col, activity) := cx in
  if (activity =? f64_zero)%f64 then Ok st
  else
    b0 ← expect (col_ptr m !! col);
    b1 ← expect (col_ptr m !! S col);
    start ← expect (usize_of_i32 b0);
    stop ← expect (usize_of_i32 b1);
    foldM (fun st idx =>
      r ← expect (row_idx m !! idx);
      v ← expect (values m !! idx);
      residual_entry activity st (r, v)) (seq start (stop - start)) st.

(** [x.iter().zip(col_ptr.windows(2))] visits column [j] with activity
    [x[j]] while both have an element. *)
Definition compensated_residual (m : CscMatrix) (rhs x : list f64)
    : result UmfpackError (list f64) :=
  st ← foldM (residual_column m) (take (length (col_ptr m) - 1) (imap pair x))
         (rhs, replicate (length rhs) f64_zero);
  let '(sums, errors) := st in
  Ok (zip_with f64_add sums errors).

Definition infinity_norm (rhs : list f64) : f64 :=
  foldl (fun norm b => f64_max norm (f64_abs b)) f64_zero rhs.

(** The test that decides whether a correction is attempted. *)
Definition needs_correction (rhs residual : list f64) : bool :=
  forallb is_finite residual
  && existsb (fun r => f64_abs r >? f64_epsilon * infinity_norm rhs)%f64 residual.

(** [refine(&self, rhs, x)] returns the updated [x]. *)
Definition refine (f : UmfpackFactorization) (rhs x : list f64)
    : result UmfpackError (list f64) :=
  residual ← compensated_residual (f_matrix f) rhs x;
  if needs_correction rhs residual then
    delta ← back_substitute f residual;
    if forallb (fun '(v, d) => is_finite (v + d)%f64) (zip x delta)
    then Ok (zip_with f64_add x delta ++ drop (length delta) x)
    else Ok x
  else Ok x.

Definition solve (f : UmfpackFactorization) (rhs : list f64)
    : result UmfpackError (list f64) :=
  n ← ok_or NullHandle (usize_of_i32 (ncols (f_matrix f)));
  if negb (length rhs =? n)%nat then Err (URhsDimensionMismatch (length rhs) n)
  else
    x ← back_substitute f rhs;
    refine f rhs x.

Definition solve_many (f : UmfpackFactorization) (rhs_list : list (list f64))
    : result UmfpackError (list (list f64)) :=
  mapR (solve f) rhs_list.
End Wrapper.

(** ** Byte accounting *)

Definition info_at (info : list f64) (i : nat) : f64 := default f64_nan (info !! i).

Definition info_units_to_bytes (info : list f64) (index : nat) : option Z :=
  let units := info_at info index in
  let bytes_per_unit := info_at info UMFPACK_SIZE_OF_UNIT in
  if negb (is_finite units) || (units <? f64_zero)%f64
     || negb (is_finite bytes_per_unit) || (bytes_per_unit <=? f64_zero)%f64
  then None
  else f64_integral_to_usize (f64_ceil (f64_ceil units * f64_ceil bytes_per_unit)%f64).

Definition factorization_owned_bytes (capacity : nat -> Z) (f : UmfpackFactorization) : Z :=
  let symbolic := default 0 (info_units_to_bytes (symbolic_info (f_stats f)) UMFPACK_SYMBOLIC_SIZE) in
  let numeric := default 0 (info_units_to_bytes (numeric_info (f_stats f)) UMFPACK_NUMERIC_SIZE) in
  saturating_add (saturating_add (estimated_owned_bytes capacity (f_matrix f)) symbolic) numeric.

Definition reported_peak_bytes (f : UmfpackFactorization) : option Z :=
  match info_units_to_bytes (numeric_info (f_stats f)) UMFPACK_PEAK_MEMORY with
  | Some b => Some b
  | None => info_units_to_bytes (symbolic_info (f_stats f)) UMFPACK_PEAK_MEMORY_ESTIMATE
  end.

Definition reported_numeric_estimate_bytes (f : UmfpackFactorization) : option Z :=
  info_units_to_bytes (symbolic_info (f_stats f)) UMFPACK_NUMERIC_SIZE_ESTIMATE.

(** ** The residual, row by row *)

(** The reference: row [r] folds its stored entries in column order, from
    the demand and a zero error, skipping zero activities. *)
Definition residual_contribution (activity value : f64) (se : f64 * f64) : f64 * f64 :=
  if (activity =? f64_zero)%f64 then se else residual_update activity value se.
Definition row_residual (m : CscMatrix) (x : list f64) (r : nat) (b : f64) : f64 :=
  let '(sum, error) := foldl (row_step residual_contribution m r) (b, f64_zero) (imap pair x) in
  (sum + error)%f64.

Definition unzip {A B} (l : list (A * B)) : list A * list B := (l.*1, l.*2).

Lemma zip_insert {A B} (l : list A) (k : list B) i a b :
  zip (<[i := a]> l) (<[i := b]> k) = <[i := (a, b)]> (zip l k).
Proof. symmetry. apply insert_zip_with. Qed.

Section Residual.
Context `{UmfpackLib}.

Lemma residual_entry_scatter activity sums errors rv :
  length sums = length errors -> 0 <= rv.1 < Z.of_nat (length sums) ->
  exists sums' errors',
    residual_entry activity (sums, errors) rv = Ok (sums', errors') /\
    scatter_at (E:=UmfpackError) (residual_update activity) (zip sums errors) rv
      = Ok (zip sums' errors') /\
    length sums' = length sums /\ length errors' = length errors.
Proof.
  intros Hlen Hr. unfold residual_entry, scatter_at, usize_or_default, usize_of_i32.
  rewrite decide_True by lia. cbn [expect mbind result_bind].
  destruct (lookup_lt_is_Some_2 sums (Z.to_nat rv.1)) as [a Ha]; [lia|].
  destruct (lookup_lt_is_Some_2 errors (Z.to_nat rv.1)) as [b Hb]; [lia|].
  rewrite lookup_zip_with, Ha, Hb. cbn [expect mbind result_bind option_bind option_fmap fmap].
  destruct (residual_update activity rv.2 (a, b)) as [a' b'].
  do 2 eexists. split; [done|]. rewrite zip_insert. by rewrite !length_insert.
Qed.

Lemma residual_loop_scatter activity col sums errors :
  length sums = length errors ->
  Forall (fun rv => 0 <= rv.1 < Z.of_nat (length sums)) col ->
  exists sums' errors',
    foldM (residual_entry activity) col (sums, errors) = Ok (sums', errors') /\
    foldM (E:=UmfpackError) (scatter_at (residual_update activity)) col (zip sums errors)
      = Ok (zip sums' errors') /\
    length sums' = length sums /\ length errors' = length errors.
Proof.
  intros Hlen Hall. revert sums errors Hlen Hall.
  induction col as [|rv col IH]; intros sums errors Hlen Hall.
  { by exists sums, errors. }
  apply Forall_cons in Hall as [Hrv Hall].
  destruct (residual_entry_scatter activity sums errors rv Hlen Hrv) as (s & e & Hs & He & Hls & Hle).
  cbn [foldM]. rewrite Hs, He.
  destruct (IH s e) as (s' & e' & -> & -> & ? & ?); [lia|by rewrite Hls|].
  exists s', e'. split_and!; [done|done|lia|lia].
Qed.

(** One column, seen as a scatter over the paired vectors. *)
Lemma residual_column_scatter m sums errors j activity :
  csc_wf m -> (j < Z.to_nat (ncols m))%nat ->
  length sums = Z.to_nat (nrows m) -> length errors = Z.to_nat (nrows m) ->
  exists sums' errors',
    residual_column m (sums, errors) (j, activity) = Ok (sums', errors') /\
    foldM (E:=UmfpackError) (scatter_at (residual_contribution activity)) (column m j)
      (zip sums errors) = Ok (zip sums' errors') /\
    length sums' = Z.to_nat (nrows m) /\ length errors' = Z.to_nat (nrows m).
Proof.
  intros Hwf Hj Hls Hle. destruct (wf_column m j Hwf Hj) as [Hnd Hrows].
  assert (Forall (fun rv => 0 <= rv.1 < Z.of_nat (length sums)) (column m j)) as Hr.
  { rewrite Hls. eapply Forall_impl; [exact Hrows|]. simpl. lia. }
  unfold residual_column, residual_contribution. destruct (activity =? f64_zero)%f64.
  { exists sums, errors. split_and!; [done| |done|done].
    rewrite scatter_column; [|done|by rewrite length_zip_with, Hle, Hls, Nat.min_id, <- Hls].
    f_equal. apply imap_id. intros i a. by destruct (assoc _ _). }
  pose proof Hwf as [].
  destruct (wf_offsets m j) as (s & e & Hs & He & ? & ?); try done; [lia|].
  rewrite Hs, He. cbn [expect mbind result_bind]. unfold usize_of_i32.
  rewrite !decide_True by lia. cbn [expect mbind result_bind].
  rewrite (column_loop m j s e) by done.
  destruct (residual_loop_scatter activity (column m j) sums errors) as (s' & e' & Hl & Hr' & ? & ?);
    [lia|done|].
  exists s', e'. split_and!; [exact Hl|exact Hr'|lia|lia].
Qed.

Lemma residual_columns_scatter m cxs sums errors :
  csc_wf m -> Forall (fun cx : nat * f64 => (cx.1 < Z.to_nat (ncols m))%nat) cxs ->
  length sums = Z.to_nat (nrows m) -> length errors = Z.to_nat (nrows m) ->
  exists sums' errors',
    foldM (residual_column m) cxs (sums, errors) = Ok (sums', errors') /\
    foldM (E:=UmfpackError) (fun out cx =>
      foldM (scatter_at (residual_contribution cx.2)) (column m cx.1) out) cxs
      (zip sums errors) = Ok (zip sums' errors') /\
    length sums' = Z.to_nat (nrows m) /\ length errors' = Z.to_nat (nrows m).
Proof.
  intros Hwf Hall. revert sums errors.
  induction Hall as [|[j a] cxs Hj _ IH]; intros sums errors Hls Hle.
  { by exists sums, errors. }
  destruct (residual_column_scatter m sums errors j a) as (s & e & Hs & He & ? & ?); try done.
  cbn [foldM fst snd]. rewrite Hs, He. by apply IH.
Qed.

Lemma compensated_residual_eq m rhs x :
  csc_wf m -> length rhs = Z.to_nat (nrows m) -> length x = Z.to_nat (ncols m) ->
  compensated_residual m rhs x = Ok (imap (row_residual m x) rhs).
Proof.
  intros Hwf Hrhs Hx. unfold compensated_residual.
  rewrite take_ge by (rewrite length_imap, (wf_len m Hwf); lia).
  pose proof (imap_pair_in_range x (Z.to_nat (ncols m)) ltac:(lia)) as Hin.
  destruct (residual_columns_scatter m (imap pair x) rhs (replicate (length rhs) f64_zero))
    as (s & e & -> & Hsc & Hs & He); [done|done|done|by rewrite length_replicate|].
  cbn [mbind result_bind]. f_equal.
  rewrite (scatter_columns residual_contribution _ m) in Hsc; [|done|done| |done].
  2: { rewrite length_zip_with, length_replicate. lia. }
  injection Hsc as Hsc. rewrite zip_with_zip, <- Hsc. apply list_eq. intros i.
  rewrite list_lookup_fmap, !list_lookup_imap, lookup_zip_with.
  destruct (decide (i < length rhs)%nat) as [Hi|Hi].
  - rewrite lookup_replicate_2 by done.
    destruct (lookup_lt_is_Some_2 rhs i Hi) as [b ->]. done.
  - rewrite (lookup_ge_None_2 rhs) by lia. done.
Qed.
End Residual.

(** ** What [factorize] guarantees *)

(** A matrix the solver may work with: well formed and square. *)
Definition solvable (m : CscMatrix) : Prop := csc_wf m /\ nrows m = ncols m.

Section Guarantees.
Context `{UmfpackLib}.

Lemma factorize_ok_inv m o f tr :
  factorize m o = (Ok f, tr) ->
  solvable m /\ f_matrix f = m /\
  tr = [Allocated (SymbolicObject (f_symbolic f)); Allocated (NumericObject (f_numeric f))].
Proof.
  unfold factorize. destruct (validate m) as [[]| |] eqn:Ev; [|done..].
  apply validate_wf in Ev. destruct (Z.eqb_spec (nrows m) (ncols m)) as [Hsq|]; [|done]. simpl.
  destruct (di_symbolic _ _ _ _ _ _) as [[s1 p1] i1].
  destruct (s1 =? UMFPACK_WARNING_SINGULAR); [done|].
  destruct (s1 =? UMFPACK_OK); [|done]. simpl. destruct p1 as [p1|]; [|done].
  destruct (di_numeric _ _ _ _ _) as [[s2 p2] i2].
  destruct (s2 =? UMFPACK_WARNING_SINGULAR); [done|].
  destruct (s2 =? UMFPACK_OK); [|done]. simpl. destruct p2 as [p2|]; [|done].
  intros [= <- <-]. done.
Qed.

Lemma length_back_substitute f rhs x :
  back_substitute f rhs = Ok x -> length x = length rhs.
Proof.
  unfold back_substitute. destruct (di_solve _ _ _ _ _ _ _) as [st y]. intros Hx. repeat case_in Hx.
  inv_result. unfold buffer. by rewrite length_fmap, length_seq.
Qed.

(** The result of a refinement step: the input, or the input plus one
    correction with every component finite. *)
Definition corrected (x x' : list f64) : Prop :=
  exists delta, length delta = length x /\ x' = zip_with f64_add x delta /\
    Forall (fun v => is_finite v = true) x'.

Lemma refine_cases f rhs x x' :
  solvable (f_matrix f) -> length rhs = Z.to_nat (ncols (f_matrix f)) -> length x = length rhs ->
  refine f rhs x = Ok x' ->
  x' = x \/ needs_correction rhs (imap (row_residual (f_matrix f) x) rhs) = true /\ corrected x x'.
Proof.
  intros [Hwf Hsq] Hrhs Hx. unfold refine.
  rewrite compensated_residual_eq by (congruence || lia || done). cbn [mbind result_bind].
  destruct (needs_correction _ _) eqn:En; [|intros [= <-]; by left].
  intros (delta & Hd & Hok)%bind_ok. apply length_back_substitute in Hd.
  rewrite length_imap in Hd.
  destruct (forallb _ (zip x delta)) eqn:E; injection Hok as <-; [|by left].
  right. split; [done|]. exists delta. rewrite drop_ge by lia. rewrite app_nil_r.
  split_and!; [lia|done|].
  rewrite zip_with_zip. apply Forall_fmap, Forall_forall. intros [v d] Hin.
  rewrite forallb_forall in E. apply (E (v, d)). by apply list_elem_of_In.
Qed.

Lemma back_substitute_no_panic f rhs : back_substitute f rhs <> Panic.
Proof.
  unfold back_substitute. destruct (di_solve _ _ _ _ _ _ _) as [st y].
  by destruct (st =? UMFPACK_WARNING_SINGULAR), (st =? UMFPACK_OK).
Qed.

Lemma refine_no_panic f rhs x :
  solvable (f_matrix f) -> length rhs = Z.to_nat (ncols (f_matrix f)) -> length x = length rhs ->
  refine f rhs x <> Panic.
Proof.
  intros [Hwf Hsq] Hrhs Hx. unfold refine.
  rewrite compensated_residual_eq by (congruence || lia || done). cbn [mbind result_bind].
  destruct (needs_correction _ _); [|done].
  pose proof (back_substitute_no_panic f (imap (row_residual (f_matrix f) x) rhs)) as Hb.
  destruct (back_substitute f _) as [d|e|]; cbn [mbind result_bind]; [|done|done].
  by destruct (forallb _ (zip x d)).
Qed.

Lemma solve_no_panic f rhs : solvable (f_matrix f) -> solve f rhs <> Panic.
Proof.
  intros Hsol. pose proof Hsol as [[] Hsq]. unfold solve, usize_of_i32.
  rewrite decide_True by lia. cbn [ok_or mbind result_bind].
  destruct (Nat.eqb_spec (length rhs) (Z.to_nat (ncols (f_matrix f)))) as [Hl|]; [|done]. simpl.
  pose proof (back_substitute_no_panic f rhs) as Hb.
  destruct (back_substitute f rhs) as [x|e|] eqn:Eb; cbn [mbind result_bind]; [|done|done].
  apply length_back_substitute in Eb. by apply refine_no_panic.
Qed.

(** A successful [solve]: the shape of the demand and of the answer. *)
Lemma solve_ok_inv f rhs x :
  solvable (f_matrix f) -> solve f rhs = Ok x ->
  length rhs = Z.to_nat (ncols (f_matrix f)) /\ length x = length rhs /\
  exists x0, back_substitute f rhs = Ok x0 /\ length x0 = length rhs /\
    (x = x0 \/ needs_correction rhs (imap (row_residual (f_matrix f) x0) rhs) = true /\ corrected x0 x).
Proof.
  intros Hsol. pose proof Hsol as [[] Hsq]. unfold solve, usize_of_i32.
  rewrite decide_True by lia. cbn [ok_or mbind result_bind].
  destruct (Nat.eqb_spec (length rhs) (Z.to_nat (ncols (f_matrix f)))) as [Hl|]; [|done]. simpl.
  intros (x0 & Hb & Hr)%bind_ok. apply length_back_substitute in Hb as Hx0.
  apply refine_cases in Hr as Hc; [|done..].
  split; [done|]. split; [|by exists x0].
  destruct Hc as [->|[_ (d & Hd & -> & _)]]; [done|]. rewrite length_zip_with. lia.
Qed.
End Guarantees.

(** ** Properties *)

(** An instance of the C interface for examples: back substitution on an
    upper triangular 2x2 matrix stored as [a00; a01; a11]. *)
Definition upper2_solve (ax b : list f64) (i : nat) : f64 :=
  let at_ l k := default f64_nan (l !! k) in
  let x1 := (at_ b 1%nat / at_ ax 2%nat)%f64 in
  match i with
  | O => ((at_ b 0%nat - at_ ax 1%nat * x1) / at_ ax 0%nat)%f64
  | _ => x1
  end.

Definition upper2 (numeric_status : Z) : UmfpackLib := {|
  di_defaults := fun _ => f64_zero;
  di_symbolic := fun _ _ _ _ _ _ => (UMFPACK_OK, Some 1%positive, fun _ => f64_one);
  di_numeric := fun _ _ _ _ _ => (numeric_status, Some 2%positive, fun _ => f64_one);
  di_solve := fun _ _ _ ax b _ _ => (UMFPACK_OK, upper2_solve ax b);
|}.

(** [[1, -2], [0, 1]]. *)
Definition upper2_matrix : CscMatrix :=
  mk_csc 2 2 [0; 1; 3] [0; 0; 1] [f64_one; f64_of_Z (-2); f64_one].

(** The same solver off by one in component 0 on the first demand: what a
    refinement step has to repair. *)
Definition sloppy2 : UmfpackLib := {|
  di_defaults := fun _ => f64_zero;
  di_symbolic := fun _ _ _ _ _ _ => (UMFPACK_OK, Some 1%positive, fun _ => f64_one);
  di_numeric := fun _ _ _ _ _ => (UMFPACK_OK, Some 2%positive, fun _ => f64_one);
  di_solve := fun _ _ _ ax b _ _ =>
    (UMFPACK_OK, if decide (b = [f64_zero; f64_one])
                 then fun i => match i with O => f64_zero | _ => f64_one end
                 else upper2_solve ax b);
|}.

(** A factorization can only exist for a well-formed square matrix; [solve]
    on it never panics, rejects a demand of the wrong length with the exact
    error, and answers with one activity per process. *)
Theorem factorized_solve_safe `{UmfpackLib} (m : CscMatrix) (o : UmfpackNumericOptions)
    (f : UmfpackFactorization) (tr : list event) (rhs : list f64)
    (Hf : factorize m o = (Ok f, tr)) :
  solvable m /\ f_matrix f = m /\ solve f rhs <> Panic /\
  (length rhs <> Z.to_nat (ncols m) ->
     solve f rhs = Err (URhsDimensionMismatch (length rhs) (Z.to_nat (ncols m)))) /\
  (forall x, solve f rhs = Ok x -> length x = Z.to_nat (ncols m)).
Proof.
  apply factorize_ok_inv in Hf as (Hsol & <- & _). split_and!; [done|done|by apply solve_no_panic|..].
  - intros Hne. pose proof Hsol as [[] _]. unfold solve, usize_of_i32.
    rewrite decide_True by lia. cbn [ok_or mbind result_bind].
    by destruct (Nat.eqb_spec (length rhs) (Z.to_nat (ncols (f_matrix f)))).
  - intros x Hx. apply solve_ok_inv in Hx as (? & ? & _); [congruence|done].
Qed.

Lemma factorized_solve_safe_witness :
  exists f tr, @factorize (upper2 0) upper2_matrix default_numeric_options = (Ok f, tr) /\
    @solve (upper2 0) f [f64_one] = Err (URhsDimensionMismatch 1 2).
Proof.
  do 2 eexists. split; [vm_compute; reflexivity|].
  eapply (@factorized_solve_safe (upper2 0) upper2_matrix default_numeric_options).
  - vm_compute. reflexivity.
  - vm_compute. discriminate.
Defined.

(** [solve] returns the back-substituted vector untouched unless the
    compensated residual is finite and exceeds machine epsilon times the
    demand norm; then it applies at most one correction, and only if every
    corrected component is finite. *)
Theorem solve_refines_at_most_once `{UmfpackLib} (f : UmfpackFactorization) (rhs x : list f64)
    (Hsol : solvable (f_matrix f)) (Hx : solve f rhs = Ok x) :
  exists x0, back_substitute f rhs = Ok x0 /\
    (needs_correction rhs (imap (row_residual (f_matrix f) x0) rhs) = false -> x = x0) /\
    (x = x0 \/ corrected x0 x).
Proof.
  apply solve_ok_inv in Hx as (_ & _ & x0 & Hb & Hl & Hc); [|done]. exists x0.
  split; [done|]. destruct Hc as [->|[Hn Hc]]; [by auto|]. split; [by rewrite Hn|by right].
Qed.

Lemma solve_refines_at_most_once_witness :
  exists f tr, @factorize sloppy2 upper2_matrix default_numeric_options = (Ok f, tr) /\
    @back_substitute sloppy2 f [f64_zero; f64_one] = Ok [f64_zero; f64_one] /\
    @solve sloppy2 f [f64_zero; f64_one] = Ok [f64_of_Z 2; f64_one] /\
    exists x0, @back_substitute sloppy2 f [f64_zero; f64_one] = Ok x0 /\
      ([f64_of_Z 2; f64_one] = x0 \/ corrected x0 [f64_of_Z 2; f64_one]).
Proof.
  do 2 eexists. split; [vm_compute; reflexivity|]. split; [vm_compute; reflexivity|].
  split; [vm_compute; reflexivity|].
  edestruct (@solve_refines_at_most_once sloppy2) as (x0 & Hb & _ & Hc).
  3: { exists x0. split; [exact Hb|exact Hc]. }
  - split; [apply validate_wf; vm_compute; reflexivity|reflexivity].
  - vm_compute. reflexivity.
Defined.

(** On a well-formed matrix [compensated_residual] never panics, and
    component [r] is the FMA/Neumaier accumulation of row [r] of
    [b - A x] in column order, plus its accumulated rounding error. *)
Theorem compensated_residual_rows (m : CscMatrix) (rhs x : list f64)
    (Hwf : csc_wf m) (Hrhs : length rhs = Z.to_nat (nrows m)) (Hx : length x = Z.to_nat (ncols m)) :
  compensated_residual m rhs x = Ok (imap (row_residual m x) rhs).
Proof. by apply compensated_residual_eq. Qed.

(** The cancellation the wrapper's test exercises: (1+e)(1-e) with +-1e20. *)
Definition cancellation_matrix : CscMatrix :=
  mk_csc 1 3 [0; 1; 2; 3] [0; 0; 0]
    [(f64_one + f64_epsilon)%f64; f64_of_Z (10^20); f64_of_Z (-10^20)].

Lemma compensated_residual_rows_witness :
  compensated_residual cancellation_matrix [f64_one]
    [(f64_one - f64_epsilon)%f64; f64_one; f64_one] = Ok [(f64_epsilon * f64_epsilon)%f64].
Proof.
  rewrite compensated_residual_rows.
  - vm_compute. reflexivity.
  - apply validate_wf. vm_compute. reflexivity.
  - reflexivity.
  - reflexivity.
Defined.

(** Evaluates [live] on a concrete trace. *)
Ltac solve_live :=
  unfold live; cbn [foldl app allocated live_step drop_factorization f_symbolic f_numeric];
  rewrite ?filter_cons, ?filter_nil; repeat case_decide; simplify_eq;
  rewrite ?filter_cons, ?filter_nil; repeat case_decide; simplify_eq; eauto.

(** What the UMFPACK documentation promises about returned handles: a
    symbolic object exactly on success, and a numeric object on success; any
    other numeric status but the singular warning leaves no numeric object. *)
Definition documented_handles `{UmfpackLib} : Prop :=
  (forall a b ap ai ax c, let '(st, p, _) := di_symbolic a b ap ai ax c in
     st = UMFPACK_OK <-> p <> None) /\
  (forall ap ai ax s c, let '(st, p, _) := di_numeric ap ai ax s c in
     (st = UMFPACK_OK -> p <> None) /\
     (st <> UMFPACK_OK -> st <> UMFPACK_WARNING_SINGULAR -> p = None)).

(** Under the documented behaviour of UMFPACK, a successful [factorize]
    owns exactly one symbolic and one numeric object and [drop] releases both;
    a failed one leaves nothing allocated, except that the singular warning of
    the numeric stage leaves the numeric object UMFPACK returned. *)
Theorem factorize_lifetimes `{UmfpackLib} (m : CscMatrix) (o : UmfpackNumericOptions)
    (Hdoc : documented_handles) :
  match factorize m o with
  | (Ok f, tr) => live tr = [NumericObject (f_numeric f); SymbolicObject (f_symbolic f)] /\
                  live (tr ++ drop_factorization f) = []
  | (Err SingularMatrix, tr) => live tr = [] \/ exists p, live tr = [NumericObject p]
  | (_, tr) => live tr = []
  end.
Proof.
  destruct Hdoc as [Hsym Hnum]. unfold factorize.
  destruct (validate m) as [[]|e|]; [|done..].
  destruct (nrows m =? ncols m); [|done]. cbn [negb].
  match goal with |- context [di_symbolic ?a ?b ?c ?d ?e ?f] =>
    specialize (Hsym a b c d e f); destruct (di_symbolic a b c d e f) as [[s1 p1] i1] end.
  destruct (Z.eqb_spec s1 UMFPACK_WARNING_SINGULAR) as [->|].
  { destruct p1; [|by left]. by pose proof (proj2 Hsym ltac:(done)). }
  destruct (Z.eqb_spec s1 UMFPACK_OK) as [->|Hne]; cbn [negb].
  2: { destruct p1; [|done]. destruct Hne. by apply Hsym. }
  destruct p1 as [p1|]; [|done].
  match goal with |- context [di_numeric ?a ?b ?c ?d ?e] =>
    specialize (Hnum a b c d e); destruct (di_numeric a b c d e) as [[s2 p2] i2] end.
  destruct Hnum as [Hok Hno]. destruct (Z.eqb_spec s2 UMFPACK_WARNING_SINGULAR).
  { destruct p2 as [p2|]; solve_live. }
  destruct (Z.eqb_spec s2 UMFPACK_OK) as [->|Hne2]; cbn [negb].
  2: { rewrite Hno by done. solve_live. }
  destruct p2 as [p2|]; [|by destruct Hok]. split; [done|]. solve_live.
Qed.

Lemma upper2_documented n : n = 0 \/ n = 1 -> @documented_handles (upper2 n).
Proof.
  intros Hn. split; [intros; simpl; by split|]. intros. simpl. split; [done|]. intros ? ?.
  unfold UMFPACK_OK, UMFPACK_WARNING_SINGULAR in *. lia.
Defined.

Lemma factorize_lifetimes_witness :
  exists f tr, @factorize (upper2 0) upper2_matrix default_numeric_options = (Ok f, tr) /\
    live (tr ++ drop_factorization f) = [].
Proof.
  pose proof (@factorize_lifetimes (upper2 0) upper2_matrix default_numeric_options
    (upper2_documented 0 (or_introl eq_refl))) as Hl.
  vm_compute in Hl. do 2 eexists. split; [vm_compute; reflexivity|]. apply Hl.
Defined.

(** When the numeric stage reports a singular matrix together with a
    numeric object (UMFPACK builds one in that case), [factorize] fails with
    [SingularMatrix], releases the symbolic object and leaks the numeric one. *)
Theorem singular_factorize_leaks_numeric `{UmfpackLib} (m : CscMatrix) (o : UmfpackNumericOptions)
    (s p : positive) (i1 i2 : nat -> f64) (Hm : solvable m)
    (Hsym : forall a b ap ai ax c, di_symbolic a b ap ai ax c = (UMFPACK_OK, Some s, i1))
    (Hnum : forall ap ai ax h c, di_numeric ap ai ax h c = (UMFPACK_WARNING_SINGULAR, Some p, i2)) :
  exists tr, factorize m o = (Err SingularMatrix, tr) /\ live tr = [NumericObject p].
Proof.
  destruct Hm as [Hwf Hsq]. unfold factorize. rewrite (proj2 (validate_wf m) Hwf), Hsq, Z.eqb_refl.
  cbn [negb]. rewrite Hsym. simpl. rewrite Hnum. simpl. eexists. split; [done|].
  solve_live.
Qed.

Lemma singular_factorize_leaks_numeric_witness :
  exists tr, @factorize (upper2 1) upper2_matrix default_numeric_options = (Err SingularMatrix, tr) /\
    live tr = [NumericObject 2].
Proof.
  apply (@singular_factorize_leaks_numeric (upper2 1) upper2_matrix default_numeric_options
    1%positive 2%positive (fun _ => f64_one) (fun _ => f64_one)).
  - split; [apply validate_wf; vm_compute; reflexivity|reflexivity].
  - reflexivity.
  - reflexivity.
Defined.
