(* ===== verification/DataBuilder.v ===== *)
(** * Matrix build: M = I - A, B and C

    Models [crates/solver-core/src/data_builder.rs].  The theorems say that
    the three matrices are the ones the sparse input describes, with the
    identity added last on the diagonal of M. *)

From S2P Require Import Prelude F64 Csc.

Local Open Scope Z_scope.

(** A 128-bit UUID as the integer it encodes. *)
Abbreviation Uuid := Z (only parsing).

Record SparseTriplet := mk_sparse { s_row : Z; s_col : Z; s_value : f64 }.

Record ModelSparseData := {
  model_version : Uuid;
  process_count : Z;
  flow_count : Z;
  impact_count : Z;
  technosphere_entries : list SparseTriplet;
  biosphere_entries : list SparseTriplet;
  characterization_factors : list SparseTriplet;
}.

Record BuiltMatrices := {
  bm_m : CscMatrix;
  bm_b : CscMatrix;
  bm_c : CscMatrix;
  m_nnz : nat;
  b_nnz : nat;
  c_nnz : nat;
}.

Inductive DataBuilderError :=
| BuilderInvalidDimensions (process_count flow_count impact_count : Z)
| BuilderMatrix (e : MatrixError).

(** [DataBuilder::default()] prunes at 1e-15. *)
Definition default_zero_epsilon : f64 := f64_of_ratio 1 (10^15).

Definition to_matrix_triplet (t : SparseTriplet) : MatrixTriplet :=
  mk_triplet (s_row t) (s_col t) (s_value t).

(** [MatrixTriplet { row, col, value: -value }]. *)
Definition negated_triplet (t : SparseTriplet) : MatrixTriplet :=
  mk_triplet (s_row t) (s_col t) (- s_value t)%f64.

(** [(0..n).map(|index| .. 1.0)]. *)
Definition identity_triplets (n : Z) : list MatrixTriplet :=
  (fun i => mk_triplet (Z.of_nat i) (Z.of_nat i) f64_one) <$> seq 0 (Z.to_nat n).

Definition m_triplets (data : ModelSparseData) : list MatrixTriplet :=
  (negated_triplet <$> technosphere_entries data) ++ identity_triplets (process_count data).

Definition build (zero_epsilon : f64) (data : ModelSparseData)
    : result DataBuilderError BuiltMatrices :=
  if (process_count data <=? 0) || (flow_count data <=? 0) || (impact_count data <=? 0)
  then Err (BuilderInvalidDimensions (process_count data) (flow_count data) (impact_count data))
  else
    m ← map_err BuilderMatrix
          (from_triplet_iter (process_count data) (process_count data) (m_triplets data) zero_epsilon);
    b ← map_err BuilderMatrix
          (from_triplet_iter (flow_count data) (process_count data)
             (to_matrix_triplet <$> biosphere_entries data) zero_epsilon);
    c ← map_err BuilderMatrix
          (from_triplet_iter (impact_count data) (flow_count data)
             (to_matrix_triplet <$> characterization_factors data) zero_epsilon);
    Ok {| bm_m := m; bm_b := b; bm_c := c; m_nnz := nnz m; b_nnz := nnz b; c_nnz := nnz c |}.

(** ** The reference matrices *)

Definition sparse_in_range (nr nc : Z) (t : SparseTriplet) : Prop :=
  0 <= s_row t < nr /\ 0 <= s_col t < nc.

(** Input data whose indices lie in the matrices and whose entry counts fit
    the 32-bit column pointers. *)
Record data_in_range (data : ModelSparseData) : Prop := {
  dr_process : 0 < process_count data;
  dr_flow : 0 < flow_count data;
  dr_impact : 0 < impact_count data;
  dr_a : Forall (sparse_in_range (process_count data) (process_count data))
           (technosphere_entries data);
  dr_b : Forall (sparse_in_range (flow_count data) (process_count data)) (biosphere_entries data);
  dr_c : Forall (sparse_in_range (impact_count data) (flow_count data))
           (characterization_factors data);
  dr_a_len : Z.of_nat (length (technosphere_entries data)) + process_count data <= I32_MAX;
  dr_b_len : Z.of_nat (length (biosphere_entries data)) <= I32_MAX;
  dr_c_len : Z.of_nat (length (characterization_factors data)) <= I32_MAX;
}.

(** Position [k] of the reference A, B or C: the sum of the kept entries. *)
Definition negated_cell (eps : f64) (ts : list SparseTriplet) (k : Z * Z) : option f64 :=
  cell eps (negated_triplet <$> ts) k.
Definition sparse_cell (eps : f64) (ts : list SparseTriplet) (k : Z * Z) : option f64 :=
  cell eps (to_matrix_triplet <$> ts) k.

(** Position [(i, j)] of I - A: the negated entries of A, then 1 on the
    diagonal. *)
Definition i_minus_a (eps : f64) (data : ModelSparseData) (i j : Z) : option f64 :=
  let a := negated_cell eps (technosphere_entries data) (i, j) in
  if decide (i = j) then Some (default f64_zero a + f64_one)%f64 else a.

Lemma cell_app eps ts1 ts2 k :
  cell eps (ts1 ++ ts2) k = foldl (cell_step eps k) (cell eps ts1 k) ts2.
Proof. apply foldl_app. Qed.

Lemma identity_cell eps n i j o :
  (f64_one <=? eps)%f64 = false -> 0 <= j < n ->
  foldl (cell_step eps (i, j)) o (identity_triplets n) =
  if decide (i = j) then Some (default f64_zero o + f64_one)%f64 else o.
Proof.
  intros Heps Hj. unfold identity_triplets.
  assert (forall k, foldl (cell_step eps (i, j)) o
            ((fun i => mk_triplet (Z.of_nat i) (Z.of_nat i) f64_one) <$> seq 0 k) =
          if decide (i = j /\ (Z.to_nat j < k)%nat)
          then Some (default f64_zero o + f64_one)%f64 else o) as Hk.
  { induction k as [|k IH]; [by rewrite decide_False by lia|].
    rewrite seq_S, fmap_app, foldl_app, IH. cbn [fmap list_fmap foldl Nat.add].
    unfold cell_step. cbn [t_row t_col t_value].
    change (f64_abs f64_one) with f64_one. rewrite Heps. cbn [negb]. rewrite andb_true_r.
    destruct (decide (i = j)) as [->|Hij].
    - destruct (decide (Z.to_nat j = k)) as [<-|Hne].
      + rewrite bool_decide_true by (f_equal; lia).
        rewrite decide_False by lia. by rewrite decide_True by lia.
      + rewrite bool_decide_false by (intros [= ?]; lia).
        repeat case_decide; done || lia.
    - rewrite bool_decide_false by (intros [= ? ?]; lia).
      by rewrite !decide_False by lia. }
  rewrite Hk. destruct (decide (i = j)); repeat case_decide; done || lia.
Qed.

Lemma m_triplets_in_range data :
  data_in_range data ->
  Forall (triplet_in_range (process_count data) (process_count data)) (m_triplets data).
Proof.
  intros []. unfold m_triplets. apply Forall_app. split.
  - apply Forall_fmap. eapply Forall_impl; [exact dr_a0|]. done.
  - apply Forall_fmap, Forall_forall. intros i [_ Hi]%elem_of_seq.
    unfold triplet_in_range. simpl. lia.
Qed.

Lemma sparse_triplets_in_range nr nc ts :
  Forall (sparse_in_range nr nc) ts -> Forall (triplet_in_range nr nc) (to_matrix_triplet <$> ts).
Proof. intros H. apply Forall_fmap. eapply Forall_impl; [exact H|]. done. Qed.

(** The reference matrix a built one must agree with. *)
Definition agrees (eps : f64) (m : CscMatrix) (nr nc : Z) (ref : Z -> Z -> option f64) : Prop :=
  csc_wf m /\ nrows m = nr /\ ncols m = nc /\
  forall i j, 0 <= j < nc -> csc_get m i j = prune eps (ref i j).

Lemma build_ok eps data :
  data_in_range data -> (f64_one <=? eps)%f64 = false ->
  exists bm, build eps data = Ok bm /\
    agrees eps (bm_m bm) (process_count data) (process_count data) (i_minus_a eps data) /\
    agrees eps (bm_b bm) (flow_count data) (process_count data)
      (fun i j => sparse_cell eps (biosphere_entries data) (i, j)) /\
    agrees eps (bm_c bm) (impact_count data) (flow_count data)
      (fun i j => sparse_cell eps (characterization_factors data) (i, j)) /\
    m_nnz bm = nnz (bm_m bm) /\ b_nnz bm = nnz (bm_b bm) /\ c_nnz bm = nnz (bm_c bm).
Proof.
  intros Hd Heps. pose proof Hd as []. unfold build.
  rewrite !(proj2 (Z.leb_gt _ _)) by done. cbn [orb].
  destruct (from_triplet_iter_spec (process_count data) (process_count data) (m_triplets data) eps)
    as (m & -> & Hmwf & Hmr & Hmc & Hm); [done|done|by apply m_triplets_in_range| |].
  { unfold m_triplets, identity_triplets. rewrite length_app, !length_fmap, length_seq. lia. }
  destruct (from_triplet_iter_spec (flow_count data) (process_count data)
    (to_matrix_triplet <$> biosphere_entries data) eps) as (b & -> & Hbwf & Hbr & Hbc & Hb);
    [done|done|by apply sparse_triplets_in_range|by rewrite length_fmap|].
  destruct (from_triplet_iter_spec (impact_count data) (flow_count data)
    (to_matrix_triplet <$> characterization_factors data) eps) as (c & -> & Hcwf & Hcr & Hcc & Hc);
    [done|done|by apply sparse_triplets_in_range|by rewrite length_fmap|].
  cbn [map_err mbind result_bind]. eexists. split; [done|]. cbn.
  split_and!; try done. split_and!; try done. intros i j Hj. rewrite Hm by done. f_equal.
  unfold m_triplets. rewrite cell_app, identity_cell by done. done.
Qed.

Lemma build_no_panic eps data : build eps data <> Panic.
Proof.
  unfold build. destruct (process_count data <=? 0) eqn:E1; [done|].
  destruct (flow_count data <=? 0) eqn:E2; [done|].
  destruct (impact_count data <=? 0) eqn:E3; [done|]. bool_hyps. cbn [orb].
  pose proof (from_triplet_iter_no_panic (process_count data) (process_count data)
    (m_triplets data) eps) as H1.
  destruct (from_triplet_iter _ _ (m_triplets data) _); cbn [map_err mbind result_bind]; try done.
  pose proof (from_triplet_iter_no_panic (flow_count data) (process_count data)
    (to_matrix_triplet <$> biosphere_entries data) eps) as H2.
  destruct (from_triplet_iter _ _ (to_matrix_triplet <$> biosphere_entries data) _);
    cbn [map_err mbind result_bind]; try done.
  pose proof (from_triplet_iter_no_panic (impact_count data) (flow_count data)
    (to_matrix_triplet <$> characterization_factors data) eps) as H3.
  by destruct (from_triplet_iter _ _ (to_matrix_triplet <$> characterization_factors data) _).
Qed.

(** ** Properties *)

(** C6: for in-range data and a zero threshold below one, [build] succeeds with
    well-formed M, B and C of the declared shapes: M is I - A position by
    position (negated technosphere entries summed in order, then the
    identity), B and C are the summed inputs, all pruned at the threshold. *)
Theorem build_is_I_minus_A (eps : f64) (data : ModelSparseData)
    (Hd : data_in_range data) (Heps : (f64_one <=? eps)%f64 = false) :
  exists bm, build eps data = Ok bm /\
    agrees eps (bm_m bm) (process_count data) (process_count data) (i_minus_a eps data) /\
    agrees eps (bm_b bm) (flow_count data) (process_count data)
      (fun i j => sparse_cell eps (biosphere_entries data) (i, j)) /\
    agrees eps (bm_c bm) (impact_count data) (flow_count data)
      (fun i j => sparse_cell eps (characterization_factors data) (i, j)) /\
    m_nnz bm = nnz (bm_m bm) /\ b_nnz bm = nnz (bm_b bm) /\ c_nnz bm = nnz (bm_c bm).
Proof. by apply build_ok. Qed.

(** Two processes buying from each other, as in the crate's unit test. *)
Definition example_data : ModelSparseData := {|
  model_version := 7;
  process_count := 2;
  flow_count := 1;
  impact_count := 1;
  technosphere_entries := [mk_sparse 0 1 (f64_of_ratio 1 2); mk_sparse 1 0 (f64_of_ratio 1 4)];
  biosphere_entries := [mk_sparse 0 0 (f64_of_Z 2); mk_sparse 0 1 (f64_of_Z 3)];
  characterization_factors := [mk_sparse 0 0 (f64_of_ratio 1 10)];
|}.

Lemma example_in_range : data_in_range example_data.
Proof. constructor; simpl; try (unfold I32_MAX; lia); repeat constructor; simpl; lia. Qed.

Lemma build_is_I_minus_A_witness :
  exists bm, build default_zero_epsilon example_data = Ok bm /\
    csc_get (bm_m bm) 0 0 = Some f64_one /\
    csc_get (bm_m bm) 1 0 = Some (f64_of_ratio (-1) 4).
Proof.
  destruct (build_is_I_minus_A default_zero_epsilon example_data) as (bm & Hbm & Hm & _).
  - exact example_in_range.
  - vm_compute. reflexivity.
  - exists bm. split; [exact Hbm|]. destruct Hm as (_ & _ & _ & Hget).
    rewrite !Hget by (simpl; lia). by split; vm_compute.
Defined.

(** [build] never panics, whatever indices, counts and values the input
    holds, and it refuses non-positive dimensions before it looks at any entry. *)
Theorem build_never_panics (eps : f64) (data : ModelSparseData) :
  build eps data <> Panic /\
  (process_count data <= 0 \/ flow_count data <= 0 \/ impact_count data <= 0 ->
   build eps data =
   Err (BuilderInvalidDimensions (process_count data) (flow_count data) (impact_count data))).
Proof.
  split; [apply build_no_panic|]. unfold build. intros Hdim.
  replace (_ || _) with true by lia. done.
Qed.

Lemma build_never_panics_witness :
  build default_zero_epsilon
    {| model_version := 1; process_count := 1; flow_count := 0; impact_count := 1;
       technosphere_entries := []; biosphere_entries := []; characterization_factors := [] |}
  = Err (BuilderInvalidDimensions 1 0 1).
Proof. apply build_never_panics. right. left. simpl. lia. Defined.
