(* ===== verification/Validator.v ===== *)
(** * Matrix pre-check before factorization

    Models [crates/solver-core/src/validator.rs].  The report's counters are
    shown to be what their documentation says: columns without entries, rows
    without entries, and diagonal positions that are missing or near zero;
    the status is a function of them. *)

From stdpp Require Import pretty.
From S2P Require Import Prelude F64 Csc.

Local Open Scope Z_scope.

Inductive ValidationStatus := ValidationOk | WarningNearSingular | FailedInvalidStructure.
#[export] Instance ValidationStatus_eq_dec : EqDecision ValidationStatus.
Proof. solve_decision. Defined.

Record MatrixStats := {
  st_nrows : Z;
  st_ncols : Z;
  st_nnz : nat;
  sparsity : f64;
  empty_columns : nat;
  empty_rows : nat;
  near_zero_diagonal : nat;
}.

Record ValidationReport := {
  status : ValidationStatus;
  stats : MatrixStats;
  messages : list string;
}.

(** The mutable locals of the scan: row counts, whether the diagonal of the
    current column was met, and the near-zero diagonal counter. *)
Record column_scan := { row_counts : list nat; found_diag : bool; near_zero : nat }.

(** The body of the loop over the entries of column [col]. *)
Definition scan_entry (diag_epsilon : f64) (col : nat) (st : column_scan) (rv : Z * f64)
    : column_scan :=
  let row := usize_or_default rv.1 in
  let counts :=
    match row_counts st !! row with
    | Some c => <[row := S c]> (row_counts st)
    | None => row_counts st
    end in
  if (row =? col)%nat
  then {| row_counts := counts; found_diag := true;
          near_zero := if (f64_abs rv.2 <=? diag_epsilon)%f64 then S (near_zero st)
                       else near_zero st |}
  else {| row_counts := counts; found_diag := found_diag st; near_zero := near_zero st |}.

(** One iteration of the column loop, on (empty columns, row counts, near-zero
    diagonals). *)
Definition scan_column {E} (m : CscMatrix) (diag_epsilon : f64)
    (acc : nat * list nat * nat) (col : nat) : result E (nat * list nat * nat) :=
  let '(empty, counts, near) := acc in
  s ← expect (col_ptr m !! col);
  e ← expect (col_ptr m !! S col);
  let start := usize_or_default s in
  let stop := usize_or_default e in
  let empty' := if (start =? stop)%nat then S empty else empty in
  st ← foldM (fun st idx =>
         r ← expect (row_idx m !! idx);
         v ← expect (values m !! idx);
         Ok (scan_entry diag_epsilon col st (r, v))) (seq start (stop - start))
         {| row_counts := counts; found_diag := false; near_zero := near |};
  Ok (empty', row_counts st, if found_diag st then near_zero st else S (near_zero st)).

Definition report_messages (square : bool) (empty_columns empty_rows near_zero_diagonal : nat)
    : list string :=
  (if square then [] else ["M must be square for direct solve"%string])
  ++ (if (0 <? empty_columns)%nat then [(pretty empty_columns +:+ " empty columns detected")%string] else [])
  ++ (if (0 <? empty_rows)%nat then [(pretty empty_rows +:+ " empty rows detected")%string] else [])
  ++ (if (0 <? near_zero_diagonal)%nat
      then [(pretty near_zero_diagonal +:+ " near-zero or missing diagonal entries")%string] else []).

Definition report_status (nrows ncols : Z) (messages : list string) : ValidationStatus :=
  if (nrows <=? 0) || (ncols <=? 0) || negb (nrows =? ncols) then FailedInvalidStructure
  else match messages with [] => ValidationOk | _ => WarningNearSingular end.

(** [1.0 - nnz / (nrows * ncols)], with the conversions of the source. *)
Definition report_sparsity (nrows ncols : Z) (nnz : nat) : f64 :=
  let total_cells := (f64_of_Z (Z.max nrows 1) * f64_of_Z (Z.max ncols 1))%f64 in
  let nnz_f64 := f64_of_Z (if Z.of_nat nnz <=? U32_MAX then Z.of_nat nnz else U32_MAX) in
  (f64_one - nnz_f64 / total_cells)%f64.

Definition validate_factorization_matrix {E} (m : CscMatrix) (diag_epsilon : f64)
    : result E ValidationReport :=
  let '(nr, nc) := shape m in
  acc ← foldM (scan_column m diag_epsilon) (seq 0 (usize_or_default nc))
          (0%nat, replicate (usize_or_default nr) 0%nat, 0%nat);
  let '(empty_cols, counts, near) := acc in
  let empty_rws := length (filter (fun c => c = 0%nat) counts) in
  let msgs := report_messages (nr =? nc) empty_cols empty_rws near in
  Ok {| status := report_status nr nc msgs;
        stats := {| st_nrows := nr; st_ncols := nc; st_nnz := nnz m;
                    sparsity := report_sparsity nr nc (nnz m);
                    empty_columns := empty_cols; empty_rows := empty_rws;
                    near_zero_diagonal := near |};
        messages := msgs |}.

(** ** What the counters mean *)

Definition column_empty (m : CscMatrix) (j : nat) : Prop := column m j = [].
Definition row_empty (m : CscMatrix) (i : nat) : Prop :=
  Forall (fun j => csc_get m (Z.of_nat i) (Z.of_nat j) = None) (seq 0 (Z.to_nat (ncols m))).
Definition diagonal_risky (m : CscMatrix) (eps : f64) (j : nat) : Prop :=
  match csc_get m (Z.of_nat j) (Z.of_nat j) with
  | Some v => (f64_abs v <=? eps)%f64 = true
  | None => True
  end.
#[export] Instance column_empty_dec m j : Decision (column_empty m j).
Proof. unfold column_empty. apply _. Defined.
#[export] Instance row_empty_dec m i : Decision (row_empty m i).
Proof. unfold row_empty. apply _. Defined.
#[export] Instance diagonal_risky_dec m eps j : Decision (diagonal_risky m eps j).
Proof. unfold diagonal_risky. destruct (csc_get _ _ _); apply _. Defined.

Definition count {A} (P : A -> Prop) `{!forall x, Decision (P x)} (l : list A) : nat :=
  length (filter P l).

(** Scanning one column, component by component. *)
Lemma scan_entries eps j col st :
  NoDup (fst <$> col) ->
  Forall (fun rv : Z * f64 => 0 <= rv.1 < Z.of_nat (length (row_counts st))) col ->
  foldl (scan_entry eps j) st col =
  {| row_counts := imap (fun r c => match assoc (Z.of_nat r) col with Some _ => S c | None => c end)
                     (row_counts st);
     found_diag := match assoc (Z.of_nat j) col with Some _ => true | None => found_diag st end;
     near_zero := match assoc (Z.of_nat j) col with
                  | Some v => if (f64_abs v <=? eps)%f64 then S (near_zero st) else near_zero st
                  | None => near_zero st
                  end |}.
Proof.
  revert st. induction col as [|[r v] col IH]; intros [rc fd nz] Hnd Hall.
  { cbn [foldl assoc row_counts]. by rewrite imap_id. }
  rewrite fmap_cons in Hnd. apply NoDup_cons in Hnd as [Hr Hnd].
  apply Forall_cons in Hall as [Hrv Hall]. cbn [fst row_counts] in *. cbn [foldl].
  assert (Hlen : length (row_counts (scan_entry eps j {| row_counts := rc; found_diag := fd; near_zero := nz |} (r, v))) = length rc).
  { unfold scan_entry. cbn. destruct (_ =? _)%nat; cbn; destruct (rc !! _); by rewrite ?length_insert. }
  rewrite IH; [|done|by rewrite Hlen]. clear IH Hlen.
  assert (assoc r col = None) as Hnone.
  { destruct (assoc r col) as [w|] eqn:Ea; [|done]. apply assoc_Some in Ea; [|done].
    destruct Hr. apply list_elem_of_fmap. by exists (r, w). }
  unfold scan_entry, usize_or_default. cbn [fst snd row_counts found_diag near_zero assoc].
  destruct (lookup_lt_is_Some_2 rc (Z.to_nat r)) as [c Hc]; [lia|]. rewrite Hc.
  assert (forall X : column_scan, row_counts X = <[Z.to_nat r := S c]> rc ->
    imap (fun k c0 => match assoc (Z.of_nat k) col with Some _ => S c0 | None => c0 end) (row_counts X)
    = imap (fun k c0 => match (if decide (r = Z.of_nat k) then Some v else assoc (Z.of_nat k) col) with
                        | Some _ => S c0 | None => c0 end) rc) as Himap.
  { intros X ->. apply list_eq. intros i. rewrite !list_lookup_imap.
    destruct (decide (Z.to_nat r = i)) as [<-|Hne].
    - rewrite list_lookup_insert_eq by lia. rewrite Hc. cbn. rewrite decide_True by lia.
      rewrite Z2Nat.id by lia. by rewrite Hnone.
    - rewrite list_lookup_insert_ne by done. destruct (rc !! i); [|done]. cbn.
      by rewrite decide_False by lia. }
  destruct (Nat.eqb_spec (Z.to_nat r) j) as [<-|Hj].
  - rewrite (decide_True (P := r = Z.of_nat (Z.to_nat r))) by lia.
    rewrite Z2Nat.id, Hnone by lia. cbn [found_diag near_zero]. f_equal. by apply Himap.
  - rewrite (decide_False (P := r = Z.of_nat j)) by lia. cbn [found_diag near_zero].
    f_equal. by apply Himap.
Qed.

Lemma scan_column_eq {E} m eps empty counts near j :
  csc_wf m -> (j < Z.to_nat (ncols m))%nat -> length counts = Z.to_nat (nrows m) ->
  scan_column (E:=E) m eps (empty, counts, near) j =
  Ok ((if decide (column_empty m j) then S empty else empty)%nat,
      imap (fun r c => match csc_get m (Z.of_nat r) (Z.of_nat j) with Some _ => S c | None => c end) counts,
      if decide (diagonal_risky m eps j) then S near else near).
Proof.
  intros Hwf Hj Hlen. pose proof Hwf as [].
  destruct (wf_offsets m j) as (s & e & Hs & He & ? & ?); try done; [lia|].
  destruct (wf_column m j Hwf Hj) as [Hnd Hrows].
  unfold scan_column. rewrite Hs, He. cbn [expect mbind result_bind]. unfold usize_or_default.
  rewrite (column_loop m j s e (fun st rv => Ok (scan_entry eps j st rv))) by done.
  rewrite (foldM_pure _ (scan_entry eps j)) by done. cbn [mbind result_bind].
  rewrite scan_entries; [|done|cbn; eapply Forall_impl; [exact Hrows|]; simpl; lia].
  cbn [row_counts found_diag near_zero].
  assert (forall i : nat, csc_get m (Z.of_nat i) (Z.of_nat j) = assoc (Z.of_nat i) (column m j)) as Hget.
  { intros i. unfold csc_get. rewrite decide_True by lia. by rewrite Nat2Z.id. }
  f_equal. f_equal; [f_equal|].
  - unfold column_empty.
    assert (length (column m j) = Z.to_nat e - Z.to_nat s)%nat as Hcl.
    { unfold column. rewrite Hs, He, length_take, length_drop, length_zip_with. lia. }
    destruct (Nat.eqb_spec (Z.to_nat s) (Z.to_nat e)), (decide (column m j = [])) as [Hn|Hn]; try done.
    + destruct Hn. apply nil_length_inv. lia.
    + rewrite Hn in Hcl. simpl in Hcl. lia.
  - apply imap_ext. intros i c _. by rewrite Hget.
  - destruct (decide (diagonal_risky m eps j)) as [Hd|Hd]; unfold diagonal_risky in Hd;
      rewrite Hget in Hd; destruct (assoc (Z.of_nat j) (column m j)) as [v|]; try done.
    + by rewrite Hd.
    + by destruct (f64_abs v <=? eps)%f64.
Qed.

(** Number of entries of row [r] in the first [k] columns. *)
Definition row_count (m : CscMatrix) (k r : nat) : nat :=
  count (fun j : nat => is_Some (csc_get m (Z.of_nat r) (Z.of_nat j))) (seq 0 k).

Lemma scan_columns_eq {E} m eps k :
  csc_wf m -> (k <= Z.to_nat (ncols m))%nat ->
  foldM (E:=E) (scan_column m eps) (seq 0 k) (0%nat, replicate (Z.to_nat (nrows m)) 0%nat, 0%nat) =
  Ok (count (column_empty m) (seq 0 k), row_count m k <$> seq 0 (Z.to_nat (nrows m)),
      count (diagonal_risky m eps) (seq 0 k)).
Proof.
  intros Hwf. induction k as [|k IH]; intros Hk.
  { cbn [seq foldM]. f_equal. f_equal. f_equal.
    rewrite <- imap_replicate with (f := fun r _ => row_count m 0 r) (a := 0%nat).
    symmetry. apply list_eq. intros i. rewrite list_lookup_imap.
    destruct (replicate _ _ !! i) eqn:Ei; [|done]. simpl. apply lookup_replicate in Ei as [-> _]. done. }
  rewrite seq_S, foldM_app, IH by lia. cbn [mbind result_bind foldM Nat.add].
  rewrite scan_column_eq by (done || lia || by rewrite length_fmap, length_seq).
  unfold count. rewrite !filter_app, !filter_cons, !filter_nil. f_equal. f_equal; [f_equal|].
  - case_decide; rewrite length_app; simpl; lia.
  - apply list_eq. intros i. rewrite list_lookup_imap, !list_lookup_fmap.
    destruct (seq 0 (Z.to_nat (nrows m)) !! i) as [r|] eqn:Er; [|done].
    apply lookup_seq in Er as [-> _]. cbn [fmap option_fmap option_map Nat.add]. apply f_equal. unfold row_count, count.
    rewrite seq_S, filter_app, filter_cons, filter_nil, length_app. cbn [Nat.add].
    destruct (csc_get m (Z.of_nat i) (Z.of_nat k)) eqn:Eg.
    + rewrite decide_True by eauto. simpl. lia.
    + rewrite decide_False by (intros [? ?]; done). simpl. lia.
  - case_decide; rewrite length_app; simpl; lia.
Qed.

Lemma row_count_zero m i :
  row_count m (Z.to_nat (ncols m)) i = 0%nat <-> row_empty m i.
Proof.
  unfold row_count, count, row_empty. rewrite length_zero_iff_nil. split.
  - intros Hn. apply Forall_forall. intros j Hj.
    destruct (csc_get m (Z.of_nat i) (Z.of_nat j)) eqn:Eg; [|done].
    exfalso. eapply (filter_nil_not_elem_of _ _ j Hn); [|exact Hj]. eauto.
  - intros Hall. apply filter_none. eapply Forall_impl; [exact Hall|]. simpl. intros j ->.
    by intros [? ?].
Qed.

Lemma validate_factorization_eq {E} m eps :
  csc_wf m ->
  let ec := count (column_empty m) (seq 0 (Z.to_nat (ncols m))) in
  let er := count (row_empty m) (seq 0 (Z.to_nat (nrows m))) in
  let nz := count (diagonal_risky m eps) (seq 0 (Z.to_nat (ncols m))) in
  let msgs := report_messages (nrows m =? ncols m) ec er nz in
  validate_factorization_matrix (E:=E) m eps =
  Ok {| status := report_status (nrows m) (ncols m) msgs;
        stats := {| st_nrows := nrows m; st_ncols := ncols m; st_nnz := nnz m;
                    sparsity := report_sparsity (nrows m) (ncols m) (nnz m);
                    empty_columns := ec; empty_rows := er; near_zero_diagonal := nz |};
        messages := msgs |}.
Proof.
  intros Hwf ec er nz msgs. unfold validate_factorization_matrix, shape, usize_or_default.
  rewrite scan_columns_eq by done. cbn [mbind result_bind].
  assert (length (filter (fun c => c = 0%nat)
    (row_count m (Z.to_nat (ncols m)) <$> seq 0 (Z.to_nat (nrows m)))) = er) as Her.
  { unfold er, count. generalize (seq 0 (Z.to_nat (nrows m))). intros l.
    induction l as [|i l IH]; [done|]. rewrite fmap_cons, !filter_cons.
    pose proof (row_count_zero m i). repeat case_decide; try tauto; simpl; congruence. }
  by rewrite Her.
Qed.

(** ** Properties *)

Lemma messages_empty sq ec er nz :
  report_messages sq ec er nz = [] <-> sq = true /\ ec = 0%nat /\ er = 0%nat /\ nz = 0%nat.
Proof.
  unfold report_messages. rewrite !app_nil.
  destruct sq, ec, er, nz; simpl; split; intros; destruct_and?; simplify_eq; repeat split.
Qed.

Lemma count_zero {A} (P : A -> Prop) `{!forall x, Decision (P x)} (l : list A) :
  count P l = 0%nat <-> Forall (fun x => ~ P x) l.
Proof.
  unfold count. split.
  - intros Hn%nil_length_inv. apply Forall_forall. intros x Hx Hp.
    by apply (filter_nil_not_elem_of P l x Hn).
  - intros Hn. by rewrite filter_none.
Qed.

(** On a valid matrix the pre-check returns a report without panicking,
    and each counter of its statistics is the number of objects it names:
    columns without a stored entry, rows without a stored entry, and columns
    whose diagonal entry is missing or at most [diag_epsilon] in magnitude. *)
Theorem validation_counts_exact {E} (m : CscMatrix) (eps : f64) :
  Csc.validate m = Ok tt ->
  exists r, validate_factorization_matrix (E:=E) m eps = Ok r
    /\ empty_columns (stats r) = count (column_empty m) (seq 0 (Z.to_nat (ncols m)))
    /\ empty_rows (stats r) = count (row_empty m) (seq 0 (Z.to_nat (nrows m)))
    /\ near_zero_diagonal (stats r) = count (diagonal_risky m eps) (seq 0 (Z.to_nat (ncols m)))
    /\ st_nnz (stats r) = length (values m).
Proof.
  intros Hv%validate_wf. rewrite validate_factorization_eq by done.
  eexists. split; [reflexivity|]. repeat split.
Qed.

(** The status is [Ok] exactly for a square matrix in which every column
    and every row has an entry and every diagonal entry is stored and exceeds
    the threshold; it is [FailedInvalidStructure] exactly when the valid
    matrix is not square. *)
Theorem validation_status_exact {E} (m : CscMatrix) (eps : f64) :
  Csc.validate m = Ok tt ->
  exists r, validate_factorization_matrix (E:=E) m eps = Ok r
    /\ (status r = FailedInvalidStructure <-> nrows m <> ncols m)
    /\ (status r = ValidationOk <->
         nrows m = ncols m
         /\ forall k, (k < Z.to_nat (ncols m))%nat ->
              ~ column_empty m k /\ ~ row_empty m k /\ ~ diagonal_risky m eps k).
Proof.
  intros Hv%validate_wf. rewrite validate_factorization_eq by done.
  eexists. split; [reflexivity|]. cbn [status]. pose proof Hv as [? ? _ _ _ _ _ _]. unfold report_status.
  replace (nrows m <=? 0) with false by lia. replace (ncols m <=? 0) with false by lia. cbn [orb].
  pose proof (messages_empty (nrows m =? ncols m)
    (count (column_empty m) (seq 0 (Z.to_nat (ncols m))))
    (count (row_empty m) (seq 0 (Z.to_nat (nrows m))))
    (count (diagonal_risky m eps) (seq 0 (Z.to_nat (ncols m))))) as Hmsg.
  rewrite !count_zero, !Forall_forall in Hmsg. setoid_rewrite elem_of_seq in Hmsg.
  destruct (Z.eqb_spec (nrows m) (ncols m)) as [Heq|Hne]; cbn [negb].
  - rewrite <- Heq in *. destruct (report_messages _ _ _ _) eqn:Em.
    + split; [done|]. split; [|done]. intros _. split; [done|].
      destruct Hmsg as [Hmsg _]. specialize (Hmsg eq_refl) as (_ & Hc & Hr & Hd).
      intros k Hk. repeat split; [apply Hc|apply Hr|apply Hd]; lia.
    + split; [done|]. split; [done|]. intros [_ Hk]. exfalso.
      enough (s :: l = []) by done. apply Hmsg.
      split; [done|]. repeat split; intros x Hx; apply Hk; lia.
  - split; [done|]. split; [done|]. by intros [? _].
Qed.

(** The matrix of the unit test [warns_on_zero_diagonal]. *)
Definition swap_matrix : CscMatrix :=
  {| nrows := 2; ncols := 2; col_ptr := [0; 1; 2]; row_idx := [1; 0];
     values := [f64_of_Z 1; f64_of_Z 2] |}.
Definition tiny : f64 := f64_of_ratio 1 1000000000000.

Lemma validation_counts_exact_witness :
  exists r, validate_factorization_matrix (E:=Empty_set) swap_matrix tiny = Ok r
    /\ empty_columns (stats r) = 0%nat /\ empty_rows (stats r) = 0%nat
    /\ near_zero_diagonal (stats r) = 2%nat.
Proof.
  destruct (validation_counts_exact (E:=Empty_set) swap_matrix tiny) as (r & Hr & Hc & Hw & Hd & _).
  { vm_compute. reflexivity. }
  exists r. rewrite Hr, Hc, Hw, Hd. repeat split.
Defined.

Lemma validation_status_exact_witness :
  exists r, validate_factorization_matrix (E:=Empty_set) swap_matrix tiny = Ok r
    /\ status r <> FailedInvalidStructure /\ status r <> ValidationOk.
Proof.
  destruct (validation_status_exact (E:=Empty_set) swap_matrix tiny) as (r & Hr & Hf & Ho).
  { vm_compute. reflexivity. }
  exists r. split; [exact Hr|]. rewrite Hf, Ho. split.
  - intros Hne. by apply Hne.
  - intros [_ Hall]. destruct (Hall 0%nat) as (_ & _ & Hd); [vm_compute; lia|]. apply Hd. vm_compute. exact I.
Defined.
