(* ===== verification/Cache.v ===== *)
(** * The byte-bounded factorization cache

    Models [crates/solver-core/src/cache.rs].  [CacheInner] is the state the
    mutex protects; every public operation takes the lock for its whole body,
    so an operation is one function on [CacheInner], and interleavings of
    threads are sequences of such steps ([reachable]).  [SystemTime::now()]
    is an argument.  The iteration order of the hash map is unspecified in
    Rust: it is a parameter ([HashMapIter]), and eviction is shown not to
    depend on it.

    The contract of the cache is the abstract machine [lru_queue]: a queue of
    resident entries in order of last use, whose total size never exceeds the
    capacity. *)

From stdpp Require Import pretty.
From S2P Require Import Prelude F64 Csc Umfpack DataBuilder Validator.

Local Open Scope Z_scope.

(** ** Data *)

Inductive SolverBackend := BackendUmfpack.
#[export] Instance SolverBackend_eq_dec : EqDecision SolverBackend.
Proof. solve_decision. Defined.
#[export] Instance SolverBackend_countable : Countable SolverBackend.
Proof. by refine (inj_countable' (fun _ => ()) (fun _ => BackendUmfpack) _); intros []. Defined.

Inductive FactorizationState := Pending | Building | Ready | Failed | Stale.
#[export] Instance FactorizationState_eq_dec : EqDecision FactorizationState.
Proof. solve_decision. Defined.

Record FactorizationKey := mk_key {
  key_model : Uuid;
  backend : SolverBackend;
  options_hash : string;
}.
#[export] Instance FactorizationKey_eq_dec : EqDecision FactorizationKey.
Proof. solve_decision. Defined.
#[export] Instance FactorizationKey_countable : Countable FactorizationKey.
Proof.
  by refine (inj_countable' (fun k => (key_model k, backend k, options_hash k))
    (fun t => mk_key t.1.1 t.1.2 t.2) _); intros [].
Defined.

(** The third-party text functions: [Display] of [Uuid] and the lower-case
    hexadecimal [blake3] digest of a byte string. *)
Class TextLib := {
  uuid_display : Uuid -> string;
  blake3_hex : list Z -> string;
}.

(** What the [uuid] crate documents: the hyphenated form has 36 characters
    and distinct 128-bit identifiers print differently. *)
Definition uuid_valid (u : Uuid) : Prop := 0 <= u < 2^128.
Definition documented_uuid_text `{TextLib} : Prop :=
  (forall u, uuid_valid u -> String.length (uuid_display u) = 36%nat)
  /\ (forall u v, uuid_valid u -> uuid_valid v -> uuid_display u = uuid_display v -> u = v).

Definition key_new `{TextLib} (model_version : Uuid) (backend : SolverBackend)
    (options_bytes : list Z) : FactorizationKey :=
  mk_key model_version backend (blake3_hex options_bytes).

(** [backend as u8], printed. *)
Definition backend_digit (b : SolverBackend) : string :=
  match b with BackendUmfpack => "0"%string end.

Definition factorization_id `{TextLib} (k : FactorizationKey) : string :=
  uuid_display (key_model k) +:+ ":" +:+ options_hash k +:+ ":" +:+ backend_digit (backend k).

Record PreparedModel := {
  p_factorization : UmfpackFactorization;
  p_b : CscMatrix;
  p_c : CscMatrix;
  p_validation : ValidationReport;
}.

(** Vector capacities the allocator granted, as in [Csc.estimated_owned_bytes]. *)
Definition prepared_owned_bytes (capacity : nat -> Z) (p : PreparedModel) : Z :=
  saturating_add
    (saturating_add (factorization_owned_bytes capacity (p_factorization p))
       (estimated_owned_bytes capacity (p_b p)))
    (estimated_owned_bytes capacity (p_c p)).

(** Conversion unfolds projections before the byte arithmetic. *)
#[global] Strategy 1000 [prepared_owned_bytes saturating_add].

Record CacheMeta := mk_meta {
  m_state : FactorizationState;
  updated_at : Z;
  error_message : option string;
  estimated_bytes : Z;
  last_access : Z;
}.

Record CacheEntry := mk_entry { prepared : option PreparedModel; meta : CacheMeta }.

Record CacheInner := mk_inner {
  entries : gmap FactorizationKey CacheEntry;
  capacity_bytes : Z;
  resident_bytes : Z;
  access_clock : Z;
  eviction_count : Z;
  invalidation_count : Z;
  admission_rejection_count : Z;
  hit_count : Z;
  miss_count : Z;
}.

Record FactorizationCacheTelemetry := {
  tel_capacity_bytes : Z;
  tel_resident_bytes : Z;
  tel_entry_count : nat;
  tel_ready_entry_count : nat;
  tel_eviction_count : Z;
  tel_invalidation_count : Z;
  tel_admission_rejection_count : Z;
  tel_hit_count : Z;
  tel_miss_count : Z;
}.

Record FactorizationCacheAdmissionError := {
  adm_estimated_bytes : Z;
  adm_capacity_bytes : Z;
}.

(** The order in which the hash map enumerates its entries. *)
Class HashMapIter := {
  iter : gmap FactorizationKey CacheEntry -> list (FactorizationKey * CacheEntry);
  iter_perm : forall m, iter m ≡ₚ map_to_list m;
}.
#[export] Instance map_order : HashMapIter := {| iter := map_to_list; iter_perm m := reflexivity _ |}.

(** ** Operations *)

Definition DEFAULT_CAPACITY_BYTES : Z := 1024 * 1024 * 1024.

Definition with_capacity (capacity : Z) : CacheInner :=
  mk_inner ∅ capacity 0 0 0 0 0 0 0.
Definition cache_new : CacheInner := with_capacity DEFAULT_CAPACITY_BYTES.

(** Assignments to one field of the locked state. *)
Definition with_entries (c : CacheInner) (es : gmap FactorizationKey CacheEntry) (resident : Z)
    : CacheInner :=
  mk_inner es (capacity_bytes c) resident (access_clock c) (eviction_count c)
    (invalidation_count c) (admission_rejection_count c) (hit_count c) (miss_count c).
Definition with_clock (c : CacheInner) (clock : Z) : CacheInner :=
  mk_inner (entries c) (capacity_bytes c) (resident_bytes c) clock (eviction_count c)
    (invalidation_count c) (admission_rejection_count c) (hit_count c) (miss_count c).
Definition with_counts (c : CacheInner) (evictions invalidations rejections hits misses : Z)
    : CacheInner :=
  mk_inner (entries c) (capacity_bytes c) (resident_bytes c) (access_clock c)
    evictions invalidations rejections hits misses.

Definition count_eviction (c : CacheInner) : CacheInner :=
  with_counts c (saturating_add (eviction_count c) 1) (invalidation_count c)
    (admission_rejection_count c) (hit_count c) (miss_count c).
Definition count_invalidations (c : CacheInner) (n : Z) : CacheInner :=
  with_counts c (eviction_count c) (saturating_add (invalidation_count c) n)
    (admission_rejection_count c) (hit_count c) (miss_count c).
Definition count_rejection (c : CacheInner) : CacheInner :=
  with_counts c (eviction_count c) (invalidation_count c)
    (saturating_add (admission_rejection_count c) 1) (hit_count c) (miss_count c).
Definition count_hit (c : CacheInner) : CacheInner :=
  with_counts c (eviction_count c) (invalidation_count c) (admission_rejection_count c)
    (saturating_add (hit_count c) 1) (miss_count c).
Definition count_miss (c : CacheInner) : CacheInner :=
  with_counts c (eviction_count c) (invalidation_count c) (admission_rejection_count c)
    (hit_count c) (saturating_add (miss_count c) 1).

Definition next_access (c : CacheInner) : CacheInner * Z :=
  let clock := saturating_add (access_clock c) 1 in (with_clock c clock, clock).

Definition remove_entry (c : CacheInner) (k : FactorizationKey) : CacheInner :=
  match entries c !! k with
  | Some e => with_entries c (delete k (entries c))
                (saturating_sub (resident_bytes c) (estimated_bytes (meta e)))
  | None => c
  end.

Definition insert_entry (c : CacheInner) (k : FactorizationKey) (e : CacheEntry) : CacheInner :=
  with_entries c (<[k := e]> (entries c)) (resident_bytes c).

(** Remove the entry, take an access stamp, insert an entry without prepared
    state: the common body of [set_building], [set_failed], a rejected
    [set_ready] and one iteration of [invalidate_model]. *)
Definition replace_unprepared (now : Z) (st : FactorizationState) (err : option string)
    (c : CacheInner) (k : FactorizationKey) : CacheInner :=
  let '(c, access) := next_access c in
  insert_entry c k (mk_entry None (mk_meta st now err 0 access)).

Definition set_building (now : Z) (c : CacheInner) (k : FactorizationKey) : CacheInner :=
  replace_unprepared now Building None (remove_entry c k) k.

Definition set_failed (now : Z) (c : CacheInner) (k : FactorizationKey) (msg : string) : CacheInner :=
  replace_unprepared now Failed (Some msg) (remove_entry c k) k.

Definition rejection_message (estimated capacity : Z) : string :=
  "cache admission rejected: estimated_bytes=" +:+ pretty estimated
    +:+ " capacity_bytes=" +:+ pretty capacity.

(** [last_access.cmp(..).then_with(factorization_id.cmp(..))]. *)
Definition lru_cmp `{TextLib} : FactorizationKey * CacheEntry -> FactorizationKey * CacheEntry -> comparison :=
  cmp_then (cmp_by (fun ke => last_access (meta ke.2)) Z.compare)
           (cmp_by (fun ke => factorization_id ke.1) String.compare).

Definition eviction_candidates `{HashMapIter} (c : CacheInner) : list (FactorizationKey * CacheEntry) :=
  filter (fun ke => 0 < estimated_bytes (meta ke.2)) (iter (entries c)).

Definition eviction_key `{TextLib, HashMapIter} (c : CacheInner) : option FactorizationKey :=
  fst <$> min_by lru_cmp (eviction_candidates c).

(** The [while] loop of [set_ready].  Each iteration removes an entry, so the
    number of entries bounds the iterations: with no fuel left the map is
    empty and the loop would [break] ([evict_equation]). *)
Fixpoint evict_loop `{TextLib, HashMapIter} (fuel : nat) (needed : Z) (c : CacheInner) : CacheInner :=
  if saturating_add (resident_bytes c) needed >? capacity_bytes c then
    match eviction_key c with
    | None => c
    | Some k =>
        match fuel with
        | O => c
        | S fuel => evict_loop fuel needed (count_eviction (remove_entry c k))
        end
    end
  else c.

Definition evict `{TextLib, HashMapIter} (needed : Z) (c : CacheInner) : CacheInner :=
  evict_loop (size (entries c)) needed c.

Definition set_ready `{TextLib, HashMapIter} (capacity : nat -> Z) (now : Z) (c : CacheInner)
    (k : FactorizationKey) (p : PreparedModel)
    : CacheInner * (FactorizationCacheAdmissionError + Z) :=
  let needed := prepared_owned_bytes capacity p in
  let c := remove_entry c k in
  if needed >? capacity_bytes c then
    (replace_unprepared now Failed (Some (rejection_message needed (capacity_bytes c)))
       (count_rejection c) k,
     inl {| adm_estimated_bytes := needed; adm_capacity_bytes := capacity_bytes c |})
  else
    let c := evict needed c in
    let '(c, access) := next_access c in
    let c := with_entries c (entries c) (saturating_add (resident_bytes c) needed) in
    (insert_entry c k (mk_entry (Some p) (mk_meta Ready now None needed access)), inr needed).

Definition invalidate_model `{HashMapIter} (now : Z) (c : CacheInner) (model_version : Uuid)
    : CacheInner * nat :=
  let keys := filter (fun k => key_model k = model_version) (fst <$> iter (entries c)) in
  let c := foldl (fun c k => replace_unprepared now Stale None (remove_entry c k) k) c keys in
  (count_invalidations c (Z.of_nat (length keys)), length keys).

Definition get_ready (now : Z) (c : CacheInner) (k : FactorizationKey)
    : CacheInner * option PreparedModel :=
  let found :=
    e ← entries c !! k;
    if decide (m_state (meta e) = Ready) then prepared e else None in
  match found with
  | Some p =>
      let '(c, access) := next_access c in
      let c :=
        match entries c !! k with
        | Some e =>
            insert_entry c k (mk_entry (prepared e)
              (mk_meta (m_state (meta e)) now (error_message (meta e))
                 (estimated_bytes (meta e)) access))
        | None => c
        end in
      (count_hit c, Some p)
  | None => (count_miss c, None)
  end.

Definition state (c : CacheInner) (k : FactorizationKey) : option FactorizationState :=
  (fun e => m_state (meta e)) <$> entries c !! k.

Definition error (c : CacheInner) (k : FactorizationKey) : option string :=
  entries c !! k ≫= fun e => error_message (meta e).

Definition telemetry (c : CacheInner) : FactorizationCacheTelemetry := {|
  tel_capacity_bytes := capacity_bytes c;
  tel_resident_bytes := resident_bytes c;
  tel_entry_count := size (entries c);
  tel_ready_entry_count :=
    length (filter (fun ke => m_state (meta ke.2) = Ready) (map_to_list (entries c)));
  tel_eviction_count := eviction_count c;
  tel_invalidation_count := invalidation_count c;
  tel_admission_rejection_count := admission_rejection_count c;
  tel_hit_count := hit_count c;
  tel_miss_count := miss_count c;
|}.

(** ** The invariant *)

Definition bytes_of (l : list (FactorizationKey * CacheEntry)) : Z :=
  foldr (fun ke acc => estimated_bytes (meta ke.2) + acc) 0 l.
Definition total (m : gmap FactorizationKey CacheEntry) : Z := bytes_of (map_to_list m).

#[export] Instance bytes_of_perm : Proper ((≡ₚ) ==> (=)) bytes_of.
Proof. induction 1; simpl; lia. Qed.

Lemma total_insert m k e : m !! k = None -> total (<[k:=e]> m) = estimated_bytes (meta e) + total m.
Proof. intros Hk. unfold total. by rewrite map_to_list_insert. Qed.

Lemma total_delete m k e : m !! k = Some e -> total m = estimated_bytes (meta e) + total (delete k m).
Proof. intros Hk. unfold total. by rewrite <- (map_to_list_delete m k e). Qed.

Section Invariant.
Context (capacity : nat -> Z) (Hcap : forall n, 0 <= capacity n).

(** A [Ready] entry, and no other, holds a prepared model, and is charged
    the model's size. *)
Definition entry_wf (e : CacheEntry) : Prop :=
  match prepared e with
  | Some p => m_state (meta e) = Ready /\ estimated_bytes (meta e) = prepared_owned_bytes capacity p
  | None => m_state (meta e) <> Ready /\ estimated_bytes (meta e) = 0
  end.

Record cache_wf (c : CacheInner) : Prop := {
  wf_cap : 0 <= capacity_bytes c < USIZE_MAX;
  wf_resident : resident_bytes c = total (entries c);
  wf_bound : resident_bytes c <= capacity_bytes c;
  wf_clock : 0 <= access_clock c <= U64_MAX;
  wf_entries : forall k e, entries c !! k = Some e -> entry_wf e;
  wf_access : forall k e, entries c !! k = Some e -> 0 < last_access (meta e) <= access_clock c;
  wf_distinct : access_clock c < U64_MAX -> forall k1 k2 e1 e2,
    entries c !! k1 = Some e1 -> entries c !! k2 = Some e2 ->
    last_access (meta e1) = last_access (meta e2) -> k1 = k2;
}.

Lemma saturating_nonneg a b : 0 <= a -> 0 <= b ->
  0 <= saturating_add a b /\ 0 <= saturating_mul a b.
Proof. unfold saturating_add, saturating_mul, USIZE_MAX, U64_MAX. nia. Qed.

Lemma matrix_bytes_nonneg m : 0 <= estimated_owned_bytes capacity m.
Proof using Hcap.
  unfold estimated_owned_bytes.
  repeat first [apply saturating_nonneg | apply Hcap | lia].
Qed.

Lemma info_bytes_nonneg info i : 0 <= default 0 (info_units_to_bytes info i).
Proof.
  unfold info_units_to_bytes. destruct (_ || _); [done|].
  unfold f64_integral_to_usize. destruct (f64_ceil _) as [[]| | |[] m e]; try done.
  case_match; [|done]. simpl. by apply Z.shiftl_nonneg.
Qed.

Lemma prepared_bytes_nonneg p : 0 <= prepared_owned_bytes capacity p.
Proof using Hcap.
  unfold prepared_owned_bytes, factorization_owned_bytes.
  repeat first [apply matrix_bytes_nonneg | apply info_bytes_nonneg | apply saturating_nonneg].
Qed.

Lemma entry_bytes_nonneg e : entry_wf e -> 0 <= estimated_bytes (meta e).
Proof using Hcap.
  unfold entry_wf. destruct (prepared e); intros [_ ->]; [apply prepared_bytes_nonneg|done].
Qed.

Lemma total_nonneg m : map_Forall (fun _ e => entry_wf e) m -> 0 <= total m.
Proof using Hcap.
  induction m as [|k e m Hk IH] using map_ind; intros Hall; [done|].
  rewrite total_insert by done. apply map_Forall_insert in Hall as [He Hm]; [|done].
  apply entry_bytes_nonneg in He. specialize (IH Hm). lia.
Qed.

Lemma wf_total_delete c k :
  cache_wf c -> 0 <= total (delete k (entries c)) <= total (entries c).
Proof using Hcap.
  intros []. assert (map_Forall (fun _ e => entry_wf e) (entries c)) as Hall by exact wf_entries0.
  destruct (entries c !! k) as [e|] eqn:Ek.
  - rewrite (total_delete (entries c) k e) by done. specialize (wf_entries0 k e Ek).
    apply entry_bytes_nonneg in wf_entries0.
    apply (map_Forall_delete _ _ k), total_nonneg in Hall. lia.
  - rewrite delete_id by done. apply total_nonneg in Hall. lia.
Qed.

(** Removing a key is deletion; the byte counter stays exact. *)
Lemma remove_entry_eq c k :
  cache_wf c ->
  remove_entry c k = with_entries c (delete k (entries c)) (total (delete k (entries c))).
Proof using Hcap.
  intros Hwf. pose proof (wf_total_delete c k Hwf) as Hle. destruct Hwf.
  unfold remove_entry. destruct (entries c !! k) as [e|] eqn:Ek.
  - rewrite wf_resident0, (total_delete (entries c) k e) by done. unfold saturating_sub.
    rewrite Z.max_l by lia. f_equal. lia.
  - rewrite delete_id, <- wf_resident0 by done. by destruct c.
Qed.

Lemma wf_remove c k : cache_wf c -> cache_wf (remove_entry c k).
Proof using Hcap.
  intros Hwf. pose proof (wf_total_delete c k Hwf). rewrite remove_entry_eq by done.
  destruct Hwf. constructor; simpl; try done; try lia.
  - intros k' e [_ He]%lookup_delete_Some. eauto.
  - intros k' e [_ He]%lookup_delete_Some. eauto.
  - intros Hlt k1 k2 e1 e2 [_ H1]%lookup_delete_Some [_ H2]%lookup_delete_Some. eauto.
Qed.

Lemma wf_counts c a b r h m : cache_wf c -> cache_wf (with_counts c a b r h m).
Proof. by intros []. Qed.

(** Inserting an entry that fits, with a fresh access stamp. *)
Lemma wf_insert c k e :
  cache_wf c -> entries c !! k = None -> entry_wf e ->
  last_access (meta e) = saturating_add (access_clock c) 1 ->
  resident_bytes c + estimated_bytes (meta e) <= capacity_bytes c ->
  cache_wf (with_entries (with_clock c (last_access (meta e)))
              (<[k := e]> (entries c)) (resident_bytes c + estimated_bytes (meta e))).
Proof using Hcap.
  intros [] Hk He Ha Hfit. constructor;
    cbn [with_entries with_clock entries capacity_bytes resident_bytes access_clock];
    unfold USIZE_MAX in *; try lia.
  - rewrite total_insert by done. lia.
  - unfold saturating_add, USIZE_MAX, U64_MAX in *. lia.
  - intros k' e' [[<- <-]|[_ He']]%lookup_insert_Some; eauto.
  - unfold saturating_add, USIZE_MAX, U64_MAX in *.
    intros k' e' [[<- <-]|[_ He']]%lookup_insert_Some; simpl; [lia|].
    specialize (wf_access0 k' e' He'). lia.
  - rewrite Ha. unfold saturating_add, USIZE_MAX in *. intros Hlt k1 k2 e1 e2 H1 H2 Heq.
    assert (access_clock c < U64_MAX) as Hc by lia. rewrite Z.min_l in Hlt, Ha by lia.
    apply lookup_insert_Some in H1 as [[<- <-]|[Hn1 H1]];
      apply lookup_insert_Some in H2 as [[<- <-]|[Hn2 H2]]; [done| | |by eauto].
    + specialize (wf_access0 k2 e2 H2). lia.
    + specialize (wf_access0 k1 e1 H1). lia.
Qed.

(** The two kinds of entries the operations insert. *)
Definition ready_entry (p : PreparedModel) (now : Z) (err : option string) (access : Z) : CacheEntry :=
  mk_entry (Some p) (mk_meta Ready now err (prepared_owned_bytes capacity p) access).
Definition bare_entry (st : FactorizationState) (now : Z) (err : option string) (access : Z) : CacheEntry :=
  mk_entry None (mk_meta st now err 0 access).

Lemma replace_unprepared_eq now st err c k :
  let e := bare_entry st now err (saturating_add (access_clock c) 1) in
  replace_unprepared now st err c k =
  with_entries (with_clock c (last_access (meta e))) (<[k := e]> (entries c))
    (resident_bytes c + estimated_bytes (meta e)).
Proof.
  unfold replace_unprepared, next_access, insert_entry, bare_entry.
  cbn [meta estimated_bytes last_access resident_bytes entries with_clock]. by rewrite Z.add_0_r.
Qed.

Lemma wf_replace c k st now err :
  cache_wf c -> entries c !! k = None -> st <> Ready ->
  cache_wf (replace_unprepared now st err c k).
Proof using Hcap.
  intros Hwf Hk Hst. rewrite replace_unprepared_eq. apply wf_insert; try done.
  cbn [bare_entry meta estimated_bytes]. rewrite Z.add_0_r. by destruct Hwf.
Qed.

Lemma remove_entry_none c k : cache_wf c -> entries (remove_entry c k) !! k = None.
Proof using Hcap. intros Hwf. rewrite remove_entry_eq by done. apply lookup_delete_eq. Qed.

Lemma wf_remove_replace c k st now err :
  cache_wf c -> st <> Ready -> cache_wf (replace_unprepared now st err (remove_entry c k) k).
Proof using Hcap. intros. apply wf_replace; auto using wf_remove, remove_entry_none. Qed.
End Invariant.

#[export] Hint Resolve wf_remove wf_counts wf_remove_replace remove_entry_none : lca.

(** ** The abstract machine: a queue in order of last use *)

Abbreviation queue := (list (FactorizationKey * Z)).

Definition queue_bytes (q : queue) : Z := foldr (fun kb acc => kb.2 + acc) 0 q.

Definition q_release (k : FactorizationKey) (q : queue) : queue := filter (fun kb => kb.1 <> k) q.
Definition q_touch (k : FactorizationKey) (q : queue) : queue :=
  q_release k q ++ filter (fun kb => kb.1 = k) q.
(** Drop from the front, one entry at a time, until [needed] bytes fit. *)
Fixpoint q_make_room (cap needed : Z) (q : queue) : queue :=
  if queue_bytes q + needed <=? cap then q
  else match q with [] => [] | _ :: q => q_make_room cap needed q end.
Lemma q_make_room_eq cap needed q :
  q_make_room cap needed q =
  if queue_bytes q + needed <=? cap then q
  else match q with [] => [] | _ :: q => q_make_room cap needed q end.
Proof. by destruct q. Qed.
Definition q_admit (cap : Z) (k : FactorizationKey) (needed : Z) (q : queue) : queue :=
  if needed >? cap then q_release k q
  else q_make_room cap needed (q_release k q) ++ (if 0 <? needed then [(k, needed)] else []).
Definition q_invalidate (model : Uuid) (q : queue) : queue :=
  filter (fun kb => key_model kb.1 <> model) q.

(** The entries that hold bytes, and the abstraction of a cache state. *)
Definition resident (m : gmap FactorizationKey CacheEntry) : list (FactorizationKey * CacheEntry) :=
  filter (fun ke => 0 < estimated_bytes (meta ke.2)) (map_to_list m).
Definition charge (ke : FactorizationKey * CacheEntry) : FactorizationKey * Z :=
  (ke.1, estimated_bytes (meta ke.2)).
Definition by_use `{TextLib} (m : gmap FactorizationKey CacheEntry) :=
  sort_by lru_cmp (resident m).
Definition lru_queue `{TextLib} (c : CacheInner) : queue := charge <$> by_use (entries c).

Lemma elem_of_resident m k e :
  (k, e) ∈ resident m <-> m !! k = Some e /\ 0 < estimated_bytes (meta e).
Proof. unfold resident. rewrite list_elem_of_filter, elem_of_map_to_list. tauto. Qed.

Lemma resident_bytes_of l :
  Forall (fun ke : FactorizationKey * CacheEntry => 0 <= estimated_bytes (meta ke.2)) l ->
  bytes_of (filter (fun ke => 0 < estimated_bytes (meta ke.2)) l) = bytes_of l.
Proof.
  unfold bytes_of. induction 1 as [|ke l Hke _ IH]; [done|]. rewrite filter_cons.
  case_decide; cbn [foldr]; rewrite IH; lia.
Qed.

Lemma queue_bytes_of l : queue_bytes (charge <$> l) = bytes_of l.
Proof.
  unfold queue_bytes, bytes_of. induction l as [|ke l IH]; [done|].
  rewrite fmap_cons. cbn [foldr]. by rewrite IH.
Qed.

Lemma total_ext capacity m1 m2 :
  (forall n, 0 <= capacity n) ->
  map_Forall (fun _ e => entry_wf capacity e) m1 -> map_Forall (fun _ e => entry_wf capacity e) m2 ->
  (forall k e, 0 < estimated_bytes (meta e) -> m1 !! k = Some e <-> m2 !! k = Some e) ->
  total m1 = total m2.
Proof.
  intros Hcap H1 H2 Heq.
  assert (forall m, map_Forall (fun _ e => entry_wf capacity e) m -> total m = bytes_of (resident m)) as Ht.
  { intros m Hm. symmetry. apply resident_bytes_of, Forall_forall.
    intros [k e] Hin%elem_of_map_to_list. apply (entry_bytes_nonneg capacity); [done|]. by apply (Hm k e). }
  rewrite (Ht m1), (Ht m2) by done. apply bytes_of_perm, NoDup_Permutation.
  - apply NoDup_filter, NoDup_map_to_list.
  - apply NoDup_filter, NoDup_map_to_list.
  - intros [k e]. rewrite !elem_of_resident. specialize (Heq k e). tauto.
Qed.

Lemma resident_delete m k :
  resident (delete k m) ≡ₚ filter (fun ke => ke.1 <> k) (resident m).
Proof.
  apply NoDup_Permutation.
  - apply NoDup_filter, NoDup_map_to_list.
  - apply NoDup_filter, NoDup_filter, NoDup_map_to_list.
  - intros [k' e]. rewrite list_elem_of_filter, !elem_of_resident, lookup_delete_Some. simpl.
    intuition congruence.
Qed.

Lemma resident_insert m k e :
  m !! k = None ->
  resident (<[k := e]> m) ≡ₚ
  resident m ++ (if decide (0 < estimated_bytes (meta e)) then [(k, e)] else []).
Proof.
  intros Hk. unfold resident. rewrite map_to_list_insert by done. rewrite filter_cons. simpl.
  case_decide; [by rewrite Permutation_app_comm|by rewrite app_nil_r].
Qed.

Section Queue.
Context `{TextLib}.

#[export] Instance lru_preorder : TotalPreorder lru_cmp.
Proof. unfold lru_cmp. apply _. Qed.

Definition no_ties (m : gmap FactorizationKey CacheEntry) : Prop := strict_on lru_cmp (resident m).

Lemma by_use_delete m k :
  no_ties m -> by_use (delete k m) = filter (fun ke => ke.1 <> k) (by_use m).
Proof.
  intros Hst. apply sort_by_unique; [apply _| | |].
  - intros x y. rewrite resident_delete, !list_elem_of_filter. intros [_ Hx] [_ Hy]. by apply Hst.
  - unfold by_use. by rewrite sort_by_perm, resident_delete.
  - apply StronglySorted_filter, sort_by_sorted', _.
Qed.

(** An entry used after all the others goes to the back. *)
Lemma by_use_insert m k e :
  no_ties m -> m !! k = None ->
  (forall k' e', m !! k' = Some e' -> last_access (meta e') < last_access (meta e)) ->
  by_use (<[k := e]> m) =
  by_use m ++ (if decide (0 < estimated_bytes (meta e)) then [(k, e)] else []).
Proof.
  intros Hst Hk Hlast.
  assert (forall x, x ∈ resident m -> lru_cmp x (k, e) = Lt) as Hlt.
  { intros [k' e'] [Hx _]%elem_of_resident. unfold lru_cmp, cmp_then, cmp_by. simpl.
    by rewrite (proj2 (Z.compare_lt_iff _ _) (Hlast _ _ Hx)). }
  apply sort_by_unique; [apply _| | |].
  - intros x y. rewrite resident_insert by done. rewrite !elem_of_app. case_decide.
    + rewrite !list_elem_of_singleton. intros [Hx| ->] [Hy| ->] He; [by apply Hst| | |done].
      * by rewrite Hlt in He.
      * by rewrite cmp_opp, Hlt in He.
    + rewrite !elem_of_nil. intros [Hx|[]] [Hy|[]]. by apply Hst.
  - rewrite resident_insert by done. unfold by_use. by rewrite sort_by_perm.
  - apply StronglySorted_app_2; [|apply sort_by_sorted', _|case_decide; repeat constructor].
    intros x y Hx Hy. unfold by_use in Hx. rewrite sort_by_perm in Hx. case_decide.
    + apply list_elem_of_singleton in Hy as ->. unfold not_gt. by rewrite Hlt.
    + by apply elem_of_nil in Hy.
Qed.
End Queue.

Section Eviction.
Context `{Htext : TextLib} `{Hiter : HashMapIter} (capacity : nat -> Z) (Hcap : forall n, 0 <= capacity n).
#[local] Abbreviation cache_wf := (cache_wf capacity).

Lemma wf_no_ties c : cache_wf c -> access_clock c < U64_MAX -> no_ties (entries c).
Proof.
  intros [] Hlt [k1 e1] [k2 e2] [H1 _]%elem_of_resident [H2 _]%elem_of_resident Heq.
  assert (k1 = k2) as ->; [|by simplify_eq]. apply (wf_distinct0 Hlt k1 k2 e1 e2); [done..|].
  unfold lru_cmp, cmp_then, cmp_by in Heq. simpl in Heq.
  by destruct (Z.compare_spec (last_access (meta e1)) (last_access (meta e2))).
Qed.

Lemma no_ties_subseteq m1 m2 : m1 ⊆ m2 -> no_ties m2 -> no_ties m1.
Proof.
  intros Hs Hn [k1 e1] [k2 e2] [H1 ?]%elem_of_resident [H2 ?]%elem_of_resident.
  apply Hn; apply elem_of_resident; split; try done; by eapply lookup_weaken.
Qed.

Lemma wf_queue_bytes c : cache_wf c -> queue_bytes (lru_queue c) = resident_bytes c.
Proof using Hcap.
  intros []. unfold lru_queue, by_use. rewrite queue_bytes_of, sort_by_perm, wf_resident0.
  apply resident_bytes_of, Forall_forall. intros [k e] Hin%elem_of_map_to_list.
  eapply entry_bytes_nonneg; eauto.
Qed.

Lemma eviction_key_head c :
  no_ties (entries c) -> eviction_key c = fst <$> head (by_use (entries c)).
Proof.
  intros Hn. unfold eviction_key. rewrite (min_by_head lru_cmp _ (resident (entries c))); [done..|].
  unfold eviction_candidates, resident. by rewrite iter_perm.
Qed.

(** Loop rule: what one eviction preserves, the loop preserves. *)
Lemma evict_loop_ind (I : CacheInner -> Prop) fuel needed c :
  I c -> (forall c k, I c -> I (count_eviction (remove_entry c k))) -> I (evict_loop fuel needed c).
Proof.
  intros Hc Hstep. revert c Hc. induction fuel as [|fuel IH]; intros c Hc; simpl;
    destruct (_ >? _); try done; destruct (eviction_key c); auto.
Qed.

Lemma evict_loop_wf fuel needed c : cache_wf c -> cache_wf (evict_loop fuel needed c).
Proof using Hcap. intros. apply evict_loop_ind; [done|]. intros. by apply wf_counts, wf_remove. Qed.

(** Eviction only deletes entries; capacity and clock stay. *)
Definition shrinks (c c' : CacheInner) : Prop :=
  entries c' ⊆ entries c /\ capacity_bytes c' = capacity_bytes c /\ access_clock c' = access_clock c.

Lemma evict_loop_shrinks fuel needed c : shrinks c (evict_loop fuel needed c).
Proof.
  apply evict_loop_ind; [done|]. intros c' k (Hs & Hc & Ha). unfold remove_entry, shrinks.
  destruct (entries c' !! k); simpl; [|done]. split; [|done].
  transitivity (entries c'); [apply delete_subseteq|done].
Qed.

Lemma by_use_nodup m k e rest :
  by_use m = (k, e) :: rest -> filter (fun ke => ke.1 <> k) rest = rest.
Proof.
  intros Hb. apply filter_all, Forall_forall. intros [k' e'] Hin Heq. simpl in Heq. subst k'.
  assert (NoDup (fst <$> by_use m)) as Hnd.
  { unfold by_use. rewrite sort_by_perm. unfold resident.
    apply (sublist_NoDup _ (map_to_list m).*1); [apply NoDup_fst_map_to_list|].
    apply fmap_sublist, sublist_filter. }
  rewrite Hb, fmap_cons in Hnd. apply NoDup_cons in Hnd as [Hk _]. simpl in Hk.
  apply Hk, list_elem_of_fmap. by exists (k, e').
Qed.

Lemma evict_step c k e rest :
  cache_wf c -> no_ties (entries c) -> by_use (entries c) = (k, e) :: rest ->
  let c1 := count_eviction (remove_entry c k) in
  cache_wf c1 /\ no_ties (entries c1) /\ by_use (entries c1) = rest
  /\ size (entries c) = S (size (entries c1)) /\ capacity_bytes c1 = capacity_bytes c.
Proof using Hcap.
  intros Hwf Hn Hb c1. assert (entries c1 = delete k (entries c)) as He1.
  { unfold c1. by rewrite (remove_entry_eq capacity). }
  assert (entries c !! k = Some e) as Hk.
  { apply (elem_of_resident (entries c) k e). unfold by_use in Hb.
    rewrite <- (sort_by_perm lru_cmp), Hb. apply list_elem_of_here. }
  split_and!.
  - by apply wf_counts, wf_remove.
  - rewrite He1. eapply no_ties_subseteq; [apply delete_subseteq|done].
  - rewrite He1, by_use_delete, Hb, filter_cons by done. rewrite decide_False by (simpl; tauto).
    by eapply by_use_nodup.
  - rewrite He1, map_size_delete_Some by eauto.
    assert (size (entries c) <> 0%nat); [|lia]. apply (map_size_ne_0_lookup_2 _ k). eauto.
  - unfold c1. by rewrite (remove_entry_eq capacity).
Qed.

Lemma over_capacity_eq c needed :
  cache_wf c -> (saturating_add (resident_bytes c) needed >? capacity_bytes c)
                = negb (queue_bytes (lru_queue c) + needed <=? capacity_bytes c).
Proof using Hcap.
  intros Hwf. rewrite wf_queue_bytes by done. destruct Hwf as [[] _ _ _ _ _ _].
  unfold saturating_add. lia.
Qed.

Lemma eviction_key_resident c :
  match eviction_key c with
  | Some k => is_Some (entries c !! k)
  | None => by_use (entries c) = []
  end.
Proof.
  unfold eviction_key. assert (eviction_candidates c ≡ₚ resident (entries c)) as Hp.
  { unfold eviction_candidates, resident. by rewrite iter_perm. }
  destruct (min_by lru_cmp _) as [[k e]|] eqn:Em; simpl.
  - apply min_by_spec in Em as [Hin _]; [|apply _]. rewrite Hp in Hin.
    apply elem_of_resident in Hin as [Hk _]. eauto.
  - destruct (eviction_candidates c); [|done]. apply Permutation_nil in Hp.
    unfold by_use. by rewrite Hp.
Qed.

Lemma remove_size c k :
  is_Some (entries c !! k) ->
  size (entries c) = S (size (entries (count_eviction (remove_entry c k)))).
Proof.
  intros [e He]. unfold remove_entry. rewrite He. simpl. rewrite map_size_delete_Some by eauto.
  assert (size (entries c) <> 0%nat); [|lia]. apply (map_size_ne_0_lookup_2 _ k). eauto.
Qed.

(** Fuel: the number of entries is enough, the loop is its own unfolding. *)
Lemma evict_loop_fuel fuel needed c :
  (size (entries c) <= fuel)%nat -> evict_loop fuel needed c = evict needed c.
Proof.
  unfold evict. remember (size (entries c)) as n eqn:Hn. revert c fuel Hn.
  induction n as [|n IH]; intros c fuel Hn Hle.
  - symmetry in Hn. apply map_size_empty_inv in Hn.
    pose proof (eviction_key_resident c) as Hk. destruct fuel; simpl; [done|].
    destruct (_ >? _); [|done]. destruct (eviction_key c) as [k|]; [|done].
    rewrite Hn in Hk. by destruct Hk.
  - destruct fuel as [|fuel]; [lia|]. simpl. destruct (_ >? _); [|done].
    pose proof (eviction_key_resident c) as Hk. destruct (eviction_key c) as [k|]; [|done].
    apply remove_size in Hk. apply IH; lia.
Qed.

Lemma evict_equation needed c :
  evict needed c =
  if saturating_add (resident_bytes c) needed >? capacity_bytes c then
    match eviction_key c with
    | None => c
    | Some k => evict needed (count_eviction (remove_entry c k))
    end
  else c.
Proof.
  rewrite <- (evict_loop_fuel (S (size (entries c)))) by lia. simpl.
  destruct (_ >? _); [|done]. pose proof (eviction_key_resident c) as Hk.
  destruct (eviction_key c) as [k|]; [|done]. apply remove_size in Hk.
  apply evict_loop_fuel. lia.
Qed.

(** The loop ends with room for the entry. *)
Lemma evict_fits needed c :
  cache_wf c -> needed <= capacity_bytes c ->
  resident_bytes (evict needed c) + needed <= capacity_bytes c.
Proof using Hcap.
  remember (size (entries c)) as n eqn:Hn. revert c Hn.
  induction n as [n IH] using lt_wf_ind. intros c Hn Hwf Hneed.
  pose proof (wf_queue_bytes c Hwf) as Hq. pose proof (eviction_key_resident c) as Hk.
  rewrite evict_equation, over_capacity_eq, wf_queue_bytes by done.
  destruct (_ <=? _) eqn:El; simpl; [lia|]. destruct (eviction_key c) as [k|].
  - apply remove_size in Hk. assert (capacity_bytes (remove_entry c k) = capacity_bytes c) as Hc.
    { by rewrite (remove_entry_eq capacity). }
    rewrite <- Hc. change (capacity_bytes (remove_entry c k)) with
      (capacity_bytes (count_eviction (remove_entry c k))).
    eapply IH; [|reflexivity|by apply wf_counts, wf_remove|simpl; by rewrite Hc]. lia.
  - unfold lru_queue in Hq. rewrite Hk in Hq. simpl in Hq. lia.
Qed.

Lemma evict_refines needed c :
  cache_wf c -> no_ties (entries c) ->
  lru_queue (evict needed c) = q_make_room (capacity_bytes c) needed (lru_queue c).
Proof using Hcap.
  remember (size (entries c)) as n eqn:Hn. revert c Hn.
  induction n as [n IH] using lt_wf_ind. intros c Hn Hwf Hst.
  rewrite evict_equation, q_make_room_eq, over_capacity_eq, eviction_key_head by done.
  destruct (_ <=? _); simpl; [done|].
  destruct (by_use (entries c)) as [|[k e] rest] eqn:Eb; simpl.
  { unfold lru_queue. by rewrite Eb. }
  destruct (evict_step c k e rest) as (Hwf1 & Hn1 & Hb1 & Hs & Hc1); [done..|].
  rewrite (IH (size (entries (count_eviction (remove_entry c k))))); [|lia|done..]. rewrite Hc1.
  unfold lru_queue at 2. rewrite Eb. simpl. unfold lru_queue. by rewrite Hb1.
Qed.
Lemma remove_subseteq c k : entries (remove_entry c k) ⊆ entries c.
Proof. unfold remove_entry. destruct (entries c !! k); [apply delete_subseteq|done]. Qed.
End Eviction.

Lemma evict_loop_order `{TextLib} (order1 order2 : HashMapIter) fuel needed c :
  no_ties (entries c) ->
  evict_loop (H0 := order1) fuel needed c = evict_loop (H0 := order2) fuel needed c.
Proof.
  revert c. induction fuel as [|fuel IH]; intros c Hn; simpl; rewrite !eviction_key_head by done; [done|].
  destruct (_ >? _), (head (by_use (entries c))) as [[k e]|]; simpl; [|done..].
  apply IH. eapply no_ties_subseteq; [apply remove_subseteq|done].
Qed.

(** ** Operations as steps *)

Inductive cache_op :=
| OpBuilding (k : FactorizationKey)
| OpReady (k : FactorizationKey) (p : PreparedModel)
| OpFailed (k : FactorizationKey) (msg : string)
| OpInvalidate (model : Uuid)
| OpGet (k : FactorizationKey).

Section Steps.
Context `{Htext : TextLib} `{Hiter : HashMapIter} (capacity : nat -> Z).

Definition apply_op (now : Z) (op : cache_op) (c : CacheInner) : CacheInner :=
  match op with
  | OpBuilding k => set_building now c k
  | OpReady k p => (set_ready capacity now c k p).1
  | OpFailed k msg => set_failed now c k msg
  | OpInvalidate model => (invalidate_model now c model).1
  | OpGet k => (get_ready now c k).1
  end.

(** What each operation does to the abstract queue. *)
Definition q_op (cap : Z) (op : cache_op) (q : queue) : queue :=
  match op with
  | OpBuilding k | OpFailed k _ => q_release k q
  | OpReady k p => q_admit cap k (prepared_owned_bytes capacity p) q
  | OpInvalidate model => q_invalidate model q
  | OpGet k => q_touch k q
  end.

(** One thread holds the lock for one operation; a state is reachable when
    some sequence of operations, by any threads, leads to it. *)
Inductive reachable (cap : Z) : CacheInner -> Prop :=
| reach_new : reachable cap (with_capacity cap)
| reach_op now op c : reachable cap c -> reachable cap (apply_op now op c).

Definition run_ops (ops : list (Z * cache_op)) (c : CacheInner) : CacheInner :=
  foldl (fun c no => apply_op no.1 no.2 c) c ops.
Definition q_ops (cap : Z) (ops : list (Z * cache_op)) (q : queue) : queue :=
  foldl (fun q no => q_op cap no.2 q) q ops.

Context (Hcap : forall n, 0 <= capacity n).
#[local] Abbreviation cache_wf := (cache_wf capacity).

(** *** Entries without prepared state *)

Lemma replace_capacity now st err c k :
  capacity_bytes (replace_unprepared now st err c k) = capacity_bytes c.
Proof. done. Qed.

Lemma remove_frame c k :
  capacity_bytes (remove_entry c k) = capacity_bytes c
  /\ access_clock (remove_entry c k) = access_clock c.
Proof. unfold remove_entry. by destruct (entries c !! k). Qed.

Lemma clock_replace now st err c k :
  access_clock (replace_unprepared now st err (remove_entry c k) k) = saturating_add (access_clock c) 1.
Proof. rewrite replace_unprepared_eq. cbn. by destruct (remove_frame c k) as [_ ->]. Qed.

Lemma saturating_tick clock :
  0 <= clock -> saturating_add clock 1 < U64_MAX -> saturating_add clock 1 = clock + 1 /\ clock < U64_MAX.
Proof. unfold saturating_add, USIZE_MAX. lia. Qed.

(** A stamped insertion appends to the queue. *)
Lemma queue_insert c k e r :
  cache_wf c -> entries c !! k = None -> saturating_add (access_clock c) 1 < U64_MAX ->
  last_access (meta e) = saturating_add (access_clock c) 1 ->
  lru_queue (with_entries (with_clock c (last_access (meta e))) (<[k := e]> (entries c)) r) =
  lru_queue c ++ (if decide (0 < estimated_bytes (meta e)) then [(k, estimated_bytes (meta e))] else []).
Proof.
  intros Hwf Hk Hclk Ha. destruct (saturating_tick (access_clock c)) as [Htick Hlt];
    [by destruct Hwf as [_ _ _ [] _ _ _]|done|]. unfold lru_queue. cbn [with_entries entries].
  rewrite by_use_insert; [|by eapply wf_no_ties|done|].
  - rewrite fmap_app. by case_decide.
  - intros k' e' He'. destruct Hwf. specialize (wf_access0 k' e' He'). lia.
Qed.

Lemma queue_remove c k :
  cache_wf c -> access_clock c < U64_MAX -> lru_queue (remove_entry c k) = q_release k (lru_queue c).
Proof using Hcap.
  intros Hwf Hlt. unfold lru_queue, q_release. rewrite (remove_entry_eq capacity), filter_fmap by done.
  simpl. by rewrite by_use_delete by by eapply wf_no_ties.
Qed.

Lemma queue_remove_replace now st err c k :
  cache_wf c -> saturating_add (access_clock c) 1 < U64_MAX ->
  lru_queue (replace_unprepared now st err (remove_entry c k) k) = q_release k (lru_queue c).
Proof using Hcap.
  intros Hwf Hclock. destruct (remove_frame c k) as [_ Hclk].
  destruct (saturating_tick (access_clock c)) as [_ Hlt]; [by destruct Hwf as [_ _ _ [] _ _ _]|done|].
  rewrite <- queue_remove, replace_unprepared_eq by done.
  rewrite queue_insert; [|by apply wf_remove|by apply (remove_entry_none capacity)|by rewrite Hclk|done].
  rewrite decide_False by done. apply app_nil_r.
Qed.

(** *** Lookups *)

Lemma get_ready_hit now c k p :
  cache_wf c ->
  (e ← entries c !! k; if decide (m_state (meta e) = Ready) then prepared e else None) = Some p ->
  let a := saturating_add (access_clock c) 1 in
  exists e, entries c !! k = Some e /\ estimated_bytes (meta e) = prepared_owned_bytes capacity p
  /\ get_ready now c k =
     (count_hit (with_entries (with_clock (remove_entry c k) a)
        (<[k := ready_entry capacity p now (error_message (meta e)) a]> (entries (remove_entry c k)))
        (resident_bytes (remove_entry c k) + prepared_owned_bytes capacity p)), Some p).
Proof using Hcap.
  intros Hwf Hf a. pose proof Hf as Hf'. apply bind_Some in Hf' as (e & He & Hp).
  case_decide as Hr; [|done]. pose proof Hwf as [_ Hres _ _ Hent _ _].
  specialize (Hent k e He) as Hew. unfold entry_wf in Hew. rewrite Hp in Hew.
  destruct Hew as [_ Hb]. exists e. split_and!; try done.
  unfold get_ready. rewrite Hf. cbn [next_access with_clock entries]. rewrite He, Hr, Hp, Hb.
  rewrite (remove_entry_eq capacity) by done. f_equal. f_equal.
  unfold insert_entry, with_entries, with_clock. cbn. f_equal.
  - by rewrite insert_delete_eq.
  - rewrite Hres, (total_delete _ k e), Hb by done. lia.
Qed.

Lemma set_ready_ok now c k p :
  cache_wf c -> prepared_owned_bytes capacity p <= capacity_bytes c ->
  let needed := prepared_owned_bytes capacity p in
  let c1 := evict needed (remove_entry c k) in
  let a := saturating_add (access_clock c1) 1 in
  cache_wf c1 /\ entries c1 !! k = None /\ shrinks (remove_entry c k) c1
  /\ resident_bytes c1 + needed <= capacity_bytes c1
  /\ set_ready capacity now c k p =
     (with_entries (with_clock c1 a) (<[k := ready_entry capacity p now None a]> (entries c1))
        (resident_bytes c1 + needed), inr needed).
Proof using Hcap.
  intros Hwf Hle needed c1 a. destruct (remove_frame c k) as [Hc _].
  assert (cache_wf (remove_entry c k)) as Hwf0 by by apply wf_remove.
  assert (shrinks (remove_entry c k) c1) as Hsh by apply evict_loop_shrinks.
  pose proof Hsh as (Hsub & Hc1 & _).
  assert (cache_wf c1) as Hwf1 by by apply evict_loop_wf.
  assert (resident_bytes c1 + needed <= capacity_bytes c1) as Hfit.
  { rewrite Hc1. apply (evict_fits capacity Hcap); [done|]. by rewrite Hc. }
  split_and!; try done.
  - eapply lookup_weaken_None; [|done]. by apply (remove_entry_none capacity).
  - unfold set_ready. fold needed. rewrite Hc. replace (needed >? capacity_bytes c) with false by lia.
    fold c1. cbn [next_access]. unfold insert_entry. cbn. f_equal. unfold with_entries. cbn. f_equal.
    destruct Hwf1 as [[] _ _ _ _ _ _]. unfold saturating_add. lia.
Qed.

Lemma set_ready_rejected now c k p :
  capacity_bytes c < prepared_owned_bytes capacity p ->
  set_ready capacity now c k p =
  (count_rejection (replace_unprepared now Failed
     (Some (rejection_message (prepared_owned_bytes capacity p) (capacity_bytes c)))
     (remove_entry c k) k),
   inl {| adm_estimated_bytes := prepared_owned_bytes capacity p;
          adm_capacity_bytes := capacity_bytes c |}).
Proof.
  intros Hlt. unfold set_ready. destruct (remove_frame c k) as [-> _].
  by replace (_ >? _) with true by lia.
Qed.

Lemma wf_get_ready now c k : cache_wf c -> cache_wf (get_ready now c k).1.
Proof using Hcap.
  intros Hwf. destruct (e ← entries c !! k; if decide (m_state (meta e) = Ready) then prepared e else None)
    as [p|] eqn:Ef; [|unfold get_ready; rewrite Ef; by apply wf_counts].
  destruct (get_ready_hit now c k p) as (e & He & Hb & ->); [done..|].
  apply wf_counts. destruct (remove_frame c k) as [Hc Ha].
  apply (wf_insert capacity Hcap (remove_entry c k) k
    (ready_entry capacity p now (error_message (meta e)) (saturating_add (access_clock c) 1))).
  - by apply wf_remove.
  - by apply (remove_entry_none capacity).
  - done.
  - by rewrite Ha.
  - rewrite Hc, (remove_entry_eq capacity) by done. simpl. destruct Hwf.
    rewrite (total_delete _ k e) in wf_resident0 by done. lia.
Qed.

Lemma wf_set_ready now c k p : cache_wf c -> cache_wf (set_ready capacity now c k p).1.
Proof using Hcap.
  intros Hwf. destruct (decide (prepared_owned_bytes capacity p <= capacity_bytes c)) as [Hle|Hgt].
  - destruct (set_ready_ok now c k p) as (Hwf1 & Hk & _ & Hfit & ->); [done..|].
    by apply (wf_insert capacity Hcap _ k (ready_entry capacity p now None _)).
  - rewrite set_ready_rejected by lia. by apply wf_counts, wf_remove_replace.
Qed.

Definition stale_step (now : Z) (c : CacheInner) (k : FactorizationKey) : CacheInner :=
  replace_unprepared now Stale None (remove_entry c k) k.

Lemma stale_fold now keys c :
  cache_wf c ->
  let c' := foldl (stale_step now) c keys in
  cache_wf c' /\ capacity_bytes c' = capacity_bytes c /\ access_clock c <= access_clock c'
  /\ (access_clock c' < U64_MAX -> lru_queue c' = filter (fun kb => kb.1 ∉ keys) (lru_queue c))
  /\ (forall k, (k ∈ keys -> state c' k = Some Stale)
              /\ (k ∉ keys -> entries c' !! k = entries c !! k)).
Proof using Hcap.
  revert c. induction keys as [|k keys IH]; intros c Hwf; simpl.
  { split_and!; try done.
    - intros _. symmetry. apply filter_all, Forall_forall. intros ? _. apply not_elem_of_nil.
    - intros k. split; [by intros ?%elem_of_nil|done]. }
  assert (cache_wf (stale_step now c k)) as Hwf1 by by apply wf_remove_replace.
  destruct (remove_frame c k) as [Hc Ha].
  assert (access_clock c <= access_clock (stale_step now c k)) as Hmono.
  { destruct Hwf. simpl. rewrite Ha. unfold saturating_add, USIZE_MAX. lia. }
  destruct (IH _ Hwf1) as (Hwf2 & Hcap2 & Hmono2 & Hq & Hk2). split_and!; try done.
  - rewrite Hcap2. simpl. by rewrite Hc.
  - lia.
  - intros Hlt. rewrite Hq by done. unfold stale_step.
    rewrite queue_remove_replace; [|done|rewrite <- Ha; simpl in Hmono2; lia].
    unfold q_release. rewrite list_filter_filter. apply list_filter_iff.
    intros [k' b]. simpl. rewrite not_elem_of_cons. tauto.
  - intros k'. destruct (Hk2 k') as [Hin Hout]. split.
    + intros Hk'. destruct (decide (k' ∈ keys)) as [Hd|Hd]; [by apply Hin|].
      apply elem_of_cons in Hk' as [->|Hk']; [|by apply Hin].
      unfold state. rewrite Hout by done. simpl. by rewrite lookup_insert_eq.
    + intros [Hne Hnk]%not_elem_of_cons. rewrite Hout by done. simpl.
      rewrite lookup_insert_ne, (remove_entry_eq capacity) by done. by apply lookup_delete_ne.
Qed.

Lemma wf_op now op c : cache_wf c -> cache_wf (apply_op now op c).
Proof using Hcap.
  intros Hwf. destruct op; simpl.
  - by apply wf_remove_replace.
  - by apply wf_set_ready.
  - by apply wf_remove_replace.
  - apply wf_counts. by apply stale_fold.
  - by apply wf_get_ready.
Qed.

Lemma by_use_lookup m k :
  filter (fun ke => ke.1 = k) (by_use m) =
  match m !! k with
  | Some e => if decide (0 < estimated_bytes (meta e)) then [(k, e)] else []
  | None => []
  end.
Proof.
  assert (forall ke, ke ∈ filter (fun ke => ke.1 = k) (by_use m) <->
    ke.1 = k /\ m !! k = Some ke.2 /\ 0 < estimated_bytes (meta ke.2)) as Hin.
  { intros [k' e]. rewrite list_elem_of_filter. unfold by_use. rewrite sort_by_perm, elem_of_resident.
    simpl. split; intros [-> ?]; done. }
  assert (NoDup (filter (fun ke => ke.1 = k) (by_use m))) as Hnd.
  { apply NoDup_filter. unfold by_use. rewrite sort_by_perm. apply NoDup_filter, NoDup_map_to_list. }
  destruct (m !! k) as [e|] eqn:Ek; [case_decide|].
  - apply Permutation_singleton_r, NoDup_Permutation; [done|apply NoDup_singleton|].
    intros [k' e']. rewrite Hin, list_elem_of_singleton. simpl. split.
    + intros (-> & [= <-] & _). done.
    + by intros [= -> ->].
  - apply elem_of_nil_inv. intros [k' e'] (_ & [= <-] & ?)%Hin. done.
  - apply elem_of_nil_inv. intros [k' e'] (_ & ? & _)%Hin. done.
Qed.

Lemma sim_get now c k :
  cache_wf c -> access_clock (get_ready now c k).1 < U64_MAX ->
  lru_queue (get_ready now c k).1 = q_touch k (lru_queue c).
Proof using Hcap.
  intros Hwf. unfold q_touch. unfold lru_queue at 3. rewrite filter_fmap. cbn [charge fst].
  rewrite by_use_lookup. destruct (remove_frame c k) as [_ Ha].
  destruct (e ← entries c !! k; if decide (m_state (meta e) = Ready) then prepared e else None)
    as [p|] eqn:Ef.
  - destruct (get_ready_hit now c k p) as (e & He & Hb & ->); [done..|]. simpl fst. intros Hclk.
    rewrite He, Hb. simpl in Hclk.
    destruct (saturating_tick (access_clock c)) as [_ Hlt];
      [by destruct Hwf as [_ _ _ [] _ _ _]|done|].
    rewrite <- queue_remove by done.
    pose proof (queue_insert (remove_entry c k) k (ready_entry capacity p now (error_message (meta e))
      (saturating_add (access_clock c) 1)) (resident_bytes (remove_entry c k) + prepared_owned_bytes capacity p)) as Hq.
    simpl in Hq. rewrite Ha in Hq.
    etransitivity; [apply Hq; [by apply wf_remove|by apply (remove_entry_none capacity)|done..]|].
    f_equal. case_decide; [|done]. cbn. unfold charge. simpl. by rewrite Hb.
  - assert (filter (fun ke => ke.1 = k) (by_use (entries c)) = []) as Hnil.
    { rewrite by_use_lookup. destruct (entries c !! k) as [e|] eqn:Ek; [|done].
      destruct Hwf. specialize (wf_entries0 k e Ek). unfold entry_wf in wf_entries0. simpl in Ef.
      destruct (prepared e); destruct wf_entries0 as [Hst Hb].
      - by rewrite decide_True in Ef.
      - rewrite decide_False; [done|lia]. }
    rewrite <- by_use_lookup, Hnil, app_nil_r. unfold get_ready. rewrite Ef. intros _.
    symmetry. apply filter_all, Forall_fmap, Forall_forall. intros ke Hke Hk.
    by apply (filter_nil_not_elem_of _ _ ke Hnil).
Qed.

Lemma sim_ready now c k p :
  cache_wf c -> access_clock (set_ready capacity now c k p).1 < U64_MAX ->
  lru_queue (set_ready capacity now c k p).1 =
  q_admit (capacity_bytes c) k (prepared_owned_bytes capacity p) (lru_queue c).
Proof using Hcap.
  intros Hwf. destruct (remove_frame c k) as [Hc Ha]. unfold q_admit.
  pose proof Hwf as [_ _ _ [Hpos _] _ _ _].
  destruct (decide (prepared_owned_bytes capacity p <= capacity_bytes c)) as [Hle|Hgt].
  - replace (_ >? _) with false by lia.
    destruct (set_ready_ok now c k p) as (Hwf1 & Hk & (Hsub & Hc1 & Ha1) & Hfit & ->); [done..|].
    simpl fst. intros Hclk. cbn [with_entries with_clock access_clock] in Hclk.
    pose proof Hclk as Hclk'. rewrite Ha1, Ha in Hclk'.
    destruct (saturating_tick (access_clock c)) as [_ Hlt]; [done..|].
    assert (cache_wf (remove_entry c k)) as Hwf0 by by apply wf_remove.
    rewrite <- queue_remove, <- Hc by done. rewrite <- (evict_refines capacity Hcap); [|done|].
    + pose proof (queue_insert (evict (prepared_owned_bytes capacity p) (remove_entry c k)) k
        (ready_entry capacity p now None (saturating_add (access_clock (evict (prepared_owned_bytes capacity p)
           (remove_entry c k))) 1))) as Hq. etransitivity; [by apply Hq|].
      f_equal. simpl. clear. generalize (prepared_owned_bytes capacity p). intros n.
      destruct (decide (0 < n)), (Z.ltb_spec 0 n); (done || lia).
    + apply (wf_no_ties capacity); [done|lia].
  - replace (_ >? _) with true by lia. rewrite set_ready_rejected by lia. intros Hclk.
    cbn [fst] in *. change (access_clock (count_rejection ?x)) with (access_clock x) in Hclk.
    rewrite clock_replace in Hclk. change (lru_queue (count_rejection ?x)) with (lru_queue x).
    by apply queue_remove_replace.
Qed.

Lemma sim_invalidate now c model :
  cache_wf c -> access_clock (invalidate_model now c model).1 < U64_MAX ->
  lru_queue (invalidate_model now c model).1 = q_invalidate model (lru_queue c).
Proof using Hcap.
  intros Hwf Hclk.
  set (keys := filter (fun k => key_model k = model) (fst <$> iter (entries c))) in *.
  destruct (stale_fold now keys c Hwf) as (_ & _ & _ & Hq & _).
  etransitivity; [by apply Hq|]. apply filter_ext_in. intros [k b] Hin. simpl.
  unfold keys. rewrite list_elem_of_filter, iter_perm. split; [|tauto].
  intros Hnot Hm. apply Hnot. split; [done|]. clear Hnot Hm. apply list_elem_of_fmap in Hin as ([k' e] & [= -> ->] & Hin).
  unfold by_use in Hin. rewrite sort_by_perm, elem_of_resident in Hin. destruct Hin as [Hk _].
  apply list_elem_of_fmap. exists (k', e). split; [done|]. by apply elem_of_map_to_list.
Qed.

Lemma sim_op now op c :
  cache_wf c -> access_clock (apply_op now op c) < U64_MAX ->
  lru_queue (apply_op now op c) = q_op (capacity_bytes c) op (lru_queue c).
Proof using Hcap.
  intros Hwf Hclk. destruct op as [k|k p|k msg|model|k]; cbn [apply_op q_op] in *.
  - unfold set_building in *. rewrite clock_replace in Hclk. by apply queue_remove_replace.
  - by apply sim_ready.
  - unfold set_failed in *. rewrite clock_replace in Hclk. by apply queue_remove_replace.
  - by apply sim_invalidate.
  - by apply sim_get.
Qed.

Lemma op_frame now op c :
  cache_wf c -> capacity_bytes (apply_op now op c) = capacity_bytes c
                /\ access_clock c <= access_clock (apply_op now op c).
Proof using Hcap.
  intros Hwf. pose proof Hwf as [_ _ _ [Hpos Hmax] _ _ _].
  assert (access_clock c <= saturating_add (access_clock c) 1) as Htick.
  { unfold saturating_add, USIZE_MAX. lia. }
  destruct op as [k|k p|k msg|model|k]; simpl; try destruct (remove_frame c k) as [Hc Ha].
  - by rewrite Hc, Ha.
  - destruct (decide (prepared_owned_bytes capacity p <= capacity_bytes c)) as [Hle|Hgt].
    + destruct (set_ready_ok now c k p) as (_ & _ & (_ & Hc1 & Ha1) & _ & ->); [done..|].
      simpl. by rewrite Hc1, Ha1, Hc, Ha.
    + rewrite set_ready_rejected by lia. simpl. by rewrite Hc, Ha.
  - by rewrite Hc, Ha.
  - destruct (stale_fold now (filter (fun k => key_model k = model) (fst <$> iter (entries c))) c)
      as (_ & Hc & Ha & _); done.
  - destruct (e ← entries c !! k; if decide (m_state (meta e) = Ready) then prepared e else None)
      as [p|] eqn:Ef; [|unfold get_ready; by rewrite Ef].
    destruct (get_ready_hit now c k p) as (e & He & Hb & ->); [done..|]. simpl. by rewrite Hc.
Qed.

Lemma with_capacity_wf cap : 0 <= cap < USIZE_MAX -> cache_wf (with_capacity cap).
Proof. intros. constructor; simpl; try done; try lia; intros *; by rewrite lookup_empty. Qed.

Lemma reachable_wf cap c :
  0 <= cap < USIZE_MAX -> reachable cap c -> cache_wf c /\ capacity_bytes c = cap.
Proof using Hcap.
  intros Hc. induction 1 as [|now op c _ [Hwf <-]]; [split; [by apply with_capacity_wf|done]|].
  split; [by apply wf_op|]. by apply op_frame.
Qed.

Lemma run_ops_reachable cap ops : reachable cap (run_ops ops (with_capacity cap)).
Proof.
  unfold run_ops. generalize (reach_new cap). generalize (with_capacity cap). 
  induction ops as [|[now op] ops IH]; intros c Hc; simpl; [done|]. by apply IH, reach_op.
Qed.

Lemma run_ops_sim ops c :
  cache_wf c -> access_clock (run_ops ops c) < U64_MAX ->
  lru_queue (run_ops ops c) = q_ops (capacity_bytes c) ops (lru_queue c)
  /\ access_clock c <= access_clock (run_ops ops c).
Proof using Hcap.
  unfold run_ops, q_ops. revert c. induction ops as [|[now op] ops IH]; intros c Hwf Hclk; simpl in *; [done|].
  pose proof (wf_op now op c Hwf) as Hwf1. destruct (op_frame now op c Hwf) as [Hc Ha].
  destruct (IH _ Hwf1 Hclk) as [Hq Ha2]. rewrite Hc in Hq.
  split; [|lia]. rewrite Hq, sim_op; [done..|]. lia.
Qed.
End Steps.

(** *** Identifiers are distinct *)

Lemma append_inj_length a b x y :
  String.length a = String.length b -> a +:+ x = b +:+ y -> a = b /\ x = y.
Proof.
  revert b. induction a as [|c a IH]; intros [|d b] Hl Heq; simplify_eq/=; [done|].
  by destruct (IH b) as [-> ->].
Qed.

Lemma append_length a b : String.length (a +:+ b) = (String.length a + String.length b)%nat.
Proof. induction a as [|c a IH]; [done|]. exact (f_equal S IH). Qed.

Lemma factorization_id_inj `{TextLib} k1 k2 :
  documented_uuid_text -> uuid_valid (key_model k1) -> uuid_valid (key_model k2) ->
  factorization_id k1 = factorization_id k2 -> k1 = k2.
Proof.
  intros [Hlen Hinj] H1 H2 Heq. destruct k1 as [u1 [] h1], k2 as [u2 [] h2].
  unfold factorization_id in Heq. cbn [key_model backend options_hash backend_digit] in *.
  apply append_inj_length in Heq as [Hu Hh]; [|by rewrite !Hlen].
  apply Hinj in Hu as ->; [|done..].
  apply (append_inj_length ":" ":") in Hh as [_ Hh]; [|done].
  pose proof (f_equal String.length Hh) as Hl. rewrite !append_length in Hl.
  apply append_inj_length in Hh as [-> _]; [done|lia].
Qed.

Lemma id_no_ties `{TextLib} m :
  documented_uuid_text -> (forall k e, m !! k = Some e -> uuid_valid (key_model k)) -> no_ties m.
Proof.
  intros Hdoc Hv [k1 e1] [k2 e2] [H1 _]%elem_of_resident [H2 _]%elem_of_resident Heq.
  unfold lru_cmp, cmp_then, cmp_by in Heq. simpl in Heq.
  destruct (_ ?= _); [|done..]. apply String.compare_eq_iff in Heq.
  apply factorization_id_inj in Heq as ->; [by simplify_eq|eauto..].
Qed.

(** ** A concrete environment for the witnesses *)

Definition hex_char (d : Z) : Ascii.ascii :=
  Ascii.ascii_of_N (Z.to_N (if d <? 10 then 48 + d else 87 + d)).
Fixpoint hex (n : nat) (z : Z) : string :=
  match n with O => "" | S n => hex n (z / 16) +:+ String (hex_char (z mod 16)) "" end.
(** The hyphenated 8-4-4-4-12 form. *)
Definition uuid_hyphenated (u : Uuid) : string :=
  hex 8 (u / 2^96) +:+ "-" +:+ hex 4 (u / 2^80 mod 2^16) +:+ "-" +:+ hex 4 (u / 2^64 mod 2^16)
    +:+ "-" +:+ hex 4 (u / 2^48 mod 2^16) +:+ "-" +:+ hex 12 (u mod 2^48).
(** Any digest function serves as an example. *)
#[local] Instance example_text : TextLib :=
  {| uuid_display := uuid_hyphenated; blake3_hex bs := foldr (fun b s => hex 2 b +:+ s) "" bs |}.

Lemma hex_length n z : String.length (hex n z) = n.
Proof. revert z. induction n as [|n IH]; intros z; [done|]. simpl. rewrite append_length, IH. simpl. lia. Qed.

Lemma hex_char_inj d1 d2 : 0 <= d1 < 16 -> 0 <= d2 < 16 -> hex_char d1 = hex_char d2 -> d1 = d2.
Proof.
  unfold hex_char. intros H1 H2 Heq. apply (f_equal Ascii.N_of_ascii) in Heq.
  destruct (Z.ltb_spec d1 10), (Z.ltb_spec d2 10);
    rewrite !Ascii.N_ascii_embedding in Heq by lia; lia.
Qed.

Lemma hex_inj n z1 z2 :
  0 <= z1 < 16 ^ Z.of_nat n -> 0 <= z2 < 16 ^ Z.of_nat n -> hex n z1 = hex n z2 -> z1 = z2.
Proof.
  revert z1 z2. induction n as [|n IH]; intros z1 z2 H1 H2 Heq; [lia|].
  rewrite Nat2Z.inj_succ, Z.pow_succ_r in H1, H2 by lia. simpl in Heq.
  apply append_inj_length in Heq as [Hd Hm]; [|by rewrite !hex_length].
  injection Hm as Hm. apply hex_char_inj in Hm; [|by apply Z.mod_pos_bound..].
  apply IH in Hd; [|split; [apply Z.div_pos; lia|apply Z.div_lt_upper_bound; lia]..].
  rewrite (Z.div_mod z1 16), (Z.div_mod z2 16) by lia. congruence.
Qed.

Lemma hex_block n z1 z2 s1 s2 :
  0 <= z1 < 16 ^ Z.of_nat n -> 0 <= z2 < 16 ^ Z.of_nat n ->
  hex n z1 +:+ s1 = hex n z2 +:+ s2 -> z1 = z2 /\ s1 = s2.
Proof.
  intros H1 H2 Heq. apply append_inj_length in Heq as [Hh Hs]; [|by rewrite !hex_length].
  split; [by apply (hex_inj n)|done].
Qed.

(** Linear arithmetic with division by constants. *)
Ltac euclid := intros; Z.to_euclidean_division_equations; lia.

Lemma example_text_documented : documented_uuid_text.
Proof.
  split.
  - intros u _. cbn [uuid_display example_text]. unfold uuid_hyphenated. by rewrite !append_length, !hex_length.
  - intros u v Hu Hv. cbn [uuid_display example_text]. unfold uuid_hyphenated, uuid_valid in *. intros Heq.
    assert (0 <= u / 2^96 < 16 ^ Z.of_nat 8 /\ 0 <= v / 2^96 < 16 ^ Z.of_nat 8) as [? ?]
      by (change (16 ^ Z.of_nat 8) with (2^32); clear Heq; euclid).
    assert (forall z, 0 <= z mod 2^16 < 16 ^ Z.of_nat 4 /\ 0 <= z mod 2^48 < 16 ^ Z.of_nat 12) as Hm
      by (change (16 ^ Z.of_nat 4) with (2^16); change (16 ^ Z.of_nat 12) with (2^48); clear Heq; euclid).
    apply hex_block in Heq as [E1 Heq]; [|done..].
    apply (append_inj_length "-" "-") in Heq as [_ Heq]; [|done].
    apply hex_block in Heq as [E2 Heq]; [|apply Hm..].
    apply (append_inj_length "-" "-") in Heq as [_ Heq]; [|done].
    apply hex_block in Heq as [E3 Heq]; [|apply Hm..].
    apply (append_inj_length "-" "-") in Heq as [_ Heq]; [|done].
    apply hex_block in Heq as [E4 Heq]; [|apply Hm..].
    apply (append_inj_length "-" "-") in Heq as [_ Heq]; [|done].
    apply hex_inj in Heq; [|apply Hm..].
    clear -E1 E2 E3 E4 Heq. euclid.
Qed.

(** ** Properties *)

(** C30: in every state reachable from an empty cache of capacity [cap] by any
    sequence of operations, the byte counter is the exact sum of the charges
    of the entries and never exceeds the capacity; exactly the [Ready] entries
    hold a prepared model, each charged its own size, and all other entries
    are charged nothing. *)
Theorem cache_invariant `{TextLib, HashMapIter} (capacity : nat -> Z) (cap : Z) (c : CacheInner) :
  (forall n, 0 <= capacity n) -> 0 <= cap < USIZE_MAX -> reachable capacity cap c ->
  resident_bytes c = total (entries c) /\ resident_bytes c <= cap
  /\ forall k e, entries c !! k = Some e ->
       (m_state (meta e) = Ready <-> is_Some (prepared e))
       /\ estimated_bytes (meta e) = from_option (prepared_owned_bytes capacity) 0 (prepared e).
Proof.
  intros Hcap Hc Hr. apply reachable_wf in Hr as [[] <-]; [|done..].
  split_and!; try done. intros k e He. specialize (wf_entries0 k e He). unfold entry_wf in wf_entries0.
  destruct (prepared e); destruct wf_entries0 as [Hst Hb]; split; try done.
Qed.

(** C7: the cache refines a queue of resident entries in order of last use.
    For every sequence of operations on an empty cache, as long as the 64-bit
    access clock has not saturated, the entries that hold bytes, in the order
    of their access stamps, are what the abstract machine computes: building,
    failing and invalidating release an entry, a lookup moves its entry to
    the back, and admission drops the fewest entries from the front that make
    room and appends the new one. *)
Theorem lru_refinement `{TextLib, HashMapIter} (capacity : nat -> Z) (cap : Z)
    (ops : list (Z * cache_op)) :
  (forall n, 0 <= capacity n) -> 0 <= cap < USIZE_MAX ->
  let c := run_ops capacity ops (with_capacity cap) in
  access_clock c < U64_MAX ->
  lru_queue c = q_ops capacity cap ops [].
Proof.
  intros Hcap Hc c Hclk. destruct (run_ops_sim capacity Hcap ops (with_capacity cap)) as [Hq _];
    [by apply with_capacity_wf|done|]. exact Hq.
Qed.

(** Admission.  In a reachable state, a prepared model whose size is
    within the capacity is admitted, the next lookup of its key returns it,
    and no other key changes except by being evicted; a larger one is refused
    with the two sizes, its key is left [Failed] with a message and is not
    returned by a lookup, and no other key changes. *)
Theorem set_ready_admits `{TextLib, HashMapIter} (capacity : nat -> Z) (cap now now' : Z)
    (c : CacheInner) (k : FactorizationKey) (p : PreparedModel) :
  (forall n, 0 <= capacity n) -> 0 <= cap < USIZE_MAX -> reachable capacity cap c ->
  let needed := prepared_owned_bytes capacity p in
  let '(c', r) := set_ready capacity now c k p in
  if needed <=? cap
  then r = inr needed /\ (get_ready now' c' k).2 = Some p
       /\ forall k', k' <> k -> entries c' !! k' = entries c !! k' \/ entries c' !! k' = None
  else r = inl {| adm_estimated_bytes := needed; adm_capacity_bytes := cap |}
       /\ state c' k = Some Failed /\ error c' k = Some (rejection_message needed cap)
       /\ (get_ready now' c' k).2 = None
       /\ forall k', k' <> k -> entries c' !! k' = entries c !! k'.
Proof.
  intros Hcap Hc Hr needed. apply reachable_wf in Hr as [Hwf <-]; [|done..].
  destruct (Z.leb_spec needed (capacity_bytes c)) as [Hle|Hgt].
  - destruct (set_ready_ok capacity Hcap now c k p) as (_ & _ & (Hsub & _ & _) & _ & ->); [done..|].
    split_and!; [done| |].
    + unfold get_ready, with_entries. cbn [entries]. by rewrite lookup_insert_eq.
    + intros k' Hne. cbn [with_entries entries]. rewrite lookup_insert_ne by done.
      rewrite (remove_entry_eq capacity) in Hsub |- * by done.
      destruct (_ !! k') as [e|] eqn:Ek'; [left|by right].
      eapply lookup_weaken in Ek'; [|exact Hsub]. simpl in Ek'. by rewrite lookup_delete_ne in Ek'.
  - rewrite set_ready_rejected by done. rewrite (remove_entry_eq capacity) by done.
    split_and!; try done.
    + unfold state. simpl. by rewrite lookup_insert_eq.
    + unfold error. simpl. by rewrite lookup_insert_eq.
    + unfold get_ready. simpl. by rewrite lookup_insert_eq.
    + intros k' Hne. simpl. rewrite lookup_insert_ne by done. by apply lookup_delete_ne.
Qed.

(** Eviction is deterministic.  When identifiers print as the [uuid]
    crate documents, [set_ready] gives the same cache and the same answer
    whatever order the hash map enumerates its entries in. *)
Theorem eviction_order_independent `{TextLib} (order1 order2 : HashMapIter) (capacity : nat -> Z)
    (now : Z) (c : CacheInner) (k : FactorizationKey) (p : PreparedModel) :
  documented_uuid_text -> (forall k e, entries c !! k = Some e -> uuid_valid (key_model k)) ->
  set_ready (H0 := order1) capacity now c k p = set_ready (H0 := order2) capacity now c k p.
Proof.
  intros Hdoc Hv. unfold set_ready, evict. set (needed := prepared_owned_bytes capacity p).
  rewrite (evict_loop_order order1 order2); [done|].
  eapply no_ties_subseteq; [apply remove_subseteq|]. by apply id_no_ties.
Qed.

(** Invalidation.  Every entry of the model becomes [Stale] and is no
    longer returned by lookups, entries of other models are untouched, the
    resident bytes are what the others hold, and the count returned is the
    number of entries of the model. *)
Theorem invalidate_model_releases `{TextLib, HashMapIter} (capacity : nat -> Z) (cap now now' : Z)
    (c : CacheInner) (model : Uuid) :
  (forall n, 0 <= capacity n) -> 0 <= cap < USIZE_MAX -> reachable capacity cap c ->
  let '(c', n) := invalidate_model now c model in
  n = length (filter (fun ke => key_model ke.1 = model) (map_to_list (entries c)))
  /\ (forall k, key_model k = model ->
       state c' k = ((fun _ => Stale) <$> entries c !! k) /\ (get_ready now' c' k).2 = None)
  /\ (forall k, key_model k <> model -> entries c' !! k = entries c !! k)
  /\ resident_bytes c' = total (filter (fun ke => key_model ke.1 <> model) (entries c)).
Proof.
  intros Hcap Hc Hr. apply reachable_wf in Hr as [Hwf <-]; [|done..]. unfold invalidate_model.
  set (keys := filter (fun k => key_model k = model) (fst <$> iter (entries c))).
  destruct (stale_fold capacity Hcap now keys c Hwf) as (Hwf' & _ & _ & _ & Hk).
  set (c' := foldl (stale_step now) c keys) in *. fold (stale_step now). fold c'.
  assert (forall k, k ∈ keys <-> key_model k = model /\ is_Some (entries c !! k)) as Hkeys.
  { intros k. unfold keys. rewrite list_elem_of_filter, iter_perm. apply and_iff_compat_l.
    rewrite list_elem_of_fmap. split.
    - intros ([k' e] & -> & Hin). apply elem_of_map_to_list in Hin. eauto.
    - intros [e He]. exists (k, e). split; [done|]. by apply elem_of_map_to_list. }
  assert (forall k, key_model k <> model -> entries c' !! k = entries c !! k) as Hother.
  { intros k Hne. apply Hk. rewrite Hkeys. tauto. }
  assert (forall k, key_model k = model -> state c' k = ((fun _ => Stale) <$> entries c !! k)) as Hstale.
  { intros k Hm. destruct (entries c !! k) as [e|] eqn:Ek.
    - apply Hk, Hkeys. eauto.
    - unfold state. rewrite (proj2 (Hk k)); [by rewrite Ek|]. rewrite Hkeys, Ek. by intros [_ [? ?]]. }
  split_and!; try done.
  - unfold keys. rewrite filter_fmap, length_fmap. by rewrite iter_perm.
  - intros k Hm. specialize (Hstale k Hm).
    split; [done|]. unfold get_ready. cbn [entries count_invalidations with_counts].
    unfold state in Hstale. destruct (entries c' !! k) as [e|]; [|done]. simpl in *.
    rewrite decide_False; [done|]. destruct (entries c !! k); simplify_eq/=. congruence.
  - cbn [resident_bytes count_invalidations with_counts]. destruct Hwf' as [_ Hres _ _ Hent _ _].
    rewrite Hres. apply (total_ext capacity); [exact Hcap|exact Hent|..].
    + destruct Hwf as [_ _ _ _ Hent0 _ _]. intros k e [He _]%map_lookup_filter_Some. by apply (Hent0 k).
    + intros k e Hpos. rewrite map_lookup_filter_Some. simpl.
      destruct (decide (key_model k = model)) as [Hm|Hm]; [|rewrite Hother by done; tauto].
      split; [|tauto]. intros He. exfalso.
      assert (m_state (meta e) = Stale) as Hst.
      { specialize (Hstale k Hm). unfold state in Hstale. rewrite He in Hstale.
        destruct (entries c !! k); by simplify_eq/=. }
      specialize (Hent k e He). unfold entry_wf in Hent. rewrite Hst in Hent.
      destruct (prepared e), Hent as [? ?]; [done|lia].
Qed.

(** ** Witnesses *)

Definition example_report : ValidationReport := {|
  status := ValidationOk;
  stats := {| st_nrows := 2; st_ncols := 2; st_nnz := 3; sparsity := report_sparsity 2 2 3;
              empty_columns := 0; empty_rows := 0; near_zero_diagonal := 0 |};
  messages := [];
|}.
(** 144 bytes: three copies of a matrix of 48 bytes. *)
Definition example_prepared : PreparedModel := {|
  p_factorization := mk_factorization upper2_matrix 1 2 []
    {| symbolic_status := 0; numeric_status := 0; symbolic_info := []; numeric_info := [] |};
  p_b := upper2_matrix; p_c := upper2_matrix; p_validation := example_report;
|}.
Definition example_key (u : Uuid) : FactorizationKey := mk_key u BackendUmfpack "h".

(** Room for two: the third admission evicts the least recently used. *)
Definition example_ops : list (Z * cache_op) :=
  [(10, OpReady (example_key 1) example_prepared); (11, OpReady (example_key 2) example_prepared);
   (12, OpGet (example_key 1)); (13, OpReady (example_key 3) example_prepared)].
Definition example_cache : CacheInner := run_ops Z.of_nat example_ops (with_capacity 300).

Lemma cache_invariant_witness :
  reachable Z.of_nat 300 example_cache
  /\ resident_bytes example_cache = total (entries example_cache)
  /\ resident_bytes example_cache = 288.
Proof.
  assert (reachable Z.of_nat 300 example_cache) as Hr by apply run_ops_reachable.
  split; [exact Hr|]. split; [|vm_compute; reflexivity].
  destruct (cache_invariant Z.of_nat 300 example_cache) as (Hres & _); [intros; lia|by vm_compute|exact Hr|].
  exact Hres.
Defined.

Lemma lru_refinement_witness :
  lru_queue example_cache = [(example_key 1, 144); (example_key 3, 144)].
Proof.
  unfold example_cache. rewrite (lru_refinement Z.of_nat 300 example_ops).
  - vm_compute. reflexivity.
  - intros; lia.
  - by vm_compute.
  - vm_compute. reflexivity.
Defined.

Lemma set_ready_admits_witness :
  (get_ready 21 (set_ready Z.of_nat 20 example_cache (example_key 4) example_prepared).1 (example_key 4)).2
  = Some example_prepared
  /\ state (set_ready Z.of_nat 20 (with_capacity 100) (example_key 4) example_prepared).1 (example_key 4)
     = Some Failed.
Proof.
  split.
  - pose proof (set_ready_admits Z.of_nat 300 20 21 example_cache (example_key 4) example_prepared) as Hs.
    destruct (set_ready _ _ _ _ _) as [c' r].
    destruct Hs as (_ & Hg & _); [intros; lia|by vm_compute|apply run_ops_reachable|exact Hg].
  - pose proof (set_ready_admits Z.of_nat 100 20 21 (with_capacity 100) (example_key 4) example_prepared) as Hs.
    destruct (set_ready _ _ _ _ _) as [c' r].
    destruct Hs as (_ & Hg & _); [intros; lia|by vm_compute|apply reach_new|exact Hg].
Defined.

(** The reverse enumeration order. *)
#[local] Instance reverse_order : HashMapIter.
Proof. refine {| iter m := reverse (map_to_list m) |}. intros m. apply reverse_Permutation. Defined.

Lemma eviction_order_independent_witness :
  set_ready (H0 := map_order) Z.of_nat 20 example_cache (example_key 4) example_prepared
  = set_ready (H0 := reverse_order) Z.of_nat 20 example_cache (example_key 4) example_prepared.
Proof.
  apply eviction_order_independent; [apply example_text_documented|].
  intros k e Hk%elem_of_map_to_list.
  assert (forallb (fun ke => (0 <=? key_model ke.1) && (key_model ke.1 <? 2^128))
            (map_to_list (entries example_cache)) = true) as Hall by (vm_compute; reflexivity).
  rewrite forallb_forall in Hall. apply list_elem_of_In, Hall in Hk. simpl in Hk.
  bool_hyps. by split.
Defined.

Lemma invalidate_model_releases_witness :
  (get_ready 31 (invalidate_model (H := map_order) 30 example_cache 3).1 (example_key 3)).2 = None
  /\ (invalidate_model (H := map_order) 30 example_cache 3).2 = 1%nat.
Proof.
  pose proof (invalidate_model_releases (H0 := map_order) Z.of_nat 300 30 31 example_cache 3) as Hs.
  destruct (invalidate_model _ _ _) as [c' n].
  destruct Hs as (Hn & Hk & _); [intros; lia|by vm_compute|apply run_ops_reachable|].
  split; [by apply Hk|]. rewrite Hn. vm_compute. reflexivity.
Defined.
