(* ===== verification/Service.v ===== *)
(** * Prepare, solve, invalidate

    Models [crates/solver-core/src/service.rs]: the service that builds the
    matrices of a model, checks them, factorizes M, caches the prepared model
    and answers demands.  The cache is the only state; a service call threads
    it, and stops at the first error, in the monad [svc].  Readings of the
    system clock are an argument [clk], elapsed times are arguments.

    Other threads may run between two cache operations of one call.  The
    safety theorems are stated for every cache state reachable by the cache
    operations that service calls issue, in any order ([shared_cache]). *)

From stdpp Require Import pretty.
From S2P Require Import Prelude F64 Csc Umfpack DataBuilder Validator Cache.

Local Open Scope Z_scope.

(** ** Data *)

Record NumericOptions := { opt_print_level : f64 }.
Definition default_options : NumericOptions := {| opt_print_level := f64_zero |}.

Record SolveOptions := { return_x : bool; return_g : bool; return_h : bool }.
Definition default_solve_options : SolveOptions :=
  {| return_x := true; return_g := true; return_h := true |}.

Record FactorizationDiagnostics := {
  d_validation : ValidationReport;
  d_backend : SolverBackend;
  d_m_nnz : nat;
  d_b_nnz : nat;
  d_c_nnz : nat;
  cache_entry_estimated_bytes : Z;
  factorization_reported_peak_bytes : option Z;
  d_cache : FactorizationCacheTelemetry;
}.

Record PrepareResult := {
  pr_factorization_id : string;
  pr_status : FactorizationState;
  diagnostics : FactorizationDiagnostics;
}.

Record SolveResult := {
  sr_x : option (list f64);
  sr_g : option (list f64);
  sr_h : option (list f64);
  factorization_state : FactorizationState;
}.

Record SolveComputationTiming := {
  solve_mx_sec : f64;
  bx_sec : f64;
  cg_sec : f64;
  comparable_compute_sec : f64;
}.

Record TimedSolveResult := { tr_result : SolveResult; timing : SolveComputationTiming }.
Record SolveBatchResult := { items : list SolveResult }.

Inductive SolverError :=
| SDataBuilder (e : DataBuilderError)
| SFactorization (e : UmfpackError)
| NotPrepared (model_version : Uuid)
| ValidationFailed (r : ValidationReport)
| RhsDimensionMismatch (rhs_len process_count : nat)
| WorkloadAdmissionRejected (estimated_bytes capacity_bytes : Z) (fill_in_multiplier : f64)
| CacheAdmission (e : FactorizationCacheAdmissionError).

(** The fields of [SolverService] besides the cache. *)
Record SolverService := {
  builder_zero_epsilon : f64;
  admission_fill_in_multiplier : f64;
}.

Definition service_new : SolverService * CacheInner :=
  ({| builder_zero_epsilon := default_zero_epsilon; admission_fill_in_multiplier := f64_of_Z 8 |},
   cache_new).
Definition with_cache_policy (capacity_bytes : Z) (multiplier : f64) : SolverService * CacheInner :=
  ({| builder_zero_epsilon := default_zero_epsilon;
      admission_fill_in_multiplier := f64_max multiplier f64_one |}, with_capacity capacity_bytes).
Definition with_exact_zero_policy (capacity_bytes : Z) (multiplier : f64) : SolverService * CacheInner :=
  ({| builder_zero_epsilon := f64_zero;
      admission_fill_in_multiplier := f64_max multiplier f64_one |}, with_capacity capacity_bytes).

(** [Display] of the error types, as the cache records it. *)
Definition matrix_error_text (e : MatrixError) : string :=
  match e with
  | InvalidDimensions nr nc => "invalid matrix dimensions (" +:+ pretty nr +:+ ", " +:+ pretty nc +:+ ")"
  | InvalidColPtrLength got expected =>
      "col_ptr length " +:+ pretty got +:+ " does not match ncols+1 (" +:+ pretty expected +:+ ")"
  | InvalidColPtrStart => "col_ptr must start at 0"
  | NonMonotonicColPtr => "col_ptr must be non-decreasing"
  | InvalidNnz last nnz =>
      "final col_ptr value " +:+ pretty last +:+ " does not match nnz " +:+ pretty nnz
  | RowOutOfRange row nr => "row index " +:+ pretty row +:+ " out of range [0, " +:+ pretty nr +:+ ")"
  | ColOutOfRange col nc => "column index " +:+ pretty col +:+ " out of range [0, " +:+ pretty nc +:+ ")"
  | NonSortedOrDuplicateRows => "row indices within each column must be strictly increasing"
  | IndexOverflow => "matrix conversion overflow"
  end.

Definition umfpack_error_text (e : UmfpackError) : string :=
  match e with
  | UMatrix e => "invalid matrix: " +:+ matrix_error_text e
  | URhsDimensionMismatch l n =>
      "RHS length " +:+ pretty l +:+ " does not match matrix columns " +:+ pretty n
  | SingularMatrix => "matrix is singular"
  | SymbolicStatus s => "umfpack symbolic factorization returned status " +:+ pretty s
  | NumericStatus s => "umfpack numeric factorization returned status " +:+ pretty s
  | SolveStatus s => "umfpack solve returned status " +:+ pretty s
  | NullHandle => "umfpack returned null pointer"
  end.

(** ** Calls that use the cache *)

Definition svc (A : Type) : Type := CacheInner -> CacheInner * result SolverError A.
#[export] Instance svc_ret : MRet svc := fun A a c => (c, Ok a).
#[export] Instance svc_bind : MBind svc := fun A B f m c =>
  match m c with
  | (c, Ok a) => f a c
  | (c, Err e) => (c, Err e)
  | (c, Panic) => (c, Panic)
  end.
Definition lift {A} (r : result SolverError A) : svc A := fun c => (c, r).
Definition throw {A} (e : SolverError) : svc A := fun c => (c, Err e).
Definition modify (f : CacheInner -> CacheInner) : svc unit := fun c => (f c, Ok tt).
Definition observe {A} (f : CacheInner -> A) : svc A := fun c => (c, Ok (f c)).
(** A cache operation that answers. *)
Definition ask {A} (f : CacheInner -> CacheInner * A) : svc A := fun c => let '(c, a) := f c in (c, Ok a).

(** [f64::to_le_bytes]. *)
Fixpoint le_bytes (n : nat) (z : Z) : list Z :=
  match n with O => [] | S n => z mod 256 :: le_bytes n (z / 256) end.

Definition factorization_key `{TextLib} (model_version : Uuid) (options : NumericOptions)
    : FactorizationKey :=
  key_new model_version BackendUmfpack (le_bytes 8 (f64_to_bits (opt_print_level options))).

Definition DIAG_EPSILON : f64 := f64_of_ratio 1 (10^12).

(** The bytes [prepare] expects the workload to need: the three matrices and
    M scaled by the fill-in multiplier. *)
Definition workload_estimate (capacity : nat -> Z) (multiplier : f64) (m b c : CscMatrix) : Z :=
  let matrix_bytes :=
    saturating_add (saturating_add (estimated_owned_bytes capacity m) (estimated_owned_bytes capacity b))
      (estimated_owned_bytes capacity c) in
  let scaled := f64_ceil (f64_of_Z (estimated_owned_bytes capacity m) * multiplier)%f64 in
  saturating_add matrix_bytes (default USIZE_MAX (f64_integral_to_usize scaled)).

Definition workload_message (estimated capacity : Z) : string :=
  "workload admission rejected: estimated_bytes=" +:+ pretty estimated
    +:+ " capacity_bytes=" +:+ pretty capacity.

Section Calls.
Context `{Htext : TextLib} `{Hiter : HashMapIter} `{Hlib : UmfpackLib} (capacity : nat -> Z).

Definition prepare (self : SolverService) (clk : nat -> Z) (data : ModelSparseData)
    (options : NumericOptions) : svc PrepareResult :=
  let key := factorization_key (model_version data) options in
  _ ← modify (fun c => set_building (clk 0%nat) c key);
  matrices ← lift (map_err SDataBuilder (build (builder_zero_epsilon self) data));
  validation ← lift (validate_factorization_matrix (bm_m matrices) DIAG_EPSILON);
  if decide (status validation = FailedInvalidStructure) then
    _ ← modify (fun c => set_failed (clk 1%nat) c key "matrix structural validation failed");
    throw (ValidationFailed validation)
  else
    let workload_estimated_bytes :=
      workload_estimate capacity (admission_fill_in_multiplier self)
        (bm_m matrices) (bm_b matrices) (bm_c matrices) in
    capacity_bytes ← observe (fun c => tel_capacity_bytes (telemetry c));
    if workload_estimated_bytes >? capacity_bytes then
      _ ← modify (fun c => set_failed (clk 1%nat) c key
                             (workload_message workload_estimated_bytes capacity_bytes));
      throw (WorkloadAdmissionRejected workload_estimated_bytes capacity_bytes
               (admission_fill_in_multiplier self))
    else
      match (factorize (bm_m matrices) {| print_level := opt_print_level options |}).1 with
      | Err error =>
          _ ← modify (fun c => set_failed (clk 1%nat) c key
                                 ("factorization failed: " +:+ umfpack_error_text error));
          throw (SFactorization error)
      | Panic => lift Panic
      | Ok factorization =>
          let prepared := {| p_factorization := factorization; p_b := bm_b matrices;
                             p_c := bm_c matrices; p_validation := validation |} in
          admitted ← ask (fun c => set_ready capacity (clk 1%nat) c key prepared);
          match admitted with
          | inl error => throw (CacheAdmission error)
          | inr entry_bytes =>
              cache ← observe telemetry;
              mret {| pr_factorization_id := factorization_id key;
                      pr_status := Ready;
                      diagnostics := {|
                        d_validation := validation;
                        d_backend := BackendUmfpack;
                        d_m_nnz := m_nnz matrices;
                        d_b_nnz := b_nnz matrices;
                        d_c_nnz := c_nnz matrices;
                        cache_entry_estimated_bytes := entry_bytes;
                        factorization_reported_peak_bytes := reported_peak_bytes factorization;
                        d_cache := cache |} |}
          end
      end.

Definition factorization_status (c : CacheInner) (model_version : Uuid) (options : NumericOptions)
    : option FactorizationState :=
  state c (factorization_key model_version options).

(** The elapsed seconds of the three stages are arguments. *)
Definition solve_one_timed (now : Z) (mx_elapsed bx_elapsed cg_elapsed : f64)
    (model_version : Uuid) (options : NumericOptions) (rhs : list f64) (so : SolveOptions)
    : svc TimedSolveResult :=
  let key := factorization_key model_version options in
  found ← ask (fun c => get_ready now c key);
  prepared ← lift (ok_or (NotPrepared model_version) found);
  let process_count := usize_or_default (ncols (f_matrix (p_factorization prepared))) in
  if negb (length rhs =? process_count)%nat
  then throw (RhsDimensionMismatch (length rhs) process_count)
  else
    x ← lift (map_err SFactorization (solve (p_factorization prepared) rhs));
    g ← lift (if return_g so || return_h so
              then g_vec ← mul_vector (p_b prepared) x; Ok (Some g_vec) else Ok None);
    let bx := if return_g so || return_h so then bx_elapsed else f64_zero in
    h ← lift (if return_h so
              then match g with
                   | Some g_vec => h_vec ← mul_vector (p_c prepared) g_vec; Ok (Some h_vec)
                   | None => Ok None
                   end
              else Ok None);
    let cg := if return_h so then cg_elapsed else f64_zero in
    mret {| tr_result := {| sr_x := if return_x so then Some x else None;
                            sr_g := if return_g so then g else None;
                            sr_h := h;
                            factorization_state := Ready |};
            timing := {| solve_mx_sec := mx_elapsed; bx_sec := bx; cg_sec := cg;
                         comparable_compute_sec := (mx_elapsed + bx + cg)%f64 |} |}.

Definition solve_one (now : Z) (model_version : Uuid) (options : NumericOptions) (rhs : list f64)
    (so : SolveOptions) : svc SolveResult :=
  r ← solve_one_timed now f64_zero f64_zero f64_zero model_version options rhs so;
  mret (tr_result r).

(** [clk i] is the clock when demand [i] looks the model up. *)
Fixpoint solve_each (clk : nat -> Z) (i : nat) (model_version : Uuid) (options : NumericOptions)
    (rhs_batch : list (list f64)) (so : SolveOptions) : svc (list SolveResult) :=
  match rhs_batch with
  | [] => mret []
  | rhs :: rest =>
      item ← solve_one (clk i) model_version options rhs so;
      rest ← solve_each clk (S i) model_version options rest so;
      mret (item :: rest)
  end.
Definition solve_batch (clk : nat -> Z) (model_version : Uuid) (options : NumericOptions)
    (rhs_batch : list (list f64)) (so : SolveOptions) : svc SolveBatchResult :=
  l ← solve_each clk 0 model_version options rhs_batch so;
  mret {| items := l |}.

Definition invalidate (now : Z) (model_version : Uuid) : svc nat :=
  ask (fun c => invalidate_model now c model_version).
End Calls.

(** ** Prepared models the service inserts *)

(** The shapes that make a demand answerable: M square, B over the
    processes, C over the flows. *)
Definition model_ok (p : PreparedModel) : Prop :=
  let m := f_matrix (p_factorization p) in
  solvable m /\ csc_wf (p_b p) /\ csc_wf (p_c p)
  /\ ncols (p_b p) = ncols m /\ ncols (p_c p) = nrows (p_b p).

Lemma from_triplet_iter_wf nr nc ts eps m :
  from_triplet_iter nr nc ts eps = Ok m -> csc_wf m /\ nrows m = nr /\ ncols m = nc.
Proof.
  unfold from_triplet_iter. destruct (_ || _); [done|].
  intros (acc & _ & Hm)%bind_ok. unfold csc_of_entries in Hm.
  apply bind_ok in Hm as (nc' & _ & Hm). apply bind_ok in Hm as (counts & _ & Hm).
  apply bind_ok in Hm as (cp & _ & Hm).
  unfold csc_new in Hm. apply bind_ok in Hm as ([] & Hv & Hm). inv_result.
  split; [by apply validate_wf|done].
Qed.

Lemma build_shapes eps data bm :
  build eps data = Ok bm ->
  csc_wf (bm_m bm) /\ csc_wf (bm_b bm) /\ csc_wf (bm_c bm)
  /\ nrows (bm_m bm) = process_count data /\ ncols (bm_m bm) = process_count data
  /\ ncols (bm_b bm) = process_count data /\ ncols (bm_c bm) = nrows (bm_b bm).
Proof.
  unfold build. destruct (_ || _); [done|].
  intros (m & Hm & H)%bind_ok. apply bind_ok in H as (b & Hb & H). apply bind_ok in H as (c & Hc & H).
  rewrite map_err_ok in Hm, Hb, Hc.
  apply from_triplet_iter_wf in Hm as (? & ? & ?), Hb as (? & ? & ?), Hc as (? & ? & ?).
  inv_result. cbn. split_and!; (done || congruence).
Qed.

Section Shared.
Context `{Htext : TextLib} `{Hiter : HashMapIter} `{Hlib : UmfpackLib} (capacity : nat -> Z).

(** The cache operations service calls issue. *)
Definition service_op (op : cache_op) : Prop :=
  match op with OpReady _ p => model_ok p | _ => True end.

Inductive shared_cache (cap : Z) : CacheInner -> Prop :=
| shared_new : shared_cache cap (with_capacity cap)
| shared_op now op c :
    shared_cache cap c -> service_op op -> shared_cache cap (apply_op capacity now op c).

Lemma shared_reachable cap c : shared_cache cap c -> reachable capacity cap c.
Proof. induction 1; by constructor. Qed.

Context (Hcap : forall n, 0 <= capacity n).

(** A prepared model comes from the last [set_ready] of its key. *)
Lemma prepared_origin now op c k e p :
  cache_wf capacity c -> entries (apply_op capacity now op c) !! k = Some e -> prepared e = Some p ->
  op = OpReady k p \/ exists e0, entries c !! k = Some e0 /\ prepared e0 = Some p.
Proof.
  intros Hwf He Hp.
  assert (forall k' st err, entries (replace_unprepared now st err (remove_entry c k') k') !! k = Some e ->
    exists e0, entries c !! k = Some e0 /\ prepared e0 = Some p) as Hrep.
  { intros k' st err Hx. rewrite replace_unprepared_eq in Hx. cbn [with_entries entries] in Hx.
    apply lookup_insert_Some in Hx as [[_ <-]|[Hne Hx]]; [done|].
    eapply lookup_weaken in Hx; [|apply remove_subseteq]. eauto. }
  destruct op as [k'|k' p'|k' msg|model|k']; cbn [apply_op] in He.
  - right. by eapply Hrep.
  - destruct (decide (prepared_owned_bytes capacity p' <= capacity_bytes c)) as [Hle|Hgt].
    + destruct (set_ready_ok capacity Hcap now c k' p') as (_ & _ & (Hsub & _ & _) & _ & Heq); [done..|].
      rewrite Heq in He. cbn [fst with_entries entries] in He.
      apply lookup_insert_Some in He as [[-> <-]|[Hne He]]; [left; by injection Hp as ->|right].
      eapply lookup_weaken in He; [|exact Hsub].
      eapply lookup_weaken in He; [|apply remove_subseteq]. eauto.
    + right. rewrite set_ready_rejected in He by lia. eapply Hrep. exact He.
  - right. by eapply Hrep.
  - right. set (keys := filter (fun k => key_model k = model) (fst <$> iter (entries c))).
    destruct (stale_fold capacity Hcap now keys c Hwf) as (Hwf' & _ & _ & _ & Hk).
    change (entries (foldl (stale_step now) c keys) !! k = Some e) in He.
    destruct (decide (k ∈ keys)) as [Hin|Hout].
    + destruct (Hk k) as [Hst _]. specialize (Hst Hin). unfold state in Hst. rewrite He in Hst.
      destruct Hwf' as [_ _ _ _ Hent _ _]. specialize (Hent k e He). unfold entry_wf in Hent.
      rewrite Hp in Hent. destruct Hent as [Hr _]. simpl in Hst. congruence.
    + destruct (Hk k) as [_ Hs]. rewrite Hs in He by done. eauto.
  - right. destruct (e ← entries c !! k'; if decide (m_state (meta e) = Ready) then prepared e else None)
      as [p'|] eqn:Ef; [|unfold get_ready in He; rewrite Ef in He; eauto].
    destruct (get_ready_hit capacity Hcap now c k' p') as (e' & He' & _ & Heq); [done..|].
    rewrite Heq in He. cbn [fst count_hit with_counts with_entries entries] in He.
    apply lookup_insert_Some in He as [[-> <-]|[Hne He]].
    + exists e'. split; [done|]. rewrite He' in Ef. simpl in Ef. case_decide; [|done]. by injection Hp as <-.
    + eapply lookup_weaken in He; [|apply remove_subseteq]. eauto.
Qed.

Lemma shared_models cap c :
  0 <= cap < USIZE_MAX -> shared_cache cap c ->
  forall k e p, entries c !! k = Some e -> prepared e = Some p -> model_ok p.
Proof using Hcap.
  intros Hc. induction 1 as [|now op c Hs IH Hop]; intros k e p He Hp; [done|].
  apply shared_reachable, (reachable_wf capacity Hcap) in Hs as [Hwf _]; [|done].
  destruct (prepared_origin now op c k e p) as [->|(e0 & He0 & Hp0)]; [done..|done|]. eauto.
Qed.

Lemma get_ready_prepared now c k p :
  (get_ready now c k).2 = Some p -> exists e, entries c !! k = Some e /\ prepared e = Some p.
Proof.
  unfold get_ready. destruct (entries c !! k) as [e|]; [|done]. simpl.
  case_decide; [|done]. destruct (prepared e) as [p'|] eqn:Ep; [|done].
  destruct (entries _ !! k); simpl; intros [= <-]; eauto.
Qed.
End Shared.

(** ** Running the calls *)

Section Runs.
Context `{Htext : TextLib} `{Hiter : HashMapIter} `{Hlib : UmfpackLib} (capacity : nat -> Z).
Context (Hcap : forall n, 0 <= capacity n).

(** The structural check cannot fail on the M of a built model. *)
Lemma built_validation eps data bm :
  build eps data = Ok bm ->
  exists v, validate_factorization_matrix (E:=SolverError) (bm_m bm) DIAG_EPSILON = Ok v
    /\ status v <> FailedInvalidStructure.
Proof.
  intros (Hm & _ & _ & Hr & Hc & _)%build_shapes. rewrite validate_factorization_eq by done.
  eexists. split; [reflexivity|]. cbn [status]. unfold report_status. destruct Hm.
  replace (nrows (bm_m bm) <=? 0) with false by lia. replace (ncols (bm_m bm) <=? 0) with false by lia.
  rewrite Hr, Hc, Z.eqb_refl. simpl. by destruct (report_messages _ _ _ _).
Qed.

(** What [prepare] does once the matrices are built. *)
Definition prepare_built (self : SolverService) (clk : nat -> Z) (key : FactorizationKey)
    (options : NumericOptions) (bm : BuiltMatrices) (v : ValidationReport) (c1 : CacheInner)
    : CacheInner * result SolverError PrepareResult :=
  let est := workload_estimate capacity (admission_fill_in_multiplier self) (bm_m bm) (bm_b bm) (bm_c bm) in
  if est >? capacity_bytes c1 then
    (set_failed (clk 1%nat) c1 key (workload_message est (capacity_bytes c1)),
     Err (WorkloadAdmissionRejected est (capacity_bytes c1) (admission_fill_in_multiplier self)))
  else
    match (factorize (bm_m bm) {| print_level := opt_print_level options |}).1 with
    | Err e => (set_failed (clk 1%nat) c1 key ("factorization failed: " +:+ umfpack_error_text e),
                Err (SFactorization e))
    | Panic => (c1, Panic)
    | Ok f =>
        let p := {| p_factorization := f; p_b := bm_b bm; p_c := bm_c bm; p_validation := v |} in
        match set_ready capacity (clk 1%nat) c1 key p with
        | (c2, inl e) => (c2, Err (CacheAdmission e))
        | (c2, inr n) =>
            (c2, Ok {| pr_factorization_id := factorization_id key; pr_status := Ready;
                       diagnostics := {|
                         d_validation := v; d_backend := BackendUmfpack;
                         d_m_nnz := m_nnz bm; d_b_nnz := b_nnz bm; d_c_nnz := c_nnz bm;
                         cache_entry_estimated_bytes := n;
                         factorization_reported_peak_bytes := reported_peak_bytes f;
                         d_cache := telemetry c2 |} |})
        end
    end.

Lemma prepare_run self clk data options c :
  let key := factorization_key (model_version data) options in
  let c1 := set_building (clk 0%nat) c key in
  match build (builder_zero_epsilon self) data with
  | Err e => prepare capacity self clk data options c = (c1, Err (SDataBuilder e))
  | Panic => prepare capacity self clk data options c = (c1, Panic)
  | Ok bm => exists v, validate_factorization_matrix (E:=SolverError) (bm_m bm) DIAG_EPSILON = Ok v
      /\ status v <> FailedInvalidStructure
      /\ prepare capacity self clk data options c = prepare_built self clk key options bm v c1
  end.
Proof.
  intros key c1. destruct (build _ data) as [bm|e|] eqn:Eb.
  - destruct (built_validation _ _ _ Eb) as (v & Hv & Hst). exists v. split_and!; [done..|].
    unfold prepare. fold key. unfold mbind, svc_bind, modify, lift. fold c1. rewrite Eb. cbn [map_err].
    rewrite Hv, decide_False by done. unfold observe, prepare_built, throw, ask.
    cbn [telemetry tel_capacity_bytes]. destruct (_ >? _); [done|].
    destruct (factorize _ _).1 as [f|e|]; [|done..]. by destruct (set_ready _ _ _ _ _) as [c2 [e|n]].
  - unfold prepare. fold key. unfold mbind, svc_bind, modify, lift. by rewrite Eb.
  - unfold prepare. fold key. unfold mbind, svc_bind, modify, lift. by rewrite Eb.
Qed.

Lemma factorize_no_panic m o : (factorize m o).1 <> Panic.
Proof.
  unfold factorize. pose proof (validate_no_panic m) as Hv.
  destruct (validate m) as [[]|e|]; [|done..]. destruct (negb _); [done|].
  destruct (di_symbolic _ _ _ _ _ _) as [[s1 p1] i1].
  destruct (s1 =? UMFPACK_WARNING_SINGULAR), (negb (s1 =? UMFPACK_OK)), p1; try done.
  destruct (di_numeric _ _ _ _ _) as [[s2 p2] i2].
  by destruct (s2 =? UMFPACK_WARNING_SINGULAR), (negb (s2 =? UMFPACK_OK)), p2.
Qed.

Lemma built_model_ok eps data bm o f v :
  build eps data = Ok bm -> (factorize (bm_m bm) o).1 = Ok f ->
  model_ok {| p_factorization := f; p_b := bm_b bm; p_c := bm_c bm; p_validation := v |}.
Proof.
  intros (_ & Hb & Hc & _ & Hmc & Hbc & Hcc)%build_shapes Hf.
  destruct (factorize (bm_m bm) o) as [r tr] eqn:Ef. simpl in Hf. subst r.
  apply factorize_ok_inv in Ef as (Hsol & Hm & _). unfold model_ok. cbn.
  rewrite Hm. split_and!; (done || congruence).
Qed.

Lemma replaced_state now st err c k :
  state (replace_unprepared now st err c k) k = Some st /\ error (replace_unprepared now st err c k) k = err.
Proof. rewrite replace_unprepared_eq. unfold state, error. cbn. by rewrite lookup_insert_eq. Qed.

Lemma get_ready_not_ready now c k :
  state c k <> Some Ready -> (get_ready now c k).2 = None.
Proof.
  unfold state, get_ready. destruct (entries c !! k) as [e|]; [|done]. simpl. intros Hne.
  by rewrite decide_False by (intros Heq; apply Hne; by rewrite Heq).
Qed.

(** Every service call leads from a shared cache to a shared cache. *)
Lemma prepare_shared cap self clk data options c :
  0 <= cap < USIZE_MAX -> shared_cache capacity cap c ->
  shared_cache capacity cap (prepare capacity self clk data options c).1.
Proof.
  intros Hc Hs. set (key := factorization_key (model_version data) options).
  assert (shared_cache capacity cap (set_building (clk 0%nat) c key)) as Hs1.
  { apply (shared_op capacity cap (clk 0%nat) (OpBuilding key)); done. }
  pose proof (prepare_run self clk data options c) as Hrun. cbn zeta in Hrun. fold key in Hrun.
  destruct (build _ data) as [bm|e|] eqn:Eb; [|by rewrite Hrun..].
  destruct Hrun as (v & _ & _ & ->). unfold prepare_built.
  destruct (_ >? _); [apply (shared_op capacity cap (clk 1%nat) (OpFailed key _)); done|].
  destruct (factorize _ _).1 as [f|e|] eqn:Ef; [|apply (shared_op capacity cap (clk 1%nat) (OpFailed key _)); done|done].
  assert (model_ok {| p_factorization := f; p_b := bm_b bm; p_c := bm_c bm; p_validation := v |}) as Hok
    by by eapply built_model_ok.
  pose proof (shared_op capacity cap (clk 1%nat) (OpReady key _) _ Hs1 Hok) as Hs2.
  cbn [apply_op] in Hs2. by destruct (set_ready _ _ _ _ _) as [c2 [e|n]].
Qed.
End Runs.

(** ** Answers *)

Definition times (m : CscMatrix) (x : list f64) : list f64 := row_dot m x <$> seq 0 (Z.to_nat (nrows m)).

(** The reference answer of a prepared model to a demand: the activities
    [x] of [M x = rhs], the inventory [B x] and the impacts [C (B x)], as
    far as they are requested. *)
Definition answer `{UmfpackLib} (p : PreparedModel) (so : SolveOptions) (rhs : list f64)
    : result SolverError SolveResult :=
  let n := Z.to_nat (ncols (f_matrix (p_factorization p))) in
  if (length rhs =? n)%nat then
    match solve (p_factorization p) rhs with
    | Ok x =>
        Ok {| sr_x := if return_x so then Some x else None;
              sr_g := if return_g so then Some (times (p_b p) x) else None;
              sr_h := if return_h so then Some (times (p_c p) (times (p_b p) x)) else None;
              factorization_state := Ready |}
    | Err e => Err (SFactorization e)
    | Panic => Panic
    end
  else Err (RhsDimensionMismatch (length rhs) n).

Section Answers.
Context `{Htext : TextLib} `{Hiter : HashMapIter} `{Hlib : UmfpackLib} (capacity : nat -> Z).

Lemma solve_one_missing now mv options rhs so c :
  (get_ready now c (factorization_key mv options)).2 = None ->
  (solve_one now mv options rhs so c).2 = Err (NotPrepared mv).
Proof.
  intros Hg. unfold solve_one, solve_one_timed, mbind, svc_bind, ask, lift.
  destruct (get_ready _ _ _) as [c' [p|]]; by simpl in *.
Qed.

Lemma solve_one_answer now mv options rhs so c p :
  (get_ready now c (factorization_key mv options)).2 = Some p -> model_ok p ->
  solve_one now mv options rhs so c =
  ((get_ready now c (factorization_key mv options)).1, answer p so rhs).
Proof.
  intros Hg (Hsol & Hb & Hcw & Hbn & Hcn). unfold solve_one, solve_one_timed, answer.
  unfold mbind, svc_bind, ask, lift, throw, mret, svc_ret, usize_or_default. cbn beta.
  destruct (get_ready now c _) as [c' o]. cbn [fst snd] in *. subst o. cbn [ok_or].
  destruct (length rhs =? _)%nat eqn:El; cbn [negb]; [|reflexivity].
  destruct (solve (p_factorization p) rhs) as [x|e|] eqn:Es; cbn [map_err]; [|reflexivity..].
  apply solve_ok_inv in Es as (Hrhs & Hx & _); [|done].
  assert (mul_vector (E:=SolverError) (p_b p) x = Ok (times (p_b p) x)) as Hmb
    by (apply mul_vector_eq; [done|congruence]).
  assert (mul_vector (E:=SolverError) (p_c p) (times (p_b p) x) = Ok (times (p_c p) (times (p_b p) x))) as Hmc.
  { apply mul_vector_eq; [done|]. unfold times. rewrite length_fmap, length_seq. congruence. }
  rewrite Hmb. cbn [result_bind].
  destruct so as [[] [] []]; cbn [return_x return_g return_h orb]; rewrite ?Hmc; reflexivity.
Qed.

Lemma get_ready_again now now' c k p :
  (get_ready now c k).2 = Some p -> (get_ready now' (get_ready now c k).1 k).2 = Some p.
Proof.
  unfold get_ready. destruct (entries c !! k) as [e|] eqn:Ek; [|done]. simpl.
  case_decide as Hr; [|done]. destruct (prepared e) as [p'|] eqn:Ep; [|done]. simpl.
  rewrite Ek. simpl. intros [= <-]. rewrite lookup_insert_eq. simpl. by rewrite decide_True, Ep.
Qed.

Lemma solve_each_answers clk i mv options batch so c p :
  (get_ready (clk i) c (factorization_key mv options)).2 = Some p -> model_ok p ->
  (solve_each clk i mv options batch so c).2 = mapR (answer p so) batch.
Proof.
  revert i c. induction batch as [|rhs batch IH]; intros i c Hg Hok; [done|].
  cbn [solve_each mapR]. unfold mbind at 1, svc_bind at 1.
  rewrite (solve_one_answer _ _ _ _ _ _ p) by done.
  destruct (answer p so rhs) as [item|e|]; [|done..].
  unfold mbind, svc_bind. specialize (IH (S i) (get_ready (clk i) c (factorization_key mv options)).1).
  rewrite <- IH; [|by eapply get_ready_again|done].
  by destruct (solve_each _ _ _ _ _ _ _) as [c' [l|e|]].
Qed.

Lemma answer_no_panic p so rhs : model_ok p -> answer p so rhs <> Panic.
Proof.
  intros [Hsol _]. unfold answer. destruct (_ =? _)%nat; [|done].
  pose proof (solve_no_panic _ rhs Hsol) as Hn. by destruct (solve _ rhs).
Qed.
End Answers.

Lemma prepare_outcome `{TextLib, HashMapIter, UmfpackLib} (capacity : nat -> Z) (cap now : Z)
    (self : SolverService) (clk : nat -> Z) (data : ModelSparseData) (options : NumericOptions)
    (c : CacheInner) :
  (forall n, 0 <= capacity n) -> 0 <= cap < USIZE_MAX -> shared_cache capacity cap c ->
  let key := factorization_key (model_version data) options in
  let '(c', r) := prepare capacity self clk data options c in
  match r with
  | Ok pr => exists bm f v,
      let p := {| p_factorization := f; p_b := bm_b bm; p_c := bm_c bm; p_validation := v |} in
      build (builder_zero_epsilon self) data = Ok bm
      /\ (factorize (bm_m bm) {| print_level := opt_print_level options |}).1 = Ok f
      /\ state c' key = Some Ready /\ (get_ready now c' key).2 = Some p
      /\ cache_entry_estimated_bytes (diagnostics pr) = prepared_owned_bytes capacity p
      /\ prepared_owned_bytes capacity p <= cap
  | Err (SDataBuilder e) =>
      build (builder_zero_epsilon self) data = Err e /\ state c' key = Some Building
  | Err (ValidationFailed _) => False
  | Err _ => state c' key = Some Failed /\ is_Some (error c' key)
  | Panic => False
  end.
Proof.
  intros Hcap Hc Hs key. set (c1 := set_building (clk 0%nat) c key).
  assert (shared_cache capacity cap c1) as Hs1
    by (apply (shared_op capacity cap (clk 0%nat) (OpBuilding key)); done).
  apply shared_reachable, (reachable_wf capacity Hcap) in Hs1 as [Hwf1 Hcap1]; [|done].
  pose proof (prepare_run capacity self clk data options c) as Hrun. cbn zeta in Hrun. fold key in Hrun.
  fold c1 in Hrun. destruct (build _ data) as [bm|e|] eqn:Eb.
  2: { rewrite Hrun. split; [done|]. apply replaced_state. }
  2: { rewrite Hrun. by eapply build_no_panic. }
  destruct Hrun as (v & _ & _ & ->). unfold prepare_built.
  destruct (_ >? _).
  { split; [apply replaced_state|]. eexists. apply replaced_state. }
  pose proof (factorize_no_panic (bm_m bm) {| print_level := opt_print_level options |}) as Hnp.
  destruct (factorize _ _).1 as [f|e|] eqn:Ef; [| |done].
  2: { split; [apply replaced_state|]. eexists. apply replaced_state. }
  set (p := {| p_factorization := f; p_b := bm_b bm; p_c := bm_c bm; p_validation := v |}).
  destruct (decide (prepared_owned_bytes capacity p <= capacity_bytes c1)) as [Hle|Hgt].
  - destruct (set_ready_ok capacity Hcap (clk 1%nat) c1 key p) as (_ & _ & _ & _ & ->); [done..|].
    exists bm, f, v. split_and!; try done.
    + unfold state. cbn. by rewrite lookup_insert_eq.
    + unfold get_ready. cbn. by rewrite lookup_insert_eq.
    + rewrite <- Hcap1. exact Hle.
  - rewrite set_ready_rejected by lia. split; [apply replaced_state|]. eexists. apply replaced_state.
Qed.

Lemma prepare_ok_ready `{TextLib, HashMapIter, UmfpackLib} capacity (Hcap : forall n, 0 <= capacity n)
    cap now self clk data options c c' pr :
  0 <= cap < USIZE_MAX -> shared_cache capacity cap c ->
  prepare capacity self clk data options c = (c', Ok pr) ->
  exists bm f v,
    build (builder_zero_epsilon self) data = Ok bm
    /\ (factorize (bm_m bm) {| print_level := opt_print_level options |}).1 = Ok f
    /\ (get_ready now c' (factorization_key (model_version data) options)).2
       = Some {| p_factorization := f; p_b := bm_b bm; p_c := bm_c bm; p_validation := v |}
    /\ cache_entry_estimated_bytes (diagnostics pr) <= cap.
Proof.
  intros Hc Hs Hp. pose proof (prepare_outcome capacity cap now self clk data options c Hcap Hc Hs) as Ho.
  cbn zeta in Ho. rewrite Hp in Ho. destruct Ho as (bm & f & v & Hb & Hf & _ & Hg & Hby & Hle).
  exists bm, f, v. split_and!; try done. by rewrite Hby.
Qed.

(** ** Properties *)

(** C38: what [prepare] leaves behind, on every branch.  It never panics and
    never reports a structural validation failure; on success the matrices
    were built and M factorized, the key is [Ready], a lookup returns exactly
    the factorization with B and C, and the model's bytes are within the
    capacity; on a builder error the key is left [Building]; on every other
    error it is [Failed] with a recorded message. *)
Theorem prepare_contract `{TextLib, HashMapIter, UmfpackLib} (capacity : nat -> Z) (cap now : Z)
    (self : SolverService) (clk : nat -> Z) (data : ModelSparseData) (options : NumericOptions)
    (c : CacheInner) :
  (forall n, 0 <= capacity n) -> 0 <= cap < USIZE_MAX -> shared_cache capacity cap c ->
  let key := factorization_key (model_version data) options in
  let '(c', r) := prepare capacity self clk data options c in
  match r with
  | Ok pr => exists bm f v,
      let p := {| p_factorization := f; p_b := bm_b bm; p_c := bm_c bm; p_validation := v |} in
      build (builder_zero_epsilon self) data = Ok bm
      /\ (factorize (bm_m bm) {| print_level := opt_print_level options |}).1 = Ok f
      /\ state c' key = Some Ready /\ (get_ready now c' key).2 = Some p
      /\ cache_entry_estimated_bytes (diagnostics pr) = prepared_owned_bytes capacity p
      /\ prepared_owned_bytes capacity p <= cap
  | Err (SDataBuilder e) =>
      build (builder_zero_epsilon self) data = Err e /\ state c' key = Some Building
  | Err (ValidationFailed _) => False
  | Err _ => state c' key = Some Failed /\ is_Some (error c' key)
  | Panic => False
  end.
Proof. apply prepare_outcome. Qed.

(** C1: end to end.  If [prepare] succeeds, then a demand on the same model
    and options, with nothing in between, is answered by the factorization of
    M = I - A that was prepared: a demand of the wrong length is refused,
    otherwise the activities are UMFPACK's (refined) solution, the inventory
    is [B x] and the impacts are [C (B x)], row by row, as far as requested. *)
Theorem prepare_then_solve `{TextLib, HashMapIter, UmfpackLib} (capacity : nat -> Z) (cap now : Z)
    (self : SolverService) (clk : nat -> Z) (data : ModelSparseData) (options : NumericOptions)
    (c c' : CacheInner) (pr : PrepareResult) (so : SolveOptions) (rhs : list f64) :
  (forall n, 0 <= capacity n) -> 0 <= cap < USIZE_MAX -> shared_cache capacity cap c ->
  prepare capacity self clk data options c = (c', Ok pr) ->
  exists bm f v,
    build (builder_zero_epsilon self) data = Ok bm
    /\ (factorize (bm_m bm) {| print_level := opt_print_level options |}).1 = Ok f
    /\ (solve_one now (model_version data) options rhs so c').2 =
       answer {| p_factorization := f; p_b := bm_b bm; p_c := bm_c bm; p_validation := v |} so rhs.
Proof.
  intros Hcap Hc Hs Hp. destruct (prepare_ok_ready capacity Hcap cap now self clk data options c c' pr)
    as (bm & f & v & Hb & Hf & Hg & _); [done..|].
  exists bm, f, v. split_and!; [done..|].
  rewrite (solve_one_answer _ _ _ _ _ _ _ Hg); [done|]. by eapply built_model_ok.
Qed.

(** C37: serving is safe under interleaving.  In every cache state reachable
    by the operations service calls issue, in any order, a demand never
    panics: it is [NotPrepared] when no model is ready under its key, and
    otherwise the reference answer of the one that is, a model whose matrices
    are well formed and fit together; the call itself keeps the cache in that
    set of states. *)
Theorem solve_one_safe `{TextLib, HashMapIter, UmfpackLib} (capacity : nat -> Z) (cap now : Z)
    (mv : Uuid) (options : NumericOptions) (so : SolveOptions) (rhs : list f64) (c : CacheInner) :
  (forall n, 0 <= capacity n) -> 0 <= cap < USIZE_MAX -> shared_cache capacity cap c ->
  let '(c', r) := solve_one now mv options rhs so c in
  shared_cache capacity cap c' /\ r <> Panic
  /\ match (get_ready now c (factorization_key mv options)).2 with
     | None => r = Err (NotPrepared mv)
     | Some p => model_ok p /\ r = answer p so rhs
     end.
Proof.
  intros Hcap Hc Hs. pose proof (shared_op capacity cap now (OpGet (factorization_key mv options)) c Hs I) as Hs'.
  cbn [apply_op] in Hs'. destruct (get_ready now c _).2 as [p|] eqn:Eg.
  - assert (model_ok p) as Hok.
    { apply get_ready_prepared in Eg as (e & He & Hp).
      by eapply (shared_models capacity Hcap cap c Hc Hs). }
    rewrite (solve_one_answer _ _ _ _ _ _ p) by done. split_and!; [done|by apply answer_no_panic|done..].
  - pose proof (solve_one_missing now mv options rhs so c Eg) as Hm.
    rewrite (surjective_pairing (solve_one now mv options rhs so c)), Hm.
    split_and!; [|done..]. unfold solve_one, solve_one_timed, mbind, svc_bind, ask, lift. cbn beta.
    destruct (get_ready now c _) as [c' o]. simpl in Eg, Hs'. by subst o.
Qed.

(** [solve_batch] answers the demands in order with the same prepared
    model, and stops at the first one that fails, with its error. *)
Theorem solve_batch_in_order `{TextLib, UmfpackLib} (clk : nat -> Z) (mv : Uuid)
    (options : NumericOptions) (so : SolveOptions) (batch : list (list f64)) (c : CacheInner)
    (p : PreparedModel) :
  (get_ready (clk 0%nat) c (factorization_key mv options)).2 = Some p -> model_ok p ->
  (solve_batch clk mv options batch so c).2 =
  (l ← mapR (answer p so) batch; Ok {| items := l |}).
Proof.
  intros Hg Hok. unfold solve_batch, mbind, svc_bind.
  rewrite <- (solve_each_answers clk 0 mv options batch so c p) by done.
  by destruct (solve_each _ _ _ _ _ _ _) as [c' [l|e|]].
Qed.

(** A model whose data the builder rejects stays [Building]: after the
    failed [prepare] its status is [Building], no error is recorded, and every
    later demand is [NotPrepared], although nothing is being built. *)
Theorem builder_error_leaves_building `{TextLib, HashMapIter, UmfpackLib} (capacity : nat -> Z)
    (now : Z) (self : SolverService) (clk : nat -> Z) (data : ModelSparseData)
    (options : NumericOptions) (so : SolveOptions) (rhs : list f64) (c : CacheInner)
    (e : DataBuilderError) :
  build (builder_zero_epsilon self) data = Err e ->
  let '(c', r) := prepare capacity self clk data options c in
  r = Err (SDataBuilder e)
  /\ factorization_status c' (model_version data) options = Some Building
  /\ error c' (factorization_key (model_version data) options) = None
  /\ (solve_one now (model_version data) options rhs so c').2 = Err (NotPrepared (model_version data)).
Proof.
  intros Hb. pose proof (prepare_run capacity self clk data options c) as Hrun. rewrite Hb in Hrun.
  rewrite Hrun. split; [done|]. split; [apply replaced_state|]. split; [apply replaced_state|].
  apply solve_one_missing, get_ready_not_ready. unfold set_building.
  rewrite (proj1 (replaced_state _ _ _ _ _)). done.
Qed.

(** ** Witnesses *)

#[local] Existing Instance example_text.
#[local] Instance example_umfpack : UmfpackLib := upper2 0.

(** Process 1 buys two units of process 0; emissions 2 and 3; factor 10. *)
Definition chain_data : ModelSparseData := {|
  model_version := 7; process_count := 2; flow_count := 1; impact_count := 1;
  technosphere_entries := [mk_sparse 0 1 (f64_of_Z 2)];
  biosphere_entries := [mk_sparse 0 0 (f64_of_Z 2); mk_sparse 0 1 (f64_of_Z 3)];
  characterization_factors := [mk_sparse 0 0 (f64_of_Z 10)];
|}.
Definition example_service : SolverService := (with_cache_policy 10000 (f64_of_Z 2)).1.
Definition prepared_cache : CacheInner :=
  (prepare Z.of_nat example_service Z.of_nat chain_data default_options (with_capacity 10000)).1.

Lemma example_cap : 0 <= 10000 < USIZE_MAX.
Proof. by vm_compute. Qed.

Lemma prepare_contract_witness :
  state prepared_cache (factorization_key 7 default_options) = Some Ready
  /\ (prepare Z.of_nat example_service Z.of_nat chain_data default_options (with_capacity 100)).2
     = Err (WorkloadAdmissionRejected 200 100 (f64_of_Z 2)).
Proof.
  split; [|vm_compute; reflexivity]. unfold prepared_cache.
  pose proof (prepare_contract Z.of_nat 10000 5 example_service Z.of_nat chain_data default_options
    (with_capacity 10000)) as Hc. cbn zeta in Hc.
  assert (is_ok (prepare Z.of_nat example_service Z.of_nat chain_data default_options
    (with_capacity 10000)).2 = true) as Hok by (vm_compute; reflexivity).
  destruct (prepare _ _ _ _ _ _) as [c' [pr|e|]]; [|discriminate Hok..].
  destruct Hc as (bm & f & v & _ & _ & Hst & _); [exact Nat2Z.is_nonneg|exact example_cap|apply shared_new|exact Hst].
Defined.

Lemma prepare_then_solve_witness :
  exists pr r, prepare Z.of_nat example_service Z.of_nat chain_data default_options (with_capacity 10000)
    = (prepared_cache, Ok pr)
  /\ (solve_one 9 7 default_options [f64_zero; f64_one] default_solve_options prepared_cache).2 = Ok r
  /\ sr_x r = Some [f64_of_Z 2; f64_of_Z 1] /\ sr_g r = Some [f64_of_Z 7] /\ sr_h r = Some [f64_of_Z 70].
Proof.
  assert (exists pr, prepare Z.of_nat example_service Z.of_nat chain_data default_options
    (with_capacity 10000) = (prepared_cache, Ok pr)) as [pr Hp].
  { eexists. vm_compute. reflexivity. }
  exists pr.
  pose proof (prepare_then_solve Z.of_nat 10000 9 example_service Z.of_nat chain_data default_options
    (with_capacity 10000) prepared_cache pr default_solve_options [f64_zero; f64_one]
    Nat2Z.is_nonneg example_cap
    (shared_new Z.of_nat 10000) Hp) as (bm & f & v & Hb & Hf & Hs).
  cbn [model_version chain_data] in Hs. rewrite Hs.
  assert (build (builder_zero_epsilon example_service) chain_data = Ok bm) as Hb' by exact Hb.
  vm_compute in Hb'. injection Hb' as <-. vm_compute in Hf. injection Hf as <-.
  eexists. split; [exact Hp|]. clear Hp. split; [vm_compute; reflexivity|].
  split; [vm_compute; reflexivity|]. split; vm_compute; reflexivity.
Defined.

Lemma prepared_shared : shared_cache Z.of_nat 10000 prepared_cache.
Proof. apply prepare_shared; [exact example_cap|apply shared_new]. Qed.

Lemma solve_one_safe_witness :
  (solve_one 9 7 default_options [f64_one] default_solve_options prepared_cache).2
    = Err (RhsDimensionMismatch 1 2)
  /\ (solve_one 9 8 default_options [f64_one] default_solve_options prepared_cache).2
    = Err (NotPrepared 8).
Proof.
  split.
  - pose proof (solve_one_safe Z.of_nat 10000 9 7 default_options default_solve_options [f64_one]
      prepared_cache) as Hs.
    destruct (solve_one _ _ _ _ _ _) as [c' r]. destruct Hs as (_ & _ & Hr);
      [exact Nat2Z.is_nonneg|exact example_cap|apply prepared_shared|].
    assert (exists p, (get_ready 9 prepared_cache (factorization_key 7 default_options)).2 = Some p
      /\ answer p default_solve_options [f64_one] = Err (RhsDimensionMismatch 1 2)) as (p & Hp & Ha).
    { eexists. split; [vm_compute; reflexivity|]. vm_compute. reflexivity. }
    rewrite Hp in Hr. destruct Hr as [_ Hr]. cbn [snd]. rewrite Hr. exact Ha.
  - pose proof (solve_one_safe Z.of_nat 10000 9 8 default_options default_solve_options [f64_one]
      prepared_cache) as Hs.
    destruct (solve_one _ _ _ _ _ _) as [c' r]. destruct Hs as (_ & _ & Hr);
      [exact Nat2Z.is_nonneg|exact example_cap|apply prepared_shared|].
    assert ((get_ready 9 prepared_cache (factorization_key 8 default_options)).2 = None) as Hp
      by (vm_compute; reflexivity).
    rewrite Hp in Hr. exact Hr.
Defined.

Lemma solve_batch_in_order_witness :
  is_ok (solve_batch Z.of_nat 7 default_options [[f64_zero; f64_one]; [f64_one; f64_zero]]
    default_solve_options prepared_cache).2 = true
  /\ (solve_batch Z.of_nat 7 default_options [[f64_zero; f64_one]; []; [f64_one]]
    default_solve_options prepared_cache).2 = Err (RhsDimensionMismatch 0 2).
Proof.
  assert (exists p, (get_ready 0 prepared_cache (factorization_key 7 default_options)).2 = Some p) as [p Hp].
  { eexists. vm_compute. reflexivity. }
  assert (model_ok p) as Hok.
  { apply get_ready_prepared in Hp as (e & He & Hpe).
    refine (shared_models Z.of_nat _ 10000 prepared_cache _ prepared_shared _ e p He Hpe);
      [exact Nat2Z.is_nonneg|exact example_cap]. }
  rewrite !(solve_batch_in_order Z.of_nat 7 default_options default_solve_options _ prepared_cache p)
    by assumption.
  vm_compute in Hp. injection Hp as <-. split; vm_compute; reflexivity.
Defined.

Lemma builder_error_leaves_building_witness :
  let bad := {| model_version := 9; process_count := 0; flow_count := 1; impact_count := 1;
                technosphere_entries := []; biosphere_entries := []; characterization_factors := [] |} in
  factorization_status (prepare Z.of_nat example_service Z.of_nat bad default_options prepared_cache).1
    9 default_options = Some Building.
Proof.
  intros bad.
  pose proof (builder_error_leaves_building Z.of_nat 9 example_service Z.of_nat bad default_options
    default_solve_options [] prepared_cache (BuilderInvalidDimensions 0 1 1)) as Hb.
  destruct (prepare _ _ _ _ _ _) as [c' r]. apply Hb. vm_compute. reflexivity.
Defined.
