(* ===== verification/SignedFlow.v ===== *)
(** * Signed-flow primitives

    Models [crates/solver-worker/src/signed_flow.rs]: the algebraic sign of an
    exchange, the normalization of a quantitative reference to a unit pivot,
    and the resolution of one residual coefficient against reference ports of
    the opposite sign.  Each [ensure!]/[bail!] message is a constructor of
    [SignedFlowError]. *)

From S2P Require Import Prelude F64.

Local Open Scope Z_scope.

Definition SIGNED_FLOW_CLOSURE_TOLERANCE : f64 := f64_of_ratio 1 (10^12).

Inductive SignedFlowDirection := Input | Output.
#[export] Instance SignedFlowDirection_eq_dec : EqDecision SignedFlowDirection.
Proof. solve_decision. Defined.

Definition sign (d : SignedFlowDirection) : f64 :=
  match d with Input => (- f64_one)%f64 | Output => f64_one end.

Inductive TechnosphereBoundaryPolicy := Closed | Open | Cutoff.
#[export] Instance TechnosphereBoundaryPolicy_eq_dec : EqDecision TechnosphereBoundaryPolicy.
Proof. solve_decision. Defined.

Inductive SignedFlowError :=
| UnsupportedBoundaryPolicy (value : string)
| AmountNotFinite
| CoefficientNotFinite
| ReferenceNotFinite
| ReferenceZero
| ReferenceScale
| ResidualNotFinite
| ZeroResidualWithPorts
| ResidualWithoutPorts
| RoutingWeight
| WeightsDoNotClose (weight_sum : f64)
| PortCoefficient
| SameSignPort
| ActivityRequirement
| BalanceDoesNotClose (closure_residual : f64).

Definition policy_parse (value : string) : result SignedFlowError TechnosphereBoundaryPolicy :=
  if decide (value = "closed"%string) then Ok Closed
  else if decide (value = "open"%string) then Ok Open
  else if decide (value = "cutoff"%string) then Ok Cutoff
  else Err (UnsupportedBoundaryPolicy value).

Definition policy_as_str (p : TechnosphereBoundaryPolicy) : string :=
  match p with Closed => "closed" | Open => "open" | Cutoff => "cutoff" end.

Definition requires_closure (p : TechnosphereBoundaryPolicy) : bool :=
  match p with Closed => true | _ => false end.

Record ReferencePivot := { raw_coefficient : f64; scale : f64; coefficient : f64 }.

Record WeightedReferencePort := mk_port { port_coefficient : f64; port_weight : f64 }.

Record BalanceContribution := mk_contribution {
  reference_coefficient : f64;
  routing_weight : f64;
  activity_requirement : f64;
}.

Record SignedFlowBalance := {
  residual_coefficient : f64;
  contributions : list BalanceContribution;
  closure_residual : f64;
}.

Definition signed_coefficient (direction : SignedFlowDirection) (calculation_amount : f64)
    : result SignedFlowError f64 :=
  _ ← ensure (is_finite calculation_amount) AmountNotFinite;
  let coefficient := (sign direction * calculation_amount)%f64 in
  _ ← ensure (is_finite coefficient) CoefficientNotFinite;
  Ok coefficient.

Definition normalize_reference_coefficient (raw : f64) : result SignedFlowError ReferencePivot :=
  _ ← ensure (is_finite raw) ReferenceNotFinite;
  _ ← ensure (negb (raw =? f64_zero)%f64) ReferenceZero;
  let scale := f64_recip (f64_abs raw) in
  let coefficient := f64_signum raw in
  _ ← ensure (is_finite scale && (scale >? f64_zero)%f64) ReferenceScale;
  Ok {| raw_coefficient := raw; scale := scale; coefficient := coefficient |}.

(** The first loop: the sum of the routing weights. *)
Definition add_weight (weight_sum : f64) (port : WeightedReferencePort) : result SignedFlowError f64 :=
  _ ← ensure (is_finite (port_weight port) && (port_weight port >=? f64_zero)%f64) RoutingWeight;
  Ok (weight_sum + port_weight port)%f64.

(** The second loop: one contribution per port, and the balanced sum. *)
Definition add_contribution (residual : f64) (acc : list BalanceContribution * f64)
    (port : WeightedReferencePort) : result SignedFlowError (list BalanceContribution * f64) :=
  let '(contributions, balanced) := acc in
  let reference := port_coefficient port in
  _ ← ensure (is_finite reference && negb (reference =? f64_zero)%f64) PortCoefficient;
  _ ← ensure (negb (residual * reference >=? f64_zero)%f64) SameSignPort;
  let activity := ((- residual / reference) * port_weight port)%f64 in
  _ ← ensure (is_finite activity && (activity >=? f64_zero)%f64) ActivityRequirement;
  Ok (contributions ++ [mk_contribution reference (port_weight port) activity],
      (balanced + reference * activity)%f64).

Definition resolve_weighted_balance (residual : f64) (ports : list WeightedReferencePort)
    : result SignedFlowError SignedFlowBalance :=
  _ ← ensure (is_finite residual) ResidualNotFinite;
  if (residual =? f64_zero)%f64 then
    _ ← ensure (length ports =? 0)%nat ZeroResidualWithPorts;
    Ok {| residual_coefficient := residual; contributions := []; closure_residual := f64_zero |}
  else
    _ ← ensure (negb (length ports =? 0)%nat) ResidualWithoutPorts;
    weight_sum ← foldM add_weight ports f64_zero;
    _ ← ensure (is_finite weight_sum
                && (f64_abs (weight_sum - f64_one) <=? SIGNED_FLOW_CLOSURE_TOLERANCE)%f64)
          (WeightsDoNotClose weight_sum);
    acc ← foldM (add_contribution residual) ports ([], f64_zero);
    let '(contributions, balanced) := acc in
    let closure_residual := (residual + balanced)%f64 in
    let closure_scale := f64_max (f64_abs residual) f64_one in
    _ ← ensure (f64_abs closure_residual <=? SIGNED_FLOW_CLOSURE_TOLERANCE * closure_scale)%f64
          (BalanceDoesNotClose closure_residual);
    Ok {| residual_coefficient := residual; contributions := contributions;
          closure_residual := closure_residual |}.

(** ** What a resolved balance satisfies *)

Definition contribution_of (residual : f64) (port : WeightedReferencePort) : BalanceContribution :=
  mk_contribution (port_coefficient port) (port_weight port)
    ((- residual / port_coefficient port) * port_weight port)%f64.
Definition balanced_sum (cs : list BalanceContribution) (start : f64) : f64 :=
  foldl (fun b c => b + reference_coefficient c * activity_requirement c)%f64 start cs.

(** The conditions the two loops check of a port. *)
Definition port_balances (residual : f64) (port : WeightedReferencePort) : Prop :=
  is_finite (port_weight port) = true /\ (f64_zero <=? port_weight port)%f64 = true
  /\ is_finite (port_coefficient port) = true /\ (port_coefficient port =? f64_zero)%f64 = false
  /\ (f64_zero <=? residual * port_coefficient port)%f64 = false
  /\ let c := contribution_of residual port in
     is_finite (activity_requirement c) = true /\ (f64_zero <=? activity_requirement c)%f64 = true.

Lemma add_weight_ok ports s s' :
  foldM add_weight ports s = Ok s' ->
  s' = foldl (fun s p => s + port_weight p)%f64 s ports
  /\ Forall (fun p => is_finite (port_weight p) = true /\ (f64_zero <=? port_weight p)%f64 = true) ports.
Proof.
  revert s. induction ports as [|p ports IH]; intros s Hs; simpl in Hs; [by inv_result|].
  unfold add_weight at 1 in Hs. destruct (_ && _) eqn:E; [|done]. simpl in Hs. bool_hyps.
  apply IH in Hs as [-> Hall]. split; [done|]. by constructor.
Qed.

Lemma add_contribution_ok residual ports cs b cs' b' :
  foldM (add_contribution residual) ports (cs, b) = Ok (cs', b') ->
  cs' = cs ++ (contribution_of residual <$> ports)
  /\ b' = balanced_sum (contribution_of residual <$> ports) b
  /\ Forall (fun p => is_finite (port_coefficient p) = true /\ (port_coefficient p =? f64_zero)%f64 = false
       /\ (f64_zero <=? residual * port_coefficient p)%f64 = false
       /\ is_finite (activity_requirement (contribution_of residual p)) = true
       /\ (f64_zero <=? activity_requirement (contribution_of residual p))%f64 = true) ports.
Proof.
  revert cs b. induction ports as [|p ports IH]; intros cs b Hs; cbn [foldM] in Hs.
  { inv_result. by rewrite app_nil_r. }
  unfold add_contribution at 1 in Hs.
  destruct (is_finite (port_coefficient p) && _) eqn:E1; [|done]. cbn [ensure mbind result_bind] in Hs.
  destruct (negb (f64_zero <=? residual * port_coefficient p)%f64) eqn:E2; [|done].
  cbn [ensure mbind result_bind] in Hs.
  destruct (is_finite (- residual / port_coefficient p * port_weight p)%f64 && _) eqn:E3; [|done]. cbn [ensure mbind result_bind] in Hs. bool_hyps.
  apply IH in Hs as (-> & -> & Hall). split_and!.
  - by rewrite <- app_assoc.
  - done.
  - by constructor.
Qed.

Lemma resolve_ok_inv residual ports b :
  resolve_weighted_balance residual ports = Ok b -> (residual =? f64_zero)%f64 = false ->
  ports <> [] /\ Forall (port_balances residual) ports
  /\ contributions b = contribution_of residual <$> ports
  /\ closure_residual b = (residual + balanced_sum (contributions b) f64_zero)%f64
  /\ (f64_abs (foldl (fun s p => s + port_weight p) f64_zero ports - f64_one)
        <=? SIGNED_FLOW_CLOSURE_TOLERANCE)%f64 = true
  /\ (f64_abs (closure_residual b)
        <=? SIGNED_FLOW_CLOSURE_TOLERANCE * f64_max (f64_abs residual) f64_one)%f64 = true.
Proof.
  intros Hb Hz. unfold resolve_weighted_balance in Hb. destruct (is_finite residual); [|done].
  cbn [ensure mbind result_bind] in Hb. rewrite Hz in Hb.
  destruct (negb (length ports =? 0)%nat) eqn:El; [|done]. cbn [ensure mbind result_bind] in Hb.
  destruct (foldM add_weight ports f64_zero) as [w|e|] eqn:Ew; cbn [mbind result_bind] in Hb; [|done..].
  destruct (is_finite w && _) eqn:Ec; [|done]. cbn [ensure mbind result_bind] in Hb.
  destruct (foldM (add_contribution residual) ports ([], f64_zero)) as [[cs s]|e|] eqn:Ea;
    cbn [mbind result_bind] in Hb; [|done..].
  destruct (f64_abs (residual + s) <=? _)%f64 eqn:Ef; [|done]. cbn [ensure mbind result_bind] in Hb.
  apply add_weight_ok in Ew as [-> Hw]. apply add_contribution_ok in Ea as (-> & -> & Hc).
  inv_result. cbn [contributions closure_residual]. bool_hyps. split_and!; try done.
  - by intros ->.
  - rewrite Forall_forall in Hw, Hc |- *. intros p Hp. destruct (Hw p Hp), (Hc p Hp) as (?&?&?&?&?).
    by split_and!.
Qed.

Lemma opposite_signs r c :
  is_finite r = true -> is_finite c = true -> (r =? f64_zero)%f64 = false -> (c =? f64_zero)%f64 = false ->
  (f64_zero <=? r * c)%f64 = false -> is_sign_negative r = negb (is_sign_negative c).
Proof.
  destruct r as [[]|[]| |sr mr er], c as [[]|[]| |sc mc ec]; try done. intros _ _ _ _ Hle.
  destruct sr, sc; try done; exfalso; unfold f64_mul in Hle; cbn [SFmul xorb] in Hle;
    rewrite round_sign_nonneg in Hle; done.
Qed.

(** A unit pivot of the sign opposite to [r]. *)
Definition unit_against (r : f64) : f64 := if is_sign_negative r then f64_one else (- f64_one)%f64.

Lemma unit_product_opposite r :
  f64_valid r = true -> is_finite r = true -> (r =? f64_zero)%f64 = false ->
  (r * unit_against r)%f64 = (- f64_abs r)%f64 /\ (- r / unit_against r)%f64 = f64_abs r
  /\ (unit_against r * f64_abs r)%f64 = (- r)%f64.
Proof.
  intros Hv Hf Hz. unfold unit_against.
  assert (f64_valid (f64_abs r) = true) as Hva by by destruct r.
  destruct (is_sign_negative r) eqn:Es.
  - assert (f64_abs r = (- r)%f64) as -> by (destruct r as [[]|[]| |[] m e]; done).
    rewrite f64_mul_one_r, f64_div_one, f64_mul_one_l by (done || by rewrite f64_valid_neg).
    split_and!; try done. by destruct r as [[]|[]| |[] m e].
  - assert (f64_abs r = r) as -> by (destruct r as [[]|[]| |[] m e]; done).
    rewrite f64_mul_comm, f64_mul_neg_one_l, f64_div_neg_one by (done || by rewrite f64_valid_neg).
    split_and!; try done. by destruct r as [[]|[]| |[] m e].
Qed.

(** ** Properties *)

(** For every amount a 64-bit pattern can hold, the signed coefficient is
    the amount itself for an output and its negation for an input, bit for
    bit; only a non-finite amount is refused, so the second check never fires. *)
Theorem signed_coefficient_exact (d : SignedFlowDirection) (amount : f64) :
  f64_valid amount = true ->
  signed_coefficient d amount =
  if is_finite amount
  then Ok (match d with Output => amount | Input => (- amount)%f64 end)
  else Err AmountNotFinite.
Proof.
  intros Hv. unfold signed_coefficient. destruct (is_finite amount) eqn:Ef; [|done].
  destruct d; cbn [sign ensure mbind result_bind].
  - rewrite f64_mul_neg_one_l by done. by rewrite is_finite_neg, Ef.
  - rewrite f64_mul_one_l by done. by rewrite Ef.
Qed.

(** Soundness of the resolution.  A resolved balance of a non-zero
    residual has one contribution per port, in order, with the activity
    [-residual / reference * weight]; every reference is finite, non-zero and
    of the sign opposite to the residual, every weight and every activity is
    finite and non-negative, the weights close to one and the balance closes
    within the tolerance.  A zero residual resolves only to no contributions. *)
Theorem resolve_weighted_balance_sound (residual : f64) (ports : list WeightedReferencePort)
    (b : SignedFlowBalance) :
  resolve_weighted_balance residual ports = Ok b ->
  is_finite residual = true /\ residual_coefficient b = residual
  /\ if (residual =? f64_zero)%f64 then ports = [] /\ contributions b = []
     else ports <> [] /\ contributions b = contribution_of residual <$> ports
       /\ Forall (fun p => port_balances residual p
            /\ is_sign_negative residual = negb (is_sign_negative (port_coefficient p))) ports
       /\ (f64_abs (foldl (fun s p => s + port_weight p) f64_zero ports - f64_one)
             <=? SIGNED_FLOW_CLOSURE_TOLERANCE)%f64 = true
       /\ closure_residual b = (residual + balanced_sum (contributions b) f64_zero)%f64
       /\ (f64_abs (closure_residual b)
             <=? SIGNED_FLOW_CLOSURE_TOLERANCE * f64_max (f64_abs residual) f64_one)%f64 = true.
Proof.
  intros Hb. assert (is_finite residual = true) as Hf.
  { unfold resolve_weighted_balance in Hb. by destruct (is_finite residual). }
  assert (residual_coefficient b = residual) as Hr.
  { unfold resolve_weighted_balance in Hb. rewrite Hf in Hb. cbn [ensure mbind result_bind] in Hb.
    destruct (residual =? f64_zero)%f64.
    - apply bind_ok in Hb as (_ & _ & Hb). by inv_result.
    - apply bind_ok in Hb as (_ & _ & Hb). apply bind_ok in Hb as (w & _ & Hb).
      apply bind_ok in Hb as (_ & _ & Hb). apply bind_ok in Hb as ([cs s] & _ & Hb).
      apply bind_ok in Hb as (_ & _ & Hb). by inv_result. }
  split_and!; [done..|]. destruct (residual =? f64_zero)%f64 eqn:Ez.
  - unfold resolve_weighted_balance in Hb. rewrite Hf, Ez in Hb. cbn [ensure mbind result_bind] in Hb.
    apply bind_ok in Hb as ([] & Hl & Hb). apply ensure_ok, Nat.eqb_eq, length_zero_iff_nil in Hl.
    by inv_result.
  - apply resolve_ok_inv in Hb as (Hne & Hall & Hc & Hcl & Hw & Ht); [|done]. split_and!; try done.
    eapply Forall_impl; [exact Hall|]. intros p Hp. split; [exact Hp|].
    destruct Hp as (_ & _ & Hpf & Hpz & Hop & _). by apply opposite_signs.
Qed.

(** A single provider with a normalized (unit) reference of the opposite
    sign and full weight balances every finite non-zero residual exactly: its
    activity is the absolute residual and the closure residual is zero, with
    no rounding anywhere. *)
Theorem unit_provider_balances_exactly (residual : f64) :
  f64_valid residual = true -> is_finite residual = true -> (residual =? f64_zero)%f64 = false ->
  resolve_weighted_balance residual [mk_port (unit_against residual) f64_one] =
  Ok {| residual_coefficient := residual;
        contributions := [mk_contribution (unit_against residual) f64_one (f64_abs residual)];
        closure_residual := f64_zero |}.
Proof.
  intros Hv Hf Hz. destruct (unit_product_opposite residual) as (H1 & H2 & H3); [done..|].
  unfold resolve_weighted_balance. rewrite Hf, Hz. cbn [ensure mbind result_bind length Nat.eqb negb foldM].
  unfold add_weight. cbn [port_weight]. change (is_finite f64_one && (f64_zero <=? f64_one)%f64) with true.
  cbn [ensure mbind result_bind]. rewrite f64_zero_add by done.
  change (is_finite f64_one && (f64_abs (f64_one - f64_one) <=? SIGNED_FLOW_CLOSURE_TOLERANCE)%f64) with true.
  cbn [ensure mbind result_bind]. unfold add_contribution. cbn [port_coefficient port_weight].
  replace (is_finite (unit_against residual) && _) with true
    by (unfold unit_against; by destruct (is_sign_negative residual)).
  cbn [ensure mbind result_bind]. rewrite H1, H2.
  assert (f64_valid (f64_abs residual) = true) as Hva by by destruct residual.
  rewrite f64_mul_one_r, H3 by done.
  replace (negb (f64_zero <=? - f64_abs residual)%f64) with true
    by (destruct residual as [[]|[]| |[] m e]; done).
  cbn [ensure mbind result_bind].
  replace (is_finite (f64_abs residual) && (f64_zero <=? f64_abs residual)%f64) with true
    by (destruct residual as [[]|[]| |[] m e]; done).
  cbn [ensure mbind result_bind app].
  rewrite f64_zero_add by (rewrite ?is_finite_neg; done || by destruct residual as [[]|[]| |[] m e]).
  rewrite f64_add_opp by done. change (f64_abs f64_zero) with f64_zero.
  rewrite f64_mul_positive; [done|by vm_compute|].
  unfold f64_positive, f64_max. destruct residual as [[]|[]| |s m e]; try done.
  cbn [f64_abs SFabs is_nan]. change (is_nan f64_one) with false. cbn iota.
  destruct (SFltb _ f64_one); [by vm_compute|done].
Qed.

(** Underflow: the product of a tiny residual and a tiny reference of
    opposite signs is a negative zero, which the sign test takes for "not
    negative". *)
Lemma tiny_opposite_port_is_refused :
  resolve_weighted_balance (f64_of_ratio 1 (10^200)) [mk_port (f64_of_ratio (-1) (10^200)) f64_one]
  = Err SameSignPort.
Proof. vm_compute. reflexivity. Qed.

Lemma policy_round_trip p : policy_parse (policy_as_str p) = Ok p.
Proof. by destruct p. Qed.

Lemma signed_coefficient_exact_witness :
  signed_coefficient Input (f64_of_Z 2) = Ok (f64_of_Z (-2))
  /\ signed_coefficient Output f64_nan = Err AmountNotFinite.
Proof. split; rewrite signed_coefficient_exact; vm_compute; reflexivity. Defined.

Lemma resolve_weighted_balance_sound_witness :
  let ports := [mk_port (- f64_one)%f64 (f64_of_ratio 1 4); mk_port (- f64_one)%f64 (f64_of_ratio 3 4)] in
  exists b, resolve_weighted_balance (f64_of_Z 10) ports = Ok b
    /\ contributions b = contribution_of (f64_of_Z 10) <$> ports /\ closure_residual b = f64_zero.
Proof.
  intros ports. eexists. split; [vm_compute; reflexivity|].
  edestruct (resolve_weighted_balance_sound (f64_of_Z 10) ports) as (_ & _ & Hs); [vm_compute; reflexivity|].
  split; [apply Hs|vm_compute; reflexivity].
Defined.

Lemma unit_provider_balances_exactly_witness :
  resolve_weighted_balance (f64_of_ratio 1 3) [mk_port (- f64_one)%f64 f64_one] =
  Ok {| residual_coefficient := f64_of_ratio 1 3;
        contributions := [mk_contribution (- f64_one)%f64 f64_one (f64_of_ratio 1 3)];
        closure_residual := f64_zero |}.
Proof. apply (unit_provider_balances_exactly (f64_of_ratio 1 3)); vm_compute; reflexivity. Defined.
