(* ===== verification/Text.v ===== *)
(** * Text, as Rust's [str] methods treat it

    A [&str] is its UTF-8 bytes, kept as a Rocq [string].  This file holds the
    [str] methods the snapshot builder calls: [trim] (Unicode [White_Space],
    on the encoded bytes), [to_ascii_uppercase], [replace] of one ASCII
    character by another, [contains] and [split] at ASCII characters. *)

From S2P Require Import Prelude.
From Stdlib Require Export Ascii.

Local Open Scope list_scope.

Definition bytes : string -> list ascii := String.list_ascii_of_string.
Definition of_bytes : list ascii -> string := String.string_of_list_ascii.

Lemma bytes_of_bytes l : bytes (of_bytes l) = l.
Proof. apply String.list_ascii_of_string_of_list_ascii. Qed.
Lemma of_bytes_bytes s : of_bytes (bytes s) = s.
Proof. apply String.string_of_list_ascii_of_string. Qed.


Definition byte (n : nat) : ascii := ascii_of_nat n.

(** The code points with the [White_Space] property, encoded. *)
Definition white_space : list (list ascii) :=
  ((fun n => [byte n]) <$> [9; 10; 11; 12; 13; 32])
  ++ ((fun n => byte 194 :: [byte n]) <$> [133; 160])
  ++ [[byte 225; byte 154; byte 128]]
  ++ ((fun n => [byte 226; byte 128; byte n]) <$> [128; 129; 130; 131; 132; 133; 134; 135; 136; 137; 138; 168; 169; 175])
  ++ [[byte 226; byte 129; byte 159]; [byte 227; byte 128; byte 128]].

Fixpoint strip_prefix (p l : list ascii) : option (list ascii) :=
  match p, l with
  | [], _ => Some l
  | a :: p, b :: l => if (a =? b)%char then strip_prefix p l else None
  | _ :: _, [] => None
  end.

Fixpoint strip_any (ps : list (list ascii)) (l : list ascii) : option (list ascii) :=
  match ps with
  | [] => None
  | p :: ps => match strip_prefix p l with Some r => Some r | None => strip_any ps l end
  end.

(** Removes leading occurrences of the patterns; each pattern has at least one
    byte, so the length of the text bounds the number of removals. *)
Fixpoint drop_leading (ps : list (list ascii)) (fuel : nat) (l : list ascii) : list ascii :=
  match fuel with
  | O => l
  | S fuel => match strip_any ps l with Some r => drop_leading ps fuel r | None => l end
  end.

Definition trim_start_bytes (l : list ascii) : list ascii := drop_leading white_space (length l) l.
Definition trim_end_bytes (l : list ascii) : list ascii :=
  reverse (drop_leading (reverse <$> white_space) (length l) (reverse l)).
Definition trim (s : string) : string := of_bytes (trim_end_bytes (trim_start_bytes (bytes s))).

(** [to_ascii_uppercase]. *)
Definition upper_byte (c : ascii) : ascii :=
  let n := nat_of_ascii c in
  if (97 <=? n)%nat && (n <=? 122)%nat then byte (n - 32) else c.
(** [replace(a, b)] on single characters. *)
Definition replace_byte (a b c : ascii) : ascii := if (c =? a)%char then b else c.
Definition is_ascii_alphabetic (c : ascii) : bool :=
  let n := nat_of_ascii c in
  ((65 <=? n) && (n <=? 90) || (97 <=? n) && (n <=? 122))%nat.

Definition map_bytes (f : ascii -> ascii) (s : string) : string := of_bytes (f <$> bytes s).
Definition to_ascii_uppercase : string -> string := map_bytes upper_byte.
Definition replace_char (a b : ascii) : string -> string := map_bytes (replace_byte a b).
Definition contains (c : ascii) (s : string) : bool := existsb (fun d => (d =? c)%char) (bytes s).

(** [s.split(cs).next()]: the text before the first of the separators. *)
Fixpoint first_token (cs : list ascii) (l : list ascii) : list ascii :=
  match l with
  | [] => []
  | c :: l => if existsb (fun d => (d =? c)%char) cs then [] else c :: first_token cs l
  end.

(** [text.replace(c, "")] for one ASCII character. *)
Definition remove_char (c : ascii) (s : string) : string := of_bytes (filter (fun d => d <> c) (bytes s)).

(** [text.strip_suffix(c)]. *)
Definition strip_suffix_char (c : ascii) (s : string) : option string :=
  match reverse (bytes s) with
  | d :: l => if (d =? c)%char then Some (of_bytes (reverse l)) else None
  | [] => None
  end.

(** [text.split_whitespace().next()]. *)
Fixpoint until_white_space (l : list ascii) : list ascii :=
  match l with
  | [] => []
  | c :: r => match strip_any white_space l with Some _ => [] | None => c :: until_white_space r end
  end.
Definition first_word (s : string) : option string :=
  match until_white_space (trim_start_bytes (bytes s)) with
  | [] => None
  | l => Some (of_bytes l)
  end.

(** ** Trimming *)

Lemma strip_prefix_some p l r : strip_prefix p l = Some r <-> l = p ++ r.
Proof.
  revert l. induction p as [|a p IH]; intros l; simpl.
  - split; [intros [= ->]|intros ->]; done.
  - destruct l as [|b l]; [done|]. destruct (Ascii.eqb_spec a b) as [->|Hne].
    + rewrite IH. split; [intros ->|intros [= ->]]; done.
    + split; [done|]. intros [= ->]. done.
Qed.

(** No pattern starts the text. *)
Definition clean (ps : list (list ascii)) (l : list ascii) : Prop := forall p, p ∈ ps -> strip_prefix p l = None.

Lemma strip_any_none ps l : strip_any ps l = None <-> clean ps l.
Proof.
  induction ps as [|p ps IH]; simpl.
  - split; [|done]. intros _ p Hp. by apply elem_of_nil in Hp.
  - destruct (strip_prefix p l) as [r|] eqn:E.
    + split; [done|]. intros Hc. rewrite (Hc p (list_elem_of_here _ _)) in E. done.
    + rewrite IH. split; intros Hc q.
      * intros [->|Hq]%elem_of_cons; [done|by apply Hc].
      * intros Hq. apply Hc. by apply list_elem_of_further.
Qed.

Lemma strip_any_some ps l r : strip_any ps l = Some r -> exists p, p ∈ ps /\ l = p ++ r.
Proof.
  induction ps as [|p ps IH]; simpl; [done|]. destruct (strip_prefix p l) as [r'|] eqn:E.
  - intros [= ->]. apply strip_prefix_some in E. exists p. split; [apply list_elem_of_here|done].
  - intros (q & Hq & ->)%IH. exists q. split; [by apply list_elem_of_further|done].
Qed.

Lemma drop_leading_clean ps fuel l :
  Forall (fun p => p <> []) ps -> (length l <= fuel)%nat -> clean ps (drop_leading ps fuel l).
Proof.
  intros Hne. revert l. induction fuel as [|fuel IH]; intros l Hl; simpl.
  - destruct l; [|simpl in Hl; lia]. intros p Hp. rewrite Forall_forall in Hne. specialize (Hne p Hp). by destruct p.
  - destruct (strip_any ps l) as [r|] eqn:E; [|by apply strip_any_none].
    apply IH. apply strip_any_some in E as (p & Hp & ->). rewrite Forall_forall in Hne. specialize (Hne p Hp).
    rewrite length_app in Hl. destruct p; [done|]. simpl in Hl. lia.
Qed.

Lemma drop_leading_fixed ps fuel l : clean ps l -> drop_leading ps fuel l = l.
Proof. intros Hc. destruct fuel; [done|]. simpl. by rewrite (proj2 (strip_any_none ps l) Hc). Qed.

Lemma drop_leading_suffix ps fuel l : exists k, l = k ++ drop_leading ps fuel l.
Proof.
  revert l. induction fuel as [|fuel IH]; intros l; [by exists []|]. simpl.
  destruct (strip_any ps l) as [r|] eqn:E; [|by exists []].
  apply strip_any_some in E as (p & _ & ->). destruct (IH r) as [k Hk]. exists (p ++ k).
  by rewrite <- app_assoc, <- Hk.
Qed.

(** Cutting the end of a text does not give it a new start. *)
Lemma clean_prefix ps l k : clean ps (l ++ k) -> clean ps l.
Proof.
  intros Hc p Hp. destruct (strip_prefix p l) as [r|] eqn:E; [|done].
  apply strip_prefix_some in E as ->. specialize (Hc p Hp). rewrite <- app_assoc in Hc.
  by rewrite (proj2 (strip_prefix_some p (p ++ (r ++ k)) _) eq_refl) in Hc.
Qed.

Lemma white_space_nonempty : Forall (fun p => p <> []) white_space /\ Forall (fun p => p <> []) (reverse <$> white_space).
Proof. split; repeat constructor; discriminate. Qed.

(** What [trim] returns: no white space at either end. *)
Definition trimmed (l : list ascii) : Prop := clean white_space l /\ clean (reverse <$> white_space) (reverse l).

Lemma trim_trimmed s : trimmed (bytes (trim s)).
Proof.
  unfold trim. rewrite bytes_of_bytes. destruct white_space_nonempty as [H1 H2]. split.
  - pose proof (drop_leading_clean white_space (length (bytes s)) (bytes s) H1 (le_n _)) as Hc.
    unfold trim_end_bytes, trim_start_bytes at 2. fold (trim_start_bytes (bytes s)) in *.
    set (l := trim_start_bytes (bytes s)) in *.
    destruct (drop_leading_suffix (reverse <$> white_space) (length l) (reverse l)) as [k Hk].
    apply (clean_prefix _ _ (reverse k)). rewrite <- reverse_app, <- Hk, reverse_involutive. exact Hc.
  - unfold trim_end_bytes. rewrite reverse_involutive. apply drop_leading_clean; [exact H2|]. by rewrite length_reverse.
Qed.

Lemma trim_fixed s : trimmed (bytes s) -> trim s = s.
Proof.
  intros [H1 H2]. unfold trim, trim_end_bytes, trim_start_bytes. rewrite (drop_leading_fixed _ _ _ H1).
  rewrite (drop_leading_fixed _ _ _ H2), reverse_involutive. apply of_bytes_bytes.
Qed.

Lemma trim_idem s : trim (trim s) = trim s.
Proof. apply trim_fixed, trim_trimmed. Qed.

(** ** Bytewise maps that leave white space alone *)

Definition white_bytes : list ascii := mjoin white_space.
Definition all_bytes : list ascii := byte <$> seq 0 256.

Lemma in_all_bytes c : c ∈ all_bytes.
Proof.
  apply list_elem_of_fmap. exists (nat_of_ascii c). split.
  - unfold byte. by rewrite ascii_nat_embedding.
  - apply elem_of_seq. pose proof (nat_ascii_bounded c). lia.
Qed.

(** [f] maps no byte to or from a byte of an encoded white space. *)
Definition transparent (f : ascii -> ascii) : bool :=
  forallb (fun c => forallb (fun w => Bool.eqb (f c =? w)%char (c =? w)%char) white_bytes) all_bytes.

Lemma transparent_spec f c w : transparent f = true -> w ∈ white_bytes -> f c = w <-> c = w.
Proof.
  intros Ht Hw. unfold transparent in Ht. rewrite forallb_forall in Ht.
  specialize (Ht c (proj1 (list_elem_of_In _ _) (in_all_bytes c))). rewrite forallb_forall in Ht.
  specialize (Ht w (proj1 (list_elem_of_In _ _) Hw)). apply Bool.eqb_prop in Ht.
  destruct (Ascii.eqb_spec (f c) w), (Ascii.eqb_spec c w); done.
Qed.

Lemma strip_prefix_map f p (l : list ascii) :
  transparent f = true -> Forall (fun w => w ∈ white_bytes) p ->
  strip_prefix p (f <$> l) = fmap (M := list) f <$> strip_prefix p l.
Proof.
  intros Ht Hp. revert l. induction Hp as [|w p Hw _ IH]; intros [|c l]; simpl; try done.
  pose proof (transparent_spec f c w Ht Hw) as Hs. rewrite (Ascii.eqb_sym w (f c)), (Ascii.eqb_sym w c).
  destruct (Ascii.eqb_spec (f c) w), (Ascii.eqb_spec c w); [apply IH|tauto|tauto|done].
Qed.

Lemma white_space_bytes p :
  p ∈ white_space \/ p ∈ reverse <$> white_space -> Forall (fun w => w ∈ white_bytes) p.
Proof.
  intros Hp. apply Forall_forall. intros w Hw. unfold white_bytes. apply list_elem_of_join.
  destruct Hp as [Hp|(q & -> & Hq)%list_elem_of_fmap]; [by exists p|]. exists q. by rewrite elem_of_reverse in Hw.
Qed.

Lemma trimmed_map f (l : list ascii) : transparent f = true -> trimmed l -> trimmed (f <$> l).
Proof.
  intros Ht [H1 H2]. split; [|rewrite <- fmap_reverse]; intros p Hp; rewrite strip_prefix_map by eauto using white_space_bytes.
  - by rewrite H1.
  - by rewrite H2.
Qed.

Lemma upper_transparent : transparent upper_byte = true.
Proof. vm_compute. reflexivity. Qed.

Lemma upper_byte_idem c : upper_byte (upper_byte c) = upper_byte c.
Proof.
  assert (forallb (fun c => (upper_byte (upper_byte c) =? upper_byte c)%char) all_bytes = true) as H
    by (vm_compute; reflexivity).
  rewrite forallb_forall in H. apply Ascii.eqb_eq, H, list_elem_of_In, in_all_bytes.
Qed.

(** Checking a fact about every byte. *)
Lemma every_byte (P : ascii -> bool) : forallb P all_bytes = true -> forall c, P c = true.
Proof. intros H c. rewrite forallb_forall in H. apply H, list_elem_of_In, in_all_bytes. Qed.

(** ** Case, search and splitting *)

(** [to_ascii_lowercase], and [eq_ignore_ascii_case]. *)
Definition lower_byte (c : ascii) : ascii :=
  let n := nat_of_ascii c in
  if (65 <=? n)%nat && (n <=? 90)%nat then byte (n + 32) else c.
Definition to_ascii_lowercase : string -> string := map_bytes lower_byte.
Definition eq_ignore_ascii_case (a b : string) : bool := bool_decide (to_ascii_lowercase a = to_ascii_lowercase b).
Definition is_ascii_digit (c : ascii) : bool := let n := nat_of_ascii c in ((48 <=? n) && (n <=? 57))%nat.
Definition is_ascii_hexdigit (c : ascii) : bool :=
  let n := nat_of_ascii c in
  ((48 <=? n) && (n <=? 57) || (65 <=? n) && (n <=? 70) || (97 <=? n) && (n <=? 102))%nat.

(** [starts_with], [ends_with] and [contains] of a [&str]. *)
Definition starts_with_bytes (p l : list ascii) : bool := bool_decide (is_Some (strip_prefix p l)).
Definition starts_with (p s : string) : bool := starts_with_bytes (bytes p) (bytes s).
Definition ends_with (p s : string) : bool := starts_with_bytes (reverse (bytes p)) (reverse (bytes s)).
Fixpoint contains_bytes (p l : list ascii) : bool :=
  starts_with_bytes p l || match l with [] => false | _ :: l => contains_bytes p l end.
Definition contains_str (p s : string) : bool := contains_bytes (bytes p) (bytes s).

(** [split(cs)]: the pieces between the separators, at least one. *)
Fixpoint split_bytes (cs : list ascii) (l : list ascii) : list (list ascii) :=
  match l with
  | [] => [[]]
  | c :: l =>
      if existsb (fun d => (d =? c)%char) cs then [] :: split_bytes cs l
      else match split_bytes cs l with
           | piece :: rest => (c :: piece) :: rest
           | [] => [[c]]
           end
  end.
Definition split_chars (cs : list ascii) (s : string) : list string := of_bytes <$> split_bytes cs (bytes s).

(** [split_whitespace()]: the non-empty pieces between white space; every step
    removes a byte, so the length bounds the steps. *)
Fixpoint words_bytes (fuel : nat) (current : list ascii) (l : list ascii) : list (list ascii) :=
  match fuel, l with
  | S fuel, c :: r =>
      match strip_any white_space l with
      | Some rest => current :: words_bytes fuel [] rest
      | None => words_bytes fuel (current ++ [c]) r
      end
  | _, _ => [current]
  end.
Definition split_whitespace (s : string) : list string :=
  of_bytes <$> filter (fun w => w <> []) (words_bytes (length (bytes s)) [] (bytes s)).

Lemma bytes_length s : length (bytes s) = String.length s.
Proof. unfold bytes. induction s; simpl; congruence. Qed.

Lemma bytes_app a b : bytes (a +:+ b) = bytes a ++ bytes b.
Proof. unfold bytes. induction a as [|c a IH]; simpl; [done|]. by f_equal. Qed.

Lemma bytes_inj a b : bytes a = bytes b -> a = b.
Proof. intros H. rewrite <- (of_bytes_bytes a), <- (of_bytes_bytes b). by f_equal. Qed.

Lemma starts_with_bytes_spec p l : starts_with_bytes p l = true <-> p `prefix_of` l.
Proof.
  unfold starts_with_bytes. rewrite bool_decide_eq_true. split.
  - intros [r Hr]. apply strip_prefix_some in Hr as ->. by exists r.
  - intros [r ->]. exists r. by apply strip_prefix_some.
Qed.

Lemma contains_bytes_spec p l : contains_bytes p l = true <-> exists a b, l = a ++ p ++ b.
Proof.
  induction l as [|c l IH]; simpl; rewrite orb_true_iff, starts_with_bytes_spec.
  - split.
    + intros [[b Hb]|Hf]; [by exists [], b|done].
    + intros (a & b & E). left. destruct a; [by exists b|done].
  - rewrite IH. split.
    + intros [[b Hb]|(a & b & ->)]; [by exists [], b|by exists (c :: a), b].
    + intros ([|d a] & b & E); [left; by exists b|]. injection E as -> ->. right. by exists a, b.
Qed.

(** The pieces contain no separator, and joined again they give the text. *)
Lemma split_bytes_single c l :
  split_bytes [c] l <> [] /\ Forall (fun piece => c ∉ piece) (split_bytes [c] l).
Proof.
  induction l as [|d l [Hne IH]]; simpl.
  - split; [done|]. constructor; [|constructor]. apply not_elem_of_nil.
  - rewrite orb_false_r. destruct (Ascii.eqb_spec c d) as [->|Hcd].
    + split; [done|]. constructor; [apply not_elem_of_nil|done].
    + destruct (split_bytes [c] l) as [|piece rest]; [done|]. split; [done|].
      inversion_clear IH. constructor; [|done]. intros [->|?]%elem_of_cons; done.
Qed.

Lemma split_bytes_app c p l :
  c ∉ p -> split_bytes [c] (p ++ c :: l) = p :: split_bytes [c] l.
Proof.
  induction p as [|d p IH]; intros Hc; simpl; rewrite orb_false_r.
  - by rewrite Ascii.eqb_refl.
  - apply not_elem_of_cons in Hc as [Hd Hp]. destruct (Ascii.eqb_spec c d); [done|]. by rewrite (IH Hp).
Qed.

Lemma split_bytes_none c p : c ∉ p -> split_bytes [c] p = [p].
Proof.
  induction p as [|d p IH]; intros Hc; simpl; [done|]. rewrite orb_false_r.
  apply not_elem_of_cons in Hc as [Hd Hp]. destruct (Ascii.eqb_spec c d); [done|]. by rewrite (IH Hp).
Qed.

Lemma split_bytes_join c l : exists p rest,
  split_bytes [c] l = p :: rest /\ l = p ++ mjoin ((fun q => c :: q) <$> rest).
Proof.
  induction l as [|d l (p & rest & E & ->)]; simpl.
  - by exists [], [].
  - rewrite orb_false_r. destruct (Ascii.eqb_spec c d) as [->|Hcd].
    + exists [], (p :: rest). by rewrite E.
    + rewrite E. by exists (d :: p), rest.
Qed.

Lemma lower_byte_idem c : lower_byte (lower_byte c) = lower_byte c.
Proof. apply Ascii.eqb_eq. revert c. apply every_byte. vm_compute. reflexivity. Qed.

Lemma to_ascii_lowercase_idem s : to_ascii_lowercase (to_ascii_lowercase s) = to_ascii_lowercase s.
Proof.
  unfold to_ascii_lowercase, map_bytes. rewrite bytes_of_bytes, <- list_fmap_compose. f_equal.
  apply list_fmap_ext. intros ? c _. apply lower_byte_idem.
Qed.
