(* ===== verification/Json.v ===== *)
(** * JSON documents and numbers in text

    The [serde_json::Value] the data sets are held in, with the accessors the
    snapshot builder calls on it, and the standard library's [str::parse] at
    [f64] and [i32].  The text of a floating-point [Number] is printed by a
    third-party crate and is an argument where it is needed. *)

From S2P Require Import Prelude F64 Text.
From stdpp Require Import pretty.

Local Open Scope Z_scope.

(** [serde_json::Number]: a [u64], a negative [i64] or a finite [f64]. *)
Inductive Number := PosInt (n : Z) | NegInt (n : Z) | Float (x : f64).

(** [serde_json::Value]; the entries of an object in the order of the map. *)
#[warnings="-register-all"]
Inductive Value :=
| JNull
| JBool (b : bool)
| JNumber (n : Number)
| JString (s : string)
| JArray (items : list Value)
| JObject (map : list (string * Value)).

Definition get (key : string) (v : Value) : option Value :=
  match v with
  | JObject map => snd <$> (snd <$> list_find (fun kv => kv.1 = key) map)
  | _ => None
  end.
Definition as_str (v : Value) : option string := match v with JString s => Some s | _ => None end.
(** [as_object]: the value itself, known to be an object. *)
Definition as_object (v : Value) : option Value := match v with JObject _ => Some v | _ => None end.
Definition is_empty_object (v : Value) : bool := match v with JObject [] => true | _ => false end.
(** [Value::pointer] for a path of object keys. *)
Definition pointer (path : list string) (v : Value) : option Value :=
  foldl (fun acc key => acc ≫= get key) (Some v) path.

(** [Number::as_f64] and [Number::as_i64]. *)
Definition as_f64 (n : Number) : option f64 :=
  match n with PosInt z | NegInt z => Some (f64_of_Z z) | Float x => Some x end.
Definition as_i64 (n : Number) : option Z :=
  match n with
  | PosInt z => if z <=? 2^63 - 1 then Some z else None
  | NegInt z => Some z
  | Float _ => None
  end.
(** [Number]'s [Display]. *)
Definition number_to_string (show_f64 : f64 -> string) (n : Number) : string :=
  match n with PosInt z | NegInt z => pretty z | Float x => show_f64 x end.

(** [text.map(str::trim).filter(|t| !t.is_empty())]. *)
Definition nonempty (s : string) : option string := if decide (s = EmptyString) then None else Some s.
Definition trimmed_text (v : option Value) : option string :=
  (v ≫= as_str) ≫= fun s => nonempty (trim s).

(** ** [str::parse::<f64>] *)

Definition digit_of (c : ascii) : option Z :=
  let n := Z.of_nat (nat_of_ascii c) in
  if (48 <=? n) && (n <=? 57) then Some (n - 48) else None.

Fixpoint take_digits (l : list ascii) : list Z * list ascii :=
  match l with
  | [] => ([], [])
  | c :: r =>
      match digit_of c with
      | Some d => let '(ds, rest) := take_digits r in (d :: ds, rest)
      | None => ([], l)
      end
  end.

Definition digits_value (ds : list Z) : Z := foldl (fun n d => 10 * n + d) 0 ds.

(** The exponent stops growing at 2^16, far beyond any finite value. *)
Definition exponent_value (ds : list Z) : Z :=
  foldl (fun n d => if n <? 65536 then 10 * n + d else n) 0 ds.

Definition split_sign (l : list ascii) : bool * list ascii :=
  match l with
  | c :: r => if (c =? "-")%char then (true, r) else if (c =? "+")%char then (false, r) else (false, l)
  | [] => (false, [])
  end.

(** What follows the digits: nothing, or an exponent and nothing else. *)
Definition parse_exponent (l : list ascii) : option Z :=
  match l with
  | [] => Some 0
  | c :: r =>
      if (upper_byte c =? "E")%char then
        let '(negative, r) := split_sign r in
        match take_digits r with
        | ((_ :: _) as ds, []) => Some (if negative : bool then - exponent_value ds else exponent_value ds)
        | _ => None
        end
      else None
  end.

(** The mantissa and the power of ten of a decimal numeral. *)
Definition parse_decimal (l : list ascii) : option (Z * Z) :=
  let '(int, l) := take_digits l in
  let '(frac, l) := match l with c :: r => if (c =? ".")%char then take_digits r else ([], l) | [] => ([], []) end in
  match int ++ frac with
  | [] => None
  | ds => e ← parse_exponent l; Some (digits_value ds, e - Z.of_nat (length frac))
  end.

(** The binary64 nearest to [m * 10^e]. *)
Definition f64_of_decimal (negative : bool) (m e : Z) : f64 :=
  match m with
  | Zpos p => f64_div (S754_finite negative (p * Z.to_pos (10 ^ Z.max e 0)) 0)
                      (S754_finite false (Z.to_pos (10 ^ Z.max (- e) 0)) 0)
  | _ => S754_zero negative
  end.

Definition parse_inf_nan (negative : bool) (l : list ascii) : option f64 :=
  let word := of_bytes (upper_byte <$> l) in
  if decide (word = "NAN"%string) then Some f64_nan
  else if decide (word = "INF"%string \/ word = "INFINITY"%string) then Some (S754_infinity negative)
  else None.

Definition parse_f64 (s : string) : option f64 :=
  let '(negative, l) := split_sign (bytes s) in
  match l with
  | [] => None
  | _ => match parse_decimal l with
         | Some (m, e) => Some (f64_of_decimal negative m e)
         | None => parse_inf_nan negative l
         end
  end.

(** [str::parse::<i32>]: an optional sign and digits, out of range is an error. *)
Definition parse_i32 (s : string) : option Z :=
  let '(negative, l) := split_sign (bytes s) in
  match take_digits l with
  | ((_ :: _) as ds, []) =>
      let n := if negative : bool then - digits_value ds else digits_value ds in
      if (I32_MIN <=? n) && (n <=? I32_MAX) then Some n else None
  | _ => None
  end.

Lemma parse_f64_examples :
  parse_f64 "1.5e1" = Some (f64_of_Z 15) /\ parse_f64 ".5" = Some (f64_of_ratio 1 2) /\ parse_f64 "." = None
  /\ parse_f64 "-Infinity" = Some (S754_infinity true) /\ parse_f64 "1e" = None /\ parse_f64 "" = None
  /\ parse_f64 "-0" = Some f64_neg_zero /\ parse_f64 "33.333" = Some (f64_of_ratio 33333 1000)
  /\ parse_f64 "1e400" = Some f64_inf /\ parse_f64 "+7." = Some (f64_of_Z 7).
Proof. by vm_compute. Qed.

Lemma parse_i32_examples :
  parse_i32 "2024" = Some 2024 /\ parse_i32 "-7" = Some (-7) /\ parse_i32 "2147483648" = None /\ parse_i32 "-" = None.
Proof. by vm_compute. Qed.

Lemma trimmed_text_spec v s : trimmed_text v = Some s -> s <> EmptyString /\ trim s = s.
Proof.
  unfold trimmed_text. destruct (v ≫= as_str) as [t|]; [|done]. cbn. unfold nonempty.
  case_decide; [done|]. intros [= <-]. split; [done|apply trim_idem].
Qed.
