(* ===== verification/Tidas.v ===== *)
(** * TIDAS allocation semantics

    Models [crates/solver-worker/src/tidas_process_semantics.rs]: how the
    [allocations] declared on the exchanges of a process are read against its
    quantitative reference.  A declared vector must name known, distinct
    targets and close to 100%; legacy shares on the outputs are read as one
    vector for the whole process.  Each [bail!] or [context] message is a
    constructor of [TidasError]; the text of a floating-point identifier is an
    argument ([show_f64]). *)

From S2P Require Import Prelude F64 Text Json.

Local Open Scope string_scope.
Local Open Scope Z_scope.
Local Open Scope list_scope.

Definition ALLOCATION_SUM_TOLERANCE : f64 := f64_of_ratio 10000001 (10^12).

Inductive TidasAllocationResolution :=
| Undeclared
| LegacyEmptyUndeclared
| Explicit (fraction : f64)
| LegacyInferredReference (fraction : f64)
| SparseZero.

Record TidasProcessAllocation := mk_allocation {
  ta_exchanges : list TidasAllocationResolution;
  allocation_target_indices : list nat;
}.

Record ProcessAllocationDeclarations := mk_declarations {
  targets : gset string;
  legacy : list (nat * f64);
}.

Inductive TidasError :=
| InvalidInternalId (id : string)
| ReferenceNotUnique
| ReferenceEmpty
| MixedDeclarations
| UnknownTarget (target : string)
| TargetDirection (target : string)
| LegacyNotOutput
| LegacyMissingId
| LegacySum (sum : f64)
| AllocationsNotObject
| AllocationMissing
| AllocationShape
| EmptyAllocationArray
| EntryNotObject
| InvalidTarget
| AmbiguousTargetless
| TargetlessFractionMissing
| TargetlessReference
| TargetlessNotFull
| DuplicateTarget (target : string)
| FractionMissing
| SumNotFinite
| SumMismatch (sum : f64)
| PercEmpty
| PercSign
| PercNotNumeric
| PercUnrepresentable
| PercType
| PercNotFinite
| PercRange.

(** ** Percentages *)

Definition f64_hundred : f64 := f64_of_Z 100.

Definition parse_tidas_perc (value : Value) : result TidasError f64 :=
  percentage ←
    match value with
    | JString text =>
        let trimmed := trim text in
        _ ← ensure (negb (bool_decide (trimmed = EmptyString))) PercEmpty;
        _ ← ensure (negb (contains "%" trimmed)) PercSign;
        ok_or PercNotNumeric (parse_f64 trimmed)
    | JNumber number => ok_or PercUnrepresentable (as_f64 number)
    | _ => Err PercType
    end;
  _ ← ensure (is_finite percentage) PercNotFinite;
  _ ← ensure ((f64_zero <=? percentage)%f64 && (percentage <=? f64_hundred)%f64) PercRange;
  Ok (percentage / f64_hundred)%f64.

Definition parse_legacy_targetless_full_fraction (value : Value) : result TidasError f64 :=
  if decide (trim <$> as_str value = Some "100%") then Ok f64_one
  else
    fraction ← parse_tidas_perc value;
    _ ← ensure (f64_to_bits fraction =? f64_to_bits f64_one) TargetlessNotFull;
    Ok f64_one.

(** [100 %]-style text without its percent sign. *)
Definition canonical_share (value : Value) : Value :=
  match value with
  | JString text => JString (trim (default (trim text) (strip_suffix_char "%" (trim text))))
  | _ => value
  end.

Definition preferred_calculation_amount_value (exchange : Value) : option Value :=
  match get "resultingAmount" exchange with
  | Some v => Some v
  | None => match get "meanAmount" exchange with Some v => Some v | None => get "meanValue" exchange end
  end.

(** ** Declarations of a process *)

(** The value of [allocations.allocation], if the exchange has the container. *)
Definition declared_allocation (exchange : Value) : result TidasError (option Value) :=
  match get "allocations" exchange with
  | None => Ok None
  | Some container =>
      object ← ok_or AllocationsNotObject (as_object container);
      allocation ← ok_or AllocationMissing (get "allocation" object);
      Ok (Some allocation)
  end.

Definition target_of (entry : Value) : option string :=
  (get "@internalReferenceToCoProduct" entry ≫= as_str) ≫= fun s => nonempty (trim s).

Definition collect_entry (index count : nat) (d : ProcessAllocationDeclarations) (entry : Value)
    : result TidasError ProcessAllocationDeclarations :=
  entry ← ok_or EntryNotObject (as_object entry);
  match get "@internalReferenceToCoProduct" entry with
  | Some _ =>
      target ← ok_or InvalidTarget (target_of entry);
      Ok (mk_declarations ({[target]} ∪ targets d) (legacy d))
  | None =>
      _ ← ensure (count =? 1)%nat AmbiguousTargetless;
      value ← ok_or TargetlessFractionMissing (get "@allocatedFraction" entry);
      share ← parse_tidas_perc (canonical_share value);
      Ok (mk_declarations (targets d) (legacy d ++ [(index, share)]))
  end.

Definition collect_exchange (d : ProcessAllocationDeclarations) (ix : nat * Value)
    : result TidasError ProcessAllocationDeclarations :=
  declared ← declared_allocation ix.2;
  match declared with
  | None => Ok d
  | Some allocation =>
      if is_empty_object allocation then Ok d
      else
        entries ← match allocation with
                  | JObject _ => Ok [allocation]
                  | JArray ((_ :: _) as entries) => Ok entries
                  | _ => Err AllocationShape
                  end;
        foldM (collect_entry ix.1 (length entries)) entries d
  end.

Definition enumerate {A} (l : list A) : list (nat * A) := imap (fun i x => (i, x)) l.

Definition collect_process_allocation_declarations (exchanges : list Value)
    : result TidasError ProcessAllocationDeclarations :=
  foldM collect_exchange (enumerate exchanges) (mk_declarations ∅ []).

(** ** One exchange *)

(** The targets seen, the fraction of the reference, and the sum so far. *)
Record vector_state := mk_vector { seen_targets : gset string; selected_fraction : option f64; fraction_sum : f64 }.

Definition add_fraction (reference : string) (valid : gset string) (s : vector_state) (entry : Value)
    : result TidasError vector_state :=
  entry ← ok_or EntryNotObject (as_object entry);
  target ← ok_or InvalidTarget (target_of entry);
  _ ← ensure (bool_decide (target ∈ valid)) (UnknownTarget target);
  _ ← ensure (negb (bool_decide (target ∈ seen_targets s))) (DuplicateTarget target);
  raw ← ok_or FractionMissing (get "@allocatedFraction" entry);
  fraction ← parse_tidas_perc raw;
  let sum := (fraction_sum s + fraction)%f64 in
  _ ← ensure (is_finite sum) SumNotFinite;
  Ok (mk_vector ({[target]} ∪ seen_targets s)
        (if decide (target = reference) then Some fraction else selected_fraction s) sum).

Definition resolve_vector (reference : string) (valid : gset string) (entries : list Value)
    : result TidasError TidasAllocationResolution :=
  s ← foldM (add_fraction reference valid) entries (mk_vector ∅ None f64_zero);
  _ ← ensure (negb (f64_abs (fraction_sum s - f64_one) >? ALLOCATION_SUM_TOLERANCE)%f64) (SumMismatch (fraction_sum s));
  Ok (match selected_fraction s with Some fraction => Explicit fraction | None => SparseZero end).

Definition resolve_targetless (reference : string) (valid : gset string) (count : nat) (entry : Value)
    : result TidasError TidasAllocationResolution :=
  _ ← ensure ((count =? 1)%nat && bool_decide (reference ∈ valid)) TargetlessReference;
  raw ← ok_or TargetlessFractionMissing (get "@allocatedFraction" entry);
  fraction ← parse_legacy_targetless_full_fraction raw;
  Ok (LegacyInferredReference fraction).

(** A single entry without target is attributed to the reference. *)
Definition resolve_entries (reference : string) (valid : gset string) (count : nat) (entries : list Value)
    : result TidasError TidasAllocationResolution :=
  match entries with
  | [entry] =>
      entry ← ok_or EntryNotObject (as_object entry);
      match get "@internalReferenceToCoProduct" entry with
      | None => resolve_targetless reference valid count entry
      | Some _ => resolve_vector reference valid entries
      end
  | _ => resolve_vector reference valid entries
  end.

Definition resolve_tidas_exchange_allocation (exchange : Value) (reference_internal_id : string)
    (valid_exchange_internal_ids : gset string) (reference_exchange_count : nat)
    : result TidasError TidasAllocationResolution :=
  let reference := trim reference_internal_id in
  _ ← ensure (negb (bool_decide (reference = EmptyString))) ReferenceEmpty;
  declared ← declared_allocation exchange;
  match declared with
  | None => Ok Undeclared
  | Some allocation =>
      if is_empty_object allocation then Ok LegacyEmptyUndeclared
      else
        entries ← match allocation with
                  | JObject _ => Ok [allocation]
                  | JArray [] => Err EmptyAllocationArray
                  | JArray entries => Ok entries
                  | _ => Err AllocationShape
                  end;
        resolve_entries reference valid_exchange_internal_ids reference_exchange_count entries
  end.

(** ** The whole process *)

(** [iter.any(..)] and [iter.find(..)] with a closure that may panic. *)
Fixpoint anyR {E A} (p : A -> result E bool) (l : list A) : result E bool :=
  match l with
  | [] => Ok false
  | x :: l => b ← p x; if b : bool then Ok true else anyR p l
  end.
Fixpoint findR {E A} (p : A -> result E bool) (l : list A) : result E (option A) :=
  match l with
  | [] => Ok None
  | x :: l => b ← p x; if b : bool then Ok (Some x) else findR p l
  end.

(** [exchangeDirection], trimmed. *)
Definition direction_text (exchange : Value) : option string := trim <$> (get "exchangeDirection" exchange ≫= as_str).

Section Process.
Context (show_f64 : f64 -> string).

Definition internal_id_of (exchange : Value) : option string :=
  match get "@dataSetInternalID" exchange with
  | Some (JString id) => Some (trim id)
  | Some (JNumber id) => Some (number_to_string show_f64 id)
  | _ => None
  end.

Definition add_internal_id (all_ids : gset string) (id : string) : result TidasError (gset string) :=
  if decide (id = EmptyString \/ id ∈ all_ids) then Err (InvalidInternalId id) else Ok ({[id]} ∪ all_ids).

Section Exchanges.
Context (exchanges : list Value).

(** [exchanges[index]] is an [Output]. *)
Definition is_output (index : nat) : result TidasError bool :=
  exchange ← expect (exchanges !! index);
  Ok (bool_decide (direction_text exchange = Some "Output")).

Definition is_target (ts : gset string) (id : option string) : bool :=
  match id with Some id => bool_decide (id ∈ ts) | None => false end.

Definition check_target_direction (ts : gset string) (x : option string * Value) : result TidasError unit :=
  let allowed := bool_decide (direction_text x.2 = Some "Input" \/ direction_text x.2 = Some "Output") in
  if is_target ts x.1 && negb allowed
  then id ← expect x.1; Err (TargetDirection id)
  else Ok tt.

Definition target_indices (ts : gset string) (ids : list (option string)) : list nat :=
  fst <$> filter (fun ix => is_target ts ix.2 = true) (enumerate ids).

(** The legacy output shares, read as one vector for the process. *)
Definition legacy_fraction (ids : list (option string)) (reference : string) (l : list (nat * f64))
    : result TidasError f64 :=
  other ← anyR (fun x => b ← is_output x.1; Ok (negb b)) l;
  _ ← ensure (negb other) LegacyNotOutput;
  unnamed ← anyR (fun x => id ← expect (ids !! x.1); Ok (bool_decide (id = None))) l;
  _ ← ensure (negb unnamed) LegacyMissingId;
  let sum := f64_sum (snd <$> l) in
  _ ← ensure (negb (f64_abs (sum - f64_one) >? ALLOCATION_SUM_TOLERANCE)%f64) (LegacySum sum);
  found ← findR (fun x => id ← expect (ids !! x.1); Ok (bool_decide (id = Some reference))) l;
  Ok (match found with Some x => x.2 | None => f64_one end).

Definition resolve_tidas_process_allocations (reference_internal_id : string)
    : result TidasError TidasProcessAllocation :=
  let reference := trim reference_internal_id in
  let ids := internal_id_of <$> exchanges in
  all_ids ← foldM add_internal_id (omap id ids) ∅;
  let reference_count := length (filter (fun id => id = Some reference) ids) in
  _ ← ensure (negb (bool_decide (reference = EmptyString)) && (reference_count =? 1)%nat) ReferenceNotUnique;
  declared ← collect_process_allocation_declarations exchanges;
  let '(mk_declarations targets legacy) := declared in
  _ ← ensure (negb (bool_decide (targets <> ∅) && bool_decide (legacy <> []))) MixedDeclarations;
  _ ← match min_by String.compare (elements (targets ∖ all_ids)) with
      | Some target => Err (UnknownTarget target)
      | None => Ok tt
      end;
  _ ← foldM (fun _ x => check_target_direction targets x) (zip ids exchanges) tt;
  let indices := target_indices targets ids in
  on_output ← anyR (fun x => is_output x.1) legacy;
  if on_output : bool then
    fraction ← legacy_fraction ids reference legacy;
    Ok (mk_allocation (replicate (length exchanges) (Explicit fraction)) indices)
  else
    resolutions ← mapR (fun exchange =>
                     resolve_tidas_exchange_allocation exchange reference all_ids reference_count) exchanges;
    Ok (mk_allocation resolutions indices).
End Exchanges.
End Process.

(** ** What the declarations mean *)

(** A fraction is a percentage between 0 and 100 divided by 100. *)
Definition is_fraction (f : f64) : Prop :=
  exists p, is_finite p = true /\ (f64_zero <=? p)%f64 = true /\ (p <=? f64_hundred)%f64 = true /\ f = (p / f64_hundred)%f64.

(** One entry of a vector declares a share of a target. *)
Definition entry_declares (entry : Value) (share : string * f64) : Prop :=
  (exists map, entry = JObject map) /\ target_of entry = Some share.1 /\
  exists raw, get "@allocatedFraction" entry = Some raw /\ parse_tidas_perc raw = Ok share.2.

Definition sum_of (fs : list f64) : f64 := foldl f64_add f64_zero fs.
Definition closes (sum : f64) : Prop := (f64_abs (sum - f64_one) >? ALLOCATION_SUM_TOLERANCE)%f64 = false.

(** A vector over known, distinct targets that closes to 100%. *)
Record closed_vector (valid : gset string) (entries : list Value) (vector : list (string * f64)) : Prop := {
  cv_entries : Forall2 entry_declares entries vector;
  cv_distinct : NoDup vector.*1;
  cv_known : forall t, t ∈ vector.*1 -> t ∈ valid;
  cv_finite : forall k, is_finite (sum_of (take k vector.*2)) = true;
  cv_closes : closes (sum_of vector.*2);
}.

Definition share_of (reference : string) (vector : list (string * f64)) : TidasAllocationResolution :=
  match (list_to_map vector : gmap string f64) !! reference with
  | Some fraction => Explicit fraction
  | None => SparseZero
  end.

Definition declares (exchange allocation : Value) : Prop :=
  exists map, get "allocations" exchange = Some (JObject map) /\ get "allocation" (JObject map) = Some allocation.

Definition entries_of (allocation : Value) : list Value :=
  match allocation with JArray entries => entries | JObject (_ :: _) => [allocation] | _ => [] end.

(** The entry of a single-entry declaration without a target. *)
Definition targetless (entry : Value) : Prop :=
  (exists map, entry = JObject map) /\ get "@internalReferenceToCoProduct" entry = None.

Inductive allocation_spec (reference : string) (valid : gset string) (count : nat) (exchange : Value)
    : TidasAllocationResolution -> Prop :=
| spec_undeclared :
    get "allocations" exchange = None -> allocation_spec reference valid count exchange Undeclared
| spec_empty :
    declares exchange (JObject []) -> allocation_spec reference valid count exchange LegacyEmptyUndeclared
| spec_full allocation entry raw :
    declares exchange allocation -> entries_of allocation = [entry] -> targetless entry ->
    count = 1%nat -> reference ∈ valid ->
    get "@allocatedFraction" entry = Some raw -> parse_legacy_targetless_full_fraction raw = Ok f64_one ->
    allocation_spec reference valid count exchange (LegacyInferredReference f64_one)
| spec_vector allocation vector :
    declares exchange allocation -> entries_of allocation <> [] ->
    closed_vector valid (entries_of allocation) vector ->
    allocation_spec reference valid count exchange (share_of reference vector).

(** ** Percentages and vectors *)

Lemma parse_tidas_perc_fraction v f : parse_tidas_perc v = Ok f -> is_fraction f.
Proof.
  unfold parse_tidas_perc. intros (p & _ & Hp)%bind_ok.
  apply bind_ok in Hp as ([] & Hfin%ensure_ok & Hp). apply bind_ok in Hp as ([] & Hr%ensure_ok & Hp).
  inv_result. bool_hyps. by exists p.
Qed.

Lemma legacy_full_is_one v f : parse_legacy_targetless_full_fraction v = Ok f -> f = f64_one.
Proof.
  unfold parse_legacy_targetless_full_fraction. case_decide; [by intros [= <-]|].
  intros (p & _ & Hp)%bind_ok. apply bind_ok in Hp as ([] & _ & [= <-]). done.
Qed.

Lemma as_object_ok {E} (e : E) v o : ok_or e (as_object v) = Ok o <-> o = v /\ exists map, v = JObject map.
Proof. destruct v; cbn; (split; [by intros [= <-]; eauto|by intros [-> [? [=]]]]). Qed.

Lemma ok_or_ok {E A} (e : E) (o : option A) a : ok_or e o = Ok a <-> o = Some a.
Proof. destruct o; cbn; split; congruence. Qed.

Lemma declared_allocation_ok exchange d :
  declared_allocation exchange = Ok d <->
  match d with Some allocation => declares exchange allocation | None => get "allocations" exchange = None end.
Proof.
  unfold declared_allocation, declares. destruct (get "allocations" exchange) as [c|].
  - rewrite bind_ok. setoid_rewrite as_object_ok. split.
    + intros (o & [-> [map ->]] & Ho). apply bind_ok in Ho as (a & Ha%ok_or_ok & [= <-]). eauto.
    + destruct d as [a|]; [|done]. intros (map & [= ->] & Ha). exists (JObject map). rewrite Ha. cbn. eauto.
  - destruct d; split; try done. by intros (? & ? & _).
Qed.

Lemma add_fraction_ok reference valid s entry s' :
  add_fraction reference valid s entry = Ok s' <->
  exists t f, entry_declares entry (t, f) /\ t ∈ valid /\ (t ∉ seen_targets s)
    /\ is_finite (fraction_sum s + f)%f64 = true
    /\ s' = mk_vector ({[t]} ∪ seen_targets s) (if decide (t = reference) then Some f else selected_fraction s)
              (fraction_sum s + f)%f64.
Proof.
  unfold add_fraction, entry_declares. split.
  - intros (o & [-> Hobj]%as_object_ok & H)%bind_ok. apply bind_ok in H as (t & Ht%ok_or_ok & H).
    apply bind_ok in H as ([] & Hv%ensure_ok & H). apply bind_ok in H as ([] & Hn%ensure_ok & H).
    apply bind_ok in H as (raw & Hraw%ok_or_ok & H). apply bind_ok in H as (f & Hf & H). cbn zeta in H.
    apply bind_ok in H as ([] & Hfin%ensure_ok & [= <-]).
    exists t, f. apply bool_decide_eq_true in Hv. apply negb_true_iff, bool_decide_eq_false in Hn. eauto 10.
  - intros (t & f & ([map ->] & Ht & raw & Hraw & Hf) & Hv & Hn & Hfin & ->). cbn [fst snd] in Ht, Hf.
    cbn [as_object ok_or mbind result_bind]. rewrite Ht. cbn [ok_or mbind result_bind].
    rewrite (bool_decide_eq_true_2 (t ∈ valid)), (bool_decide_eq_false_2 (t ∈ seen_targets s)) by done.
    cbn [negb ensure mbind result_bind]. rewrite Hraw. cbn [ok_or mbind result_bind]. rewrite Hf.
    cbn [mbind result_bind]. cbn zeta. by rewrite Hfin.
Qed.

Lemma sum_finite_snoc (fs : list f64) f :
  (forall k, is_finite (sum_of (take k fs)) = true) -> is_finite (sum_of (fs ++ [f])) = true ->
  forall k, is_finite (sum_of (take k (fs ++ [f]))) = true.
Proof.
  intros Hfs Hf k. destruct (decide (k <= length fs)%nat) as [Hk|Hk].
  - rewrite take_app_le by done. apply Hfs.
  - by rewrite take_ge by (rewrite length_app; cbn; lia).
Qed.

Lemma sum_finite_prefix (fs gs : list f64) :
  (forall k, is_finite (sum_of (take k (fs ++ gs))) = true) -> forall k, is_finite (sum_of (take k fs)) = true.
Proof.
  intros H k. specialize (H (k `min` length fs)%nat). rewrite take_app_le in H by lia.
  by rewrite <- take_take, (firstn_all fs) in H.
Qed.

Lemma lookup_list_to_map_snoc (v : list (string * f64)) t f reference :
  t ∉ v.*1 ->
  (list_to_map (v ++ [(t, f)]) : gmap string f64) !! reference
  = if decide (t = reference) then Some f else (list_to_map v : gmap string f64) !! reference.
Proof.
  intros Ht. rewrite list_to_map_app, lookup_union. cbn.
  case_decide as Hd.
  - subst. rewrite (not_elem_of_list_to_map_1 v) by done. by rewrite lookup_insert_eq.
  - rewrite lookup_insert_ne by done. by rewrite lookup_empty, (right_id_L None _).
Qed.

(** The loop over the entries reads the vector they declare. *)
Lemma vector_loop reference valid entries s :
  foldM (add_fraction reference valid) entries (mk_vector ∅ None f64_zero) = Ok s <->
  exists vector, Forall2 entry_declares entries vector /\ NoDup vector.*1 /\ (forall t, t ∈ vector.*1 -> t ∈ valid)
    /\ (forall k, is_finite (sum_of (take k vector.*2)) = true)
    /\ s = mk_vector (list_to_set vector.*1) ((list_to_map vector : gmap string f64) !! reference) (sum_of vector.*2).
Proof.
  revert s. induction entries as [|e entries IH] using rev_ind; intros s.
  { cbn [foldM]. split.
    - intros [= <-]. exists []. split_and!; [constructor|constructor|set_solver| |done]. by intros [].
    - intros (vector & Hv & _ & _ & _ & ->). by inversion Hv. }
  rewrite foldM_app, bind_ok. split.
  - intros (s1 & (vector & Hv & Hnd & Hk & Hfin & ->)%IH & Hs). cbn [foldM] in Hs.
    destruct (add_fraction _ _ _ e) as [s2| |] eqn:Ha; [|done|done]. injection Hs as <-.
    apply add_fraction_ok in Ha as (t & f & He & Ht & Hseen & Hf & ->). cbn in Hseen, Hf.
    rewrite elem_of_list_to_set in Hseen. exists (vector ++ [(t, f)]). rewrite !fmap_app. cbn [fmap list_fmap fst snd].
    split_and!.
    + by apply Forall2_app; [|constructor].
    + apply NoDup_app. split_and!; [done|set_solver|apply NoDup_singleton].
    + set_solver.
    + apply sum_finite_snoc; [done|]. unfold sum_of. by rewrite foldl_snoc.
    + cbn [seen_targets selected_fraction fraction_sum]. f_equal.
      * rewrite list_to_set_app_L. set_solver.
      * by rewrite lookup_list_to_map_snoc.
      * unfold sum_of. by rewrite foldl_snoc.
  - intros (vector & Hv & Hnd & Hk & Hfin & ->). apply Forall2_app_inv_l in Hv as (v1 & v2 & Hv1 & Hv2 & ->).
    inversion Hv2 as [|? [t f] ? ? He Hnil]; subst. inversion Hnil; subst.
    rewrite fmap_app in Hnd, Hk. rewrite fmap_app in Hfin. cbn [fmap list_fmap fst snd] in Hnd, Hk, Hfin.
    apply NoDup_app in Hnd as (Hnd & Hnot & _).
    eexists. split.
    + apply IH. exists v1. split_and!; [done|done|set_solver| |reflexivity]. by apply (sum_finite_prefix _ [f]).
    + assert (forall s', s' = mk_vector ({[t]} ∪ list_to_set v1.*1)
                (if decide (t = reference) then Some f else (list_to_map v1 : gmap string f64) !! reference)
                (sum_of v1.*2 + f)%f64 ->
              foldM (add_fraction reference valid) [e]
                (mk_vector (list_to_set v1.*1) ((list_to_map v1 : gmap string f64) !! reference) (sum_of v1.*2)) = Ok s')
        as Hstep.
      { intros s' ->. cbn [foldM]. erewrite (proj2 (add_fraction_ok _ _ _ e _)); [done|].
        exists t, f. split_and!; [done|set_solver|set_solver| |done].
        specialize (Hfin (S (length v1))). rewrite take_ge in Hfin by (rewrite length_app, length_fmap; cbn; lia).
        unfold sum_of in Hfin. by rewrite foldl_snoc in Hfin. }
      apply Hstep. f_equal.
      * rewrite fmap_app, list_to_set_app_L. set_solver.
      * by rewrite lookup_list_to_map_snoc by set_solver.
      * unfold sum_of. rewrite fmap_app. exact (foldl_snoc _ _ _ _).
Qed.

Lemma resolve_vector_ok reference valid entries r :
  resolve_vector reference valid entries = Ok r <->
  exists vector, closed_vector valid entries vector /\ r = share_of reference vector.
Proof.
  unfold resolve_vector. rewrite bind_ok. split.
  - intros (s & (vector & Hv & Hnd & Hk & Hfin & ->)%vector_loop & Hr). cbn [fraction_sum selected_fraction] in Hr.
    apply bind_ok in Hr as ([] & Hc%ensure_ok%negb_true_iff & [= <-]).
    exists vector. split; [constructor; assumption|reflexivity].
  - intros (vector & [Hv Hnd Hk Hfin Hc] & ->). eexists. split.
    + apply vector_loop. exists vector. eauto 10.
    + cbn [fraction_sum selected_fraction]. unfold closes in Hc. by rewrite Hc.
Qed.

Lemma resolve_targetless_ok reference valid count entry r :
  resolve_targetless reference valid count entry = Ok r <->
  count = 1%nat /\ reference ∈ valid /\ r = LegacyInferredReference f64_one /\
  exists raw, get "@allocatedFraction" entry = Some raw /\ parse_legacy_targetless_full_fraction raw = Ok f64_one.
Proof.
  unfold resolve_targetless. rewrite bind_ok. split.
  - intros ([] & Hc%ensure_ok & Hr). apply bind_ok in Hr as (raw & Hraw%ok_or_ok & Hr).
    apply bind_ok in Hr as (f & Hf & [= <-]). apply andb_true_iff in Hc as [Hc Hin].
    apply Nat.eqb_eq in Hc. apply bool_decide_eq_true in Hin. pose proof (legacy_full_is_one _ _ Hf) as ->. eauto 10.
  - intros (-> & Hin & -> & raw & Hraw & Hf). exists tt. rewrite bool_decide_eq_true_2 by done.
    split; [done|]. by rewrite Hraw; cbn; rewrite Hf.
Qed.

(** The two readings exclude each other: an entry of a vector has a target. *)
Lemma vector_has_target valid entry vector : closed_vector valid [entry] vector -> ~ targetless entry.
Proof.
  intros [Hv _ _ _ _] [_ Hnone]. inversion Hv as [|? ? ? ? (_ & Ht & _)]; subst.
  unfold target_of in Ht. by rewrite Hnone in Ht.
Qed.

Lemma resolve_entries_ok reference valid count entries r :
  resolve_entries reference valid count entries = Ok r <->
  (exists e, entries = [e] /\ targetless e /\ resolve_targetless reference valid count e = Ok r)
  \/ resolve_vector reference valid entries = Ok r.
Proof.
  unfold resolve_entries. destruct entries as [|e [|e' entries]];
    [split; [auto|by intros [(? & [=] & _)|H]] | |split; [auto|by intros [(? & [=] & _)|H]]].
  rewrite bind_ok. setoid_rewrite as_object_ok. split.
  - intros (o & [-> Hobj] & Hr). destruct (get _ e) eqn:Ht; [by right|]. left. by exists e.
  - intros [(e' & [= <-] & [Hobj Ht] & Hr)|Hr].
    + exists e. rewrite Ht. eauto.
    + apply resolve_vector_ok in Hr as (vector & Hv & ->). pose proof (vector_has_target _ _ _ Hv) as Hnt.
      pose proof (cv_entries _ _ _ Hv) as Hd. inversion Hd as [|? ? ? ? (Hobj & _)]; subst.
      exists e. split; [done|]. destruct (get "@internalReferenceToCoProduct" e) eqn:Ht.
      * apply resolve_vector_ok. eauto.
      * by destruct Hnt.
Qed.

Lemma resolve_declared reference valid count a entries r :
  entries_of a = entries -> entries <> [] ->
  resolve_entries reference valid count entries = Ok r ->
  (if is_empty_object a then Ok LegacyEmptyUndeclared
   else entries ← match a with
                  | JObject _ => Ok [a]
                  | JArray [] => Err EmptyAllocationArray
                  | JArray entries => Ok entries
                  | _ => Err AllocationShape
                  end; resolve_entries reference valid count entries) = Ok r.
Proof. intros <- Hne Hr. destruct a as [| | | |[]|[]]; cbn in Hne |- *; first [exact Hr|destruct Hne; reflexivity]. Qed.

Lemma exchange_allocation_iff (exchange : Value) (reference : string) (valid : gset string) (count : nat)
    (r : TidasAllocationResolution) :
  trim reference <> EmptyString ->
  resolve_tidas_exchange_allocation exchange reference valid count = Ok r
  <-> allocation_spec (trim reference) valid count exchange r.
Proof.
  intros Hne. unfold resolve_tidas_exchange_allocation. cbn zeta.
  rewrite bool_decide_eq_false_2 by done. cbn [negb ensure mbind result_bind]. rewrite bind_ok. split.
  - intros (d & Hd%declared_allocation_ok & Hr). destruct d as [a|]; [|injection Hr as <-; by constructor].
    destruct (is_empty_object a) eqn:He.
    { destruct a as [| | | | |[]]; try done. injection Hr as <-. by constructor. }
    apply bind_ok in Hr as (entries & Hentries & Hr).
    assert (entries_of a = entries /\ entries <> []) as [Ha Hnil].
    { destruct a as [| | | |[]|[]]; simplify_eq; done. }
    apply resolve_entries_ok in Hr as [(e & -> & Ht & Hr)|Hr].
    + apply resolve_targetless_ok in Hr as (-> & Hin & -> & raw & Hraw & Hf). by eapply spec_full.
    + apply resolve_vector_ok in Hr as (vector & Hv & ->). rewrite <- Ha in Hv, Hnil. by eapply spec_vector.
  - intros [Hd|Hd|a e raw Hd Ha Ht Hc Hin Hraw Hf|a vector Hd Ha Hv].
    + exists None. by rewrite declared_allocation_ok.
    + exists (Some (JObject [])). by rewrite declared_allocation_ok.
    + exists (Some a). rewrite declared_allocation_ok. split; [done|].
      apply (resolve_declared _ _ _ _ [e]); [done|done|]. apply resolve_entries_ok. left. exists e.
      rewrite resolve_targetless_ok. eauto 10.
    + exists (Some a). rewrite declared_allocation_ok. split; [done|].
      apply (resolve_declared _ _ _ _ _ _ eq_refl Ha). apply resolve_entries_ok. right. apply resolve_vector_ok. eauto.
Qed.

(** ** The declarations of a process *)

Definition declared_entries (exchange : Value) : list Value :=
  match declared_allocation exchange with Ok (Some allocation) => entries_of allocation | _ => [] end.
Definition declared_targets (exchange : Value) : list string := omap target_of (declared_entries exchange).

(** The share of an entry without target. *)
Definition declared_share (entry : Value) : option f64 :=
  match get "@internalReferenceToCoProduct" entry, get "@allocatedFraction" entry with
  | None, Some value => match parse_tidas_perc (canonical_share value) with Ok share => Some share | _ => None end
  | _, _ => None
  end.
Definition declared_shares (ix : nat * Value) : list (nat * f64) :=
  pair ix.1 <$> omap declared_share (declared_entries ix.2).

Definition add_declarations (ts : list string) (shares : list (nat * f64)) (d : ProcessAllocationDeclarations) :=
  mk_declarations (list_to_set ts ∪ targets d) (legacy d ++ shares).

Lemma add_declarations_app ts1 ts2 s1 s2 d :
  add_declarations ts2 s2 (add_declarations ts1 s1 d) = add_declarations (ts1 ++ ts2) (s1 ++ s2) d.
Proof. unfold add_declarations. cbn. rewrite list_to_set_app_L, <- app_assoc. f_equal. set_solver. Qed.

Lemma collect_entry_ok index count d entry d' :
  collect_entry index count d entry = Ok d' ->
  d' = add_declarations (omap target_of [entry]) (pair index <$> omap declared_share [entry]) d.
Proof.
  unfold collect_entry. intros (o & [-> _]%as_object_ok & H)%bind_ok.
  unfold add_declarations, omap, list_omap, declared_share.
  destruct (get "@internalReferenceToCoProduct" entry) as [v|] eqn:Hv.
  - apply bind_ok in H as (t & Ht%ok_or_ok & [= <-]). rewrite Ht. cbn. f_equal; [set_solver|by rewrite app_nil_r].
  - apply bind_ok in H as ([] & _ & H). apply bind_ok in H as (v & Hf%ok_or_ok & H).
    apply bind_ok in H as (share & Hs & [= <-]). unfold target_of. rewrite Hv, Hf, Hs. cbn. f_equal. set_solver.
Qed.

(** A loop whose body adds what each element declares adds them all. *)
Lemma collect_loop {A} (f : ProcessAllocationDeclarations -> A -> result TidasError ProcessAllocationDeclarations)
    (ts : A -> list string) (shares : A -> list (nat * f64)) l d d' :
  (forall a c c', a ∈ l -> f c a = Ok c' -> c' = add_declarations (ts a) (shares a) c) ->
  foldM f l d = Ok d' -> d' = add_declarations (l ≫= ts) (l ≫= shares) d.
Proof.
  intros Hf. apply (foldM_ind (fun pre c => c = add_declarations (pre ≫= ts) (pre ≫= shares) d)).
  - destruct d. unfold add_declarations. cbn. f_equal; [set_solver|by rewrite app_nil_r].
  - intros pre a post c c' Hl -> Hc. apply Hf in Hc as ->; [|rewrite Hl; set_solver].
    by rewrite add_declarations_app, !bind_app, !bind_singleton.
Qed.

Lemma bind_omap {A B C} (f : A -> option B) (g : B -> C) (l : list A) :
  (l ≫= fun x => g <$> omap f [x]) = g <$> omap f l.
Proof. induction l as [|x l IH]; [done|]. cbn in *. rewrite IH. by destruct (f x). Qed.

Lemma collect_exchange_ok d ix d' :
  collect_exchange d ix = Ok d' -> d' = add_declarations (declared_targets ix.2) (declared_shares ix) d.
Proof.
  unfold collect_exchange. intros (a & Ha & H)%bind_ok.
  unfold declared_shares, declared_targets, declared_entries. rewrite Ha.
  assert (add_declarations [] [] d = d) as Hid.
  { destruct d. unfold add_declarations. cbn. f_equal; [set_solver|by rewrite app_nil_r]. }
  destruct a as [a|]; [|by injection H as <-].
  destruct (is_empty_object a) eqn:He.
  { destruct a as [| | | | |[]]; try discriminate He. by injection H as <-. }
  apply bind_ok in H as (entries & Hentries & H).
  assert (entries_of a = entries) as ->.
  { destruct a as [| | | |[]|[]]; by simplify_eq/=. }
  apply (collect_loop _ (fun e => omap target_of [e]) (fun e => pair ix.1 <$> omap declared_share [e])) in H as ->.
  - f_equal; [|apply bind_omap]. transitivity (id <$> omap target_of entries); [|by rewrite list_fmap_id].
    rewrite <- bind_omap. apply list_bind_ext; [|done]. intros x. by rewrite list_fmap_id.
  - intros e c c' _. apply collect_entry_ok.
Qed.

Definition legacy_shares (exchanges : list Value) : list (nat * f64) := enumerate exchanges ≫= declared_shares.

Lemma elem_of_enumerate {A} (l : list A) i x : (i, x) ∈ enumerate l <-> l !! i = Some x.
Proof. unfold enumerate. rewrite elem_of_lookup_imap. naive_solver. Qed.

Lemma collect_ok exchanges d :
  collect_process_allocation_declarations exchanges = Ok d ->
  legacy d = legacy_shares exchanges /\
  forall t, t ∈ targets d <-> exists i exchange, exchanges !! i = Some exchange /\ t ∈ declared_targets exchange.
Proof.
  intros H. apply (collect_loop _ (fun ix => declared_targets ix.2) declared_shares) in H as ->.
  - split; [done|]. intros t. cbn. rewrite elem_of_union, elem_of_list_to_set, list_elem_of_bind. split.
    + intros [([i x] & Ht & Hx%elem_of_enumerate)|Ht]; [by exists i, x|set_solver].
    + intros (i & x & Hx%elem_of_enumerate & Ht). left. by exists (i, x).
  - intros ix c c' _. apply collect_exchange_ok.
Qed.

Lemma anyR_total {E A} (p : A -> result E bool) (q : A -> bool) l :
  (forall x, x ∈ l -> p x = Ok (q x)) -> anyR p l = Ok (existsb q l).
Proof.
  induction l as [|x l IH]; intros Hp; [done|]. cbn [anyR existsb]. rewrite Hp by apply list_elem_of_here.
  cbn. destruct (q x); [done|]. apply IH. intros y Hy. apply Hp. by apply list_elem_of_further.
Qed.

Lemma findR_total {E A} (p : A -> result E bool) (q : A -> bool) l :
  (forall x, x ∈ l -> p x = Ok (q x)) -> findR p l = Ok (List.find q l).
Proof.
  induction l as [|x l IH]; intros Hp; [done|]. cbn [findR List.find]. rewrite Hp by apply list_elem_of_here.
  cbn. destruct (q x); [done|]. apply IH. intros y Hy. apply Hp. by apply list_elem_of_further.
Qed.

Lemma existsb_false {A} (q : A -> bool) l : existsb q l = false <-> forall x, x ∈ l -> q x = false.
Proof.
  induction l as [|x l IH]; cbn; [set_solver|]. rewrite orb_false_iff, IH. split.
  - intros [Hx Hl] y [->|Hy]%elem_of_cons; auto.
  - intros H. split; [apply H, list_elem_of_here|]. intros y Hy. apply H. by apply list_elem_of_further.
Qed.

Section ProcessSpec.
Context (show_f64 : f64 -> string) (exchanges : list Value).
Local Abbreviation ids := (internal_id_of show_f64 <$> exchanges).

Definition outputs (index : nat) : bool :=
  match exchanges !! index with
  | Some exchange => bool_decide (direction_text exchange = Some "Output")
  | None => false
  end.
Definition named (reference : option string) (index : nat) : bool :=
  bool_decide (ids !! index = Some reference).

(** The legacy shares of a process form one closed vector over named outputs;
    the fraction is the share of the reference, or one if it declares none. *)
Record legacy_vector (reference : string) (fraction : f64) : Prop := {
  lv_declared : legacy_shares exchanges <> [];
  lv_outputs : forall i share, (i, share) ∈ legacy_shares exchanges ->
    exists exchange, exchanges !! i = Some exchange /\ direction_text exchange = Some "Output"
                     /\ is_Some (internal_id_of show_f64 exchange);
  lv_closes : closes (f64_sum (legacy_shares exchanges).*2);
  lv_reference :
    (exists i, ids !! i = Some (Some reference) /\ (i, fraction) ∈ legacy_shares exchanges)
    \/ fraction = f64_one /\ forall i share, (i, share) ∈ legacy_shares exchanges -> ids !! i <> Some (Some reference);
}.

Lemma legacy_share_index i share :
  (i, share) ∈ legacy_shares exchanges -> exists exchange, exchanges !! i = Some exchange.
Proof.
  unfold legacy_shares. rewrite list_elem_of_bind. intros ([j x] & Hs & Hx%elem_of_enumerate).
  unfold declared_shares in Hs. apply list_elem_of_fmap in Hs as (f & [= -> ->] & _). eauto.
Qed.

Lemma is_output_total x : x ∈ legacy_shares exchanges -> is_output exchanges x.1 = Ok (outputs x.1).
Proof.
  destruct x as [i share]. intros (e & He)%legacy_share_index. unfold is_output, outputs. cbn [fst]. by rewrite He.
Qed.

Lemma named_total reference `{!forall id, Decision (id = reference)} x :
  x ∈ legacy_shares exchanges ->
  (id ← expect (ids !! x.1); Ok (bool_decide (id = reference)) : result TidasError bool) = Ok (named reference x.1).
Proof.
  destruct x as [i share]. intros (e & He)%legacy_share_index. unfold named. cbn [fst].
  rewrite list_lookup_fmap, He. cbn. f_equal. apply bool_decide_ext. split; congruence.
Qed.

Lemma legacy_fraction_total reference :
  legacy_fraction exchanges ids reference (legacy_shares exchanges) <> Panic /\
  forall fraction, existsb (fun x => outputs x.1) (legacy_shares exchanges) = true ->
    legacy_fraction exchanges ids reference (legacy_shares exchanges) = Ok fraction -> legacy_vector reference fraction.
Proof.
  unfold legacy_fraction.
  rewrite (anyR_total (fun x => b ← is_output exchanges x.1; Ok (negb b)) (fun x => negb (outputs x.1))) by (intros x Hx; cbn beta; by rewrite (is_output_total x Hx)).
  rewrite (anyR_total _ (fun x => named None x.1)) by (intros x Hx; by apply named_total).
  rewrite (findR_total _ (fun x => named (Some reference) x.1)) by (intros x Hx; by apply named_total).
  split; [no_panic|]. intros fraction Hany H.
  apply bind_ok in H as (other & [= <-] & H). apply bind_ok in H as ([] & Hout%ensure_ok%negb_true_iff & H).
  apply bind_ok in H as (un & [= <-] & H). apply bind_ok in H as ([] & Hnamed%ensure_ok%negb_true_iff & H).
  cbn zeta in H. apply bind_ok in H as ([] & Hc%ensure_ok%negb_true_iff & H). apply bind_ok in H as (found & [= <-] & [= <-]).
  rewrite existsb_false in Hout. rewrite existsb_false in Hnamed. constructor; [| |exact Hc|]; clear Hc.
  - intros Hnil. rewrite Hnil in Hany. discriminate Hany.
  - intros i share Hin. destruct (legacy_share_index i share Hin) as [e He]. exists e. split; [done|].
    specialize (Hout _ Hin). specialize (Hnamed _ Hin). cbn [fst] in Hout, Hnamed.
    apply negb_false_iff in Hout. unfold outputs in Hout. rewrite He in Hout. apply bool_decide_eq_true in Hout.
    split; [done|]. unfold named in Hnamed. apply bool_decide_eq_false in Hnamed.
    rewrite list_lookup_fmap, He in Hnamed. cbn in Hnamed. by destruct (internal_id_of show_f64 e).
  - destruct (List.find _ _) as [[i share]|] eqn:Hfind.
    + apply List.find_some in Hfind as [Hin Hn]. left. exists i. unfold named in Hn.
      apply bool_decide_eq_true in Hn. split; [done|]. by apply list_elem_of_In.
    + right. split; [done|]. intros i share Hin%list_elem_of_In Hi.
      apply (List.find_none _ _ Hfind) in Hin. unfold named in Hin. cbn [fst] in Hin. by apply bool_decide_eq_false in Hin.
Qed.
End ProcessSpec.

Lemma internal_ids_ok l all :
  foldM add_internal_id l ∅ = Ok all -> NoDup l /\ all = list_to_set l.
Proof.
  apply (foldM_ind (fun pre c => NoDup pre /\ c = list_to_set pre)).
  - split; [constructor|done].
  - intros pre id post c c' _ [Hnd ->]. unfold add_internal_id. case_decide as Hd; [done|]. intros [= <-].
    split; [|rewrite list_to_set_app_L; set_solver]. apply NoDup_app. split_and!; [done| |apply NoDup_singleton].
    intros x Hx ->%list_elem_of_singleton. apply Hd. right. by apply elem_of_list_to_set.
Qed.

Lemma elem_of_target_indices ts ids i :
  i ∈ target_indices ts ids <-> exists id, ids !! i = Some (Some id) /\ id ∈ ts.
Proof.
  unfold target_indices. rewrite list_elem_of_fmap. setoid_rewrite list_elem_of_filter. split.
  - intros ([j [id|]] & -> & Ht & Hin%elem_of_enumerate); [|done]. cbn in Ht. apply bool_decide_eq_true in Ht. eauto.
  - intros (id & Hi & Hid). exists (i, Some id). rewrite elem_of_enumerate. split_and!; [done| |done].
    by apply bool_decide_eq_true.
Qed.

Lemma min_by_none {A} (cmp : A -> A -> comparison) l : min_by cmp l = None -> l = [].
Proof. by destruct l. Qed.

Lemma parse_tidas_perc_no_panic v : parse_tidas_perc v <> Panic.
Proof. unfold parse_tidas_perc. no_panic. Qed.
#[local] Hint Resolve parse_tidas_perc_no_panic : lca.

Lemma collect_no_panic exchanges : collect_process_allocation_declarations exchanges <> Panic.
Proof.
  unfold collect_process_allocation_declarations, collect_exchange, collect_entry, declared_allocation. no_panic.
Qed.

Lemma exchange_allocation_no_panic exchange reference valid count :
  resolve_tidas_exchange_allocation exchange reference valid count <> Panic.
Proof.
  unfold resolve_tidas_exchange_allocation, declared_allocation, resolve_entries, resolve_targetless, resolve_vector,
    parse_legacy_targetless_full_fraction, add_fraction. no_panic.
Qed.
#[local] Hint Resolve collect_no_panic exchange_allocation_no_panic : lca.

Lemma process_allocation_no_panic show_f64 exchanges reference :
  resolve_tidas_process_allocations show_f64 exchanges reference <> Panic.
Proof.
  unfold resolve_tidas_process_allocations. cbn zeta.
  apply bind_no_panic; [unfold add_internal_id; no_panic|]. intros all _.
  apply bind_no_panic; [no_panic|]. intros _ _. apply bind_no_panic; [no_panic|].
  intros [ts l] Hd. apply collect_ok in Hd as [Hl _]. cbn [legacy] in Hl. subst l.
  rewrite (anyR_total (fun x => is_output exchanges x.1) (fun x => outputs exchanges x.1)) by (intros x Hx; by apply is_output_total).
  pose proof (proj1 (legacy_fraction_total show_f64 exchanges (trim reference))) as Hlegacy.
  apply bind_no_panic; [no_panic|]. intros _ _. apply bind_no_panic; [no_panic|]. intros _ _.
  apply bind_no_panic.
  { apply foldM_no_panic. intros [[id|] e] _ _; unfold check_target_direction; cbn; no_panic. }
  intros _ _. no_panic.
Qed.

(** The targets of a process: exchanges named by an allocation entry. *)
Definition is_declared_target (exchanges : list Value) (id : string) : Prop :=
  exists j other, exchanges !! j = Some other /\ id ∈ declared_targets other.

Lemma target_directions show_f64 exchanges ts :
  foldM (fun _ x => check_target_direction ts x) (zip (internal_id_of show_f64 <$> exchanges) exchanges) tt = Ok tt ->
  forall i exchange id, exchanges !! i = Some exchange -> internal_id_of show_f64 exchange = Some id -> id ∈ ts ->
    direction_text exchange = Some "Input" \/ direction_text exchange = Some "Output".
Proof.
  rewrite foldM_unit_ok. intros H i x id Hx Hid Hts.
  assert ((Some id, x) ∈ zip (internal_id_of show_f64 <$> exchanges) exchanges) as Hin%H.
  { apply list_elem_of_lookup. exists i. rewrite lookup_zip_with, list_lookup_fmap, Hx. cbn. by rewrite Hid. }
  unfold check_target_direction in Hin. cbn [fst snd is_target] in Hin. rewrite bool_decide_eq_true_2 in Hin by done.
  by case_bool_decide.
Qed.

Lemma target_indices_spec (ts : gset string) show_f64 exchanges i :
  (forall t, t ∈ ts <-> is_declared_target exchanges t) ->
  (forall i exchange id, exchanges !! i = Some exchange -> internal_id_of show_f64 exchange = Some id -> id ∈ ts ->
    direction_text exchange = Some "Input" \/ direction_text exchange = Some "Output") ->
  (exists id, (internal_id_of show_f64 <$> exchanges) !! i = Some (Some id) /\ id ∈ ts) <->
  exists exchange id, exchanges !! i = Some exchange /\ internal_id_of show_f64 exchange = Some id
    /\ is_declared_target exchanges id
    /\ (direction_text exchange = Some "Input" \/ direction_text exchange = Some "Output").
Proof.
  intros Hts Hdir. rewrite list_lookup_fmap. split.
  - intros (id & Hi & Hid). destruct (exchanges !! i) as [x|] eqn:Hx; [|done]. injection Hi as Hi.
    exists x, id. split_and!; [done|done|by apply Hts|by apply (Hdir i x id)].
  - intros (x & id & -> & Hid & Ht%Hts & _). exists id. cbn. by rewrite Hid.
Qed.

Lemma process_allocation_ok (show_f64 : f64 -> string) (exchanges : list Value) (reference : string) :
  let ids := internal_id_of show_f64 <$> exchanges in
  forall a, resolve_tidas_process_allocations show_f64 exchanges reference = Ok a ->
    NoDup (omap id ids) /\ length (filter (fun id => id = Some (trim reference)) ids) = 1%nat
    /\ length (ta_exchanges a) = length exchanges
    /\ ((exists f, legacy_vector show_f64 exchanges (trim reference) f
                   /\ ta_exchanges a = replicate (length exchanges) (Explicit f))
        \/ Forall2 (allocation_spec (trim reference) (list_to_set (omap id ids)) 1) exchanges (ta_exchanges a))
    /\ forall i, i ∈ allocation_target_indices a <->
         exists exchange id, exchanges !! i = Some exchange /\ internal_id_of show_f64 exchange = Some id
           /\ is_declared_target exchanges id
           /\ (direction_text exchange = Some "Input" \/ direction_text exchange = Some "Output").
Proof.
  intros ids a H.
  unfold resolve_tidas_process_allocations in H. cbn zeta in H. fold ids in H.
  apply bind_ok in H as (all & [Hnd ->]%internal_ids_ok & H).
  apply bind_ok in H as ([] & Href%ensure_ok & H). apply andb_true_iff in Href as [Hne Hone].
  apply negb_true_iff, bool_decide_eq_false in Hne. apply Nat.eqb_eq in Hone.
  apply bind_ok in H as ([ts l] & [Hl Hts]%collect_ok & H). cbn [legacy targets] in Hl, Hts. subst l.
  apply bind_ok in H as ([] & _ & H). apply bind_ok in H as ([] & _ & H).
  apply bind_ok in H as ([] & Hdir & H).
  pose proof (target_directions _ _ _ Hdir) as Hdirs. clear Hdir. fold ids in Hdirs.
  match goal with |- ?goal =>
    assert (forall r, a = mk_allocation r (target_indices ts ids) -> length r = length exchanges ->
      (exists f, legacy_vector show_f64 exchanges (trim reference) f /\ r = replicate (length exchanges) (Explicit f))
        \/ Forall2 (allocation_spec (trim reference) (list_to_set (omap id ids)) 1) exchanges r -> goal) as Hfinish
  end.
  { intros r -> Hlen Hr. split_and!; [exact Hnd|exact Hone|exact Hlen|exact Hr|].
    intros i. cbn [allocation_target_indices]. rewrite elem_of_target_indices. apply (target_indices_spec ts); done. }
  rewrite (anyR_total (fun x => is_output exchanges x.1) (fun x => outputs exchanges x.1)) in H
    by (intros x Hx; by apply is_output_total).
  apply bind_ok in H as (on_output & [= <-] & H). destruct (existsb _ _) eqn:Hany.
  - apply bind_ok in H as (f & Hf & [= <-]). apply (legacy_fraction_total show_f64 exchanges) in Hf; [|done].
    apply (Hfinish _ eq_refl); [apply length_replicate|left; by exists f].
  - apply bind_ok in H as (rs & Hrs%mapR_ok & [= <-]). apply (Hfinish _ eq_refl); [by apply Forall2_length in Hrs|].
    right. apply (Forall2_impl _ _ _ _ Hrs). intros x y Hxy. rewrite Hone in Hxy.
    apply exchange_allocation_iff in Hxy; rewrite ?trim_idem in *; done.
Qed.

(** Every fraction a process resolves to is a percentage of it. *)
Definition resolved_fraction (r : TidasAllocationResolution) : Prop :=
  match r with Explicit f | LegacyInferredReference f => is_fraction f | _ => True end.

Lemma one_is_fraction : is_fraction f64_one.
Proof. exists f64_hundred. by vm_compute. Qed.

Lemma legacy_share_fraction exchanges i f : (i, f) ∈ legacy_shares exchanges -> is_fraction f.
Proof.
  unfold legacy_shares. rewrite list_elem_of_bind. intros ([j x] & Hs & _). unfold declared_shares in Hs.
  apply list_elem_of_fmap in Hs as (g & [= -> ->] & Hg). apply list_elem_of_omap in Hg as (e & _ & He).
  unfold declared_share in He. repeat case_match; simplify_eq. by eapply parse_tidas_perc_fraction.
Qed.

Lemma spec_fraction reference valid count exchange r :
  allocation_spec reference valid count exchange r -> resolved_fraction r.
Proof.
  intros [| |?? ? _ _ _ _ _ _ _|a vector _ _ Hv]; try exact I; [apply one_is_fraction|].
  unfold share_of. destruct (_ !! reference) as [f|] eqn:Hf; [|exact I].
  apply elem_of_list_to_map_2 in Hf. apply list_elem_of_lookup in Hf as [k Hk].
  destruct (Forall2_lookup_r _ _ _ _ _ (cv_entries _ _ _ Hv) Hk) as (e & _ & _ & _ & raw & _ & Hp).
  by eapply parse_tidas_perc_fraction.
Qed.

Lemma process_fractions show_f64 exchanges reference a :
  resolve_tidas_process_allocations show_f64 exchanges reference = Ok a ->
  length (ta_exchanges a) = length exchanges /\ Forall resolved_fraction (ta_exchanges a).
Proof.
  intros H. destruct (process_allocation_ok show_f64 exchanges reference a H) as (_ & _ & Hlen & Hr & _).
  split; [done|]. destruct Hr as [(f & Hl & ->)|Hr].
  - apply Forall_replicate. destruct (lv_reference _ _ _ _ Hl) as [(i & _ & Hi)|[-> _]]; [|apply one_is_fraction].
    by eapply legacy_share_fraction.
  - apply Forall_forall. intros r Hin. apply list_elem_of_lookup in Hin as [k Hk].
    destruct (Forall2_lookup_r _ _ _ _ _ Hr Hk) as (e & _ & Hs). by eapply spec_fraction.
Qed.

(** ** Guarantees *)

(** Reading the allocation of one exchange succeeds exactly on the four
    declared shapes: no declaration, the empty placeholder, one full share
    without target (attributed to the unique reference), or a vector of shares
    over known, distinct targets that closes to 100% within the tolerance, of
    which the share of the reference is returned, zero if it has none. *)
Theorem exchange_allocation_exact (exchange : Value) (reference : string) (valid : gset string) (count : nat)
    (r : TidasAllocationResolution) :
  trim reference <> EmptyString ->
  resolve_tidas_exchange_allocation exchange reference valid count = Ok r
  <-> allocation_spec (trim reference) valid count exchange r.
Proof. apply exchange_allocation_iff. Qed.

(** C10: resolving the allocations of a process never panics.  When it
    succeeds the exchange identifiers are distinct and the reference names
    exactly one exchange; there is one resolution per exchange, and either
    every exchange is given the one legacy share of the reference, or each
    exchange is resolved on its own as specified; the target indices are
    exactly the exchanges some entry allocates to, each an input or output. *)
Theorem process_allocation_sound (show_f64 : f64 -> string) (exchanges : list Value) (reference : string) :
  let ids := internal_id_of show_f64 <$> exchanges in
  resolve_tidas_process_allocations show_f64 exchanges reference <> Panic /\
  forall a, resolve_tidas_process_allocations show_f64 exchanges reference = Ok a ->
    NoDup (omap id ids) /\ length (filter (fun id => id = Some (trim reference)) ids) = 1%nat
    /\ length (ta_exchanges a) = length exchanges
    /\ ((exists f, legacy_vector show_f64 exchanges (trim reference) f
                   /\ ta_exchanges a = replicate (length exchanges) (Explicit f))
        \/ Forall2 (allocation_spec (trim reference) (list_to_set (omap id ids)) 1) exchanges (ta_exchanges a))
    /\ forall i, i ∈ allocation_target_indices a <->
         exists exchange id, exchanges !! i = Some exchange /\ internal_id_of show_f64 exchange = Some id
           /\ is_declared_target exchanges id
           /\ (direction_text exchange = Some "Input" \/ direction_text exchange = Some "Output").
Proof. split; [apply process_allocation_no_panic|apply process_allocation_ok]. Qed.

(** ** Witnesses *)

Definition example_entry (target percent : string) : Value :=
  JObject [("@internalReferenceToCoProduct", JString target); ("@allocatedFraction", JString percent)].
Definition example_exchange (internal_id direction : string) (fields : list (string * Value)) : Value :=
  JObject (("@dataSetInternalID", JString internal_id) :: ("exchangeDirection", JString direction) :: fields).
Definition example_input : Value :=
  example_exchange "2" "Input"
    [("allocations", JObject [("allocation", JArray [example_entry "0" "40"; example_entry "1" "59.999"])])].
Definition example_exchanges : list Value :=
  [example_exchange "0" "Output" []; example_exchange "1" "Output" []; example_input].
(** Legacy shares on two outputs. *)
Definition example_share (percent : string) : list (string * Value) :=
  [("allocations", JObject [("allocation", JObject [("@allocatedFraction", JString percent)])])].
Definition example_legacy : list Value :=
  [example_exchange "0" "Output" (example_share "70 %"); example_exchange "1" "Output" (example_share "30 %");
   example_exchange "2" "Input" []].

Lemma exchange_allocation_exact_witness :
  allocation_spec "0" {["0"; "1"]} 1 example_input (Explicit (f64_of_Z 40 / f64_hundred)%f64).
Proof.
  apply (exchange_allocation_exact example_input "0" {["0"; "1"]} 1); [vm_compute; discriminate|].
  vm_compute. reflexivity.
Defined.

Lemma process_allocation_sound_witness :
  exists a l, resolve_tidas_process_allocations (fun _ => "") example_exchanges "0" = Ok a
    /\ allocation_target_indices a = [0%nat; 1%nat] /\ length (ta_exchanges a) = 3%nat
    /\ resolve_tidas_process_allocations (fun _ => "") example_legacy "0" = Ok l
    /\ ta_exchanges l = replicate 3 (Explicit (f64_of_Z 70 / f64_hundred)%f64).
Proof.
  eexists (mk_allocation _ _), (mk_allocation _ _).
  assert (resolve_tidas_process_allocations (fun _ => "") example_exchanges "0" = Ok (mk_allocation
    [Undeclared; Undeclared; Explicit (f64_of_Z 40 / f64_hundred)%f64] [0%nat; 1%nat])) as Ha
    by (vm_compute; reflexivity).
  split; [exact Ha|]. split; [reflexivity|]. split.
  - exact (proj1 (proj2 (proj2 (proj2 (process_allocation_sound (fun _ => "") example_exchanges "0") _ Ha)))).
  - split; [vm_compute; reflexivity|vm_compute; reflexivity].
Defined.
