(* ===== verification/Location.v ===== *)
(** * Locations, regions and geography tiers

    Models the location part of [bin/snapshot_builder.rs]: the parsed location
    descriptor, the geographic score and the geography tier of a provider for
    a consumer, the anchor region an exchange is supplied from and the time
    score. *)

From S2P Require Import Prelude F64 Text.

Local Open Scope Z_scope.

Inductive CompiledProviderGeographyTier := LocalSubnational | SameCountry | SameRegion | Global | Other.
#[export] Instance CompiledProviderGeographyTier_eq_dec : EqDecision CompiledProviderGeographyTier.
Proof. solve_decision. Defined.

Inductive CompiledProviderSupplyRegionSource := ExchangeLocation | ConsumerProcessLocation | Unspecified.
#[export] Instance CompiledProviderSupplyRegionSource_eq_dec : EqDecision CompiledProviderSupplyRegionSource.
Proof. solve_decision. Defined.

Record LocationDescriptor := {
  canonical : option string;
  country_code : option string;
  region_group : option string;
  is_subnational : bool;
  is_global : bool;
}.

Record SupplyRegionAnchor := mk_anchor {
  anchor_source : CompiledProviderSupplyRegionSource;
  anchor_location : option string;
}.

Definition europe : list string :=
  ["RER"; "EU"; "EU27"; "EU28"; "EFTA"; "WEU"; "EEU"; "AT"; "BE"; "BG"; "CH"; "CY"; "CZ"; "DE"; "DK"; "EE"; "ES";
   "FI"; "FR"; "GB"; "GR"; "HR"; "HU"; "IE"; "IS"; "IT"; "LI"; "LT"; "LU"; "LV"; "MT"; "NL"; "NO"; "PL"; "PT";
   "RO"; "SE"; "SI"; "SK"]%string.
Definition apac : list string :=
  ["APAC"; "RAS"; "SAS"; "EAS"; "OCE"; "CN"; "JP"; "KR"; "IN"; "AU"; "NZ"; "ID"; "TH"; "VN"; "MY"; "SG"; "PH"; "PK";
   "BD"]%string.
Definition north_america : list string := ["RNA"; "NAM"; "US"; "CA"; "MX"]%string.
Definition latam : list string :=
  ["RLA"; "LATAM"; "BR"; "AR"; "CL"; "CO"; "PE"; "UY"; "PY"; "BO"; "EC"; "VE"; "CR"; "GT"; "HN"; "NI"; "SV"; "PA";
   "DO"; "CU"]%string.
Definition africa : list string :=
  ["RAF"; "AFR"; "ZA"; "EG"; "NG"; "KE"; "GH"; "DZ"; "MA"; "TN"; "ET"; "TZ"; "UG"]%string.
Definition middle_east : list string :=
  ["RME"; "MEA"; "AE"; "SA"; "QA"; "KW"; "OM"; "BH"; "IL"; "TR"; "IR"; "IQ"; "JO"; "LB"]%string.

Definition region_group_from_code (code : string) : option string :=
  if decide (code ∈ ["GLO"; "ROW"]%string) then Some "GLOBAL"%string
  else if decide (code ∈ europe) then Some "EUROPE"%string
  else if decide (code ∈ apac) then Some "APAC"%string
  else if decide (code ∈ north_america) then Some "NORTH_AMERICA"%string
  else if decide (code ∈ latam) then Some "LATAM"%string
  else if decide (code ∈ africa) then Some "AFRICA"%string
  else if decide (code ∈ middle_east) then Some "MIDDLE_EAST"%string
  else None.

Definition extract_country_code (location : string) : option string :=
  if decide (location = "GLO"%string) then None
  else
    let token := trim (of_bytes (first_token ["-"; "_"; " "]%char (bytes location))) in
    if (String.length token =? 2)%nat && forallb is_ascii_alphabetic (bytes token) then Some token else None.

Definition no_location : LocationDescriptor :=
  {| canonical := None; country_code := None; region_group := None; is_subnational := false; is_global := false |}.

(** [location.map(trim).filter(non-empty).map(upper, replace)]. *)
Definition canonicalize (location : option string) : option string :=
  location ≫= fun value =>
    let value := trim value in
    if decide (value = EmptyString) then None
    else Some (replace_char "_"%char "-"%char (to_ascii_uppercase value)).

Definition parse_location_descriptor (location : option string) : LocationDescriptor :=
  match canonicalize location with
  | None => no_location
  | Some canon =>
      let code := extract_country_code canon in
      {| canonical := Some canon;
         country_code := code;
         region_group := match region_group_from_code canon with
                         | Some g => Some g
                         | None => code ≫= region_group_from_code
                         end;
         is_subnational := contains "-"%char canon && bool_decide (is_Some code);
         is_global := bool_decide (canon = "GLO"%string) || bool_decide (canon = "ROW"%string) |}
  end.

(** [a.is_some() && a == b]. *)
Definition same_some (a b : option string) : bool := bool_decide (is_Some a) && bool_decide (a = b).

Definition geo_score (consumer_location provider_location : option string) : f64 :=
  let consumer := parse_location_descriptor consumer_location in
  let provider := parse_location_descriptor provider_location in
  if is_subnational consumer && is_subnational provider && same_some (canonical consumer) (canonical provider)
  then f64_one
  else if same_some (country_code consumer) (country_code provider) then f64_of_ratio 85 100
  else if same_some (region_group consumer) (region_group provider) then f64_of_ratio 6 10
  else if is_global provider then f64_of_ratio 4 10
  else f64_of_ratio 1 10.

Definition provider_geography_tier (consumer_location provider_location : option string)
    : CompiledProviderGeographyTier :=
  let consumer := parse_location_descriptor consumer_location in
  let provider := parse_location_descriptor provider_location in
  if is_subnational consumer && is_subnational provider && same_some (canonical consumer) (canonical provider)
  then LocalSubnational
  else if same_some (country_code consumer) (country_code provider) then SameCountry
  else if negb (is_global provider) && same_some (region_group consumer) (region_group provider) then SameRegion
  else if is_global provider then Global
  else Other.

Definition provider_geography_tier_rank (tier : CompiledProviderGeographyTier) : Z :=
  match tier with LocalSubnational => 0 | SameCountry => 1 | SameRegion => 2 | Global => 3 | Other => 4 end.

(** [i32::abs] and [-] in release mode wrap. *)
Definition i32_abs (z : Z) : Z := wrap_i32 (Z.abs z).

Definition time_score (consumer_year provider_year : option Z) : f64 :=
  match consumer_year, provider_year with
  | Some a, Some b =>
      let diff := i32_abs (wrap_i32 (a - b)) in
      if diff <=? 1 then f64_one
      else if diff <=? 3 then f64_of_ratio 85 100
      else if diff <=? 5 then f64_of_ratio 65 100
      else if diff <=? 10 then f64_of_ratio 4 10
      else f64_of_ratio 2 10
  | _, _ => f64_of_ratio 5 10
  end.

Definition location_descriptor_is_usable (d : LocationDescriptor) : bool :=
  is_global d || bool_decide (is_Some (country_code d)) || bool_decide (is_Some (region_group d)).

Definition normalize_usable_supply_region_location (location : option string) : option string :=
  let descriptor := parse_location_descriptor location in
  if location_descriptor_is_usable descriptor then canonical descriptor else None.

Definition resolve_supply_region_anchor (exchange_location consumer_location : option string)
    : SupplyRegionAnchor :=
  match normalize_usable_supply_region_location exchange_location with
  | Some location => mk_anchor ExchangeLocation (Some location)
  | None =>
      match normalize_usable_supply_region_location consumer_location with
      | Some location => mk_anchor ConsumerProcessLocation (Some location)
      | None => mk_anchor Unspecified None
      end
  end.

(** ** The canonical form is stable *)

Definition canonical_byte (c : ascii) : ascii := replace_byte "_"%char "-"%char (upper_byte c).

Lemma canonical_bytes s :
  replace_char "_"%char "-"%char (to_ascii_uppercase s) = map_bytes canonical_byte s.
Proof.
  unfold replace_char, to_ascii_uppercase, map_bytes. rewrite bytes_of_bytes. f_equal.
  by rewrite <- list_fmap_compose.
Qed.

Lemma canonical_byte_idem c : canonical_byte (canonical_byte c) = canonical_byte c.
Proof.
  apply Ascii.eqb_eq. revert c.
  apply (every_byte (fun c => canonical_byte (canonical_byte c) =? canonical_byte c)%char). vm_compute. reflexivity.
Qed.

Lemma canonical_transparent : transparent canonical_byte = true.
Proof. vm_compute. reflexivity. Qed.

Lemma map_canonical_idem s : map_bytes canonical_byte (map_bytes canonical_byte s) = map_bytes canonical_byte s.
Proof.
  unfold map_bytes. rewrite bytes_of_bytes, <- list_fmap_compose. f_equal.
  apply list_fmap_ext. intros _ c _. apply canonical_byte_idem.
Qed.

Lemma canonicalize_idem location : canonicalize (canonicalize location) = canonicalize location.
Proof.
  destruct location as [s|]; [|done]. unfold canonicalize at 2 3. cbn [mbind option_bind].
  destruct (decide (trim s = EmptyString)) as [He|Hne]; [done|]. rewrite canonical_bytes.
  cbn [canonicalize mbind option_bind].
  assert (trim (map_bytes canonical_byte (trim s)) = map_bytes canonical_byte (trim s)) as ->.
  { apply trim_fixed. unfold map_bytes. rewrite bytes_of_bytes.
    apply trimmed_map; [exact canonical_transparent|apply trim_trimmed]. }
  rewrite decide_False.
  - by rewrite canonical_bytes, map_canonical_idem.
  - intros Hm. apply Hne. unfold map_bytes in Hm. apply (f_equal bytes) in Hm. rewrite bytes_of_bytes in Hm.
    apply fmap_nil_inv in Hm. rewrite <- (of_bytes_bytes (trim s)), Hm. done.
Qed.

Lemma canonical_parse location : canonical (parse_location_descriptor location) = canonicalize location.
Proof. unfold parse_location_descriptor. by destruct (canonicalize location). Qed.

Lemma parse_canonical location :
  parse_location_descriptor (canonical (parse_location_descriptor location)) = parse_location_descriptor location.
Proof. unfold parse_location_descriptor at 1 3. by rewrite canonical_parse, canonicalize_idem. Qed.

(** ** Regions *)

Lemma region_global code : region_group_from_code code = Some "GLOBAL"%string <-> code ∈ ["GLO"; "ROW"]%string.
Proof.
  unfold region_group_from_code. destruct (decide (code ∈ ["GLO"; "ROW"]%string)) as [Hg|Hg]; [done|].
  split; [|done]. repeat destruct (decide _); done.
Qed.

Lemma country_code_length s code : extract_country_code s = Some code -> String.length code = 2%nat.
Proof.
  unfold extract_country_code. destruct (decide _); [done|]. destruct (_ && _) eqn:E; [|done].
  intros [= <-]. bool_hyps. by apply Nat.eqb_eq.
Qed.

(** The global region group holds exactly the global locations. *)
Lemma region_group_global location :
  region_group (parse_location_descriptor location) = Some "GLOBAL"%string
  <-> is_global (parse_location_descriptor location) = true.
Proof.
  unfold parse_location_descriptor. destruct (canonicalize location) as [canon|]; [|done]. cbn.
  rewrite orb_true_iff, !bool_decide_eq_true.
  assert (canon ∈ ["GLO"; "ROW"]%string <-> canon = "GLO"%string \/ canon = "ROW"%string) as Hin.
  { rewrite !elem_of_cons, elem_of_nil. tauto. }
  rewrite <- Hin, <- region_global. destruct (region_group_from_code canon) as [g|] eqn:E; [done|].
  split; [|done]. destruct (extract_country_code canon) as [code|] eqn:Ec; [|done]. cbn.
  intros Hcode%region_global. apply country_code_length in Ec.
  rewrite !elem_of_cons, elem_of_nil in Hcode. destruct Hcode as [->|[->|[]]]; done.
Qed.

Lemma global_no_country location :
  is_global (parse_location_descriptor location) = true ->
  country_code (parse_location_descriptor location) = None
  /\ is_subnational (parse_location_descriptor location) = false.
Proof.
  unfold parse_location_descriptor. destruct (canonicalize location) as [canon|]; [|done]. cbn.
  rewrite orb_true_iff, !bool_decide_eq_true. by intros [->| ->].
Qed.

Lemma same_some_true a b : same_some a b = true <-> is_Some a /\ a = b.
Proof. unfold same_some. rewrite andb_true_iff, !bool_decide_eq_true. done. Qed.
Lemma same_some_sym a b : same_some a b = same_some b a.
Proof. apply Bool.eq_iff_eq_true. rewrite !same_some_true. split; intros [? ->]; done. Qed.

(** The score that belongs to each tier. *)
Definition tier_score (tier : CompiledProviderGeographyTier) : f64 :=
  match tier with
  | LocalSubnational => f64_one
  | SameCountry => f64_of_ratio 85 100
  | SameRegion => f64_of_ratio 6 10
  | Global => f64_of_ratio 4 10
  | Other => f64_of_ratio 1 10
  end.

Lemma geo_score_tier consumer provider :
  geo_score consumer provider =
  if is_global (parse_location_descriptor consumer) && is_global (parse_location_descriptor provider)
  then f64_of_ratio 6 10
  else tier_score (provider_geography_tier consumer provider).
Proof.
  unfold geo_score, provider_geography_tier. pose proof (region_group_global consumer) as Hc.
  pose proof (region_group_global provider) as Hp. pose proof (global_no_country consumer) as Hcn.
  pose proof (global_no_country provider) as Hpn.
  destruct (is_global (parse_location_descriptor provider)) eqn:Ep.
  - destruct Hpn as [Hcc Hsub]; [done|]. rewrite Hsub, Hcc, !andb_false_r. cbn [andb negb].
    assert (same_some (country_code (parse_location_descriptor consumer)) None = false) as ->.
    { apply not_true_iff_false. rewrite same_some_true. intros [[? ?] ?]. congruence. }
    destruct (is_global (parse_location_descriptor consumer)) eqn:Ec; cbn [andb].
    + assert (same_some (region_group (parse_location_descriptor consumer))
        (region_group (parse_location_descriptor provider)) = true) as ->; [|done].
      apply same_some_true. rewrite (proj2 Hc eq_refl), (proj2 Hp eq_refl). eauto.
    + assert (same_some (region_group (parse_location_descriptor consumer))
        (region_group (parse_location_descriptor provider)) = false) as ->; [|done].
      apply not_true_iff_false. rewrite same_some_true, (proj2 Hp eq_refl). intros [_ Hg]. by apply Hc in Hg.
  - rewrite andb_false_r. cbn [negb]. rewrite andb_true_l.
    destruct (is_subnational _ && _ && _); [done|]. do 2 (destruct (same_some _ _); [done|]). done.
Qed.

(** The geographic score and the geography tier agree: the score is the one
    of the tier, except between two global locations, which score as one
    region.  Both depend on the locations only through their canonical form,
    so scoring the stored canonical location equals scoring the original. *)
Theorem geo_score_follows_tier (consumer provider : option string) :
  geo_score consumer provider =
    (if is_global (parse_location_descriptor consumer) && is_global (parse_location_descriptor provider)
     then tier_score SameRegion else tier_score (provider_geography_tier consumer provider))
  /\ provider_geography_tier (canonical (parse_location_descriptor consumer)) provider
     = provider_geography_tier consumer provider.
Proof.
  split; [apply geo_score_tier|]. unfold provider_geography_tier. by rewrite parse_canonical.
Qed.

Example subnational_tier : provider_geography_tier (Some " cn_gd ") (Some "CN-GD") = LocalSubnational.
Proof. vm_compute. reflexivity. Qed.
Example global_pair_score : geo_score (Some "GLO") (Some "RoW") = tier_score SameRegion.
Proof. vm_compute. reflexivity. Qed.

(** The distance of the years, when it fits the width. *)
Lemma time_score_distance a b :
  I32_MIN < a - b <= I32_MAX ->
  time_score (Some a) (Some b) =
  let diff := Z.abs (a - b) in
  if diff <=? 1 then f64_one else if diff <=? 3 then f64_of_ratio 85 100
  else if diff <=? 5 then f64_of_ratio 65 100 else if diff <=? 10 then f64_of_ratio 4 10 else f64_of_ratio 2 10.
Proof.
  unfold I32_MIN, I32_MAX. intros Hr. unfold time_score, i32_abs.
  rewrite (wrap_i32_small (a - b)) by (unfold I32_MIN, I32_MAX; lia).
  by rewrite wrap_i32_small by (unfold I32_MIN, I32_MAX; lia).
Qed.
