(* ===== verification/ProviderLink.v ===== *)
(** * Choosing the providers of an exchange

    Models the provider selection of [bin/snapshot_builder.rs]: the process
    metadata and parsed exchanges it works on, the preference for providers of
    the same life-cycle model, the evidence score, the split by production
    volume, and [resolve_multi_provider] with its six rules. *)

From S2P Require Import Prelude F64 Text Location.

Local Open Scope Z_scope.

(** A 128-bit identifier, as its number. *)
Abbreviation Uuid := Z (only parsing).

Record ProcessMeta := {
  meta_process_idx : Z;
  meta_process_id : Uuid;
  meta_process_version : string;
  meta_process_name : option string;
  meta_model_id : option Uuid;
  meta_model_version : option string;
  meta_location : option string;
  meta_reference_year : option Z;
  meta_volume : option f64;
}.

Inductive AllocationFractionState := Present | SparseZero | Missing | Invalid.
#[export] Instance AllocationFractionState_eq_dec : EqDecision AllocationFractionState.
Proof. solve_decision. Defined.

Inductive ExchangeDirection := DirInput | DirOutput.
#[export] Instance ExchangeDirection_eq_dec : EqDecision ExchangeDirection.
Proof. solve_decision. Defined.

Record ParsedExchange := {
  x_process_idx : Z;
  x_flow_id : Uuid;
  x_direction : option ExchangeDirection;
  x_direction_label : string;
  x_internal_id : option string;
  x_exchange_id : string;
  x_flow_version : string;
  x_is_reference : bool;
  x_raw_amount : option f64;
  x_signed_raw_coefficient : option f64;
  x_amount : option f64;
  x_allocation_state : AllocationFractionState;
  x_allocation_fraction : f64;
  x_allocation_target : string;
  x_location : option string;
}.

Inductive ProviderRule :=
| StrictUniqueProvider
| BestProviderStrict
| SplitByProcessVolume
| SplitByEvidenceStrict
| SplitByEvidenceHybrid
| SplitEqual.

Inductive CompiledProviderResolutionStrategy :=
| UniqueProvider
| SelectedModelResult
| StrategyBestProviderStrict
| StrategySplitByEvidence
| StrategySplitByProcessVolume
| StrategySplitEqual
| StrategySplitEqualFallback.

Inductive CompiledProviderFailureReason :=
| NoProviderCandidates
| RejectedNonReferenceOnly
| RuleRequiresUniqueProvider
| NoCandidateGeMinScore
| Top1BelowTop1MinScore
| Top1Top2RatioTooClose
| ScoreSumNonPositive
| NoOppositeSignReference
| FailureLineageOverlapRequiresBinding.
#[export] Instance CompiledProviderFailureReason_eq_dec : EqDecision CompiledProviderFailureReason.
Proof. solve_decision. Defined.

Record MultiProviderResolution := {
  allocations : list (Z * f64);
  resolution_strategy : CompiledProviderResolutionStrategy;
  used_equal_fallback : bool;
  volume_fallback_to_one_count : Z;
  geography_tier : option CompiledProviderGeographyTier;
}.

Inductive MultiProviderDecision :=
| Resolved (r : MultiProviderResolution)
| Unresolved (reason : CompiledProviderFailureReason).

Record ProviderCandidateScore := {
  sc_provider_idx : Z;
  sc_provider_id : Uuid;
  sc_geo : f64;
  sc_time : f64;
  sc_final : f64;
}.

Inductive LinkError :=
| MissingConsumerMeta (idx : Z)
| MissingProviderMeta (idx : Z)
| EmptyProviderCandidates
| VolumeWeightSum
| VolumeFallbackCountOverflow.

Definition AUTO_LINK_GEO_WEIGHT : f64 := f64_of_ratio 7 10.
Definition AUTO_LINK_TIME_WEIGHT : f64 := f64_of_ratio 3 10.
Definition AUTO_LINK_MIN_SCORE : f64 := f64_of_ratio 35 100.
Definition AUTO_LINK_TOP1_MIN_SCORE : f64 := f64_of_ratio 55 100.
Definition AUTO_LINK_TOP1_TOP2_MIN_RATIO : f64 := f64_of_ratio 12 10.

Section Link.
Context (process_meta : list ProcessMeta).

Definition process_meta_for_idx (process_idx : Z) : option ProcessMeta :=
  usize_of_i32 process_idx ≫= fun idx => process_meta !! idx.

Definition consumer_meta (idx : Z) : result LinkError ProcessMeta :=
  ok_or (MissingConsumerMeta idx) (process_meta_for_idx idx).
Definition provider_meta (idx : Z) : result LinkError ProcessMeta :=
  ok_or (MissingProviderMeta idx) (process_meta_for_idx idx).

Definition supply_region_anchor_for_exchange (exchange : ParsedExchange) : result LinkError SupplyRegionAnchor :=
  consumer ← consumer_meta (x_process_idx exchange);
  Ok (resolve_supply_region_anchor (x_location exchange) (meta_location consumer)).

Definition push_same_model (consumer_model_id : Uuid) (same_model : list Z) (provider_idx : Z)
    : result LinkError (list Z) :=
  provider ← provider_meta provider_idx;
  Ok (if decide (meta_model_id provider = Some consumer_model_id) then same_model ++ [provider_idx] else same_model).

Definition same_model_preferred_provider_indices (consumer_idx : Z) (providers : list Z)
    : result LinkError (list Z) :=
  consumer ← consumer_meta consumer_idx;
  match meta_model_id consumer with
  | None => Ok providers
  | Some consumer_model_id =>
      same_model ← foldM (push_same_model consumer_model_id) providers [];
      Ok (match same_model with [] => providers | _ => same_model end)
  end.

Definition score_provider (consumer : ProcessMeta) (anchor : SupplyRegionAnchor) (provider_idx : Z)
    : result LinkError ProviderCandidateScore :=
  provider ← provider_meta provider_idx;
  let geo := geo_score (anchor_location anchor) (meta_location provider) in
  let time := time_score (meta_reference_year consumer) (meta_reference_year provider) in
  Ok {| sc_provider_idx := provider_idx;
        sc_provider_id := meta_process_id provider;
        sc_geo := geo;
        sc_time := time;
        sc_final := (AUTO_LINK_GEO_WEIGHT * geo + AUTO_LINK_TIME_WEIGHT * time)%f64 |}.

Definition score_cmp : ProviderCandidateScore -> ProviderCandidateScore -> comparison :=
  cmp_then (cmp_rev (cmp_by sc_final total_cmp))
    (cmp_then (cmp_rev (cmp_by sc_geo total_cmp))
      (cmp_then (cmp_rev (cmp_by sc_time total_cmp)) (cmp_by sc_provider_id Z.compare))).

Definition score_provider_candidates (consumer_idx : Z) (exchange_location : option string) (providers : list Z)
    : result LinkError (list ProviderCandidateScore) :=
  consumer ← consumer_meta consumer_idx;
  let anchor := resolve_supply_region_anchor exchange_location (meta_location consumer) in
  candidate_indices ← same_model_preferred_provider_indices consumer_idx providers;
  scored ← mapR (score_provider consumer anchor) candidate_indices;
  Ok (sort_by score_cmp scored).

Definition provider_volume_raw_weight (provider : ProcessMeta) : f64 * bool :=
  match meta_volume provider with
  | Some value => if is_finite value && (value >? f64_zero)%f64 then (value, false) else (f64_one, true)
  | None => (f64_one, true)
  end.

Definition tier_of_provider (anchor : SupplyRegionAnchor) (provider_idx : Z)
    : result LinkError (Z * CompiledProviderGeographyTier) :=
  provider ← provider_meta provider_idx;
  Ok (provider_idx, provider_geography_tier (anchor_location anchor) (meta_location provider)).

Definition raw_weight_of (provider_idx : Z) : result LinkError (Z * f64 * bool) :=
  provider ← provider_meta provider_idx;
  let '(raw_weight, used_fallback_to_one) := provider_volume_raw_weight provider in
  Ok (provider_idx, raw_weight, used_fallback_to_one).

Definition split_by_process_volume (exchange : ParsedExchange) (providers : list Z)
    : result LinkError MultiProviderResolution :=
  anchor ← supply_region_anchor_for_exchange exchange;
  providers ← same_model_preferred_provider_indices (x_process_idx exchange) providers;
  tiered ← mapR (tier_of_provider anchor) providers;
  selected_tier ← ok_or EmptyProviderCandidates
    (min_by (cmp_by provider_geography_tier_rank Z.compare) ((tiered : list _).*2));
  let selected := (filter (fun pt => pt.2 = selected_tier) (tiered : list (Z * CompiledProviderGeographyTier))).*1 in
  raw_weights ← mapR raw_weight_of selected;
  let weight_sum := f64_sum ((fun w : Z * f64 * bool => w.1.2) <$> (raw_weights : list (Z * f64 * bool))) in
  _ ← ensure (negb ((weight_sum <=? f64_epsilon)%f64 || negb (is_finite weight_sum))) VolumeWeightSum;
  count ← ok_or VolumeFallbackCountOverflow
    (i32_of_usize (length (filter (fun w : Z * f64 * bool => w.2 = true) raw_weights)));
  Ok {| allocations := (fun w : Z * f64 * bool => (w.1.1, (w.1.2 / weight_sum)%f64)) <$> raw_weights;
        resolution_strategy := StrategySplitByProcessVolume;
        used_equal_fallback := false;
        volume_fallback_to_one_count := count;
        geography_tier := Some selected_tier |}.

(** A resolution without volume weights or tier. *)
Definition resolution (allocations : list (Z * f64)) (strategy : CompiledProviderResolutionStrategy) (fallback : bool)
    : MultiProviderResolution :=
  {| allocations := allocations; resolution_strategy := strategy; used_equal_fallback := fallback;
     volume_fallback_to_one_count := 0; geography_tier := None |}.

Definition equal_shares (providers : list Z) : list (Z * f64) :=
  let share := (f64_one / f64_of_Z (Z.of_nat (length providers)))%f64 in
  (fun idx => (idx, share)) <$> providers.
Definition split_equal (providers : list Z) : MultiProviderResolution :=
  resolution (equal_shares providers) StrategySplitEqual false.
Definition split_equal_fallback (providers : list Z) : MultiProviderResolution :=
  resolution (equal_shares providers) StrategySplitEqualFallback true.

(** The candidates that reach the minimal score, best first. *)
Definition scored_candidates (exchange : ParsedExchange) (providers : list Z)
    : result LinkError (list ProviderCandidateScore) :=
  scored ← score_provider_candidates (x_process_idx exchange) (x_location exchange) providers;
  Ok (filter (fun c => (sc_final c >=? AUTO_LINK_MIN_SCORE)%f64 = true) (scored : list ProviderCandidateScore)).

Definition score_sum (scored : list ProviderCandidateScore) : f64 := f64_sum (sc_final <$> scored).
Definition evidence_shares (scored : list ProviderCandidateScore) : list (Z * f64) :=
  (fun c => (sc_provider_idx c, (sc_final c / score_sum scored)%f64)) <$> scored.

(** The guard of [BestProviderStrict] on the runner-up. *)
Definition ratio_too_close (top1 : ProviderCandidateScore) (rest : list ProviderCandidateScore) : bool :=
  match rest with
  | [] => false
  | top2 :: _ => (sc_final top2 >? f64_epsilon)%f64
                 && (sc_final top1 / sc_final top2 <? AUTO_LINK_TOP1_TOP2_MIN_RATIO)%f64
  end.

Definition resolve_multi_provider (rule : ProviderRule) (exchange : ParsedExchange) (providers : list Z)
    : result LinkError MultiProviderDecision :=
  match providers with
  | [] => Ok (Unresolved NoProviderCandidates)
  | _ =>
    match rule with
    | StrictUniqueProvider => Ok (Unresolved RuleRequiresUniqueProvider)
    | SplitEqual => Ok (Resolved (split_equal providers))
    | SplitByProcessVolume =>
        r ← split_by_process_volume exchange providers; Ok (Resolved r)
    | BestProviderStrict =>
        scored ← scored_candidates exchange providers;
        Ok (match scored with
            | [] => Unresolved NoCandidateGeMinScore
            | top1 :: rest =>
                if (sc_final top1 <? AUTO_LINK_TOP1_MIN_SCORE)%f64 then Unresolved Top1BelowTop1MinScore
                else if ratio_too_close top1 rest then Unresolved Top1Top2RatioTooClose
                else Resolved (resolution [(sc_provider_idx top1, f64_one)] StrategyBestProviderStrict false)
            end)
    | SplitByEvidenceStrict =>
        scored ← scored_candidates exchange providers;
        Ok (match scored with
            | [] => Unresolved NoCandidateGeMinScore
            | _ => if (score_sum scored <=? f64_epsilon)%f64 then Unresolved ScoreSumNonPositive
                   else Resolved (resolution (evidence_shares scored) StrategySplitByEvidence false)
            end)
    | SplitByEvidenceHybrid =>
        scored ← scored_candidates exchange providers;
        Ok (match scored with
            | [] => Resolved (split_equal_fallback providers)
            | _ => if (score_sum scored <=? f64_epsilon)%f64 then Resolved (split_equal_fallback providers)
                   else Resolved (resolution (evidence_shares scored) StrategySplitByEvidence false)
            end)
    end
  end.

(** One step of [best_geography_tier_for_allocations]. *)
Definition better_tier (location : option string) (best : option CompiledProviderGeographyTier) (allocation : Z * f64)
    : result LinkError (option CompiledProviderGeographyTier) :=
  provider ← provider_meta allocation.1;
  let tier := provider_geography_tier location (meta_location provider) in
  let should_replace := match best with
                        | Some current => provider_geography_tier_rank tier <? provider_geography_tier_rank current
                        | None => true
                        end in
  Ok (if should_replace then Some tier else best).

Definition best_geography_tier_for_allocations (location : option string) (allocations : list (Z * f64))
    : result LinkError (option CompiledProviderGeographyTier) :=
  foldM (better_tier location) allocations None.
End Link.

(** ** What a resolution satisfies *)

Section Spec.
Context (process_meta : list ProcessMeta).

(** The providers of the consumer's life-cycle model, if there are any. *)
Definition in_model (model : option Uuid) (p : Z) : Prop :=
  is_Some model /\ process_meta_for_idx process_meta p ≫= meta_model_id = model.
#[export] Instance in_model_dec model p : Decision (in_model model p).
Proof. unfold in_model. apply _. Defined.

Definition consumer_model (consumer_idx : Z) : option Uuid :=
  process_meta_for_idx process_meta consumer_idx ≫= meta_model_id.
Definition preferred (consumer_idx : Z) (providers : list Z) : list Z :=
  let same := filter (in_model (consumer_model consumer_idx)) providers in
  if decide (same = []) then providers else same.

Lemma push_same_model_ok model providers acc same :
  foldM (push_same_model process_meta model) providers acc = Ok same ->
  same = acc ++ filter (in_model (Some model)) providers.
Proof.
  revert acc. induction providers as [|p providers IH]; intros acc Hf; cbn [foldM] in Hf.
  { inv_result. by rewrite app_nil_r. }
  apply bind_ok in Hf as (acc' & Hp & Hf). apply IH in Hf as ->. unfold push_same_model, provider_meta, ok_or in Hp.
  destruct (process_meta_for_idx process_meta p) as [m|] eqn:Em; [|done]. cbn [mbind result_bind] in Hp. inv_result.
  assert (in_model (Some model) p <-> meta_model_id m = Some model) as Hin.
  { unfold in_model. rewrite Em. split; [by intros [_ ?]|split; [by eexists|done]]. }
  rewrite filter_cons. destruct (decide (meta_model_id m = Some model)) as [Hm|Hm].
  - rewrite decide_True by by apply Hin. by rewrite <- app_assoc.
  - rewrite decide_False by (rewrite Hin; done). done.
Qed.

Lemma same_model_ok consumer_idx providers l :
  same_model_preferred_provider_indices process_meta consumer_idx providers = Ok l ->
  l = preferred consumer_idx providers.
Proof.
  unfold same_model_preferred_provider_indices, consumer_meta, ok_or, preferred, consumer_model.
  destruct (process_meta_for_idx process_meta consumer_idx) as [c|] eqn:Ec; [|done]. cbn [mbind result_bind option_bind].
  destruct (meta_model_id c) as [model|]; intros Hl.
  - apply bind_ok in Hl as (same & Hs & Hl). apply push_same_model_ok in Hs. cbn [app] in Hs. rewrite <- Hs.
    clear Hs. inv_result. by destruct same.
  - inv_result. rewrite decide_True; [done|]. apply filter_none, Forall_forall. intros x _ [[? ?] ?]. done.
Qed.

Lemma preferred_sublist consumer_idx providers : preferred consumer_idx providers `sublist_of` providers.
Proof.
  unfold preferred. destruct (decide _); [done|]. apply sublist_filter.
Qed.

Lemma preferred_nonempty consumer_idx providers : providers <> [] -> preferred consumer_idx providers <> [].
Proof. unfold preferred. by destruct (decide _). Qed.

(** The score of a candidate, as a relation. *)
Definition scores (exchange : ParsedExchange) (p : Z) (s : ProviderCandidateScore) : Prop :=
  exists consumer, process_meta_for_idx process_meta (x_process_idx exchange) = Some consumer
    /\ score_provider process_meta consumer
         (resolve_supply_region_anchor (x_location exchange) (meta_location consumer)) p = Ok s.

Lemma scores_idx exchange p s : scores exchange p s -> sc_provider_idx s = p.
Proof. intros (c & _ & (m & _ & Hs)%bind_ok). injection Hs as <-; reflexivity. Qed.

#[export] Instance score_cmp_preorder : TotalPreorder score_cmp.
Proof.
  assert (TotalPreorder total_cmp) as Htotal by exact (cmp_by_preorder total_key Z.compare).
  unfold score_cmp. apply _.
Qed.

Lemma score_candidates_ok exchange providers scored :
  score_provider_candidates process_meta (x_process_idx exchange) (x_location exchange) providers = Ok scored ->
  exists raw, Forall2 (scores exchange) (preferred (x_process_idx exchange) providers) raw
    /\ scored = sort_by score_cmp raw.
Proof.
  unfold score_provider_candidates, consumer_meta, ok_or.
  destruct (process_meta_for_idx process_meta (x_process_idx exchange)) as [c|] eqn:Ec; [|done].
  cbn [mbind result_bind]. intros (l & Hl & H)%bind_ok. apply same_model_ok in Hl as ->.
  apply bind_ok in H as (raw & Hraw & H). inv_result. exists raw. split; [|done].
  apply mapR_ok in Hraw. eapply Forall2_impl; [exact Hraw|]. intros p s Hs. by exists c.
Qed.

Lemma scored_candidates_ok exchange providers scored :
  scored_candidates process_meta exchange providers = Ok scored ->
  exists raw, Forall2 (scores exchange) (preferred (x_process_idx exchange) providers) raw
    /\ scored ≡ₚ filter (fun c => (sc_final c >=? AUTO_LINK_MIN_SCORE)%f64 = true) raw
    /\ StronglySorted (fun a b => not_gt score_cmp a b = true) scored.
Proof.
  intros (all & Hall & H)%bind_ok. apply score_candidates_ok in Hall as (raw & Hraw & ->). inv_result.
  exists raw. split_and!; [done| |].
  - by rewrite sort_by_perm.
  - apply StronglySorted_filter, sort_by_sorted', _.
Qed.

(** The chosen candidates are among the preferred ones. *)
Lemma scored_preferred exchange providers raw scored :
  Forall2 (scores exchange) (preferred (x_process_idx exchange) providers) raw -> scored ⊆+ raw ->
  (sc_provider_idx <$> scored) ⊆+ preferred (x_process_idx exchange) providers.
Proof.
  intros Hraw Hsub. assert (sc_provider_idx <$> raw = preferred (x_process_idx exchange) providers) as <-.
  { clear Hsub. induction Hraw as [|p s ps raw Hs _ IH]; [done|]. rewrite fmap_cons, IH. f_equal. by eapply scores_idx. }
  by apply fmap_submseteq.
Qed.

(** ** The split by production volume *)

Definition anchor_of (exchange : ParsedExchange) : SupplyRegionAnchor :=
  resolve_supply_region_anchor (x_location exchange)
    (process_meta_for_idx process_meta (x_process_idx exchange) ≫= meta_location).
Definition tier_at (location : option string) (p : Z) : CompiledProviderGeographyTier :=
  provider_geography_tier location (process_meta_for_idx process_meta p ≫= meta_location).
Definition volume_at (p : Z) : f64 :=
  from_option (fun m => (provider_volume_raw_weight m).1) f64_one (process_meta_for_idx process_meta p).

(** The preferred providers of the best geography tier share the demand in
    proportion to their volumes. *)
Definition volume_split (exchange : ParsedExchange) (providers : list Z) (r : MultiProviderResolution) : Prop :=
  exists tier,
    let candidates := preferred (x_process_idx exchange) providers in
    let selected := filter (fun p => tier_at (anchor_location (anchor_of exchange)) p = tier) candidates in
    geography_tier r = Some tier /\ selected <> []
    /\ (forall p, p ∈ candidates ->
          provider_geography_tier_rank tier
          <= provider_geography_tier_rank (tier_at (anchor_location (anchor_of exchange)) p))
    /\ allocations r = (fun p => (p, (volume_at p / f64_sum (volume_at <$> selected))%f64)) <$> selected.

Lemma split_by_process_volume_ok exchange providers r :
  split_by_process_volume process_meta exchange providers = Ok r -> volume_split exchange providers r.
Proof.
  intros (anchor & Ha & H)%bind_ok. apply bind_ok in H as (candidates & Hc & H). apply same_model_ok in Hc.
  assert (anchor = anchor_of exchange) as ->.
  { unfold supply_region_anchor_for_exchange, consumer_meta, ok_or in Ha. unfold anchor_of.
    destruct (process_meta_for_idx process_meta (x_process_idx exchange)); [|done]. cbn in *. by inv_result. }
  apply bind_ok in H as (tiered & Ht & H).
  apply (mapR_fun _ (fun p => (p, tier_at (anchor_location (anchor_of exchange)) p))) in Ht.
  2: { intros p y Hy. unfold tier_of_provider, provider_meta, ok_or in Hy. unfold tier_at.
       destruct (process_meta_for_idx process_meta p); [|done]. cbn in *. by inv_result. }
  subst tiered. apply bind_ok in H as (tier & Hmin & H). unfold ok_or in Hmin.
  destruct (min_by _ _) as [t|] eqn:Emin; inv_result. rewrite <- list_fmap_compose in Emin.
  apply min_by_spec in Emin as [Hin Hle]; [|apply _].
  rewrite filter_fmap, <- list_fmap_compose in H. cbn [snd] in H.
  change (fst ∘ (fun p => (p, tier_at (anchor_location (anchor_of exchange)) p))) with (@id Z) in H.
  rewrite list_fmap_id in H. apply bind_ok in H as (raw & Hraw & H).
  apply (mapR_fun _ (fun p => (p, volume_at p,
           from_option (fun m => (provider_volume_raw_weight m).2) true (process_meta_for_idx process_meta p)))) in Hraw.
  2: { intros p y Hy. unfold raw_weight_of, provider_meta, ok_or in Hy. unfold volume_at.
       destruct (process_meta_for_idx process_meta p) as [m|]; [|done]. cbn in *.
       destruct (provider_volume_raw_weight m); by inv_result. }
  subst raw. rewrite <- !list_fmap_compose in H. apply bind_ok in H as (_ & _ & H).
  apply bind_ok in H as (count & _ & H). inv_result. exists tier. cbn zeta. cbn [geography_tier allocations].
  split_and!; [done| | |done].
  - apply list_elem_of_fmap in Hin as (p & Hp & Hin). intros He.
    assert (p ∈ filter (fun p => tier_at (anchor_location (anchor_of exchange)) p = tier)
              (preferred (x_process_idx exchange) providers)) as Hf by (by apply list_elem_of_filter).
    rewrite He in Hf. by apply elem_of_nil in Hf.
  - intros p Hp. specialize (Hle (tier_at (anchor_location (anchor_of exchange)) p)).
    assert (not_gt (cmp_by provider_geography_tier_rank Z.compare) tier
              (tier_at (anchor_location (anchor_of exchange)) p) = true) as Hng.
    { apply Hle, list_elem_of_fmap. by exists p. }
    unfold not_gt, cmp_by in Hng. destruct (Z.compare_spec (provider_geography_tier_rank tier)
      (provider_geography_tier_rank (tier_at (anchor_location (anchor_of exchange)) p))); [lia|lia|done].
Qed.

(** ** The decision, rule by rule *)

(** The preferred candidates that reach the minimal score share the demand in
    proportion to their scores. *)
Definition evidence_split (exchange : ParsedExchange) (providers : list Z) (r : MultiProviderResolution) : Prop :=
  exists raw chosen,
    Forall2 (scores exchange) (preferred (x_process_idx exchange) providers) raw
    /\ chosen ≡ₚ filter (fun c => (sc_final c >=? AUTO_LINK_MIN_SCORE)%f64 = true) raw
    /\ allocations r = evidence_shares chosen.

Definition best_provider (exchange : ParsedExchange) (providers : list Z) (r : MultiProviderResolution) : Prop :=
  exists p s, p ∈ preferred (x_process_idx exchange) providers /\ scores exchange p s
    /\ allocations r = [(p, f64_one)] /\ (sc_final s <? AUTO_LINK_TOP1_MIN_SCORE)%f64 = false
    /\ forall q t, q ∈ preferred (x_process_idx exchange) providers -> scores exchange q t ->
         (sc_final t >=? AUTO_LINK_MIN_SCORE)%f64 = true -> total_key (sc_final t) <= total_key (sc_final s).

Definition resolution_spec (rule : ProviderRule) (exchange : ParsedExchange) (providers : list Z)
    (r : MultiProviderResolution) : Prop :=
  match rule with
  | StrictUniqueProvider => False
  | SplitEqual => allocations r = equal_shares providers
  | SplitByProcessVolume => volume_split exchange providers r
  | BestProviderStrict => best_provider exchange providers r
  | SplitByEvidenceStrict => evidence_split exchange providers r
  | SplitByEvidenceHybrid =>
      evidence_split exchange providers r
      \/ (used_equal_fallback r = true /\ allocations r = equal_shares providers)
  end.

Lemma scores_functional exchange p s t : scores exchange p s -> scores exchange p t -> s = t.
Proof. intros (c & Hc & Hs) (c' & Hc' & Ht). simplify_eq. rewrite Hs in Ht. by inv_result. Qed.

Lemma score_cmp_final s t : not_gt score_cmp s t = true -> total_key (sc_final t) <= total_key (sc_final s).
Proof.
  unfold not_gt, score_cmp, cmp_then, cmp_rev, cmp_by, total_cmp at 1.
  destruct (Z.compare_spec (total_key (sc_final t)) (total_key (sc_final s))); (lia || done).
Qed.

Lemma best_provider_ok exchange providers s rest :
  scored_candidates process_meta exchange providers = Ok (s :: rest) ->
  (sc_final s <? AUTO_LINK_TOP1_MIN_SCORE)%f64 = false ->
  best_provider exchange providers (resolution [(sc_provider_idx s, f64_one)] StrategyBestProviderStrict false).
Proof.
  intros (raw & Hraw & Hp & Hs)%scored_candidates_ok Hmin. apply StronglySorted_inv in Hs as [_ Hall].
  assert (forall t, t ∈ s :: rest <-> (sc_final t >=? AUTO_LINK_MIN_SCORE)%f64 = true /\ t ∈ raw) as Hin.
  { intros t. by rewrite Hp, list_elem_of_filter. }
  destruct (proj1 (Hin s) (list_elem_of_here _ _)) as [_ Hs']. apply list_elem_of_lookup in Hs' as [i Hi].
  destruct (Forall2_lookup_r _ _ _ _ _ Hraw Hi) as (p & Hp' & Hsc).
  exists p, s. split_and!; [by eapply list_elem_of_lookup_2|done| |done|].
  - cbn. by rewrite (scores_idx _ _ _ Hsc).
  - intros q t Hq Ht Hge. apply list_elem_of_lookup in Hq as [j Hj].
    destruct (Forall2_lookup_l _ _ _ _ _ Hraw Hj) as (t' & Ht' & Hsc').
    rewrite (scores_functional _ _ _ _ Ht Hsc') in *.
    assert (t' ∈ s :: rest) as [->|Hr]%elem_of_cons.
    { apply Hin. split; [done|by eapply list_elem_of_lookup_2]. }
    + lia.
    + rewrite Forall_forall in Hall. by apply score_cmp_final, Hall.
Qed.

Lemma evidence_split_ok exchange providers scored :
  scored_candidates process_meta exchange providers = Ok scored ->
  evidence_split exchange providers (resolution (evidence_shares scored) StrategySplitByEvidence false).
Proof. intros (raw & Hraw & Hp & _)%scored_candidates_ok. by exists raw, scored. Qed.

Lemma equal_shares_fst providers : (equal_shares providers).*1 = providers.
Proof. unfold equal_shares. rewrite <- list_fmap_compose. apply list_fmap_id. Qed.

(** Every rule allocates to some of the providers, none twice. *)
Lemma resolution_within rule exchange providers r :
  providers <> [] -> resolution_spec rule exchange providers r ->
  (allocations r).*1 ⊆+ providers.
Proof.
  intros Hne Hr. assert (allocations r = equal_shares providers -> (allocations r).*1 ⊆+ providers) as Heq.
  { intros ->. by rewrite equal_shares_fst. }
  assert (evidence_split exchange providers r -> (allocations r).*1 ⊆+ providers) as Hev.
  { intros (raw & chosen & Hraw & Hp & ->). unfold evidence_shares. rewrite <- list_fmap_compose.
    etrans; [|apply sublist_submseteq, preferred_sublist].
    apply (scored_preferred exchange providers raw); [done|]. rewrite Hp. apply sublist_submseteq, sublist_filter. }
  destruct rule; cbn in Hr; [done| | |auto| |auto].
  - destruct Hr as (p & s & Hp & _ & -> & _). cbn. apply singleton_submseteq_l.
    eapply elem_of_sublist; [done|apply preferred_sublist].
  - destruct Hr as (tier & _ & _ & _ & ->). rewrite <- list_fmap_compose. cbn.
    rewrite list_fmap_id. etrans; apply sublist_submseteq; [apply sublist_filter|apply preferred_sublist].
  - destruct Hr as [Hr|[_ Hr]]; auto.
Qed.

(** ** Scoring succeeds on known processes, and ignores their order *)

Definition known (p : Z) : Prop := is_Some (process_meta_for_idx process_meta p).

Lemma push_same_model_total model providers acc :
  Forall known providers -> exists same, foldM (push_same_model process_meta model) providers acc = Ok same.
Proof.
  intros Hall. edestruct (foldM_total (fun _ : list Z => True) (push_same_model process_meta model) providers acc)
    as (l & Hl & _); [done| |by eauto].
  intros p b Hp _. rewrite Forall_forall in Hall. destruct (Hall p Hp) as [m Hm].
  unfold push_same_model, provider_meta. rewrite Hm. by eexists.
Qed.

Lemma same_model_total consumer_idx providers :
  known consumer_idx -> Forall known providers ->
  same_model_preferred_provider_indices process_meta consumer_idx providers = Ok (preferred consumer_idx providers).
Proof.
  intros [c Hc] Hall.
  assert (exists l, same_model_preferred_provider_indices process_meta consumer_idx providers = Ok l) as [l Hl].
  { unfold same_model_preferred_provider_indices, consumer_meta. rewrite Hc. cbn.
    destruct (meta_model_id c) as [model|]; [|by eexists].
    destruct (push_same_model_total model providers [] Hall) as [same ->]. by eexists. }
  rewrite Hl. by rewrite (same_model_ok _ _ _ Hl).
Qed.

Lemma preferred_perm consumer_idx providers providers' :
  providers ≡ₚ providers' -> preferred consumer_idx providers ≡ₚ preferred consumer_idx providers'.
Proof.
  intros Hp. unfold preferred. assert (filter (in_model (consumer_model consumer_idx)) providers
    ≡ₚ filter (in_model (consumer_model consumer_idx)) providers') as Hf by by rewrite Hp.
  destruct (decide (filter _ providers = [])) as [E|E], (decide (filter _ providers' = [])) as [E'|E']; try done.
  - rewrite E in Hf. apply Permutation_nil_l in Hf. done.
  - rewrite E' in Hf. symmetry in Hf. apply Permutation_nil_l in Hf. done.
Qed.

(** The score of a known process as a function. *)
Definition score_at (exchange : ParsedExchange) (p : Z) : ProviderCandidateScore :=
  let geo := geo_score (anchor_location (anchor_of exchange)) (process_meta_for_idx process_meta p ≫= meta_location) in
  let time := time_score (process_meta_for_idx process_meta (x_process_idx exchange) ≫= meta_reference_year)
                (process_meta_for_idx process_meta p ≫= meta_reference_year) in
  {| sc_provider_idx := p;
     sc_provider_id := from_option meta_process_id 0 (process_meta_for_idx process_meta p);
     sc_geo := geo; sc_time := time;
     sc_final := (AUTO_LINK_GEO_WEIGHT * geo + AUTO_LINK_TIME_WEIGHT * time)%f64 |}.

Lemma score_candidates_eq exchange providers :
  known (x_process_idx exchange) -> Forall known providers ->
  score_provider_candidates process_meta (x_process_idx exchange) (x_location exchange) providers
  = Ok (sort_by score_cmp (score_at exchange <$> preferred (x_process_idx exchange) providers)).
Proof.
  intros Hk Hall. unfold score_provider_candidates. rewrite same_model_total by done.
  assert (Forall known (preferred (x_process_idx exchange) providers)) as Hpref.
  { apply Forall_forall. intros p Hp. rewrite Forall_forall in Hall. apply Hall.
    eapply elem_of_sublist; [done|apply preferred_sublist]. }
  destruct Hk as [c Hc]. unfold consumer_meta. rewrite Hc. cbn [ok_or mbind result_bind].
  assert (mapR (score_provider process_meta c (resolve_supply_region_anchor (x_location exchange) (meta_location c)))
    (preferred (x_process_idx exchange) providers)
    = Ok (score_at exchange <$> preferred (x_process_idx exchange) providers)) as ->; [|done].
  induction Hpref as [|p l [m Hm] _ IH]; [done|]. cbn [mapR]. rewrite IH.
  unfold score_provider, provider_meta. rewrite Hm. cbn [ok_or mbind result_bind]. rewrite fmap_cons.
  unfold score_at at 2, anchor_of. rewrite Hc, Hm. done.
Qed.

Lemma score_order exchange providers providers' :
  known (x_process_idx exchange) -> Forall known providers -> providers ≡ₚ providers' ->
  (forall p q, p ∈ providers -> q ∈ providers ->
     from_option meta_process_id 0 (process_meta_for_idx process_meta p)
     = from_option meta_process_id 0 (process_meta_for_idx process_meta q) -> p = q) ->
  scored_candidates process_meta exchange providers = scored_candidates process_meta exchange providers'.
Proof.
  intros Hk Hall Hp Hinj. unfold scored_candidates.
  rewrite (score_candidates_eq exchange providers), (score_candidates_eq exchange providers') by (by rewrite <- ?Hp).
  cbn [mbind result_bind]. f_equal. f_equal. apply sort_by_unique; [apply _| | |apply sort_by_sorted', _].
  - intros s t (p & -> & Hs)%list_elem_of_fmap (q & -> & Ht)%list_elem_of_fmap Heq. f_equal.
    apply Hinj; [eapply elem_of_sublist; [done|apply preferred_sublist]..|].
    unfold score_cmp, cmp_then, cmp_by, cmp_rev in Heq. cbn in Heq.
    repeat destruct (total_cmp _ _); try done. by apply Z.compare_eq_iff in Heq.
  - rewrite sort_by_perm. by apply fmap_Permutation, preferred_perm.
Qed.
End Spec.

Lemma resolved_spec (process_meta : list ProcessMeta) (rule : ProviderRule)
    (exchange : ParsedExchange) (providers : list Z) (r : MultiProviderResolution) :
  resolve_multi_provider process_meta rule exchange providers = Ok (Resolved r) ->
  providers <> [] /\ resolution_spec process_meta rule exchange providers r.
Proof.
  intros Hr. assert (providers <> []) as Hne by by destruct providers.
  split; [done|].
  destruct providers as [|p0 ps] eqn:Ep; [done|]. rewrite <- Ep in *. clear Hne.
  unfold resolve_multi_provider in Hr. rewrite Ep in Hr at 1. clear p0 ps Ep.
  destruct rule; cbn [resolution_spec].
  - by simplify_eq.
  - apply bind_ok in Hr as ([|s rest] & Hsc & Hr); [by simplify_eq|].
    destruct (_ <? _)%f64 eqn:E1; [by simplify_eq|]. destruct (ratio_too_close s rest); simplify_eq.
    by eapply best_provider_ok.
  - apply bind_ok in Hr as (r' & Hv & Hr). simplify_eq. by apply split_by_process_volume_ok.
  - apply bind_ok in Hr as ([|s rest] & Hsc & Hr); [by simplify_eq|].
    destruct (_ <=? _)%f64; simplify_eq. by apply evidence_split_ok.
  - apply bind_ok in Hr as ([|s rest] & Hsc & Hr); [simplify_eq; by right|].
    destruct (_ <=? _)%f64; simplify_eq; [by right|]. left. by apply evidence_split_ok.
  - by simplify_eq.
Qed.


(** The scored rules do not depend on the order in which the candidate
    providers are listed, provided no two of them are the same process. *)
Theorem candidate_order_independent (process_meta : list ProcessMeta) (exchange : ParsedExchange)
    (providers providers' : list Z) :
  known process_meta (x_process_idx exchange) -> Forall (known process_meta) providers -> providers ≡ₚ providers' ->
  (forall p q, p ∈ providers -> q ∈ providers ->
     from_option meta_process_id 0 (process_meta_for_idx process_meta p)
     = from_option meta_process_id 0 (process_meta_for_idx process_meta q) -> p = q) ->
  resolve_multi_provider process_meta BestProviderStrict exchange providers
  = resolve_multi_provider process_meta BestProviderStrict exchange providers'
  /\ resolve_multi_provider process_meta SplitByEvidenceStrict exchange providers
     = resolve_multi_provider process_meta SplitByEvidenceStrict exchange providers'.
Proof.
  intros Hk Hall Hp Hinj. pose proof (score_order process_meta exchange providers providers' Hk Hall Hp Hinj) as Hs.
  destruct providers as [|p ps]; [apply Permutation_nil in Hp as ->; done|].
  destruct providers' as [|q qs]; [by apply Permutation_nil_r in Hp|].
  cbn [resolve_multi_provider]. by rewrite Hs.
Qed.

(** ** A concrete choice: two producers in the consumer's country, one abroad *)

Definition example_meta (idx id : Z) (location : string) (year : Z) (volume : option f64) : ProcessMeta :=
  {| meta_process_idx := idx; meta_process_id := id; meta_process_version := "1"; meta_process_name := None;
     meta_model_id := None; meta_model_version := None; meta_location := Some location;
     meta_reference_year := Some year; meta_volume := volume |}.

Definition example_processes : list ProcessMeta :=
  [example_meta 0 10 "CN" 2020 None; example_meta 1 11 "US" 2020 None; example_meta 2 12 "CN" 2020 (Some (f64_of_Z 3));
   example_meta 3 13 "cn-gd" 2010 (Some (f64_of_Z 1))].

Definition example_exchange : ParsedExchange :=
  {| x_process_idx := 0; x_flow_id := 50; x_direction := Some DirInput; x_direction_label := "Input";
     x_internal_id := Some "1"%string; x_exchange_id := "1"; x_flow_version := "1"; x_is_reference := false;
     x_raw_amount := Some f64_one; x_signed_raw_coefficient := Some (- f64_one)%f64; x_amount := Some f64_one;
     x_allocation_state := Missing; x_allocation_fraction := f64_one; x_allocation_target := "";
     x_location := None |}.


Lemma candidate_order_independent_witness :
  resolve_multi_provider example_processes BestProviderStrict example_exchange [3; 1; 2]
  = Ok (Resolved (resolution [(2, f64_one)] StrategyBestProviderStrict false)).
Proof.
  destruct (candidate_order_independent example_processes example_exchange [1; 2; 3] [3; 1; 2]) as [<- _].
  - by eexists.
  - repeat constructor; by eexists.
  - apply (Permutation_app_comm [1; 2] [3]).
  - intros p q Hp Hq. rewrite !elem_of_cons, elem_of_nil in Hp, Hq.
    destruct Hp as [->|[->|[->|[]]]], Hq as [->|[->|[->|[]]]]; done.
  - vm_compute. reflexivity.
Defined.

(** Volumes that are positive but tiny are refused, although each is a valid
    weight. *)
Lemma tiny_volumes_are_refused :
  let tiny := f64_of_ratio 1 (10^17) in
  let processes := [example_meta 0 10 "CN" 2020 None; example_meta 1 11 "CN" 2020 (Some tiny);
                    example_meta 2 12 "CN" 2020 (Some tiny)] in
  resolve_multi_provider processes SplitByProcessVolume example_exchange [1; 2] = Err VolumeWeightSum.
Proof. vm_compute. reflexivity. Qed.
