(* ===== verification/Lineage.v ===== *)
(** * Provider lineage

    Models the lineage part of [bin/snapshot_builder.rs]: the process references
    of a life-cycle model document, the transitive expansion of a model's
    components with its memo table and its set of models being visited, the
    lineage index, and the gate that keeps a model's result, its components and
    its superseded results from supplying one demand together.

    A [HashMap] is a [gmap], a [HashSet] a [gset]; the order in which the code
    iterates over one is an argument wherever the result can depend on it.
    Parsing a [Uuid] is an argument too. *)

From S2P Require Import Prelude F64 Text Json ProviderLink.

Local Open Scope Z_scope.

Record VersionedProcessIdentity := mk_process { vp_process_id : Uuid; vp_process_version : string }.
#[export] Instance VersionedProcessIdentity_eq_dec : EqDecision VersionedProcessIdentity.
Proof. solve_decision. Defined.
#[export] Instance VersionedProcessIdentity_countable : Countable VersionedProcessIdentity.
Proof.
  apply (inj_countable' (fun p => (vp_process_id p, vp_process_version p)) (fun p => mk_process p.1 p.2)).
  by intros [].
Defined.

Record VersionedModelIdentity := mk_model { vm_model_id : Uuid; vm_model_version : string }.
#[export] Instance VersionedModelIdentity_eq_dec : EqDecision VersionedModelIdentity.
Proof. solve_decision. Defined.
#[export] Instance VersionedModelIdentity_countable : Countable VersionedModelIdentity.
Proof.
  apply (inj_countable' (fun p => (vm_model_id p, vm_model_version p)) (fun p => mk_model p.1 p.2)).
  by intros [].
Defined.

Definition new_process_identity (id : Uuid) (version : string) : VersionedProcessIdentity :=
  mk_process id (trim version).
Definition new_model_identity (id : Uuid) (version : string) : VersionedModelIdentity :=
  mk_model id (trim version).
Definition process_identity (meta : ProcessMeta) : VersionedProcessIdentity :=
  new_process_identity (meta_process_id meta) (meta_process_version meta).

(** ** Model documents *)

Section References.
Context (parse_uuid : string -> option Uuid).

(** The reference an object holds, if it has an identifier and a version. *)
Definition exact_reference (v : Value) : option VersionedProcessIdentity :=
  id ← (get "@refObjectId" v ≫= as_str) ≫= (fun s => parse_uuid (trim s));
  version ← (get "@version" v ≫= as_str) ≫= (fun s => if decide (trim s = EmptyString) then None else Some (trim s));
  Some (new_process_identity id version).

Fixpoint collect_exact_process_references (value : Value) (out : list VersionedProcessIdentity)
    : list VersionedProcessIdentity :=
  match value with
  | JArray items => foldl (fun out item => collect_exact_process_references item out) out items
  | JObject map =>
      let out := match exact_reference value with Some r => out ++ [r] | None => out end in
      foldl (fun out kv => collect_exact_process_references kv.2 out) out map
  | _ => out
  end.

Definition lifecycle_model_result_references (json : Value) : gset VersionedProcessIdentity :=
  match pointer ["lifeCycleModelDataSet"; "lifeCycleModelInformation"; "dataSetInformation";
                 "referenceToResultingProcess"]%string json with
  | Some value => list_to_set (collect_exact_process_references value [])
  | None => ∅
  end.

(** The component references of one process instance. *)
Definition instance_references (out : list VersionedProcessIdentity) (item : Value) : list VersionedProcessIdentity :=
  match get "referenceToProcess" item with
  | Some reference => collect_exact_process_references reference out
  | None => out
  end.

Definition lifecycle_model_component_references (json : Value) : gset VersionedProcessIdentity :=
  match pointer ["lifeCycleModelDataSet"; "lifeCycleModelInformation"; "technology"; "processes";
                 "processInstance"]%string json with
  | Some (JArray items) => list_to_set (foldl instance_references [] items)
  | Some (JObject _ as instances) => list_to_set (instance_references [] instances)
  | _ => ∅
  end.
End References.

(** ** Expansion of a model's components *)

Abbreviation Components := (gmap VersionedModelIdentity (gset VersionedProcessIdentity)).
Abbreviation Models := (gmap VersionedProcessIdentity (gset VersionedModelIdentity)).

(** The call stack is deeper than the bound given. *)
Inductive DepthError := DepthExceeded.

Section Expand.
Context (direct_components : Components) (result_models : Models).
Context (process_order : gset VersionedProcessIdentity -> list VersionedProcessIdentity).
Context (model_order : gset VersionedModelIdentity -> list VersionedModelIdentity).

Record ExpandState := mk_expand {
  memo : Components;
  visiting : gset VersionedModelIdentity;
}.

(** One nested model of a component: its expansion joins the set. *)
Definition expand_nested
    (expand : VersionedModelIdentity -> ExpandState -> result DepthError (gset VersionedProcessIdentity * ExpandState))
    (model : VersionedModelIdentity) (acc : gset VersionedProcessIdentity * ExpandState)
    (nested_model : VersionedModelIdentity) : result DepthError (gset VersionedProcessIdentity * ExpandState) :=
  if decide (nested_model = model) then Ok acc
  else
    let '(expanded, st) := acc in
    r ← expand nested_model st;
    let '(nested, st) := (r : gset VersionedProcessIdentity * ExpandState) in
    Ok (expanded ∪ nested, st).

Definition expand_component
    (expand : VersionedModelIdentity -> ExpandState -> result DepthError (gset VersionedProcessIdentity * ExpandState))
    (model : VersionedModelIdentity) (acc : gset VersionedProcessIdentity * ExpandState)
    (component : VersionedProcessIdentity) : result DepthError (gset VersionedProcessIdentity * ExpandState) :=
  match result_models !! component with
  | None => Ok acc
  | Some nested_models => foldM (expand_nested expand model) (model_order nested_models) acc
  end.

Fixpoint expand_model_components (depth : nat) (model : VersionedModelIdentity) (st : ExpandState)
    : result DepthError (gset VersionedProcessIdentity * ExpandState) :=
  match depth with
  | O => Err DepthExceeded
  | S depth =>
      match memo st !! model with
      | Some cached => Ok (cached, st)
      | None =>
          if decide (model ∈ visiting st) then Ok (∅, st)
          else
            let direct := default ∅ (direct_components !! model) in
            r ← foldM (expand_component (expand_model_components depth) model) (process_order direct)
                  (direct, mk_expand (memo st) ({[model]} ∪ visiting st));
            let '(expanded, st) := (r : gset VersionedProcessIdentity * ExpandState) in
            Ok (expanded, mk_expand (<[model := expanded]> (memo st)) (visiting st ∖ {[model]}))
      end
  end.

(** The loop over the models of [build_provider_lineage_index]. *)
Definition expand_step (depth : nat) (st : ExpandState) (model : VersionedModelIdentity)
    : result DepthError ExpandState :=
  r ← expand_model_components depth model st;
  let '(expanded, st) := (r : gset VersionedProcessIdentity * ExpandState) in
  Ok (mk_expand (<[model := expanded]> (memo st)) (visiting st)).

Definition expand_all (depth : nat) : result DepthError Components :=
  st ← foldM (expand_step depth) (model_order (dom direct_components)) (mk_expand ∅ ∅);
  Ok (memo st).
End Expand.

Section Expansion.
Context (direct_components : Components) (result_models : Models).
Context (process_order : gset VersionedProcessIdentity -> list VersionedProcessIdentity).
Context (model_order : gset VersionedModelIdentity -> list VersionedModelIdentity).
Context (Hprocess : forall s, process_order s ≡ₚ elements s) (Hmodel : forall s, model_order s ≡ₚ elements s).

#[local] Abbreviation expand := (expand_model_components direct_components result_models process_order model_order).
#[local] Abbreviation direct m := (default ∅ (direct_components !! m)).

(** Component [c] is the result of another model [m']. *)
Definition nested_by (m : VersionedModelIdentity) (c : VersionedProcessIdentity) (m' : VersionedModelIdentity) : Prop :=
  (exists ms, result_models !! c = Some ms /\ m' ∈ ms) /\ m' <> m.
Definition nests (m m' : VersionedModelIdentity) : Prop := exists c, c ∈ direct m /\ nested_by m c m'.

(** The processes a model is made of, through any depth of nesting. *)
Inductive part_of : VersionedModelIdentity -> VersionedProcessIdentity -> Prop :=
| part_direct m p : p ∈ direct m -> part_of m p
| part_nested m m' p : nests m m' -> part_of m' p -> part_of m p.

(** *** The recursion ends *)

Context (universe : gset VersionedModelIdentity).
Context (Huniverse : forall c ms, result_models !! c = Some ms -> ms ⊆ universe).

(** A call returns, and leaves the set of visited models as it was. *)
Definition returns (r : result DepthError (gset VersionedProcessIdentity * ExpandState))
    (v : gset VersionedModelIdentity) : Prop := exists s st, r = Ok (s, st) /\ visiting st = v.

Lemma expand_component_returns rec model c acc :
  (forall m st, m ∈ universe -> visiting st = visiting acc.2 -> returns (rec m st) (visiting st)) ->
  returns (expand_component result_models model_order rec model acc c) (visiting acc.2).
Proof using Hmodel Huniverse.
  intros Hrec. unfold expand_component. destruct (result_models !! c) as [ms|] eqn:Ec; [|by destruct acc; do 2 eexists].
  destruct (foldM_total (fun a : gset VersionedProcessIdentity * ExpandState => visiting a.2 = visiting acc.2)
    (expand_nested rec model) (model_order ms) acc) as ([s st] & Hf & Hv); [done| |by do 2 eexists].
  intros m [s st] Hm Hv. unfold expand_nested. destruct (decide (m = model)); [by eexists|].
  rewrite Hmodel, elem_of_elements in Hm. destruct (Hrec m st) as (s' & st' & Hr & Hv'); [by eapply Huniverse|done|].
  rewrite Hr. eexists. split; [reflexivity|]. cbn in *. congruence.
Qed.

Lemma expand_returns depth model st :
  model ∈ universe -> (size (universe ∖ visiting st) < depth)%nat -> returns (expand depth model st) (visiting st).
Proof using Hmodel Huniverse.
  revert model st. induction depth as [|depth IH]; intros model st Hm Hd; [lia|]. cbn [expand_model_components].
  destruct (memo st !! model) as [cached|]; [by do 2 eexists|].
  destruct (decide (model ∈ visiting st)) as [Hv|Hv]; [by do 2 eexists|].
  destruct (foldM_total (fun a : gset VersionedProcessIdentity * ExpandState => visiting a.2 = {[model]} ∪ visiting st)
    (expand_component result_models model_order (expand depth) model) (process_order (direct model))
    (direct model, mk_expand (memo st) ({[model]} ∪ visiting st))) as ([s st1] & Hf & Hst1); [done| |].
  - intros c a _ Ha. destruct (expand_component_returns (expand depth) model c a) as (s' & st' & Hr & Hv').
    { intros m' st' Hm' Hst'. apply IH; [done|]. rewrite Hst', Ha.
      assert (size (universe ∖ ({[model]} ∪ visiting st)) < size (universe ∖ visiting st))%nat; [|lia].
      clear - Hm Hv. apply subset_size. set_solver. }
    eexists. split; [exact Hr|]. cbn. congruence.
  - rewrite Hf. cbn [mbind result_bind]. do 2 eexists. split; [reflexivity|]. cbn in *. rewrite Hst1. clear - Hv. set_solver.
Qed.

Lemma expand_all_returns depth :
  dom direct_components ⊆ universe -> (size universe < depth)%nat ->
  exists components, expand_all direct_components result_models process_order model_order depth = Ok components.
Proof using Hmodel Huniverse.
  intros Hdom Hd. unfold expand_all.
  destruct (foldM_total (fun st => visiting st = ∅) (expand_step direct_components result_models process_order model_order depth)
    (model_order (dom direct_components)) (mk_expand ∅ ∅)) as (st & -> & _); [done| |by eexists].
  intros m st Hm Hst. rewrite Hmodel, elem_of_elements in Hm. unfold expand_step.
  destruct (expand_returns depth m st) as (s & st' & -> & Hv); [by apply Hdom| |].
  - rewrite Hst, difference_empty_L. done.
  - eexists. split; [reflexivity|]. cbn. congruence.
Qed.

(** *** What it computes *)

Definition memo_ok (st : ExpandState) : Prop :=
  forall m s, memo st !! m = Some s -> forall p, p ∈ s <-> part_of m p.

Lemma part_of_inv m p :
  part_of m p <-> p ∈ direct m \/ exists c m', c ∈ direct m /\ nested_by m c m' /\ part_of m' p.
Proof.
  split.
  - intros [? ? ?|? m' ? (c & Hc & Hn) ?]; [by left|]. right. by exists c, m'.
  - intros [Hp|(c & m' & Hc & Hn & Hp)]; [by apply part_direct|].
    eapply part_nested; [|exact Hp]. by exists c.
Qed.

(** A rank that decreases from a model to the models nested in it: nesting is
    acyclic. *)
Context (rank : VersionedModelIdentity -> nat) (Hrank : forall m m', nests m m' -> (rank m' < rank m)%nat).

(** What a call promises for a model of lower rank than all visited ones. *)
Definition exact_call (rec : VersionedModelIdentity -> ExpandState -> result DepthError (gset VersionedProcessIdentity * ExpandState)) : Prop :=
  forall m st s st', rec m st = Ok (s, st') -> memo_ok st ->
    (forall v, v ∈ visiting st -> (rank m < rank v)%nat) ->
    (forall p, p ∈ s <-> part_of m p) /\ memo_ok st' /\ visiting st' = visiting st
    /\ dom (memo st) ⊆ dom (memo st').

Lemma expand_component_exact rec model c e st e' st' :
  exact_call rec -> memo_ok st -> c ∈ direct model ->
  (forall v, v ∈ visiting st -> (rank model <= rank v)%nat) ->
  expand_component result_models model_order rec model (e, st) c = Ok (e', st') ->
  (forall p, p ∈ e' <-> p ∈ e \/ exists m', nested_by model c m' /\ part_of m' p)
  /\ memo_ok st' /\ visiting st' = visiting st /\ dom (memo st) ⊆ dom (memo st').
Proof using Hmodel Hrank.
  intros Hrec Hmemo Hc Hv He. unfold expand_component in He.
  destruct (result_models !! c) as [ms|] eqn:Ec.
  2: { inv_result. split_and!; [|done..]. intros p. split; [by left|]. intros [?|(m' & ((ms & Hms & _) & _) & _)]; congruence. }
  eapply (foldM_ind (fun (pre : list VersionedModelIdentity) (a : gset VersionedProcessIdentity * ExpandState) =>
    (forall p, p ∈ a.1 <-> p ∈ e \/ exists m', m' ∈ pre /\ m' <> model /\ part_of m' p)
    /\ memo_ok a.2 /\ visiting a.2 = visiting st /\ dom (memo st) ⊆ dom (memo a.2))) in He.
  - cbn [fst snd] in He. destruct He as (Hp & Hm & Hvis & Hdom). split_and!; [|done..].
    intros p. rewrite Hp. f_equiv. apply exist_proper. intros m'. rewrite Hmodel, elem_of_elements. unfold nested_by.
    split; [intros (? & ? & ?); split; [split; [by exists ms|done]|done]|].
    intros (((ms' & Hms' & ?) & ?) & ?). by simplify_eq.
  - split_and!; [|done..]. intros p. split; [by left|]. intros [?|(m' & Hm' & _)]; [done|]. by apply elem_of_nil in Hm'.
  - intros pre m post [e1 st1] [e2 st2] Heq (Hp & Hm & Hvis & Hdom) Hn. cbn [fst snd] in *.
    assert (m ∈ ms) as Hin.
    { rewrite <- elem_of_elements, <- Hmodel, Heq. apply elem_of_app. right. apply list_elem_of_here. }
    unfold expand_nested in Hn. destruct (decide (m = model)) as [->|Hne].
    + inv_result. split_and!; [|done..]. intros p. rewrite Hp. f_equiv. apply exist_proper. intros m'.
      rewrite elem_of_app, list_elem_of_singleton. split; [intros (? & ? & ?); auto|intros ([?|?] & ? & ?); [auto|done]].
    + apply bind_ok in Hn as ([s3 st3] & Hr & Hn). inv_result. destruct (Hrec _ _ _ _ Hr Hm) as (Hs & Hm3 & Hv3 & Hd3).
      * rewrite Hvis. intros v Hvv. specialize (Hv v Hvv).
        assert (rank m < rank model)%nat; [|lia]. apply Hrank. exists c. split; [done|]. split; [by exists ms|done].
      * split_and!; [|done|congruence|by etrans]. intros p. rewrite elem_of_union, Hp, Hs. split.
        -- intros [[?|(m' & ? & ?)]|?]; [by left|right; exists m'; rewrite elem_of_app; tauto|].
           right. exists m. rewrite elem_of_app, list_elem_of_singleton. auto.
        -- intros [?|(m' & [?|Heq']%elem_of_app & ? & ?)]; [tauto|left; right; by exists m'|].
           apply list_elem_of_singleton in Heq' as ->. tauto.
Qed.

Lemma expand_exact depth : exact_call (expand depth).
Proof using Hmodel Hprocess Hrank.
  induction depth as [|depth IH]; intros model st s st'; cbn [expand_model_components]; [done|].
  intros He Hmemo Hv. destruct (memo st !! model) as [cached|] eqn:Em; [inv_result; split_and!; [by apply Hmemo|done..]|].
  destruct (decide (model ∈ visiting st)) as [Hin|Hnin]; [specialize (Hv model Hin); lia|].
  apply bind_ok in He as ([e1 st1] & Hf & He). inv_result.
  eapply (foldM_ind (fun (pre : list VersionedProcessIdentity) (a : gset VersionedProcessIdentity * ExpandState) =>
    (forall p, p ∈ a.1 <-> p ∈ direct model \/ exists c m', c ∈ pre /\ nested_by model c m' /\ part_of m' p)
    /\ memo_ok a.2 /\ visiting a.2 = {[model]} ∪ visiting st /\ dom (memo st) ⊆ dom (memo a.2))) in Hf.
  - cbn [fst snd] in Hf. destruct Hf as (Hp & Hm & Hvis & Hdom).
    assert (forall p, p ∈ s <-> part_of model p) as Hex.
    { intros p. rewrite Hp, part_of_inv. f_equiv. do 2 (apply exist_proper; intros ?).
      by rewrite Hprocess, elem_of_elements. }
    split_and!; [done| |cbn; rewrite Hvis; clear - Hnin; set_solver|cbn; rewrite dom_insert_L; clear - Hdom; set_solver].
    intros m t. cbn. intros [[<- <-]|[_ Ht]]%lookup_insert_Some; [exact Hex|by apply Hm].
  - split_and!; [|done..]. intros p. split; [by left|]. intros [?|(c & m' & Hc & _)]; [done|]. by apply elem_of_nil in Hc.
  - intros pre c post [e2 st2] [e3 st3] Heq (Hp & Hm & Hvis & Hdom) Hc. cbn [fst snd] in *.
    eapply (expand_component_exact (expand depth)) in Hc as (Hp3 & Hm3 & Hv3 & Hd3); [|exact IH|done| |].
    + split_and!; [|done|congruence|by etrans]. intros p. rewrite Hp3, Hp. split.
      * intros [[?|(c' & m' & ? & ?)]|(m' & ? & ?)]; [by left|right; exists c', m'; rewrite elem_of_app; tauto|].
        right. exists c, m'. rewrite elem_of_app, list_elem_of_singleton. auto.
      * intros [?|(c' & m' & [?|Hc']%elem_of_app & ? & ?)]; [tauto|left; right; by exists c', m'|].
        apply list_elem_of_singleton in Hc' as ->. right. by exists m'.
    + rewrite <- elem_of_elements, <- Hprocess, Heq. apply elem_of_app. right. apply list_elem_of_here.
    + rewrite Hvis. intros v [->%elem_of_singleton|Hvv]%elem_of_union; [lia|]. specialize (Hv v Hvv). lia.
Qed.

Lemma expand_all_exact depth components :
  expand_all direct_components result_models process_order model_order depth = Ok components ->
  forall m, m ∈ dom direct_components ->
    exists s, components !! m = Some s /\ forall p, p ∈ s <-> part_of m p.
Proof using Hmodel Hprocess Hrank.
  intros (st & Hf & H)%bind_ok m Hm. inv_result.
  eapply (foldM_ind (fun (pre : list VersionedModelIdentity) (st : ExpandState) =>
    memo_ok st /\ visiting st = ∅ /\ forall m, m ∈ pre -> m ∈ dom (memo st))) in Hf.
  - destruct Hf as (Hmemo & _ & Hall). specialize (Hall m). rewrite Hmodel, elem_of_elements in Hall.
    specialize (Hall Hm). apply elem_of_dom in Hall as [s Hs]. exists s. split; [done|]. by apply Hmemo.
  - split_and!; [|done|]; [intros m' s; cbn; by rewrite lookup_empty|]. intros m' Hm'. by apply elem_of_nil in Hm'.
  - intros pre m' post st1 st2 _ (Hmemo & Hv & Hall) Hs. apply bind_ok in Hs as ([s st3] & He & Hs). inv_result.
    destruct (expand_exact _ _ _ _ _ He Hmemo) as (Hp & Hm3 & Hv3 & Hd3);
      [rewrite Hv; intros v Hvv; by apply elem_of_empty in Hvv|].
    split_and!; [|cbn; congruence|].
    + intros m1 t. cbn. intros [[<- <-]|[_ Ht]]%lookup_insert_Some; [exact Hp|by apply Hm3].
    + intros m1 [Hm1|Hm1]%elem_of_app; cbn; rewrite dom_insert_L, elem_of_union, elem_of_singleton.
      * right. by apply Hd3, Hall.
      * left. by apply list_elem_of_singleton in Hm1.
Qed.
End Expansion.

(** ** The lineage index *)

Record LifecycleModelLineageRow := { lm_identity : VersionedModelIdentity; lm_json : Value }.
Record RequestRootProcess := { root_process_id : Uuid; root_process_version : string }.

Record ProviderLineageIndex := {
  model_components : Components;
  result_models : Models;
  component_models : Models;
  selected_results : gset VersionedProcessIdentity;
}.

(** [map.entry(k).or_default().insert(a)]. *)
Definition insert_into `{Countable K, Countable A} (k : K) (a : A) (m : gmap K (gset A)) : gmap K (gset A) :=
  <[k := {[a]} ∪ default ∅ (m !! k)]> m.

Section Index.
Context (parse_uuid : string -> option Uuid).
Context (process_order : gset VersionedProcessIdentity -> list VersionedProcessIdentity).
Context (model_order : gset VersionedModelIdentity -> list VersionedModelIdentity).

(** One model row: its results point back to it, its components are noted. *)
Definition add_model_row (acc : Components * Models) (model : LifecycleModelLineageRow) : Components * Models :=
  let '(direct, results_of) := acc in
  let results := lifecycle_model_result_references parse_uuid (lm_json model) in
  (<[lm_identity model := lifecycle_model_component_references parse_uuid (lm_json model)]> direct,
   foldl (fun g r => insert_into r (lm_identity model) g) results_of (process_order results)).

Definition add_component_models (g : Models) (mc : VersionedModelIdentity * gset VersionedProcessIdentity) : Models :=
  foldl (fun g c => insert_into c mc.1 g) g (process_order mc.2).

Definition build_provider_lineage_index (depth : nat) (models : list LifecycleModelLineageRow)
    (request_roots : list RequestRootProcess) : result DepthError ProviderLineageIndex :=
  let '(direct, results_of) := foldl add_model_row (∅, ∅) models in
  components ← expand_all direct results_of process_order model_order depth;
  Ok {| model_components := components;
        result_models := results_of;
        component_models := foldl add_component_models ∅ (map_to_list (components : Components));
        selected_results := list_to_set (filter (fun root => is_Some (results_of !! root))
          ((fun r => new_process_identity (root_process_id r) (root_process_version r)) <$> request_roots)) |}.
End Index.

(** ** The gate *)

Inductive CompiledProviderLineageRelationship :=
| ModelResultAndComponent
| SelectedAndSupersededModelResult
| AlternativeModelResult.
#[export] Instance CompiledProviderLineageRelationship_eq_dec : EqDecision CompiledProviderLineageRelationship.
Proof. solve_decision. Defined.
#[export] Instance CompiledProviderLineageRelationship_countable : Countable CompiledProviderLineageRelationship.
Proof.
  apply (inj_countable'
    (fun r => match r with ModelResultAndComponent => 0%nat | SelectedAndSupersededModelResult => 1%nat
              | AlternativeModelResult => 2%nat end)
    (fun n => match n with 0%nat => ModelResultAndComponent | 1%nat => SelectedAndSupersededModelResult
              | _ => AlternativeModelResult end)).
  by intros [].
Defined.

Inductive CompiledProviderLineageRejectionReason :=
| ModelComponentOfSelectedResult
| SupersededModelResult
| RejectedAlternativeModelResult
| NotSelectedByExactModelResult
| LineageOverlapRequiresBinding.

Record ProviderLineageGate := {
  gate_providers : list Z;
  relationships_by_provider : gmap Z (gset CompiledProviderLineageRelationship);
  rejection_by_provider : gmap Z CompiledProviderLineageRejectionReason;
  selected_model_result : option Z;
  gate_unresolved : bool;
}.

(** [a.is_some_and(|a| b.is_some_and(|b| !a.is_disjoint(b)))]. *)
Definition meet (a b : option (gset VersionedModelIdentity)) : bool :=
  match a, b with Some a, Some b => bool_decide (a ∩ b <> ∅) | _, _ => false end.

Section Gate.
Context (process_meta : list ProcessMeta) (lineage : ProviderLineageIndex).

(** What two results of one model tell about each other. *)
Definition pair_relationship (lhs rhs : VersionedProcessIdentity) (left_model right_model : VersionedModelIdentity)
    : option CompiledProviderLineageRelationship :=
  if decide (vm_model_id left_model <> vm_model_id right_model) then None
  else if decide (left_model = right_model) then Some AlternativeModelResult
  else if decide (lhs ∈ selected_results lineage \/ rhs ∈ selected_results lineage)
  then Some SelectedAndSupersededModelResult
  else Some AlternativeModelResult.

Definition provider_lineage_relationships (lhs rhs : VersionedProcessIdentity)
    : gset CompiledProviderLineageRelationship :=
  let left_result := result_models lineage !! lhs in
  let right_result := result_models lineage !! rhs in
  let left_component := component_models lineage !! lhs in
  let right_component := component_models lineage !! rhs in
  let relationships : gset CompiledProviderLineageRelationship :=
    if meet left_result right_component || meet right_result left_component
    then {[ModelResultAndComponent]} else ∅ in
  match left_result, right_result with
  | Some left_models, Some right_models =>
      relationships ∪ list_to_set
        (lm ← elements left_models; rm ← elements right_models; option_list (pair_relationship lhs rhs lm rm))
  | _, _ => relationships
  end.

Definition lineage_rejection_for_selected_result (selected rejected : VersionedProcessIdentity)
    (relationships : gset CompiledProviderLineageRelationship) : CompiledProviderLineageRejectionReason :=
  if decide (SelectedAndSupersededModelResult ∈ relationships) then SupersededModelResult
  else if bool_decide (ModelResultAndComponent ∈ relationships)
          && meet (result_models lineage !! selected) (component_models lineage !! rejected)
  then ModelComponentOfSelectedResult
  else if decide (AlternativeModelResult ∈ relationships) then RejectedAlternativeModelResult
  else NotSelectedByExactModelResult.

Definition identity_of (provider_idx : Z) : result LinkError (Z * VersionedProcessIdentity) :=
  meta ← provider_meta process_meta provider_idx;
  Ok (provider_idx, process_identity meta).

Definition candidates_by_identity (identities : list (Z * VersionedProcessIdentity))
    : gmap VersionedProcessIdentity (gset Z) :=
  foldl (fun g pi => insert_into pi.2 pi.1 g) ∅ identities.

Definition add_result_models (g : gmap VersionedModelIdentity (gset Z)) (pi : Z * VersionedProcessIdentity)
    : gmap VersionedModelIdentity (gset Z) :=
  foldl (fun g m => insert_into m pi.1 g) g (elements (default ∅ (result_models lineage !! pi.2))).
Definition results_by_model (identities : list (Z * VersionedProcessIdentity)) : gmap VersionedModelIdentity (gset Z) :=
  foldl add_result_models ∅ identities.

(** Adds a relationship to each of the providers. *)
Definition mark (r : CompiledProviderLineageRelationship) (providers : gset Z)
    (g : gmap Z (gset CompiledProviderLineageRelationship)) : gmap Z (gset CompiledProviderLineageRelationship) :=
  foldl (fun g p => insert_into p r g) g (elements providers).

Abbreviation Marks := (bool * gmap Z (gset CompiledProviderLineageRelationship))%type.

(** The candidates that are components of a model. *)
Definition component_providers (by_identity : gmap VersionedProcessIdentity (gset Z)) (model : VersionedModelIdentity)
    : gset Z :=
  ⋃ ((fun c => default ∅ (by_identity !! c)) <$> elements (default ∅ (model_components lineage !! model))).

(** Result and component of one model, and not one and the same provider. *)
Definition overlaps (by_identity : gmap VersionedProcessIdentity (gset Z))
    (mr : VersionedModelIdentity * gset Z) : bool :=
  let components := component_providers by_identity mr.1 in
  bool_decide (mr.2 <> ∅ /\ components <> ∅ /\ (1 < size (mr.2 ∪ components))%nat).

Definition overlap_step (by_identity : gmap VersionedProcessIdentity (gset Z)) (st : Marks)
    (mr : VersionedModelIdentity * gset Z) : Marks :=
  if overlaps by_identity mr
  then (true, mark ModelResultAndComponent (mr.2 ∪ component_providers by_identity mr.1) st.2)
  else st.

Definition group_by_model_id (results : gmap VersionedModelIdentity (gset Z))
    : gmap Uuid (gmap VersionedModelIdentity (gset Z)) :=
  foldl (fun g mr => <[vm_model_id mr.1 := <[mr.1 := mr.2]> (default ∅ (g !! vm_model_id mr.1))]> g)
    ∅ (map_to_list results).

(** Several providers of one exact model. *)
Definition alternatives_step (st : Marks) (providers : gset Z) : Marks :=
  if decide (1 < size providers)%nat then (true, mark AlternativeModelResult providers st.2) else st.

(** One model identifier with its exact models. *)
Definition versions_step (identities : list (Z * VersionedProcessIdentity)) (st : Marks)
    (exact_models : gmap VersionedModelIdentity (gset Z)) : Marks :=
  let st := foldl alternatives_step st (map_to_list exact_models).*2 in
  if decide (size exact_models <= 1)%nat then st
  else
    let all_providers := ⋃ (map_to_list exact_models).*2 in
    let relationship :=
      if existsb (fun pi => bool_decide (pi.1 ∈ all_providers) && bool_decide (pi.2 ∈ selected_results lineage)) identities
      then SelectedAndSupersededModelResult else AlternativeModelResult in
    (true, mark relationship all_providers st.2).

(** Whether the candidates overlap, and which relationships each has. *)
Definition lineage_conflict (identities : list (Z * VersionedProcessIdentity)) : Marks :=
  let results := results_by_model identities in
  let st := foldl (overlap_step (candidates_by_identity identities)) (false, ∅) (map_to_list results) in
  foldl (versions_step identities) st (map_to_list (group_by_model_id results)).*2.

Definition reject_for_selected (selected : Z * VersionedProcessIdentity)
    (g : gmap Z CompiledProviderLineageRejectionReason) (pi : Z * VersionedProcessIdentity)
    : gmap Z CompiledProviderLineageRejectionReason :=
  if decide (pi.1 = selected.1) then g
  else <[pi.1 := lineage_rejection_for_selected_result selected.2 pi.2
                   (provider_lineage_relationships selected.2 pi.2)]> g.

Definition reject_unbound (relationships : gmap Z (gset CompiledProviderLineageRelationship))
    (g : gmap Z CompiledProviderLineageRejectionReason) (pi : Z * VersionedProcessIdentity)
    : gmap Z CompiledProviderLineageRejectionReason :=
  if decide (is_Some (relationships !! pi.1)) then <[pi.1 := LineageOverlapRequiresBinding]> g else g.

Definition apply_provider_lineage_gate (providers : list Z) : result LinkError ProviderLineageGate :=
  identities ← mapR identity_of providers;
  let '(conflict, relationships) := lineage_conflict identities in
  if negb conflict then
    Ok {| gate_providers := providers; relationships_by_provider := relationships; rejection_by_provider := ∅;
          selected_model_result := None; gate_unresolved := false |}
  else
    match filter (fun pi => pi.2 ∈ selected_results lineage) (identities : list (Z * VersionedProcessIdentity)) with
    | [selected] =>
        Ok {| gate_providers := [selected.1]; relationships_by_provider := relationships;
              rejection_by_provider := foldl (reject_for_selected selected) ∅ identities;
              selected_model_result := Some selected.1; gate_unresolved := false |}
    | _ =>
        Ok {| gate_providers := []; relationships_by_provider := relationships;
              rejection_by_provider := foldl (reject_unbound relationships) ∅ identities;
              selected_model_result := None; gate_unresolved := true |}
    end.
End Gate.

(** ** What the gate lets through *)

Lemma insert_into_spec `{Countable K, Countable A} (k k' : K) (a x : A) (m : gmap K (gset A)) :
  x ∈ default ∅ (insert_into k a m !! k') <-> (k' = k /\ x = a) \/ x ∈ default ∅ (m !! k').
Proof.
  unfold insert_into. destruct (decide (k = k')) as [->|Hne].
  - rewrite lookup_insert_eq. cbn. rewrite elem_of_union, elem_of_singleton. tauto.
  - rewrite lookup_insert_ne by done. split; [by right|]. intros [[-> _]|?]; done.
Qed.

(** Repeated insertion, for any list of entries. *)
Lemma insert_all_spec `{Countable K, Countable A} {B} (key : B -> K) (val : B -> A) (l : list B) (g : gmap K (gset A)) k x :
  x ∈ default ∅ (foldl (fun g b => insert_into (key b) (val b) g) g l !! k)
  <-> x ∈ default ∅ (g !! k) \/ exists b, b ∈ l /\ key b = k /\ val b = x.
Proof.
  revert g. induction l as [|b l IH]; intros g; cbn [foldl].
  - split; [by left|]. intros [?|(b & Hb & _)]; [done|]. by apply elem_of_nil in Hb.
  - rewrite IH, insert_into_spec. split.
    + intros [[[-> ->]|?]|(b' & ? & ?)]; [|tauto|].
      * right. exists b. split; [apply list_elem_of_here|done].
      * right. exists b'. split; [by apply list_elem_of_further|done].
    + intros [?|(b' & [->|Hb']%elem_of_cons & <- & <-)]; [tauto|tauto|]. right. by exists b'.
Qed.

(** Accumulating a flag that no step ever clears. *)
Lemma foldl_flag {A S} (f : bool * S -> A -> bool * S) (p : A -> bool) (l : list A) st :
  (forall st a, (f st a).1 = st.1 || p a) -> (foldl f st l).1 = st.1 || existsb p l.
Proof.
  intros Hf. revert st. induction l as [|a l IH]; intros st; cbn; [by rewrite orb_false_r|].
  by rewrite IH, Hf, orb_assoc.
Qed.

Lemma existsb_false_In {A} (p : A -> bool) l x : existsb p l = false -> x ∈ l -> p x = false.
Proof.
  intros Hl Hx. destruct (p x) eqn:E; [|done]. exfalso.
  rewrite (proj2 (existsb_exists p l)) in Hl; [done|]. exists x. split; [by apply list_elem_of_In|done].
Qed.

Section GateSpec.
Context (process_meta : list ProcessMeta) (lineage : ProviderLineageIndex).
Context (identities : list (Z * VersionedProcessIdentity)).

Definition is_result (i : VersionedProcessIdentity) (m : VersionedModelIdentity) : Prop :=
  m ∈ default ∅ (result_models lineage !! i).
Definition is_component (i : VersionedProcessIdentity) (m : VersionedModelIdentity) : Prop :=
  i ∈ default ∅ (model_components lineage !! m).

Lemma results_by_model_spec m p :
  p ∈ default ∅ (results_by_model lineage identities !! m) <-> exists i, (p, i) ∈ identities /\ is_result i m.
Proof.
  unfold results_by_model, is_result.
  enough (forall g, p ∈ default ∅ (foldl (add_result_models lineage) g identities !! m)
    <-> p ∈ default ∅ (g !! m) \/ exists i, (p, i) ∈ identities /\ m ∈ default ∅ (result_models lineage !! i)) as HH.
  { rewrite HH, lookup_empty. cbn. split; [intros [?|?]; [set_solver|done]|by right]. }
  induction identities as [|[q i] l IH]; intros g; cbn [foldl].
  { split; [by left|]. intros [?|(i & Hi & _)]; [done|]. by apply elem_of_nil in Hi. }
  rewrite IH. unfold add_result_models at 1. cbn [fst snd]. rewrite (insert_all_spec id (fun _ => q)). split.
  - intros [[?|(m' & Hm & <- & <-)]|(j & ? & ?)]; [by left| |].
    + right. exists i. split; [apply list_elem_of_here|]. by apply elem_of_elements.
    + right. exists j. split; [by apply list_elem_of_further|done].
  - intros [?|(j & [Heq|Hj]%elem_of_cons & Hm)]; [tauto| |].
    + simplify_eq. left. right. exists m. by rewrite elem_of_elements.
    + right. by exists j.
Qed.

Lemma candidates_by_identity_spec i p :
  p ∈ default ∅ (candidates_by_identity identities !! i) <-> (p, i) ∈ identities.
Proof.
  unfold candidates_by_identity. rewrite (insert_all_spec snd fst), lookup_empty. cbn. split.
  - intros [Hp|([q j] & ? & Hi & Hp)]; [by apply elem_of_empty in Hp|]. by simplify_eq/=.
  - intros Hp. right. by exists (p, i).
Qed.

Lemma component_providers_spec m p :
  p ∈ component_providers lineage (candidates_by_identity identities) m
  <-> exists i, (p, i) ∈ identities /\ is_component i m.
Proof.
  unfold component_providers, is_component. rewrite elem_of_union_list. split.
  - intros (s & (c & -> & Hc)%list_elem_of_fmap & Hp). apply candidates_by_identity_spec in Hp.
    exists c. by rewrite elem_of_elements in Hc.
  - intros (i & Hi & Hc). exists (default ∅ (candidates_by_identity identities !! i)). split.
    + apply list_elem_of_fmap. exists i. by rewrite elem_of_elements.
    + by apply candidates_by_identity_spec.
Qed.

Lemma group_spec (results : gmap VersionedModelIdentity (gset Z)) k m s :
  (exists em, group_by_model_id results !! k = Some em /\ em !! m = Some s)
  <-> results !! m = Some s /\ vm_model_id m = k.
Proof.
  unfold group_by_model_id. rewrite <- elem_of_map_to_list.
  pose proof (NoDup_fst_map_to_list results) as Hnd. induction (map_to_list results) as [|[m' s'] l IH] using rev_ind.
  - cbn. split; [intros (em & Hem & _); by rewrite lookup_empty in Hem|intros [Hm _]; by apply elem_of_nil in Hm].
  - rewrite fmap_app in Hnd. apply NoDup_app in Hnd as (Hnd & Hdis & _). specialize (IH Hnd).
    rewrite foldl_app. cbn [foldl fst snd]. set (g := foldl _ ∅ l) in *.
    rewrite elem_of_app, list_elem_of_singleton. destruct (decide (vm_model_id m' = k)) as [<-|Hk].
    + rewrite lookup_insert_eq. split.
      * intros (em & Hem & Hm). inv_result. apply lookup_insert_Some in Hm as [[<- <-]|[Hne Hm]]; [tauto|].
        destruct (g !! vm_model_id m') as [em|]; [|cbn in Hm; by rewrite lookup_empty in Hm].
        destruct (proj1 IH) as [? ?]; [by exists em|tauto].
      * intros [[Hl|Heq] Hk].
        -- destruct (proj2 IH (conj Hl Hk)) as (em & -> & Hem). eexists. split; [reflexivity|]. cbn.
           rewrite lookup_insert_ne; [done|]. intros ->. apply (Hdis m); [|by apply list_elem_of_here].
           apply list_elem_of_fmap. by exists (m, s).
        -- simplify_eq. eexists. split; [reflexivity|]. by rewrite lookup_insert_eq.
    + rewrite lookup_insert_ne by done. rewrite IH. split; [tauto|]. intros [[?|?] ?]; [done|]. by simplify_eq.
Qed.

Lemma versions_step_flag st em :
  (versions_step lineage identities st em).1
  = st.1 || (existsb (fun s => bool_decide (1 < size s)%nat) (map_to_list em).*2 || bool_decide (1 < size em)%nat).
Proof.
  unfold versions_step. destruct (decide (size em <= 1)%nat) as [Hle|Hgt].
  - rewrite (foldl_flag alternatives_step (fun s => bool_decide (1 < size s)%nat)).
    + rewrite (bool_decide_false (1 < size em)%nat) by lia. by rewrite orb_false_r.
    + intros [b g] s. unfold alternatives_step. destruct (decide (1 < size s)%nat) as [H|H]; cbn.
      * by rewrite (bool_decide_true _ H), orb_true_r.
      * by rewrite (bool_decide_false _ H), orb_false_r.
  - cbn. rewrite (bool_decide_true (1 < size em)%nat) by lia. by rewrite !orb_true_r.
Qed.

Lemma no_conflict_inv :
  (lineage_conflict lineage identities).1 = false ->
  (forall m s, results_by_model lineage identities !! m = Some s ->
     overlaps lineage (candidates_by_identity identities) (m, s) = false)
  /\ (forall k em, group_by_model_id (results_by_model lineage identities) !! k = Some em ->
       (size em <= 1)%nat /\ forall m s, em !! m = Some s -> (size s <= 1)%nat).
Proof.
  unfold lineage_conflict.
  rewrite (foldl_flag (versions_step lineage identities) _ _ _ versions_step_flag).
  rewrite (foldl_flag (overlap_step lineage (candidates_by_identity identities))
    (overlaps lineage (candidates_by_identity identities))).
  2: { intros [b g] mr. unfold overlap_step. destruct (overlaps _ _ mr); cbn; by rewrite ?orb_true_r, ?orb_false_r. }
  cbn [fst orb]. intros [Ho Hv]%orb_false_iff. split.
  - intros m s Hm. eapply existsb_false_In; [exact Ho|]. by apply elem_of_map_to_list.
  - intros k em Hk. assert (em ∈ (map_to_list (group_by_model_id (results_by_model lineage identities))).*2) as Hin.
    { apply list_elem_of_fmap. exists (k, em). split; [done|]. by apply elem_of_map_to_list. }
    apply (existsb_false_In _ _ _ Hv) in Hin. apply orb_false_iff in Hin as [Hs He].
    apply bool_decide_eq_false in He. split; [lia|]. intros m s Hm.
    assert (s ∈ (map_to_list em).*2) as Hs'.
    { apply list_elem_of_fmap. exists (m, s). split; [done|]. by apply elem_of_map_to_list. }
    apply (existsb_false_In _ _ _ Hs) in Hs'. apply bool_decide_eq_false in Hs'. lia.
Qed.

Lemma size_le_1 {A} `{Countable A} (s : gset A) x y : (size s <= 1)%nat -> x ∈ s -> y ∈ s -> x = y.
Proof.
  intros Hs Hx Hy. destruct (decide (x = y)) as [|Hne]; [done|]. exfalso.
  assert (size ({[x; y]} : gset A) <= size s)%nat as Hle by (apply subseteq_size; set_solver).
  rewrite size_union, !size_singleton in Hle by set_solver. lia.
Qed.

(** No two candidates stand in a lineage relationship: none is a component of
    a model another one results from, and no two result from one model, in
    whatever versions. *)
Definition unrelated : Prop :=
  forall p i q j m, (p, i) ∈ identities -> (q, j) ∈ identities -> is_result i m ->
    (is_component j m -> p = q)
    /\ (forall m', is_result j m' -> vm_model_id m' = vm_model_id m -> p = q /\ m' = m).

Lemma no_conflict_unrelated : (lineage_conflict lineage identities).1 = false -> unrelated.
Proof.
  intros [Ho Hv]%no_conflict_inv p i q j m Hp Hq Hr.
  assert (forall p i m, (p, i) ∈ identities -> is_result i m ->
    exists s, results_by_model lineage identities !! m = Some s /\ p ∈ s) as Hres.
  { intros p' i' m' Hp' Hr'. pose proof (proj2 (results_by_model_spec m' p')) as Hin.
    destruct (results_by_model lineage identities !! m') as [s|] eqn:E; cbn in Hin.
    - exists s. split; [done|]. apply Hin. by exists i'.
    - exfalso. assert (p' ∈ (∅ : gset Z)) by (apply Hin; by exists i'). set_solver. }
  destruct (Hres p i m Hp Hr) as (s & Hs & Hps). split.
  - intros Hc. specialize (Ho m s Hs). apply bool_decide_eq_false in Ho. cbn in Ho.
    assert (q ∈ component_providers lineage (candidates_by_identity identities) m) as Hqc.
    { apply component_providers_spec. by exists j. }
    apply (size_le_1 (s ∪ component_providers lineage (candidates_by_identity identities) m)); [|set_solver..].
    destruct (decide (1 < size (s ∪ component_providers lineage (candidates_by_identity identities) m))%nat); [|lia].
    exfalso. apply Ho. split_and!; [set_solver..|done].
  - intros m' Hr' Hid. destruct (Hres q j m' Hq Hr') as (s' & Hs' & Hqs).
    destruct (proj2 (group_spec _ (vm_model_id m) m s) (conj Hs eq_refl)) as (em & Hem & Hm).
    destruct (proj2 (group_spec _ (vm_model_id m) m' s') (conj Hs' Hid)) as (em' & Hem' & Hm').
    rewrite Hem in Hem'. inv_result. destruct (Hv _ _ Hem) as [Hone Hsmall].
    assert (m' = m) as ->.
    { apply (size_le_1 (dom em')); [by rewrite size_dom|by apply elem_of_dom_2 in Hm'|by apply elem_of_dom_2 in Hm]. }
    rewrite Hm in Hm'. inv_result. split; [|done]. by eapply size_le_1; [eapply Hsmall|..].
Qed.
End GateSpec.

Lemma reject_for_selected_spec lineage selected l g pi :
  pi ∈ l -> pi.1 <> selected.1 -> is_Some (foldl (reject_for_selected lineage selected) g l !! pi.1).
Proof.
  intros Hin Hne. assert (forall l g, is_Some (g !! pi.1) ->
    is_Some (foldl (reject_for_selected lineage selected) g l !! pi.1)) as Hmono.
  { clear. induction l as [|qi l IH]; intros g Hg; cbn [foldl]; [done|]. apply IH. unfold reject_for_selected.
    destruct (decide _); [done|]. by apply lookup_insert_is_Some'; right. }
  revert g. induction l as [|qi l IH]; intros g; [by apply elem_of_nil in Hin|]. cbn [foldl].
  apply elem_of_cons in Hin as [->|Hin]; [|by apply IH].
  apply Hmono. unfold reject_for_selected. rewrite decide_False by done. rewrite lookup_insert_eq. by eexists.
Qed.

(** The expansion of model components returns for every lineage, cyclic
    nesting included, once the depth bound exceeds the number of models; and
    if no model is nested in itself, every model is mapped to exactly the
    processes it is made of through any depth of nesting, whatever the order
    in which the hash maps are iterated. *)
Theorem model_expansion_exact (direct_components : Components) (result_models : Models)
    (process_order : gset VersionedProcessIdentity -> list VersionedProcessIdentity)
    (model_order : gset VersionedModelIdentity -> list VersionedModelIdentity)
    (universe : gset VersionedModelIdentity) (depth : nat) :
  (forall s, process_order s ≡ₚ elements s) -> (forall s, model_order s ≡ₚ elements s) ->
  (forall c ms, result_models !! c = Some ms -> ms ⊆ universe) -> dom direct_components ⊆ universe ->
  (size universe < depth)%nat ->
  exists components,
    expand_all direct_components result_models process_order model_order depth = Ok components
    /\ forall rank : VersionedModelIdentity -> nat,
       (forall m m', nests direct_components result_models m m' -> (rank m' < rank m)%nat) ->
       forall m, m ∈ dom direct_components ->
         exists s, components !! m = Some s /\ forall p, p ∈ s <-> part_of direct_components result_models m p.
Proof.
  intros Hp Hm Hu Hd Hdepth.
  destruct (expand_all_returns direct_components result_models process_order model_order Hm universe Hu depth Hd Hdepth)
    as [components Hc].
  exists components. split; [done|]. intros rank Hrank. by eapply expand_all_exact.
Qed.

(** C26: the lineage gate never lets related providers supply one demand
    together.  It either passes the candidates on unchanged, and then none is
    a component of a model another one results from and no two result from
    one model in whatever versions; or it keeps the only candidate that a
    request root selects and records why each other one is rejected; or it
    leaves the demand unresolved, with no provider. *)
Theorem lineage_gate_sound (process_meta : list ProcessMeta) (lineage : ProviderLineageIndex)
    (providers : list Z) (g : ProviderLineageGate) :
  apply_provider_lineage_gate process_meta lineage providers = Ok g ->
  exists identities, Forall2 (fun p pi => identity_of process_meta p = Ok pi) providers identities
  /\ ((gate_unresolved g = false /\ gate_providers g = providers /\ selected_model_result g = None
       /\ rejection_by_provider g = ∅ /\ unrelated lineage identities)
      \/ (exists sel, gate_unresolved g = false /\ gate_providers g = [sel.1]
            /\ selected_model_result g = Some sel.1
            /\ filter (fun pi => pi.2 ∈ selected_results lineage) identities = [sel]
            /\ forall pi, pi ∈ identities -> pi.1 <> sel.1 -> is_Some (rejection_by_provider g !! pi.1))
      \/ (gate_unresolved g = true /\ gate_providers g = [] /\ selected_model_result g = None)).
Proof.
  intros (identities & Hi & Hg)%bind_ok. apply mapR_ok in Hi. exists identities. split; [done|].
  destruct (lineage_conflict lineage identities) as [conflict rels] eqn:Ec. destruct conflict; cbn [negb] in Hg.
  - destruct (filter _ identities) as [|sel [|]] eqn:Ef; inv_result; [by right; right| |by right; right].
    right. left. exists sel. split_and!; try done. intros pi Hin Hne. cbn. by apply reject_for_selected_spec.
  - inv_result. left. split_and!; try done. apply no_conflict_unrelated. by rewrite Ec.
Qed.

(** ** Concrete lineages *)

Definition ex_process (id : Z) : VersionedProcessIdentity := mk_process id "1".
Definition ex_model (id : Z) : VersionedModelIdentity := mk_model id "1".

(** Model 1 has components 10 and 20; 20 is the result of ex_model 2, whose
    component is 30. *)
Definition nested_direct : Components := {[ex_model 1 := {[ex_process 10; ex_process 20]}; ex_model 2 := {[ex_process 30]}]}.
Definition nested_results : Models := {[ex_process 20 := {[ex_model 2]}]}.

Lemma nested_nests m m' : nests nested_direct nested_results m m' -> m = ex_model 1 /\ m' = ex_model 2.
Proof.
  intros (c & Hc & (ms & Hms & Hm') & Hne). unfold nested_results in Hms.
  apply lookup_singleton_Some in Hms as [<- <-]. apply elem_of_singleton in Hm' as ->. split; [|done].
  unfold nested_direct in Hc. destruct (decide (m = ex_model 1)) as [|H1]; [done|]. exfalso.
  rewrite lookup_insert_ne in Hc by done. rewrite lookup_singleton_ne in Hc by done.
  by apply elem_of_empty in Hc.
Qed.

Lemma model_expansion_exact_witness :
  exists components s, expand_all nested_direct nested_results elements elements 3 = Ok components
    /\ components !! ex_model 1 = Some s /\ ex_process 30 ∈ s.
Proof.
  edestruct (model_expansion_exact nested_direct nested_results elements elements {[ex_model 1; ex_model 2]} 3)
    as (components & Hc & Hex).
  - done.
  - done.
  - intros c ms Hms. unfold nested_results in Hms. apply lookup_singleton_Some in Hms as [_ <-]. set_solver.
  - unfold nested_direct. rewrite dom_insert_L, dom_singleton_L. done.
  - vm_compute. lia.
  - destruct (Hex (fun m => if decide (m = ex_model 1) then 1%nat else 0%nat)) with (m := ex_model 1) as (s & Hs & Hp).
    + intros m m' [-> ->]%nested_nests. by vm_compute.
    + apply elem_of_dom. by eexists.
    + exists components, s. split_and!; [done..|]. apply Hp.
      apply (part_nested _ _ (ex_model 1) (ex_model 2)); [|apply part_direct; set_solver].
      exists (ex_process 20). split; [set_solver|]. split; [|done]. exists {[ex_model 2]}. split; [done|set_solver].
Defined.

(** Two models whose results are components of each other. *)
Definition mutual_direct : Components := {[ex_model 1 := {[ex_process 10; ex_process 200]}; ex_model 2 := {[ex_process 20; ex_process 100]}]}.
Definition mutual_results : Models := {[ex_process 100 := {[ex_model 1]}; ex_process 200 := {[ex_model 2]}]}.

Definition recorded_components (r : result DepthError Components) (m : VersionedModelIdentity)
    : option (list VersionedProcessIdentity) :=
  match r with Ok components => elements <$> components !! m | _ => None end.

(** The components recorded for mutually nested models depend on the order in
    which the hash map of the models is iterated: the model expanded second
    gets only the part its partner had when the cycle was cut. *)
Lemma mutual_models_depend_on_order :
  let outcome order := recorded_components (expand_all mutual_direct mutual_results elements order 3) in
  (length <$> outcome elements (ex_model 1), length <$> outcome elements (ex_model 2))
  <> (length <$> outcome (fun s => reverse (elements s)) (ex_model 1),
      length <$> outcome (fun s => reverse (elements s)) (ex_model 2)).
Proof. vm_compute. discriminate. Qed.

(** A process that results from two versions of one model, as only candidate. *)
Definition two_versions : ProviderLineageIndex :=
  {| model_components := ∅; result_models := {[ex_process 11 := {[mk_model 1 "1"; mk_model 1 "2"]}]};
     component_models := ∅; selected_results := ∅ |}.

(** The gate leaves a demand unresolved although it has a single candidate
    provider, when that process results from two versions of one model. *)
Lemma lone_provider_is_unresolved :
  exists g, apply_provider_lineage_gate example_processes two_versions [1] = Ok g
    /\ gate_unresolved g = true /\ gate_providers g = [].
Proof. eexists. split; [vm_compute; reflexivity|]. split; reflexivity. Qed.

Definition result_and_component : ProviderLineageIndex :=
  {| model_components := {[ex_model 1 := {[ex_process 12]}]}; result_models := {[ex_process 11 := {[ex_model 1]}]};
     component_models := {[ex_process 12 := {[ex_model 1]}]}; selected_results := {[ex_process 11]} |}.

Lemma lineage_gate_sound_witness :
  exists g, apply_provider_lineage_gate example_processes result_and_component [1; 2] = Ok g
    /\ gate_providers g = [1] /\ rejection_by_provider g !! 2 = Some ModelComponentOfSelectedResult
    /\ (gate_unresolved g = false -> gate_providers g <> []).
Proof.
  eexists. split; [vm_compute; reflexivity|]. split; [reflexivity|]. split; [vm_compute; reflexivity|].
  destruct (lineage_gate_sound example_processes result_and_component [1; 2]
    {| gate_providers := [1]; relationships_by_provider := {[1 := {[ModelResultAndComponent]}; 2 := {[ModelResultAndComponent]}]};
       rejection_by_provider := {[2 := ModelComponentOfSelectedResult]}; selected_model_result := Some 1;
       gate_unresolved := false |}) as (ids & _ & [(_ & Hp & _)|[(sel & _ & Hp & _)|(Hu & _)]]).
  - vm_compute. reflexivity.
  - discriminate Hp.
  - intros _. cbn in *. discriminate.
  - discriminate Hu.
Defined.
