(* ===== verification/Balance.v ===== *)
(** * Compiling exchanges into signed-flow balances

    Models the balance compilation of [bin/snapshot_builder.rs] with the records
    of [compiled_graph.rs]: the reference ports of the processes, the check of
    the quantitative references, and [compile_signed_flow_balances], which
    turns every residual exchange into one provider decision and, where it is
    resolved, into technosphere edges. *)

From S2P Require Import Prelude F64 SignedFlow Text Location ProviderLink Lineage.

Local Open Scope Z_scope.

(** ** Records *)

Record FlowLinkIdentity := mk_flow { fl_flow_id : Uuid; fl_flow_version : string }.
#[export] Instance FlowLinkIdentity_eq_dec : EqDecision FlowLinkIdentity.
Proof. solve_decision. Defined.
#[export] Instance FlowLinkIdentity_countable : Countable FlowLinkIdentity.
Proof.
  apply (inj_countable' (fun f => (fl_flow_id f, fl_flow_version f)) (fun f => mk_flow f.1 f.2)). by intros [].
Defined.

Inductive CompiledFlowSpace := Technosphere | Biosphere | Reporting.
#[export] Instance CompiledFlowSpace_eq_dec : EqDecision CompiledFlowSpace.
Proof. solve_decision. Defined.

Inductive CompiledSourceFlowType := SourceProduct | SourceWaste | SourceElementary | SourceOther.

Definition flow_space_for_source_type (t : CompiledSourceFlowType) : CompiledFlowSpace :=
  match t with
  | SourceProduct | SourceWaste => Technosphere
  | SourceElementary => Biosphere
  | SourceOther => Reporting
  end.

Inductive ScopeProcessPartition := Public | Private.
Inductive CompiledEdgePartition := PublicToPublic | PublicToPrivate | PrivateToPublic | PrivateToPrivate.

Definition from_partitions (provider consumer : ScopeProcessPartition) : CompiledEdgePartition :=
  match provider, consumer with
  | Public, Public => PublicToPublic
  | Public, Private => PublicToPrivate
  | Private, Public => PrivateToPublic
  | Private, Private => PrivateToPrivate
  end.

Record CompiledProcess := {
  cp_meta : ProcessMeta;
  cp_partition : ScopeProcessPartition;
}.

Record ReferencePortCandidate := {
  rp_flow_id : Uuid;
  rp_flow_version : string;
  rp_process_idx : Z;
  rp_internal_id : option string;
  rp_coefficient : f64;
  rp_raw_direction : ExchangeDirection;
  rp_raw_amount : f64;
  rp_signed_raw_coefficient : f64;
  rp_allocation_state : AllocationFractionState;
}.

Abbreviation ReferencePortMap := (gmap FlowLinkIdentity (list ReferencePortCandidate)).

Inductive CompiledProviderOutputAllocationState := OutputUnknown | OutputPresent | OutputMissing | OutputInvalid.

Inductive CompiledProviderCandidateEligibility :=
| EligibilityUnknown
| AcceptedReferenceOutput
| RejectedNonReferenceOutput
| AcceptedOppositeSignReference
| RejectedSameSignReference.

Record CompiledProviderCandidate := {
  cand_provider_idx : Z;
  cand_meta : ProcessMeta;
  cand_internal_id : option string;
  cand_is_reference : bool;
  cand_normalized_amount : option f64;
  cand_allocation_state : CompiledProviderOutputAllocationState;
  cand_eligibility : CompiledProviderCandidateEligibility;
  cand_reference_coefficient : option f64;
  cand_relationships : list CompiledProviderLineageRelationship;
  cand_rejection : option CompiledProviderLineageRejectionReason;
}.

Inductive CompiledProviderDecisionKind := KindUniqueProvider | MultiResolved | MultiUnresolved | NoProvider.
#[export] Instance CompiledProviderDecisionKind_eq_dec : EqDecision CompiledProviderDecisionKind.
Proof. solve_decision. Defined.

(** The tuple the decision branches evaluate to. *)
Record ProviderChoice := mk_choice {
  ch_kind : CompiledProviderDecisionKind;
  ch_strategy : option CompiledProviderResolutionStrategy;
  ch_failure : option CompiledProviderFailureReason;
  ch_used_equal_fallback : bool;
  ch_volume_fallback : Z;
  ch_tier : option CompiledProviderGeographyTier;
  ch_allocations : list (Z * f64);
}.

Record CompiledProviderDecision := {
  dec_consumer_idx : Z;
  dec_flow_id : Uuid;
  dec_flow_version : string;
  dec_candidate_count : Z;
  dec_matched_count : Z;
  dec_candidates : list CompiledProviderCandidate;
  dec_choice : ProviderChoice;
  dec_region_source : CompiledProviderSupplyRegionSource;
  dec_region_location : option string;
  dec_location_present : bool;
}.

Record CompiledTechnosphereEdge := {
  te_provider_idx : Z;
  te_consumer_idx : Z;
  te_flow_id : Uuid;
  te_amount : f64;
  te_provider_partition : ScopeProcessPartition;
  te_consumer_partition : ScopeProcessPartition;
  te_partition : CompiledEdgePartition;
}.

Record CompiledBalanceResolution := {
  br_dependent_idx : Z;
  br_residual_internal_id : string;
  br_balancing_idx : Z;
  br_reference_internal_id : string;
  br_flow_id : Uuid;
  br_flow_version : string;
  br_residual_coefficient : f64;
  br_reference_coefficient : f64;
  br_routing_weight : f64;
  br_activity_requirement : f64;
}.

(** A release edge: the resolution with the location of the exchange. *)
Record CompiledReleaseTechnosphereEdge := mk_release {
  re_resolution : CompiledBalanceResolution;
  re_location : option string;
}.

Record CompiledUnresolvedBalance := {
  ub_dependent_idx : Z;
  ub_residual_internal_id : string;
  ub_flow_id : Uuid;
  ub_flow_version : string;
  ub_residual_coefficient : f64;
  ub_required_reference_sign : f64;
  ub_candidate_count : Z;
  ub_opposite_sign_count : Z;
}.

Record CompiledMatchingStats := mk_stats {
  input_edges_total : Z;
  matched_unique_provider : Z;
  matched_multi_provider : Z;
  unmatched_no_provider : Z;
  matched_multi_resolved : Z;
  matched_multi_unresolved : Z;
  matched_multi_fallback_equal : Z;
  a_input_edges_written : Z;
  residual_edges_total : Z;
  a_balance_edges_written : Z;
}.

Record CompiledBalanceBatch := mk_batch {
  decisions : list CompiledProviderDecision;
  technosphere_edges : list CompiledTechnosphereEdge;
  release_edges : list CompiledReleaseTechnosphereEdge;
  resolutions : list CompiledBalanceResolution;
  unresolved : list CompiledUnresolvedBalance;
  matching_stats : CompiledMatchingStats;
}.

Definition empty_batch : CompiledBalanceBatch := mk_batch [] [] [] [] [] (mk_stats 0 0 0 0 0 0 0 0 0 0).

Inductive BalanceError :=
| LinkFailed (e : LinkError)
| FlowFailed (e : SignedFlowError)
| ReferenceCount (process : ProcessMeta) (matched : nat)
| ReferenceFlowUnavailable (process : ProcessMeta) (flow : Uuid)
| ReferenceDirection (process : ProcessMeta)
| ReferenceAmount (process : ProcessMeta)
| ReferenceNotUnit (process : ProcessMeta) (coefficient : f64)
| PortDirectionUnavailable (exchange_id : string)
| PortAmountUnavailable (exchange_id : string)
| PortRawAmountUnavailable (exchange_id : string)
| PortRawCoefficientUnavailable (exchange_id : string)
| MissingBalancingMeta (idx : Z)
| BalanceCountOverflow (what : string)
| NoReferencePorts
| MissingSelectedPort (idx : Z)
| MissingDependentProcess (idx : Z)
| MissingBalancingProcess (idx : Z).

Definition flow_link_identity_from_parts : Uuid -> string -> FlowLinkIdentity := mk_flow.
Definition flow_link_identity (x : ParsedExchange) : FlowLinkIdentity :=
  flow_link_identity_from_parts (x_flow_id x) (x_flow_version x).

Definition signed_flow_direction (d : ExchangeDirection) : SignedFlowDirection :=
  match d with DirInput => Input | DirOutput => Output end.

(** ** Reference ports *)

(** [amount.map(|a| signed_coefficient(direction, a)).transpose()?]. *)
Definition coefficient_of (direction : ExchangeDirection) (amount : option f64) : result BalanceError (option f64) :=
  match amount with
  | None => Ok None
  | Some a => c ← map_err FlowFailed (signed_coefficient (signed_flow_direction direction) a); Ok (Some c)
  end.

Section References.
Context (flow_space_by_identity : gmap FlowLinkIdentity CompiledFlowSpace).

Definition validate_reference (exchanges : list ParsedExchange) (process : ProcessMeta) : result BalanceError unit :=
  match filter (fun x => x_process_idx x = meta_process_idx process /\ x_is_reference x = true) exchanges with
  | [x] =>
      _ ← ensure (bool_decide (is_Some (flow_space_by_identity !! flow_link_identity x)))
            (ReferenceFlowUnavailable process (x_flow_id x));
      direction ← ok_or (ReferenceDirection process) (x_direction x);
      coefficient ← coefficient_of direction (x_amount x);
      coefficient ← ok_or (ReferenceAmount process) (coefficient : option f64);
      ensure (negb (f64_abs (f64_abs coefficient - f64_one) >? SIGNED_FLOW_CLOSURE_TOLERANCE)%f64)
        (ReferenceNotUnit process coefficient)
  | l => Err (ReferenceCount process (length l))
  end.

Definition validate_quantitative_references (exchanges : list ParsedExchange) (processes : list ProcessMeta)
    : result BalanceError unit :=
  foldM (fun _ p => validate_reference exchanges p) processes tt.

Definition reference_port_candidate_from_exchange (x : ParsedExchange) : result BalanceError ReferencePortCandidate :=
  direction ← ok_or (PortDirectionUnavailable (x_exchange_id x)) (x_direction x);
  coefficient ← coefficient_of direction (x_amount x);
  coefficient ← ok_or (PortAmountUnavailable (x_exchange_id x)) (coefficient : option f64);
  raw_amount ← ok_or (PortRawAmountUnavailable (x_exchange_id x)) (x_raw_amount x);
  signed_raw ← ok_or (PortRawCoefficientUnavailable (x_exchange_id x)) (x_signed_raw_coefficient x);
  Ok {| rp_flow_id := x_flow_id x;
        rp_flow_version := x_flow_version x;
        rp_process_idx := x_process_idx x;
        rp_internal_id := x_internal_id x;
        rp_coefficient := coefficient;
        rp_raw_direction := direction;
        rp_raw_amount := raw_amount;
        rp_signed_raw_coefficient := signed_raw;
        rp_allocation_state := x_allocation_state x |}.

Definition add_reference_port (ports : ReferencePortMap) (x : ParsedExchange) : result BalanceError ReferencePortMap :=
  if x_is_reference x && bool_decide (flow_space_by_identity !! flow_link_identity x = Some Technosphere) then
    port ← reference_port_candidate_from_exchange x;
    Ok (<[flow_link_identity x := default [] (ports !! flow_link_identity x) ++ [port]]> ports)
  else Ok ports.

(** [Option<String>] orders [None] first. *)
Definition option_compare {A} (cmp : A -> A -> comparison) (a b : option A) : comparison :=
  match a, b with
  | None, None => Eq
  | None, Some _ => Lt
  | Some _, None => Gt
  | Some a, Some b => cmp a b
  end.

Definition port_cmp (process_meta : list ProcessMeta) : ReferencePortCandidate -> ReferencePortCandidate -> comparison :=
  cmp_then
    (cmp_by (fun c => from_option meta_process_id 0 (process_meta_for_idx process_meta (rp_process_idx c))) Z.compare)
    (cmp_by rp_internal_id (option_compare String.compare)).

Definition sort_reference_port_candidates (process_meta : list ProcessMeta) (ports : list ReferencePortCandidate)
    : list ReferencePortCandidate := sort_by (port_cmp process_meta) ports.

Definition build_reference_port_map (process_meta : list ProcessMeta) (exchanges : list ParsedExchange)
    : result BalanceError ReferencePortMap :=
  ports ← foldM add_reference_port exchanges ∅;
  Ok (sort_reference_port_candidates process_meta <$> (ports : ReferencePortMap)).
End References.

(** ** One exchange *)

Definition nonzero_residual_coefficient (x : ParsedExchange) : option f64 :=
  if x_is_reference x || bool_decide (x_allocation_state x = Invalid) then None
  else
    direction ← x_direction x;
    amount ← x_amount x;
    match signed_coefficient (signed_flow_direction direction) amount with
    | Ok coefficient => if negb (coefficient =? f64_zero)%f64 then Some coefficient else None
    | _ => None
    end.

(** [a.signum() != b.signum()]. *)
Definition opposite (a b : f64) : bool := negb (f64_signum a =? f64_signum b)%f64.

Definition eligible_balancing_process_indices (ports : option (list ReferencePortCandidate)) (residual : f64) : list Z :=
  match ports with
  | None => []
  | Some ports => dedup (rp_process_idx <$> filter (fun p => opposite (rp_coefficient p) residual = true) ports)
  end.

Definition no_balancing_reference_failure_reason (ports : option (list ReferencePortCandidate))
    : CompiledProviderFailureReason :=
  match ports with Some (_ :: _) => NoOppositeSignReference | _ => NoProviderCandidates end.

Definition compiled_allocation_state (s : AllocationFractionState) : CompiledProviderOutputAllocationState :=
  match s with
  | Present | SparseZero => OutputPresent
  | Missing => OutputMissing
  | Invalid => OutputInvalid
  end.

Section Compile.
Context (flow_space_by_identity : gmap FlowLinkIdentity CompiledFlowSpace) (reference_port_map : ReferencePortMap).
Context (process_meta : list ProcessMeta) (compiled_processes : list CompiledProcess).
Context (provider_rule : ProviderRule) (provider_lineage : ProviderLineageIndex).

Definition compiled_balance_candidate (residual : f64) (port : ReferencePortCandidate)
    : result BalanceError CompiledProviderCandidate :=
  meta ← ok_or (MissingBalancingMeta (rp_process_idx port)) (process_meta_for_idx process_meta (rp_process_idx port));
  Ok {| cand_provider_idx := rp_process_idx port;
        cand_meta := meta;
        cand_internal_id := rp_internal_id port;
        cand_is_reference := true;
        cand_normalized_amount := Some (rp_raw_amount port);
        cand_allocation_state := compiled_allocation_state (rp_allocation_state port);
        cand_eligibility := if opposite (rp_coefficient port) residual
                            then AcceptedOppositeSignReference else RejectedSameSignReference;
        cand_reference_coefficient := Some (rp_coefficient port);
        cand_relationships := [];
        cand_rejection := None |}.

Definition compiled_balance_candidates (ports : option (list ReferencePortCandidate)) (residual : f64)
    : result BalanceError (list CompiledProviderCandidate) :=
  match ports with
  | None => Ok []
  | Some ports => mapR (compiled_balance_candidate residual) ports
  end.

(** The relationships of a provider, in the order of the enumeration. *)
Definition sorted_relationships (s : gset CompiledProviderLineageRelationship)
    : list CompiledProviderLineageRelationship :=
  filter (fun r => r ∈ s) [ModelResultAndComponent; SelectedAndSupersededModelResult; AlternativeModelResult].

Definition annotate (gate : ProviderLineageGate) (c : CompiledProviderCandidate) : CompiledProviderCandidate :=
  {| cand_provider_idx := cand_provider_idx c;
     cand_meta := cand_meta c;
     cand_internal_id := cand_internal_id c;
     cand_is_reference := cand_is_reference c;
     cand_normalized_amount := cand_normalized_amount c;
     cand_allocation_state := cand_allocation_state c;
     cand_eligibility := cand_eligibility c;
     cand_reference_coefficient := cand_reference_coefficient c;
     cand_relationships := sorted_relationships (default ∅ (relationships_by_provider gate !! cand_provider_idx c));
     cand_rejection := rejection_by_provider gate !! cand_provider_idx c |}.

Definition compiled_process_for_idx (idx : Z) : option CompiledProcess :=
  usize_of_i32 idx ≫= fun i => compiled_processes !! i.

Definition count_i32 (what : string) (n : nat) : result BalanceError Z :=
  ok_or (BalanceCountOverflow what) (i32_of_usize n).

(** The counters a choice adds to. *)
Definition count_choice (s : CompiledMatchingStats) (c : ProviderChoice) : CompiledMatchingStats :=
  let multi := match ch_kind c with MultiResolved | MultiUnresolved => 1 | _ => 0 end in
  mk_stats (input_edges_total s)
    (matched_unique_provider s + match ch_kind c with KindUniqueProvider => 1 | _ => 0 end)
    (matched_multi_provider s + multi)
    (unmatched_no_provider s + match ch_kind c with NoProvider => 1 | _ => 0 end)
    (matched_multi_resolved s + match ch_kind c with MultiResolved => 1 | _ => 0 end)
    (matched_multi_unresolved s + match ch_kind c with MultiUnresolved => 1 | _ => 0 end)
    (matched_multi_fallback_equal s + if ch_used_equal_fallback c then 1 else 0)
    (a_input_edges_written s) (residual_edges_total s) (a_balance_edges_written s).

Definition choose_provider (x : ParsedExchange) (anchor : SupplyRegionAnchor) (gate : ProviderLineageGate)
    (ports : option (list ReferencePortCandidate)) : result BalanceError ProviderChoice :=
  if gate_unresolved gate then
    Ok (mk_choice MultiUnresolved None (Some FailureLineageOverlapRequiresBinding) false 0 None [])
  else
    match gate_providers gate with
    | [] => Ok (mk_choice NoProvider None (Some (no_balancing_reference_failure_reason ports)) false 0 None [])
    | [p] =>
        meta ← ok_or (MissingBalancingMeta p) (process_meta_for_idx process_meta p);
        Ok (mk_choice KindUniqueProvider
              (Some (match selected_model_result gate with Some _ => SelectedModelResult | None => UniqueProvider end))
              None false 0
              (Some (provider_geography_tier (anchor_location anchor) (meta_location meta)))
              [(p, f64_one)])
    | providers =>
        d ← map_err LinkFailed (resolve_multi_provider process_meta provider_rule x providers);
        match (d : MultiProviderDecision) with
        | Resolved r =>
            tier ← match geography_tier r with
                   | Some t => Ok (Some t)
                   | None => map_err LinkFailed
                               (best_geography_tier_for_allocations process_meta (anchor_location anchor) (allocations r))
                   end;
            Ok (mk_choice MultiResolved (Some (resolution_strategy r)) None (used_equal_fallback r)
                  (volume_fallback_to_one_count r) tier (allocations r))
        | Unresolved reason => Ok (mk_choice MultiUnresolved None (Some reason) false 0 None [])
        end
    end.

(** The port and weight of one allocation. *)
Definition weighted_port (ports : list ReferencePortCandidate) (allocation : Z * f64)
    : result BalanceError (ReferencePortCandidate * WeightedReferencePort) :=
  port ← ok_or (MissingSelectedPort allocation.1)
    (snd <$> list_find (fun p => rp_process_idx p = allocation.1) ports);
  Ok (port, mk_port (rp_coefficient port) allocation.2).

Definition resolution_of (x : ParsedExchange) (residual : f64) (port : ReferencePortCandidate)
    (weight activity : f64) : CompiledBalanceResolution :=
  {| br_dependent_idx := x_process_idx x;
     br_residual_internal_id := default EmptyString (x_internal_id x);
     br_balancing_idx := rp_process_idx port;
     br_reference_internal_id := default EmptyString (rp_internal_id port);
     br_flow_id := x_flow_id x;
     br_flow_version := x_flow_version x;
     br_residual_coefficient := residual;
     br_reference_coefficient := rp_coefficient port;
     br_routing_weight := weight;
     br_activity_requirement := activity |}.

(** One contribution of a resolved balance: its edges, unless it is zero. *)
Definition push_edge (x : ParsedExchange) (residual : f64) (dependent : CompiledProcess) (batch : CompiledBalanceBatch)
    (c : (ReferencePortCandidate * WeightedReferencePort) * BalanceContribution) : result BalanceError CompiledBalanceBatch :=
  let '(port, weighted, contribution) := c in
  if (activity_requirement contribution =? f64_zero)%f64 then Ok batch
  else
    balancing ← ok_or (MissingBalancingProcess (rp_process_idx port)) (compiled_process_for_idx (rp_process_idx port));
    let edge := {| te_provider_idx := rp_process_idx port;
                   te_consumer_idx := x_process_idx x;
                   te_flow_id := x_flow_id x;
                   te_amount := activity_requirement contribution;
                   te_provider_partition := cp_partition balancing;
                   te_consumer_partition := cp_partition dependent;
                   te_partition := from_partitions (cp_partition balancing) (cp_partition dependent) |} in
    let r := resolution_of x residual port (port_weight weighted) (activity_requirement contribution) in
    Ok (mk_batch (decisions batch) (technosphere_edges batch ++ [edge])
          (release_edges batch ++ [mk_release r (x_location x)]) (resolutions batch ++ [r])
          (unresolved batch) (matching_stats batch)).

Definition count_residual (s : CompiledMatchingStats) : CompiledMatchingStats :=
  mk_stats (input_edges_total s + 1) (matched_unique_provider s) (matched_multi_provider s) (unmatched_no_provider s)
    (matched_multi_resolved s) (matched_multi_unresolved s) (matched_multi_fallback_equal s)
    (a_input_edges_written s) (residual_edges_total s + 1) (a_balance_edges_written s).
Definition count_written (s : CompiledMatchingStats) : CompiledMatchingStats :=
  mk_stats (input_edges_total s) (matched_unique_provider s) (matched_multi_provider s) (unmatched_no_provider s)
    (matched_multi_resolved s) (matched_multi_unresolved s) (matched_multi_fallback_equal s)
    (a_input_edges_written s + 1) (residual_edges_total s) (a_balance_edges_written s + 1).

Definition push_decision (batch : CompiledBalanceBatch) (d : CompiledProviderDecision) : CompiledBalanceBatch :=
  mk_batch (decisions batch ++ [d]) (technosphere_edges batch) (release_edges batch) (resolutions batch)
    (unresolved batch) (count_choice (count_residual (matching_stats batch)) (dec_choice d)).

Definition decide_exchange (x : ParsedExchange) (residual : f64) : result BalanceError CompiledProviderDecision :=
  anchor ← map_err LinkFailed (supply_region_anchor_for_exchange process_meta x);
  let ports := reference_port_map !! flow_link_identity x in
  let eligible := eligible_balancing_process_indices ports residual in
  gate ← map_err LinkFailed (apply_provider_lineage_gate process_meta provider_lineage eligible);
  candidates ← compiled_balance_candidates ports residual;
  candidate_count ← count_i32 "balance candidate" (length eligible);
  choice ← choose_provider x anchor gate ports;
  matched ← count_i32 "balance allocation" (length (ch_allocations choice));
  Ok {| dec_consumer_idx := x_process_idx x;
        dec_flow_id := x_flow_id x;
        dec_flow_version := x_flow_version x;
        dec_candidate_count := candidate_count;
        dec_matched_count := matched;
        dec_candidates := annotate gate <$> (candidates : list CompiledProviderCandidate);
        dec_choice := choice;
        dec_region_source := anchor_source anchor;
        dec_region_location := anchor_location anchor;
        dec_location_present := bool_decide (is_Some (x_location x)) |}.

Definition push_unresolved (batch : CompiledBalanceBatch) (x : ParsedExchange) (residual : f64)
    (d : CompiledProviderDecision) : result BalanceError CompiledBalanceBatch :=
  total ← count_i32 "reference candidate" (length (default [] (reference_port_map !! flow_link_identity x)));
  Ok (mk_batch (decisions batch) (technosphere_edges batch) (release_edges batch) (resolutions batch)
        (unresolved batch ++
          [{| ub_dependent_idx := x_process_idx x;
              ub_residual_internal_id := default EmptyString (x_internal_id x);
              ub_flow_id := x_flow_id x;
              ub_flow_version := x_flow_version x;
              ub_residual_coefficient := residual;
              ub_required_reference_sign := (- f64_signum residual)%f64;
              ub_candidate_count := total;
              ub_opposite_sign_count := dec_candidate_count d |}])
        (matching_stats batch)).

Definition push_balance (batch : CompiledBalanceBatch) (x : ParsedExchange) (residual : f64)
    (allocations : list (Z * f64)) : result BalanceError CompiledBalanceBatch :=
  ports ← ok_or NoReferencePorts (reference_port_map !! flow_link_identity x);
  weighted ← mapR (weighted_port ports) allocations;
  balance ← map_err FlowFailed (resolve_weighted_balance residual (weighted : list (ReferencePortCandidate * _)).*2);
  dependent ← ok_or (MissingDependentProcess (x_process_idx x)) (compiled_process_for_idx (x_process_idx x));
  foldM (push_edge x residual dependent) (zip weighted (contributions balance))
    (mk_batch (decisions batch) (technosphere_edges batch) (release_edges batch) (resolutions batch)
       (unresolved batch) (count_written (matching_stats batch))).

Definition compile_exchange (batch : CompiledBalanceBatch) (x : ParsedExchange)
    : result BalanceError CompiledBalanceBatch :=
  if decide (flow_space_by_identity !! flow_link_identity x <> Some Technosphere) then Ok batch
  else
    match nonzero_residual_coefficient x with
    | None => Ok batch
    | Some residual =>
        d ← decide_exchange x residual;
        let batch := push_decision batch d in
        match ch_allocations (dec_choice d) with
        | [] => push_unresolved batch x residual d
        | allocations => push_balance batch x residual allocations
        end
    end.

Definition compile_signed_flow_balances (exchanges : list ParsedExchange) : result BalanceError CompiledBalanceBatch :=
  foldM compile_exchange exchanges empty_batch.
End Compile.

(** ** A choice allocates exactly when its kind says so *)

Definition resolves (k : CompiledProviderDecisionKind) : bool :=
  match k with KindUniqueProvider | MultiResolved => true | MultiUnresolved | NoProvider => false end.

Lemma equal_shares_nonempty providers : providers <> [] -> equal_shares providers <> [].
Proof. by destruct providers. Qed.

Lemma resolved_nonempty process_meta rule x providers r :
  resolve_multi_provider process_meta rule x providers = Ok (Resolved r) -> allocations r <> [].
Proof.
  intros Hr. assert (providers <> []) as Hne by by destruct providers.
  unfold resolve_multi_provider in Hr. destruct providers as [|p0 ps] eqn:Ep; [done|]. rewrite <- Ep in *. clear p0 ps Ep.
  destruct rule; simplify_eq.
  - apply bind_ok in Hr as ([|s rest] & _ & Hr); [by simplify_eq|].
    destruct (_ <? _)%f64; [by simplify_eq|]. by destruct (ratio_too_close s rest); simplify_eq.
  - apply bind_ok in Hr as (r' & Hv & Hr). simplify_eq.
    apply split_by_process_volume_ok in Hv as (tier & _ & Hs & _ & ->). intros Hn%fmap_nil_inv. done.
  - apply bind_ok in Hr as ([|s rest] & _ & Hr); [by simplify_eq|]. by destruct (_ <=? _)%f64; simplify_eq.
  - apply bind_ok in Hr as ([|s rest] & _ & Hr); simplify_eq; [by apply equal_shares_nonempty|].
    destruct (_ <=? _)%f64; simplify_eq; [by apply equal_shares_nonempty|done].
  - by apply equal_shares_nonempty.
Qed.

Lemma choose_provider_kind process_meta rule x anchor gate ports c :
  choose_provider process_meta rule x anchor gate ports = Ok c ->
  (if decide (ch_allocations c = []) then false else true) = resolves (ch_kind c)
  /\ (ch_used_equal_fallback c = true -> ch_kind c = MultiResolved).
Proof.
  unfold choose_provider. destruct (gate_unresolved gate); [intros ?; by inv_result|].
  destruct (gate_providers gate) as [|p [|q ps]].
  - intros ?. by inv_result.
  - intros (meta & _ & H)%bind_ok. by inv_result.
  - intros (d & Hd & H)%bind_ok. unfold map_err in Hd.
    destruct (resolve_multi_provider process_meta rule x (p :: q :: ps)) as [d'|e|] eqn:Er; inv_result.
    destruct d as [r|reason]; [|by inv_result].
    apply bind_ok in H as (tier & _ & H). inv_result. cbn. apply resolved_nonempty in Er.
    by rewrite decide_False by done.
Qed.

(** ** The effect of one exchange *)

Section Effect.
Context (flow_space_by_identity : gmap FlowLinkIdentity CompiledFlowSpace) (reference_port_map : ReferencePortMap).
Context (process_meta : list ProcessMeta) (compiled_processes : list CompiledProcess).
Context (provider_rule : ProviderRule) (provider_lineage : ProviderLineageIndex).

#[local] Abbreviation compile_exchange := (compile_exchange flow_space_by_identity reference_port_map process_meta
  compiled_processes provider_rule provider_lineage).
#[local] Abbreviation decide_exchange := (decide_exchange reference_port_map process_meta provider_rule provider_lineage).

(** The residual an exchange leaves to be balanced. *)
Definition residual_of (x : ParsedExchange) : option f64 :=
  if decide (flow_space_by_identity !! flow_link_identity x = Some Technosphere)
  then nonzero_residual_coefficient x else None.

(** What an edge and a resolution have in common. *)
Definition edge_key (e : CompiledTechnosphereEdge) : Z * Z * Uuid * f64 :=
  (te_provider_idx e, te_consumer_idx e, te_flow_id e, te_amount e).
Definition resolution_key (r : CompiledBalanceResolution) : Z * Z * Uuid * f64 :=
  (br_balancing_idx r, br_dependent_idx r, br_flow_id r, br_activity_requirement r).

Definition known_process (idx : Z) : Prop := is_Some (compiled_process_for_idx compiled_processes idx).
Definition edge_known (e : CompiledTechnosphereEdge) : Prop :=
  known_process (te_provider_idx e) /\ known_process (te_consumer_idx e).

(** The resolutions of the contributions that are not zero. *)
Definition resolutions_of (x : ParsedExchange) (residual : f64) (l : list (ReferencePortCandidate * BalanceContribution))
    : list CompiledBalanceResolution :=
  (fun pc => resolution_of x residual pc.1 (routing_weight pc.2) (activity_requirement pc.2))
    <$> filter (fun pc => (activity_requirement pc.2 =? f64_zero)%f64 = false) l.

(** A port that balances the residual, and its contribution. *)
Definition balances (residual : f64) (ports : list ReferencePortCandidate) (port : ReferencePortCandidate)
    (c : BalanceContribution) : Prop :=
  port ∈ ports /\ c = contribution_of residual (mk_port (rp_coefficient port) (routing_weight c))
  /\ is_sign_negative residual = negb (is_sign_negative (rp_coefficient port))
  /\ is_finite (activity_requirement c) = true /\ (f64_zero <=? activity_requirement c)%f64 = true.

(** The resolutions of a balanced residual. *)
Definition balanced (x : ParsedExchange) (residual : f64) (rs : list CompiledBalanceResolution) : Prop :=
  exists ports chosen cs,
    reference_port_map !! flow_link_identity x = Some ports
    /\ Forall2 (balances residual ports) chosen cs
    /\ (f64_abs (residual + balanced_sum cs f64_zero)
          <=? SIGNED_FLOW_CLOSURE_TOLERANCE * f64_max (f64_abs residual) f64_one)%f64 = true
    /\ rs = resolutions_of x residual (zip chosen cs).

Lemma push_edges_ok x residual dep l batch batch' :
  compiled_process_for_idx compiled_processes (x_process_idx x) = Some dep ->
  Forall (fun pwc => port_weight pwc.1.2 = routing_weight pwc.2) l ->
  foldM (push_edge compiled_processes x residual dep) l batch = Ok batch' ->
  exists es, let rs := resolutions_of x residual ((fun pwc => (pwc.1.1, pwc.2)) <$> l) in
    batch' = mk_batch (decisions batch) (technosphere_edges batch ++ es)
               (release_edges batch ++ ((fun r => mk_release r (x_location x)) <$> rs)) (resolutions batch ++ rs)
               (unresolved batch) (matching_stats batch)
    /\ edge_key <$> es = resolution_key <$> rs /\ Forall edge_known es.
Proof.
  intros Hdep Hall. revert batch. induction Hall as [|[[port w] c] l Hw _ IH]; intros batch Hf; cbn [foldM] in Hf.
  { inv_result. exists []. cbn. rewrite !app_nil_r. split_and!; [by destruct batch'|done|constructor]. }
  apply bind_ok in Hf as (b1 & Hp & Hf). unfold push_edge in Hp. cbn [fst snd] in Hw.
  unfold resolutions_of. rewrite fmap_cons, filter_cons. cbn [fst snd].
  destruct (activity_requirement c =? f64_zero)%f64 eqn:Ez.
  - inv_result. apply IH in Hf as (es & Hb & Hk & He). exists es. by rewrite decide_False by done.
  - apply bind_ok in Hp as (balancing & Hb & Hp). unfold ok_or in Hb.
    destruct (compiled_process_for_idx compiled_processes (rp_process_idx port)) as [cp|] eqn:Ecp; inv_result.
    apply IH in Hf as (es & Hb & Hk & He). cbn in Hb. rewrite decide_True by done. rewrite !fmap_cons.
    eexists (_ :: es). cbn zeta. split_and!.
    + rewrite Hb. cbn. rewrite <- !app_assoc. cbn. rewrite Hw. reflexivity.
    + rewrite fmap_cons. by rewrite Hk.
    + constructor; [|done]. split; cbn; [by eexists|by exists dep].
Qed.

Lemma weighted_ports_ok ports allocations weighted :
  mapR (weighted_port ports) allocations = Ok weighted ->
  Forall (fun pw : ReferencePortCandidate * WeightedReferencePort =>
    pw.1 ∈ ports /\ port_coefficient pw.2 = rp_coefficient pw.1) weighted.
Proof.
  intros Hm%mapR_ok. induction Hm as [|a pw l ws Ha _ IH]; constructor; [|done]. unfold weighted_port in Ha.
  apply bind_ok in Ha as (port & Hp & Ha). inv_result. unfold ok_or in Hp.
  destruct (list_find _ ports) as [[i p]|] eqn:Ef; cbn in Hp; inv_result. cbn. split; [|done].
  apply list_find_Some in Ef as (Hi & _ & _). by eapply list_elem_of_lookup_2.
Qed.

Lemma residual_nonzero x residual :
  nonzero_residual_coefficient x = Some residual ->
  is_finite residual = true /\ (residual =? f64_zero)%f64 = false.
Proof.
  unfold nonzero_residual_coefficient. destruct (_ || _); [done|].
  destruct (x_direction x) as [d|]; [|done]. destruct (x_amount x) as [a|]; [|done]. cbn.
  unfold signed_coefficient. destruct (is_finite a); [|done]. cbn.
  destruct (is_finite (sign (signed_flow_direction d) * a)%f64) eqn:Ef; [|done]. cbn.
  destruct (sign (signed_flow_direction d) * a =? f64_zero)%f64 eqn:Ez; [done|]. cbn. by intros [= <-].
Qed.

Lemma push_balance_ok x residual batch allocations batch' :
  nonzero_residual_coefficient x = Some residual ->
  push_balance reference_port_map compiled_processes batch x residual allocations = Ok batch' ->
  exists es rs,
    batch' = mk_batch (decisions batch) (technosphere_edges batch ++ es)
               (release_edges batch ++ ((fun r => mk_release r (x_location x)) <$> rs)) (resolutions batch ++ rs)
               (unresolved batch) (count_written (matching_stats batch))
    /\ edge_key <$> es = resolution_key <$> rs /\ Forall edge_known es /\ balanced x residual rs.
Proof.
  intros [Hfin Hz]%residual_nonzero Hp. unfold push_balance in Hp. apply bind_ok in Hp as (ports & Hports & Hp).
  unfold ok_or in Hports. destruct (reference_port_map !! flow_link_identity x) as [ports'|] eqn:Ep; inv_result.
  apply bind_ok in Hp as (weighted & Hw & Hp). apply weighted_ports_ok in Hw.
  apply bind_ok in Hp as (b & Hb & Hp). unfold map_err in Hb.
  destruct (resolve_weighted_balance residual weighted.*2) as [b'|e|] eqn:Er; inv_result.
  apply resolve_ok_inv in Er as (_ & Hall & Hc & Hcl & _ & Htol); [|done].
  apply bind_ok in Hp as (dep & Hdep & Hp). unfold ok_or in Hdep.
  destruct (compiled_process_for_idx compiled_processes (x_process_idx x)) as [cp|] eqn:Ecp; inv_result.
  apply push_edges_ok in Hp as (es & Hb' & Hk & He); [|done|].
  2: { rewrite Hc. clear. induction weighted as [|[port w] l IH]; [constructor|]. cbn. by constructor. }
  cbn in Hb'. assert ((fun pwc : (ReferencePortCandidate * WeightedReferencePort) * BalanceContribution => (pwc.1.1, pwc.2))
    <$> zip weighted (contributions b) = zip weighted.*1 (contributions b)) as Hzip.
  { generalize (contributions b). clear. induction weighted as [|w l IH]; intros [|c cs]; cbn; [done..|]. by rewrite <- IH. }
  rewrite Hzip in *. eexists es, _. split_and!; [exact Hb'|exact Hk|exact He|].
  exists ports, weighted.*1, (contributions b). split_and!; [done| | |done].
  - rewrite Hc. clear - Hw Hall Hfin Hz. induction Hw as [|[port w] l [Hin Hco] _ IH]; cbn in *; [constructor|].
    apply Forall_cons in Hall as [Hp Hall]. constructor; [|by apply IH].
    destruct Hp as (_ & _ & Hpf & Hpz & Hop & Haf & Ha). unfold balances. rewrite <- Hco.
    split_and!; [done| |by apply opposite_signs|done|done]. by destruct w.
  - by rewrite <- Hcl.
Qed.

Definition exchange_key (x : ParsedExchange) : Z * Uuid * string := (x_process_idx x, x_flow_id x, x_flow_version x).
Definition decision_key (d : CompiledProviderDecision) : Z * Uuid * string :=
  (dec_consumer_idx d, dec_flow_id d, dec_flow_version d).

(** The record left for a residual without providers. *)
Definition left_open (x : ParsedExchange) (residual : f64) (u : CompiledUnresolvedBalance) : Prop :=
  (ub_dependent_idx u, ub_flow_id u, ub_flow_version u) = exchange_key x
  /\ ub_residual_coefficient u = residual /\ ub_required_reference_sign u = (- f64_signum residual)%f64.

Definition kind (d : CompiledProviderDecision) : CompiledProviderDecisionKind := ch_kind (dec_choice d).

Lemma decide_exchange_ok x residual d :
  decide_exchange x residual = Ok d ->
  decision_key d = exchange_key x
  /\ (if decide (ch_allocations (dec_choice d) = []) then false else true) = resolves (kind d)
  /\ (ch_used_equal_fallback (dec_choice d) = true -> kind d = MultiResolved).
Proof.
  unfold Balance.decide_exchange. intros (anchor & _ & H)%bind_ok. apply bind_ok in H as (gate & _ & H).
  apply bind_ok in H as (candidates & _ & H). apply bind_ok in H as (count & _ & H).
  apply bind_ok in H as (choice & Hc & H). apply bind_ok in H as (matched & _ & H). inv_result.
  split; [done|]. unfold kind. cbn. by eapply choose_provider_kind.
Qed.

(** What one exchange appends to the batch. *)
Lemma compile_exchange_ok batch x batch' :
  compile_exchange batch x = Ok batch' ->
  (residual_of x = None /\ batch' = batch)
  \/ exists residual d es rs us,
       residual_of x = Some residual /\ decide_exchange x residual = Ok d
       /\ (let s := count_choice (count_residual (matching_stats batch)) (dec_choice d) in
           batch' = mk_batch (decisions batch ++ [d]) (technosphere_edges batch ++ es)
             (release_edges batch ++ ((fun r => mk_release r (x_location x)) <$> rs)) (resolutions batch ++ rs)
             (unresolved batch ++ us) (if resolves (kind d) then count_written s else s))
       /\ edge_key <$> es = resolution_key <$> rs /\ Forall edge_known es
       /\ if resolves (kind d) then us = [] /\ balanced x residual rs
          else rs = [] /\ exists u, us = [u] /\ left_open x residual u.
Proof.
  unfold Balance.compile_exchange, residual_of. intros H.
  destruct (decide (flow_space_by_identity !! flow_link_identity x <> Some Technosphere)) as [Hs|Hs].
  { inv_result. left. by rewrite decide_False. }
  rewrite decide_True by (destruct (decide (flow_space_by_identity !! flow_link_identity x = Some Technosphere)); tauto).
  destruct (nonzero_residual_coefficient x) as [residual|] eqn:Er; [right|by inv_result; left].
  apply bind_ok in H as (d & Hd & H). pose proof (decide_exchange_ok _ _ _ Hd) as (_ & Ha & _).
  exists residual, d. destruct (ch_allocations (dec_choice d)) as [|a l] eqn:Ea.
  - rewrite decide_True in Ha by done. rewrite <- Ha. unfold push_unresolved in H.
    apply bind_ok in H as (total & _ & H). inv_result. eexists [], [], [_]. cbn. rewrite !app_nil_r.
    split_and!; [done|done|reflexivity|done|constructor|done|]. eexists. split; [reflexivity|]. done.
  - rewrite decide_False in Ha by done. rewrite <- Ha.
    apply push_balance_ok in H as (es & rs & -> & Hk & He & Hb); [|done].
    exists es, rs, []. cbn. rewrite app_nil_r. by split_and!.
Qed.

(** ** The whole batch *)

Definition count_of (k : CompiledProviderDecisionKind) (l : list CompiledProviderDecision) : Z :=
  Z.of_nat (length (filter (fun d => kind d = k) l)).

Lemma count_of_snoc k l d : count_of k (l ++ [d]) = count_of k l + if decide (kind d = k) then 1 else 0.
Proof.
  unfold count_of. rewrite filter_app, length_app, filter_cons, filter_nil. case_decide; cbn; lia.
Qed.

(** The counters are the numbers of decisions of each kind. *)
Record stats_ok (batch : CompiledBalanceBatch) : Prop := {
  so_total : input_edges_total (matching_stats batch) = Z.of_nat (length (decisions batch));
  so_residual : residual_edges_total (matching_stats batch) = input_edges_total (matching_stats batch);
  so_unique : matched_unique_provider (matching_stats batch) = count_of KindUniqueProvider (decisions batch);
  so_resolved : matched_multi_resolved (matching_stats batch) = count_of MultiResolved (decisions batch);
  so_unresolved : matched_multi_unresolved (matching_stats batch) = count_of MultiUnresolved (decisions batch);
  so_none : unmatched_no_provider (matching_stats batch) = count_of NoProvider (decisions batch);
  so_multi : matched_multi_provider (matching_stats batch)
             = matched_multi_resolved (matching_stats batch) + matched_multi_unresolved (matching_stats batch);
  so_sum : input_edges_total (matching_stats batch)
           = matched_unique_provider (matching_stats batch) + matched_multi_provider (matching_stats batch)
             + unmatched_no_provider (matching_stats batch);
  so_fallback : 0 <= matched_multi_fallback_equal (matching_stats batch)
                  <= matched_multi_resolved (matching_stats batch);
  so_written : a_input_edges_written (matching_stats batch)
               = matched_unique_provider (matching_stats batch) + matched_multi_resolved (matching_stats batch);
  so_balance : a_balance_edges_written (matching_stats batch) = a_input_edges_written (matching_stats batch);
  so_open : Z.of_nat (length (unresolved batch))
            = input_edges_total (matching_stats batch) - a_input_edges_written (matching_stats batch);
}.

Lemma stats_ok_step batch d es rel rs us :
  stats_ok batch -> (ch_used_equal_fallback (dec_choice d) = true -> kind d = MultiResolved) ->
  length us = (if resolves (kind d) then 0 else 1)%nat ->
  let s := count_choice (count_residual (matching_stats batch)) (dec_choice d) in
  stats_ok (mk_batch (decisions batch ++ [d]) es rel rs (unresolved batch ++ us)
              (if resolves (kind d) then count_written s else s)).
Proof.
  intros [] Hf Hu s. unfold s, count_choice, count_residual, count_written. fold (kind d).
  destruct (ch_used_equal_fallback (dec_choice d)); [specialize (Hf eq_refl); rewrite Hf in Hu |- *; cbn in Hu|clear Hf;
    destruct (kind d) eqn:Ek; cbn in Hu]; constructor; cbn;
    rewrite ?count_of_snoc, ?length_app, ?Hf, ?Ek; cbn; repeat case_decide; (lia || congruence).
Qed.

(** Edges, release edges and resolutions tell the same story. *)
Definition aligned (batch : CompiledBalanceBatch) : Prop :=
  edge_key <$> technosphere_edges batch = resolution_key <$> resolutions batch
  /\ re_resolution <$> release_edges batch = resolutions batch
  /\ Forall edge_known (technosphere_edges batch).

Lemma batch_ok exchanges batch :
  compile_signed_flow_balances flow_space_by_identity reference_port_map process_meta compiled_processes provider_rule
    provider_lineage exchanges = Ok batch ->
  decision_key <$> decisions batch = exchange_key <$> filter (fun x => is_Some (residual_of x)) exchanges
  /\ stats_ok batch /\ aligned batch
  /\ exists per, resolutions batch = mjoin per /\ Forall2 (fun x rs =>
       match residual_of x with
       | None => rs = []
       | Some residual => balanced x residual rs \/ (rs = [] /\ exists u, u ∈ unresolved batch /\ left_open x residual u)
       end) exchanges per.
Proof.
  intros Hf. eapply (foldM_ind (fun (pre : list ParsedExchange) (batch : CompiledBalanceBatch) =>
    decision_key <$> decisions batch = exchange_key <$> filter (fun x => is_Some (residual_of x)) pre
    /\ stats_ok batch /\ aligned batch
    /\ exists per, resolutions batch = mjoin per /\ Forall2 (fun x rs =>
       match residual_of x with
       | None => rs = []
       | Some residual => balanced x residual rs \/ (rs = [] /\ exists u, u ∈ unresolved batch /\ left_open x residual u)
       end) pre per)) in Hf; [exact Hf| |].
  - split_and!; [done|by constructor|split_and!; [done|done|constructor]|]. exists []. split; [done|constructor].
  - intros pre x post b b' _ (Hd & Hs & (Hk & Hre & He) & per & Hper & Hall)
      [[Hn ->]|(residual & d & es & rs & us & Hx & Hdx & -> & Hk' & He' & Hcase)]%compile_exchange_ok.
    + rewrite filter_app, filter_cons, filter_nil, decide_False, app_nil_r by (rewrite Hn; intros [? ?]; done).
      split_and!; [done..|]. exists (per ++ [[]]). rewrite join_app. cbn. rewrite app_nil_r. split; [done|].
      apply Forall2_app; [done|]. constructor; [by rewrite Hn|constructor].
    + apply decide_exchange_ok in Hdx as (Hkey & Ha & Hfb).
      rewrite filter_app, filter_cons, filter_nil, decide_True by (rewrite Hx; by eexists). split_and!.
      * cbn. rewrite !fmap_app, Hd. cbn. by rewrite Hkey.
      * apply stats_ok_step; [done|done|]. destruct (resolves (kind d)).
        -- by destruct Hcase as [-> _].
        -- by destruct Hcase as (_ & u & -> & _).
      * unfold aligned. cbn. rewrite !fmap_app, Hk, Hk', Hre, <- list_fmap_compose. split_and!; [done| |].
        -- f_equal. apply list_fmap_id.
        -- by apply Forall_app.
      * exists (per ++ [rs]). cbn. rewrite join_app, Hper. cbn. rewrite app_nil_r. split; [done|].
        apply Forall2_app; [|constructor; [|constructor]].
        -- eapply Forall2_impl; [exact Hall|]. intros y ys. cbn. destruct (residual_of y); [|done].
           intros [?|(? & u & ? & ?)]; [by left|]. right. split; [done|]. exists u. rewrite elem_of_app. auto.
        -- rewrite Hx. destruct (resolves (kind d)).
           ++ left. apply Hcase.
           ++ right. destruct Hcase as (-> & u & -> & Hu). split; [done|]. exists u.
              rewrite elem_of_app, list_elem_of_singleton. auto.
Qed.
End Effect.


(** C5: every technosphere edge balances a residual.  The resolutions are,
    exchange by exchange, those of one balance: each port taken from the
    flow's reference ports has the sign opposite to the residual, its activity
    is finite, non-negative and the residual's share by its weight, and the
    activities close the residual within the tolerance.  An exchange without
    residual contributes nothing, and one that is not balanced is recorded as
    unresolved with the sign it needs. *)
Theorem technosphere_edges_balance flow_space ports process_meta processes rule lineage exchanges batch :
  compile_signed_flow_balances flow_space ports process_meta processes rule lineage exchanges = Ok batch ->
  edge_key <$> technosphere_edges batch = resolution_key <$> resolutions batch
  /\ exists per, resolutions batch = mjoin per /\ Forall2 (fun x rs =>
       match residual_of flow_space x with
       | None => rs = []
       | Some residual =>
           balanced ports x residual rs \/ (rs = [] /\ exists u, u ∈ unresolved batch /\ left_open x residual u)
       end) exchanges per.
Proof. intros Hb. apply batch_ok in Hb as (_ & _ & (Hk & _) & Hper). by split. Qed.

(** ** A concrete batch *)

(** Each of the example processes supplies flow [40 + idx] but the last two,
    which both supply flow 50. *)
Definition reference_output (idx flow : Z) : ParsedExchange :=
  {| x_process_idx := idx; x_flow_id := flow; x_direction := Some DirOutput; x_direction_label := "Output";
     x_internal_id := Some "0"%string; x_exchange_id := "0"; x_flow_version := "1"; x_is_reference := true;
     x_raw_amount := Some f64_one; x_signed_raw_coefficient := Some f64_one; x_amount := Some f64_one;
     x_allocation_state := Missing; x_allocation_fraction := f64_one; x_allocation_target := "0";
     x_location := None |}.
Definition example_exchanges : list ParsedExchange :=
  [reference_output 0 40; example_exchange; reference_output 1 41; reference_output 2 50; reference_output 3 50].
Definition example_flow_space : gmap FlowLinkIdentity CompiledFlowSpace :=
  {[mk_flow 40 "1" := Technosphere; mk_flow 41 "1" := Technosphere; mk_flow 50 "1" := Technosphere]}.
Definition example_compiled : list CompiledProcess := (fun m => {| cp_meta := m; cp_partition := Public |}) <$> example_processes.
Definition example_lineage : ProviderLineageIndex :=
  {| model_components := ∅; result_models := ∅; component_models := ∅; selected_results := ∅ |}.

Definition example_batch : result BalanceError CompiledBalanceBatch :=
  ports ← build_reference_port_map example_flow_space example_processes example_exchanges;
  compile_signed_flow_balances example_flow_space ports example_processes example_compiled SplitByProcessVolume
    example_lineage example_exchanges.

Lemma example_ports_exist :
  exists ports, build_reference_port_map example_flow_space example_processes example_exchanges = Ok ports.
Proof. eexists. vm_compute. reflexivity. Qed.

Definition batch_edges (r : result BalanceError CompiledBalanceBatch) : option (list (Z * Z * Uuid * f64)) :=
  match r with Ok b => Some (edge_key <$> technosphere_edges b) | _ => None end.

Lemma example_batch_edges :
  batch_edges example_batch = Some [(2, 0, 50, f64_of_ratio 3 4); (3, 0, 50, f64_of_ratio 1 4)].
Proof. vm_compute. reflexivity. Qed.


Lemma technosphere_edges_balance_witness :
  exists b, example_batch = Ok b /\ resolution_key <$> resolutions b = [(2, 0, 50, f64_of_ratio 3 4); (3, 0, 50, f64_of_ratio 1 4)].
Proof.
  pose proof example_batch_edges as He. destruct example_ports_exist as [ports Hp].
  unfold example_batch in *. rewrite Hp in *. cbn [mbind result_bind] in *.
  destruct (compile_signed_flow_balances example_flow_space ports example_processes example_compiled
    SplitByProcessVolume example_lineage example_exchanges) as [b|e|] eqn:Eb; [|discriminate He..].
  exists b. split; [done|].
  destruct (technosphere_edges_balance example_flow_space ports example_processes example_compiled SplitByProcessVolume
    example_lineage example_exchanges b Eb) as [Hk _].
  rewrite <- Hk. cbn [batch_edges] in He. by injection He.
Defined.
