(* ===== verification/Exchange.v ===== *)
(** * Parsing one process document

    Models the parsing of a process data set in [bin/snapshot_builder.rs]: its
    descriptive fields, the quantitative reference and its normalization, and
    [parse_process_chunk], which turns the exchanges of the document into
    [ParsedExchange]s with normalized, attributed amounts.

    [Uuid::parse_str], the [Display] of a [Uuid] and of a floating-point
    [Number] belong to third-party crates and are arguments. *)

From S2P Require Import Prelude F64 Text Json SignedFlow Location ProviderLink Tidas Balance.
From stdpp Require Import pretty.

Local Open Scope string_scope.
Local Open Scope Z_scope.
Local Open Scope list_scope.

Record ProcessRow := {
  row_id : Uuid;
  row_version : string;
  row_model_id : option Uuid;
  row_model_version : option string;
  row_user_id : option Uuid;
  row_state_code : Z;
  row_team_id : option Uuid;
  row_review_id : option Uuid;
  (** [DateTime<Utc>], as its time stamp. *)
  row_modified_at : option Z;
  row_json : Value;
}.

Inductive AllocationFallbackState := FallbackNone | FallbackLegacyEmptyUndeclared | LegacySingleReferenceTargetInferred.

Record ReferenceParseStats := mk_reference_stats {
  missing_reference : Z;
  invalid_reference : Z;
  normalized_processes : Z;
}.

Record AllocationParseStats := mk_allocation_stats {
  exchange_total : Z;
  fraction_present_count : Z;
  fraction_missing_count : Z;
  fraction_invalid_count : Z;
  legacy_empty_allocation_as_undeclared_count : Z;
  legacy_single_reference_target_inferred_count : Z;
}.

Inductive ExchangeError :=
| MultipleReferences (ids : list string)
| ReferenceIdMissing
| ReferenceMatches (id : string) (count : nat)
| ReferenceDirectionMissing (id : string)
| ReferenceAmountNotFinite (id : string)
| ReferenceInvalid (id : string) (e : SignedFlowError)
| AllocationInvalid (e : TidasError)
| CoefficientInvalid (e : SignedFlowError)
| PivotMismatch (expected actual : f64).

(** ** Fields of the document *)

(** [v.get(a).and_then(|v| v.get(b))..] along a path is [pointer]. *)
Definition process_exchange_items (process_json : Value) : list Value :=
  match pointer ["processDataSet"; "exchanges"; "exchange"] process_json with
  | Some (JArray items) => items
  | Some (JObject map) => [JObject map]
  | _ => []
  end.

Definition parse_reference_internal_ids (process_json : Value) : list string :=
  match pointer ["processDataSet"; "processInformation"; "quantitativeReference"; "referenceToReferenceFlow"] process_json with
  | None => []
  | Some value => omap (fun v => trimmed_text (Some v)) (match value with JArray values => values | _ => [value] end)
  end.

Definition parse_reference_internal_id (process_json : Value) : option string :=
  match parse_reference_internal_ids process_json with [id] => Some id | _ => None end.

Definition parse_exchange_internal_id (exchange_json : Value) : option string :=
  trimmed_text (get "@dataSetInternalID" exchange_json).

Definition is_reference_internal_exchange (exchange_internal_id reference_internal_id : option string) : bool :=
  match reference_internal_id with
  | Some reference => bool_decide (exchange_internal_id = Some reference)
  | None => false
  end.

Definition parse_number (value : option Value) : option f64 :=
  number ← match value with
           | Some (JString text) => parse_f64 (remove_char "," text)
           | Some (JNumber number) => as_f64 number
           | _ => None
           end;
  if is_finite number then Some number else None.

(** [items.iter().find_map(f)]. *)
Definition find_map {A B} (f : A -> option B) : list A -> option B :=
  fix go l := match l with [] => None | x :: l => match f x with Some b => Some b | None => go l end end.

Fixpoint parse_location_string_value (value : Value) : option string :=
  match value with
  | JArray items => find_map parse_location_string_value items
  | JObject _ =>
      trimmed_text (match get "@location" value with Some v => Some v | None => get "#text" value end)
  | JString text => nonempty (trim text)
  | _ => None
  end.

Definition parse_exchange_location (exchange_json : Value) : option string :=
  get "location" exchange_json ≫= parse_location_string_value.

Definition parse_process_location (process_json : Value) : option string :=
  trimmed_text (pointer ["processDataSet"; "processInformation"; "geography";
                         "locationOfOperationSupplyOrProduction"; "@location"] process_json).

Definition parse_process_name (process_json : Value) : option string :=
  let base := pointer ["processDataSet"; "processInformation"; "dataSetInformation"; "name"; "baseName"] process_json in
  let first := base ≫= fun v => match v with JArray items => head items | JObject _ => Some v | _ => None end in
  trimmed_text (first ≫= fun v => match get "#text" v with Some t => Some t | None => Some v end).

Definition parse_process_reference_year (process_json : Value) : option Z :=
  match pointer ["processDataSet"; "processInformation"; "time"; "common:referenceYear"] process_json with
  | Some (JNumber number) =>
      year ← as_i64 number; if (I32_MIN <=? year) && (year <=? I32_MAX) then Some year else None
  | Some (JString text) => parse_i32 (trim text)
  | _ => None
  end.

Definition parse_positive_number_prefix (text : string) : option f64 :=
  token ← first_word text;
  value ← parse_f64 (remove_char "," token);
  if is_finite value && (value >? f64_zero)%f64 then Some value else None.

Fixpoint parse_string_multi_lang_number_prefix (value : Value) : option f64 :=
  match value with
  | JArray items => find_map parse_string_multi_lang_number_prefix items
  | JObject _ => (get "#text" value ≫= as_str) ≫= parse_positive_number_prefix
  | JString text => parse_positive_number_prefix text
  | _ => None
  end.

Definition parse_process_annual_supply_or_production_volume (process_json : Value) : option f64 :=
  pointer ["processDataSet"; "modellingAndValidation"; "dataSourcesTreatmentAndRepresentativeness";
           "annualSupplyOrProductionVolume"] process_json ≫= parse_string_multi_lang_number_prefix.

Definition parse_exchange_direction (value : option string) : option ExchangeDirection :=
  match value with
  | Some text =>
      if decide (trim text = "Input") then Some DirInput
      else if decide (trim text = "Output") then Some DirOutput else None
  | None => None
  end.

(** ** The quantitative reference *)

Definition resolve_reference_normalization (process_json : Value) (exchanges : list Value)
    : result ExchangeError (ReferencePivot * ReferenceParseStats) :=
  let ids := parse_reference_internal_ids process_json in
  _ ← ensure (length ids <=? 1)%nat (MultipleReferences ids);
  id ← ok_or ReferenceIdMissing (head ids);
  let matches := filter (fun exchange => parse_exchange_internal_id exchange = Some id) exchanges in
  _ ← ensure (length matches =? 1)%nat (ReferenceMatches id (length matches));
  exchange ← expect (matches !! 0%nat);
  direction ← ok_or (ReferenceDirectionMissing id)
                (parse_exchange_direction (get "exchangeDirection" exchange ≫= as_str));
  amount ← ok_or (ReferenceAmountNotFinite id) (parse_number (preferred_calculation_amount_value exchange));
  raw ← map_err (ReferenceInvalid id) (signed_coefficient (signed_flow_direction direction) amount);
  pivot ← map_err (ReferenceInvalid id) (normalize_reference_coefficient raw);
  Ok (pivot, mk_reference_stats 0 0 1).

Definition allocation_fraction_parts (resolution : TidasAllocationResolution)
    : f64 * AllocationFractionState * AllocationFallbackState :=
  match resolution with
  | Undeclared => (f64_one, Missing, FallbackNone)
  | LegacyEmptyUndeclared => (f64_one, Missing, FallbackLegacyEmptyUndeclared)
  | Explicit fraction => (fraction, Present, FallbackNone)
  | LegacyInferredReference fraction => (fraction, Present, LegacySingleReferenceTargetInferred)
  | Tidas.SparseZero => (f64_zero, ProviderLink.SparseZero, FallbackNone)
  end.

(** The increments of the allocation counters for one exchange. *)
Definition count_allocation (s : AllocationParseStats) (state : AllocationFractionState)
    (fallback : AllocationFallbackState) : AllocationParseStats :=
  mk_allocation_stats (exchange_total s + 1)
    (fraction_present_count s + match state with Present | ProviderLink.SparseZero => 1 | _ => 0 end)
    (fraction_missing_count s + match state with Missing => 1 | _ => 0 end)
    (fraction_invalid_count s + match state with Invalid => 1 | _ => 0 end)
    (legacy_empty_allocation_as_undeclared_count s
     + match fallback with FallbackLegacyEmptyUndeclared => 1 | _ => 0 end)
    (legacy_single_reference_target_inferred_count s
     + match fallback with LegacySingleReferenceTargetInferred => 1 | _ => 0 end).

(** ** The exchanges of a process *)

Section Parse.
Context (parse_uuid : string -> option Uuid) (show_uuid : Uuid -> string) (show_f64 : f64 -> string).

Definition parse_uuid_at (value : Value) (path : list string) : option Uuid :=
  (pointer path value ≫= as_str) ≫= parse_uuid.

Definition flow_of_exchange (exchange : Value) : option Uuid :=
  parse_uuid_at exchange ["referenceToFlowDataSet"; "@refObjectId"].

(** The locals of the loop over the exchanges of one process. *)
Record chunk_state := mk_chunk {
  local_exchanges : list ParsedExchange;
  local_flow_ids : gset Uuid;
  local_allocation : AllocationParseStats;
}.

Section Chunk.
Context (row : ProcessRow) (process_idx : Z) (pivot : ReferencePivot) (reference : string).
Context (resolutions : list TidasAllocationResolution).

(** [raw * scale * fraction], if it is finite. *)
Definition attributed_amount (raw : option f64) (fraction : f64) : option f64 :=
  raw ← raw;
  let normalized := (raw * scale pivot * fraction)%f64 in
  if is_finite normalized then Some normalized else None.

(** [direction.zip(raw).map(|..| signed_coefficient(..)).transpose()?]. *)
Definition signed_raw (direction : option ExchangeDirection) (raw : option f64) : result ExchangeError (option f64) :=
  match direction, raw with
  | Some d, Some raw =>
      c ← map_err CoefficientInvalid (signed_coefficient (signed_flow_direction d) raw); Ok (Some c)
  | _, _ => Ok None
  end.

(** The normalized reference must be the pivot. *)
Definition check_pivot (is_reference : bool) (direction : option ExchangeDirection) (amount : option f64)
    : result ExchangeError unit :=
  match is_reference, direction, amount with
  | true, Some d, Some amount =>
      c ← map_err CoefficientInvalid (signed_coefficient (signed_flow_direction d) amount);
      ensure (negb (f64_abs (c - coefficient pivot) >? SIGNED_FLOW_CLOSURE_TOLERANCE)%f64)
        (PivotMismatch (coefficient pivot) c)
  | _, _, _ => Ok tt
  end.

Definition direction_label_of (exchange : Value) : string :=
  default "unknown" (trimmed_text (get "exchangeDirection" exchange)).
Definition flow_version_of (exchange : Value) : string :=
  default "unknown" (trimmed_text (get "referenceToFlowDataSet" exchange ≫= get "@version")).

Definition parse_exchange (st : chunk_state) (ix : nat * Value) : result ExchangeError chunk_state :=
  let '(index, ex) := ix in
  let direction_label := direction_label_of ex in
  let direction := parse_exchange_direction (Some direction_label) in
  match flow_of_exchange ex with
  | None => Ok st
  | Some flow_id =>
      let internal_id := parse_exchange_internal_id ex in
      let exchange_id :=
        (show_uuid (row_id row) ++ ":" ++ row_version row ++ ":" ++ default (pretty index) internal_id)%string in
      resolution ← expect (resolutions !! index);
      let '(fraction, state, fallback) := allocation_fraction_parts resolution in
      let is_reference := is_reference_internal_exchange internal_id (Some reference) in
      let attributed := if is_reference then f64_one else fraction in
      let raw_amount := parse_number (preferred_calculation_amount_value ex) in
      signed_raw_coefficient ← signed_raw direction raw_amount;
      let amount := attributed_amount raw_amount attributed in
      _ ← check_pivot is_reference direction amount;
      Ok (mk_chunk
            (local_exchanges st ++
             [{| x_process_idx := process_idx; x_flow_id := flow_id; x_direction := direction;
                 x_direction_label := direction_label; x_internal_id := internal_id; x_exchange_id := exchange_id;
                 x_flow_version := flow_version_of ex; x_is_reference := is_reference; x_raw_amount := raw_amount;
                 x_signed_raw_coefficient := signed_raw_coefficient; x_amount := amount;
                 x_allocation_state := state; x_allocation_fraction := fraction;
                 x_allocation_target := reference; x_location := parse_exchange_location ex |}])
            ({[flow_id]} ∪ local_flow_ids st)
            (count_allocation (local_allocation st) state fallback))
  end.
End Chunk.

Definition process_meta_of (row : ProcessRow) (process_idx : Z) : ProcessMeta :=
  {| meta_process_idx := process_idx; meta_process_id := row_id row; meta_process_version := row_version row;
     meta_process_name := parse_process_name (row_json row); meta_model_id := row_model_id row;
     meta_model_version := row_model_version row; meta_location := parse_process_location (row_json row);
     meta_reference_year := parse_process_reference_year (row_json row);
     meta_volume := parse_process_annual_supply_or_production_volume (row_json row) |}.

Definition parse_process_chunk (row : ProcessRow) (process_idx : Z)
    : result ExchangeError (ProcessMeta * chunk_state * ReferenceParseStats) :=
  let items := process_exchange_items (row_json row) in
  let reference := parse_reference_internal_id (row_json row) in
  '(pivot, local_reference) ← resolve_reference_normalization (row_json row) items;
  reference ← ok_or ReferenceIdMissing reference;
  allocation ← map_err AllocationInvalid (resolve_tidas_process_allocations show_f64 items reference);
  chunk ← foldM (parse_exchange row process_idx pivot reference (ta_exchanges allocation)) (enumerate items)
            (mk_chunk [] ∅ (mk_allocation_stats 0 0 0 0 0 0));
  Ok (process_meta_of row process_idx, chunk, local_reference).
End Parse.

(** ** What a parsed process is *)

Section Chunks.
Context (parse_uuid : string -> option Uuid) (show_uuid : Uuid -> string) (show_f64 : f64 -> string).

(** How a parsed exchange comes from its item and allocation: its identity, its
    normalized and attributed amount, and the pivot it must reproduce. *)
Record parsed_as (idx : Z) (pivot : ReferencePivot) (reference : string)
    (resolutions : list TidasAllocationResolution) (ix : nat * Value) (x : ParsedExchange) : Prop := {
  pa_process : x_process_idx x = idx;
  pa_flow : flow_of_exchange parse_uuid ix.2 = Some (x_flow_id x);
  pa_direction : x_direction x = parse_exchange_direction (get "exchangeDirection" ix.2 ≫= as_str);
  pa_raw : x_raw_amount x = parse_number (preferred_calculation_amount_value ix.2);
  pa_reference : x_is_reference x = true <-> parse_exchange_internal_id ix.2 = Some reference;
  pa_fraction : exists r, resolutions !! ix.1 = Some r
    /\ (allocation_fraction_parts r).1 = (x_allocation_fraction x, x_allocation_state x);
  pa_amount : x_amount x =
    attributed_amount pivot (x_raw_amount x) (if x_is_reference x then f64_one else x_allocation_fraction x);
  pa_pivot : check_pivot pivot (x_is_reference x) (x_direction x) (x_amount x) = Ok tt;
}.

Definition counts_agree (n : nat) (s : AllocationParseStats) : Prop :=
  exchange_total s = Z.of_nat n /\ fraction_present_count s + fraction_missing_count s = Z.of_nat n
  /\ fraction_invalid_count s = 0
  /\ 0 <= legacy_empty_allocation_as_undeclared_count s <= fraction_missing_count s
  /\ 0 <= legacy_single_reference_target_inferred_count s <= fraction_present_count s.

Lemma count_allocation_agrees n s r :
  counts_agree n s ->
  let '(_, state, fallback) := allocation_fraction_parts r in counts_agree (S n) (count_allocation s state fallback).
Proof. unfold counts_agree. destruct r; cbn; lia. Qed.

(** An empty label stands for no known direction, as does the text itself. *)
Lemma parse_direction_label exchange :
  parse_exchange_direction (Some (direction_label_of exchange))
  = parse_exchange_direction (get "exchangeDirection" exchange ≫= as_str).
Proof.
  unfold direction_label_of, trimmed_text. destruct (get "exchangeDirection" exchange ≫= as_str) as [t|];
    cbn [mbind option_bind].
  - unfold nonempty. case_decide as He; cbn [default from_option id]; unfold parse_exchange_direction.
    + rewrite He. by vm_compute.
    + by rewrite trim_idem.
  - by vm_compute.
Qed.

Lemma parse_exchange_ok row idx pivot reference resolutions st ix st' :
  parse_exchange parse_uuid show_uuid row idx pivot reference resolutions st ix = Ok st' ->
  (flow_of_exchange parse_uuid ix.2 = None /\ st' = st) \/
  exists x, parsed_as idx pivot reference resolutions ix x
    /\ local_exchanges st' = local_exchanges st ++ [x]
    /\ local_flow_ids st' = {[x_flow_id x]} ∪ local_flow_ids st
    /\ exists r, resolutions !! ix.1 = Some r /\
         let '(_, state, fallback) := allocation_fraction_parts r in
         local_allocation st' = count_allocation (local_allocation st) state fallback.
Proof.
  unfold parse_exchange. destruct ix as [i ex]. cbn zeta. cbn [fst snd].
  destruct (flow_of_exchange parse_uuid ex) as [flow|] eqn:Hflow; [|by intros [= <-]; left]. intros H. right.
  apply bind_ok in H as (r & Hr & H). destruct (resolutions !! i) as [r'|] eqn:Hi; [|done]. injection Hr as ->.
  destruct (allocation_fraction_parts r) as [[fraction state] fallback] eqn:Hp.
  apply bind_ok in H as (signed & _ & H). apply bind_ok in H as ([] & Hpivot & [= <-]).
  refine (ex_intro _ _ (conj _ (conj eq_refl (conj eq_refl _)))); [|exists r; by rewrite Hp].
  constructor; cbn [fst snd x_process_idx x_flow_id x_direction x_raw_amount x_is_reference x_allocation_fraction
    x_allocation_state x_amount]; try reflexivity.
  - exact Hflow.
  - apply parse_direction_label.
  - unfold is_reference_internal_exchange. apply bool_decide_eq_true.
  - exists r. by rewrite Hp.
  - exact Hpivot.
Qed.

(** The items that name a flow. *)
Abbreviation flow_items l := (filter (fun ix => is_Some (flow_of_exchange parse_uuid ix.2)) l).

Lemma parse_loop row idx pivot reference resolutions l st :
  foldM (parse_exchange parse_uuid show_uuid row idx pivot reference resolutions) l
    (mk_chunk [] ∅ (mk_allocation_stats 0 0 0 0 0 0)) = Ok st ->
  Forall2 (parsed_as idx pivot reference resolutions) (flow_items l) (local_exchanges st)
  /\ local_flow_ids st = list_to_set (x_flow_id <$> local_exchanges st)
  /\ counts_agree (length (local_exchanges st)) (local_allocation st).
Proof.
  apply (foldM_ind (fun pre c => Forall2 (parsed_as idx pivot reference resolutions) (flow_items pre) (local_exchanges c)
    /\ local_flow_ids c = list_to_set (x_flow_id <$> local_exchanges c)
    /\ counts_agree (length (local_exchanges c)) (local_allocation c))).
  { split_and!; [constructor|done|]. unfold counts_agree. cbn. lia. }
  intros pre ix post c c' _ (Hf & Hids & Hc) [[Hnone ->]|(x & Hx & Hex & Hfl & r & _ & Hst)]%parse_exchange_ok.
  - rewrite filter_app, filter_cons_False, app_nil_r; [done|]. rewrite Hnone. by intros [? [=]].
  - rewrite filter_app, filter_cons_True by (rewrite (pa_flow _ _ _ _ _ _ Hx); by eexists). rewrite filter_nil, Hex, Hfl.
    split_and!.
    + apply Forall2_app; [done|]. by constructor.
    + rewrite fmap_app, list_to_set_app_L, Hids. cbn. set_solver.
    + pose proof (count_allocation_agrees _ _ r Hc) as Hcount.
      destruct (allocation_fraction_parts r) as [[??]?]. rewrite Hst, length_app, Nat.add_comm. exact Hcount.
Qed.

Lemma reference_normalization_ok json items pivot stats :
  resolve_reference_normalization json items = Ok (pivot, stats) ->
  exists reference item d amount raw,
    parse_reference_internal_ids json = [reference]
    /\ filter (fun e => parse_exchange_internal_id e = Some reference) items = [item]
    /\ parse_exchange_direction (get "exchangeDirection" item ≫= as_str) = Some d
    /\ parse_number (preferred_calculation_amount_value item) = Some amount
    /\ signed_coefficient (signed_flow_direction d) amount = Ok raw
    /\ normalize_reference_coefficient raw = Ok pivot.
Proof.
  unfold resolve_reference_normalization. cbn zeta. intros ([] & Hone%ensure_ok & H)%bind_ok.
  apply bind_ok in H as (id & Hid%ok_or_ok & H). apply bind_ok in H as ([] & Hlen%ensure_ok & H).
  apply Nat.eqb_eq in Hlen. apply Nat.leb_le in Hone.
  destruct (parse_reference_internal_ids json) as [|id' [|]]; [done| |cbn in Hone; lia]. injection Hid as ->.
  destruct (filter _ items) as [|item [|]] eqn:Hf; [done| |cbn in Hlen; lia].
  apply bind_ok in H as (e & [= <-] & H). apply bind_ok in H as (d & Hd%ok_or_ok & H).
  apply bind_ok in H as (amount & Ha%ok_or_ok & H). apply bind_ok in H as (raw & Hraw%map_err_ok & H).
  apply bind_ok in H as (p & Hp%map_err_ok & [= -> _]). eauto 12.
Qed.

Lemma parse_process_chunk_ok row idx meta st stats :
  parse_process_chunk parse_uuid show_uuid show_f64 row idx = Ok (meta, st, stats) ->
  let items := process_exchange_items (row_json row) in
  exists reference pivot allocation,
    parse_reference_internal_ids (row_json row) = [reference]
    /\ resolve_reference_normalization (row_json row) items = Ok (pivot, stats)
    /\ resolve_tidas_process_allocations show_f64 items reference = Ok allocation
    /\ meta = process_meta_of row idx
    /\ Forall2 (parsed_as idx pivot reference (ta_exchanges allocation)) (flow_items (enumerate items)) (local_exchanges st)
    /\ local_flow_ids st = list_to_set (x_flow_id <$> local_exchanges st)
    /\ counts_agree (length (local_exchanges st)) (local_allocation st).
Proof.
  unfold parse_process_chunk. cbn zeta. intros ([pivot s] & Hpivot & H)%bind_ok.
  apply bind_ok in H as (reference & Href%ok_or_ok & H). apply bind_ok in H as (allocation & Ha%map_err_ok & H).
  apply bind_ok in H as (chunk & Hc%parse_loop & [= <- <- <-]). exists reference, pivot, allocation.
  split; [|by auto]. unfold parse_reference_internal_id in Href.
  by destruct (parse_reference_internal_ids (row_json row)) as [|? [|]]; simplify_eq.
Qed.

Lemma enumerate_snd {A} (l : list A) : (enumerate l).*2 = l.
Proof.
  apply list_eq. intros i. unfold enumerate. rewrite list_lookup_fmap, list_lookup_imap. by destruct (l !! i).
Qed.

(** The reference exchanges of a chunk come from the one reference item. *)
Lemma chunk_references idx pivot reference resolutions items item l :
  filter (fun e => parse_exchange_internal_id e = Some reference) items = [item] ->
  Forall2 (parsed_as idx pivot reference resolutions) (flow_items (enumerate items)) l ->
  (length (filter (fun x => x_is_reference x = true) l) <= 1)%nat /\
  forall x, x ∈ l -> x_is_reference x = true -> exists ix, ix.2 = item /\ parsed_as idx pivot reference resolutions ix x.
Proof.
  intros Hitem Hl. rewrite <- (enumerate_snd items), filter_fmap in Hitem. split.
  - apply (Forall2_filter _ (fun ix => parse_exchange_internal_id ix.2 = Some reference)
      (fun x => x_is_reference x = true)) in Hl; [|intros ix x Hx; symmetry; apply (pa_reference _ _ _ _ _ _ Hx)].
    rewrite <- (Forall2_length _ _ _ Hl), list_filter_filter. apply (f_equal length) in Hitem.
    rewrite length_fmap in Hitem. cbn [length] in Hitem. rewrite <- Hitem. apply length_filter_impl. by intros ix [? _].
  - intros x Hx Href. apply list_elem_of_lookup in Hx as [k Hk].
    destruct (Forall2_lookup_r _ _ _ _ _ Hl Hk) as (ix & Hix & Hp). exists ix. split; [|done].
    apply list_elem_of_lookup_2, list_elem_of_filter in Hix as [_ Hin].
    apply (pa_reference _ _ _ _ _ _ Hp) in Href.
    assert (ix.2 ∈ [item]) as ?%list_elem_of_singleton; [|done]. rewrite <- Hitem.
    apply list_elem_of_fmap. exists ix. split; [done|]. by apply list_elem_of_filter.
Qed.

(** ** The normalized reference *)

Lemma signed_coefficient_sign d a c :
  signed_coefficient d a = Ok c -> is_finite c = true /\ is_sign_negative c = xorb (is_sign_negative (sign d)) (is_sign_negative a).
Proof.
  unfold signed_coefficient. intros ([] & _ & H)%bind_ok. cbn zeta in H.
  apply bind_ok in H as ([] & Hc%ensure_ok & [= <-]). split; [done|]. by apply f64_mul_sign.
Qed.

(** The attributed reference amount keeps the sign of the raw amount, so its
    coefficient has the sign of the pivot. *)
Lemma reference_sign d amount raw pivot a c :
  signed_coefficient d amount = Ok raw -> normalize_reference_coefficient raw = Ok pivot ->
  attributed_amount pivot (Some amount) f64_one = Some a -> signed_coefficient d a = Ok c ->
  coefficient pivot = if is_sign_negative c then (- f64_one)%f64 else f64_one.
Proof.
  intros Hraw Hpivot Ha Hc. apply signed_coefficient_sign in Hraw as [Hfin Hraw].
  apply signed_coefficient_sign in Hc as [_ Hc]. unfold normalize_reference_coefficient in Hpivot.
  apply bind_ok in Hpivot as ([] & _ & H). apply bind_ok in H as ([] & _ & H). cbn zeta in H.
  apply bind_ok in H as ([] & Hscale%ensure_ok & [= <-]). cbn [coefficient].
  unfold attributed_amount in Ha. cbn [mbind option_bind scale] in Ha. cbn zeta in Ha.
  destruct (is_finite _) eqn:Hf in Ha; [|done]. injection Ha as <-.
  assert (is_sign_negative (f64_recip (f64_abs raw)) = false) as Hs.
  { apply andb_true_iff in Hscale as [_ Hpos]. by destruct (f64_recip (f64_abs raw)) as [[]|[]| |[]]. }
  rewrite f64_mul_sign in Hc by done. apply f64_mul_finite in Hf as [Hf _]. rewrite f64_mul_sign in Hc by done.
  change (is_sign_negative f64_one) with false in Hc. rewrite Hs, !xorb_false_r in Hc.
  rewrite Hc, <- Hraw. by destruct raw.
Qed.

Lemma pivot_is_unit c pivot :
  coefficient pivot = (if is_sign_negative c then (- f64_one)%f64 else f64_one) ->
  f64_abs (f64_abs c - f64_one)%f64 = f64_abs (c - coefficient pivot)%f64.
Proof. intros ->. rewrite (f64_abs_sign c). destruct (is_sign_negative c); [apply f64_abs_sub_neg|done]. Qed.

Lemma reference_validates row idx meta st stats x flow_space :
  parse_process_chunk parse_uuid show_uuid show_f64 row idx = Ok (meta, st, stats) ->
  x ∈ local_exchanges st -> x_is_reference x = true -> is_Some (x_amount x) ->
  is_Some (flow_space !! flow_link_identity x) ->
  validate_reference flow_space (local_exchanges st) meta = Ok tt.
Proof.
  intros H Hx Href [a Ha] Hflow. apply parse_process_chunk_ok in H as (r & pivot & al & Hr & Hn & _ & -> & Hl & _).
  apply reference_normalization_ok in Hn as (r' & item & d & amount & raw & Hr' & Hitem & Hd & Hamount & Hraw & Hpivot).
  rewrite Hr in Hr'. injection Hr' as <-. destruct (chunk_references _ _ _ _ _ _ _ Hitem Hl) as [Hone Hat].
  destruct (Hat x Hx Href) as (ix & <- & Hp). unfold validate_reference.
  rewrite (Prelude.filter_ext_in _ (fun y => x_is_reference y = true)).
  2:{ intros y Hy. apply list_elem_of_lookup in Hy as [k Hk].
      destruct (Forall2_lookup_r _ _ _ _ _ Hl Hk) as (iy & _ & Hyp).
      rewrite (pa_process _ _ _ _ _ _ Hyp). cbn. tauto. }
  assert (filter (fun y => x_is_reference y = true) (local_exchanges st) = [x]) as ->.
  { assert (x ∈ filter (fun y => x_is_reference y = true) (local_exchanges st)) as Hin by by apply list_elem_of_filter.
    destruct (filter _ (local_exchanges st)) as [|y [|]]; [by apply elem_of_nil in Hin| |cbn in Hone; lia].
    by apply list_elem_of_singleton in Hin as ->. }
  rewrite bool_decide_eq_true_2 by done. cbn [ensure mbind result_bind].
  pose proof (pa_pivot _ _ _ _ _ _ Hp) as Hcheck. pose proof (pa_amount _ _ _ _ _ _ Hp) as Hattr.
  rewrite (pa_direction _ _ _ _ _ _ Hp), Hd, Href, Ha in *. rewrite (pa_raw _ _ _ _ _ _ Hp), Hamount in Hattr.
  cbn [check_pivot] in Hcheck. apply bind_ok in Hcheck as (c & Hc%map_err_ok & Hclose%ensure_ok).
  cbn [ok_or mbind result_bind coefficient_of]. rewrite Hc. cbn [map_err ok_or mbind result_bind].
  rewrite (pivot_is_unit c pivot); [by rewrite Hclose|].
  by apply (reference_sign (signed_flow_direction d) amount raw pivot a c).
Qed.
End Chunks.

Lemma zero_is_fraction : is_fraction f64_zero.
Proof. exists f64_zero. by vm_compute. Qed.

Lemma parts_fraction r : resolved_fraction r -> is_fraction (allocation_fraction_parts r).1.1.
Proof. destruct r; cbn; intros H; first [exact H|exact one_is_fraction|exact zero_is_fraction]. Qed.

Lemma flow_items_flows parse_uuid items idx pivot reference resolutions l :
  Forall2 (parsed_as parse_uuid idx pivot reference resolutions)
    (filter (fun ix => is_Some (flow_of_exchange parse_uuid ix.2)) (enumerate items)) l ->
  x_flow_id <$> l = omap (flow_of_exchange parse_uuid) items.
Proof.
  rewrite <- (enumerate_snd items) at 2. generalize (enumerate items) as ixs. intros ixs. revert l.
  induction ixs as [|ix ixs IH]; intros l Hl; [by inversion Hl|]. rewrite filter_cons in Hl. cbn [fmap list_fmap].
  case_decide as Hd.
  - inversion Hl as [|? x ? l' Hx Hl']; subst. cbn [omap list_omap fmap list_fmap].
    rewrite (pa_flow _ _ _ _ _ _ _ Hx). by rewrite IH.
  - cbn [omap list_omap]. destruct (flow_of_exchange parse_uuid ix.2); [by destruct Hd; eexists|]. by apply IH.
Qed.

Lemma signed_coefficient_no_panic d a : signed_coefficient d a <> Panic.
Proof. unfold signed_coefficient. no_panic. Qed.
Lemma normalize_no_panic raw : normalize_reference_coefficient raw <> Panic.
Proof. unfold normalize_reference_coefficient. no_panic. Qed.
#[local] Hint Resolve signed_coefficient_no_panic normalize_no_panic process_allocation_no_panic : lca.

Lemma reference_normalization_no_panic json items : resolve_reference_normalization json items <> Panic.
Proof.
  unfold resolve_reference_normalization. cbn zeta. apply bind_no_panic; [no_panic|]. intros _ _.
  apply bind_no_panic; [no_panic|]. intros id _. apply bind_no_panic; [no_panic|]. intros [] Hlen%ensure_ok.
  destruct (filter _ items) as [|item l]; [done|]. cbn [lookup list_lookup expect]. no_panic.
Qed.

Lemma parse_process_chunk_no_panic parse_uuid show_uuid show_f64 row idx :
  parse_process_chunk parse_uuid show_uuid show_f64 row idx <> Panic.
Proof.
  unfold parse_process_chunk. cbn zeta. apply bind_no_panic; [apply reference_normalization_no_panic|].
  intros [pivot s] _. apply bind_no_panic; [no_panic|]. intros reference _.
  apply bind_no_panic; [no_panic|]. intros al [Hlen _]%map_err_ok%process_fractions.
  apply bind_no_panic; [|intros ? _; discriminate]. apply foldM_no_panic. intros [i ex] st Hin%elem_of_enumerate.
  unfold parse_exchange. cbn zeta. destruct (flow_of_exchange parse_uuid ex); [|done].
  apply lookup_lt_Some in Hin. rewrite <- Hlen in Hin. apply lookup_lt_is_Some in Hin as [r Hr]. rewrite Hr.
  cbn [expect mbind result_bind]. destruct (allocation_fraction_parts r) as [[? ?] ?].
  unfold signed_raw, check_pivot. no_panic.
Qed.

(** ** Guarantees *)

(** The amount of a parsed exchange is its raw amount in units of the
    reference, times the fraction attributed to the reference. *)
Definition well_attributed (scale : f64) (x : ParsedExchange) : Prop :=
  forall a, x_amount x = Some a ->
    exists raw fraction, x_raw_amount x = Some raw /\ is_finite a = true /\ a = (raw * scale * fraction)%f64
      /\ is_fraction fraction /\ (x_is_reference x = true -> fraction = f64_one).

(** C31: parsing a process never panics.  When it succeeds, the parsed
    exchanges are the items that name a flow, in order, the counters add up,
    at most one exchange is the reference, and every amount is finite: the
    raw amount scaled to one unit of the reference, times a fraction between 0
    and 100%, which is one for the reference itself. *)
Theorem chunk_sound (parse_uuid : string -> option Uuid) (show_uuid : Uuid -> string) (show_f64 : f64 -> string)
    (row : ProcessRow) (idx : Z) :
  parse_process_chunk parse_uuid show_uuid show_f64 row idx <> Panic /\
  forall meta st stats, parse_process_chunk parse_uuid show_uuid show_f64 row idx = Ok (meta, st, stats) ->
    x_flow_id <$> local_exchanges st = omap (flow_of_exchange parse_uuid) (process_exchange_items (row_json row))
    /\ local_flow_ids st = list_to_set (x_flow_id <$> local_exchanges st)
    /\ counts_agree (length (local_exchanges st)) (local_allocation st)
    /\ (length (filter (fun x => x_is_reference x = true) (local_exchanges st)) <= 1)%nat
    /\ exists pivot, resolve_reference_normalization (row_json row) (process_exchange_items (row_json row)) = Ok (pivot, stats)
         /\ Forall (fun x => x_process_idx x = idx /\ well_attributed (scale pivot) x) (local_exchanges st).
Proof.
  split; [apply parse_process_chunk_no_panic|]. intros meta st stats H.
  apply parse_process_chunk_ok in H as (r & pivot & al & Hr & Hn & Hal & _ & Hl & Hids & Hcounts).
  split_and!; [by eapply flow_items_flows|done|done| |].
  - apply reference_normalization_ok in Hn as (r' & item & ? & ? & ? & Hr' & Hitem & _). rewrite Hr in Hr'.
    injection Hr' as <-. by destruct (chunk_references _ _ _ _ _ _ _ _ Hitem Hl).
  - exists pivot. split; [done|]. apply Forall_forall. intros x [k Hk]%list_elem_of_lookup.
    destruct (Forall2_lookup_r _ _ _ _ _ Hl Hk) as (ix & _ & Hx). split; [by apply (pa_process _ _ _ _ _ _ _ Hx)|].
    intros a Ha. rewrite (pa_amount _ _ _ _ _ _ _ Hx) in Ha. unfold attributed_amount in Ha.
    destruct (x_raw_amount x) as [raw|]; [|done]. cbn in Ha. destruct (is_finite _) eqn:Hf in Ha; [|done].
    injection Ha as <-. exists raw, (if x_is_reference x then f64_one else x_allocation_fraction x).
    split_and!; [done|done|done| |by intros ->].
    destruct (x_is_reference x); [apply one_is_fraction|].
    destruct (pa_fraction _ _ _ _ _ _ _ Hx) as (res & Hres & Hp).
    apply process_fractions in Hal as [_ Hfr]. apply list_elem_of_lookup_2 in Hres.
    rewrite Forall_forall in Hfr. apply Hfr, parts_fraction in Hres. by rewrite Hp in Hres.
Qed.

(** A process that parses passes the later check of its quantitative
    reference: if its reference exchange names a known flow and its normalized
    amount is present, [validate_quantitative_references] accepts it. *)
Theorem chunk_reference_validates (parse_uuid : string -> option Uuid) (show_uuid : Uuid -> string)
    (show_f64 : f64 -> string) (row : ProcessRow) (idx : Z) (meta : ProcessMeta) (st : chunk_state)
    (stats : ReferenceParseStats) (x : ParsedExchange) (flow_space : gmap FlowLinkIdentity CompiledFlowSpace) :
  parse_process_chunk parse_uuid show_uuid show_f64 row idx = Ok (meta, st, stats) ->
  x ∈ local_exchanges st -> x_is_reference x = true -> is_Some (x_amount x) ->
  is_Some (flow_space !! flow_link_identity x) ->
  validate_quantitative_references flow_space (local_exchanges st) [meta] = Ok tt.
Proof.
  intros H Hx Href Ha Hflow. unfold validate_quantitative_references. cbn [foldM].
  by rewrite (reference_validates _ _ _ _ _ _ _ _ _ _ H Hx Href Ha Hflow).
Qed.

(** ** Witnesses *)

(** Identifiers are written as decimal numbers in the example. *)
Definition example_uuid (s : string) : option Uuid := parse_i32 s.

Definition example_flow_exchange (internal_id direction flow amount : string) (fields : list (string * Value)) : Value :=
  example_exchange internal_id direction
    (("referenceToFlowDataSet", JObject [("@refObjectId", JString flow); ("@version", JString "1")])
     :: ("resultingAmount", JString amount) :: fields).

(** A process that makes four units of its reference product and a by-product
    from three units of an input, 40% of which is allocated to the reference. *)
Definition example_document : Value :=
  JObject [("processDataSet", JObject [
    ("processInformation", JObject [("quantitativeReference", JObject [("referenceToReferenceFlow", JString "0")])]);
    ("exchanges", JObject [("exchange", JArray [
      example_flow_exchange "0" "Output" "40" "4.0" [];
      example_flow_exchange "1" "Output" "41" "1" [];
      example_flow_exchange "2" "Input" "42" "3"
        [("allocations", JObject [("allocation", JArray [example_entry "0" "40"; example_entry "1" "60"])])];
      example_exchange "3" "Input" []])])])].

Definition example_row : ProcessRow :=
  {| row_id := 7; row_version := "1"; row_model_id := None; row_model_version := None; row_user_id := None;
     row_state_code := 100; row_team_id := None; row_review_id := None; row_modified_at := None;
     row_json := example_document |}.

Definition example_chunk : result ExchangeError (ProcessMeta * chunk_state * ReferenceParseStats) :=
  parse_process_chunk example_uuid (fun _ => "7") (fun _ => "") example_row 0.

Lemma chunk_sound_witness :
  exists meta st stats, example_chunk = Ok (meta, st, stats)
    /\ x_flow_id <$> local_exchanges st = [40; 41; 42]
    /\ x_amount <$> local_exchanges st = [Some f64_one; Some (f64_of_ratio 1 4); Some (f64_of_ratio 3 4 * f64_of_ratio 4 10)%f64].
Proof.
  assert (exists p, example_chunk = Ok p) as [[[meta st] stats] Hc] by (vm_compute; eexists; reflexivity).
  exists meta, st, stats. split; [exact Hc|]. split.
  - rewrite (proj1 (proj2 (chunk_sound example_uuid (fun _ => "7") (fun _ => "") example_row 0) meta st stats Hc)).
    vm_compute. reflexivity.
  - assert ((fun c => x_amount <$> local_exchanges c.1.2) <$> example_chunk
      = Ok [Some f64_one; Some (f64_of_ratio 1 4); Some (f64_of_ratio 3 4 * f64_of_ratio 4 10)%f64]) as Ha by (vm_compute; reflexivity).
    rewrite Hc in Ha. by injection Ha as Ha.
Defined.

Lemma chunk_reference_validates_witness :
  exists meta st stats, example_chunk = Ok (meta, st, stats)
    /\ validate_quantitative_references {[mk_flow 40 "1" := Technosphere]} (local_exchanges st) [meta] = Ok tt.
Proof.
  assert (exists p, example_chunk = Ok p) as [[[meta st] stats] Hc] by (vm_compute; eexists; reflexivity).
  exists meta, st, stats. split; [exact Hc|].
  assert (exists x, head (local_exchanges st) = Some x /\ x_is_reference x = true /\ x_amount x = Some f64_one
    /\ flow_link_identity x = mk_flow 40 "1") as (x & Hx & Hr & Ha & Hf).
  { assert ((fun c => (fun x => (x_is_reference x, x_amount x, flow_link_identity x)) <$> head (local_exchanges c.1.2))
      <$> example_chunk = Ok (Some (true, Some f64_one, mk_flow 40 "1"))) as Ha by (vm_compute; reflexivity).
    rewrite Hc in Ha. cbn in Ha. injection Ha as Ha.
    destruct (head (local_exchanges st)) as [x|]; [|discriminate Ha]. exists x.
    injection Ha as Hr Ha Hf Hv. split; [reflexivity|]. split; [exact Hr|]. split; [exact Ha|].
    unfold flow_link_identity. by rewrite Hf, Hv. }
  apply (chunk_reference_validates _ _ _ _ _ _ _ _ x _ Hc).
  - by apply head_Some_elem_of.
  - exact Hr.
  - by eexists.
  - rewrite Hf. by eexists.
Defined.
