(* ===== verification/Assemble.v ===== *)
(** * Assembling the sparse model of a snapshot

    Models the pure core of [compile_scope_graph] and
    [assemble_sparse_payload_with_selection] in [bin/snapshot_builder.rs]: the
    flow axis, the biosphere edges, the choice of active characterization
    factors, and the accumulation of edges and factors into the sparse data
    the solver is given, with the singularity risk reported along with it.
    The iteration orders of the hash maps are arguments. *)

From S2P Require Import Prelude F64 Csc DataBuilder SignedFlow Text Location ProviderLink Lineage Balance.

Local Open Scope Z_scope.

(** ** Records *)

Record CompiledFlow := {
  cf_flow_idx : Z;
  cf_identity : FlowLinkIdentity;
  cf_space : CompiledFlowSpace;
  cf_source_type : CompiledSourceFlowType;
}.

Record CompiledBiosphereEdge := {
  be_process_idx : Z;
  be_flow_idx : Z;
  be_amount : f64;
  be_partition : ScopeProcessPartition;
}.

Record LciaExchangeObservation := {
  ob_flow_id : Uuid;
  ob_flow_version : string;
  ob_direction : option ExchangeDirection;
  ob_direction_label : string;
  ob_exchange_id : string;
  ob_amount : option f64;
}.

#[export] Instance ExchangeDirection_countable : Countable ExchangeDirection.
Proof.
  apply (inj_countable' (fun d => match d with DirInput => true | DirOutput => false end)
           (fun b : bool => if b then DirInput else DirOutput)). by intros [].
Defined.

Record ImpactFactorSet := {
  if_impact_id : Uuid;
  if_method_version : string;
  if_artifact_locator_id : Uuid;
  if_impact_key : string;
  if_impact_name : string;
  if_unit : string;
  factors_by_flow : gmap FlowLinkIdentity f64;
  factors_by_flow_direction : gmap (FlowLinkIdentity * ExchangeDirection) f64;
}.

Record ActiveLciaFactorSelection := {
  factors_by_impact : list (gmap FlowLinkIdentity f64);
  active_flow_versions : gset FlowLinkIdentity;
  direction_by_flow : gmap Uuid (option ExchangeDirection);
}.

Record CompiledGraph := {
  cg_processes : list CompiledProcess;
  cg_flows : list CompiledFlow;
  cg_technosphere_edges : list CompiledTechnosphereEdge;
  cg_biosphere_edges : list CompiledBiosphereEdge;
  cg_batch : CompiledBalanceBatch;
}.

Record SnapshotSingularRisk := {
  risk_level : string;
  prefilter_diag_ge_cutoff : Z;
  a_diag_ge_cutoff : Z;
  m_zero_diag_count : Z;
  m_min_abs_diag : f64;
}.

Inductive AssembleError :=
| ScopeFailed (e : BalanceError)
| FlowOutsideScope (identity : FlowLinkIdentity)
| MissingBiosphereProcess (idx : Z)
| AxisOverflow (what : string)
| BiosphereOverflow (flow_idx process_idx : Z)
| FactorNotFinite (method : Uuid)
| FactorOverflow (method : Uuid)
| FactorAxisOmitted (impact_idx : nat).

Definition axis_i32 (what : string) (n : nat) : result AssembleError Z := ok_or (AxisOverflow what) (i32_of_usize n).

Definition retain_sparse_value (value : f64) (preserve_sub_epsilon_values : bool) : bool :=
  if negb (is_finite value) then false
  else if preserve_sub_epsilon_values then negb (value =? f64_zero)%f64
  else (f64_abs value >? f64_epsilon)%f64.

(** ** The flow axis *)

Definition flow_cmp : FlowLinkIdentity -> FlowLinkIdentity -> comparison :=
  cmp_then (cmp_by fl_flow_id Z.compare) (cmp_by fl_flow_version String.compare).

Definition compiled_flow (types : gmap FlowLinkIdentity CompiledSourceFlowType) (acc : list CompiledFlow)
    (identity : FlowLinkIdentity) : result AssembleError (list CompiledFlow) :=
  idx ← axis_i32 "flow idx" (length acc);
  let source_type := default SourceOther (types !! identity) in
  Ok (acc ++ [{| cf_flow_idx := idx; cf_identity := identity;
                 cf_space := flow_space_for_source_type source_type; cf_source_type := source_type |}]).

Definition build_flow_axis (types : gmap FlowLinkIdentity CompiledSourceFlowType) : result AssembleError (list CompiledFlow) :=
  foldM (compiled_flow types) (sort_by flow_cmp (map_to_list types).*1) [].

Definition flow_idx_by_identity (flows : list CompiledFlow) : gmap FlowLinkIdentity Z :=
  foldl (fun m f => <[cf_identity f := cf_flow_idx f]> m) ∅ flows.
Definition elementary_flow_idx (flows : list CompiledFlow) : gset Z :=
  list_to_set (cf_flow_idx <$> filter (fun f => cf_space f = Biosphere) flows).

(** ** Biosphere edges *)

Definition biosphere_gross_value (amount : f64) : f64 := amount.

Definition push_biosphere_edge (flows : list CompiledFlow) (processes : list CompiledProcess) (versioned_scope : bool)
    (edges : list CompiledBiosphereEdge) (x : ParsedExchange) : result AssembleError (list CompiledBiosphereEdge) :=
  match flow_idx_by_identity flows !! flow_link_identity x, x_amount x with
  | Some flow_idx, Some amount =>
      let value := biosphere_gross_value amount in
      if bool_decide (flow_idx ∈ elementary_flow_idx flows) && retain_sparse_value value versioned_scope then
        p ← ok_or (MissingBiosphereProcess (x_process_idx x)) (compiled_process_for_idx processes (x_process_idx x));
        Ok (edges ++ [{| be_process_idx := x_process_idx x; be_flow_idx := flow_idx; be_amount := value;
                         be_partition := cp_partition p |}])
      else Ok edges
  | _, _ => Ok edges
  end.

Definition lcia_exchange_observation_for_attributed_exchange (flows : list CompiledFlow) (x : ParsedExchange)
    : option LciaExchangeObservation :=
  flow_idx ← flow_idx_by_identity flows !! flow_link_identity x;
  if bool_decide (flow_idx ∉ elementary_flow_idx flows)
     || match x_amount x with Some a => (a =? f64_zero)%f64 | None => false end
  then None
  else Some {| ob_flow_id := x_flow_id x; ob_flow_version := x_flow_version x; ob_direction := x_direction x;
               ob_direction_label := x_direction_label x; ob_exchange_id := x_exchange_id x; ob_amount := x_amount x |}.

(** ** The compiled scope: what [compile_scope_graph] does once the exchanges
    are parsed and the flow documents are fetched *)

Definition compile_scope (process_meta : list ProcessMeta) (processes : list CompiledProcess)
    (types : gmap FlowLinkIdentity CompiledSourceFlowType) (rule : ProviderRule) (lineage : ProviderLineageIndex)
    (versioned_scope : bool) (exchanges : list ParsedExchange) : result AssembleError CompiledGraph :=
  let flow_space := flow_space_for_source_type <$> types in
  _ ← foldM (fun _ x => ensure (bool_decide (is_Some (types !! flow_link_identity x)))
                          (FlowOutsideScope (flow_link_identity x))) exchanges tt;
  flows ← build_flow_axis types;
  _ ← map_err ScopeFailed (validate_quantitative_references flow_space exchanges process_meta);
  ports ← map_err ScopeFailed (build_reference_port_map flow_space process_meta exchanges);
  biosphere ← foldM (push_biosphere_edge flows processes versioned_scope) exchanges [];
  batch ← map_err ScopeFailed
            (compile_signed_flow_balances flow_space ports process_meta processes rule lineage exchanges);
  Ok {| cg_processes := processes; cg_flows := flows; cg_technosphere_edges := technosphere_edges batch;
        cg_biosphere_edges := biosphere; cg_batch := batch |}.

(** ** Active characterization factors *)

(** The one direction a flow is observed with, if it is always the same. *)
Definition observed_directions (flow : Uuid) (observations : list LciaExchangeObservation) : gset ExchangeDirection :=
  list_to_set (omap ob_direction (filter (fun o => ob_flow_id o = flow) observations)).
Definition direction_unsupported (flow : Uuid) (observations : list LciaExchangeObservation) : bool :=
  existsb (fun o => bool_decide (ob_flow_id o = flow) && bool_decide (ob_direction o = None)) observations.

Definition unique_supported_direction_by_flow (observations : list LciaExchangeObservation)
    : gmap Uuid (option ExchangeDirection) :=
  foldl (fun m o =>
    let flow := ob_flow_id o in
    <[flow := if direction_unsupported flow observations then None
              else match elements (observed_directions flow observations) with [d] => Some d | _ => None end]> m)
    ∅ observations.

Definition active_value (impact : ImpactFactorSet) (directions : gmap Uuid (option ExchangeDirection)) (directional : bool)
    (identity : FlowLinkIdentity) : option f64 :=
  value ← (if directional
           then mjoin (directions !! fl_flow_id identity) ≫= fun d => factors_by_flow_direction impact !! (identity, d)
           else factors_by_flow impact !! identity);
  if retain_sparse_value value directional then Some value else None.

Definition active_factors (biosphere_flows : list FlowLinkIdentity) (directions : gmap Uuid (option ExchangeDirection))
    (directional : bool) (impact : ImpactFactorSet) : gmap FlowLinkIdentity f64 :=
  foldl (fun m identity =>
    match active_value impact directions directional identity with Some v => <[identity := v]> m | None => m end)
    ∅ biosphere_flows.

Definition select_active_lcia_factors (impacts : list ImpactFactorSet) (biosphere_flows : list FlowLinkIdentity)
    (observations : list LciaExchangeObservation) (directional : bool) : ActiveLciaFactorSelection :=
  let directions := if directional then unique_supported_direction_by_flow observations else ∅ in
  let factors := active_factors biosphere_flows directions directional <$> impacts in
  {| factors_by_impact := factors;
     active_flow_versions := ⋃ (dom <$> (factors : list (gmap FlowLinkIdentity f64)));
     direction_by_flow := directions |}.

Definition lcia_gap_reason (o : LciaExchangeObservation) (method : ImpactFactorSet)
    (directions : gmap Uuid (option ExchangeDirection)) : option string :=
  match ob_direction o with
  | None => Some "unsupported_exchange_direction"%string
  | Some d =>
      if decide (directions !! ob_flow_id o = Some None) then Some "ambiguous_elementary_flow_direction_axis"%string
      else if match ob_amount o with Some v => negb (is_finite v) | None => true end
      then Some "invalid_exchange_amount"%string
      else if decide (is_Some (factors_by_flow_direction method !! (mk_flow (ob_flow_id o) (ob_flow_version o), d)))
      then None
      else Some "no_lcia_factor_for_flow_direction"%string
  end.

(** ** Accumulation *)

Definition add_technosphere_edge (a_map : gmap (Z * Z) f64) (e : CompiledTechnosphereEdge) : gmap (Z * Z) f64 :=
  if (f64_abs (te_amount e) >? f64_epsilon)%f64 then
    let k := (te_provider_idx e, te_consumer_idx e) in
    <[k := (default f64_zero (a_map !! k) + te_amount e)%f64]> a_map
  else a_map.

Definition accumulate_biosphere_edge (preserve : bool) (b_map : gmap (Z * Z) f64) (e : CompiledBiosphereEdge)
    : result AssembleError (gmap (Z * Z) f64) :=
  if negb (retain_sparse_value (be_amount e) preserve) then Ok b_map
  else
    let k := (be_flow_idx e, be_process_idx e) in
    let total := (default f64_zero (b_map !! k) + be_amount e)%f64 in
    _ ← ensure (is_finite total) (BiosphereOverflow (be_flow_idx e) (be_process_idx e));
    Ok (<[k := total]> b_map).

Definition accumulate_finite_factor (method : Uuid) (factors : gmap Z f64) (kv : Z * f64)
    : result AssembleError (gmap Z f64) :=
  _ ← ensure (is_finite kv.2) (FactorNotFinite method);
  let total := (default f64_zero (factors !! kv.1) + kv.2)%f64 in
  _ ← ensure (is_finite total) (FactorOverflow method);
  Ok (<[kv.1 := total]> factors).

Definition technosphere_cells (edges : list CompiledTechnosphereEdge) : gmap (Z * Z) f64 :=
  filter (fun kv => (f64_abs kv.2 >? f64_epsilon)%f64 = true) (foldl add_technosphere_edge ∅ edges).

Definition biosphere_cells (preserve : bool) (edges : list CompiledBiosphereEdge)
    : result AssembleError (gmap (Z * Z) f64) :=
  b ← foldM (accumulate_biosphere_edge preserve) edges ∅;
  Ok (filter (fun kv => retain_sparse_value kv.2 preserve = true) (b : gmap (Z * Z) f64)).

(** The biosphere flows by identity; a later entry replaces an earlier one. *)
Definition flow_indices_by_identity (flows : list CompiledFlow) : gmap FlowLinkIdentity Z :=
  flow_idx_by_identity (filter (fun f => cf_space f = Biosphere) flows).

(** A [BTreeMap] iterates in key order. *)
Definition in_key_order (m : gmap FlowLinkIdentity f64) : list (FlowLinkIdentity * f64) :=
  sort_by (cmp_by fst flow_cmp) (map_to_list m).

Section Assembly.
Context (cell_order : gmap (Z * Z) f64 -> list (Z * Z * f64)) (factor_order : gmap Z f64 -> list (Z * f64)).

Definition cell_entries (m : gmap (Z * Z) f64) : list SparseTriplet :=
  (fun kv : Z * Z * f64 => mk_sparse kv.1.1 kv.1.2 kv.2) <$> cell_order m.

(** The factors of one impact on the flow axis. *)
Definition impact_cells (indices : gmap FlowLinkIdentity Z) (method : Uuid) (directional : bool)
    (factors : gmap FlowLinkIdentity f64) : result AssembleError (gmap Z f64) :=
  let on_axis := omap (fun iv => (fun idx => (idx, iv.2)) <$> indices !! iv.1) (in_key_order factors) in
  c ← foldM (accumulate_finite_factor method) on_axis ∅;
  Ok (filter (fun kv => retain_sparse_value kv.2 directional = true) (c : gmap Z f64)).

Definition add_impact (indices : gmap FlowLinkIdentity Z) (selection : ActiveLciaFactorSelection) (directional : bool)
    (acc : list SparseTriplet) (i : nat * ImpactFactorSet) : result AssembleError (list SparseTriplet) :=
  row ← axis_i32 "impact idx" i.1;
  factors ← ok_or (FactorAxisOmitted i.1) (factors_by_impact selection !! i.1);
  c ← impact_cells indices (if_impact_id i.2) directional factors;
  Ok (acc ++ ((fun kv : Z * f64 => mk_sparse row kv.1 kv.2) <$> factor_order c)).

Definition assemble_data (snapshot_id : Uuid) (graph : CompiledGraph) (has_lcia directional : bool)
    (impacts : list ImpactFactorSet) (selection : ActiveLciaFactorSelection) : result AssembleError ModelSparseData :=
  n ← axis_i32 "process" (length (cg_processes graph));
  flows ← axis_i32 "flow" (length (cg_flows graph));
  b ← biosphere_cells directional (cg_biosphere_edges graph);
  c ← (if has_lcia then
         foldM (add_impact (flow_indices_by_identity (cg_flows graph)) selection directional) (imap pair impacts) []
       else Ok []);
  impact_count ← (if has_lcia then axis_i32 "impact" (length impacts) else Ok 1);
  Ok {| model_version := snapshot_id;
        process_count := n;
        flow_count := flows;
        impact_count := impact_count;
        technosphere_entries := cell_entries (technosphere_cells (cg_technosphere_edges graph));
        biosphere_entries := cell_entries b;
        characterization_factors := c |}.

Definition add_diagonal (diag : gmap Z f64) (t : SparseTriplet) : gmap Z f64 :=
  if s_row t =? s_col t then <[s_row t := (default f64_zero (diag !! s_row t) + s_value t)%f64]> diag else diag.

Definition diagonal_step (diag : gmap Z f64) (singular_eps : f64) (acc : Z * f64) (idx : nat) : Z * f64 :=
  let abs_m_diag := f64_abs (f64_one - default f64_zero (diag !! Z.of_nat idx))%f64 in
  (if (abs_m_diag <=? singular_eps)%f64 then acc.1 + 1 else acc.1,
   if (abs_m_diag <? acc.2)%f64 then abs_m_diag else acc.2).

Definition singular_risk (graph : CompiledGraph) (self_loop_cutoff singular_eps : f64) : SnapshotSingularRisk :=
  let cells := technosphere_cells (cg_technosphere_edges graph) in
  let prefilter := Z.of_nat (length (filter (fun kv : Z * Z * f64 =>
      kv.1.1 = kv.1.2 /\ (f64_abs kv.2 >=? self_loop_cutoff)%f64 = true) (map_to_list cells))) in
  let diag := foldl add_diagonal ∅ (cell_entries cells) in
  let a_diag := Z.of_nat (length (filter (fun v => (f64_abs v >=? self_loop_cutoff)%f64 = true) (map_to_list diag).*2)) in
  let '(zero_count, min_abs) := foldl (diagonal_step diag singular_eps) (0, f64_inf) (seq 0 (length (cg_processes graph))) in
  {| risk_level := if 0 <? zero_count then "high" else if (0 <? prefilter) || (0 <? a_diag) then "medium" else "low";
     prefilter_diag_ge_cutoff := prefilter;
     a_diag_ge_cutoff := a_diag;
     m_zero_diag_count := zero_count;
     m_min_abs_diag := if is_finite min_abs then min_abs else f64_zero |}.
End Assembly.

(** ** What the cells hold *)

Definition te_key (e : CompiledTechnosphereEdge) : Z * Z := (te_provider_idx e, te_consumer_idx e).

(** The amounts at one position above the epsilon, added in order. *)
Definition edge_step (k : Z * Z) (acc : option f64) (e : CompiledTechnosphereEdge) : option f64 :=
  if decide (te_key e = k /\ (f64_abs (te_amount e) >? f64_epsilon)%f64 = true)
  then Some (default f64_zero acc + te_amount e)%f64 else acc.
Definition edge_total (edges : list CompiledTechnosphereEdge) (k : Z * Z) : option f64 :=
  foldl (edge_step k) None edges.

Lemma edges_lookup edges m k :
  foldl add_technosphere_edge m edges !! k = foldl (edge_step k) (m !! k) edges.
Proof.
  revert m. induction edges as [|e edges IH]; intros m; [done|]. cbn [foldl]. rewrite IH. f_equal.
  unfold add_technosphere_edge, edge_step, te_key.
  destruct (f64_abs (te_amount e) >? f64_epsilon)%f64.
  - destruct (decide ((te_provider_idx e, te_consumer_idx e) = k)) as [<-|Hne].
    + by rewrite lookup_insert_eq, decide_True.
    + rewrite lookup_insert_ne by done. rewrite decide_False; [done|]. by intros [? _].
  - rewrite decide_False; [done|]. by intros [_ ?].
Qed.

Lemma cells_lookup edges k : technosphere_cells edges !! k = prune f64_epsilon (edge_total edges k).
Proof.
  unfold technosphere_cells, edge_total, prune. rewrite map_lookup_filter, edges_lookup, lookup_empty.
  destruct (foldl _ None edges) as [v|]; [|done]. cbn. unfold guard.
  destruct (f64_abs v >? f64_epsilon)%f64; by case_decide.
Qed.

Lemma edge_total_in edges k v : edge_total edges k = Some v -> k ∈ te_key <$> edges.
Proof.
  unfold edge_total. induction edges as [|e edges IH] using rev_ind; [done|].
  rewrite foldl_app, fmap_app, elem_of_app. cbn. unfold edge_step at 1. case_decide as Hd.
  - intros _. right. destruct Hd as [<- _]. apply list_elem_of_here.
  - intros H. left. by apply IH.
Qed.

Lemma cells_in edges k v : technosphere_cells edges !! k = Some v -> k ∈ te_key <$> edges.
Proof.
  rewrite cells_lookup. unfold prune. destruct (edge_total edges k) eqn:E; [|done]. intros _. by eapply edge_total_in.
Qed.

(** Biosphere cells: the same accumulation, which refuses an overflow. *)
Definition be_key (e : CompiledBiosphereEdge) : Z * Z := (be_flow_idx e, be_process_idx e).

Lemma biosphere_fold_in preserve edges m m' k :
  foldM (accumulate_biosphere_edge preserve) edges m = Ok m' -> is_Some (m' !! k) ->
  is_Some (m !! k) \/ k ∈ be_key <$> edges.
Proof.
  revert m. induction edges as [|e edges IH]; intros m Hf Hk; cbn [foldM] in Hf; [inv_result; by left|].
  apply bind_ok in Hf as (m1 & He & Hf). apply IH in Hf as [Hm1|Hin]; [|right; by apply list_elem_of_further|done].
  unfold accumulate_biosphere_edge in He. destruct (negb _); [inv_result; by left|].
  apply bind_ok in He as (_ & _ & He). inv_result.
  destruct (decide ((be_flow_idx e, be_process_idx e) = k)) as [<-|Hne]; [right; apply list_elem_of_here|].
  rewrite lookup_insert_ne in Hm1 by done. by left.
Qed.

Lemma biosphere_cells_in preserve edges m k :
  biosphere_cells preserve edges = Ok m -> is_Some (m !! k) -> k ∈ be_key <$> edges.
Proof.
  intros (b & Hb & H)%bind_ok Hk. inv_result. destruct Hk as [v Hk]. apply map_lookup_filter_Some in Hk as [Hk _].
  eapply biosphere_fold_in in Hb as [[? Hn]|?]; [|done|by eexists]. by rewrite lookup_empty in Hn.
Qed.

(** ** Indices stay on their axes *)

Definition on_axis (n : nat) (i : Z) : Prop := 0 <= i < Z.of_nat n.

Lemma known_on_axis processes idx : known_process processes idx -> on_axis (length processes) idx.
Proof.
  intros [p Hp]. unfold compiled_process_for_idx in Hp. apply bind_Some in Hp as (i & Hi & Hl).
  apply usize_of_i32_Some in Hi as [? ->]. apply lookup_lt_Some in Hl. unfold on_axis. lia.
Qed.

Definition axis_ok (flows : list CompiledFlow) : Prop :=
  forall i f, flows !! i = Some f -> cf_flow_idx f = Z.of_nat i.

Lemma build_flow_axis_ok types flows :
  build_flow_axis types = Ok flows -> axis_ok flows /\ length flows = size types.
Proof.
  intros Hf. unfold build_flow_axis in Hf.
  eapply (foldM_ind (fun (pre : list FlowLinkIdentity) (acc : list CompiledFlow) => axis_ok acc /\ length acc = length pre)) in Hf.
  - destruct Hf as [? Hl]. split; [done|]. by rewrite Hl, length_sort_by, length_fmap, length_map_to_list.
  - split; [|done]. intros i f Hi. done.
  - intros pre id post acc acc' _ [Hok Hl] (idx & Hi & H)%bind_ok. cbn zeta in H. inv_result.
    split; [|rewrite !length_app; cbn; lia].
    intros i f [Hi'|[Hge Hi']]%lookup_app_Some; [by apply Hok|].
    apply list_lookup_singleton_Some in Hi' as [Hz <-]. cbn. unfold axis_i32, ok_or, i32_of_usize in Hi.
    case_decide; inv_result. f_equal. lia.
Qed.

Lemma flow_idx_in flows id idx : flow_idx_by_identity flows !! id = Some idx -> idx ∈ cf_flow_idx <$> flows.
Proof.
  unfold flow_idx_by_identity. induction flows as [|f flows IH] using rev_ind; [cbn; by rewrite lookup_empty|].
  rewrite foldl_app, fmap_app, elem_of_app. cbn. intros [[_ <-]|[_ H]]%lookup_insert_Some.
  - right. apply list_elem_of_here.
  - left. by apply IH.
Qed.

Lemma flow_on_axis flows id idx :
  axis_ok flows -> flow_idx_by_identity flows !! id = Some idx -> on_axis (length flows) idx.
Proof.
  intros Hok (f & -> & Hf)%flow_idx_in%list_elem_of_fmap. apply list_elem_of_lookup in Hf as [i Hi].
  rewrite (Hok i f Hi). apply lookup_lt_Some in Hi. unfold on_axis. lia.
Qed.

Lemma flow_indices_on_axis flows id idx :
  axis_ok flows -> flow_indices_by_identity flows !! id = Some idx -> on_axis (length flows) idx.
Proof.
  intros Hok (f & -> & Hf)%flow_idx_in%list_elem_of_fmap. apply list_elem_of_filter in Hf as [_ Hf].
  apply list_elem_of_lookup in Hf as [i Hi]. rewrite (Hok i f Hi). apply lookup_lt_Some in Hi. unfold on_axis. lia.
Qed.

Lemma biosphere_edges_on_axis flows processes versioned exchanges edges :
  axis_ok flows -> foldM (push_biosphere_edge flows processes versioned) exchanges [] = Ok edges ->
  Forall (fun e => on_axis (length flows) (be_flow_idx e) /\ on_axis (length processes) (be_process_idx e)) edges.
Proof.
  intros Hok Hf. eapply (foldM_ind (fun (_ : list ParsedExchange) (acc : list CompiledBiosphereEdge) =>
    Forall (fun e => on_axis (length flows) (be_flow_idx e) /\ on_axis (length processes) (be_process_idx e)) acc)) in Hf;
    [exact Hf|constructor|].
  intros _ x _ acc acc' _ Hacc Hx. unfold push_biosphere_edge in Hx.
  destruct (flow_idx_by_identity flows !! flow_link_identity x) as [idx|] eqn:Ei; [|by inv_result].
  destruct (x_amount x) as [a|]; [|by inv_result]. destruct (_ && _); [|by inv_result].
  apply bind_ok in Hx as (p & Hp & Hx). inv_result. apply Forall_app. split; [done|]. constructor; [|constructor].
  cbn. split; [by eapply flow_on_axis|]. unfold ok_or in Hp.
  destruct (compiled_process_for_idx processes (x_process_idx x)) eqn:Ep; [|done]. apply known_on_axis. by eexists.
Qed.

Lemma axis_i32_ok what n z : axis_i32 what n = Ok z -> z = Z.of_nat n.
Proof. unfold axis_i32, ok_or, i32_of_usize. case_decide; intros ?; by inv_result. Qed.

Lemma factor_fold_in method l m m' k :
  foldM (accumulate_finite_factor method) l m = Ok m' -> is_Some (m' !! k) -> is_Some (m !! k) \/ k ∈ l.*1.
Proof.
  revert m. induction l as [|kv l IH]; intros m Hf Hk; cbn [foldM] in Hf; [inv_result; by left|].
  apply bind_ok in Hf as (m1 & He & Hf). apply IH in Hf as [Hm1|Hin]; [|right; by apply list_elem_of_further|done].
  unfold accumulate_finite_factor in He. apply bind_ok in He as (_ & _ & He). apply bind_ok in He as (_ & _ & He).
  inv_result. destruct (decide (kv.1 = k)) as [<-|Hne]; [right; apply list_elem_of_here|].
  rewrite lookup_insert_ne in Hm1 by done. by left.
Qed.

Lemma impact_cells_on_axis flows method directional factors m k :
  axis_ok flows -> impact_cells (flow_indices_by_identity flows) method directional factors = Ok m ->
  is_Some (m !! k) -> on_axis (length flows) k.
Proof.
  intros Hok (c & Hc & H)%bind_ok Hk. inv_result. destruct Hk as [v Hk]. apply map_lookup_filter_Some in Hk as [Hk _].
  eapply factor_fold_in in Hc as [[? Hn]|Hin]; [by rewrite lookup_empty in Hn| |by eexists].
  apply list_elem_of_fmap in Hin as ([idx w] & -> & Hin). apply list_elem_of_omap in Hin as ([id u] & _ & Hi).
  apply fmap_Some in Hi as (idx' & Hi & He). simplify_eq/=. by eapply flow_indices_on_axis.
Qed.

Section Range.
Context (cell_order : gmap (Z * Z) f64 -> list (Z * Z * f64)) (factor_order : gmap Z f64 -> list (Z * f64)).
Context (Hcell : forall m, cell_order m ≡ₚ map_to_list m) (Hfactor : forall m, factor_order m ≡ₚ map_to_list m).

Lemma cell_entries_in m t :
  t ∈ cell_entries cell_order m <-> m !! (s_row t, s_col t) = Some (s_value t).
Proof using Hcell.
  unfold cell_entries. rewrite list_elem_of_fmap. split.
  - intros ([[r c] v] & -> & Hin). rewrite Hcell in Hin. by apply elem_of_map_to_list in Hin.
  - intros Hm. exists (s_row t, s_col t, s_value t). split; [by destruct t|]. rewrite Hcell.
    by apply elem_of_map_to_list.
Qed.

Lemma characterization_on_axis flows selection directional impacts c :
  axis_ok flows ->
  foldM (add_impact factor_order (flow_indices_by_identity flows) selection directional) (imap pair impacts) [] = Ok c ->
  Forall (sparse_in_range (Z.of_nat (length impacts)) (Z.of_nat (length flows))) c.
Proof using Hfactor.
  intros Hok Hf. eapply (foldM_ind (fun (_ : list (nat * ImpactFactorSet)) (acc : list SparseTriplet) =>
    Forall (sparse_in_range (Z.of_nat (length impacts)) (Z.of_nat (length flows))) acc)) in Hf; [exact Hf|constructor|].
  intros pre [i impact] post acc acc' Heq Hacc (row & Hrow%axis_i32_ok & H)%bind_ok. cbn [fst snd] in *.
  apply bind_ok in H as (factors & _ & H). apply bind_ok in H as (m & Hm & H). inv_result.
  apply Forall_app. split; [done|]. apply Forall_forall. intros t (kv & -> & Hin)%list_elem_of_fmap.
  rewrite Hfactor in Hin. destruct kv as [k v]. apply elem_of_map_to_list in Hin.
  eapply impact_cells_on_axis in Hm; [|done|by eexists]. unfold on_axis in Hm.
  assert ((i, impact) ∈ imap pair impacts) as Hi.
  { rewrite Heq. apply elem_of_app. right. apply list_elem_of_here. }
  apply elem_of_lookup_imap_1 in Hi as (j & f & Hij & Hl). simplify_eq. apply lookup_lt_Some in Hl.
  unfold sparse_in_range. cbn. lia.
Qed.

(** The counts that the 32-bit pointers of the matrices must hold. *)
Definition fits (data : ModelSparseData) : Prop :=
  Z.of_nat (length (technosphere_entries data)) + process_count data <= I32_MAX
  /\ Z.of_nat (length (biosphere_entries data)) <= I32_MAX
  /\ Z.of_nat (length (characterization_factors data)) <= I32_MAX.

Definition edges_on_axis (graph : CompiledGraph) : Prop :=
  axis_ok (cg_flows graph)
  /\ Forall (fun e => on_axis (length (cg_processes graph)) (te_provider_idx e)
                      /\ on_axis (length (cg_processes graph)) (te_consumer_idx e)) (cg_technosphere_edges graph)
  /\ Forall (fun e => on_axis (length (cg_flows graph)) (be_flow_idx e)
                      /\ on_axis (length (cg_processes graph)) (be_process_idx e)) (cg_biosphere_edges graph).

Lemma compile_scope_on_axis process_meta processes types rule lineage versioned exchanges graph :
  compile_scope process_meta processes types rule lineage versioned exchanges = Ok graph ->
  edges_on_axis graph /\ cg_processes graph = processes /\ length (cg_flows graph) = size types.
Proof.
  intros H. unfold compile_scope in H. apply bind_ok in H as (_ & _ & H).
  apply bind_ok in H as (flows & [Hok Hlen]%build_flow_axis_ok & H). apply bind_ok in H as (_ & _ & H).
  apply bind_ok in H as (ports & _ & H). apply bind_ok in H as (bio & Hbio & H).
  apply bind_ok in H as (batch & Hb & H). inv_result. unfold map_err in Hb.
  destruct (compile_signed_flow_balances _ _ _ _ _ _ _) as [b|e|] eqn:Ec; inv_result.
  apply batch_ok in Ec as (_ & _ & (_ & _ & Hknown) & _). split_and!; [|done|done]. split_and!; cbn; [done| |].
  - eapply Forall_impl; [exact Hknown|]. intros e [H1 H2]. split; by apply known_on_axis.
  - by eapply biosphere_edges_on_axis.
Qed.

Lemma assembled_in_range snapshot_id graph has_lcia directional impacts selection data :
  edges_on_axis graph -> (0 < length (cg_processes graph))%nat -> (0 < length (cg_flows graph))%nat ->
  (has_lcia = true -> impacts <> []) ->
  assemble_data cell_order factor_order snapshot_id graph has_lcia directional impacts selection = Ok data ->
  fits data -> data_in_range data.
Proof using Hcell Hfactor.
  intros (Hok & Hte & Hbe) Hn Hf Himp H (Hfa & Hfb & Hfc). unfold assemble_data in H.
  apply bind_ok in H as (n & Hn'%axis_i32_ok & H). apply bind_ok in H as (flows & Hf'%axis_i32_ok & H).
  apply bind_ok in H as (b & Hb & H). apply bind_ok in H as (c & Hc & H). apply bind_ok in H as (ni & Hni & H).
  inv_result. rewrite Forall_forall in Hte. rewrite Forall_forall in Hbe. constructor; cbn in *; try done; try lia.
  - destruct has_lcia; [|by inv_result]. apply axis_i32_ok in Hni as ->. destruct impacts; [by destruct Himp|cbn; lia].
  - apply Forall_forall. intros t Ht%cell_entries_in%cells_in%list_elem_of_fmap.
    destruct Ht as (e & He & [H1 H2]%Hte). unfold te_key in He. unfold sparse_in_range, on_axis in *. injection He as -> ->. lia.
  - apply Forall_forall. intros t Ht%cell_entries_in. eapply biosphere_cells_in in Hb; [|by eexists].
    apply list_elem_of_fmap in Hb as (e & He & [H1 H2]%Hbe). unfold be_key in He.
    unfold sparse_in_range, on_axis in *. injection He as -> ->. lia.
  - destruct has_lcia; [|inv_result; constructor]. apply axis_i32_ok in Hni as ->. by eapply characterization_on_axis.
Qed.
End Range.

(** ** Position by position *)

(** The triplets of a map, with a function applied to the values. *)
Definition triplets_of (g : f64 -> f64) (l : list (Z * Z * f64)) : list MatrixTriplet :=
  (fun kv : Z * Z * f64 => mk_triplet kv.1.1 kv.1.2 (g kv.2)) <$> l.

Lemma cell_absent eps g l k o :
  k ∉ l.*1 -> foldl (cell_step eps k) o (triplets_of g l) = o.
Proof.
  revert o. induction l as [|[[r c] v] l IH]; intros o Hk; [done|]. cbn in *.
  apply not_elem_of_cons in Hk as [Hne Hk]. unfold cell_step at 2. cbn.
  rewrite bool_decide_false by congruence. cbn. by apply IH.
Qed.

Lemma cell_present eps g l k v :
  NoDup l.*1 -> (k, v) ∈ l ->
  cell eps (triplets_of g l) k = if (f64_abs (g v) <=? eps)%f64 then None else Some (f64_zero + g v)%f64.
Proof.
  unfold cell. induction l as [|[k' v'] l IH]; cbn [fmap list_fmap fst]; intros Hnd Hin; [by apply elem_of_nil in Hin|].
  apply NoDup_cons in Hnd as [Hk' Hnd]. apply elem_of_cons in Hin as [Heq|Hin].
  - simplify_eq. change (triplets_of g ((k', v') :: l)) with (mk_triplet k'.1 k'.2 (g v') :: triplets_of g l).
    cbn [foldl]. rewrite (cell_absent eps g l k') by done. unfold cell_step. cbn.
    rewrite bool_decide_true by by destruct k'. by destruct (f64_abs (g v') <=? eps)%f64.
  - change (triplets_of g ((k', v') :: l)) with (mk_triplet k'.1 k'.2 (g v') :: triplets_of g l). cbn [foldl].
    assert (k' <> k) as Hne. { intros ->. apply Hk', list_elem_of_fmap. by exists (k, v). }
    unfold cell_step at 2. cbn. rewrite bool_decide_false by (destruct k', k; cbn; congruence). cbn. by apply IH.
Qed.

Lemma f64_abs_neg x : f64_abs (- x)%f64 = f64_abs x.
Proof. by destruct x. Qed.

Lemma zero_plus x : (f64_abs x >? f64_epsilon)%f64 = true -> (f64_zero + - x)%f64 = (- x)%f64.
Proof. by destruct x as [[]|[]| |[] m e]. Qed.

(** Position [(i, j)] of I - A for the edges of a graph: the negated total of
    the edges from [i] to [j], plus one on the diagonal. *)
Definition a_entry (eps : f64) (edges : list CompiledTechnosphereEdge) (k : Z * Z) : option f64 :=
  match prune f64_epsilon (edge_total edges k) with
  | Some v => if (f64_abs v <=? eps)%f64 then None else Some (- v)%f64
  | None => None
  end.
Definition balance_matrix (eps : f64) (edges : list CompiledTechnosphereEdge) (i j : Z) : option f64 :=
  if decide (i = j) then Some (default f64_zero (a_entry eps edges (i, j)) + f64_one)%f64 else a_entry eps edges (i, j).

Lemma negated_cell_edges cell_order eps edges k :
  (forall m, cell_order m ≡ₚ map_to_list m) ->
  negated_cell eps (cell_entries cell_order (technosphere_cells edges)) k = a_entry eps edges k.
Proof.
  intros Horder. unfold negated_cell, cell_entries, a_entry. rewrite <- list_fmap_compose.
  change (negated_triplet ∘ (fun kv : Z * Z * f64 => mk_sparse kv.1.1 kv.1.2 kv.2) <$> cell_order (technosphere_cells edges))
    with (triplets_of f64_neg (cell_order (technosphere_cells edges))).
  rewrite <- cells_lookup. destruct (technosphere_cells edges !! k) as [v|] eqn:E.
  - rewrite (cell_present eps f64_neg _ k v).
    + rewrite f64_abs_neg. destruct (f64_abs v <=? eps)%f64; [done|]. rewrite zero_plus; [done|].
      rewrite cells_lookup in E. unfold prune in E. destruct (edge_total edges k) as [w|]; [|done].
      destruct (f64_abs w >? f64_epsilon)%f64 eqn:Ew; by simplify_eq.
    + rewrite Horder. apply NoDup_fst_map_to_list.
    + rewrite Horder. by apply elem_of_map_to_list.
  - apply cell_absent. rewrite Horder. intros ([k' v] & -> & Hin)%list_elem_of_fmap.
    apply elem_of_map_to_list in Hin. cbn in E. congruence.
Qed.

(** From exchanges to the solver's matrices.  If the scope compiles and its
    data is assembled, over at least one process, flow and impact and within
    the 32-bit counts, then the data is in range and the matrix build
    succeeds: position (i, j) of M holds the negated sum, in edge order, of
    the technosphere edges from provider i to consumer j, plus one on the
    diagonal, pruned at the thresholds -- whatever the iteration order of the
    hash maps. *)
Lemma assembled_matrix
    (cell_order : gmap (Z * Z) f64 -> list (Z * Z * f64)) (factor_order : gmap Z f64 -> list (Z * f64))
    process_meta processes types rule lineage versioned exchanges graph
    snapshot_id has_lcia directional impacts selection data (eps : f64) :
  (forall m, cell_order m ≡ₚ map_to_list m) -> (forall m, factor_order m ≡ₚ map_to_list m) ->
  compile_scope process_meta processes types rule lineage versioned exchanges = Ok graph ->
  assemble_data cell_order factor_order snapshot_id graph has_lcia directional impacts selection = Ok data ->
  processes <> [] -> types <> ∅ -> (has_lcia = true -> impacts <> []) -> fits data ->
  (f64_one <=? eps)%f64 = false ->
  exists bm, build eps data = Ok bm
    /\ agrees eps (bm_m bm) (Z.of_nat (length processes)) (Z.of_nat (length processes))
         (balance_matrix eps (cg_technosphere_edges graph)).
Proof.
  intros Hcell Hfactor Hscope Hdata Hp Ht Himp Hfits Heps.
  apply compile_scope_on_axis in Hscope as (Haxis & Hpr & Hfl).
  assert (data_in_range data) as Hrange.
  { eapply assembled_in_range; [exact Hcell|exact Hfactor|exact Haxis| | |exact Himp|exact Hdata|exact Hfits].
    - rewrite Hpr. destruct processes; [done|cbn; lia].
    - rewrite Hfl. destruct (decide (size types = 0%nat)) as [Hz|Hz]; [|lia].
      by apply map_size_empty_inv in Hz. }
  destruct (build_ok eps data Hrange Heps) as (bm & Hb & Hm & _). exists bm. split; [done|].
  unfold assemble_data in Hdata. apply bind_ok in Hdata as (n & Hn%axis_i32_ok & H).
  apply bind_ok in H as (? & _ & H). apply bind_ok in H as (b & _ & H). apply bind_ok in H as (c & _ & H).
  apply bind_ok in H as (ni & _ & H). inv_result. cbn in Hm.
  destruct Hm as (Hwf & Hr & Hc & Hget). split_and!; [done|done|done|]. intros i j Hj. rewrite Hget by done. f_equal.
  unfold i_minus_a, balance_matrix. cbn [technosphere_entries]. by rewrite negated_cell_edges.
Qed.

(** ** A concrete snapshot *)

Definition example_types : gmap FlowLinkIdentity CompiledSourceFlowType :=
  {[mk_flow 40 "1" := SourceProduct; mk_flow 41 "1" := SourceProduct; mk_flow 50 "1" := SourceProduct]}.

Definition example_graph : result AssembleError CompiledGraph :=
  compile_scope example_processes example_compiled example_types SplitByProcessVolume example_lineage false example_exchanges.
Definition example_snapshot : result AssembleError ModelSparseData :=
  graph ← example_graph;
  assemble_data map_to_list map_to_list 9 graph false false [] (select_active_lcia_factors [] [] [] false).

Definition data_of (r : result AssembleError ModelSparseData) : option ModelSparseData :=
  match r with Ok d => Some d | _ => None end.

Lemma example_snapshot_data :
  data_of example_snapshot = Some
    {| model_version := 9; process_count := 4; flow_count := 3; impact_count := 1;
       technosphere_entries := [mk_sparse 3 0 (f64_of_ratio 1 4); mk_sparse 2 0 (f64_of_ratio 3 4)];
       biosphere_entries := []; characterization_factors := [] |}.
Proof. vm_compute. reflexivity. Qed.

Lemma assembled_matrix_example :
  exists data bm, example_snapshot = Ok data /\ build default_zero_epsilon data = Ok bm
    /\ csc_get (bm_m bm) 0 0 = Some f64_one /\ csc_get (bm_m bm) 2 0 = Some (f64_of_ratio (-3) 4).
Proof.
  pose proof example_snapshot_data as Hd. unfold example_snapshot in *.
  destruct example_graph as [graph|e|] eqn:Eg; [|discriminate Hd..]. cbn [mbind result_bind] in *.
  destruct (assemble_data map_to_list map_to_list 9 graph false false [] (select_active_lcia_factors [] [] [] false))
    as [data|e|] eqn:Ea; [|discriminate Hd..]. cbn [data_of] in Hd. injection Hd as Hd.
  destruct (assembled_matrix map_to_list map_to_list example_processes example_compiled example_types
    SplitByProcessVolume example_lineage false example_exchanges graph 9 false false []
    (select_active_lcia_factors [] [] [] false) data default_zero_epsilon) as (bm & Hb & _).
  - done.
  - done.
  - exact Eg.
  - exact Ea.
  - done.
  - done.
  - done.
  - rewrite Hd. vm_compute. split_and!; discriminate.
  - vm_compute. reflexivity.
  - exists data, bm. split; [reflexivity|]. split; [exact Hb|]. subst data. vm_compute in Hb. injection Hb as <-.
    split; vm_compute; reflexivity.
Defined.
