(* ===== verification/Documents.v ===== *)
(** * From process documents to the compiled graph

    Models the front of [compile_scope_graph] in [bin/snapshot_builder.rs]: the
    processes are parsed into one list of exchanges over a common axis, the
    targets of their allocations are checked against the flow data sets, the
    exchanges without a flow version are given the visible one, the flows are
    classified, and the scope is compiled ([Assemble.compile_scope]).

    The flow data sets come from the database: the query is an argument, a
    function from the requested references to the rows it returns. *)

From S2P Require Import Prelude F64 Text Json SignedFlow Location ProviderLink Tidas Lineage Balance Exchange DataBuilder Csc Assemble.

Local Open Scope string_scope.
Local Open Scope Z_scope.
Local Open Scope list_scope.

Record FlowReferenceRequests := mk_requests { req_exact : gset FlowLinkIdentity; req_omitted : gset Uuid }.

Record FlowRow := {
  flow_row_id : Uuid;
  flow_row_version : string;
  flow_row_user_id : option Uuid;
  flow_row_state_code : Z;
  flow_row_team_id : option Uuid;
  flow_row_review_id : option Uuid;
  flow_row_json : Value;
}.

Record ResolvedFlowMetadata := {
  by_identity : gmap FlowLinkIdentity FlowRow;
  omitted_version_by_id : gmap Uuid string;
}.

Inductive DocumentError :=
| ProcessOverflow
| ProcessIndexOverflow
| ParseFailed (e : ExchangeError)
| MissingProcessMeta (idx : Z)
| MissingProcessRow (idx : Z)
| TargetReferenceMissing (process : Uuid)
| TargetAllocation (e : TidasError)
| TargetFlowInvalid (process : Uuid)
| TargetFlowVersion (process : Uuid)
| TargetFlowUnresolved (flow : FlowLinkIdentity)
| TargetFlowType (flow : FlowLinkIdentity)
| OmittedVersionUnresolved (exchange_id : string) (flow : Uuid)
| ExactVersionMissing (exchange_id : string) (flow : FlowLinkIdentity)
| FlowQueryFailed
| CompileFailed (e : AssembleError).

Definition classify_scope_partition (row : ProcessRow) (include_user_id : option Uuid) : ScopeProcessPartition :=
  if decide (row_state_code row <> 100 /\ is_Some include_user_id /\ row_user_id row = include_user_id)
  then Private else Public.

(** The declared type of a flow data set, or its elementary categorization. *)
Definition classify_source_flow_type (flow_json : Value) : CompiledSourceFlowType :=
  match trim <$> (pointer ["flowDataSet"; "modellingAndValidation"; "LCIMethod"; "typeOfDataSet"] flow_json ≫= as_str) with
  | Some declared =>
      if decide (declared = "Product flow") then SourceProduct
      else if decide (declared = "Waste flow") then SourceWaste
      else if decide (declared = "Elementary flow") then SourceElementary
      else SourceOther
  | None =>
      match pointer ["flowDataSet"; "flowInformation"; "dataSetInformation"; "classificationInformation";
                     "common:elementaryFlowCategorization"; "common:category"] flow_json with
      | None => SourceProduct
      | Some category =>
          let text := match category with
                      | JArray items => default EmptyString ((head items ≫= get "#text") ≫= as_str)
                      | JObject _ => default EmptyString (get "#text" category ≫= as_str)
                      | JString text => text
                      | _ => EmptyString
                      end in
          if decide (text = "Emissions" \/ text = "Resources" \/ text = "Land use")
          then SourceElementary else SourceProduct
      end
  end.

(** ** Requested flows *)

Definition insert_flow_reference_request (requests : FlowReferenceRequests) (flow_id : Uuid) (flow_version : string)
    : FlowReferenceRequests :=
  if decide (flow_version = "unknown" \/ flow_version = EmptyString)
  then mk_requests (req_exact requests) ({[flow_id]} ∪ req_omitted requests)
  else mk_requests ({[flow_link_identity_from_parts flow_id flow_version]} ∪ req_exact requests) (req_omitted requests).

Definition collect_exchange_flow_reference_requests (exchanges : list ParsedExchange) : FlowReferenceRequests :=
  foldl (fun r x => insert_flow_reference_request r (x_flow_id x) (x_flow_version x)) (mk_requests ∅ ∅) exchanges.

Definition with_flow_version (x : ParsedExchange) (version : string) : ParsedExchange :=
  {| x_process_idx := x_process_idx x; x_flow_id := x_flow_id x; x_direction := x_direction x;
     x_direction_label := x_direction_label x; x_internal_id := x_internal_id x; x_exchange_id := x_exchange_id x;
     x_flow_version := version; x_is_reference := x_is_reference x; x_raw_amount := x_raw_amount x;
     x_signed_raw_coefficient := x_signed_raw_coefficient x; x_amount := x_amount x;
     x_allocation_state := x_allocation_state x; x_allocation_fraction := x_allocation_fraction x;
     x_allocation_target := x_allocation_target x; x_location := x_location x |}.

Definition resolve_requested_flow_version (flow_meta : ResolvedFlowMetadata) (additional : gset FlowLinkIdentity)
    (x : ParsedExchange) : result DocumentError ParsedExchange :=
  if decide (x_flow_version x = "unknown") then
    version ← ok_or (OmittedVersionUnresolved (x_exchange_id x) (x_flow_id x))
                (omitted_version_by_id flow_meta !! x_flow_id x);
    Ok (with_flow_version x version)
  else
    let identity := flow_link_identity x in
    if decide (is_Some (by_identity flow_meta !! identity) \/ identity ∈ additional) then Ok x
    else Err (ExactVersionMissing (x_exchange_id x) identity).

Definition resolve_requested_flow_versions_with_available (exchanges : list ParsedExchange)
    (flow_meta : ResolvedFlowMetadata) (additional : gset FlowLinkIdentity) : result DocumentError (list ParsedExchange) :=
  mapR (resolve_requested_flow_version flow_meta additional) exchanges.

Definition resolve_requested_flow_versions (exchanges : list ParsedExchange) (flow_meta : ResolvedFlowMetadata)
    : result DocumentError (list ParsedExchange) :=
  resolve_requested_flow_versions_with_available exchanges flow_meta ∅.

(** ** Allocation targets *)

Section Compile.
Context (parse_uuid : string -> option Uuid) (show_uuid : Uuid -> string) (show_f64 : f64 -> string).

(** The exact flow one target exchange names. *)
Definition target_flow (process : Uuid) (exchange : Value) : result DocumentError FlowLinkIdentity :=
  flow_id ← ok_or (TargetFlowInvalid process) (flow_of_exchange parse_uuid exchange);
  version ← ok_or (TargetFlowVersion process)
              (v ← trimmed_text (pointer ["referenceToFlowDataSet"; "@version"] exchange);
               if decide (v = "unknown") then None else Some v);
  Ok (flow_link_identity_from_parts flow_id version).

Definition allocation_target_flow_identities (row : ProcessRow) : result DocumentError (gset FlowLinkIdentity) :=
  let exchanges := process_exchange_items (row_json row) in
  reference ← ok_or (TargetReferenceMissing (row_id row)) (parse_reference_internal_id (row_json row));
  allocation ← map_err TargetAllocation (resolve_tidas_process_allocations show_f64 exchanges reference);
  flows ← mapR (fun index => exchange ← expect (exchanges !! index); target_flow (row_id row) exchange)
            (allocation_target_indices allocation);
  Ok (list_to_set flows).

(** One target flow must be an exact product or waste flow. *)
Definition validate_allocation_target_flow (flow_meta : ResolvedFlowMetadata) (target : FlowLinkIdentity)
    : result DocumentError unit :=
  flow_type ← ok_or (TargetFlowUnresolved target)
    (((flow_row_json <$> by_identity flow_meta !! target)
      ≫= pointer ["flowDataSet"; "modellingAndValidation"; "LCIMethod"; "typeOfDataSet"]) ≫= as_str);
  ensure (bool_decide (flow_type = "Product flow" \/ flow_type = "Waste flow")) (TargetFlowType target).

(** A [BTreeSet] is visited in the order of its elements. *)
Definition validate_allocation_target_flows (targets : gset FlowLinkIdentity) (flow_meta : ResolvedFlowMetadata)
    : result DocumentError unit :=
  foldM (fun _ target => validate_allocation_target_flow flow_meta target) (sort_by flow_cmp (elements targets)) tt.

(** ** The process axis *)

(** The locals of the loop over the parsed chunks. *)
Record scope_state := mk_scope {
  s_exchanges : list ParsedExchange;
  s_meta_by_idx : gmap Z ProcessMeta;
  s_reference : ReferenceParseStats;
  s_allocation : AllocationParseStats;
}.

Definition add_reference_stats (a b : ReferenceParseStats) : ReferenceParseStats :=
  mk_reference_stats (missing_reference a + missing_reference b) (invalid_reference a + invalid_reference b)
    (normalized_processes a + normalized_processes b).
Definition add_allocation_stats (a b : AllocationParseStats) : AllocationParseStats :=
  mk_allocation_stats (exchange_total a + exchange_total b) (fraction_present_count a + fraction_present_count b)
    (fraction_missing_count a + fraction_missing_count b) (fraction_invalid_count a + fraction_invalid_count b)
    (legacy_empty_allocation_as_undeclared_count a + legacy_empty_allocation_as_undeclared_count b)
    (legacy_single_reference_target_inferred_count a + legacy_single_reference_target_inferred_count b).

Definition parse_row (ix : nat * ProcessRow) : result DocumentError (ProcessMeta * chunk_state * ReferenceParseStats) :=
  process_idx ← ok_or ProcessIndexOverflow (i32_of_usize ix.1);
  map_err ParseFailed (parse_process_chunk parse_uuid show_uuid show_f64 ix.2 process_idx).

(** [chunk?] and the merge of one chunk; the chunks were computed in parallel. *)
Definition add_chunk (s : scope_state) (chunk : result DocumentError (ProcessMeta * chunk_state * ReferenceParseStats))
    : result DocumentError scope_state :=
  '(meta, st, reference) ← chunk;
  Ok (mk_scope (s_exchanges s ++ local_exchanges st) (<[meta_process_idx meta := meta]> (s_meta_by_idx s))
        (add_reference_stats (s_reference s) reference) (add_allocation_stats (s_allocation s) (local_allocation st))).

Definition take_meta (acc : list ProcessMeta * gmap Z ProcessMeta) (idx : nat)
    : result DocumentError (list ProcessMeta * gmap Z ProcessMeta) :=
  meta ← ok_or (MissingProcessMeta (Z.of_nat idx)) (acc.2 !! Z.of_nat idx);
  Ok (acc.1 ++ [meta], delete (Z.of_nat idx) acc.2).

Definition compiled_process (rows : list ProcessRow) (include_user_id : option Uuid) (meta : ProcessMeta)
    : result DocumentError CompiledProcess :=
  row ← ok_or (MissingProcessRow (meta_process_idx meta)) (usize_of_i32 (meta_process_idx meta) ≫= fun i => rows !! i);
  Ok {| cp_meta := meta; cp_partition := classify_scope_partition row include_user_id |}.

(** The parsed scope: the metadata and processes on the axis, the exchanges. *)
Definition parse_scope (rows : list ProcessRow) (include_user_id : option Uuid)
    : result DocumentError (list ProcessMeta * list CompiledProcess * scope_state) :=
  process_count ← ok_or ProcessOverflow (i32_of_usize (length rows));
  let chunks := parse_row <$> enumerate rows in
  scope ← foldM add_chunk chunks
            (mk_scope [] ∅ (mk_reference_stats 0 0 0) (mk_allocation_stats 0 0 0 0 0 0));
  '(process_meta, _) ← foldM take_meta (seq 0 (Z.to_nat process_count)) ([], s_meta_by_idx scope);
  compiled_processes ← mapR (compiled_process rows include_user_id) process_meta;
  Ok (process_meta, compiled_processes, scope).

Context (fetch_flow_meta : FlowReferenceRequests -> result DocumentError ResolvedFlowMetadata).

Definition compile_documents (rows : list ProcessRow) (include_user_id : option Uuid) (rule : ProviderRule)
    (lineage : ProviderLineageIndex) (versioned_scope : bool)
    : result DocumentError (CompiledGraph * list ParsedExchange) :=
  '(process_meta, processes, scope) ← parse_scope rows include_user_id;
  targets ← mapR allocation_target_flow_identities rows;
  flow_meta ← fetch_flow_meta (collect_exchange_flow_reference_requests (s_exchanges scope));
  _ ← validate_allocation_target_flows (⋃ targets) flow_meta;
  exchanges ← resolve_requested_flow_versions (s_exchanges scope) flow_meta;
  graph ← map_err CompileFailed
            (compile_scope process_meta processes ((fun flow => classify_source_flow_type (flow_row_json flow)) <$> by_identity flow_meta)
               rule lineage versioned_scope exchanges);
  Ok (graph, exchanges).
End Compile.

(** ** The axis *)

Section Scope.
Context (parse_uuid : string -> option Uuid) (show_uuid : Uuid -> string) (show_f64 : f64 -> string).
Local Abbreviation chunk_of := (parse_process_chunk parse_uuid show_uuid show_f64).

(** The chunks of a scope: one per row, parsed at the row's position. *)
Definition chunks_of (rows : list ProcessRow) (chunks : list chunk_state) : Prop :=
  length chunks = length rows /\
  forall i row st, rows !! i = Some row -> chunks !! i = Some st ->
    exists stats, chunk_of row (Z.of_nat i) = Ok (process_meta_of row (Z.of_nat i), st, stats).

Definition metas_of (rows : list ProcessRow) : list ProcessMeta :=
  imap (fun i row => process_meta_of row (Z.of_nat i)) rows.

Lemma parse_row_ok i row p :
  parse_row parse_uuid show_uuid show_f64 (i, row) = Ok p ->
  chunk_of row (Z.of_nat i) = Ok p /\ p.1.1 = process_meta_of row (Z.of_nat i).
Proof.
  unfold parse_row. cbn [fst snd]. intros (idx & Hidx%ok_or_ok & H)%bind_ok. unfold i32_of_usize in Hidx.
  case_decide; [|done]. injection Hidx as <-. apply map_err_ok in H. split; [done|]. destruct p as [[meta st] stats].
  by apply parse_process_chunk_ok in H as (? & ? & ? & _ & _ & _ & -> & _).
Qed.

Lemma chunks_of_snoc rows row chunks st stats :
  chunks_of rows chunks ->
  chunk_of row (Z.of_nat (length rows)) = Ok (process_meta_of row (Z.of_nat (length rows)), st, stats) ->
  chunks_of (rows ++ [row]) (chunks ++ [st]).
Proof.
  intros [Hlen Hc] Hrow. split; [rewrite !length_app; cbn; lia|]. intros i r s Hr Hs.
  destruct (decide (i < length rows)%nat) as [Hi|Hi].
  - rewrite lookup_app_l in Hr by done. rewrite lookup_app_l in Hs by lia. by apply Hc.
  - rewrite lookup_app_r in Hr by lia. rewrite lookup_app_r in Hs by lia.
    assert (i = length rows) as -> by (apply list_lookup_singleton_Some in Hr as [? _]; lia).
    rewrite Nat.sub_diag in Hr. rewrite Hlen, Nat.sub_diag in Hs. injection Hr as <-. injection Hs as <-. eauto.
Qed.

Definition total_counts (chunks : list chunk_state) (scope : scope_state) : Prop :=
  s_exchanges scope = chunks ≫= local_exchanges /\ counts_agree (length (s_exchanges scope)) (s_allocation scope)
  /\ s_reference scope = mk_reference_stats 0 0 (Z.of_nat (length chunks)).

Lemma counts_agree_add n m a b :
  counts_agree n a -> counts_agree m b -> counts_agree (n + m) (add_allocation_stats a b).
Proof. unfold counts_agree. cbn. lia. Qed.

Lemma reference_stats_ok row idx meta st stats :
  chunk_of row idx = Ok (meta, st, stats) ->
  stats = mk_reference_stats 0 0 1 /\ counts_agree (length (local_exchanges st)) (local_allocation st).
Proof.
  intros (r & pivot & al & _ & Hn & _ & _ & _ & _ & Hc)%parse_process_chunk_ok. split; [|done].
  unfold resolve_reference_normalization in Hn. cbn zeta in Hn.
  repeat (apply bind_ok in Hn as (? & _ & Hn)). by injection Hn as _ <-.
Qed.

(** The loop over the chunks parses every row at its own position. *)
Lemma chunk_loop rows scope :
  foldM add_chunk (parse_row parse_uuid show_uuid show_f64 <$> enumerate rows)
    (mk_scope [] ∅ (mk_reference_stats 0 0 0) (mk_allocation_stats 0 0 0 0 0 0)) = Ok scope ->
  exists chunks, chunks_of rows chunks /\ total_counts chunks scope
    /\ forall i, s_meta_by_idx scope !! Z.of_nat i = metas_of rows !! i.
Proof.
  revert scope. induction rows as [|row rows IH] using rev_ind; intros scope H.
  { injection H as <-. exists []. split; [by split|]. split; [|done]. split; [done|]. split; [unfold counts_agree; cbn; lia|done]. }
  unfold enumerate in H. rewrite imap_app, fmap_app, foldM_app in H. cbn [imap fmap list_fmap] in H.
  apply bind_ok in H as (s & Hs & H). apply IH in Hs as (chunks & Hchunks & (He & Hcount & Hstat) & Hmeta). cbn [foldM] in H.
  destruct (add_chunk s _) as [s'| |] eqn:Hadd; [|done|done]. injection H as <-.
  apply bind_ok in Hadd as ([[meta st] stats] & Hrow & [= <-]). rewrite Nat.add_0_r in Hrow.
  apply parse_row_ok in Hrow as [Hrow Hm]. cbn in Hm. subst meta.
  pose proof (reference_stats_ok _ _ _ _ _ Hrow) as [-> Hc].
  exists (chunks ++ [st]). split_and!.
  - by eapply chunks_of_snoc.
  - unfold total_counts. cbn [s_exchanges s_allocation s_reference]. rewrite Hstat, bind_app, bind_singleton, He.
    split_and!; [done| |].
    + rewrite length_app, <- He. by apply counts_agree_add.
    + unfold add_reference_stats. cbn. rewrite length_app. cbn. f_equal. lia.
  - intros i. cbn [s_meta_by_idx process_meta_of meta_process_idx]. unfold metas_of. rewrite imap_app.
    cbn [imap]. rewrite Nat.add_0_r. destruct (decide (i = length rows)) as [->|Hne].
    + rewrite lookup_insert_eq, lookup_app_r by (rewrite length_imap; lia). by rewrite length_imap, Nat.sub_diag.
    + rewrite lookup_insert_ne by lia. rewrite Hmeta. destruct (decide (i < length rows)%nat).
      * by rewrite lookup_app_l by by rewrite length_imap.
      * unfold metas_of. rewrite (lookup_ge_None_2 (imap _ rows)) by (rewrite length_imap; lia).
        symmetry. apply lookup_ge_None. rewrite length_app, length_imap. cbn. lia.
Qed.

Lemma take_loop metas n m acc :
  (forall i, m !! Z.of_nat i = metas !! i) -> foldM take_meta (seq 0 n) ([], m) = Ok acc -> acc.1 = take n metas.
Proof.
  intros Hm. rewrite <- (length_seq n 0) at 2.
  apply (foldM_ind (fun pre acc => acc.1 = take (length pre) metas
    /\ forall i, (length pre <= i)%nat -> acc.2 !! Z.of_nat i = metas !! i)); [by split|].
  intros pre a post [l c] acc' Hseq [Hl Hc] (meta & Hmeta%ok_or_ok & [= <-])%bind_ok. cbn [fst snd] in *.
  assert (a = length pre) as ->.
  { assert (seq 0 n !! length pre = Some a) as [-> _]%lookup_seq; [|done].
    by rewrite Hseq, lookup_app_r, Nat.sub_diag by lia. }
  rewrite Hc in Hmeta by done. rewrite length_app. cbn [length]. rewrite Nat.add_1_r. split.
  - by rewrite (take_S_r _ _ _ Hmeta), Hl.
  - intros i Hi. rewrite lookup_delete_ne by lia. apply Hc. lia.
Qed.

Lemma parse_scope_ok rows user metas processes scope :
  parse_scope parse_uuid show_uuid show_f64 rows user = Ok (metas, processes, scope) ->
  metas = metas_of rows
  /\ processes = imap (fun i row => {| cp_meta := process_meta_of row (Z.of_nat i);
                                       cp_partition := classify_scope_partition row user |}) rows
  /\ exists chunks, chunks_of rows chunks /\ total_counts chunks scope.
Proof.
  unfold parse_scope. intros (n & Hn%ok_or_ok & H)%bind_ok. cbn zeta in H.
  apply bind_ok in H as (s & (chunks & Hchunks & Htotal & Hmeta)%chunk_loop & H).
  apply bind_ok in H as ([l m] & Htake & H). apply bind_ok in H as (ps & Hps%mapR_ok & [= <- <- <-]).
  assert (Z.to_nat n = length rows) as Hlen by (unfold i32_of_usize in Hn; case_decide; simplify_eq; lia).
  apply (take_loop (metas_of rows)) in Htake; [|done]. cbn [fst] in Htake.
  rewrite Hlen, take_ge in Htake by (unfold metas_of; by rewrite length_imap). subst l.
  split; [done|]. split; [|by exists chunks]. apply list_eq. intros i. rewrite list_lookup_imap.
  destruct (rows !! i) as [row|] eqn:Hi; cbn.
  - assert (metas_of rows !! i = Some (process_meta_of row (Z.of_nat i))) as Hm
      by (unfold metas_of; by rewrite list_lookup_imap, Hi).
    destruct (Forall2_lookup_l _ _ _ _ _ Hps Hm) as (p & -> & Hp).
    apply bind_ok in Hp as (row' & Hrow%ok_or_ok & [= <-]). cbn [process_meta_of meta_process_idx] in Hrow.
    apply bind_Some in Hrow as (j & [_ ->]%usize_of_i32_Some & Hj). rewrite Nat2Z.id, Hi in Hj. by injection Hj as <-.
  - apply lookup_ge_None. rewrite <- (Forall2_length _ _ _ Hps). unfold metas_of. rewrite length_imap.
    by apply lookup_ge_None.
Qed.

(** Every exchange of the scope sits at the position of its row. *)
Lemma chunk_owner rows chunks x :
  chunks_of rows chunks -> x ∈ (chunks ≫= local_exchanges) ->
  exists i row, rows !! i = Some row /\ x_process_idx x = Z.of_nat i.
Proof.
  intros [Hlen Hc] (st & Hx & [i Hi]%list_elem_of_lookup)%list_elem_of_bind.
  assert (is_Some (rows !! i)) as [row Hrow] by (apply lookup_lt_is_Some; apply lookup_lt_Some in Hi; lia).
  exists i, row. split; [done|]. destruct (Hc i row st Hrow Hi) as (stats & H).
  apply parse_process_chunk_ok in H as (? & ? & ? & _ & _ & _ & _ & Hl & _).
  apply list_elem_of_lookup in Hx as [k Hk]. destruct (Forall2_lookup_r _ _ _ _ _ Hl Hk) as (ix & _ & Hp).
  by apply (pa_process _ _ _ _ _ _ _ Hp).
Qed.
End Scope.

(** ** The compiled scope *)

(** A reference exchange with a coefficient of plus or minus one. *)
Definition unit_reference (x : ParsedExchange) : Prop :=
  exists d a c, x_direction x = Some d /\ x_amount x = Some a /\ signed_coefficient (signed_flow_direction d) a = Ok c
    /\ (f64_abs (f64_abs c - f64_one) >? SIGNED_FLOW_CLOSURE_TOLERANCE)%f64 = false.

Lemma validate_reference_ok flow_space exchanges meta :
  validate_reference flow_space exchanges meta = Ok tt ->
  exists x, filter (fun y => x_process_idx y = meta_process_idx meta /\ x_is_reference y = true) exchanges = [x]
    /\ is_Some (flow_space !! flow_link_identity x) /\ unit_reference x.
Proof.
  unfold validate_reference. destruct (filter _ exchanges) as [|x [|]]; [done| |done]. intros H. exists x. split; [done|].
  apply bind_ok in H as ([] & Hf%ensure_ok%bool_decide_eq_true & H). split; [done|].
  apply bind_ok in H as (d & Hd%ok_or_ok & H). apply bind_ok in H as (c & Hc & H).
  apply bind_ok in H as (c' & Hc'%ok_or_ok & H%ensure_ok%negb_true_iff). subst c. unfold coefficient_of in Hc.
  destruct (x_amount x) as [a|] eqn:Ha; [|discriminate Hc]. apply bind_ok in Hc as (c & Hc%map_err_ok & [= ->]).
  exists d, a, c'. split; [exact Hd|]. split; [exact Ha|]. split; [exact Hc|exact H].
Qed.

Lemma compile_scope_checks metas processes types rule lineage versioned exchanges graph :
  compile_scope metas processes types rule lineage versioned exchanges = Ok graph ->
  cg_processes graph = processes
  /\ (forall x, x ∈ exchanges -> is_Some (types !! flow_link_identity x))
  /\ forall meta, meta ∈ metas -> exists x,
       filter (fun y => x_process_idx y = meta_process_idx meta /\ x_is_reference y = true) exchanges = [x] /\ unit_reference x.
Proof.
  unfold compile_scope. cbn zeta. intros ([] & Hknown & H)%bind_ok. rewrite foldM_unit_ok in Hknown.
  apply bind_ok in H as (flows & _ & H). apply bind_ok in H as ([] & Hv%map_err_ok & H).
  apply bind_ok in H as (ports & _ & H). apply bind_ok in H as (bio & _ & H). apply bind_ok in H as (batch & _ & [= <-]).
  split; [done|]. split.
  - intros x Hx. by apply Hknown, ensure_ok, bool_decide_eq_true in Hx.
  - unfold validate_quantitative_references in Hv. rewrite foldM_unit_ok in Hv. intros meta Hm.
    destruct (validate_reference_ok _ _ _ (Hv meta Hm)) as (x & Hx & _ & Hu). by exists x.
Qed.

Lemma resolved_version flow_meta x y :
  resolve_requested_flow_version flow_meta ∅ x = Ok y -> y = with_flow_version x (x_flow_version y).
Proof.
  unfold resolve_requested_flow_version. case_decide.
  - intros (v & _ & [= <-])%bind_ok. done.
  - case_decide; [|done]. intros [= <-]. by destruct x.
Qed.

(** What a compiled scope keeps of its documents: one process per row, at its
    position; every exchange at the position of a row, its flow known; and one
    reference per row, with a unit coefficient. *)
Record scope_of (rows : list ProcessRow) (user : option Uuid) (graph : CompiledGraph) (exchanges : list ParsedExchange) : Prop := {
  so_axis : cg_processes graph = imap (fun i row =>
    {| cp_meta := process_meta_of row (Z.of_nat i); cp_partition := classify_scope_partition row user |}) rows;
  so_owner : forall x, x ∈ exchanges -> exists i row, rows !! i = Some row /\ x_process_idx x = Z.of_nat i;
  so_reference : forall i row, rows !! i = Some row ->
    exists x, filter (fun y => x_process_idx y = Z.of_nat i /\ x_is_reference y = true) exchanges = [x] /\ unit_reference x;
}.

Lemma compile_documents_ok parse_uuid show_uuid show_f64 fetch rows user rule lineage versioned graph exchanges :
  compile_documents parse_uuid show_uuid show_f64 fetch rows user rule lineage versioned = Ok (graph, exchanges) ->
  scope_of rows user graph exchanges /\
  exists flow_meta, compile_scope (metas_of rows) (cg_processes graph)
      ((fun flow => classify_source_flow_type (flow_row_json flow)) <$> by_identity flow_meta) rule lineage versioned exchanges = Ok graph.
Proof.
  unfold compile_documents. intros ([[metas processes] scope] & Hscope & H)%bind_ok.
  apply parse_scope_ok in Hscope as (-> & -> & chunks & Hchunks & Htotal & _).
  apply bind_ok in H as (targets & _ & H). apply bind_ok in H as (flow_meta & _ & H).
  apply bind_ok in H as ([] & _ & H). apply bind_ok in H as (xs & Hxs%mapR_ok & H).
  apply bind_ok in H as (g & Hg%map_err_ok & [= -> ->]).
  destruct (compile_scope_checks _ _ _ _ _ _ _ _ Hg) as (Hp & _ & Href). split; [|exists flow_meta; by rewrite Hp].
  constructor; [done| |].
  - intros x [k Hk]%list_elem_of_lookup. destruct (Forall2_lookup_r _ _ _ _ _ Hxs Hk) as (y & Hy & ->%resolved_version).
    apply list_elem_of_lookup_2 in Hy. rewrite Htotal in Hy. apply (chunk_owner _ _ _ _ _ _ Hchunks Hy).
  - intros i row Hi. destruct (Href (process_meta_of row (Z.of_nat i))) as (x & Hx & Hu); [|by exists x].
    apply list_elem_of_lookup. exists i. unfold metas_of. by rewrite list_lookup_imap, Hi.
Qed.

(** ** Guarantees *)

(** C3: from process documents to the solver's matrix.  If the documents of a
    scope compile and its data is assembled, within the 32-bit counts, then
    the matrix build succeeds: M has one row and one column per document, in
    order, and position (i, j) holds the negated sum, in edge order, of the
    technosphere edges from process i to process j, plus one on the diagonal,
    pruned at the threshold -- whatever the iteration order of the hash maps.
    Every exchange belongs to a document of the scope, and every document has
    exactly one reference exchange, with a unit coefficient. *)
Theorem documents_build_balance_matrix
    (parse_uuid : string -> option Uuid) (show_uuid : Uuid -> string) (show_f64 : f64 -> string)
    (fetch : FlowReferenceRequests -> result DocumentError ResolvedFlowMetadata)
    (cell_order : gmap (Z * Z) f64 -> list (Z * Z * f64)) (factor_order : gmap Z f64 -> list (Z * f64))
    rows user rule lineage versioned graph exchanges
    snapshot_id has_lcia directional impacts selection data (eps : f64) :
  (forall m, cell_order m ≡ₚ map_to_list m) -> (forall m, factor_order m ≡ₚ map_to_list m) ->
  compile_documents parse_uuid show_uuid show_f64 fetch rows user rule lineage versioned = Ok (graph, exchanges) ->
  assemble_data cell_order factor_order snapshot_id graph has_lcia directional impacts selection = Ok data ->
  rows <> [] -> (has_lcia = true -> impacts <> []) -> fits data -> (f64_one <=? eps)%f64 = false ->
  scope_of rows user graph exchanges /\
  exists bm, build eps data = Ok bm
    /\ agrees eps (bm_m bm) (Z.of_nat (length rows)) (Z.of_nat (length rows))
         (balance_matrix eps (cg_technosphere_edges graph)).
Proof.
  intros Hcell Hfactor Hdocs Hdata Hrows Himpacts Hfits Heps.
  apply compile_documents_ok in Hdocs as (Hscope & flow_meta & Hg). split; [done|].
  assert (length (cg_processes graph) = length rows) as Hlen by (rewrite (so_axis _ _ _ _ Hscope); apply length_imap).
  rewrite <- Hlen. destruct rows as [|row rows]; [by destruct Hrows|].
  eapply assembled_matrix; [exact Hcell|exact Hfactor|exact Hg|exact Hdata| | |exact Himpacts|exact Hfits|exact Heps].
  - intros Hnil. by rewrite Hnil in Hlen.
  - destruct (so_reference _ _ _ _ Hscope 0 row eq_refl) as (x & Hx & _).
    assert (x ∈ exchanges) as Hin.
    { assert (x ∈ [x]) as Hin by apply list_elem_of_here. rewrite <- Hx in Hin. by apply list_elem_of_filter in Hin as [_ ?]. }
    apply compile_scope_checks in Hg as (_ & Hknown & _). destruct (Hknown x Hin) as [t Ht]. intros Hempty.
    rewrite Hempty in Ht. by rewrite lookup_empty in Ht.
Qed.

(** ** Witnesses *)

(** Two documents: the second supplies the flow the first one consumes. *)
Definition sample_document (reference flow amount : string) (others : list Value) : Value :=
  JObject [("processDataSet", JObject [
    ("processInformation", JObject [("quantitativeReference", JObject [("referenceToReferenceFlow", JString reference)])]);
    ("exchanges", JObject [("exchange", JArray (example_flow_exchange reference "Output" flow amount [] :: others))])])].
Definition sample_row (id : Uuid) (json : Value) : ProcessRow :=
  {| row_id := id; row_version := "1"; row_model_id := None; row_model_version := None; row_user_id := None;
     row_state_code := 100; row_team_id := None; row_review_id := None; row_modified_at := None; row_json := json |}.
Definition sample_rows : list ProcessRow :=
  [sample_row 7 (sample_document "0" "40" "2" [example_flow_exchange "1" "Input" "41" "3" []]);
   sample_row 8 (sample_document "0" "41" "1" [])].
Definition sample_flow (id : Uuid) : FlowRow :=
  {| flow_row_id := id; flow_row_version := "1"; flow_row_user_id := None; flow_row_state_code := 100;
     flow_row_team_id := None; flow_row_review_id := None; flow_row_json := JObject [] |}.
Definition sample_fetch (_ : FlowReferenceRequests) : result DocumentError ResolvedFlowMetadata :=
  Ok {| by_identity := {[mk_flow 40 "1" := sample_flow 40; mk_flow 41 "1" := sample_flow 41]};
        omitted_version_by_id := ∅ |}.

Definition sample_graph : result DocumentError (CompiledGraph * list ParsedExchange) :=
  compile_documents example_uuid (fun _ => "") (fun _ => "") sample_fetch sample_rows None StrictUniqueProvider
    example_lineage false.
Definition sample_data (g : CompiledGraph) : result AssembleError ModelSparseData :=
  assemble_data map_to_list map_to_list 9 g false false [] (select_active_lcia_factors [] [] [] false).

Lemma sample_compiles :
  (fun p => data_of (sample_data p.1)) <$> sample_graph = Ok (Some
    {| model_version := 9; process_count := 2; flow_count := 2; impact_count := 1;
       technosphere_entries := [mk_sparse 1 0 (f64_of_ratio 3 2)]; biosphere_entries := []; characterization_factors := [] |}).
Proof. vm_compute. reflexivity. Qed.

Lemma documents_build_balance_matrix_witness :
  exists g exchanges data bm, sample_graph = Ok (g, exchanges) /\ sample_data g = Ok data
    /\ length (cg_processes g) = 2%nat /\ build default_zero_epsilon data = Ok bm
    /\ csc_get (bm_m bm) 1 0 = Some (f64_of_ratio (-3) 2).
Proof.
  pose proof sample_compiles as Hd.
  destruct sample_graph as [[g exchanges]|e|] eqn:Eg; [|discriminate Hd..]. cbn [fmap result_fmap fst] in Hd.
  destruct (sample_data g) as [data|e|] eqn:Ea; [|discriminate Hd..]. cbn [data_of] in Hd. injection Hd as Hd.
  destruct (documents_build_balance_matrix example_uuid (fun _ => "") (fun _ => "") sample_fetch map_to_list map_to_list
    sample_rows None StrictUniqueProvider example_lineage false g exchanges 9 false false []
    (select_active_lcia_factors [] [] [] false) data default_zero_epsilon) as (Hscope & bm & Hb & _).
  - reflexivity.
  - reflexivity.
  - exact Eg.
  - exact Ea.
  - discriminate.
  - discriminate.
  - rewrite Hd. vm_compute. repeat split; discriminate.
  - vm_compute. reflexivity.
  - exists g, exchanges, data, bm. split; [reflexivity|]. split; [exact Ea|]. split.
    { rewrite (so_axis _ _ _ _ Hscope). reflexivity. }
    split; [exact Hb|]. subst data. vm_compute in Hb. injection Hb as <-. vm_compute. reflexivity.
Defined.
