(* ===== verification/Selection.v ===== *)
(** * Selecting the processes of a request

    Models [resolve_process_selection_with_flow_versions] of
    [bin/snapshot_builder.rs]: without request roots the candidates are taken as
    they are, up to a limit; with roots, the selection is the closure of the
    roots under "is chosen to balance a residual exchange of", computed with a
    queue over the candidate rows.

    The digest of the request ([compute_scope_hash], SHA-256 of a JSON text) is
    an argument. *)

From S2P Require Import Prelude F64 Text Json SignedFlow Location ProviderLink Tidas Lineage Balance Exchange Assemble Documents.

Local Open Scope Z_scope.

Inductive SnapshotSelectionMode := FilteredLibrary | RequestRootsClosure.

Record ResolvedScopeProcess := {
  rs_process_id : Uuid;
  rs_process_version : string;
  rs_partition : ScopeProcessPartition;
}.

Record ResolvedRequestScopeSummary := {
  selection_mode : SnapshotSelectionMode;
  scope_hash : string;
  sum_roots : list RequestRootProcess;
  public_process_count : Z;
  private_process_count : Z;
  sum_processes : list ResolvedScopeProcess;
}.

Record ResolvedProcessSelection := {
  sel_processes : list ProcessRow;
  scope_summary : ResolvedRequestScopeSummary;
}.

Inductive SelectionError :=
| CandidateIndexOverflow
| CandidateParse (e : ExchangeError)
| CandidateFlows (e : DocumentError)
| CandidatePort (e : BalanceError)
| RootNotFound (root : RequestRootProcess)
| NegativeProcessIdx
| MissingResiduals (idx : Z)
| MissingCandidateMeta (idx : Z)
| InvalidAllocation (process : Uuid) (exchange_id : string)
| SelectionLink (e : LinkError)
| SelectedOutOfBounds (idx : Z)
| CountOverflow
| HashFailed
(** The queue is longer than the bound on it. *)
| OutOfFuel.

#[export] Instance ScopeProcessPartition_eq_dec : EqDecision ScopeProcessPartition.
Proof. solve_decision. Defined.
#[export] Instance RequestRootProcess_eq_dec : EqDecision RequestRootProcess.
Proof. solve_decision. Defined.

(** ** Request roots *)

Definition new_root (id : Uuid) (version : string) : RequestRootProcess :=
  {| root_process_id := id; root_process_version := trim version |}.

Definition root_cmp : RequestRootProcess -> RequestRootProcess -> comparison :=
  cmp_then (cmp_by root_process_id Z.compare) (cmp_by root_process_version String.compare).

(** [Vec::dedup]: drops an element equal to the one before it. *)
Fixpoint dedup_roots (l : list RequestRootProcess) : list RequestRootProcess :=
  match l with
  | a :: (b :: _) as rest => if decide (a = b) then dedup_roots rest else a :: dedup_roots rest
  | _ => l
  end.

Definition normalize_request_roots (roots : list RequestRootProcess) : list RequestRootProcess :=
  dedup_roots (sort_by root_cmp ((fun r => new_root (root_process_id r) (root_process_version r)) <$> roots)).

Definition root_key (root : RequestRootProcess) : Uuid * string := (root_process_id root, root_process_version root).

Section Select.
Context (parse_uuid : string -> option Uuid) (show_uuid : Uuid -> string) (show_f64 : f64 -> string).
Context (compute_scope_hash : bool -> list Z -> option Uuid -> list RequestRootProcess -> nat -> ProviderRule ->
           option string).
Context (request_roots : list RequestRootProcess) (provider_rule : ProviderRule).
Context (flow_space_by_identity : option (gmap FlowLinkIdentity CompiledFlowSpace)).
Context (resolved_flow_meta : option ResolvedFlowMetadata) (provider_lineage : ProviderLineageIndex).

Definition is_technosphere (x : ParsedExchange) : bool :=
  match flow_space_by_identity with
  | None => true
  | Some spaces => bool_decide (spaces !! flow_link_identity x = Some Technosphere)
  end.

(** ** The candidates *)

(** What the first loop collects from the candidate rows. *)
Record candidate_state := mk_candidates {
  c_meta : list ProcessMeta;
  c_residuals : list (list ParsedExchange);
  c_ports : ReferencePortMap;
  c_lookup : gmap (Uuid * string) Z;
}.

Definition push_port (ports : ReferencePortMap) (x : ParsedExchange) : result SelectionError ReferencePortMap :=
  if x_is_reference x && is_technosphere x then
    port ← map_err CandidatePort (reference_port_candidate_from_exchange x);
    Ok (<[flow_link_identity x := default [] (ports !! flow_link_identity x) ++ [port]]> ports)
  else Ok ports.

(** A candidate that is not a requested root may fail to parse or to resolve
    its flows: it stays on the axis without exchanges. *)
Definition add_candidate (cs : candidate_state) (ix : nat * ProcessRow) : result SelectionError candidate_state :=
  let '(idx, row) := ix in
  process_idx ← ok_or CandidateIndexOverflow (i32_of_usize idx);
  let key := (row_id row, row_version row) in
  let lookup := <[key := process_idx]> (c_lookup cs) in
  let requested := bool_decide (key ∈ root_key <$> request_roots) in
  let without_exchanges meta := mk_candidates (c_meta cs ++ [meta]) (c_residuals cs ++ [[]]) (c_ports cs) lookup in
  match parse_process_chunk parse_uuid show_uuid show_f64 row process_idx with
  | Panic => Panic
  | Err e => if requested then Err (CandidateParse e) else Ok (without_exchanges (process_meta_of row process_idx))
  | Ok (meta, st, _) =>
      match match resolved_flow_meta with
            | Some flow_meta => resolve_requested_flow_versions (local_exchanges st) flow_meta
            | None => Ok (local_exchanges st)
            end with
      | Panic => Panic
      | Err e => if requested then Err (CandidateFlows e) else Ok (without_exchanges meta)
      | Ok exchanges =>
          ports ← foldM push_port exchanges (c_ports cs);
          Ok (mk_candidates (c_meta cs ++ [meta])
                (c_residuals cs ++ [filter (fun x => negb (x_is_reference x) && is_technosphere x = true) exchanges])
                ports lookup)
      end
  end.

Definition collect_candidates (rows : list ProcessRow) : result SelectionError candidate_state :=
  cs ← foldM add_candidate (enumerate rows) (mk_candidates [] [] ∅ ∅);
  Ok (mk_candidates (c_meta cs) (c_residuals cs) (sort_reference_port_candidates (c_meta cs) <$> c_ports cs) (c_lookup cs)).

(** ** The closure of the roots *)

(** The selected set and the queue; [selected.insert(i)] pushes a new index. *)
Definition select (st : gset Z * list Z) (idx : Z) : gset Z * list Z :=
  if decide (idx ∈ st.1) then st else ({[idx]} ∪ st.1, st.2 ++ [idx]).

Definition select_root (cs : candidate_state) (st : gset Z * list Z) (root : RequestRootProcess)
    : result SelectionError (gset Z * list Z) :=
  idx ← ok_or (RootNotFound root) (c_lookup cs !! root_key root);
  Ok (select st idx).

(** The processes chosen to balance one residual exchange of [current]. *)
Definition next_indices (cs : candidate_state) (current : Z) (x : ParsedExchange) : result SelectionError (list Z) :=
  if decide (x_allocation_state x = Invalid) then
    process ← ok_or (MissingCandidateMeta current) (process_meta_for_idx (c_meta cs) current);
    Err (InvalidAllocation (meta_process_id process) (x_exchange_id x))
  else
    match nonzero_residual_coefficient x with
    | None => Ok []
    | Some residual =>
        let providers := eligible_balancing_process_indices (c_ports cs !! flow_link_identity x) residual in
        gate ← map_err SelectionLink (apply_provider_lineage_gate (c_meta cs) provider_lineage providers);
        match gate_providers gate with
        | [] => Ok []
        | [p] => Ok [p]
        | providers =>
            d ← map_err SelectionLink (resolve_multi_provider (c_meta cs) provider_rule x providers);
            Ok (match (d : MultiProviderDecision) with Resolved r => (allocations r).*1 | Unresolved _ => [] end)
        end
    end.

Definition visit_exchange (cs : candidate_state) (current : Z) (st : gset Z * list Z) (x : ParsedExchange)
    : result SelectionError (gset Z * list Z) :=
  next ← next_indices cs current x;
  Ok (foldl select st next).

Definition residuals_of (cs : candidate_state) (current : Z) : result SelectionError (list ParsedExchange) :=
  i ← ok_or NegativeProcessIdx (usize_of_i32 current);
  ok_or (MissingResiduals current) (c_residuals cs !! i).

(** [while cursor < queue.len()]; every index enters the queue at most once, so
    the number of candidates bounds the iterations. *)
Fixpoint close (cs : candidate_state) (fuel : nat) (cursor : nat) (st : gset Z * list Z)
    : result SelectionError (gset Z * list Z) :=
  match st.2 !! cursor with
  | None => Ok st
  | Some current =>
      match fuel with
      | O => Err OutOfFuel
      | S fuel =>
          residuals ← residuals_of cs current;
          st ← foldM (visit_exchange cs current) residuals st;
          close cs fuel (S cursor) st
      end
  end.

(** ** The selection *)

Definition scope_process (include_user_id : option Uuid) (row : ProcessRow) : ResolvedScopeProcess :=
  {| rs_process_id := row_id row; rs_process_version := row_version row;
     rs_partition := classify_scope_partition row include_user_id |}.

Definition count_partition (p : ScopeProcessPartition) (l : list ResolvedScopeProcess) : result SelectionError Z :=
  let n := Z.of_nat (length (filter (fun r => rs_partition r = p) l)) in
  _ ← ensure (n <=? 2^63 - 1) CountOverflow;
  Ok n.

Definition summarize (mode : SnapshotSelectionMode) (hash : option string)
    (roots : list RequestRootProcess) (include_user_id : option Uuid) (rows : list ProcessRow)
    : result SelectionError ResolvedProcessSelection :=
  let processes := scope_process include_user_id <$> rows in
  public ← count_partition Public processes;
  private ← count_partition Private processes;
  hash ← ok_or HashFailed hash;
  Ok {| sel_processes := rows;
        scope_summary := {| selection_mode := mode; scope_hash := hash; sum_roots := roots;
                            public_process_count := public; private_process_count := private;
                            sum_processes := processes |} |}.

Definition selected_row (rows : list ProcessRow) (idx : Z) : result SelectionError ProcessRow :=
  i ← ok_or NegativeProcessIdx (usize_of_i32 idx);
  ok_or (SelectedOutOfBounds idx) (rows !! i).

Definition resolve_process_selection_with_flow_versions (candidate_processes : list ProcessRow) (all_states : bool)
    (state_codes : list Z) (include_user_id : option Uuid) (process_limit : nat)
    : result SelectionError ResolvedProcessSelection :=
  match request_roots with
  | [] =>
      let rows := if (0 <? process_limit)%nat then take process_limit candidate_processes else candidate_processes in
      summarize FilteredLibrary
        (compute_scope_hash all_states state_codes include_user_id request_roots process_limit provider_rule)
        [] include_user_id rows
  | _ =>
      cs ← collect_candidates candidate_processes;
      let roots := normalize_request_roots request_roots in
      st ← foldM (select_root cs) roots (∅, []);
      st ← close cs (length candidate_processes) 0 st;
      rows ← mapR (selected_row candidate_processes) (sort_by Z.compare (elements (st : gset Z * list Z).1));
      summarize RequestRootsClosure
        (compute_scope_hash all_states state_codes include_user_id roots 0 provider_rule)
        roots include_user_id rows
  end.
End Select.

(** ** The closure computed by the queue *)

Section Closure.
Context (provider_rule : ProviderRule) (provider_lineage : ProviderLineageIndex) (cs : candidate_state).
Local Abbreviation next := (next_indices provider_rule provider_lineage cs).

(** [j] is chosen to balance a residual exchange of [i]. *)
Definition supplied_by (i j : Z) : Prop :=
  exists residuals x chosen, residuals_of cs i = Ok residuals /\ x ∈ residuals /\ next i x = Ok chosen /\ j ∈ chosen.

(** The selected set is the queue, each index once. *)
Definition queue_ok (st : gset Z * list Z) : Prop := NoDup st.2 /\ st.1 = list_to_set st.2.

Lemma select_ok st idx :
  queue_ok st -> queue_ok (select st idx) /\ st.2 `prefix_of` (select st idx).2
    /\ forall j, j ∈ (select st idx).2 <-> j ∈ st.2 \/ j = idx.
Proof.
  intros [Hnd Hs]. unfold select. case_decide as Hin; rewrite Hs, elem_of_list_to_set in Hin.
  - split_and!; [by split|done|]. intros j. split; [by left|]. by intros [?| ->].
  - cbn. split_and!.
    + split; cbn.
      * apply NoDup_app. split_and!; [done|set_solver|apply NoDup_singleton].
      * rewrite Hs, list_to_set_app_L. set_solver.
    + by exists [idx].
    + set_solver.
Qed.

Lemma select_all_ok l st :
  queue_ok st -> queue_ok (foldl select st l) /\ st.2 `prefix_of` (foldl select st l).2
    /\ forall j, j ∈ (foldl select st l).2 <-> j ∈ st.2 \/ j ∈ l.
Proof.
  revert st. induction l as [|i l IH]; intros st Hst; cbn [foldl].
  { split_and!; [done|done|]. intros j. rewrite elem_of_nil. tauto. }
  destruct (select_ok st i Hst) as (Hst1 & Hp1 & He1). destruct (IH _ Hst1) as (Hst2 & Hp2 & He2).
  split_and!; [done|by etrans|]. intros j. rewrite He2, He1, elem_of_cons. tauto.
Qed.

Lemma visit_closure current residuals st st' :
  queue_ok st -> residuals_of cs current = Ok residuals ->
  foldM (visit_exchange provider_rule provider_lineage cs current) residuals st = Ok st' ->
  queue_ok st' /\ st.2 `prefix_of` st'.2 /\ forall j, j ∈ st'.2 <-> j ∈ st.2 \/ supplied_by current j.
Proof.
  intros Hst Hres Hf.
  enough (queue_ok st' /\ st.2 `prefix_of` st'.2 /\
    forall j, j ∈ st'.2 <-> j ∈ st.2 \/ exists x chosen, x ∈ residuals /\ next current x = Ok chosen /\ j ∈ chosen)
    as (H1 & H2 & H3).
  { split_and!; [done|done|]. intros j. rewrite H3. apply or_iff_compat_l. unfold supplied_by. split.
    - intros (x & c & Hx & Hc & Hj). by exists residuals, x, c.
    - intros (l & x & c & Hl & Hx & Hc & Hj). rewrite Hres in Hl. injection Hl as <-. by exists x, c. }
  revert Hf. apply (foldM_ind (fun pre s => queue_ok s /\ st.2 `prefix_of` s.2 /\
    forall j, j ∈ s.2 <-> j ∈ st.2 \/ exists x chosen, x ∈ pre /\ next current x = Ok chosen /\ j ∈ chosen)).
  - split_and!; [done|done|]. intros j. split; [by left|]. intros [?|(x & _ & Hx & _)]; [done|]. by apply elem_of_nil in Hx.
  - intros pre x post s s' _ (Hs & Hp & He) (chosen & Hc & [= <-])%bind_ok.
    destruct (select_all_ok chosen s Hs) as (Hs1 & Hp1 & He1). split_and!; [done|by etrans|].
    intros j. rewrite He1, He. split.
    + intros [[Hj|(y & d & Hy & Hd & Hj)]|Hj]; [by left|right; exists y, d; set_solver|right; exists x, chosen; set_solver].
    + intros [Hj|(y & d & [Hy| ->%list_elem_of_singleton]%elem_of_app & Hd & Hj)]; [by left; left|left; right; by exists y, d|].
      right. rewrite Hc in Hd. by injection Hd as <-.
Qed.

(** What holds at the top of the loop: the indices before the cursor are
    expanded, and every index is reachable from the roots. *)
Definition loop_ok (roots : list Z) (cursor : nat) (st : gset Z * list Z) : Prop :=
  queue_ok st /\ (forall i, i ∈ roots -> i ∈ st.2) /\ (forall j, j ∈ st.2 -> exists i, i ∈ roots /\ rtc supplied_by i j)
  /\ forall k i j, (k < cursor)%nat -> st.2 !! k = Some i -> supplied_by i j -> j ∈ st.2.

Lemma loop_step roots cursor current st residuals st' :
  loop_ok roots cursor st -> st.2 !! cursor = Some current -> residuals_of cs current = Ok residuals ->
  foldM (visit_exchange provider_rule provider_lineage cs current) residuals st = Ok st' -> loop_ok roots (S cursor) st'.
Proof.
  intros (Hq & Hroots & Hreach & Hclosed) Hcur Hres Hvisit.
  destruct (visit_closure _ _ _ _ Hq Hres Hvisit) as (Hq' & Hp & He). split_and!.
  - done.
  - intros i Hi. apply He. left. by apply Hroots.
  - intros j [Hj|Hj]%He; [by apply Hreach|]. apply list_elem_of_lookup_2 in Hcur.
    destruct (Hreach current Hcur) as (i & Hi & Hr). exists i. split; [done|]. by eapply rtc_r.
  - intros k i j Hk Hi Hij. assert (k < length st.2)%nat as Hlt by (apply lookup_lt_Some in Hcur; lia).
    destruct Hp as [tail Htail]. rewrite Htail, lookup_app_l in Hi by done. apply He.
    destruct (decide (k = cursor)) as [->|Hne]; [right; rewrite Hcur in Hi; by injection Hi as ->|].
    left. apply (Hclosed k i j); [lia|done|done].
Qed.

(** When the queue is used up, it is the closure of the roots. *)
Lemma close_closure roots fuel cursor st st' :
  loop_ok roots cursor st -> close provider_rule provider_lineage cs fuel cursor st = Ok st' ->
  forall j, j ∈ st'.1 <-> exists i, i ∈ roots /\ rtc supplied_by i j.
Proof.
  revert cursor st. induction fuel as [|fuel IH]; intros cursor st Hst; cbn [close];
    destruct (st.2 !! cursor) as [current|] eqn:Hcur; try done.
  2:{ intros H. apply bind_ok in H as (residuals & Hres & H). apply bind_ok in H as (st1 & Hvisit & H).
      by eapply IH; [eapply loop_step|]. }
  all: intros [= <-] j; destruct Hst as ((_ & Hs) & Hroots & Hreach & Hclosed); rewrite Hs, elem_of_list_to_set;
    split; [apply Hreach|]; intros (i & Hi%Hroots & Hr);
    induction Hr as [|i k j Hik _ IHr]; [done|]; apply IHr;
    apply list_elem_of_lookup in Hi as [n Hn]; apply (Hclosed n i k); [|done|done];
    apply lookup_ge_None in Hcur; apply lookup_lt_Some in Hn; lia.
Qed.
End Closure.

(** ** Candidates on the axis, and termination *)

Definition in_axis (n : nat) (i : Z) : Prop := 0 <= i < Z.of_nat n.

Record on_candidates (n : nat) (cs : candidate_state) : Prop := {
  oc_residuals : length (c_residuals cs) = n;
  oc_lookup : forall k i, c_lookup cs !! k = Some i -> in_axis n i;
  oc_ports : forall k ports p, c_ports cs !! k = Some ports -> p ∈ ports -> in_axis n (rp_process_idx p);
}.

Section Axis.
Context (parse_uuid : string -> option Uuid) (show_uuid : Uuid -> string) (show_f64 : f64 -> string).
Context (request_roots : list RequestRootProcess) (flow_space : option (gmap FlowLinkIdentity CompiledFlowSpace)).
Context (flow_meta : option ResolvedFlowMetadata).

Lemma push_ports_axis n exchanges ports ports' :
  (forall x, x ∈ exchanges -> in_axis n (x_process_idx x)) ->
  (forall k l p, ports !! k = Some l -> p ∈ l -> in_axis n (rp_process_idx p)) ->
  foldM (push_port flow_space) exchanges ports = Ok ports' ->
  forall k l p, ports' !! k = Some l -> p ∈ l -> in_axis n (rp_process_idx p).
Proof.
  intros Hx Hports Hf. revert Hf. apply (foldM_ind (fun _ m => forall k l p, m !! k = Some l -> p ∈ l -> in_axis n (rp_process_idx p)));
    [done|]. intros pre x post m m' Hl Hm. unfold push_port. destruct (x_is_reference x && _); [|by intros [= <-]].
  intros (port & Hport%map_err_ok & [= <-])%bind_ok k l p Hk Hp.
  destruct (decide (flow_link_identity x = k)) as [<-|Hne]; [|rewrite lookup_insert_ne in Hk by done; by eapply Hm].
  rewrite lookup_insert_eq in Hk. injection Hk as <-. apply elem_of_app in Hp as [Hp| ->%list_elem_of_singleton].
  - destruct (m !! flow_link_identity x) as [l|] eqn:Hl'; [by eapply Hm|by apply elem_of_nil in Hp].
  - unfold reference_port_candidate_from_exchange in Hport. repeat (apply bind_ok in Hport as (? & _ & Hport)).
    injection Hport as <-. cbn. apply Hx. rewrite Hl. set_solver.
Qed.

Lemma chunk_axis row idx meta st stats exchanges :
  parse_process_chunk parse_uuid show_uuid show_f64 row idx = Ok (meta, st, stats) ->
  match flow_meta with Some m => resolve_requested_flow_versions (local_exchanges st) m | None => Ok (local_exchanges st) end
    = Ok exchanges ->
  forall x, x ∈ exchanges -> x_process_idx x = idx.
Proof.
  intros (r & pivot & al & _ & _ & _ & _ & Hl & _)%parse_process_chunk_ok Hex.
  assert (forall x, x ∈ local_exchanges st -> x_process_idx x = idx) as Hown.
  { intros x [k Hk]%list_elem_of_lookup. destruct (Forall2_lookup_r _ _ _ _ _ Hl Hk) as (ix & _ & Hx).
    by apply (pa_process _ _ _ _ _ _ _ Hx). }
  destruct flow_meta as [m|]; [|by injection Hex as <-]. apply mapR_ok in Hex. intros x [k Hk]%list_elem_of_lookup.
  destruct (Forall2_lookup_r _ _ _ _ _ Hex Hk) as (y & Hy & ->%resolved_version). cbn. apply Hown.
  by eapply list_elem_of_lookup_2.
Qed.

Lemma in_axis_S n i : in_axis n i -> in_axis (S n) i.
Proof. unfold in_axis. lia. Qed.

Lemma add_candidate_axis cs idx row cs' :
  on_candidates idx cs ->
  add_candidate parse_uuid show_uuid show_f64 request_roots flow_space flow_meta cs (idx, row) = Ok cs' ->
  on_candidates (S idx) cs'.
Proof.
  intros [Hr Hl Hp]. unfold add_candidate. intros (i & Hi%ok_or_ok & H)%bind_ok. cbn zeta in H.
  unfold i32_of_usize in Hi. case_decide; [|done]. injection Hi as <-.
  assert (forall k j, <[(row_id row, row_version row) := Z.of_nat idx]> (c_lookup cs) !! k = Some j -> in_axis (S idx) j) as Hl'.
  { intros k j. destruct (decide ((row_id row, row_version row) = k)) as [<-|Hne].
    - rewrite lookup_insert_eq. intros [= <-]. unfold in_axis. lia.
    - rewrite lookup_insert_ne by done. intros Hj. by eapply in_axis_S, Hl. }
  assert (forall k l p, c_ports cs !! k = Some l -> p ∈ l -> in_axis (S idx) (rp_process_idx p)) as Hp'
    by (intros; eapply in_axis_S, Hp; eauto).
  assert (forall m, on_candidates (S idx) (mk_candidates m (c_residuals cs ++ [[]]) (c_ports cs)
    (<[(row_id row, row_version row) := Z.of_nat idx]> (c_lookup cs)))) as Hskip.
  { intros m. constructor; cbn; [|done|done]. rewrite length_app, Hr. cbn. lia. }
  destruct (parse_process_chunk _ _ _ row _) as [[[meta st] stats]|e|] eqn:Hparse; [| |done].
  2:{ destruct (bool_decide _); [done|]. injection H as <-. apply Hskip. }
  destruct (match flow_meta with Some _ => _ | None => _ end) as [exchanges|e|] eqn:Hex; [| |done].
  2:{ destruct (bool_decide _); [done|]. injection H as <-. apply Hskip. }
  apply bind_ok in H as (ports & Hports & [= <-]). constructor; cbn; [|done|].
  - rewrite length_app, Hr. cbn. lia.
  - eapply push_ports_axis; [|exact Hp'|exact Hports]. intros x Hx.
    rewrite (chunk_axis _ _ _ _ _ _ Hparse Hex x Hx). unfold in_axis. lia.
Qed.

Lemma collect_candidates_axis rows cs :
  collect_candidates parse_uuid show_uuid show_f64 request_roots flow_space flow_meta rows = Ok cs ->
  on_candidates (length rows) cs.
Proof.
  unfold collect_candidates. intros (cs0 & Hf & [= <-])%bind_ok.
  assert (on_candidates (length rows) cs0) as [Hr Hl Hp].
  { rewrite <- (length_imap (fun i x => (i, x)) rows).
    revert Hf. apply (foldM_ind (fun pre c => on_candidates (length pre) c)).
    - constructor; cbn; [done| |]; intros; by rewrite lookup_empty in *.
    - intros pre [i row] post c c' Hsplit Hc Ha. rewrite length_app, Nat.add_1_r.
      assert ((i, row) = (length pre, row)) as [= ->].
      { assert (imap (fun i x => (i, x)) rows !! length pre = Some (i, row)) as Hi
          by (unfold enumerate in Hsplit; by rewrite Hsplit, lookup_app_r, Nat.sub_diag by lia).
        rewrite list_lookup_imap in Hi. destruct (rows !! length pre); by simplify_eq/=. }
      by eapply add_candidate_axis. }
  constructor; cbn; [done|done|]. intros k l p. rewrite lookup_fmap. destruct (c_ports cs0 !! k) as [l0|] eqn:Hk; [|done].
  intros [= <-] Hin. unfold sort_reference_port_candidates in Hin. rewrite sort_by_perm in Hin. by eapply Hp.
Qed.
End Axis.

Section Bounded.
Context (provider_rule : ProviderRule) (provider_lineage : ProviderLineageIndex) (cs : candidate_state) (n : nat).
Context (Hcs : on_candidates n cs).
Local Abbreviation next := (next_indices provider_rule provider_lineage cs).

(** The gate keeps some of the providers it is given. *)
Lemma gate_within providers gate :
  apply_provider_lineage_gate (c_meta cs) provider_lineage providers = Ok gate ->
  forall p, p ∈ gate_providers gate -> p ∈ providers.
Proof.
  unfold apply_provider_lineage_gate. intros (ids & Hids%mapR_ok & H)%bind_ok p Hp.
  destruct (lineage_conflict _ _) as [conflict rel]. destruct (negb conflict); [by injection H as <-|].
  destruct (filter _ ids) as [|[q i] [|]] eqn:Hf; injection H as <-; cbn in Hp; try by apply elem_of_nil in Hp.
  apply list_elem_of_singleton in Hp as ->.
  assert ((q, i) ∈ ids) as [k Hk]%list_elem_of_lookup.
  { assert ((q, i) ∈ [(q, i)]) as Hin by apply list_elem_of_here. rewrite <- Hf in Hin.
    by apply list_elem_of_filter in Hin as [_ ?]. }
  destruct (Forall2_lookup_r _ _ _ _ _ Hids Hk) as (r & Hr & Hid). unfold identity_of in Hid.
  apply bind_ok in Hid as (? & _ & [= -> _]). by eapply list_elem_of_lookup_2.
Qed.

Lemma next_in_axis i x chosen j : next i x = Ok chosen -> j ∈ chosen -> in_axis n j.
Proof using Hcs.
  unfold next_indices. case_decide as Hinv; [by intros (? & _ & [=])%bind_ok|].
  destruct (nonzero_residual_coefficient x) as [residual|]; [|intros [= <-]; set_solver].
  intros (gate & Hgate%map_err_ok & H)%bind_ok Hj.
  assert (forall p, p ∈ gate_providers gate -> in_axis n p) as Hp.
  { intros p Hp%(gate_within _ _ Hgate). unfold eligible_balancing_process_indices in Hp.
    destruct (c_ports cs !! flow_link_identity x) as [ports|] eqn:Hports; [|by apply elem_of_nil in Hp].
    apply elem_of_dedup, list_elem_of_fmap in Hp as (port & -> & Hport). apply list_elem_of_filter in Hport as [_ Hport].
    by eapply (oc_ports _ _ Hcs). }
  destruct (gate_providers gate) as [|p [|q ps]] eqn:Hg.
  - injection H as <-. by apply elem_of_nil in Hj.
  - injection H as <-. by apply Hp.
  - apply bind_ok in H as ([r|reason] & Hd%map_err_ok & [= <-]); [|by apply elem_of_nil in Hj].
    apply resolved_spec in Hd as [Hne Hs]. apply Hp. by eapply elem_of_submseteq, resolution_within.
Qed.

(** A queue of distinct indices on the axis is no longer than the axis. *)
Lemma queue_length (l : list Z) : NoDup l -> (forall i, i ∈ l -> in_axis n i) -> (length l <= n)%nat.
Proof.
  intros Hnd Hl. rewrite <- (length_seq n 0), <- (length_fmap Z.of_nat). apply submseteq_length, NoDup_submseteq; [done|].
  intros i Hi%Hl. unfold in_axis in Hi. apply list_elem_of_fmap. exists (Z.to_nat i). rewrite elem_of_seq. lia.
Qed.

Lemma next_not_fuel i x : next i x <> Err OutOfFuel.
Proof.
  unfold next_indices. case_decide; [by destruct (process_meta_for_idx _ _)|].
  destruct (nonzero_residual_coefficient x); [|done]. cbn zeta.
  destruct (apply_provider_lineage_gate _ _ _); cbn [map_err mbind result_bind]; [|done|done].
  destruct (gate_providers _) as [|? [|]]; [done|done|]. by destruct (resolve_multi_provider _ _ _ _).
Qed.

Lemma visit_not_fuel i l st : foldM (visit_exchange provider_rule provider_lineage cs i) l st <> Err OutOfFuel.
Proof.
  revert st. induction l as [|x l IH]; intros st; cbn [foldM]; [done|].
  unfold visit_exchange. pose proof (next_not_fuel i x) as Hx. destruct (next i x); cbn; [apply IH|congruence|done].
Qed.

Lemma close_terminates fuel cursor st :
  queue_ok st -> (forall i, i ∈ st.2 -> in_axis n i) -> (n <= cursor + fuel)%nat ->
  close provider_rule provider_lineage cs fuel cursor st <> Err OutOfFuel.
Proof using Hcs.
  revert cursor st. induction fuel as [|fuel IH]; intros cursor st Hq Hst Hn; cbn [close];
    destruct (st.2 !! cursor) as [current|] eqn:Hcur; try done.
  - apply lookup_lt_Some in Hcur. pose proof (queue_length st.2 (proj1 Hq) Hst). lia.
  - unfold residuals_of. destruct (usize_of_i32 current) as [i|] eqn:Hi; [|done]. cbn [ok_or mbind result_bind].
    destruct (c_residuals cs !! i) as [residuals|] eqn:Hr; [|done]. cbn [ok_or mbind result_bind].
    pose proof (visit_not_fuel current residuals st) as Hnot.
    destruct (foldM _ residuals st) as [st1|e|] eqn:Hvisit; [|cbn; congruence|done]. cbn [mbind result_bind].
    assert (residuals_of cs current = Ok residuals) as Hres by (unfold residuals_of; rewrite Hi; cbn; by rewrite Hr).
    destruct (visit_closure _ _ _ _ _ _ _ Hq Hres Hvisit) as (Hq1 & _ & He).
    apply IH; [done| |lia]. intros j [Hj|(l & x & chosen & _ & _ & Hc & Hj)]%He; [by apply Hst|by eapply next_in_axis].
Qed.
End Bounded.

(** The loop over the roots selects the row of each. *)
Lemma select_roots_ok cs roots st :
  foldM (select_root cs) roots (∅, []) = Ok st ->
  queue_ok st /\ forall i, i ∈ st.2 <-> exists root, root ∈ roots /\ c_lookup cs !! root_key root = Some i.
Proof.
  apply (foldM_ind (fun pre s => queue_ok s /\ forall i, i ∈ s.2 <->
    exists root, root ∈ pre /\ c_lookup cs !! root_key root = Some i)).
  - split; [by split; [constructor|]|]. intros i. cbn. split; [by intros ?%elem_of_nil|]. by intros (? & ?%elem_of_nil & _).
  - intros pre root post s s' _ [Hq He] (idx & Hidx%ok_or_ok & [= <-])%bind_ok.
    destruct (select_ok s idx Hq) as (Hq1 & _ & He1). split; [done|]. intros i. rewrite He1, He. split.
    + intros [(r & Hr & Hi)| ->]; [exists r; set_solver|exists root; set_solver].
    + intros (r & [Hr| ->%list_elem_of_singleton]%elem_of_app & Hi); [left; by exists r|]. right. congruence.
Qed.

Lemma sorted_strict (l : list Z) : StronglySorted Z.le l -> NoDup l -> StronglySorted Z.lt l.
Proof.
  induction 1 as [|a l Hl IH Ha]; intros Hnd; constructor; inversion Hnd as [|? ? Hnot Hnd']; subst; [auto|].
  rewrite Forall_forall in *. intros b Hb. specialize (Ha b Hb). assert (a <> b) by (by intros ->). lia.
Qed.

Lemma sorted_elements (s : gset Z) :
  StronglySorted Z.lt (sort_by Z.compare (elements s)) /\ forall j, j ∈ sort_by Z.compare (elements s) <-> j ∈ s.
Proof.
  split.
  - apply sorted_strict; [|rewrite sort_by_perm; apply NoDup_elements].
    eapply StronglySorted_impl; [|apply (sort_by_sorted' Z.compare)]. intros a b. unfold not_gt.
    destruct (a ?= b) eqn:E; intros; [by apply Z.compare_eq_iff in E as ->|by apply Z.lt_le_incl|done].
  - intros j. rewrite sort_by_perm. apply elem_of_elements.
Qed.

Lemma partition_counts (l : list ResolvedScopeProcess) :
  (length (filter (fun r => rs_partition r = Public) l) + length (filter (fun r => rs_partition r = Private) l))%nat
  = length l.
Proof.
  induction l as [|r l IH]; [done|]. rewrite !filter_cons.
  destruct (rs_partition r) eqn:Hr; repeat case_decide; try congruence; cbn; rewrite <- IH; lia.
Qed.

Lemma summarize_ok mode hash roots user rows s :
  summarize mode hash roots user rows = Ok s ->
  sel_processes s = rows
  /\ public_process_count (scope_summary s) + private_process_count (scope_summary s) = Z.of_nat (length rows).
Proof.
  unfold summarize, count_partition. intros (a & Ha & H)%bind_ok. apply bind_ok in H as (b & Hb & H).
  apply bind_ok in H as (h & _ & [= <-]). apply bind_ok in Ha as (? & _ & [= <-]). apply bind_ok in Hb as (? & _ & [= <-]).
  split; [done|]. cbn. pose proof (partition_counts (scope_process user <$> rows)) as Hc. rewrite length_fmap in Hc. lia.
Qed.

Lemma count_not_fuel p l : count_partition p l <> Err OutOfFuel.
Proof. unfold count_partition. cbn zeta. by destruct (_ <=? 2 ^ 63 - 1). Qed.

Lemma summarize_not_fuel mode hash roots user rows : summarize mode hash roots user rows <> Err OutOfFuel.
Proof.
  unfold summarize. cbn zeta. pose proof (count_not_fuel Public (scope_process user <$> rows)) as H1.
  pose proof (count_not_fuel Private (scope_process user <$> rows)) as H2.
  destruct (count_partition Public _); cbn [mbind result_bind]; [|congruence|done].
  destruct (count_partition Private _); cbn [mbind result_bind]; [|congruence|done]. by destruct hash.
Qed.

Lemma ports_not_fuel flow_space xs ports : foldM (push_port flow_space) xs ports <> Err OutOfFuel.
Proof.
  revert ports. induction xs as [|x xs IH]; intros ports; cbn [foldM]; [done|]. unfold push_port at 1.
  destruct (x_is_reference x && _); [|apply IH].
  destruct (reference_port_candidate_from_exchange x); cbn [map_err mbind result_bind]; [apply IH|done|done].
Qed.

Lemma collect_not_fuel parse_uuid show_uuid show_f64 request_roots flow_space flow_meta rows :
  collect_candidates parse_uuid show_uuid show_f64 request_roots flow_space flow_meta rows <> Err OutOfFuel.
Proof.
  unfold collect_candidates. generalize (mk_candidates [] [] ∅ ∅) as cs. induction (enumerate rows) as [|[i row] l IH];
    intros cs; cbn [foldM]; [done|].
  assert (add_candidate parse_uuid show_uuid show_f64 request_roots flow_space flow_meta cs (i, row) <> Err OutOfFuel) as Ha.
  { unfold add_candidate. destruct (i32_of_usize i) as [idx|]; [|done]. cbn [ok_or mbind result_bind]. cbn zeta.
    destruct (parse_process_chunk _ _ _ row idx) as [[[meta st] stats]|e|]; [|by destruct (bool_decide _)|done].
    destruct (match flow_meta with Some _ => _ | None => _ end) as [xs|e|]; [|by destruct (bool_decide _)|done].
    pose proof (ports_not_fuel flow_space xs (c_ports cs)) as Hx.
    destruct (foldM (push_port flow_space) xs (c_ports cs)); cbn [mbind result_bind]; congruence. }
  destruct (add_candidate _ _ _ _ _ _ cs (i, row)); [apply IH|cbn; congruence|done].
Qed.

Lemma roots_not_fuel cs roots st : foldM (select_root cs) roots st <> Err OutOfFuel.
Proof.
  revert st. induction roots as [|r roots IH]; intros st; cbn [foldM]; [done|]. unfold select_root at 1.
  destruct (c_lookup cs !! root_key r); cbn [ok_or mbind result_bind]; [apply IH|done].
Qed.

Lemma rows_not_fuel rows l : mapR (selected_row rows) l <> Err OutOfFuel.
Proof.
  induction l as [|i l IH]; cbn [mapR]; [done|]. unfold selected_row at 1.
  destruct (usize_of_i32 i) as [k|]; cbn [ok_or mbind result_bind]; [|done]. destruct (rows !! k); cbn [ok_or]; [|done].
  destruct (mapR (selected_row rows) l); [done|congruence|done].
Qed.

(** ** Guarantees *)

(** C11: with request roots, the selection is exactly the closure of the roots:
    the rows, in their original order and each once, whose index is reached
    from the row of a root by steps to the processes chosen to balance a
    residual exchange; and the two partition counts add up to it. *)
Theorem selection_is_closure parse_uuid show_uuid show_f64 hash request_roots rule flow_space flow_meta lineage
    rows all_states state_codes user limit (s : ResolvedProcessSelection) :
  request_roots <> [] ->
  resolve_process_selection_with_flow_versions parse_uuid show_uuid show_f64 hash request_roots rule flow_space flow_meta
    lineage rows all_states state_codes user limit = Ok s ->
  exists cs indices,
    collect_candidates parse_uuid show_uuid show_f64 request_roots flow_space flow_meta rows = Ok cs
    /\ StronglySorted Z.lt indices
    /\ (forall j, j ∈ indices <-> exists root i, root ∈ normalize_request_roots request_roots
          /\ c_lookup cs !! root_key root = Some i /\ rtc (supplied_by rule lineage cs) i j)
    /\ Forall2 (fun j row => rows !! Z.to_nat j = Some row) indices (sel_processes s)
    /\ public_process_count (scope_summary s) + private_process_count (scope_summary s)
       = Z.of_nat (length (sel_processes s)).
Proof.
  intros Hroots H. unfold resolve_process_selection_with_flow_versions in H.
  destruct request_roots as [|r0 rs] eqn:Er; [done|]. rewrite <- Er in *. clear Hroots Er r0 rs.
  apply bind_ok in H as (cs & Hcs & H). cbn zeta in H. apply bind_ok in H as (st0 & [Hq Hst]%select_roots_ok & H).
  apply bind_ok in H as (st & Hclose & H). apply bind_ok in H as (sel & Hsel%mapR_ok & [<- Hcounts]%summarize_ok).
  destruct (sorted_elements st.1) as [Hsorted Hin]. exists cs, (sort_by Z.compare (elements st.1)).
  split_and!; [done|done| | |done].
  - intros j. rewrite Hin, (close_closure rule lineage cs st0.2 (length rows) 0 st0 st); [|split_and!|exact Hclose].
    + setoid_rewrite Hst. naive_solver.
    + exact Hq.
    + done.
    + intros i Hi. by exists i.
    + intros k. lia.
  - apply (Forall2_impl _ _ _ _ Hsel). intros j row Hrow. unfold selected_row in Hrow.
    apply bind_ok in Hrow as (i & [_ ->]%ok_or_ok%usize_of_i32_Some & Hrow%ok_or_ok). exact Hrow.
Qed.

(** C32: the closure always ends: no candidate enters the queue twice, so the
    number of candidates bounds the iterations of the queue, whatever cycles
    the supply relation has. *)
Theorem selection_terminates parse_uuid show_uuid show_f64 hash request_roots rule flow_space flow_meta lineage
    rows all_states state_codes user limit :
  resolve_process_selection_with_flow_versions parse_uuid show_uuid show_f64 hash request_roots rule flow_space flow_meta
    lineage rows all_states state_codes user limit <> Err OutOfFuel.
Proof.
  unfold resolve_process_selection_with_flow_versions. destruct request_roots as [|r0 rs] eqn:Er.
  { apply summarize_not_fuel. }
  rewrite <- Er. clear Er r0 rs.
  pose proof (collect_not_fuel parse_uuid show_uuid show_f64 request_roots flow_space flow_meta rows) as Hc.
  destruct (collect_candidates _ _ _ _ _ _ rows) as [cs|e|] eqn:Hcs; cbn [mbind result_bind]; [|congruence|done]. cbn zeta.
  destruct (foldM (select_root cs) _ _) as [st0|e|] eqn:Hroots; cbn [mbind result_bind]; [| |done].
  2:{ intros [= ->]. by apply roots_not_fuel in Hroots. }
  apply select_roots_ok in Hroots as [Hq Hst]. apply collect_candidates_axis in Hcs.
  pose proof (close_terminates rule lineage cs (length rows) Hcs (length rows) 0 st0 Hq) as Hclose.
  destruct (close _ _ cs _ 0 st0) as [st|e|]; cbn [mbind result_bind]; [| |done].
  2:{ intros [= ->]. apply Hclose; [|lia|done]. intros i (root & _ & Hi)%Hst. by eapply (oc_lookup _ _ Hcs). }
  destruct (mapR (selected_row rows) _) as [sel|e|] eqn:Hsel; cbn [mbind result_bind]; [apply summarize_not_fuel| |done].
  intros [= ->]. by apply rows_not_fuel in Hsel.
Qed.

(** ** Witness *)

(** The first sample document needs the second; the third is not needed. *)
Definition sample_candidates : list ProcessRow := sample_rows ++ [sample_row 9 (sample_document "0" "50" "1" [])].
Definition sample_roots : list RequestRootProcess := [{| root_process_id := 7; root_process_version := "1" |}].
Definition sample_selection : result SelectionError ResolvedProcessSelection :=
  resolve_process_selection_with_flow_versions example_uuid (fun _ => EmptyString) (fun _ => EmptyString)
    (fun _ _ _ _ _ _ => Some EmptyString) sample_roots StrictUniqueProvider None None example_lineage
    sample_candidates true [] None 0.

Lemma selection_is_closure_witness :
  exists s, sample_selection = Ok s /\ row_id <$> sel_processes s = [7; 8]
    /\ public_process_count (scope_summary s) + private_process_count (scope_summary s) = 2.
Proof.
  assert ((fun s => row_id <$> sel_processes s) <$> sample_selection = Ok [7; 8]) as Hids by (vm_compute; reflexivity).
  destruct sample_selection as [s|e|] eqn:Hs; [|discriminate Hids..]. exists s. split; [reflexivity|].
  cbn [fmap result_fmap] in Hids. injection Hids as Hids. split; [exact Hids|].
  destruct (selection_is_closure example_uuid (fun _ => EmptyString) (fun _ => EmptyString)
    (fun _ _ _ _ _ _ => Some EmptyString) sample_roots StrictUniqueProvider None None example_lineage
    sample_candidates true [] None 0 s) as (cs & indices & _ & _ & _ & _ & Hcount).
  - discriminate.
  - exact Hs.
  - rewrite Hcount, <- (length_fmap row_id), Hids. reflexivity.
Defined.
