(* ===== verification/Resource.v ===== *)
(** * Resource admission and cancellation

    Models [crates/solver-worker/src/resource.rs]: profiles and demands, the
    admission check, the cancellation token and the size of a directory tree.
    The file system is a value ([fs_node]) that says what each call of
    [std::fs] would return; reading [/proc] and cgroup files is not modelled. *)

From stdpp Require Import pretty.
From S2P Require Import Prelude.

Local Open Scope Z_scope.

Definition RESOURCE_PROFILE_SCHEMA : string := "worker.resource-profile.v1".

(** [u64] amounts in [Z]; [None] is "not limited" / "not measured". *)
Record ResourceLimits := {
  memory_soft_bytes : option Z;
  memory_hard_bytes : option Z;
  limit_temp_bytes : option Z;
  limit_object_download_bytes : option Z;
  limit_object_upload_bytes : option Z;
  limit_cache_bytes : option Z;
  limit_stage_window_bytes : option Z;
  max_concurrency : option Z;
}.
Definition no_limits : ResourceLimits :=
  {| memory_soft_bytes := None; memory_hard_bytes := None; limit_temp_bytes := None;
     limit_object_download_bytes := None; limit_object_upload_bytes := None;
     limit_cache_bytes := None; limit_stage_window_bytes := None; max_concurrency := None |}.

Record ResourceProfile := { schema : string; job_family : string; limits : ResourceLimits }.

Definition profile_new (job_family : string) (limits : ResourceLimits) : ResourceProfile :=
  {| schema := RESOURCE_PROFILE_SCHEMA; job_family := job_family; limits := limits |}.

Record ResourceAdmission := { memory_soft_limit_exceeded : bool }.

Record ResourceDemand := {
  owned_estimate_bytes : option Z;
  temp_bytes : option Z;
  object_download_bytes : option Z;
  object_upload_bytes : option Z;
  cache_bytes : option Z;
  stage_window_bytes : option Z;
  concurrency : option Z;
}.
Definition no_demand : ResourceDemand :=
  {| owned_estimate_bytes := None; temp_bytes := None; object_download_bytes := None;
     object_upload_bytes := None; cache_bytes := None; stage_window_bytes := None;
     concurrency := None |}.

Inductive ResourceError :=
| AdmissionRejected (resource : string) (requested limit : Z)
| ArtifactLimitExceeded (resource : string) (observed limit : Z)
| Cancelled (stage : string)
| InvalidProfile (message : string).

Definition error_code (e : ResourceError) : string :=
  match e with
  | AdmissionRejected _ _ _ | InvalidProfile _ => "resource_admission_rejected"
  | ArtifactLimitExceeded _ _ _ => "artifact_limit_exceeded"
  | Cancelled _ => "operation_cancelled"
  end.

(** [if let (Some(a), Some(b)) = .. && a > b]. *)
Definition exceeds (requested limit : option Z) : bool :=
  match requested, limit with Some r, Some l => r >? l | _, _ => false end.

Definition check_limit (resource : string) (requested limit : option Z) : result ResourceError unit :=
  match requested, limit with
  | Some r, Some l => if r >? l then Err (AdmissionRejected resource r l) else Ok tt
  | _, _ => Ok tt
  end.

Definition profile_validate (p : ResourceProfile) : result ResourceError unit :=
  if decide (schema p <> RESOURCE_PROFILE_SCHEMA)
  then Err (InvalidProfile ("unsupported resource profile schema: " +:+ schema p))
  else match memory_soft_bytes (limits p), memory_hard_bytes (limits p) with
       | Some soft, Some hard =>
           if soft >? hard
           then Err (InvalidProfile ("memory soft limit must not exceed hard limit: soft="
                                       +:+ pretty soft +:+ " hard=" +:+ pretty hard))
           else Ok tt
       | _, _ => Ok tt
       end ≫= fun _ =>
       if decide (max_concurrency (limits p) = Some 0)
       then Err (InvalidProfile "resource profile max concurrency must be greater than zero")
       else Ok tt.

Definition demand_validate (d : ResourceDemand) : result ResourceError unit :=
  if decide (concurrency d = Some 0)
  then Err (InvalidProfile "resource demand concurrency must be greater than zero")
  else Ok tt.

Definition admit_demand (p : ResourceProfile) (d : ResourceDemand) : result ResourceError ResourceAdmission :=
  _ ← profile_validate p;
  _ ← demand_validate d;
  let l := limits p in
  _ ← check_limit "ownedEstimateBytes" (owned_estimate_bytes d) (memory_hard_bytes l);
  _ ← check_limit "tempBytes" (temp_bytes d) (limit_temp_bytes l);
  _ ← check_limit "objectDownloadBytes" (object_download_bytes d) (limit_object_download_bytes l);
  _ ← check_limit "objectUploadBytes" (object_upload_bytes d) (limit_object_upload_bytes l);
  _ ← check_limit "cacheBytes" (cache_bytes d) (limit_cache_bytes l);
  _ ← check_limit "stageWindowBytes" (stage_window_bytes d) (limit_stage_window_bytes l);
  _ ← match concurrency d, max_concurrency l with
      | Some requested, Some limit =>
          if requested >? limit then Err (AdmissionRejected "concurrency" requested limit) else Ok tt
      | _, _ => Ok tt
      end;
  Ok {| memory_soft_limit_exceeded := exceeds (owned_estimate_bytes d) (memory_soft_bytes l) |}.

(** The flags behind the cancellation tokens of the program, by address.  A
    token is the address its [Arc] points to: [default] allocates a flag, a clone
    copies the address, and every access goes through it. *)
Abbreviation Flags := (list bool).
Record CancellationToken := mk_token { cancelled : nat }.
Definition token_default (flags : Flags) : CancellationToken * Flags := (mk_token (length flags), flags ++ [false]).
Definition token_clone (t : CancellationToken) : CancellationToken := mk_token (cancelled t).
Definition cancel (flags : Flags) (t : CancellationToken) : Flags := <[cancelled t := true]> flags.
Definition is_cancelled (flags : Flags) (t : CancellationToken) : bool := default false (flags !! cancelled t).
Definition check (flags : Flags) (t : CancellationToken) (stage : string) : result ResourceError unit :=
  if is_cancelled flags t then Err (Cancelled stage) else Ok tt.

(** The operations of the holders of tokens, in the order they happen; holders
    are numbered in the order they get their token. *)
Inductive token_op := NewToken | CloneToken (holder : nat) | DoCancel (holder : nat).
Record TokenState := mk_tokens { tk_flags : Flags; tk_holders : list CancellationToken }.
Definition token_step (st : TokenState) (op : token_op) : TokenState :=
  match op with
  | NewToken => let '(t, flags) := token_default (tk_flags st) in mk_tokens flags (tk_holders st ++ [t])
  | CloneToken h => mk_tokens (tk_flags st) (tk_holders st ++ (token_clone <$> option_list (tk_holders st !! h)))
  | DoCancel h => mk_tokens (foldl cancel (tk_flags st) (option_list (tk_holders st !! h))) (tk_holders st)
  end.
Definition token_run (ops : list token_op) : TokenState := foldl token_step (mk_tokens [] []) ops.

#[local] Set Warnings "-register-all".

(** What the file system holds at a path; [FsMissing] also stands for a
    directory entry that cannot be read. *)
Inductive fs_node :=
| FsMissing
| FsFile (len : Z)
| FsOther
| FsDirUnreadable
| FsDir (entries : list fs_node).

(** [u64::checked_add]. *)
Definition checked_add (a b : Z) : option Z := if a + b <=? U64_MAX then Some (a + b) else None.

Fixpoint directory_bytes (n : fs_node) : option Z :=
  match n with
  | FsMissing => None
  | FsFile len => Some len
  | FsOther => Some 0
  | FsDirUnreadable => None
  | FsDir entries =>
      (fix go (entries : list fs_node) (total : Z) : option Z :=
         match entries with
         | [] => Some total
         | e :: rest =>
             match directory_bytes e with
             | Some b => match checked_add total b with Some t => go rest t | None => None end
             | None => None
             end
         end) entries 0
  end.

(** ** Files of a tree *)

(** The lengths of the files below a path, [None] if some part of it cannot
    be read. *)
Fixpoint fs_files (n : fs_node) : option (list Z) :=
  match n with
  | FsMissing | FsDirUnreadable => None
  | FsFile len => Some [len]
  | FsOther => Some []
  | FsDir entries =>
      (fix go (entries : list fs_node) : option (list Z) :=
         match entries with
         | [] => Some []
         | e :: rest =>
             match fs_files e, go rest with Some a, Some b => Some (a ++ b) | _, _ => None end
         end) entries
  end.
Definition sum_bytes (l : list Z) : Z := foldr Z.add 0 l.

Section FsInd.
Context (P : fs_node -> Prop) (Hmissing : P FsMissing) (Hfile : forall len, P (FsFile len))
  (Hother : P FsOther) (Hunreadable : P FsDirUnreadable)
  (Hdir : forall entries, Forall P entries -> P (FsDir entries)).
Fixpoint fs_node_rect' (n : fs_node) : P n :=
  match n with
  | FsMissing => Hmissing
  | FsFile len => Hfile len
  | FsOther => Hother
  | FsDirUnreadable => Hunreadable
  | FsDir entries =>
      Hdir entries ((fix go entries : Forall P entries :=
        match entries with
        | [] => Forall_nil_2 P
        | e :: rest => Forall_cons_2 P e rest (fs_node_rect' e) (go rest)
        end) entries)
  end.
End FsInd.

Lemma sum_bytes_app a b : sum_bytes (a ++ b) = sum_bytes a + sum_bytes b.
Proof. unfold sum_bytes. induction a as [|x a IH]; simpl; [done|]. rewrite IH. lia. Qed.

Lemma sum_bytes_nonneg l : Forall (fun z => 0 <= z) l -> 0 <= sum_bytes l.
Proof. unfold sum_bytes. induction 1; simpl; lia. Qed.

(** ** Properties *)

(** The amounts [admit_demand] compares, in the order it compares them. *)
Definition requests (p : ResourceProfile) (d : ResourceDemand) : list (string * option Z * option Z) :=
  let l := limits p in
  [("ownedEstimateBytes"%string, owned_estimate_bytes d, memory_hard_bytes l);
   ("tempBytes"%string, temp_bytes d, limit_temp_bytes l);
   ("objectDownloadBytes"%string, object_download_bytes d, limit_object_download_bytes l);
   ("objectUploadBytes"%string, object_upload_bytes d, limit_object_upload_bytes l);
   ("cacheBytes"%string, cache_bytes d, limit_cache_bytes l);
   ("stageWindowBytes"%string, stage_window_bytes d, limit_stage_window_bytes l);
   ("concurrency"%string, concurrency d, max_concurrency l)].

Definition profile_ok (p : ResourceProfile) : Prop :=
  schema p = RESOURCE_PROFILE_SCHEMA
  /\ exceeds (memory_soft_bytes (limits p)) (memory_hard_bytes (limits p)) = false
  /\ max_concurrency (limits p) <> Some 0.

Lemma profile_validate_ok p : profile_validate p = Ok tt <-> profile_ok p.
Proof.
  unfold profile_validate, profile_ok, exceeds. destruct (decide (schema p <> _)) as [Hs|Hs].
  { split; [done|]. by intros [? _]. }
  apply dec_stable in Hs. unfold mbind, result_bind. destruct p as [sch fam [soft hard ? ? ? ? ? mc]].
  cbn [limits schema memory_soft_bytes memory_hard_bytes max_concurrency] in *.
  destruct soft as [s|], hard as [h|]; [destruct (s >? h)|..];
    destruct (decide (mc = Some 0)); split; intros Hx; destruct_and?; done.
Qed.

Definition violation (r : string * option Z * option Z) : option ResourceError :=
  match r with (name, Some q, Some l) => if q >? l then Some (AdmissionRejected name q l) else None | _ => None end.

Lemma check_limit_violation name q l :
  check_limit name q l = match violation (name, q, l) with Some e => Err e | None => Ok tt end.
Proof. unfold check_limit, violation. destruct q, l; try done. by destruct (_ >? _). Qed.

Lemma first_violation {A} (rs : list (string * option Z * option Z)) (ok : result ResourceError A) :
  foldr (fun r k => match violation r with Some e => Err e | None => k end) ok rs =
  match list_find (fun r => is_Some (violation r)) rs with
  | Some (_, r) => match violation r with Some e => Err e | None => Panic end
  | None => ok
  end.
Proof.
  induction rs as [|r rs IH]; [done|]. cbn [foldr list_find]. destruct (violation r) as [e|] eqn:Ev.
  - rewrite decide_True by eauto. by rewrite Ev.
  - rewrite decide_False by (by intros [? ?]). rewrite IH.
    destruct (list_find _ rs) as [[i r']|]; done.
Qed.

(** For a valid profile and demand, [admit_demand] refuses exactly when some
    amount exceeds its limit, naming the first one in its fixed order with
    the two amounts; otherwise it admits, and flags soft memory pressure
    exactly when the owned estimate exceeds the soft limit. *)
Theorem admit_first_violation (p : ResourceProfile) (d : ResourceDemand) :
  profile_ok p -> concurrency d <> Some 0 ->
  admit_demand p d =
  match list_find (fun r => is_Some (violation r)) (requests p d) with
  | Some (_, r) => match violation r with Some e => Err e | None => Panic end
  | None => Ok {| memory_soft_limit_exceeded :=
                    exceeds (owned_estimate_bytes d) (memory_soft_bytes (limits p)) |}
  end.
Proof.
  intros Hp%profile_validate_ok Hd. unfold admit_demand, demand_validate. rewrite Hp.
  rewrite (decide_False (P := concurrency d = Some 0)) by exact Hd.
  fold (check_limit "concurrency" (concurrency d) (max_concurrency (limits p))).
  cbn [mbind result_bind]. rewrite !check_limit_violation, <- first_violation. unfold requests.
  cbn [foldr]. 
  repeat match goal with |- context [violation ?r] => destruct (violation r) end; reflexivity.
Qed.

(** Who got a token from whom: the family of a holder is the holder whose
    [default] its token goes back to; a cancellation cancels the family. *)
Definition family_step (acc : list nat * list nat) (op : token_op) : list nat * list nat :=
  let '(families, cancelled_families) := acc in
  match op with
  | NewToken => (families ++ [length families], cancelled_families)
  | CloneToken h => (families ++ option_list (families !! h), cancelled_families)
  | DoCancel h => (families, cancelled_families ++ option_list (families !! h))
  end.
Definition families (ops : list token_op) : list nat * list nat := foldl family_step ([], []) ops.

Record tokens_ok (st : TokenState) (acc : list nat * list nat) : Prop := {
  tk_same : Forall2 (fun t f => (f < length acc.1)%nat /\ tk_flags st !! cancelled t = Some (bool_decide (f ∈ acc.2))) (tk_holders st) acc.1;
  tk_shared h h' t t' f f' : tk_holders st !! h = Some t -> tk_holders st !! h' = Some t' ->
    acc.1 !! h = Some f -> acc.1 !! h' = Some f' -> cancelled t = cancelled t' <-> f = f';
}.

Lemma tokens_clone st acc t f : tokens_ok st acc -> (exists h, tk_holders st !! h = Some t /\ acc.1 !! h = Some f) ->
  tokens_ok (mk_tokens (tk_flags st) (tk_holders st ++ [token_clone t])) (acc.1 ++ [f], acc.2).
Proof.
  intros [HF HS] (h & Ht & Hf). pose proof (Forall2_length _ _ _ HF) as Hlen.
  assert (forall k x y, (tk_holders st ++ [token_clone t]) !! k = Some x -> (acc.1 ++ [f]) !! k = Some y ->
    exists j x', tk_holders st !! j = Some x' /\ cancelled x = cancelled x' /\ acc.1 !! j = Some y) as Hback.
  { intros k x y [Hx|[Hk Hx]]%lookup_app_Some Hy.
    - exists k, x. split_and!; [exact Hx|reflexivity|]. apply lookup_lt_Some in Hx. rewrite lookup_app_l in Hy by lia. exact Hy.
    - rewrite lookup_app_r in Hy by lia. rewrite <- Hlen in Hy. apply list_lookup_singleton_Some in Hx as [_ <-].
      apply list_lookup_singleton_Some in Hy as [_ <-]. by exists h, t. }
  split; cbn [tk_holders tk_flags fst snd].
  - apply Forall2_app.
    + eapply Forall2_impl; [exact HF|]. intros x y [Hy Hx]. split; [rewrite length_app; lia|exact Hx].
    + constructor; [|constructor]. destruct (Forall2_lookup_lr _ _ _ _ _ _ HF Ht Hf) as [Hb Hx]. split; [rewrite length_app; lia|exact Hx].
  - intros k k' x x' y y' Hx Hx' Hy Hy'. destruct (Hback _ _ _ Hx Hy) as (j & z & Hz & -> & Hfz). destruct (Hback _ _ _ Hx' Hy') as (j' & z' & Hz' & -> & Hfz').
    exact (HS j j' z z' y y' Hz Hz' Hfz Hfz').
Qed.
Lemma tokens_new st acc : tokens_ok st acc -> Forall (fun f => (f < length acc.1)%nat) acc.2 ->
  tokens_ok (token_step st NewToken) (family_step acc NewToken).
Proof.
  destruct acc as [fams cs]. intros [HF HS] Hcs. pose proof (Forall2_length _ _ _ HF) as Hlen. cbn [fst snd] in *.
  assert (forall k t f, tk_holders st !! k = Some t -> fams !! k = Some f -> (cancelled t < length (tk_flags st))%nat /\ (f < length fams)%nat) as Hb.
  { intros k t f Ht Hf. destruct (Forall2_lookup_lr _ _ _ _ _ _ HF Ht Hf) as [Hlt Hx]. split; [by eapply lookup_lt_Some|exact Hlt]. }
  split; cbn [token_step token_default family_step tk_holders tk_flags fst snd].
  - apply Forall2_app.
    + eapply Forall2_impl; [exact HF|]. intros x y [Hy Hx]. split; [rewrite length_app; lia|]. rewrite lookup_app_l by (by eapply lookup_lt_Some). exact Hx.
    + constructor; [|constructor]. split; [rewrite length_app; simpl; lia|]. cbn [cancelled]. rewrite list_lookup_middle by done.
      f_equal. symmetry. apply bool_decide_eq_false. intros Hin. rewrite Forall_forall in Hcs. specialize (Hcs _ Hin). lia.
  - assert (forall k x y, (tk_holders st ++ [mk_token (length (tk_flags st))]) !! k = Some x -> (fams ++ [length fams]) !! k = Some y ->
      (tk_holders st !! k = Some x /\ fams !! k = Some y) \/ (cancelled x = length (tk_flags st) /\ y = length fams)) as Hcase.
    { intros k x y [Hx|[Hk Hx]]%lookup_app_Some Hy.
      - left. split; [exact Hx|]. apply lookup_lt_Some in Hx. rewrite lookup_app_l in Hy by lia. exact Hy.
      - right. rewrite lookup_app_r in Hy by lia. rewrite <- Hlen in Hy. apply list_lookup_singleton_Some in Hx as [_ <-].
        apply list_lookup_singleton_Some in Hy as [_ <-]. done. }
    intros k k' x x' y y' Hx Hx' Hy Hy'. destruct (Hcase _ _ _ Hx Hy) as [[H1 H2]|[H1 H2]], (Hcase _ _ _ Hx' Hy') as [[H3 H4]|[H3 H4]];
      [by eapply HS|pose proof (Hb _ _ _ H1 H2) as [? ?]|pose proof (Hb _ _ _ H3 H4) as [? ?]|];
      rewrite ?H1, ?H2, ?H3, ?H4; split; intros; first [reflexivity|lia].
Qed.

Lemma tokens_cancel st acc h t f : tokens_ok st acc -> tk_holders st !! h = Some t -> acc.1 !! h = Some f ->
  tokens_ok (mk_tokens (cancel (tk_flags st) t) (tk_holders st)) (acc.1, acc.2 ++ [f]).
Proof.
  intros [HF HS] Ht Hf. split; cbn [tk_holders tk_flags fst snd]; [|exact HS]. apply Forall2_same_length_lookup. split; [by eapply Forall2_length|].
  intros k x y Hx Hy. destruct (Forall2_lookup_lr _ _ _ _ _ _ HF Hx Hy) as [Hb Hk]. split; [exact Hb|].
  pose proof (HS h k t x f y Ht Hx Hf Hy) as Hiff. unfold cancel. destruct (decide (f = y)) as [->|Hne].
  - rewrite (proj2 Hiff eq_refl), list_lookup_insert_eq by (by eapply lookup_lt_Some). f_equal. symmetry. apply bool_decide_eq_true.
    apply elem_of_app. right. by apply list_elem_of_singleton.
  - rewrite list_lookup_insert_ne by (intros E; by apply Hne, Hiff). rewrite Hk. f_equal. apply bool_decide_ext.
    rewrite elem_of_app, list_elem_of_singleton. split; [by left|]. intros [?| ->]; [done|]. done.
Qed.

Lemma token_step_ok st acc op : tokens_ok st acc /\ Forall (fun f => (f < length acc.1)%nat) acc.2 ->
  tokens_ok (token_step st op) (family_step acc op) /\ Forall (fun f => (f < length (family_step acc op).1)%nat) (family_step acc op).2.
Proof.
  intros [Hok Hcs]. split.
  - destruct op as [|h|h]; [by apply tokens_new| |]; destruct acc as [fams cs], st as [flags holders]; cbn [token_step family_step tk_flags tk_holders];
      pose proof (Forall2_length _ _ _ (tk_same _ _ Hok)) as Hlen; cbn [tk_holders fst] in Hlen.
    all: destruct (fams !! h) as [f|] eqn:Hf; [destruct (lookup_lt_is_Some_2 holders h) as [t Ht]; [apply lookup_lt_Some in Hf; lia|]; rewrite Ht
      |rewrite (lookup_ge_None_2 holders) by (apply lookup_ge_None_1 in Hf; lia); cbn; by rewrite ?app_nil_r].
    + exact (tokens_clone _ (fams, cs) t f Hok (ex_intro _ h (conj Ht Hf))).
    + exact (tokens_cancel _ (fams, cs) h t f Hok Ht Hf).
  - assert (Forall (fun f => (f < length (family_step acc op).1)%nat) acc.2) as Hmono.
    { eapply Forall_impl; [exact Hcs|]. intros f Hf. destruct acc as [fams cs], op; simpl in *; rewrite ?length_app; lia. }
    destruct acc as [fams cs], op as [|h|h]; cbn [family_step fst snd] in *; try exact Hmono. apply Forall_app. split; [exact Hmono|].
    destruct (fams !! h) as [f|] eqn:Hf; cbn; [constructor; [|constructor]|constructor].
    destruct (Forall2_lookup_r _ _ _ _ _ (tk_same _ _ Hok) Hf) as (t & _ & Hb & _). exact Hb.
Qed.

Lemma token_run_ok ops : tokens_ok (token_run ops) (families ops) /\ Forall (fun f => (f < length (families ops).1)%nat) (families ops).2.
Proof.
  induction ops as [|op ops IH] using rev_ind; [split; [split; [constructor|done]|constructor]|].
  unfold token_run, families. rewrite !foldl_app. cbn [foldl]. by apply token_step_ok.
Qed.

(** A cancellation through any clone of a token reaches all of them and no
    other token, for good: a check fails, with its stage, exactly when someone
    of the holder's family has cancelled. *)
Theorem cancellation_shared ops h t f stage : tk_holders (token_run ops) !! h = Some t -> (families ops).1 !! h = Some f ->
  check (tk_flags (token_run ops)) t stage = if decide (f ∈ (families ops).2) then Err (Cancelled stage) else Ok tt.
Proof.
  intros Ht Hf. destruct (token_run_ok ops) as [[HF _] _]. destruct (Forall2_lookup_lr _ _ _ _ _ _ HF Ht Hf) as [_ Hx].
  unfold check, is_cancelled. rewrite Hx. cbn [default from_option]. by destruct (decide _); [rewrite bool_decide_true|rewrite bool_decide_false].
Qed.

(** The sum as [u64], or nothing when it does not fit. *)
Definition u64_sum (l : list Z) : option Z := if sum_bytes l <=? U64_MAX then Some (sum_bytes l) else None.

Inductive well_sized : fs_node -> Prop :=
| sized_missing : well_sized FsMissing
| sized_file len : 0 <= len <= U64_MAX -> well_sized (FsFile len)
| sized_other : well_sized FsOther
| sized_unreadable : well_sized FsDirUnreadable
| sized_dir entries : Forall well_sized entries -> well_sized (FsDir entries).

Lemma files_nonneg n l : well_sized n -> fs_files n = Some l -> Forall (fun z => 0 <= z) l.
Proof.
  revert l. induction n as [|len| | |entries IH] using fs_node_rect'; intros l Hw Hl; simplify_eq/=.
  - inversion Hw; subst. repeat constructor. lia.
  - constructor.
  - inversion Hw as [| | | |? Hall]; subst. clear Hw. revert l Hl Hall.
    induction IH as [|e entries He _ IHe]; intros l Hl Hall; simpl in Hl; [by inv_result|].
    apply Forall_cons in Hall as [Hwe Hall].
    destruct (fs_files e) as [a|]; [|done]. destruct (_ entries) as [b|] eqn:Eb; [|done]. inv_result.
    apply Forall_app. split; [by apply He|]. by apply IHe.
Qed.

(** The measured size of a tree is the sum of its files, in any nesting;
    the measurement fails exactly when some part of the tree cannot be read
    or the sum exceeds 64 bits. *)
Theorem directory_bytes_sum (n : fs_node) :
  well_sized n -> directory_bytes n = (l ← fs_files n; u64_sum l).
Proof.
  induction n as [|len| | |entries IH] using fs_node_rect'; intros Hw; try done.
  - inversion Hw; subst. cbn. unfold u64_sum, sum_bytes. simpl. rewrite Z.add_0_r.
    by rewrite (proj2 (Z.leb_le _ _)) by lia.
  - inversion Hw as [| | | |? Hall]; subst. clear Hw. cbn [directory_bytes fs_files].
    match goal with |- ?go entries 0 = (l ← ?files entries; _) =>
      enough (forall entries total, Forall well_sized entries -> 0 <= total <= U64_MAX ->
        Forall (fun n => well_sized n -> directory_bytes n = (l ← fs_files n; u64_sum l)) entries ->
        go entries total =
        (l ← files entries; if total + sum_bytes l <=? U64_MAX then Some (total + sum_bytes l) else None)) as HH
    end.
    { rewrite (HH entries 0); [done|done|unfold U64_MAX; lia|done]. }
    clear entries IH Hall. induction entries as [|e rest IHr]; intros total Hall Ht IH; simpl.
    { rewrite Z.add_0_r. by rewrite (proj2 (Z.leb_le _ _)) by lia. }
    apply Forall_cons in Hall as [Hwe Hall], IH as [He IH]. rewrite He by done.
    destruct (fs_files e) as [a|] eqn:Ea; [|done]. cbn [mbind option_bind].
    pose proof (sum_bytes_nonneg a (files_nonneg e a Hwe Ea)) as Ha.
    assert (forall b, fs_files (FsDir rest) = Some b -> 0 <= sum_bytes b) as Hb.
    { intros b Hb. apply sum_bytes_nonneg. apply (files_nonneg (FsDir rest)); [by constructor|done]. }
    cbn [fs_files] in Hb. unfold u64_sum, checked_add.
    destruct (Z.leb_spec (sum_bytes a) U64_MAX) as [Hle|Hgt];
      [destruct (Z.leb_spec (total + sum_bytes a) U64_MAX) as [Hle'|Hgt']|].
    + rewrite IHr by (done || lia). destruct (_ rest) as [b|]; [|done]. cbn [mbind option_bind].
      by rewrite sum_bytes_app, Z.add_assoc.
    + destruct (_ rest) as [b|]; [|done]. cbn [mbind option_bind]. specialize (Hb b eq_refl).
      by rewrite sum_bytes_app, (proj2 (Z.leb_gt _ _)) by lia.
    + destruct (_ rest) as [b|]; [|done]. cbn [mbind option_bind]. specialize (Hb b eq_refl).
      by rewrite sum_bytes_app, (proj2 (Z.leb_gt _ _)) by lia.
Qed.

Lemma admit_first_violation_witness :
  let p := profile_new "test" {| memory_soft_bytes := Some 512; memory_hard_bytes := Some 1024;
     limit_temp_bytes := Some 10; limit_object_download_bytes := None; limit_object_upload_bytes := None;
     limit_cache_bytes := None; limit_stage_window_bytes := None; max_concurrency := Some 2 |} in
  let d owned temp := {| owned_estimate_bytes := Some owned; temp_bytes := Some temp;
     object_download_bytes := None; object_upload_bytes := None; cache_bytes := None;
     stage_window_bytes := None; concurrency := Some 3 |} in
  admit_demand p (d 1025 99) = Err (AdmissionRejected "ownedEstimateBytes" 1025 1024)
  /\ admit_demand p (d 768 1) = Err (AdmissionRejected "concurrency" 3 2).
Proof.
  intros p d. split.
  - rewrite (admit_first_violation p (d 1025 99)); [vm_compute; reflexivity|by repeat split|done].
  - rewrite (admit_first_violation p (d 768 1)); [vm_compute; reflexivity|by repeat split|done].
Defined.

Lemma directory_bytes_sum_witness :
  directory_bytes (FsDir [FsFile 3; FsDir [FsFile 5; FsOther]]) = Some 8.
Proof.
  rewrite directory_bytes_sum; [vm_compute; reflexivity|].
  repeat (constructor || (unfold U64_MAX; lia)).
Defined.
