(* ===== verification/ContributionPath.v ===== *)
(** * Contribution path analysis

    Models [crates/solver-worker/src/contribution_path.rs] and the documents of
    [snapshot_index.rs] it reads: the normalization of the options, the
    provider graph, the depth-first traversal with its cutoffs, the direct
    contributions and the assembled artifact.  The traversal recurses at most
    [max_depth] times, which is its structural argument.  [Display] of a
    [Uuid], the iteration order of a [HashSet] and the time stamp are
    arguments. *)

From stdpp Require Import pretty.
From S2P Require Import Prelude F64 DataBuilder Cache Service.

Local Open Scope Z_scope.

(** ** Documents *)

Definition CONTRIBUTION_PATH_FORMAT : string := "contribution-path:v1".
Definition DIRECT_EPSILON : f64 := f64_of_ratio 1 (10^12).

Record SnapshotProcessMapEntry := {
  pm_process_id : Uuid;
  pm_process_index : Z;
  pm_process_version : string;
  pm_process_name : option string;
  pm_location : option string;
}.

Record SnapshotImpactMapEntry := {
  im_impact_id : Uuid;
  im_impact_index : Z;
  im_impact_version : option string;
  im_impact_key : string;
  im_impact_name : string;
  im_unit : string;
}.

Record SnapshotIndexDocument := {
  ix_version : Z;
  ix_snapshot_id : Uuid;
  ix_process_count : Z;
  ix_impact_count : Z;
  process_map : list SnapshotProcessMapEntry;
  impact_map : list SnapshotImpactMapEntry;
}.

Record ContributionPathOptions := {
  max_depth : nat;
  top_k_children : nat;
  cutoff_share : f64;
  max_nodes : nat;
}.

Definition default_cutoff_share : f64 := f64_of_ratio 1 100.
Definition default_path_options : ContributionPathOptions :=
  {| max_depth := 4; top_k_children := 5; cutoff_share := default_cutoff_share; max_nodes := 200 |}.

(** [n.clamp(lo, hi)]. *)
Definition clamp (n lo hi : nat) : nat := Nat.min (Nat.max n lo) hi.

Definition normalized (o : ContributionPathOptions) : ContributionPathOptions :=
  {| max_depth := clamp (max_depth o) 1 8;
     top_k_children := clamp (top_k_children o) 1 20;
     cutoff_share :=
       if is_finite (cutoff_share o) && (cutoff_share o >=? f64_zero)%f64
       then f64_min (cutoff_share o) f64_one else default_cutoff_share;
     max_nodes := clamp (max_nodes o) 10 2000 |}.

Record ContributionPathSummary := {
  total_impact : f64;
  unit_name : string;
  coverage_ratio : f64;
  expanded_node_count : nat;
  sum_truncated_node_count : nat;
  computed_at : string;
}.

Record ContributionPathProcessContribution := {
  pc_process_id : Uuid;
  pc_process_index : Z;
  pc_label : string;
  pc_location : option string;
  pc_direct_impact : f64;
  pc_share_of_total : f64;
  pc_is_root : bool;
  pc_depth_min : option nat;
}.

Record ContributionPathBranch := mk_branch {
  rank : nat;
  path_process_ids : list Uuid;
  path_labels : list string;
  path_score : f64;
  terminal_reason : string;
}.

Record ContributionPathLink := mk_link {
  source_process_id : Uuid;
  target_process_id : Uuid;
  depth_from_root : nat;
  cycle_cut : bool;
  link_direct_impact : f64;
  link_share_of_total : f64;
}.

Record ContributionPathArtifact := {
  art_version : Z;
  art_format : string;
  art_snapshot_id : Uuid;
  art_job_id : Uuid;
  art_process_id : Uuid;
  art_impact_id : Uuid;
  art_amount : f64;
  art_options : ContributionPathOptions;
  art_summary : ContributionPathSummary;
  art_root : Uuid * string;
  art_impact : Uuid * string * string;
  process_contributions : list ContributionPathProcessContribution;
  art_branches : list ContributionPathBranch;
  art_links : list ContributionPathLink;
  art_meta : string * Z;
}.

Inductive PathError :=
| MissingX
| MissingH
| IndexConversion (what : string) (index : Z)
| XLengthMismatch (x_len : nat) (process_count : Z)
| ImpactOutOfBounds (impact_index : Z) (h_len : nat)
| ProcessOutOfBounds (process_index : Z) (x_len : nat)
| RootMissing
| ImpactMissing
| BiosphereOutOfRange (process_idx len : nat)
| TechnosphereOutOfBounds (provider consumer process_count : nat)
| AdjacencyMissing
| ProviderMissing (index : Z)
| IndexMissing (index : Z).

(** [usize::try_from(i)] with an error naming what was converted. *)
Definition to_usize (what : string) (i : Z) : result PathError nat :=
  ok_or (IndexConversion what i) (usize_of_i32 i).

(** ** The provider graph *)

(** One technosphere entry: the consumer's list gets the provider. *)
Definition add_provider (process_count : nat) (adjacency : list (list Z)) (t : SparseTriplet)
    : result PathError (list (list Z)) :=
  provider ← to_usize "provider" (s_row t);
  consumer ← to_usize "consumer" (s_col t);
  if (process_count <=? provider)%nat || (process_count <=? consumer)%nat
  then Err (TechnosphereOutOfBounds provider consumer process_count)
  else
    providers ← expect (adjacency !! consumer);
    Ok (<[consumer := providers ++ [s_row t]]> adjacency).

Definition sort_dedup (providers : list Z) : list Z := dedup (sort_by Z.compare providers).

Definition build_provider_adjacency (data : ModelSparseData) : result PathError (list (list Z)) :=
  n ← to_usize "process_count" (process_count data);
  adjacency ← foldM (add_provider n) (technosphere_entries data) (replicate n []);
  Ok (sort_dedup <$> (adjacency : list (list Z))).

(** ** The traversal *)

Section Traversal.
Context (uuid_display : Uuid -> string).
Context (adjacency : list (list Z)) (direct_contributions : list f64) (total_abs_contribution : f64).
Context (process_meta_by_index : gmap Z SnapshotProcessMapEntry) (options : ContributionPathOptions).

(** The mutable fields of [TraversalState]. *)
Record TraversalState := mk_state {
  expanded_nodes : gset Z;
  min_depth : gmap Z nat;
  truncated_node_count : nat;
  branches : list ContributionPathBranch;
  links : list ContributionPathLink;
}.

Definition truncate (st : TraversalState) (n : nat) : TraversalState :=
  mk_state (expanded_nodes st) (min_depth st) (truncated_node_count st + n) (branches st) (links st).

Definition label_of (e : SnapshotProcessMapEntry) : string :=
  match pm_process_name e with Some n => n | None => uuid_display (pm_process_id e) end.

Definition process_id_for_index (i : Z) : result PathError Uuid :=
  e ← ok_or (IndexMissing i) (process_meta_by_index !! i); Ok (pm_process_id e).
Definition label_for_index (i : Z) : result PathError string :=
  e ← ok_or (IndexMissing i) (process_meta_by_index !! i); Ok (label_of e).

(** [direct_contributions.get(usize::try_from(i).ok()?)]. *)
Definition direct_of (i : Z) : option f64 := usize_of_i32 i ≫= fun n => direct_contributions !! n.

Definition score_of (path : list Z) : f64 := f64_sum (f64_abs <$> omap direct_of (drop 1 path)).

Definition record_branch (path : list Z) (reason : string) (st : TraversalState)
    : result PathError TraversalState :=
  ids ← mapR process_id_for_index path;
  labels ← mapR label_for_index path;
  Ok (mk_state (expanded_nodes st) (min_depth st) (truncated_node_count st)
        (branches st ++ [mk_branch 0 ids labels (score_of path) reason]) (links st)).

Definition add_link (source : Z) (target : SnapshotProcessMapEntry) (depth : nat) (cut : bool)
    (direct share : f64) (st : TraversalState) : result PathError TraversalState :=
  id ← process_id_for_index source;
  Ok (mk_state (expanded_nodes st) (min_depth st) (truncated_node_count st) (branches st)
        (links st ++ [mk_link id (pm_process_id target) (S depth) cut direct share])).

(** The providers worth following, most important first. *)
Definition provider_share (p : Z) : option (Z * f64 * f64) :=
  d ← direct_of p; Some (p, d, (f64_abs d / total_abs_contribution)%f64).
Definition rank_cmp : Z * f64 * f64 -> Z * f64 * f64 -> comparison :=
  cmp_then (cmp_rev (cmp_by (fun c => f64_abs c.1.2) total_cmp)) (cmp_by (fun c => c.1.1) Z.compare).
Definition ranked (providers : list Z) : list (Z * f64 * f64) :=
  sort_by rank_cmp
    (filter (fun c => (c.2 >=? cutoff_share options)%f64 = true) (omap provider_share providers)).

(** One iteration of the loop over the ranked providers, on (state, whether
    anything was expanded); [walk] is the recursive call one level deeper. *)
Definition visit (walk : Z -> list Z -> TraversalState -> result PathError TraversalState)
    (current : Z) (depth : nat) (path : list Z) (acc : TraversalState * bool)
    (child : nat * (Z * f64 * f64)) : result PathError (TraversalState * bool) :=
  let '(st, expanded_any) := acc in
  let '(position, (provider, direct, share)) := child in
  if (top_k_children options <=? position)%nat then Ok (truncate st 1, expanded_any)
  else
    target ← ok_or (ProviderMissing provider) (process_meta_by_index !! provider);
    if decide (provider ∈ path) then
      st ← add_link current target depth true direct share st;
      st ← record_branch (path ++ [provider]) "cycle_cut" (truncate st 1);
      Ok (st, true)
    else if decide ((provider ∉ expanded_nodes st) /\ (max_nodes options <= size (expanded_nodes st))%nat) then
      st ← record_branch (path ++ [provider]) "max_nodes" (truncate st 1);
      Ok (st, true)
    else
      let d := match min_depth st !! provider with Some e => Nat.min e (S depth) | None => S depth end in
      let st := mk_state ({[provider]} ∪ expanded_nodes st) (<[provider := d]> (min_depth st))
                  (truncated_node_count st) (branches st) (links st) in
      st ← add_link current target depth false direct share st;
      st ← walk provider (path ++ [provider]) st;
      Ok (st, true).

(** [walk] at [depth = max_depth - remaining]. *)
Fixpoint walk (remaining : nat) (current : Z) (path : list Z) (st : TraversalState)
    : result PathError TraversalState :=
  match remaining with
  | O => record_branch path "max_depth" (truncate st 1)
  | S remaining' =>
      let depth := (max_depth options - remaining)%nat in
      i ← to_usize "current" current;
      providers ← ok_or AdjacencyMissing (adjacency !! i);
      match providers with
      | [] => record_branch path "leaf" st
      | _ =>
          match ranked providers with
          | [] => record_branch path "cutoff" (truncate st (length providers))
          | _ =>
              acc ← foldM (visit (walk remaining') current depth path)
                      (imap pair (ranked providers)) (st, false);
              let '(st, expanded_any) := (acc : TraversalState * bool) in
              if expanded_any then Ok st else record_branch path "top_k" st
          end
      end
  end.

Definition branch_cmp : ContributionPathBranch -> ContributionPathBranch -> comparison :=
  cmp_then (cmp_rev (cmp_by path_score total_cmp))
           (cmp_by (fun b => String.concat " > " (path_labels b)) String.compare).
Definition set_rank (i : nat) (b : ContributionPathBranch) : ContributionPathBranch :=
  mk_branch (S i) (path_process_ids b) (path_labels b) (path_score b) (terminal_reason b).

Definition traverse_upstream (root : Z) : result PathError TraversalState :=
  st ← walk (max_depth options) root [root] (mk_state {[root]} {[root := 0%nat]} 0 [] []);
  Ok (mk_state (expanded_nodes st) (min_depth st) (truncated_node_count st)
        (imap set_rank (sort_by branch_cmp (branches st))) (links st)).
End Traversal.

(** ** Direct contributions *)

(** The characterization factors of one impact, summed per flow. *)
Definition add_factor (impact_index : Z) (acc : gmap nat f64) (cf : SparseTriplet)
    : result PathError (gmap nat f64) :=
  if s_row cf =? impact_index then
    flow ← to_usize "flow" (s_col cf);
    Ok (<[flow := (default f64_zero (acc !! flow) + s_value cf)%f64]> acc)
  else Ok acc.

(** One biosphere entry: the intensity of its process grows by factor times
    value, if the flow has a factor. *)
Definition add_intensity (cf_by_flow : gmap nat f64) (intensity : list f64) (t : SparseTriplet)
    : result PathError (list f64) :=
  flow ← to_usize "biosphere flow" (s_row t);
  match cf_by_flow !! flow with
  | None => Ok intensity
  | Some cf =>
      p ← to_usize "biosphere process" (s_col t);
      if (length intensity <=? p)%nat then Err (BiosphereOutOfRange p (length intensity))
      else
        old ← expect (intensity !! p);
        Ok (<[p := (old + cf * s_value t)%f64]> intensity)
  end.

Definition direct_contributions_of (data : ModelSparseData) (impact_index : Z) (x : list f64)
    : result PathError (list f64) :=
  cf_by_flow ← foldM (add_factor impact_index) (characterization_factors data) ∅;
  intensity ← foldM (add_intensity cf_by_flow) (biosphere_entries data) (replicate (length x) f64_zero);
  Ok (zip_with f64_mul x intensity).

Definition total_abs (direct : list f64) : f64 := f64_max (f64_sum (f64_abs <$> direct)) DIRECT_EPSILON.

(** ** The artifact *)

Section Analyze.
Context (uuid_display : Uuid -> string) (set_order : gset Z -> list Z) (now_rfc3339 : string).

Definition process_contribution (process_index : Z) (direct : list f64) (total : f64)
    (depths : gmap Z nat) (e : SnapshotProcessMapEntry) : option ContributionPathProcessContribution :=
  idx ← usize_of_i32 (pm_process_index e);
  d ← direct !! idx;
  if (f64_abs d <=? DIRECT_EPSILON)%f64 && negb (pm_process_index e =? process_index) then None
  else Some {| pc_process_id := pm_process_id e;
               pc_process_index := pm_process_index e;
               pc_label := label_of uuid_display e;
               pc_location := pm_location e;
               pc_direct_impact := d;
               pc_share_of_total := (f64_abs d / total)%f64;
               pc_is_root := pm_process_index e =? process_index;
               pc_depth_min := depths !! pm_process_index e |}.

Definition contribution_cmp
    : ContributionPathProcessContribution -> ContributionPathProcessContribution -> comparison :=
  cmp_then (cmp_rev (cmp_by (fun c => f64_abs (pc_direct_impact c)) total_cmp))
           (cmp_by pc_label String.compare).

Definition meta_by_index (l : list SnapshotProcessMapEntry) : gmap Z SnapshotProcessMapEntry :=
  list_to_map (reverse ((fun e => (pm_process_index e, e)) <$> l)).

Definition coverage (direct : list f64) (total : f64) (expanded : gset Z) : f64 :=
  f64_clamp (f64_sum (f64_abs <$> omap (direct_of direct) (set_order expanded)) / total)%f64
    f64_zero f64_one.

Definition analyze_contribution_path (snapshot_id job_id process_id impact_id : Uuid)
    (process_index impact_index : Z) (amount : f64) (options : ContributionPathOptions)
    (index : SnapshotIndexDocument) (data : ModelSparseData) (solved : SolveResult)
    : result PathError ContributionPathArtifact :=
  let o := normalized options in
  x ← ok_or MissingX (sr_x solved);
  h ← ok_or MissingH (sr_h solved);
  root_i ← to_usize "process_index" process_index;
  impact_i ← to_usize "impact_index" impact_index;
  n ← to_usize "process_count" (process_count data);
  _ ← ensure (length x =? n)%nat (XLengthMismatch (length x) (process_count data));
  _ ← ensure (impact_i <? length h)%nat (ImpactOutOfBounds impact_index (length h));
  _ ← ensure (root_i <? length x)%nat (ProcessOutOfBounds process_index (length x));
  root ← ok_or RootMissing (snd <$> list_find (fun e => pm_process_index e = process_index) (process_map index));
  impact ← ok_or ImpactMissing (snd <$> list_find (fun e => im_impact_index e = impact_index) (impact_map index));
  direct ← direct_contributions_of data impact_index x;
  total ← expect (h !! impact_i);
  adjacency ← build_provider_adjacency data;
  st ← traverse_upstream uuid_display adjacency direct (total_abs direct)
         (meta_by_index (process_map index)) o process_index;
  Ok {| art_version := 1;
        art_format := CONTRIBUTION_PATH_FORMAT;
        art_snapshot_id := snapshot_id;
        art_job_id := job_id;
        art_process_id := process_id;
        art_impact_id := impact_id;
        art_amount := amount;
        art_options := o;
        art_summary := {| total_impact := total;
                          unit_name := im_unit impact;
                          coverage_ratio := coverage direct (total_abs direct) (expanded_nodes st);
                          expanded_node_count := size (expanded_nodes st);
                          sum_truncated_node_count := truncated_node_count st;
                          computed_at := now_rfc3339 |};
        art_root := (pm_process_id root, label_of uuid_display root);
        art_impact := (im_impact_id impact, im_impact_name impact, im_unit impact);
        process_contributions :=
          sort_by contribution_cmp
            (omap (process_contribution process_index direct (total_abs direct) (min_depth st))
               (process_map index));
        art_branches := branches st;
        art_links := links st;
        art_meta := ("solve_one_path_analysis"%string, ix_version index) |}.
End Analyze.

(** ** Paths of the provider graph *)

Section Paths.
Context (uuid_display : Uuid -> string).
Context (adjacency : list (list Z)) (direct_contributions : list f64) (total_abs_contribution : f64).
Context (process_meta_by_index : gmap Z SnapshotProcessMapEntry) (options : ContributionPathOptions).
Context (root : Z).

#[local] Abbreviation walk := (walk uuid_display adjacency direct_contributions total_abs_contribution
  process_meta_by_index options).
#[local] Abbreviation visit := (visit uuid_display direct_contributions process_meta_by_index options).
#[local] Abbreviation record_branch := (record_branch uuid_display direct_contributions process_meta_by_index).
#[local] Abbreviation ranked := (ranked direct_contributions total_abs_contribution options).

(** [b] supplies [a]. *)
Definition edge (a b : Z) : Prop :=
  exists i l, usize_of_i32 a = Some i /\ adjacency !! i = Some l /\ b ∈ l.

(** A path upstream from the root that visits no process twice. *)
Record simple_path (path : list Z) : Prop := {
  sp_head : head path = Some root;
  sp_edges : forall i a b, path !! i = Some a -> path !! S i = Some b -> edge a b;
  sp_nodup : NoDup path;
}.

(** What each terminal reason says about the recorded path. *)
Definition path_ends (path : list Z) (reason : string) : Prop :=
  (exists init last, path = init ++ [last] /\ simple_path init /\
     (exists prev, list.last init = Some prev /\ edge prev last) /\
     ((reason = "cycle_cut"%string /\ last ∈ init) \/ (reason = "max_nodes"%string /\ last ∉ init)))
  \/ (simple_path path /\
      ((reason = "max_depth"%string /\ length path = S (max_depth options))
       \/ (reason = "leaf"%string /\ exists current, last path = Some current /\ forall b, ~ edge current b)
       \/ reason = "cutoff"%string \/ reason = "top_k"%string)).

Definition recorded (path : list Z) (reason : string) (b : ContributionPathBranch) : Prop :=
  mapR (process_id_for_index process_meta_by_index) path = Ok (path_process_ids b)
  /\ mapR (label_for_index uuid_display process_meta_by_index) path = Ok (path_labels b)
  /\ path_score b = score_of direct_contributions path /\ terminal_reason b = reason.

(** A recorded branch is a path of the graph, bounded by the depth limit,
    that ends the way its reason says. *)
Definition branch_ok (b : ContributionPathBranch) : Prop :=
  exists path, recorded path (terminal_reason b) b /\ path_ends path (terminal_reason b)
    /\ (length path <= S (max_depth options))%nat.

(** The minimal depth of a process is the length of some simple path. *)
Definition depth_ok (p : Z) (d : nat) : Prop :=
  exists path, simple_path path /\ last path = Some p /\ length path = S d /\ (d <= max_depth options)%nat.

Record traversal_ok (st : TraversalState) : Prop := {
  ok_branches : Forall branch_ok (branches st);
  ok_nodes : (size (expanded_nodes st) <= Nat.max 1 (max_nodes options))%nat;
  ok_domain : forall p, p ∈ expanded_nodes st <-> is_Some (min_depth st !! p);
  ok_depths : forall p d, min_depth st !! p = Some d -> depth_ok p d;
}.

Lemma record_branch_ok path reason st st' :
  record_branch path reason st = Ok st' ->
  exists b, recorded path reason b
  /\ st' = mk_state (expanded_nodes st) (min_depth st) (truncated_node_count st) (branches st ++ [b]) (links st).
Proof.
  unfold ContributionPath.record_branch. intros (ids & Hids & H)%bind_ok.
  apply bind_ok in H as (labels & Hlabels & H). inv_result.
  eexists. split; [|reflexivity]. by split_and!.
Qed.

Lemma add_link_ok source target depth cut direct share st st' :
  add_link process_meta_by_index source target depth cut direct share st = Ok st' ->
  exists l, st' = mk_state (expanded_nodes st) (min_depth st) (truncated_node_count st) (branches st) (links st ++ [l]).
Proof. unfold add_link. intros (id & _ & H)%bind_ok. inv_result. by eexists. Qed.

Lemma traversal_ok_branch st b :
  traversal_ok st -> branch_ok b ->
  traversal_ok (mk_state (expanded_nodes st) (min_depth st) (truncated_node_count st) (branches st ++ [b]) (links st)).
Proof. intros [] Hb. constructor; cbn; try done. apply Forall_app. split; [done|]. by constructor. Qed.

Lemma traversal_ok_frame st n links' :
  traversal_ok st ->
  traversal_ok (mk_state (expanded_nodes st) (min_depth st) n (branches st) links').
Proof. by intros []. Qed.

Lemma ranked_in providers p d s : (p, d, s) ∈ ranked providers -> p ∈ providers.
Proof.
  unfold ContributionPath.ranked. rewrite sort_by_perm, list_elem_of_filter. intros [_ Hin].
  apply list_elem_of_omap in Hin as (q & Hq & Hs). unfold provider_share in Hs.
  apply bind_Some in Hs as (d' & _ & Hs). by inv_result.
Qed.

Lemma record_traversal_ok path reason st st' :
  traversal_ok st -> path_ends path reason -> (length path <= S (max_depth options))%nat ->
  record_branch path reason st = Ok st' -> traversal_ok st'.
Proof.
  intros Hst Hp Hl (b & Hb & ->)%record_branch_ok. apply traversal_ok_branch; [done|].
  destruct Hb as (? & ? & ? & Hr). exists path. rewrite Hr. by split_and!.
Qed.

(** Following an edge to a new process extends the path. *)
Lemma simple_path_snoc path a b :
  simple_path path -> last path = Some a -> edge a b -> b ∉ path -> simple_path (path ++ [b]).
Proof.
  intros [Hh He Hn] Hl Hab Hb. constructor.
  - destruct path; [done|]. exact Hh.
  - intros i x y Hx Hy. destruct (decide (S i < length path)%nat) as [Hi|Hi].
    + rewrite lookup_app_l in Hx, Hy by lia. by eapply He.
    + apply lookup_lt_Some in Hy as Hlt. rewrite length_app in Hlt. simpl in Hlt.
      assert (S i = length path) as Hs by lia.
      rewrite lookup_app_r in Hy by lia. rewrite Hs, Nat.sub_diag in Hy. simplify_eq/=.
      rewrite lookup_app_l in Hx by lia. rewrite last_lookup, <- Hs in Hl. simpl in Hl. congruence.
  - apply NoDup_app. split_and!; [done| |apply NoDup_singleton].
    intros x Hx ->%list_elem_of_singleton. done.
Qed.

(** Expanding a process that is not on the path. *)
Lemma expand_ok st depth path current p :
  traversal_ok st -> simple_path path -> last path = Some current -> edge current p -> p ∉ path ->
  length path = S depth -> (S depth <= max_depth options)%nat ->
  ~ ((p ∉ expanded_nodes st) /\ (max_nodes options <= size (expanded_nodes st))%nat) ->
  let d := match min_depth st !! p with Some e => Nat.min e (S depth) | None => S depth end in
  traversal_ok (mk_state ({[p]} ∪ expanded_nodes st) (<[p := d]> (min_depth st))
                  (truncated_node_count st) (branches st) (links st)).
Proof.
  intros [Hb Hn Hd Hdepth] Hsp Hlast He Hp Hlen Hmax Hcap d. constructor; cbn.
  - done.
  - destruct (decide (p ∈ expanded_nodes st)) as [Hin|Hin].
    + by rewrite subseteq_union_1_L by by apply singleton_subseteq_l.
    + rewrite size_union, size_singleton by by apply disjoint_singleton_l.
      destruct (decide (max_nodes options <= size (expanded_nodes st))%nat); [tauto|lia].
  - intros q. rewrite elem_of_union, elem_of_singleton, Hd. destruct (decide (q = p)) as [->|Hne].
    + rewrite lookup_insert_eq. split; eauto.
    + rewrite lookup_insert_ne by done. split; [by intros [?|?]|by right].
  - intros q d' [[<- <-]|[Hne Hq]]%lookup_insert_Some; [|by apply Hdepth].
    assert (depth_ok p (S depth)) as Hnew.
    { exists (path ++ [p]). split_and!; [by eapply simple_path_snoc|by rewrite last_snoc| |done].
      rewrite length_app, Hlen. simpl. lia. }
    unfold d. destruct (min_depth st !! p) as [e|] eqn:Ee; [|done].
    destruct (Nat.min_spec e (S depth)) as [[_ ->]|[_ ->]]; [by apply Hdepth|done].
Qed.

(** The invariant through one iteration of the loop, given it for the calls
    one level deeper. *)
Lemma visit_ok rec current depth path st ea pos p d s st' ea' :
  (forall q path st st', simple_path path -> last path = Some q -> length path = S (S depth) ->
     traversal_ok st -> rec q path st = Ok st' -> traversal_ok st') ->
  simple_path path -> last path = Some current -> edge current p -> length path = S depth ->
  (S depth <= max_depth options)%nat -> traversal_ok st ->
  visit rec current depth path (st, ea) (pos, (p, d, s)) = Ok (st', ea') ->
  traversal_ok st'.
Proof.
  intros Hrec Hsp Hlast He Hlen Hmax Hst. unfold ContributionPath.visit.
  destruct (_ <=? pos)%nat. { intros ?. inv_result. by apply traversal_ok_frame. }
  intros (target & _ & H)%bind_ok. destruct (decide (p ∈ path)) as [Hin|Hin].
  - apply bind_ok in H as (st1 & (l & ->)%add_link_ok & H). apply bind_ok in H as (st2 & Hr & H). inv_result.
    eapply record_traversal_ok; [|left; exists path, p; split_and!; eauto| |exact Hr].
    + by do 2 apply traversal_ok_frame.
    + rewrite length_app. simpl. lia.
  - destruct (decide (_ /\ _)) as [Hc|Hc].
    + apply bind_ok in H as (st2 & Hr & H). inv_result.
      eapply record_traversal_ok; [|left; exists path, p; split_and!; eauto| |exact Hr].
      * by apply traversal_ok_frame.
      * rewrite length_app. simpl. lia.
    + apply bind_ok in H as (st1 & (l & ->)%add_link_ok & H). apply bind_ok in H as (st2 & Hw & H). inv_result.
      eapply Hrec; [by eapply simple_path_snoc|by rewrite last_snoc| | |exact Hw].
      * rewrite length_app, Hlen. simpl. lia.
      * apply traversal_ok_frame. by eapply (expand_ok st depth path current p).
Qed.

Lemma walk_ok remaining current path st st' :
  simple_path path -> last path = Some current ->
  (length path + remaining = S (max_depth options))%nat -> traversal_ok st ->
  walk remaining current path st = Ok st' -> traversal_ok st'.
Proof.
  revert current path st st'.
  induction remaining as [|remaining IH]; intros current path st st' Hsp Hlast Hlen Hst; cbn [ContributionPath.walk].
  { intros Hr. eapply record_traversal_ok; [| | |exact Hr]; [by apply traversal_ok_frame| |lia].
    right. split; [done|]. left. split; [done|lia]. }
  assert (1 <= length path)%nat as Hpos by (destruct path; [done|simpl; lia]).
  intros (i & Hi & H)%bind_ok. unfold to_usize, ok_or in Hi.
  destruct (usize_of_i32 current) as [i'|] eqn:Ei; inv_result.
  apply bind_ok in H as (providers & Hp & H). unfold ok_or in Hp.
  destruct (adjacency !! i) as [l|] eqn:El; inv_result.
  destruct providers as [|p0 rest] eqn:Eps.
  { revert H. apply record_traversal_ok; [done| |lia]. right. split; [done|]. right. left.
    split; [done|]. exists current. split; [done|]. intros b (j & l & Hj & Hl & Hb).
    simplify_eq. by apply elem_of_nil in Hb. }
  rewrite <- Eps in *. clear p0 rest Eps.
  destruct (ranked providers) as [|r0 rs] eqn:Er.
  { revert H. apply record_traversal_ok; [by apply traversal_ok_frame| |lia]. right. split; [done|]. tauto. }
  rewrite <- Er in *. clear r0 rs Er. apply bind_ok in H as ([st1 ea] & Hf & H).
  assert (traversal_ok st1) as Hst1.
  { eapply (foldM_ind (fun _ (acc : TraversalState * bool) => traversal_ok acc.1)) in Hf; [exact Hf|done|].
    intros pre [pos [[p d] s]] post [c ec] [c' ec'] Heq Hc Hv. cbn [fst] in *.
    eapply visit_ok; [| | | | | | |exact Hv]; try done.
    - intros q path' c1 c1' Hq1 Hq2 Hq3. apply IH; [done..|]. lia.
    - exists i, providers. split_and!; [done..|]. eapply ranked_in.
      assert ((pos, (p, d, s)) ∈ imap pair (ranked providers)) as Hin.
      { rewrite Heq. apply elem_of_app. right. apply list_elem_of_here. }
      apply elem_of_lookup_imap_1 in Hin as (k & [[p' d'] s'] & Hk & Hk'). simplify_eq.
      by eapply list_elem_of_lookup_2.
    - lia.
    - lia. }
  destruct ea; [by inv_result|].
  revert H. apply record_traversal_ok; [exact Hst1| |lia]. right. split; [done|]. tauto.
Qed.

(** *** How many branches a traversal can record *)

Lemma visit_branches rec current depth path st ea pos c st' ea' B :
  (forall q path st st', rec q path st = Ok st' -> (length (branches st') <= length (branches st) + B)%nat) ->
  (1 <= B)%nat ->
  visit rec current depth path (st, ea) (pos, c) = Ok (st', ea') ->
  (ea' = true /\ (pos < top_k_children options)%nat /\ (length (branches st') <= length (branches st) + B)%nat)
  \/ (ea' = ea /\ branches st' = branches st /\ (top_k_children options <= pos)%nat).
Proof.
  intros Hrec HB. unfold ContributionPath.visit. destruct c as [[p d] s].
  destruct (Nat.leb_spec (top_k_children options) pos) as [Hk|Hk]; [intros ?; inv_result; by right|].
  intros (target & _ & H)%bind_ok. left. destruct (decide (p ∈ path)).
  - apply bind_ok in H as (st1 & (l & ->)%add_link_ok & H). apply bind_ok in H as (st2 & (b & _ & ->)%record_branch_ok & H).
    inv_result. cbn. rewrite length_app. simpl. split_and!; [done|done|lia].
  - destruct (decide (_ /\ _)).
    + apply bind_ok in H as (st2 & (b & _ & ->)%record_branch_ok & H).
      inv_result. cbn. rewrite length_app. simpl. split_and!; [done|done|lia].
    + apply bind_ok in H as (st1 & (l & ->)%add_link_ok & H). apply bind_ok in H as (st2 & Hw & H).
      inv_result. apply Hrec in Hw. by split_and!.
Qed.

Lemma walk_branches remaining current path st st' :
  (1 <= top_k_children options)%nat -> walk remaining current path st = Ok st' ->
  (length (branches st') <= length (branches st) + top_k_children options ^ remaining)%nat.
Proof.
  intros Hk. revert current path st st'.
  assert (forall path reason st st', record_branch path reason st = Ok st' ->
    length (branches st') = S (length (branches st))) as Hrec.
  { intros path reason st st' (b & _ & ->)%record_branch_ok. cbn. rewrite length_app. simpl. lia. }
  assert (forall n, 1 <= top_k_children options ^ n)%nat as Hpow.
  { intros n. pose proof (Nat.pow_nonzero (top_k_children options) n). lia. }
  induction remaining as [|remaining IH]; intros current path st st' H; cbn [ContributionPath.walk] in H.
  { apply Hrec in H. simpl in *. lia. }
  pose proof (Hpow (S remaining)). apply bind_ok in H as (i & _ & H). apply bind_ok in H as (providers & _ & H).
  destruct providers as [|p0 rest] eqn:Eps; [apply Hrec in H; lia|]. rewrite <- Eps in *. clear p0 rest Eps.
  destruct (ranked providers) as [|r0 rs] eqn:Er; [apply Hrec in H; simpl in H; lia|].
  rewrite <- Er in *. clear r0 rs Er. apply bind_ok in H as ([st1 ea] & Hf & H).
  set (B := (top_k_children options ^ remaining)%nat) in *.
  assert (length (branches st1) <= length (branches st) +
    if ea then Nat.min (length (imap pair (ranked providers))) (top_k_children options) * B else 0)%nat as Hb.
  { eapply (foldM_ind (fun (pre : list (nat * (Z * f64 * f64))) (acc : TraversalState * bool) => (length (branches acc.1) <= length (branches st) +
      if acc.2 then Nat.min (length pre) (top_k_children options) * B else 0)%nat)) in Hf; [exact Hf|cbn; lia|].
    intros pre [pos c] post [c1 e1] [c2 e2] Heq Hc Hv. cbn [fst snd] in *.
    assert (pos = length pre) as ->.
    { assert (imap pair (ranked providers) !! length pre = Some (pos, c)) as Hl.
      { rewrite Heq, lookup_app_r by lia. by rewrite Nat.sub_diag. }
      rewrite list_lookup_imap in Hl. destruct (ranked providers !! length pre); by simplify_eq/=. }
    eapply visit_branches in Hv; [|intros; by eapply IH|apply Hpow].
    rewrite length_app. simpl. destruct Hv as [(-> & Hlt & Hle)|(-> & -> & Hge)].
    - fold B in Hle. destruct e1; nia.
    - destruct e1; nia. }
  pose proof (Hpow remaining) as HB. fold B in HB.
  cbn [Nat.pow]. fold B. destruct ea; [inv_result; nia|]. apply Hrec in H. nia.
Qed.

(** *** The traversal always returns *)

Context (n : nat).
Definition known (p : Z) : Prop := 0 <= p < Z.of_nat n.
Context (Hmeta : forall p, known p -> is_Some (process_meta_by_index !! p)).
Context (Hlength : length adjacency = n).
Context (Hknown : Forall (Forall known) adjacency).

Lemma record_branch_total path reason st :
  Forall known path -> exists st', record_branch path reason st = Ok st'.
Proof using Hmeta.
  intros Hall.
  assert (exists ids, mapR (process_id_for_index process_meta_by_index) path = Ok ids) as [ids Hids].
  { induction Hall as [|p path Hp _ [ids IH]]; [by eexists|]. cbn [mapR]. unfold process_id_for_index at 1.
    destruct (Hmeta p Hp) as [e He]. rewrite He. cbn. rewrite IH. by eexists. }
  assert (exists ls, mapR (label_for_index uuid_display process_meta_by_index) path = Ok ls) as [ls Hls].
  { clear ids Hids. induction Hall as [|p path Hp _ [ls IH]]; [by eexists|]. cbn [mapR].
    unfold label_for_index at 1. destruct (Hmeta p Hp) as [e He]. rewrite He. cbn. rewrite IH. by eexists. }
  unfold ContributionPath.record_branch. rewrite Hids. cbn [mbind result_bind]. rewrite Hls. by eexists.
Qed.

Lemma visit_total rec current depth path st ea pos p d s :
  (forall q path st, known q -> Forall known path -> exists st', rec q path st = Ok st') ->
  known current -> known p -> Forall known path ->
  exists acc, visit rec current depth path (st, ea) (pos, (p, d, s)) = Ok acc.
Proof using Hmeta.
  intros Hrec Hcur Hp Hpath. assert (Forall known (path ++ [p])) as Hpath'.
  { apply Forall_app. split; [done|]. by constructor. }
  unfold ContributionPath.visit. destruct (_ <=? _)%nat; [by eexists|].
  destruct (Hmeta p Hp) as [e He]. rewrite He. cbn [ok_or mbind result_bind].
  assert (forall t k cut st, exists st', add_link process_meta_by_index current t k cut d s st = Ok st') as Hlink.
  { intros. unfold add_link, process_id_for_index. destruct (Hmeta current Hcur) as [e' He']. rewrite He'.
    by eexists. }
  destruct (decide (p ∈ path)); [|destruct (decide (_ /\ _))].
  - edestruct Hlink as [st1 Hst1]. rewrite Hst1. cbn [mbind result_bind].
    edestruct record_branch_total as [st2 Hst2]; [exact Hpath'|]. rewrite Hst2. by eexists.
  - edestruct record_branch_total as [st2 Hst2]; [exact Hpath'|]. rewrite Hst2. by eexists.
  - edestruct Hlink as [st1 Hst1]. rewrite Hst1. cbn [mbind result_bind].
    edestruct Hrec as [st2 Hst2]; [exact Hp|exact Hpath'|]. rewrite Hst2. by eexists.
Qed.

Lemma walk_total remaining current path st :
  known current -> Forall known path -> exists st', walk remaining current path st = Ok st'.
Proof using Hmeta Hlength Hknown.
  revert current path st. induction remaining as [|remaining IH]; intros current path st Hcur Hpath; cbn [ContributionPath.walk].
  { by apply record_branch_total. }
  unfold to_usize, usize_of_i32. unfold known in Hcur. rewrite decide_True by lia. cbn [ok_or mbind result_bind].
  destruct (lookup_lt_is_Some_2 adjacency (Z.to_nat current)) as [providers Hp]; [lia|].
  rewrite Hp. cbn [ok_or mbind result_bind].
  destruct providers as [|p0 rest] eqn:Eps; [by apply record_branch_total|]. rewrite <- Eps in *. clear p0 rest Eps.
  destruct (ranked providers) as [|r0 rs] eqn:Er; [by apply record_branch_total|]. rewrite <- Er. clear r0 rs Er.
  edestruct (foldM_total (fun _ : TraversalState * bool => True)
    (visit (walk remaining) current (max_depth options - S remaining) path)
    (imap pair (ranked providers)) (st, false)) as ([st1 ea] & Hf & _); [done| |].
  - intros [pos [[p d] s]] [c e] Hin _. destruct (visit_total (walk remaining) current
      (max_depth options - S remaining) path c e pos p d s) as [acc Hacc]; [done|done| |done|by eauto].
    rewrite Forall_lookup in Hknown. specialize (Hknown _ _ Hp). rewrite Forall_forall in Hknown.
    apply Hknown. eapply ranked_in. apply elem_of_lookup_imap_1 in Hin as (k & [[p' d'] s'] & Hk & Hk').
    simplify_eq. by eapply list_elem_of_lookup_2.
  - rewrite Hf. cbn [mbind result_bind]. destruct ea; [by eexists|by apply record_branch_total].
Qed.
End Paths.

(** ** The provider graph, exactly *)

Lemma sort_dedup_sorted l : StronglySorted Z.lt (sort_dedup l).
Proof.
  apply dedup_sorted. eapply StronglySorted_impl; [|apply sort_by_sorted', _].
  intros x y Hxy. unfold not_gt in Hxy. destruct (Z.compare_spec x y); (lia || done).
Qed.

Lemma elem_of_sort_dedup x l : x ∈ sort_dedup l <-> x ∈ l.
Proof. unfold sort_dedup. by rewrite elem_of_dedup, sort_by_perm. Qed.

Definition entry_in (n : nat) (t : SparseTriplet) : Prop :=
  0 <= s_row t < Z.of_nat n /\ 0 <= s_col t < Z.of_nat n.
Definition providers_of (ts : list SparseTriplet) (c : nat) : list Z :=
  s_row <$> filter (fun t => s_col t = Z.of_nat c) ts.

Lemma add_provider_all n ts :
  Forall (entry_in n) ts ->
  foldM (add_provider n) ts (replicate n []) = Ok (providers_of ts <$> seq 0 n).
Proof.
  induction ts as [|t ts IH] using rev_ind; intros Hall.
  { cbn [foldM]. apply f_equal, list_eq. intros i. rewrite list_lookup_fmap.
    destruct (decide (i < n)%nat).
    - rewrite lookup_replicate_2, lookup_seq_lt by done. done.
    - rewrite lookup_ge_None_2, lookup_seq_ge by (rewrite ?length_replicate; lia). done. }
  apply Forall_app in Hall as [Hall Ht]. apply Forall_cons in Ht as [[Hr Hc] _].
  rewrite foldM_app, IH by done. cbn [mbind result_bind foldM]. unfold add_provider, to_usize, usize_of_i32.
  rewrite !decide_True by lia. cbn [ok_or mbind result_bind].
  rewrite !(proj2 (Nat.leb_gt _ _)) by lia. cbn [orb].
  assert ((providers_of ts <$> seq 0 n) !! Z.to_nat (s_col t) = Some (providers_of ts (Z.to_nat (s_col t)))) as Hl.
  { rewrite list_lookup_fmap, lookup_seq_lt by lia. done. }
  rewrite Hl. cbn [expect mbind result_bind]. apply f_equal, list_eq. intros i.
  destruct (decide (i < n)%nat) as [Hi|Hi].
  - rewrite (list_lookup_fmap _ (seq 0 n)), lookup_seq_lt by done. cbn [fmap option_fmap option_map Nat.add].
    unfold providers_of at 3. rewrite filter_app, filter_cons, filter_nil, fmap_app.
    destruct (decide (Z.to_nat (s_col t) = i)) as [<-|Hne].
    + rewrite list_lookup_insert_eq by (rewrite length_fmap, length_seq; lia). by rewrite decide_True by lia.
    + rewrite list_lookup_insert_ne by done. rewrite decide_False by lia. rewrite app_nil_r.
      rewrite list_lookup_fmap, lookup_seq_lt by done. done.
  - rewrite !lookup_ge_None_2; [done|rewrite length_fmap, length_seq; lia|
      rewrite length_insert, length_fmap, length_seq; lia].
Qed.

Lemma adjacency_eq data n :
  process_count data = Z.of_nat n -> Forall (entry_in n) (technosphere_entries data) ->
  build_provider_adjacency data = Ok ((fun c => sort_dedup (providers_of (technosphere_entries data) c)) <$> seq 0 n).
Proof.
  intros Hn Hall. unfold build_provider_adjacency, to_usize, usize_of_i32. rewrite Hn, decide_True by lia.
  cbn [ok_or mbind result_bind]. rewrite Nat2Z.id, add_provider_all by done. cbn [mbind result_bind].
  by rewrite <- list_fmap_compose.
Qed.

Lemma elem_of_providers ts c p :
  p ∈ providers_of ts c <-> exists t, t ∈ ts /\ s_row t = p /\ s_col t = Z.of_nat c.
Proof.
  unfold providers_of. rewrite list_elem_of_fmap. split.
  - intros (t & -> & [? ?]%list_elem_of_filter). eauto.
  - intros (t & Ht & <- & Hc). exists t. split; [done|]. by apply list_elem_of_filter.
Qed.

(** ** Direct contributions, process by process *)

(** The factor of a flow: the values listed for the impact, added in order. *)
Definition factor_step (impact : Z) (flow : nat) (acc : option f64) (cf : SparseTriplet) : option f64 :=
  if decide (s_row cf = impact /\ s_col cf = Z.of_nat flow)
  then Some (default f64_zero acc + s_value cf)%f64 else acc.
Definition factor (data : ModelSparseData) (impact : Z) (flow : nat) : option f64 :=
  foldl (factor_step impact flow) None (characterization_factors data).
(** The intensity of a process: its entries with a factor, added in order. *)
Definition intensity_step (data : ModelSparseData) (impact : Z) (p : nat) (acc : f64) (t : SparseTriplet) : f64 :=
  if decide (s_col t = Z.of_nat p)
  then match factor data impact (Z.to_nat (s_row t)) with Some cf => (acc + cf * s_value t)%f64 | None => acc end
  else acc.
Definition intensity (data : ModelSparseData) (impact : Z) (p : nat) : f64 :=
  foldl (intensity_step data impact p) f64_zero (biosphere_entries data).

Lemma factors_eq impact cfs acc :
  Forall (fun cf => 0 <= s_col cf) cfs ->
  exists m, foldM (add_factor impact) cfs acc = Ok m
    /\ forall flow, m !! flow = foldl (factor_step impact flow) (acc !! flow) cfs.
Proof.
  intros Hall. revert acc. induction Hall as [|cf cfs Hcf _ IH]; intros acc; [by eexists|].
  cbn [foldM foldl]. unfold add_factor at 1. destruct (Z.eqb_spec (s_row cf) impact) as [Hr|Hr].
  - unfold to_usize, usize_of_i32. rewrite decide_True by done. cbn [ok_or mbind result_bind].
    destruct (IH (<[Z.to_nat (s_col cf) := (default f64_zero (acc !! Z.to_nat (s_col cf)) + s_value cf)%f64]> acc))
      as (m & Hm & Hl). exists m. split; [done|]. intros flow. rewrite Hl. f_equal. unfold factor_step.
    destruct (decide (Z.to_nat (s_col cf) = flow)) as [<-|Hne].
    + rewrite lookup_insert_eq, decide_True by (split; [done|lia]). done.
    + rewrite lookup_insert_ne, decide_False by (done || intros [_ ?]; lia). done.
  - destruct (IH acc) as (m & Hm & Hl). exists m. split; [done|]. intros flow. rewrite Hl. f_equal.
    unfold factor_step. by rewrite decide_False by tauto.
Qed.

Definition biosphere_in (n : nat) (t : SparseTriplet) : Prop :=
  0 <= s_row t /\ 0 <= s_col t < Z.of_nat n.

Lemma intensities_eq data impact cf_by_flow bs acc :
  (forall flow, cf_by_flow !! flow = factor data impact flow) ->
  Forall (biosphere_in (length acc)) bs ->
  exists l, foldM (add_intensity cf_by_flow) bs acc = Ok l /\ length l = length acc
    /\ forall p v, acc !! p = Some v -> l !! p = Some (foldl (intensity_step data impact p) v bs).
Proof.
  intros Hcf Hall. revert acc Hall.
  induction bs as [|t bs IH]; intros acc Hall; [by exists acc|]. apply Forall_cons in Hall as [[Hr Hc] Hall].
  cbn [foldM foldl]. unfold add_intensity at 1, to_usize, usize_of_i32. rewrite !decide_True by lia.
  cbn [ok_or mbind result_bind]. rewrite Hcf.
  destruct (factor data impact (Z.to_nat (s_row t))) as [cf|] eqn:Ecf; cbn [mbind result_bind].
  - rewrite (proj2 (Nat.leb_gt _ _)) by lia.
    destruct (lookup_lt_is_Some_2 acc (Z.to_nat (s_col t))) as [old Hold]; [lia|].
    rewrite Hold. cbn [expect mbind result_bind].
    edestruct (IH (<[Z.to_nat (s_col t) := (old + cf * s_value t)%f64]> acc)) as (l & Hl & Hlen & Hv).
    { by rewrite length_insert. }
    exists l. rewrite length_insert in Hlen. split_and!; [done..|]. intros p v Hp. apply Hv.
    unfold intensity_step. destruct (decide (Z.to_nat (s_col t) = p)) as [<-|Hne].
    + rewrite list_lookup_insert_eq by lia. rewrite decide_True by lia. rewrite Ecf. simplify_eq. done.
    + rewrite list_lookup_insert_ne by done. by rewrite decide_False by lia.
  - destruct (IH acc Hall) as (l & Hl & Hlen & Hv). exists l. split_and!; [done..|].
    intros p v Hp. rewrite (Hv p v Hp). f_equal. f_equal. unfold intensity_step. rewrite Ecf. by destruct (decide _).
Qed.

(** The reference: solved activity times impact intensity, per process. *)
Definition direct_reference (data : ModelSparseData) (impact : Z) (x : list f64) : list f64 :=
  imap (fun p xp => (xp * intensity data impact p)%f64) x.

Lemma direct_eq data impact x :
  Forall (fun cf => 0 <= s_col cf) (characterization_factors data) ->
  Forall (biosphere_in (length x)) (biosphere_entries data) ->
  direct_contributions_of data impact x = Ok (direct_reference data impact x).
Proof.
  intros Hcf Hbio. unfold direct_contributions_of.
  destruct (factors_eq impact _ ∅ Hcf) as (m & Hm & Hl). rewrite Hm. cbn [mbind result_bind].
  destruct (intensities_eq data impact m (biosphere_entries data) (replicate (length x) f64_zero))
    as (l & Hl' & Hlen & Hv).
  { intros flow. by rewrite Hl, lookup_empty. }
  { by rewrite length_replicate. }
  rewrite Hl'. cbn [mbind result_bind]. f_equal. unfold direct_reference.
  rewrite length_replicate in Hlen. apply list_eq. intros p.
  rewrite lookup_zip_with, list_lookup_imap. destruct (x !! p) as [xp|] eqn:Ex; [|done].
  apply lookup_lt_Some in Ex as Hlt. cbn. rewrite (Hv p f64_zero); [done|].
  by apply lookup_replicate_2.
Qed.

(** ** The whole analysis *)

(** What the solver's own checks and the index builder establish before the
    analysis runs: every index is in range and every process has its entry. *)
Record analysis_input (process_index impact_index : Z) (index : SnapshotIndexDocument)
    (data : ModelSparseData) (x h : list f64) : Prop := {
  in_process_count : process_count data = Z.of_nat (length x);
  in_root : 0 <= process_index < Z.of_nat (length x);
  in_impact : 0 <= impact_index < Z.of_nat (length h);
  in_technosphere : Forall (entry_in (length x)) (technosphere_entries data);
  in_biosphere : Forall (biosphere_in (length x)) (biosphere_entries data);
  in_factors : Forall (fun cf => 0 <= s_col cf) (characterization_factors data);
  in_processes : forall p, 0 <= p < Z.of_nat (length x) -> p ∈ pm_process_index <$> process_map index;
  in_impacts : impact_index ∈ im_impact_index <$> impact_map index;
}.

Lemma find_total {A} (f : A -> Z) (k : Z) (l : list A) :
  k ∈ f <$> l -> exists e, snd <$> list_find (fun e => f e = k) l = Some e.
Proof.
  intros (e & -> & He)%list_elem_of_fmap.
  destruct (list_find_elem_of (fun e' => f e' = f e) l e He eq_refl) as [[i e'] H]. exists e'. by rewrite H.
Qed.

Lemma meta_total l p : p ∈ pm_process_index <$> l -> is_Some (meta_by_index l !! p).
Proof.
  intros Hp. unfold meta_by_index. apply not_eq_None_Some. intros Hn.
  apply not_elem_of_list_to_map in Hn. apply Hn. rewrite fmap_reverse, elem_of_reverse, <- list_fmap_compose.
  exact Hp.
Qed.

Lemma normalized_bounds o :
  (1 <= max_depth (normalized o) <= 8)%nat /\ (1 <= top_k_children (normalized o) <= 20)%nat
  /\ (10 <= max_nodes (normalized o) <= 2000)%nat.
Proof. unfold normalized, clamp. cbn. lia. Qed.

(** The comparators of the artifact are orders on every value. *)
#[export] Instance total_cmp_preorder : TotalPreorder total_cmp := cmp_by_preorder total_key Z.compare.

#[export] Instance branch_cmp_preorder : TotalPreorder branch_cmp.
Proof. unfold branch_cmp. apply _. Qed.

Lemma StronglySorted_ranked l :
  StronglySorted (fun b1 b2 => not_gt branch_cmp b1 b2 = true) l ->
  StronglySorted (fun b1 b2 => not_gt branch_cmp b1 b2 = true) (imap set_rank l).
Proof.
  enough (forall g, StronglySorted (fun b1 b2 => not_gt branch_cmp b1 b2 = true) l ->
    StronglySorted (fun b1 b2 => not_gt branch_cmp b1 b2 = true) (imap (fun i => set_rank (g i)) l)) as H
    by exact (H id).
  intros g Hs. revert g. induction Hs as [|b l _ IH Hall]; intros g; cbn [imap]; constructor.
  - apply (IH (g ∘ S)).
  - apply Forall_forall. intros c (i & c' & -> & Hc)%elem_of_lookup_imap_1.
    rewrite Forall_lookup in Hall. exact (Hall i c' Hc).
Qed.

Section Analysis.
Context (uuid_display : Uuid -> string) (set_order : gset Z -> list Z) (now_rfc3339 : string).
Context (snapshot_id job_id process_id impact_id : Uuid) (process_index impact_index : Z) (amount : f64).
Context (options : ContributionPathOptions) (index : SnapshotIndexDocument) (data : ModelSparseData).
Context (solved : SolveResult).

#[local] Abbreviation analyze := (analyze_contribution_path uuid_display set_order now_rfc3339 snapshot_id job_id
  process_id impact_id process_index impact_index amount options index data solved).
#[local] Abbreviation o := (normalized options).
#[local] Abbreviation meta := (meta_by_index (process_map index)).
#[local] Abbreviation start := (mk_state {[process_index]} {[process_index := 0%nat]} 0 [] []).
#[local] Abbreviation walk_from adjacency direct := (walk uuid_display adjacency direct (total_abs direct) meta o
  (max_depth o) process_index [process_index] start).

Lemma analyze_inv a :
  analyze = Ok a ->
  exists x direct adjacency st,
    sr_x solved = Some x /\ direct_contributions_of data impact_index x = Ok direct
    /\ build_provider_adjacency data = Ok adjacency /\ walk_from adjacency direct = Ok st
    /\ art_branches a = imap set_rank (sort_by branch_cmp (branches st))
    /\ expanded_node_count (art_summary a) = size (expanded_nodes st)
    /\ process_contributions a = sort_by contribution_cmp
         (omap (process_contribution uuid_display process_index direct (total_abs direct) (min_depth st))
            (process_map index)).
Proof.
  unfold analyze_contribution_path. intros (x & Hx & H)%bind_ok. unfold ok_or in Hx.
  destruct (sr_x solved) as [x'|]; inv_result.
  do 7 apply bind_ok in H as (? & _ & H). do 1 apply bind_ok in H as (root & _ & H).
  apply bind_ok in H as (impact & _ & H). apply bind_ok in H as (direct & Hd & H).
  apply bind_ok in H as (total & _ & H). apply bind_ok in H as (adjacency & Ha & H).
  unfold traverse_upstream in H. apply bind_ok in H as (st' & Hst & H). apply bind_ok in Hst as (st & Hw & Hst).
  inv_result. exists x, direct, adjacency, st. by split_and!.
Qed.

Lemma start_ok adjacency direct : traversal_ok uuid_display adjacency direct meta o process_index start.
Proof.
  assert (depth_ok adjacency o process_index process_index 0) as Hd.
  { exists [process_index]. split_and!; [|done|done|lia]. constructor; [done| |apply NoDup_singleton].
    intros [|i] a b Ha Hb; done. }
  constructor; cbn.
  - constructor.
  - rewrite size_singleton. lia.
  - intros p. rewrite elem_of_singleton. split.
    + intros ->. rewrite lookup_singleton_eq. by eexists.
    + intros [d Hp]. apply lookup_singleton_Some in Hp. by destruct Hp.
  - intros p d [<- <-]%lookup_singleton_Some. exact Hd.
Qed.

Lemma walk_from_ok adjacency direct st :
  walk_from adjacency direct = Ok st -> traversal_ok uuid_display adjacency direct meta o process_index st.
Proof.
  intros Hw. eapply walk_ok; [| | |apply start_ok|exact Hw]; [|done|simpl; lia].
  constructor; [done| |apply NoDup_singleton]. intros [|i] a b Ha Hb; done.
Qed.

Lemma branch_ok_ranked adjacency direct i b :
  branch_ok uuid_display adjacency direct meta o process_index b ->
  branch_ok uuid_display adjacency direct meta o process_index (set_rank i b).
Proof. intros (path & Hr & He & Hl). exists path. by split_and!. Qed.
End Analysis.

(** The provider graph the traversal follows is exactly the technosphere
    matrix's: with every entry in range, [build_provider_adjacency] returns
    one list per process, strictly increasing (so sorted and free of
    duplicates), and [p] is listed for consumer [c] iff some entry has row [p]
    and column [c]. *)
Theorem provider_adjacency_exact (data : ModelSparseData) (n : nat) :
  process_count data = Z.of_nat n -> Forall (entry_in n) (technosphere_entries data) ->
  exists adjacency, build_provider_adjacency data = Ok adjacency /\ length adjacency = n
    /\ forall c l, adjacency !! c = Some l ->
         StronglySorted Z.lt l
         /\ forall p, p ∈ l <-> exists t, t ∈ technosphere_entries data /\ s_row t = p /\ s_col t = Z.of_nat c.
Proof.
  intros Hn Hall. eexists. split; [by apply adjacency_eq|]. rewrite length_fmap, length_seq. split; [done|].
  intros c l. rewrite list_lookup_fmap_Some. intros (c' & -> & [Hc ?]%lookup_seq). simplify_eq/=.
  split; [apply sort_dedup_sorted|]. intros p. by rewrite elem_of_sort_dedup, elem_of_providers.
Qed.

(** The direct contributions equal the reference definition: the activity
    of a process times its intensity, the sum over its biosphere entries of
    factor times value, where the factor of a flow is the sum of the values
    listed for the impact.  The hash map and the accumulation by index change
    neither the result nor a rounding. *)
Theorem direct_contributions_reference (data : ModelSparseData) (impact : Z) (x : list f64) :
  Forall (fun cf => 0 <= s_col cf) (characterization_factors data) ->
  Forall (biosphere_in (length x)) (biosphere_entries data) ->
  direct_contributions_of data impact x = Ok (direct_reference data impact x).
Proof. apply direct_eq. Qed.


(** C39: every analysis is bounded whatever options the request carries: at most
    2000 processes are expanded, no path has more than nine processes, and the
    number of branches is at most the power of the child limit to the depth
    limit, itself at most 20^8. *)
Theorem analysis_bounded uuid_display set_order now snapshot_id job_id process_id impact_id
    process_index impact_index amount options index data solved a :
  analyze_contribution_path uuid_display set_order now snapshot_id job_id process_id impact_id
    process_index impact_index amount options index data solved = Ok a ->
  (expanded_node_count (art_summary a) <= max_nodes (normalized options) <= 2000)%nat
  /\ (length (art_branches a) <= top_k_children (normalized options) ^ max_depth (normalized options))%nat
  /\ (1 <= top_k_children (normalized options) <= 20)%nat /\ (1 <= max_depth (normalized options) <= 8)%nat
  /\ Forall (fun b => (length (path_process_ids b) <= S (max_depth (normalized options)))%nat) (art_branches a).
Proof.
  intros (x & direct & adjacency & st & _ & _ & _ & Hw & Hb & He & _)%analyze_inv.
  destruct (normalized_bounds options) as (Hd & Hk & Hn).
  pose proof (walk_branches _ _ _ _ _ _ _ _ _ _ _ (proj1 Hk) Hw) as Hlen.
  apply walk_from_ok in Hw as [Hbr Hsize _ _]. split_and!; try lia.
  - rewrite Hb, length_imap, length_sort_by. exact Hlen.
  - rewrite Hb. apply Forall_lookup_2. intros i b. rewrite list_lookup_imap.
    intros (b' & Hb' & ->)%fmap_Some. cbn [set_rank path_process_ids].
    rewrite Forall_forall in Hbr. destruct (Hbr b') as (path & (Hids & _) & _ & Hl).
    { rewrite <- (sort_by_perm branch_cmp). by eapply list_elem_of_lookup_2. }
    apply mapR_ok, Forall2_length in Hids. lia.
Qed.

(** On validated input the analysis always returns an artifact: every
    process the traversal reaches has its adjacency list and its index entry,
    the recursion ends after [max_depth] levels, and no lookup by index
    fails. *)
Theorem analysis_returns uuid_display set_order now snapshot_id job_id process_id impact_id
    process_index impact_index amount options index data solved x h :
  sr_x solved = Some x -> sr_h solved = Some h ->
  analysis_input process_index impact_index index data x h ->
  exists a, analyze_contribution_path uuid_display set_order now snapshot_id job_id process_id impact_id
    process_index impact_index amount options index data solved = Ok a.
Proof.
  intros Hx Hh []. unfold analyze_contribution_path, to_usize, usize_of_i32.
  rewrite Hx, Hh, in_process_count0, !decide_True by lia. cbn [ok_or mbind result_bind].
  rewrite Nat2Z.id, Nat.eqb_refl, !(proj2 (Nat.ltb_lt _ _)) by lia. cbn [ensure mbind result_bind].
  destruct (find_total pm_process_index process_index (process_map index)) as [root Hroot]; [by apply in_processes0|].
  destruct (find_total im_impact_index impact_index (impact_map index)) as [impact Himp]; [done|].
  rewrite Hroot, Himp. cbn [ok_or mbind result_bind]. rewrite direct_eq by done. cbn [mbind result_bind].
  destruct (lookup_lt_is_Some_2 h (Z.to_nat impact_index)) as [total Ht]; [lia|].
  rewrite Ht, (adjacency_eq data (length x)) by done. cbn [expect mbind result_bind]. unfold traverse_upstream.
  edestruct (walk_total uuid_display) as [st Hst]; [| | | | |rewrite Hst; by eexists].
  - intros p Hp. apply meta_total, in_processes0, Hp.
  - by rewrite length_fmap, length_seq.
  - apply Forall_fmap, Forall_forall. intros c _. apply Forall_forall. intros p Hp. cbn in Hp.
    rewrite elem_of_sort_dedup, elem_of_providers in Hp. destruct Hp as (t & Ht' & <- & _).
    rewrite Forall_forall in in_technosphere0. apply in_technosphere0, Ht'.
  - exact in_root0.
  - constructor; [exact in_root0|constructor].
Qed.

(** ** A concrete analysis: process 0 needs 1 and 2, and 1 needs 0 *)

Definition loop_data : ModelSparseData :=
  {| model_version := 1; process_count := 3; flow_count := 1; impact_count := 1;
     technosphere_entries := [mk_sparse 2 0 f64_one; mk_sparse 1 0 f64_one; mk_sparse 1 0 f64_one;
                              mk_sparse 0 1 f64_one];
     biosphere_entries := [mk_sparse 0 0 f64_one; mk_sparse 0 1 (f64_of_Z 3); mk_sparse 0 2 (f64_of_Z 2)];
     characterization_factors := [mk_sparse 0 0 (f64_of_Z 2); mk_sparse 0 0 f64_one] |}.

Definition loop_index : SnapshotIndexDocument :=
  {| ix_version := 1; ix_snapshot_id := 7; ix_process_count := 3; ix_impact_count := 1;
     process_map := (fun i => {| pm_process_id := 100 + i; pm_process_index := i; pm_process_version := "1";
                                 pm_process_name := None; pm_location := None |}) <$> [0; 1; 2];
     impact_map := [{| im_impact_id := 200; im_impact_index := 0; im_impact_version := None;
                       im_impact_key := "gwp"; im_impact_name := "climate"; im_unit := "kg" |}] |}.

Definition loop_solved : SolveResult :=
  {| sr_x := Some (replicate 3 f64_one); sr_g := None; sr_h := Some [f64_of_Z 18]; factorization_state := Ready |}.

Definition loop_analysis : result PathError ContributionPathArtifact :=
  analyze_contribution_path pretty elements "now" 7 8 100 200 0 0 f64_one default_path_options
    loop_index loop_data loop_solved.

Lemma loop_input : analysis_input 0 0 loop_index loop_data (replicate 3 f64_one) [f64_of_Z 18].
Proof.
  split; cbn; [lia..|repeat constructor; cbn; lia|repeat constructor; cbn; lia|repeat constructor; cbn; lia| |].
  - intros p Hp. assert (p = 0 \/ p = 1 \/ p = 2) as [-> | [-> | ->] ] by lia; repeat constructor.
  - repeat constructor.
Qed.

Lemma provider_adjacency_exact_witness :
  build_provider_adjacency loop_data = Ok [[1; 2]; [0]; []]
  /\ exists adjacency, build_provider_adjacency loop_data = Ok adjacency /\ length adjacency = 3%nat.
Proof.
  split; [vm_compute; reflexivity|].
  edestruct (provider_adjacency_exact loop_data 3) as (adjacency & Ha & Hl & _);
    [done|apply loop_input|by exists adjacency].
Defined.

Lemma direct_contributions_reference_witness :
  direct_contributions_of loop_data 0 (replicate 3 f64_one) = Ok (f64_of_Z <$> [3; 9; 6]).
Proof.
  rewrite (direct_contributions_reference loop_data 0 (replicate 3 f64_one)); [vm_compute; reflexivity|..];
    apply loop_input.
Defined.


Lemma analysis_bounded_witness :
  exists a, loop_analysis = Ok a /\ (expanded_node_count (art_summary a) <= 200)%nat
    /\ (length (art_branches a) <= 5 ^ 4)%nat.
Proof.
  eexists. split; [vm_compute; reflexivity|].
  edestruct (analysis_bounded pretty elements "now" 7 8 100 200 0 0 f64_one default_path_options
    loop_index loop_data loop_solved) as (Hn & Hb & _); [vm_compute; reflexivity|].
  split; [exact (proj1 Hn)|exact Hb].
Defined.

Lemma analysis_returns_witness : exists a, loop_analysis = Ok a.
Proof.
  unfold loop_analysis.
  apply (analysis_returns pretty elements "now" 7 8 100 200 0 0 f64_one default_path_options
    loop_index loop_data loop_solved (replicate 3 f64_one) [f64_of_Z 18]); [reflexivity|reflexivity|exact loop_input].
Defined.
