(* ===== verification/Identity.v ===== *)
(** * Exact dataset identities

    The vocabulary of the source-closure preflight (scope_closure.rs): dataset
    categories with their textual aliases, exact identities (category, id,
    version) with the order the sorted collections use, exact versions, and the
    requested-scope manifest with its roots. *)

From S2P Require Import Prelude Text Json DataBuilder.

Local Open Scope string_scope.
Local Open Scope Z_scope.
Local Open Scope list_scope.

(** ** Categories *)

Inductive DatasetCategory :=
| Contacts | Flowproperties | Flows | Lciamethods | Lifecyclemodels | Processes | Sources | Unitgroups.
#[export] Instance DatasetCategory_eq_dec : EqDecision DatasetCategory.
Proof. solve_decision. Defined.

(** The derived [Ord]: declaration order. *)
Definition category_index (c : DatasetCategory) : Z :=
  match c with
  | Contacts => 0 | Flowproperties => 1 | Flows => 2 | Lciamethods => 3
  | Lifecyclemodels => 4 | Processes => 5 | Sources => 6 | Unitgroups => 7
  end.
Definition category_of_index (n : Z) : DatasetCategory :=
  match n with
  | 0 => Contacts | 1 => Flowproperties | 2 => Flows | 3 => Lciamethods
  | 4 => Lifecyclemodels | 5 => Processes | 6 => Sources | _ => Unitgroups
  end.
#[export] Instance DatasetCategory_countable : Countable DatasetCategory.
Proof. by refine (inj_countable' category_index category_of_index _); intros []. Defined.

Definition table_name (c : DatasetCategory) : string :=
  match c with
  | Contacts => "contacts" | Flowproperties => "flowproperties" | Flows => "flows"
  | Lciamethods => "lciamethods" | Lifecyclemodels => "lifecyclemodels" | Processes => "processes"
  | Sources => "sources" | Unitgroups => "unitgroups"
  end.

Definition normalize_reference_type (raw : string) : string :=
  to_ascii_lowercase (String.concat " " (split_whitespace raw)).

Definition one_of (names : list string) (s : string) : bool := bool_decide (s ∈ names).

Definition from_reference_type (raw : string) : option DatasetCategory :=
  let t := normalize_reference_type raw in
  if one_of ["contact"; "contact data set"] t then Some Contacts
  else if one_of ["flow"; "flow data set"] t then Some Flows
  else if one_of ["flow property"; "flow property data set"] t then Some Flowproperties
  else if one_of ["lcia method"; "lcia method data set"] t then Some Lciamethods
  else if one_of ["life cycle model"; "life cycle model data set"; "lifecycle model"; "lifecycle model data set"] t
  then Some Lifecyclemodels
  else if one_of ["process"; "process data set"] t then Some Processes
  else if one_of ["source"; "source data set"] t then Some Sources
  else if one_of ["unit group"; "unit group data set"] t then Some Unitgroups
  else None.

(** One path segment of a URI, in lower case. *)
Definition uri_segment_category (t : string) : option DatasetCategory :=
  if one_of ["contacts"; "contact"] t then Some Contacts
  else if one_of ["flows"; "flow"] t then Some Flows
  else if one_of ["flowproperties"; "flowproperty"; "flow-properties"] t then Some Flowproperties
  else if one_of ["lciamethods"; "lciamethod"; "lcia-methods"] t then Some Lciamethods
  else if one_of ["lifecyclemodels"; "lifecyclemodel"; "life-cycle-models"] t then Some Lifecyclemodels
  else if one_of ["processes"; "process"] t then Some Processes
  else if one_of ["sources"; "source"] t then Some Sources
  else if one_of ["unitgroups"; "unitgroup"; "unit-groups"] t then Some Unitgroups
  else None.

(** [iter.find_map(f)]. *)
Fixpoint first_some {A B} (f : A -> option B) (l : list A) : option B :=
  match l with
  | [] => None
  | a :: l => match f a with Some b => Some b | None => first_some f l end
  end.

Definition from_uri (raw : string) : option DatasetCategory :=
  first_some (fun part => uri_segment_category (to_ascii_lowercase part)) (split_chars ["/"%char; "\"%char] raw).

Definition parse_category (value : string) : result string DatasetCategory :=
  if decide (value = "contacts") then Ok Contacts
  else if decide (value = "flowproperties") then Ok Flowproperties
  else if decide (value = "flows") then Ok Flows
  else if decide (value = "lciamethods") then Ok Lciamethods
  else if decide (value = "lifecyclemodels") then Ok Lifecyclemodels
  else if decide (value = "processes") then Ok Processes
  else if decide (value = "sources") then Ok Sources
  else if decide (value = "unitgroups") then Ok Unitgroups
  else Err ("unsupported closure dataset category: " +:+ value).

Lemma parse_category_table_name c : parse_category (table_name c) = Ok c.
Proof. by destruct c. Qed.

Lemma parse_category_ok s c : parse_category s = Ok c -> s = table_name c.
Proof. unfold parse_category. repeat case_decide; intros E; inv_result; done. Qed.

(** ** Identities *)

Record ExactDatasetIdentity := mk_identity {
  ei_category : DatasetCategory;
  ei_id : Uuid;
  ei_version : string;
}.
#[export] Instance ExactDatasetIdentity_eq_dec : EqDecision ExactDatasetIdentity.
Proof. solve_decision. Defined.
#[export] Instance ExactDatasetIdentity_countable : Countable ExactDatasetIdentity.
Proof.
  by refine (inj_countable' (fun i => (ei_category i, ei_id i, ei_version i))
    (fun t => mk_identity t.1.1 t.1.2 t.2) _); intros [].
Defined.

(** The derived lexicographic order; a [Uuid] compares as its bytes, which is
    the order of the 128-bit number they spell. *)
Definition identity_cmp : ExactDatasetIdentity -> ExactDatasetIdentity -> comparison :=
  cmp_then (cmp_by (fun i => category_index (ei_category i)) Z.compare)
    (cmp_then (cmp_by ei_id Z.compare) (cmp_by ei_version String.compare)).
#[export] Instance identity_cmp_preorder : TotalPreorder identity_cmp.
Proof. unfold identity_cmp. apply _. Qed.

Lemma string_compare_refl s : String.compare s s = Eq.
Proof. pose proof (String.compare_antisym s s) as H. by destruct (String.compare s s). Qed.

Lemma identity_cmp_eq a b : identity_cmp a b = Eq <-> a = b.
Proof.
  destruct a as [c i v], b as [c' i' v']. unfold identity_cmp, cmp_then, cmp_by. simpl. split.
  - destruct (Z.compare_spec (category_index c) (category_index c')) as [Hc| |]; [|done..].
    destruct (Z.compare_spec i i') as [->| |]; [|done..]. intros ->%String.compare_eq_iff.
    destruct c, c'; (done || discriminate Hc).
  - intros [= -> -> ->]. by rewrite !Z.compare_refl, string_compare_refl.
Qed.

(** A [BTreeSet] or the keys of a [BTreeMap], in iteration order. *)
Definition ascending (s : gset ExactDatasetIdentity) : list ExactDatasetIdentity := sort_by identity_cmp (elements s).

(** Third-party text: [Uuid]'s [Display] and [Uuid::parse_str], the
    hexadecimal [Sha256] digest, and [serde_json::to_writer] of a string or a
    scalar. *)
Class ClosureLib := {
  uuid_text : Uuid -> string;
  uuid_parse_str : string -> option Uuid;
  sha256_hex : list ascii -> string;
  json_text : Value -> list ascii;
}.

Definition document_key `{ClosureLib} (i : ExactDatasetIdentity) : string :=
  table_name (ei_category i) +:+ ":" +:+ uuid_text (ei_id i) +:+ ":" +:+ ei_version i.

(** ** Exact versions *)

Definition digits_of_length (n : nat) (piece : list ascii) : bool :=
  (length piece =? n)%nat && forallb is_ascii_digit piece.

Definition version_components (v : string) : list (list ascii) := split_bytes ["."%char] (bytes v).

Definition version_valid (v : string) : bool :=
  match version_components v with
  | [a; b] => digits_of_length 2 a && digits_of_length 2 b
  | [a; b; c] => digits_of_length 2 a && digits_of_length 2 b && digits_of_length 3 c
  | _ => false
  end.

Definition validate_version (v : string) : result string unit :=
  if version_valid v then Ok tt else Err ("invalid exact TIDAS version: " +:+ v).

(** [version.matches('.').count()]. *)
Definition dot_count (v : string) : nat := length (filter (fun c => c = "."%char) (bytes v)).

Definition normalize_exact_version (v : string) : result string string :=
  _ ← validate_version v;
  if (dot_count v =? 1)%nat then Ok (v +:+ ".000") else Ok v.

(** ** The requested scope *)

Record RequestedIdentity := mk_requested { ri_id : Uuid; ri_version : string }.
Record ScopeLinkPolicy := mk_link_policy {
  link_semantics_version : string;
  flow_identity_policy : string;
  allocation_semantics_version : string;
  technosphere_boundary_policy : string;
  provider_universe_policy : string;
}.
Record RequestedScopeManifest := mk_manifest {
  m_schema_version : string;
  coverage_mode : string;
  eligibility_predicate_version : string;
  m_processes : list RequestedIdentity;
  m_lcia_methods : list RequestedIdentity;
  version_resolution_policy : string;
  legacy_omitted_version_policy : string;
  certificate_freshness_policy : string;
  link_policy : ScopeLinkPolicy;
  process_manifest_hash : option string;
}.
#[export] Instance RequestedIdentity_eq_dec : EqDecision RequestedIdentity.
Proof. solve_decision. Defined.
#[export] Instance ScopeLinkPolicy_eq_dec : EqDecision ScopeLinkPolicy.
Proof. solve_decision. Defined.
#[export] Instance RequestedScopeManifest_eq_dec : EqDecision RequestedScopeManifest.
Proof. solve_decision. Defined.

(** [vec.dedup()] keeps the first of each run of equal elements. *)
Fixpoint dedup_runs {A} `{!EqDecision A} (l : list A) : list A :=
  match l with
  | a :: ((b :: _) as rest) => if decide (a = b) then dedup_runs rest else a :: dedup_runs rest
  | _ => l
  end.

Definition manifest_roots (m : RequestedScopeManifest) : list ExactDatasetIdentity :=
  let processes := (fun item => mk_identity Processes (ri_id item) (ri_version item)) <$> m_processes m in
  let methods := (fun item => mk_identity Lciamethods (ri_id item) (ri_version item)) <$> m_lcia_methods m in
  dedup_runs (sort_by identity_cmp (processes ++ methods)).

Definition CERTIFICATE_SCOPE_CLOSURE_BOUNDARY_POLICY : string := "cutoff".
Definition ensure_certificate_scope_closure_boundary_policy (actual : string) : result string unit :=
  if decide (actual = CERTIFICATE_SCOPE_CLOSURE_BOUNDARY_POLICY) then Ok tt
  else Err ("scope_closure_boundary_policy_must_be_cutoff: certificate-grade Scope Closure requires technosphereBoundaryPolicy=cutoff; got "
            +:+ actual).

(** ** Sorted, duplicate-free lists of identities *)

Definition identity_lt (a b : ExactDatasetIdentity) : Prop := identity_cmp a b = Lt.

Lemma cmp_lt_trans {A} (cmp : A -> A -> comparison) `{!TotalPreorder cmp} a b c :
  cmp a b = Lt -> cmp b c = Lt -> cmp a c = Lt.
Proof.
  intros Hab Hbc. assert (not_gt cmp a c = true) as H.
  { apply (cmp_trans a b c); unfold not_gt; by rewrite ?Hab, ?Hbc. }
  unfold not_gt in H. destruct (cmp a c) eqn:E; [|done..].
  destruct (cmp_eq_lt cmp a b c) as [E1 _]; [unfold not_gt; by rewrite ?Hab, ?Hbc..|done|congruence].
Qed.

#[export] Instance identity_lt_trans : Transitive identity_lt.
Proof. intros a b c. apply (cmp_lt_trans identity_cmp). Qed.

Lemma identity_lt_irrefl a : ~ identity_lt a a.
Proof. unfold identity_lt. rewrite (proj2 (identity_cmp_eq a a) eq_refl). done. Qed.

Lemma not_gt_lt_eq a b : not_gt identity_cmp a b = true <-> identity_lt a b \/ a = b.
Proof.
  unfold not_gt, identity_lt. rewrite <- (identity_cmp_eq a b).
  destruct (identity_cmp a b); split; intros; (tauto || done || (by destruct_or!)).
Qed.

Lemma dedup_runs_cons {A} `{!EqDecision A} (a b : A) l :
  dedup_runs (a :: b :: l) = if decide (a = b) then dedup_runs (b :: l) else a :: dedup_runs (b :: l).
Proof. done. Qed.

Lemma elem_of_dedup_runs {A} `{!EqDecision A} (x : A) l : x ∈ dedup_runs l <-> x ∈ l.
Proof.
  induction l as [|a [|b l] IH]; [done..|]. rewrite dedup_runs_cons. case_decide as Hab.
  - subst. rewrite IH, !elem_of_cons. tauto.
  - by rewrite elem_of_cons, IH, (elem_of_cons (b :: l)).
Qed.

Lemma dedup_runs_lt l :
  StronglySorted (fun a b => not_gt identity_cmp a b = true) l -> StronglySorted identity_lt (dedup_runs l).
Proof.
  induction l as [|a [|b l] IH]; intros Hs.
  - constructor.
  - repeat constructor.
  - rewrite dedup_runs_cons. apply StronglySorted_inv in Hs as [Hs Ha]. case_decide as Hab; [by apply IH|].
    constructor; [by apply IH|]. apply Forall_forall. intros x Hx.
    rewrite elem_of_dedup_runs in Hx. inversion_clear Ha as [|? ? Hb Hl].
    apply not_gt_lt_eq in Hb as [Hb|]; [|done]. apply elem_of_cons in Hx as [->|Hx]; [done|].
    apply StronglySorted_inv in Hs as [_ Hs]. rewrite Forall_forall in Hs. specialize (Hs x Hx).
    apply not_gt_lt_eq in Hs as [Hs| ->]; [|done]. by transitivity b.
Qed.

Lemma lt_sorted_NoDup l : StronglySorted identity_lt l -> NoDup l.
Proof.
  induction 1 as [|a l Hs IH Ha]; constructor; [|done]. intros Hin.
  rewrite Forall_forall in Ha. exact (identity_lt_irrefl a (Ha a Hin)).
Qed.

Lemma ascending_sorted s : StronglySorted identity_lt (ascending s).
Proof.
  unfold ascending. pose proof (sort_by_sorted' identity_cmp (elements s)) as Hs.
  assert (NoDup (sort_by identity_cmp (elements s))) as Hnd
    by (rewrite sort_by_perm; apply NoDup_elements).
  induction Hs as [|a l Hs IH Ha]; constructor; apply NoDup_cons in Hnd as [Hni Hnd]; [by apply IH|].
  rewrite Forall_forall in *. intros x Hx. specialize (Ha x Hx).
  apply not_gt_lt_eq in Ha as [|<-]; done.
Qed.

Lemma elem_of_ascending x s : x ∈ ascending s <-> x ∈ s.
Proof. unfold ascending. by rewrite sort_by_perm, elem_of_elements. Qed.

(** Two strictly ascending lists with the same members are equal. *)
Lemma lt_sorted_ext l1 l2 :
  StronglySorted identity_lt l1 -> StronglySorted identity_lt l2 -> (forall x, x ∈ l1 <-> x ∈ l2) -> l1 = l2.
Proof.
  intros H1 H2 Hx. eapply (sorted_unique identity_lt); [|exact H1|exact H2|].
  - intros a b _ _ Hab Hba. destruct (identity_lt_irrefl a). by transitivity b.
  - apply NoDup_Permutation; [by apply lt_sorted_NoDup..|done].
Qed.

Lemma manifest_roots_sorted m : StronglySorted identity_lt (manifest_roots m).
Proof. apply dedup_runs_lt, sort_by_sorted', _. Qed.

(** ** What exact versions denote *)

Definition digits_number (l : list ascii) : Z :=
  foldl (fun n c => 10 * n + (Z.of_nat (nat_of_ascii c) - 48)) 0 l.

(** The three numbers a version spells; a missing patch number is zero. *)
Definition version_numbers (v : string) : Z * Z * Z :=
  match version_components v with
  | [a; b] => (digits_number a, digits_number b, 0)
  | [a; b; c] => (digits_number a, digits_number b, digits_number c)
  | _ => (0, 0, 0)
  end.
Definition numbers_cmp : Z * Z * Z -> Z * Z * Z -> comparison :=
  cmp_then (cmp_by (fun t => t.1.1) Z.compare) (cmp_then (cmp_by (fun t => t.1.2) Z.compare) (cmp_by snd Z.compare)).

Lemma compare_app a b x y : String.length a = String.length b ->
  String.compare (a +:+ x) (b +:+ y) = match String.compare a b with Eq => String.compare x y | c => c end.
Proof.
  revert b. induction a as [|c a IH]; intros [|d b]; simpl; try done.
  intros [= Hl]. destruct (Ascii.compare c d); [by apply IH|done..].
Qed.

Lemma digit_bounds c : is_ascii_digit c = true -> 0 <= Z.of_nat (nat_of_ascii c) - 48 <= 9.
Proof. unfold is_ascii_digit. intros [H1%Nat.leb_le H2%Nat.leb_le]%andb_true_iff. lia. Qed.

Lemma digits_fold_lt a b n m :
  length a = length b -> forallb is_ascii_digit a = true -> forallb is_ascii_digit b = true -> n < m ->
  foldl (fun n c => 10 * n + (Z.of_nat (nat_of_ascii c) - 48)) n a
  < foldl (fun n c => 10 * n + (Z.of_nat (nat_of_ascii c) - 48)) m b.
Proof.
  revert b n m. induction a as [|c a IH]; intros [|d b] n m; simpl; try done.
  intros [= Hl] [Hc Ha]%andb_true_iff [Hd Hb]%andb_true_iff Hnm.
  apply IH; [done..|]. apply digit_bounds in Hc, Hd. lia.
Qed.

(** Digit strings of one length compare as the numbers they spell. *)
Lemma compare_digits a b :
  length a = length b -> forallb is_ascii_digit a = true -> forallb is_ascii_digit b = true ->
  String.compare (of_bytes a) (of_bytes b) = (digits_number a ?= digits_number b).
Proof.
  unfold digits_number. generalize 0 as n. revert b.
  induction a as [|c a IH]; intros [|d b] n; simpl; try done; [intros _ _ _; by rewrite Z.compare_refl|].
  intros [= Hl] [Hc Ha]%andb_true_iff [Hd Hb]%andb_true_iff.
  unfold Ascii.compare. apply digit_bounds in Hc, Hd. unfold nat_of_ascii in *.
  destruct (N.compare_spec (N_of_ascii c) (N_of_ascii d)) as [E|Hlt|Hgt].
  - rewrite E. by apply IH.
  - symmetry. apply Z.compare_lt_iff. apply digits_fold_lt; [done..|]. unfold nat_of_ascii. lia.
  - symmetry. apply Z.compare_gt_iff. apply digits_fold_lt; [done..|]. unfold nat_of_ascii. lia.
Qed.

(** The shape of a full version: two, two and three digits. *)
Lemma full_version v : version_valid v = true -> length (version_components v) = 3%nat ->
  exists a b c, version_components v = [a; b; c]
    /\ (digits_of_length 2 a = true /\ digits_of_length 2 b = true /\ digits_of_length 3 c = true)
    /\ v = of_bytes a +:+ "." +:+ of_bytes b +:+ "." +:+ of_bytes c.
Proof.
  unfold version_valid. destruct (split_bytes_join "."%char (bytes v)) as (a & rest & E & Hv).
  unfold version_components in *. rewrite E. destruct rest as [|b [|c [|]]]; try done. intros Hd _.
  exists a, b, c. bool_hyps. split_and!; [done..|]. apply bytes_inj.
  rewrite Hv, !bytes_app, !bytes_of_bytes. simpl. by rewrite app_nil_r.
Qed.

Lemma version_order_full v w :
  version_valid v = true -> length (version_components v) = 3%nat ->
  version_valid w = true -> length (version_components w) = 3%nat ->
  String.compare v w = numbers_cmp (version_numbers v) (version_numbers w).
Proof.
  intros Hv Hlv Hw Hlw. destruct (full_version v Hv Hlv) as (a & b & c & Ev & (Ha & Hb & Hc) & Hv').
  destruct (full_version w Hw Hlw) as (a' & b' & c' & Ew & (Ha' & Hb' & Hc') & Hw').
  unfold version_numbers. rewrite Ev, Ew, Hv', Hw'. unfold digits_of_length in *. bool_hyps.
  repeat match goal with H : (_ =? _)%nat = true |- _ => apply Nat.eqb_eq in H end.
  assert (forall l, String.length (of_bytes l) = length l) as Hlen by (intros; by rewrite <- bytes_length, bytes_of_bytes).
  rewrite compare_app by (rewrite !Hlen; congruence). rewrite compare_digits by (done || congruence).
  unfold numbers_cmp, cmp_then, cmp_by. cbn [fst snd]. destruct (_ ?= _); [|done..].
  rewrite (compare_app "." ".") by done. change (String.compare "." ".") with Eq. cbn match.
  rewrite compare_app by (rewrite !Hlen; congruence). rewrite compare_digits by (done || congruence).
  destruct (_ ?= _); [|done..].
  rewrite (compare_app "." ".") by done. change (String.compare "." ".") with Eq. cbn match. by rewrite compare_digits by (done || congruence).
Qed.

Lemma dots_of_join (rest : list (list ascii)) (p : list ascii) :
  "."%char ∉ p -> Forall (fun q => "."%char ∉ q) rest ->
  length (filter (fun c => c = "."%char) (p ++ mjoin ((fun q => "."%char :: q) <$> rest))) = length rest.
Proof.
  intros Hp Hrest. rewrite filter_app, length_app, (filter_none _ p) by (apply Forall_forall; intros x Hx ->; done). simpl.
  induction Hrest as [|q rest Hq _ IH]; simpl; [done|]. f_equal.
  rewrite filter_app, length_app, (filter_none _ q) by (apply Forall_forall; intros x Hx ->; done). exact IH.
Qed.

Lemma dot_count_components v : dot_count v = (length (version_components v) - 1)%nat.
Proof.
  unfold dot_count, version_components. destruct (split_bytes_single "."%char (bytes v)) as [_ Hf].
  destruct (split_bytes_join "."%char (bytes v)) as (p & rest & E & Hv). rewrite E in *. rewrite Hv.
  inversion_clear Hf. rewrite dots_of_join by done. simpl. lia.
Qed.

Lemma split_bytes_glue c l r : split_bytes [c] (l ++ c :: r) = split_bytes [c] l ++ split_bytes [c] r.
Proof.
  induction l as [|d l IH]; simpl; rewrite orb_false_r.
  - by rewrite Ascii.eqb_refl.
  - rewrite IH. destruct (Ascii.eqb_spec c d); [done|].
    destruct (split_bytes [c] l) eqn:E; [|done]. by destruct (split_bytes_single c l).
Qed.

Lemma components_app v w : version_components (v +:+ "." +:+ w) = version_components v ++ version_components w.
Proof. unfold version_components. rewrite !bytes_app. apply split_bytes_glue. Qed.

Lemma normalize_exact_version_ok v n : normalize_exact_version v = Ok n ->
  version_valid n = true /\ length (version_components n) = 3%nat /\ version_numbers n = version_numbers v
  /\ normalize_exact_version n = Ok n.
Proof.
  assert (forall n, version_valid n = true -> length (version_components n) = 3%nat -> normalize_exact_version n = Ok n) as Hid.
  { intros m Hm Hl. unfold normalize_exact_version, validate_version. by rewrite Hm, dot_count_components, Hl. }
  unfold normalize_exact_version at 1, validate_version. destruct (version_valid v) eqn:Hv; [|done].
  cbn [mbind result_bind]. rewrite dot_count_components. unfold version_valid in Hv.
  assert (version_components (v +:+ ".000") = version_components v ++ [bytes "000"]) as Ha by apply (components_app v "000").
  destruct (version_components v) as [|a [|b [|c [|]]]] eqn:E; try done; simpl; intros [= <-].
  - assert (version_valid (v +:+ ".000") = true) as Hvv.
    { unfold version_valid. rewrite Ha. simpl. bool_hyps. rewrite H, H0. done. }
    split_and!; [done|by rewrite Ha| |apply Hid; [done|by rewrite Ha]].
    unfold version_numbers. rewrite Ha, E. done.
  - assert (version_valid v = true) as Hvv by (unfold version_valid; by rewrite E).
    split_and!; [done|by rewrite E|done|apply Hid; [done|by rewrite E]].
Qed.

(** Exact versions compare as numbers.  Once two references are normalised
    to full versions ([NN.NN] becomes [NN.NN.000]), the byte-wise string order
    the closure sorts and picks the latest version by is the order of the
    (major, minor, patch) numbers, and normalising changes neither the numbers
    nor, a second time, the text. *)
Theorem normalized_version_order v w nv nw :
  normalize_exact_version v = Ok nv -> normalize_exact_version w = Ok nw ->
  String.compare nv nw = numbers_cmp (version_numbers v) (version_numbers w)
  /\ normalize_exact_version nv = Ok nv.
Proof.
  intros (Hv & Hlv & Ev & Hid)%normalize_exact_version_ok (Hw & Hlw & Ew & _)%normalize_exact_version_ok.
  rewrite <- Ev, <- Ew. split; [by apply version_order_full|done].
Qed.

Lemma normalized_version_order_witness :
  normalize_exact_version "01.09" = Ok "01.09.000" /\ normalize_exact_version "01.10.003" = Ok "01.10.003"
  /\ String.compare "01.09.000" "01.10.003" = Lt.
Proof.
  split_and!; [by vm_compute..|].
  rewrite (proj1 (normalized_version_order "01.09" "01.10.003" "01.09.000" "01.10.003" ltac:(by vm_compute) ltac:(by vm_compute))).
  by vm_compute.
Defined.
