(* ===== verification/References.v ===== *)
(** * Reference extraction and the reference policy

    The walk over a dataset document that finds the references to other
    datasets (scope_closure.rs) and the shared policy that gives each reference
    its role and the action a consumer takes on it (source_reference_policy.rs). *)

From S2P Require Import Prelude Text Json DataBuilder Identity.
From stdpp Require Import pretty.

Local Open Scope string_scope.
Local Open Scope Z_scope.
Local Open Scope list_scope.

(** [json!({..})]: the keys of an object are kept in ascending order. *)
Definition json_object (entries : list (string * Value)) : Value :=
  JObject (sort_by (cmp_by fst String.compare) entries).
Definition json_opt (v : option Value) : Value := default JNull v.

(** ** The shared reference policy *)

Inductive ArtifactPurpose := ReviewSubmit | CalculationBundle | CertificateClosure.
Inductive SourceReferenceRole :=
| ExchangeFlow | ProviderProcess | RequiredSupport | AdministrativeSupport | LineageReference | ModelComposition.
#[export] Instance SourceReferenceRole_eq_dec : EqDecision SourceReferenceRole.
Proof. solve_decision. Defined.
Inductive SourceReferenceAction :=
| ValidateExchangeAxis | ValidateProviderInvariant | FetchRequiredSupport | FetchOptionalSupport
| RecordEvidence | TraverseAdministrative.

Definition role_as_str (r : SourceReferenceRole) : string :=
  match r with
  | ExchangeFlow => "exchange_flow" | ProviderProcess => "provider_process"
  | RequiredSupport => "required_support" | AdministrativeSupport => "administrative_support"
  | LineageReference => "lineage" | ModelComposition => "model_composition"
  end.

Definition SOURCE_REFERENCE_POLICY_VERSION : string := "source-reference-policy.v4".
Record ClassifiedSourceReference := mk_classified {
  cl_policy_version : string;
  cl_role : SourceReferenceRole;
  cl_action : SourceReferenceAction;
}.

Inductive SourceReferencePolicyError :=
| UnknownFlowOrProcessPath (source_category target_category json_path : string).

Definition is_lineage_path (path : string) : bool :=
  contains_str "referencetoprecedingdatasetversion" path
  || contains_str "referencetoreplaceddataset" path
  || contains_str "referencetooriginaldataset" path.

Definition is_model_composition_path (source path : string) : bool :=
  contains_str "referencetoincludedprocesses" path
  || contains_str "referencetoincludedprocess" path
  || (bool_decide (source = "lifecyclemodels") && contains_str "referenceto" path).

Definition administrative_suffixes : list string :=
  [ "referencetocommissioner"; "referencetocompliancesystem"; "referencetocontact";
    "referencetoconvertedoriginaldatasetfrom"; "referencetodatahandlingprinciples";
    "referencetodatasetformat"; "referencetodatasetuseapproval"; "referencetodatasource";
    "referencetoentitieswithexclusiveaccess"; "referencetolcamethoddetails"; "referencetologo";
    "referencetoownershipofdataset"; "referencetopersonorentityenteringthedata";
    "referencetopersonorentitygeneratingthedataset"; "referencetoregistrationauthority";
    "referencetotechnologyflowdiagrammorpicture"; "referencetotechnologypictogramme";
    "referencetounchangedrepublication" ].
Definition is_administrative_support_path (path : string) : bool :=
  existsb (fun suffix => ends_with suffix path) administrative_suffixes.

Definition is_provider_path (path : string) : bool :=
  contains_str "provider" path || contains_str "referenceprocess" path.
Definition is_exchange_flow_path (path : string) : bool :=
  contains_str "exchange" path && ends_with "referencetoflowdataset" path.

Definition classify_role_parts (source target json_path : string)
    : result SourceReferencePolicyError SourceReferenceRole :=
  let path := to_ascii_lowercase json_path in
  if bool_decide (source = "processes") && bool_decide (target = "flows") && is_exchange_flow_path path
  then Ok ExchangeFlow
  else if bool_decide (source = "lciamethods") && bool_decide (target = "flows")
          && (contains_str "characterisation" path || contains_str "characterization" path)
  then Ok RequiredSupport
  else if is_lineage_path path then Ok LineageReference
  else if is_model_composition_path source path
          || (bool_decide (source = "lifecyclemodels") && bool_decide (target = "processes"))
  then Ok ModelComposition
  else if is_administrative_support_path path then Ok AdministrativeSupport
  else if bool_decide (source = "processes") && bool_decide (target = "processes") && is_provider_path path
  then Ok ProviderProcess
  else if one_of ["contacts"; "flowproperties"; "lciamethods"; "sources"; "unitgroups"] target
  then Ok RequiredSupport
  else if one_of ["flows"; "processes"] target
  then Err (UnknownFlowOrProcessPath source target json_path)
  else Ok RequiredSupport.

Definition classify_malformed_reference_role (source json_path : string) : option SourceReferenceRole :=
  let path := to_ascii_lowercase json_path in
  if is_lineage_path path then Some LineageReference
  else if is_model_composition_path source path then Some ModelComposition
  else if is_administrative_support_path path then Some AdministrativeSupport
  else if bool_decide (source = "processes") && is_exchange_flow_path path then Some ExchangeFlow
  else if bool_decide (source = "processes") && is_provider_path path then Some ProviderProcess
  else None.

(** ** Edges and issues *)

Record ReferenceEdge := mk_edge {
  re_schema_version : string;
  re_document_key : string;
  re_source_category : string;
  re_target_category : string;
  re_target_uuid : string;
  re_version_state : string;
  re_requested_version : option string;
  re_version_raw : Value;
  re_role : string;
  re_json_path : string;
  re_raw_type : Value;
  re_uri : Value;
}.
Record ReferenceExtractionIssue := mk_extraction_issue {
  ri_schema_version : string;
  ri_issue_code : string;
  ri_severity : string;
  ri_document_key : string;
  ri_source_category : string;
  ri_json_path : string;
  ri_role : string;
  ri_message : string;
  ri_details : Value;
}.
Record ReferenceExtractionResult := mk_extraction {
  rx_schema_version : string;
  rx_document_key : string;
  rx_source_category : string;
  rx_edges : list ReferenceEdge;
  rx_issues : list ReferenceExtractionIssue;
}.

Definition classify_role (edge : ReferenceEdge) : result SourceReferencePolicyError SourceReferenceRole :=
  classify_role_parts (re_source_category edge) (re_target_category edge) (re_json_path edge).

Definition reference_action (purpose : ArtifactPurpose) (role : SourceReferenceRole) : SourceReferenceAction :=
  match purpose, role with
  | CertificateClosure, _ => TraverseAdministrative
  | _, ExchangeFlow => ValidateExchangeAxis
  | _, ProviderProcess => ValidateProviderInvariant
  | _, RequiredSupport => FetchRequiredSupport
  | _, AdministrativeSupport => FetchOptionalSupport
  | _, (LineageReference | ModelComposition) => RecordEvidence
  end.

Definition classify_reference (edge : ReferenceEdge) (purpose : ArtifactPurpose)
    : result SourceReferencePolicyError ClassifiedSourceReference :=
  role ← classify_role edge;
  Ok (mk_classified SOURCE_REFERENCE_POLICY_VERSION role (reference_action purpose role)).

Definition push_edge (edge : ReferenceEdge) (r : ReferenceExtractionResult) : ReferenceExtractionResult :=
  mk_extraction (rx_schema_version r) (rx_document_key r) (rx_source_category r) (rx_edges r ++ [edge]) (rx_issues r).
Definition push_issue (issue : ReferenceExtractionIssue) (r : ReferenceExtractionResult) : ReferenceExtractionResult :=
  mk_extraction (rx_schema_version r) (rx_document_key r) (rx_source_category r) (rx_edges r) (rx_issues r ++ [issue]).

Definition REFERENCE_EDGE_SCHEMA_VERSION : string := "tidas.reference-edge.v1".
Definition REFERENCE_ISSUE_SCHEMA_VERSION : string := "tidas.reference-extraction-issue.v1".

Definition reference_issue (r : ReferenceExtractionResult) (code path role message : string) (details : Value)
    : ReferenceExtractionIssue :=
  mk_extraction_issue REFERENCE_ISSUE_SCHEMA_VERSION code "error" (rx_document_key r) (rx_source_category r)
    path role message details.

(** ** The walk *)

Definition reference_role (source_category : DatasetCategory) (path : string) (parent_key : option string)
    (target_category : option DatasetCategory) : string :=
  let normalized_path := to_ascii_lowercase path in
  let normalized_key := to_ascii_lowercase (default "" parent_key) in
  if bool_decide (source_category = Processes) && bool_decide (target_category = Some Flows)
     && contains_str "exchange" normalized_path && bool_decide (normalized_key = "referencetoflowdataset")
  then "process_exchange_flow"
  else if bool_decide (source_category = Lciamethods) && bool_decide (target_category = Some Flows)
          && (contains_str "characterisation" normalized_path || contains_str "characterization" normalized_path)
  then "lcia_factor_flow"
  else if bool_decide (source_category = Lifecyclemodels) && bool_decide (target_category = Some Processes)
  then "lifecycle_model_process"
  else "support_document".

Definition contains_key (key : string) (object : Value) : bool := bool_decide (is_Some (get key object)).

Definition looks_like_reference (object : Value) (parent_key : option string) : bool :=
  contains_key "@refObjectId" object || contains_key "@uri" object
  || match parent_key with
     | Some key => contains_str "referenceto" (to_ascii_lowercase key)
     | None => false
     end.

Definition source_digital_file_path : string :=
  "$.sourceDataSet.sourceInformation.dataSetInformation.referenceToDigitalFile".
Definition process_lcia_results_path : string := "$.processDataSet.LCIAResults".

(** The two subtrees the walk does not enter. *)
Definition skipped (source_category : DatasetCategory) (include_lcia : bool) (path : string) : bool :=
  (bool_decide (source_category = Sources) && eq_ignore_ascii_case path source_digital_file_path)
  || (negb include_lcia && bool_decide (source_category = Processes)
      && eq_ignore_ascii_case path process_lcia_results_path).

(** [for (index, item) in items.iter().enumerate()]. *)
Definition foldl_from {A R} (f : nat -> R -> A -> R) : nat -> R -> list A -> R :=
  fix go k r l := match l with [] => r | a :: l => go (S k) (f k r a) l end.

(** The type of the target: from [@type], else from [@uri]. *)
Definition reference_target (raw_type uri : Value) : option DatasetCategory :=
  match as_str raw_type ≫= from_reference_type with
  | Some c => Some c
  | None => as_str uri ≫= from_uri
  end.

Section Extract.
Context `{ClosureLib}.

(** The requested version: its state, its text and whether it is malformed. *)
Definition requested_version (raw_version : Value) : string * option string * bool :=
  match raw_version with
  | JNull => ("omitted", None, false)
  | JString v => if version_valid v then ("explicit", Some v, false) else ("invalid", Some v, true)
  | value => ("invalid", as_str value, true)
  end.

Definition uuid_malformed (raw_id : string) : bool :=
  bool_decide (uuid_parse_str raw_id = None) || bool_decide (to_ascii_lowercase raw_id <> raw_id).

Definition extract_reference (object : Value) (path : string) (parent_key : option string)
    (source_category : DatasetCategory) (r : ReferenceExtractionResult) : ReferenceExtractionResult :=
  let raw_type := json_opt (get "@type" object) in
  let uri := json_opt (get "@uri" object) in
  let target_category := reference_target raw_type uri in
  let role := reference_role source_category path parent_key target_category in
  let r :=
    match target_category with
    | None =>
        push_issue (reference_issue r "reference_type_unresolved" path role
          "Reference target type cannot be resolved from @type or @uri."
          (json_object [("raw_type", raw_type); ("uri", uri)])) r
    | Some _ => r
    end in
  match trimmed_text (get "@refObjectId" object) with
  | None =>
      push_issue (reference_issue r "reference_object_id_missing" path role
        "Recognized reference is missing a non-empty @refObjectId."
        (json_object [("raw_ref_object_id", json_opt (get "@refObjectId" object)); ("raw_type", raw_type); ("uri", uri)])) r
  | Some raw_id =>
      let r :=
        if uuid_malformed raw_id then
          push_issue (reference_issue r "reference_uuid_invalid" path role
            "Reference @refObjectId is not a canonical lowercase UUID."
            (json_object [("raw_ref_object_id", JString raw_id)])) r
        else r in
      let raw_version := json_opt (get "@version" object) in
      let '(state, requested, malformed) := requested_version raw_version in
      let r :=
        if malformed : bool then
          push_issue (reference_issue r "reference_version_invalid" path role
            "Reference @version must match NN.NN or NN.NN.NNN."
            (json_object [("requested_version_raw", raw_version)])) r
        else r in
      match target_category with
      | Some target =>
          push_edge (mk_edge REFERENCE_EDGE_SCHEMA_VERSION (rx_document_key r) (table_name source_category)
            (table_name target) raw_id state requested raw_version role path raw_type uri) r
      | None => r
      end
  end.

Fixpoint walk_references (node : Value) (path : string) (parent_key : option string)
    (source_category : DatasetCategory) (include_lcia : bool) (r : ReferenceExtractionResult)
    : ReferenceExtractionResult :=
  if skipped source_category include_lcia path then r
  else match node with
  | JObject entries =>
      let r := if looks_like_reference node parent_key
               then extract_reference node path parent_key source_category r else r in
      foldl (fun r kv => walk_references kv.2 (path +:+ "." +:+ kv.1) (Some kv.1) source_category include_lcia r) r entries
  | JArray items =>
      foldl_from (fun index r item =>
        walk_references item (path +:+ "[" +:+ pretty index +:+ "]") parent_key source_category include_lcia r) O r items
  | _ => r
  end.

Definition extract_references_with_profile (document_key : string) (category : DatasetCategory) (payload : Value)
    (include_lcia : bool) : ReferenceExtractionResult :=
  walk_references payload "$" None category include_lcia
    (mk_extraction "tidas.reference-extraction-result.v1" document_key (table_name category) [] []).
Definition extract_references (document_key : string) (category : DatasetCategory) (payload : Value)
    : ReferenceExtractionResult :=
  extract_references_with_profile document_key category payload true.
Definition extract_scope_closure_references (document_key : string) (category : DatasetCategory) (payload : Value)
    : ReferenceExtractionResult :=
  extract_references_with_profile document_key category payload false.
End Extract.

(** ** The references of a document *)

Section ValueInduction.
Context (P : Value -> Prop) (HNull : P JNull) (HBool : forall b, P (JBool b)) (HNumber : forall n, P (JNumber n))
  (HString : forall s, P (JString s)) (HArray : forall items, Forall P items -> P (JArray items))
  (HObject : forall entries, Forall (fun kv => P kv.2) entries -> P (JObject entries)).

Fixpoint value_induction (v : Value) : P v :=
  match v with
  | JNull => HNull
  | JBool b => HBool b
  | JNumber n => HNumber n
  | JString s => HString s
  | JArray items =>
      HArray items ((fix go (items : list Value) : Forall P items :=
        match items with
        | [] => Forall_nil_2 _
        | item :: rest => Forall_cons_2 _ item rest (value_induction item) (go rest)
        end) items)
  | JObject entries =>
      HObject entries ((fix go (entries : list (string * Value)) : Forall (fun kv => P kv.2) entries :=
        match entries with
        | [] => Forall_nil_2 _
        | kv :: rest => Forall_cons_2 _ kv rest (value_induction kv.2) (go rest)
        end) entries)
  end.
End ValueInduction.

Definition flat_map_from {A B} (f : nat -> A -> list B) : nat -> list A -> list B :=
  fix go k l := match l with [] => [] | a :: l => f k a ++ go (S k) l end.

Lemma elem_of_flat_map_from {A B} (f : nat -> A -> list B) l b :
  b ∈ flat_map_from f O l <-> exists i a, l !! i = Some a /\ b ∈ f i a.
Proof.
  enough (forall k, b ∈ flat_map_from f k l <-> exists i a, l !! i = Some a /\ b ∈ f (k + i)%nat a) as Hk by exact (Hk O).
  induction l as [|a l IH]; intros k; simpl.
  - split; [by intros ?%elem_of_nil|]. intros (i & x & Hx & _). by rewrite lookup_nil in Hx.
  - rewrite elem_of_app, IH. split.
    + intros [Hb|(i & x & Hx & Hb)]; [exists O, a; by rewrite Nat.add_0_r|]. exists (S i), x. by rewrite Nat.add_succ_r.
    + intros ([|i] & x & Hx & Hb); [left; injection Hx as ->; by rewrite Nat.add_0_r in Hb|].
      right. exists i, x. by rewrite Nat.add_succ_r in Hb.
Qed.

Lemma elem_of_flat_map {A B} (f : A -> list B) l b : b ∈ flat_map f l <-> exists a, a ∈ l /\ b ∈ f a.
Proof.
  rewrite list_elem_of_In, in_flat_map. split; intros (a & Ha & Hb); exists a;
    (split; [by apply list_elem_of_In|by apply list_elem_of_In]).
Qed.

(** A place of the document the walk enters: the node, its path and the key it
    hangs under (an element of an array keeps the key of the array). *)
Record Site := mk_site { s_node : Value; s_path : string; s_parent : option string }.

Section Sites.
Context (source_category : DatasetCategory) (include_lcia : bool).
Local Abbreviation skips := (skipped source_category include_lcia).

Inductive enters : Site -> Site -> Prop :=
| enters_here s : skips (s_path s) = false -> enters s s
| enters_key entries path parent key value t :
    skips path = false -> (key, value) ∈ entries ->
    enters (mk_site value (path +:+ "." +:+ key) (Some key)) t ->
    enters (mk_site (JObject entries) path parent) t
| enters_item items path parent index item t :
    skips path = false -> items !! index = Some item ->
    enters (mk_site item (path +:+ "[" +:+ pretty index +:+ "]") parent) t ->
    enters (mk_site (JArray items) path parent) t.

Definition is_reference (s : Site) : Prop :=
  (exists entries, s_node s = JObject entries) /\ looks_like_reference (s_node s) (s_parent s) = true.

(** The references in the order the walk meets them. *)
Fixpoint sites (node : Value) (path : string) (parent : option string) : list Site :=
  if skips path then []
  else match node with
  | JObject entries =>
      (if looks_like_reference node parent then [mk_site node path parent] else [])
      ++ flat_map (fun kv => sites kv.2 (path +:+ "." +:+ kv.1) (Some kv.1)) entries
  | JArray items =>
      flat_map_from (fun index item => sites item (path +:+ "[" +:+ pretty index +:+ "]") parent) O items
  | _ => []
  end.

Lemma elem_of_sites node path parent t :
  t ∈ sites node path parent <-> enters (mk_site node path parent) t /\ is_reference t.
Proof.
  revert path parent t. induction node as [|b|n|s|items IH|entries IH] using value_induction; intros path parent t; simpl.
  all: destruct (skips path) eqn:Hs;
    [split; [by intros ?%elem_of_nil|]; intros [He _]; inversion He; simpl in *; congruence|].
  1-4: split; [by intros ?%elem_of_nil|]; intros [He [[es Hn] _]]; inversion He; subst; discriminate.
  - rewrite elem_of_flat_map_from. rewrite Forall_lookup in IH. split.
    + intros (i & x & Hx & Ht). apply (IH i x Hx) in Ht as [He Hr]. split; [by eapply enters_item|done].
    + intros [He Hr]. inversion He as [s Hn E1 E2| |? ? ? i x ? ? Hx]; subst; [by destruct Hr as [[es Hes] _]|].
      exists i, x. split; [done|]. by apply (IH i x Hx).
  - rewrite elem_of_app, elem_of_flat_map. rewrite Forall_forall in IH. split.
    + intros [Hl|([k v] & Hx & Ht)].
      * destruct (looks_like_reference (JObject entries) parent) eqn:El; [|by apply elem_of_nil in Hl].
        apply list_elem_of_singleton in Hl as ->. split; [by apply enters_here|]. split; [by exists entries|done].
      * apply (IH _ Hx) in Ht as [He Hr]. split; [by eapply enters_key|done].
    + intros [He Hr]. inversion He as [s Hn E1 E2|? ? ? k v ? ? Hx|]; subst.
      * left. destruct Hr as [_ Hl]. simpl in Hl. rewrite Hl. apply list_elem_of_here.
      * right. exists (k, v). split; [done|]. by apply (IH _ Hx).
Qed.
End Sites.

Section ExtractLemmas.
Context `{ClosureLib}.
Implicit Types (r : ReferenceExtractionResult).

Definition extract_site (category : DatasetCategory) (r : ReferenceExtractionResult) (s : Site)
    : ReferenceExtractionResult :=
  extract_reference (s_node s) (s_path s) (s_parent s) category r.

Lemma foldl_from_sites (category : DatasetCategory) (g : nat -> ReferenceExtractionResult -> Value -> ReferenceExtractionResult)
    (f : nat -> Value -> list Site) items k r :
  Forall (fun x => forall k r, g k r x = foldl (extract_site category) r (f k x)) items ->
  foldl_from g k r items = foldl (extract_site category) r (flat_map_from f k items).
Proof.
  intros Hf. revert k r. induction Hf as [|x l Hx _ IH]; intros k r; simpl; [done|].
  by rewrite foldl_app, <- Hx, IH.
Qed.

(** The walk is the extraction of its references, in order. *)
Lemma walk_references_sites category include_lcia node path parent r :
  walk_references node path parent category include_lcia r
  = foldl (extract_site category) r (sites category include_lcia node path parent).
Proof.
  revert path parent r. induction node as [|b|n|s|items IH|entries IH] using value_induction; intros path parent r; simpl.
  all: destruct (skipped category include_lcia path); try done.
  - apply foldl_from_sites. eapply Forall_impl; [exact IH|]. intros x Hx k r'. apply Hx.
  - rewrite foldl_app. set (r1 := foldl _ r _).
    assert (r1 = if looks_like_reference (JObject entries) parent
                 then extract_reference (JObject entries) path parent category r else r) as <-
      by (subst r1; by destruct (looks_like_reference _ _)).
    generalize r1. induction IH as [|kv l Hx _ IH]; intros r2; simpl; [done|]. by rewrite foldl_app, <- Hx, IH.
Qed.

(** What the extraction of one reference appends: at most one edge, and only
    issues and edges at its own path, at least one of them. *)
Definition edge_wf (category : DatasetCategory) (e : ReferenceEdge) : Prop :=
  re_source_category e = table_name category
  /\ (exists target, re_target_category e = table_name target)
  /\ re_target_uuid e <> ""
  /\ ((re_version_state e = "explicit" /\ exists v, re_requested_version e = Some v /\ version_valid v = true)
      \/ (re_version_state e = "omitted" /\ re_requested_version e = None)
      \/ re_version_state e = "invalid").

Lemma requested_version_state raw :
  (exists v, requested_version raw = ("explicit", Some v, false) /\ version_valid v = true)
  \/ requested_version raw = ("omitted", None, false)
  \/ exists o, requested_version raw = ("invalid", o, true).
Proof.
  destruct raw; simpl; eauto. destruct (version_valid s) eqn:E; eauto.
Qed.

(** [r'] is [r] with more edges and issues, all at [path]. *)
Definition extends (category : DatasetCategory) (path : string) (r r' : ReferenceExtractionResult) : Prop :=
  exists es issues,
    (rx_edges r' = rx_edges r ++ es /\ rx_issues r' = rx_issues r ++ issues)
    /\ Forall (fun e => re_json_path e = path /\ edge_wf category e) es
    /\ Forall (fun i => ri_json_path i = path /\ ri_severity i = "error") issues.
Definition recorded (r : ReferenceExtractionResult) : nat := (length (rx_edges r) + length (rx_issues r))%nat.

Lemma extends_refl category path r : extends category path r r.
Proof. exists [], []. rewrite !app_nil_r. by repeat constructor. Qed.
Lemma extends_trans category path r1 r2 r3 :
  extends category path r1 r2 -> extends category path r2 r3 -> extends category path r1 r3.
Proof.
  intros (e1 & i1 & [E1 E1'] & F1 & G1) (e2 & i2 & [E2 E2'] & F2 & G2). exists (e1 ++ e2), (i1 ++ i2).
  rewrite E2, E2', E1, E1', !app_assoc. split_and!; [done..|by apply Forall_app|by apply Forall_app].
Qed.
Lemma extends_issue category path r0 r code role message details :
  extends category path r (push_issue (reference_issue r0 code path role message details) r).
Proof. exists [], [reference_issue r0 code path role message details]. rewrite app_nil_r. by repeat constructor. Qed.
Lemma extends_edge category path r e :
  re_json_path e = path -> edge_wf category e -> extends category path r (push_edge e r).
Proof.
  intros He Hwf. exists [e], []. split_and!; [done|by rewrite app_nil_r| |constructor].
  apply Forall_singleton. done.
Qed.
Lemma extends_recorded category path r r' : extends category path r r' -> (recorded r <= recorded r')%nat.
Proof. intros (es & iss & [E E'] & _). unfold recorded. rewrite E, E', !length_app. lia. Qed.
Lemma push_issue_recorded i r : (recorded r < recorded (push_issue i r))%nat.
Proof. unfold recorded. simpl. rewrite length_app. simpl. lia. Qed.
Lemma push_edge_recorded e r : (recorded r < recorded (push_edge e r))%nat.
Proof. unfold recorded. simpl. rewrite length_app. simpl. lia. Qed.

Local Hint Resolve extends_refl extends_issue extends_edge push_issue_recorded push_edge_recorded : refs.

(** One reference records something, at its own path only. *)
Lemma extract_reference_extends object path parent category r :
  extends category path r (extract_reference object path parent category r)
  /\ (recorded r < recorded (extract_reference object path parent category r))%nat.
Proof.
  unfold extract_reference. cbv zeta.
  destruct (reference_target _ _) as [target|].
  - generalize (reference_role category path parent (Some target)) as role. intros role.
    destruct (trimmed_text _) as [raw_id|] eqn:Eid; [|auto with refs].
    apply trimmed_text_spec in Eid as [Hne _].
    set (r1 := if uuid_malformed raw_id then _ else r).
    assert (extends category path r r1) as H1 by (subst r1; destruct (uuid_malformed raw_id); auto with refs).
    assert (forall r2 e, extends category path r1 r2 -> re_json_path e = path -> edge_wf category e ->
      extends category path r (push_edge e r2) /\ (recorded r < recorded (push_edge e r2))%nat) as Hfin.
    { intros r2 e H2 He Hwf. pose proof (extends_trans _ _ _ _ _ H1 H2) as H12. split.
      - eapply extends_trans; [exact H12|auto with refs].
      - apply extends_recorded in H12. pose proof (push_edge_recorded e r2). lia. }
    destruct (requested_version_state (json_opt (get "@version" object))) as [(v & -> & Hv)|[-> | [o ->]]];
      apply Hfin; auto with refs; (split_and!; [done|by exists target|done|]); simpl; eauto.
  - generalize (reference_role category path parent None) as role. intros role.
    set (r1 := push_issue _ r).
    assert (forall r2, extends category path r1 r2 -> extends category path r r2 /\ (recorded r < recorded r2)%nat) as Hfin.
    { intros r2 H2. split; [eapply extends_trans; [apply extends_issue|exact H2]|].
      apply extends_recorded in H2. subst r1. eapply Nat.lt_le_trans; [apply push_issue_recorded|exact H2]. }
    destruct (trimmed_text _) as [raw_id|]; [|auto with refs].
    apply Hfin. destruct (requested_version _) as [[state requested] malformed].
    eapply extends_trans; [|destruct malformed; auto with refs]. destruct (uuid_malformed raw_id); auto with refs.
Qed.

Lemma fold_extract_spec category ss r :
  let r' := foldl (extract_site category) r ss in
  (forall e, e ∈ rx_edges r' -> e ∈ rx_edges r \/ edge_wf category e /\ exists s, s ∈ ss /\ s_path s = re_json_path e)
  /\ (forall i, i ∈ rx_issues r' -> i ∈ rx_issues r \/ exists s, s ∈ ss /\ s_path s = ri_json_path i)
  /\ (rx_edges r `prefix_of` rx_edges r' /\ rx_issues r `prefix_of` rx_issues r')
  /\ (forall s, s ∈ ss -> (exists e, e ∈ rx_edges r' /\ re_json_path e = s_path s)
                       \/ exists i, i ∈ rx_issues r' /\ ri_json_path i = s_path s).
Proof.
  revert r. induction ss as [|s ss IH]; intros r; simpl.
  - split_and!; [by left..|done|done|]. by intros s ?%elem_of_nil.
  - destruct (extract_reference_extends (s_node s) (s_path s) (s_parent s) category r) as [(es & iss & [E E'] & Fe & Fi) Hrec].
    fold (extract_site category r s) in *. set (r1 := extract_site category r s) in *.
    destruct (IH r1) as (Hedge & Hissue & [Hp1 Hp2] & Hall). rewrite Forall_forall in Fe. rewrite Forall_forall in Fi. split_and!.
    + intros e He. destruct (Hedge e He) as [He1|(Hwf & t & Ht & Hpath)].
      * rewrite E in He1. apply elem_of_app in He1 as [|He1]; [by left|]. right. destruct (Fe e He1) as [Hj Hwf].
        split; [done|]. exists s. split; [apply list_elem_of_here|done].
      * right. split; [done|]. exists t. split; [by apply list_elem_of_further|done].
    + intros i Hi. destruct (Hissue i Hi) as [Hi1|(t & Ht & Hpath)].
      * rewrite E' in Hi1. apply elem_of_app in Hi1 as [|Hi1]; [by left|]. right. exists s.
        split; [apply list_elem_of_here|]. symmetry. by apply Fi.
      * right. exists t. split; [by apply list_elem_of_further|done].
    + etrans; [by exists es|exact Hp1].
    + etrans; [by exists iss|exact Hp2].
    + intros t [->|Ht]%elem_of_cons; [|by apply Hall]. unfold recorded in Hrec. rewrite E, E', !length_app in Hrec.
      destruct es as [|e es]; [destruct iss as [|i iss]; [simpl in Hrec; lia|right; exists i]|left; exists e].
      * split; [|by apply Fi, list_elem_of_here]. eapply elem_of_prefix; [|exact Hp2]. rewrite E'. apply elem_of_app. right. apply list_elem_of_here.
      * split; [|by apply Fe, list_elem_of_here]. eapply elem_of_prefix; [|exact Hp1]. rewrite E. apply elem_of_app. right. apply list_elem_of_here.
Qed.

Lemma extract_references_spec key category payload include_lcia :
  let r := extract_references_with_profile key category payload include_lcia in
  (forall e, e ∈ rx_edges r -> edge_wf category e)
  /\ (forall path, (exists e, e ∈ rx_edges r /\ re_json_path e = path) \/ (exists i, i ∈ rx_issues r /\ ri_json_path i = path)
        <-> exists s, enters category include_lcia (mk_site payload "$" None) s /\ is_reference s /\ s_path s = path).
Proof.
  unfold extract_references_with_profile. rewrite walk_references_sites.
  destruct (fold_extract_spec category (sites category include_lcia payload "$" None)
    (mk_extraction "tidas.reference-extraction-result.v1" key (table_name category) [] [])) as (He & Hi & _ & Hs).
  simpl in He, Hi. cbv zeta. split; [intros e [?%elem_of_nil|[Hwf _]]%He; done|]. intros path. split.
  - intros [(e & [?%elem_of_nil|(_ & s & Hs' & Hp)]%He & <-)|(i & [?%elem_of_nil|(s & Hs' & Hp)]%Hi & <-)]; try done;
      exists s; apply elem_of_sites in Hs' as [Hn Hr]; done.
  - intros (s & Hn & Hr & <-). apply Hs. by apply elem_of_sites.
Qed.
End ExtractLemmas.

(** C35: reference extraction misses nothing and invents nothing.  The closure
    extraction of a document records an edge or an issue at a path exactly when
    the walk enters, at that path, an object that looks like a reference; every
    edge names a known category, a non-empty target id, and a version that is
    explicit and well formed, omitted, or reported as invalid. *)
Theorem closure_extraction_exact `{ClosureLib} key category payload :
  let r := extract_scope_closure_references key category payload in
  (forall e, e ∈ rx_edges r -> edge_wf category e)
  /\ (forall path, (exists e, e ∈ rx_edges r /\ re_json_path e = path) \/ (exists i, i ∈ rx_issues r /\ ri_json_path i = path)
        <-> exists s, enters category false (mk_site payload "$" None) s /\ is_reference s /\ s_path s = path).
Proof. apply extract_references_spec. Qed.

(** ** Laws of the policy *)

(** The policy refuses nothing but a flow or process target no rule names. *)
Lemma classify_reference_err e purpose err :
  classify_reference e purpose = Err err ->
  (re_target_category e = "flows" \/ re_target_category e = "processes")
  /\ err = UnknownFlowOrProcessPath (re_source_category e) (re_target_category e) (re_json_path e)
  /\ is_lineage_path (to_ascii_lowercase (re_json_path e)) = false
  /\ is_administrative_support_path (to_ascii_lowercase (re_json_path e)) = false.
Proof.
  unfold classify_reference, classify_role, classify_role_parts. intros Hc.
  repeat (destruct (_ && _); [discriminate Hc|]).
  destruct (is_lineage_path _); [discriminate Hc|]. destruct (_ || _); [discriminate Hc|].
  destruct (is_administrative_support_path _); [discriminate Hc|].
  repeat (destruct (_ && _); [discriminate Hc|]).
  destruct (one_of _ (re_target_category e)); [discriminate Hc|].
  destruct (one_of ["flows"; "processes"] (re_target_category e)) eqn:Ht; [|discriminate Hc].
  injection Hc as <-. split; [|done]. unfold one_of in Ht. apply bool_decide_eq_true in Ht. set_solver.
Qed.

(** The spelling of the path does not matter. *)
Lemma classify_role_parts_case source target path role :
  classify_role_parts source target path = Ok role ->
  classify_role_parts source target (to_ascii_lowercase path) = Ok role.
Proof.
  unfold classify_role_parts. rewrite to_ascii_lowercase_idem. intros Hc.
  repeat match goal with |- context [ if ?b then _ else _ ] => destruct b; try exact Hc end. discriminate Hc.
Qed.
