(* ===== verification/RefGraph.v ===== *)
(** * The compact reference graph and its searches

    The frozen graph of resolved references (scope_closure.rs): identities
    numbered in ascending order, for each identity the numbers of the
    identities that refer to it, and the breadth-first searches that find the
    requested roots an issue affects, with a witness path to each. *)

From S2P Require Import Prelude Text Json DataBuilder Identity.

Local Open Scope string_scope.
Local Open Scope Z_scope.
Local Open Scope list_scope.

Record ResolvedReference := mk_resolved {
  rr_source : ExactDatasetIdentity;
  rr_target : ExactDatasetIdentity;
  rr_json_path : string;
  rr_role : string;
  rr_version_state : string;
}.

Record CompactReferenceGraph := mk_graph {
  g_identities : list ExactDatasetIdentity;
  g_ids : gmap ExactDatasetIdentity Z;
  g_reverse : list (list Z);
}.

(** [u32::try_from(n : usize)]. *)
Definition u32_of_usize {E} (e : E) (n : nat) : result E Z :=
  if Z.of_nat n <=? U32_MAX then Ok (Z.of_nat n) else Err e.
Definition try_from_int_error : string := "out of range integral type conversion attempted".

(** [usize::try_from(x : u32)] never fails on the 64-bit targets. *)
Definition at_ordinal {A} (l : list A) (ordinal : Z) : option A := l !! Z.to_nat ordinal.

(** The identities of the references and the roots, in ascending order. *)
Definition graph_identities (references : list ResolvedReference) (roots : list ExactDatasetIdentity)
    : list ExactDatasetIdentity :=
  ascending (list_to_set (flat_map (fun r => [rr_source r; rr_target r]) references ++ roots)).

Definition numbered {A} (l : list A) : result string (list (A * Z)) :=
  mapR (fun ix => n ← u32_of_usize try_from_int_error ix.1; Ok (ix.2, n)) (zip (seq 0 (length l)) l).

(** [reverse[target].push(source)] for one reference. *)
Definition push_predecessor (ids : gmap ExactDatasetIdentity Z) (reverse : list (list Z)) (r : ResolvedReference)
    : result string (list (list Z)) :=
  source ← ok_or "reference graph omitted source identity" (ids !! rr_source r);
  target ← ok_or "reference graph omitted target identity" (ids !! rr_target r);
  preds ← expect (at_ordinal reverse target);
  Ok (<[Z.to_nat target := preds ++ [source]]> reverse).

Definition from_references (references : list ResolvedReference) (roots : list ExactDatasetIdentity)
    : result string CompactReferenceGraph :=
  let identities := graph_identities references roots in
  pairs ← numbered identities;
  let ids := list_to_map pairs in
  reverse ← foldM (push_predecessor ids) references (replicate (length identities) []);
  Ok (mk_graph identities ids ((fun preds => dedup (sort_by Z.compare preds)) <$> reverse)).

(** ** Breadth-first search over the referring identities *)

Record Search := mk_search {
  visited : list bool;
  parent : list (option Z);
  queue : list Z;
}.

Definition search_start (n : nat) (source : Z) : result string Search :=
  _ ← expect (at_ordinal (replicate n false) source);
  Ok (mk_search (<[Z.to_nat source := true]> (replicate n false)) (replicate n None) [source]).

(** One predecessor of [node]. *)
Definition relax (node : Z) (st : Search) (predecessor : Z) : result string Search :=
  seen ← expect (at_ordinal (visited st) predecessor);
  if seen : bool then Ok st
  else _ ← expect (at_ordinal (parent st) predecessor);
       Ok (mk_search (<[Z.to_nat predecessor := true]> (visited st))
             (<[Z.to_nat predecessor := Some node]> (parent st)) (queue st ++ [predecessor])).

Definition dequeue (st : Search) (rest : list Z) : Search := mk_search (visited st) (parent st) rest.

(** [while let Some(node) = queue.pop_front()]; a node enters the queue at most
    once, so as many rounds as there are nodes empty it. *)
Fixpoint search (fuel : nat) (reverse : list (list Z)) (st : Search) : result string Search :=
  match queue st with
  | [] => Ok st
  | node :: rest =>
      match fuel with
      | O => Panic
      | S fuel =>
          st ← match at_ordinal reverse node with
               | Some predecessors => foldM (relax node) predecessors (dequeue st rest)
               | None => Ok (dequeue st rest)
               end;
          search fuel reverse st
      end
  end.

(** Follows the parents from [current]; a chain of parents repeats no node. *)
Fixpoint climb (fuel : nat) (parent : list (option Z)) (identities : list ExactDatasetIdentity) (current : option Z)
    (path : list ExactDatasetIdentity) : result string (list ExactDatasetIdentity) :=
  match current with
  | None => Ok path
  | Some node =>
      match fuel with
      | O => Panic
      | S fuel =>
          identity ← expect (at_ordinal identities node);
          next ← expect (at_ordinal parent node);
          climb fuel parent identities next (path ++ [identity])
      end
  end.
Definition reconstruct_witness_path (root : Z) (parent : list (option Z)) (identities : list ExactDatasetIdentity)
    : result string (list ExactDatasetIdentity) :=
  path ← climb (S (length parent)) parent identities (Some root) [];
  Ok (reverse path).

(** The callback is a state transformer that may refuse. *)
Definition visit_single_source_affected_roots {S} (source : Z) (root_ids : list Z) (g : CompactReferenceGraph)
    (visit : S -> ExactDatasetIdentity -> list ExactDatasetIdentity -> result string S) (s : S) : result string S :=
  st ← search_start (length (g_identities g)) source;
  st ← search (length (g_identities g)) (g_reverse g) st;
  foldM (fun s root =>
    seen ← expect (at_ordinal (visited st) root);
    if seen : bool then
      path ← reconstruct_witness_path root (parent st) (g_identities g);
      identity ← expect (at_ordinal (g_identities g) root);
      visit s identity path
    else Ok s) root_ids s.

Definition ISSUE_INLINE_AFFECTED_ROOT_SAMPLE_LIMIT : nat := 100.

Record AffectedRoots := mk_affected {
  ar_count : Z;
  ar_affected : list ExactDatasetIdentity;
  ar_witnesses : list (list ExactDatasetIdentity);
}.
Definition sample_root (acc : AffectedRoots) (root : ExactDatasetIdentity) (witness : list ExactDatasetIdentity)
    : result string AffectedRoots :=
  let count := Z.min (ar_count acc + 1) U32_MAX in
  if (length (ar_affected acc) <? ISSUE_INLINE_AFFECTED_ROOT_SAMPLE_LIMIT)%nat
  then Ok (mk_affected count (ar_affected acc ++ [root]) (ar_witnesses acc ++ [witness]))
  else Ok (mk_affected count (ar_affected acc) (ar_witnesses acc)).

Definition compute_single_source_affected_roots (source : Z) (root_ids : list Z) (g : CompactReferenceGraph)
    : result string AffectedRoots :=
  match visit_single_source_affected_roots source root_ids g sample_root (mk_affected 0 [] []) with
  | Ok a => Ok a
  | _ => Panic
  end.

(** ** The frozen graph read back from an artifact *)

Record DecodedFrozenReferenceGraph := mk_frozen {
  df_identities : list ExactDatasetIdentity;
  df_root_ordinals : list Z;
  df_reverse : list (list Z);
}.

(** The search that stops when it dequeues the root. *)
Fixpoint search_root (fuel : nat) (g : DecodedFrozenReferenceGraph) (root : Z) (st : Search)
    : result string (list ExactDatasetIdentity) :=
  match queue st with
  | [] => Err "frozen reference graph cannot reconstruct requested witness"
  | node :: rest =>
      if node =? root then reconstruct_witness_path root (parent st) (df_identities g)
      else match fuel with
      | O => Panic
      | S fuel =>
          predecessors ← ok_or "frozen graph node is out of range" (at_ordinal (df_reverse g) node);
          st ← foldM (relax node) predecessors (dequeue st rest);
          search_root fuel g root st
      end
  end.

Definition reconstruct_frozen_graph_witness (g : DecodedFrozenReferenceGraph) (source_node root_ordinal : Z)
    : result string (list ExactDatasetIdentity) :=
  root ← ok_or "requested root ordinal is out of range" (at_ordinal (df_root_ordinals g) root_ordinal);
  _ ← ensure (negb (Z.of_nat (length (df_identities g)) <=? source_node)) "source node ordinal is out of range";
  st ← search_start (length (df_identities g)) source_node;
  search_root (length (df_identities g)) g root st.

(** ** Stable root ordinals *)

Record StableRootOrdinals := mk_stable {
  sr_roots : list ExactDatasetIdentity;
  sr_ordinals : gmap ExactDatasetIdentity Z;
  sr_graph_nodes : list Z;
}.
Definition stable_root_ordinals (roots : list ExactDatasetIdentity) (g : CompactReferenceGraph)
    : result string StableRootOrdinals :=
  let roots := ascending (list_to_set roots) in
  pairs ← numbered roots;
  nodes ← mapR (fun root => ok_or "reference graph omitted requested root" (g_ids g !! root)) roots;
  Ok (mk_stable roots (list_to_map pairs) nodes).

(** ** Construction *)

Definition node_count (g : CompactReferenceGraph) : nat := length (g_identities g).

(** [predecessor] refers to [node]. *)
Definition refers (reverse : list (list Z)) (node predecessor : Z) : Prop :=
  exists preds, at_ordinal reverse node = Some preds /\ predecessor ∈ preds.

Definition ordinals_below (n : nat) (l : list Z) : Prop := Forall (fun i => 0 <= i < Z.of_nat n) l.

(** The shape of a compact graph with [n] nodes. *)
Definition reverse_wf (n : nat) (reverse : list (list Z)) : Prop :=
  length reverse = n /\ Forall (fun preds => StronglySorted Z.lt preds /\ ordinals_below n preds) reverse.

Definition graph_wf (g : CompactReferenceGraph) : Prop :=
  StronglySorted identity_lt (g_identities g)
  /\ (forall x i, g_ids g !! x = Some i <-> 0 <= i /\ at_ordinal (g_identities g) i = Some x)
  /\ reverse_wf (node_count g) (g_reverse g).

Lemma numbered_ok {A} (l : list A) : Z.of_nat (length l) <= U32_MAX + 1 ->
  numbered l = Ok (zip l (Z.of_nat <$> seq 0 (length l))).
Proof.
  intros Hl. unfold numbered. apply mapR_ok, Forall2_same_length_lookup. split.
  - rewrite !length_zip_with, length_fmap, length_seq. lia.
  - intros i [k x] [y n] Hx Hy. rewrite !lookup_zip_with_Some in *.
    destruct Hx as (k' & x' & [= <- <-] & Hk & Hx). destruct Hy as (y' & n' & [= <- <-] & Hy & Hn).
    apply lookup_seq in Hk as [-> Hk]. rewrite Hx in Hy. injection Hy as ->.
    rewrite list_lookup_fmap, (proj2 (lookup_seq 0 (length l) i i)) in Hn by lia. injection Hn as <-.
    simpl. unfold u32_of_usize. by rewrite (proj2 (Z.leb_le _ _)) by lia.
Qed.

Lemma numbered_err {A} (l : list A) : U32_MAX + 1 < Z.of_nat (length l) -> exists e, numbered l = Err e.
Proof.
  intros Hl. unfold numbered. assert (forall (ps : list (nat * A)),
    (exists p, p ∈ ps /\ U32_MAX < Z.of_nat p.1) ->
    exists e, mapR (fun ix : nat * A => n ← u32_of_usize try_from_int_error ix.1; Ok (ix.2, n)) ps = Err e) as Hm.
  { induction ps as [|p ps IH]; intros (q & Hq & Hlt); [by apply elem_of_nil in Hq|]. cbn [mapR].
    unfold u32_of_usize at 1. destruct (Z.leb_spec (Z.of_nat p.1) U32_MAX) as [Hp|Hp]; cbn [mbind result_bind]; [|by eexists].
    apply elem_of_cons in Hq as [->|Hq]; [lia|]. destruct IH as [e ->]; [by exists q|]. by eexists. }
  apply Hm. assert (is_Some (l !! Z.to_nat (U32_MAX + 1))) as [x Hx] by (apply lookup_lt_is_Some; unfold U32_MAX in *; lia).
  exists (Z.to_nat (U32_MAX + 1), x). split; [|unfold U32_MAX in *; simpl; lia].
  apply list_elem_of_lookup. exists (Z.to_nat (U32_MAX + 1)). apply lookup_zip_with_Some. eexists _, _.
  split_and!; [done| |exact Hx]. apply lookup_seq. unfold U32_MAX in *. lia.
Qed.

Lemma numbered_lookup {A} `{!EqDecision A, !Countable A} (l : list A) x i : NoDup l ->
  (list_to_map (zip l (Z.of_nat <$> seq 0 (length l))) : gmap A Z) !! x = Some i <-> 0 <= i /\ at_ordinal l i = Some x.
Proof.
  intros Hnd. rewrite <- elem_of_list_to_map.
  2: { rewrite fst_zip; [done|]. by rewrite length_fmap, length_seq. }
  rewrite list_elem_of_lookup. unfold at_ordinal. split.
  - intros [k Hk]. apply lookup_zip_with_Some in Hk as (y & n & [= -> ->] & Hy & Hn).
    rewrite list_lookup_fmap in Hn. apply fmap_Some in Hn as (m & Hm & ->). apply lookup_seq in Hm as [-> _].
    rewrite Nat2Z.id. split; [lia|done].
  - intros [Hi Hx]. exists (Z.to_nat i). apply lookup_zip_with_Some. exists x, i. split_and!; [done..|].
    rewrite list_lookup_fmap, (proj2 (lookup_seq 0 (length l) (Z.to_nat i) (Z.to_nat i))).
    + simpl. f_equal. lia.
    + apply lookup_lt_Some in Hx. lia.
Qed.

Lemma dedup_sort_spec preds :
  StronglySorted Z.lt (dedup (sort_by Z.compare preds)) /\ (forall x, x ∈ dedup (sort_by Z.compare preds) <-> x ∈ preds).
Proof.
  split.
  - apply dedup_sorted. eapply StronglySorted_impl; [|apply (sort_by_sorted' Z.compare)].
    intros a b. unfold not_gt. destruct (Z.compare_spec a b); intros; (done || lia).
  - intros x. by rewrite elem_of_dedup, sort_by_perm.
Qed.

Definition collected (ids : gmap ExactDatasetIdentity Z) (references : list ResolvedReference) (reverse : list (list Z)) : Prop :=
  forall t preds, reverse !! t = Some preds -> forall s,
    s ∈ preds <-> exists r, r ∈ references /\ ids !! rr_source r = Some s /\ ids !! rr_target r = Some (Z.of_nat t).

Lemma collect_predecessors ids references n :
  (forall x i, ids !! x = Some i -> 0 <= i < Z.of_nat n) ->
  (forall r, r ∈ references -> is_Some (ids !! rr_source r) /\ is_Some (ids !! rr_target r)) ->
  exists reverse, foldM (push_predecessor ids) references (replicate n []) = Ok reverse
    /\ length reverse = n /\ collected ids references reverse.
Proof.
  intros Hids Href. apply (foldM_total_ind (fun pre reverse => length reverse = n /\ collected ids pre reverse)).
  - split; [by rewrite length_replicate|]. intros t preds [-> _]%lookup_replicate s. split.
    + by intros ?%elem_of_nil.
    + intros (r & ?%elem_of_nil & _). done.
  - intros pre r post rev -> [Hlen Hc]. destruct (Href r) as [[s Hs] [t Ht]]; [set_solver|].
    unfold push_predecessor. rewrite Hs, Ht. cbn [ok_or mbind result_bind]. pose proof (Hids _ _ Ht) as Htn.
    destruct (lookup_lt_is_Some_2 rev (Z.to_nat t)) as [preds Hp]; [lia|]. unfold at_ordinal. rewrite Hp.
    cbn [expect mbind result_bind]. eexists. split; [done|]. split; [by rewrite length_insert|].
    intros t' preds' Hp' s'. rewrite list_lookup_insert_Some in Hp'.
    destruct Hp' as [(<- & <- & _)|(Hne & Hp')].
    + rewrite elem_of_app, list_elem_of_singleton, (Hc _ _ Hp). split.
      * intros [(q & Hq & E)| ->]; [exists q|exists r]; (split; [set_solver|]); [done|by rewrite Z2Nat.id by lia].
      * intros (q & [Hq|Hq%list_elem_of_singleton]%elem_of_app & E1 & E2); [left; by exists q|]. subst q. right. congruence.
    + rewrite (Hc _ _ Hp'). split; intros (q & Hq & E1 & E2); exists q; (split; [set_solver|done]) || idtac.
      split; [|done]. apply elem_of_app in Hq as [Hq|Hq%list_elem_of_singleton]; [done|]. subst q.
      rewrite Ht in E2. injection E2 as ->. by rewrite Nat2Z.id in Hne.
Qed.

Lemma elem_of_graph_identities references roots x :
  x ∈ graph_identities references roots
  <-> (exists r, r ∈ references /\ (x = rr_source r \/ x = rr_target r)) \/ x ∈ roots.
Proof.
  unfold graph_identities. rewrite elem_of_ascending, elem_of_list_to_set, elem_of_app.
  rewrite list_elem_of_In, in_flat_map. setoid_rewrite <- list_elem_of_In.
  split; (intros [(r & Hr & Hx)|Hx]; [left; exists r; split; [done|set_solver]|by right]).
Qed.

(** A reference from [y] to [x] among [references]. *)
Definition reference_between (references : list ResolvedReference) (x y : ExactDatasetIdentity) : Prop :=
  exists r, r ∈ references /\ rr_target r = x /\ rr_source r = y.

Lemma from_references_ok references roots :
  Z.of_nat (length (graph_identities references roots)) <= U32_MAX + 1 ->
  exists g, from_references references roots = Ok g /\ graph_wf g
    /\ g_identities g = graph_identities references roots
    /\ (forall x y i j, g_ids g !! x = Some i -> g_ids g !! y = Some j ->
          refers (g_reverse g) i j <-> reference_between references x y).
Proof.
  intros Hsize. unfold from_references. cbv zeta. rewrite numbered_ok by done. cbn [mbind result_bind].
  set (identities := graph_identities references roots) in *.
  pose proof (ascending_sorted (list_to_set (flat_map (fun r => [rr_source r; rr_target r]) references ++ roots))) as Hsort.
  fold (graph_identities references roots) in Hsort. fold identities in Hsort.
  set (ids := list_to_map _). assert (forall x i, ids !! x = Some i <-> 0 <= i /\ at_ordinal identities i = Some x) as Hids
    by (intros; apply numbered_lookup; by apply lt_sorted_NoDup).
  assert (forall x i, ids !! x = Some i -> 0 <= i < Z.of_nat (length identities)) as Hrange.
  { intros x i [Hi Hx]%Hids. apply lookup_lt_Some in Hx. lia. }
  assert (forall x, x ∈ identities -> is_Some (ids !! x)) as Hall.
  { intros x [k Hk]%list_elem_of_lookup. exists (Z.of_nat k). apply Hids. unfold at_ordinal. rewrite Nat2Z.id. split; [lia|done]. }
  destruct (collect_predecessors ids references (length identities) Hrange) as (rev & -> & Hlen & Hc).
  { intros r Hr. split; apply Hall, elem_of_graph_identities; left; exists r; auto. }
  cbn [mbind result_bind]. eexists. split; [done|]. cbn [g_identities g_ids g_reverse].
  assert (forall i j, refers ((fun preds => dedup (sort_by Z.compare preds)) <$> rev) i j <->
    exists preds, rev !! Z.to_nat i = Some preds /\ j ∈ preds) as Hrefers.
  { intros i j. unfold refers, at_ordinal. rewrite list_lookup_fmap. split.
    - intros (ps & (preds & -> & ->)%fmap_Some & Hj). exists preds. by rewrite (proj2 (dedup_sort_spec preds)) in Hj.
    - intros (preds & -> & Hj). eexists. split; [done|]. by rewrite (proj2 (dedup_sort_spec preds)). }
  split_and!; [|done|].
  - unfold graph_wf, reverse_wf, node_count. split_and!; [exact Hsort|exact Hids|by cbn [g_reverse g_identities]; rewrite length_fmap|]. simpl. apply Forall_fmap, Forall_lookup. intros t preds Ht.
    simpl. destruct (dedup_sort_spec preds) as [Hs Hin]. split; [done|]. apply Forall_forall. intros j Hj.
    apply Hin in Hj. apply (Hc _ _ Ht) in Hj as (r & _ & Hj & _). by apply Hrange in Hj.
  - intros x y i j Hi Hj. rewrite Hrefers. pose proof (Hrange _ _ Hi) as Hir. split.
    + intros (preds & Hp & Hin). apply (Hc _ _ Hp) in Hin as (r & Hr & E1 & E2). rewrite Z2Nat.id in E2 by lia.
      exists r. apply Hids in Hi as [_ Hi], Hj as [_ Hj], E1 as [_ E1], E2 as [_ E2]. split_and!; [done|congruence..].
    + intros (r & Hr & <- & <-). destruct (lookup_lt_is_Some_2 rev (Z.to_nat i)) as [preds Hp]; [lia|].
      exists preds. split; [done|]. apply (Hc _ _ Hp). exists r. by rewrite Z2Nat.id by lia.
Qed.

(** ** The search visits what is reachable, nearest first *)

(** A chain of references from [a] to [b]: each node refers to the one before. *)
Inductive chain (reverse : list (list Z)) (a : Z) : list Z -> Z -> Prop :=
| chain_start : chain reverse a [a] a
| chain_step l b c : chain reverse a l b -> refers reverse b c -> chain reverse a (l ++ [c]) c.

Lemma StronglySorted_impl_in {A} (R S : A -> A -> Prop) l :
  (forall a b, a ∈ l -> b ∈ l -> R a b -> S a b) -> StronglySorted R l -> StronglySorted S l.
Proof.
  intros Hrs Hl. induction Hl as [|a l Hs IH Ha]; constructor.
  - apply IH. intros x y Hx Hy. apply Hrs; by apply list_elem_of_further.
  - rewrite Forall_forall in *. intros x Hx. apply Hrs; [apply list_elem_of_here|by apply list_elem_of_further|by apply Ha].
Qed.

Lemma at_ordinal_some {A} (l : list A) i : 0 <= i < Z.of_nat (length l) -> exists x, at_ordinal l i = Some x.
Proof. intros Hi. apply lookup_lt_is_Some. lia. Qed.

Section Search.
Context (n : nat) (reverse : list (list Z)) (Hwf : reverse_wf n reverse) (source : Z)
  (Hsource : 0 <= source < Z.of_nat n).

Lemma refers_below p i : refers reverse p i -> 0 <= i < Z.of_nat n.
Proof using Hwf.
  intros (preds & Hp & Hi). destruct Hwf as [_ Hall]. rewrite Forall_lookup in Hall.
  destruct (Hall _ _ Hp) as [_ Hb]. unfold ordinals_below in Hb. rewrite Forall_forall in Hb. by apply Hb.
Qed.

Lemma node_predecessors i : 0 <= i < Z.of_nat n -> exists preds, at_ordinal reverse i = Some preds.
Proof using Hwf. intros Hi. destruct Hwf as [Hl _]. apply lookup_lt_is_Some. lia. Qed.

Definition found (processed : list Z) (st : Search) : list Z := processed ++ queue st.

(** The search state: [processed] are the nodes already dequeued and [d] the
    distance each node was found at. *)
Record explored (processed : list Z) (st : Search) (d : Z -> nat) : Prop := {
  ex_nodup : NoDup (found processed st);
  ex_below : forall i, i ∈ found processed st -> 0 <= i < Z.of_nat n;
  ex_visited : forall i, 0 <= i < Z.of_nat n ->
    at_ordinal (visited st) i = Some (bool_decide (i ∈ found processed st));
  ex_parents : length (parent st) = n;
  ex_source : source ∈ found processed st /\ d source = O;
  ex_parent : forall i, i ∈ found processed st ->
    match at_ordinal (parent st) i with
    | Some None => i = source
    | Some (Some p) => p ∈ found processed st /\ refers reverse p i /\ d i = S (d p)
    | None => False
    end;
  ex_rank : forall k i, found processed st !! k = Some i -> (d i <= k)%nat;
  ex_queue : StronglySorted (fun a b => (d a <= d b)%nat) (queue st);
}.

Lemma search_start_explored : exists st, search_start n source = Ok st /\ queue st = [source] /\ explored [] st (fun _ => O).
Proof using Hsource Hwf.
  unfold search_start, at_ordinal. rewrite lookup_replicate_2 by lia. cbn [expect mbind result_bind].
  eexists. split; [done|]. split; [done|]. split; unfold found, at_ordinal; simpl.
  - apply NoDup_singleton.
  - by intros i ->%list_elem_of_singleton.
  - intros i Hi. destruct (decide (i = source)) as [->|Hne].
    + rewrite list_lookup_insert_eq by (rewrite length_replicate; lia). by rewrite bool_decide_true by set_solver.
    + rewrite list_lookup_insert_ne, lookup_replicate_2 by lia. by rewrite bool_decide_false by set_solver.
  - apply length_replicate.
  - split; [set_solver|done].
  - intros i ->%list_elem_of_singleton. by rewrite lookup_replicate_2 by lia.
  - intros; lia.
  - repeat constructor.
Qed.

(** A freshly found node gets the distance of [h] plus one. *)
Lemma relax_explored processed st d h i :
  explored processed st d -> h ∈ found processed st -> refers reverse h i ->
  (forall x, x ∈ found processed st -> (d x <= S (d h))%nat) ->
  exists st' d', relax h st i = Ok st' /\ explored processed st' d'
    /\ (forall x, x ∈ found processed st -> d' x = d x /\ x ∈ found processed st')
    /\ i ∈ found processed st'
    /\ (forall x, x ∈ queue st' -> x ∈ queue st \/ d' x = S (d h))
    /\ (forall x, x ∈ found processed st' -> (d' x <= S (d h))%nat).
Proof using Hsource Hwf.
  intros Hex Hh Hi Hfar. pose proof (refers_below _ _ Hi) as Hir. destruct Hex as [Hnd Hb Hv Hpl [Hs Hs0] Hp Hr Hq].
  unfold relax. rewrite (Hv i Hir). cbn [expect mbind result_bind]. case_bool_decide as Hin.
  { exists st, d. split; [done|]. split; [by split|]. split_and!; [by intros|done|by left|done]. }
  destruct (lookup_lt_is_Some_2 (parent st) (Z.to_nat i)) as [o Ho]; [lia|].
  unfold at_ordinal at 1. rewrite Ho. cbn [expect mbind result_bind].
  set (d' := fun x => if decide (x = i) then S (d h) else d x).
  assert (forall x, x ∈ found processed st -> d' x = d x) as Hold.
  { intros x Hx. unfold d'. rewrite decide_False; [done|]. intros ->. done. }
  assert (d' i = S (d h)) as Hnew by (unfold d'; by rewrite decide_True).
  eexists _, d'. split; [done|]. set (st' := mk_search _ _ _).
  assert (found processed st' = found processed st ++ [i]) as Hf by (unfold found; simpl; by rewrite app_assoc).
  assert (forall x, x ∈ found processed st' <-> x ∈ found processed st \/ x = i) as Hin'
    by (intros x; rewrite Hf, elem_of_app, list_elem_of_singleton; done).
  split; [split; rewrite ?Hf|].
  - apply NoDup_app. split_and!; [done| |apply NoDup_singleton]. by intros x Hx ->%list_elem_of_singleton.
  - intros x [Hx|Hx%list_elem_of_singleton]%elem_of_app; [by apply Hb|by subst].
  - intros x Hx. unfold at_ordinal in *. simpl. destruct (decide (x = i)) as [->|Hne].
    + rewrite list_lookup_insert_eq by (apply lookup_lt_is_Some; eexists; by apply Hv).
      by rewrite bool_decide_true by set_solver.
    + rewrite list_lookup_insert_ne by lia. rewrite (Hv x Hx). f_equal. apply bool_decide_ext. set_solver.
  - simpl. by rewrite length_insert.
  - rewrite (Hold _ Hs). split; [set_solver|done].
  - intros x Hx. unfold at_ordinal in *. simpl. apply elem_of_app in Hx as [Hx|Hx%list_elem_of_singleton].
    + assert (x <> i) as Hne by (intros ->; done). pose proof (Hb x Hx).
      rewrite list_lookup_insert_ne by lia. specialize (Hp x Hx).
      destruct (parent st !! Z.to_nat x) as [[p|]|]; [|done..]. destruct Hp as (Hp1 & Hp2 & Hp3).
      rewrite (Hold x Hx), (Hold p Hp1). split_and!; [set_solver|done..].
    + subst x. rewrite list_lookup_insert_eq by lia. rewrite Hnew, (Hold h Hh). split_and!; [set_solver|done..].
  - intros k x Hk. apply lookup_app_Some in Hk as [Hk|[Hk Hx]].
    + rewrite Hold by (by eapply list_elem_of_lookup_2). by apply Hr.
    + apply list_lookup_singleton_Some in Hx as [Hk0 <-]. rewrite Hnew.
      apply list_elem_of_lookup in Hh as [kh Hkh]. pose proof (Hr _ _ Hkh). apply lookup_lt_Some in Hkh. lia.
  - simpl. assert (forall x, x ∈ queue st -> d' x = d x) as Hqold
      by (intros x Hx; apply Hold; unfold found; set_solver).
    apply StronglySorted_app_2; [| |by repeat constructor].
    + intros a b Ha ->%list_elem_of_singleton. rewrite Hnew, Hqold by done. apply Hfar. unfold found. set_solver.
    + eapply StronglySorted_impl_in; [|exact Hq]. intros a b Ha Hb' Hab. by rewrite !Hqold.
  - split_and!.
    + intros x Hx. split; [by apply Hold|]. apply Hin'. by left.
    + apply Hin'. by right.
    + simpl. intros x [Hx|Hx%list_elem_of_singleton]%elem_of_app; [by left|right; by subst].
    + intros x [Hx|Hx]%Hin'; [rewrite Hold by done; by apply Hfar|subst; lia].
Qed.

Lemma relax_all_explored processed preds : forall st d h,
  explored processed st d -> h ∈ found processed st -> (forall i, i ∈ preds -> refers reverse h i) ->
  (forall x, x ∈ found processed st -> (d x <= S (d h))%nat) ->
  exists st' d', foldM (relax h) preds st = Ok st' /\ explored processed st' d'
    /\ (forall x, x ∈ found processed st -> d' x = d x /\ x ∈ found processed st')
    /\ (forall i, i ∈ preds -> i ∈ found processed st')
    /\ (forall x, x ∈ queue st' -> x ∈ queue st \/ d' x = S (d h))
    /\ (forall x, x ∈ found processed st' -> (d' x <= S (d h))%nat).
Proof using Hsource Hwf.
  induction preds as [|i preds IH]; intros st d h Hex Hh Hp Hfar; simpl.
  { exists st, d. split_and!; [done..|by intros|by intros ? ?%elem_of_nil|by left|done]. }
  destruct (relax_explored _ _ _ _ i Hex Hh ltac:(apply Hp, list_elem_of_here) Hfar)
    as (st1 & d1 & -> & Hex1 & Hold1 & Hi1 & Hq1 & Hfar1).
  destruct (Hold1 h Hh) as [Ed Hh1].
  destruct (IH st1 d1 h Hex1 Hh1) as (st2 & d2 & -> & Hex2 & Hold2 & Hi2 & Hq2 & Hfar2).
  { intros j Hj. by apply Hp, list_elem_of_further. }
  { by rewrite Ed. }
  rewrite Ed in *. exists st2, d2. split; [done|]. split; [done|]. split_and!.
  - intros x Hx. destruct (Hold1 x Hx) as [E1 Hx1]. destruct (Hold2 x Hx1) as [E2 Hx2]. split; [congruence|done].
  - intros j [->|Hj]%elem_of_cons; [by apply Hold2|by apply Hi2].
  - intros x [Hx|Hx]%Hq2; [|by right]. destruct (Hq1 x Hx) as [Hx1|Hx1]; [by left|].
    right. rewrite <- Hx1. apply Hold2. unfold found. set_solver.
  - done.
Qed.

(** Between two rounds: nothing found is farther than one step beyond the head
    of the queue, and every processed node has all its predecessors found. *)
Definition between (processed : list Z) (st : Search) (d : Z -> nat) : Prop :=
  explored processed st d
  /\ (forall h rest, queue st = h :: rest -> forall i, i ∈ found processed st -> (d i <= S (d h))%nat)
  /\ (forall p i, p ∈ processed -> refers reverse p i -> i ∈ found processed st /\ (d i <= S (d p))%nat).

Lemma dequeue_explored processed st d h rest :
  queue st = h :: rest -> explored processed st d -> explored (processed ++ [h]) (dequeue st rest) d.
Proof.
  intros Hq Hex. assert (found (processed ++ [h]) (dequeue st rest) = found processed st) as Hf.
  { unfold found. simpl. by rewrite Hq, <- app_assoc. }
  destruct Hex as [Hnd Hb Hv Hpl Hs Hp Hr Hqs]. split; rewrite ?Hf; try done.
  rewrite Hq in Hqs. by apply StronglySorted_inv in Hqs as [? _].
Qed.

Lemma round_between processed st d h rest preds :
  queue st = h :: rest -> between processed st d -> at_ordinal reverse h = Some preds ->
  exists st' d', foldM (relax h) preds (dequeue st rest) = Ok st' /\ between (processed ++ [h]) st' d'.
Proof using Hsource Hwf.
  intros Hq (Hex & Hfront & Hclosed) Hpreds. pose proof (dequeue_explored _ _ _ _ _ Hq Hex) as Hex1.
  assert (found (processed ++ [h]) (dequeue st rest) = found processed st) as Hf.
  { unfold found. simpl. by rewrite Hq, <- app_assoc. }
  assert (h ∈ found processed st) as Hh by (unfold found; rewrite Hq; set_solver).
  assert (forall x, x ∈ rest -> (d h <= d x)%nat) as Hrest.
  { pose proof (ex_queue _ _ _ Hex) as Hs. rewrite Hq in Hs. apply StronglySorted_inv in Hs as [_ Hs].
    by rewrite Forall_forall in Hs. }
  destruct (relax_all_explored (processed ++ [h]) preds (dequeue st rest) d h Hex1) as (st' & d' & E & Hex' & Hold & Hall & Hqn & Hfar).
  - by rewrite Hf.
  - intros i Hi. by exists preds.
  - rewrite Hf. by apply (Hfront h rest).
  - rewrite Hf in Hold. exists st', d'. split; [done|]. split; [done|]. split.
    + intros h' rest' Hq' i Hi. apply Hfar in Hi.
      destruct (Hqn h') as [Hh'|Hh']; [rewrite Hq'; set_solver| |lia]. simpl in Hh'.
      destruct (Hold h') as [-> _]; [unfold found; rewrite Hq; set_solver|]. specialize (Hrest h' Hh'). lia.
    + intros p i [Hp|Hp%list_elem_of_singleton]%elem_of_app Hr.
      * destruct (Hclosed p i Hp Hr) as [Hi Hd]. destruct (Hold i Hi) as [-> Hi'].
        destruct (Hold p) as [-> _]; [unfold found; set_solver|]. done.
      * subst p. destruct Hr as (preds' & Hp' & Hi). rewrite Hpreds in Hp'. injection Hp' as <-.
        split; [by apply Hall|]. destruct (Hold h Hh) as [-> _]. by apply Hfar, Hall.
Qed.

Lemma below_length (l : list Z) : NoDup l -> (forall i, i ∈ l -> 0 <= i < Z.of_nat n) -> (length l <= n)%nat.
Proof.
  intros Hnd Hb. rewrite <- (length_seq n 0), <- (length_fmap Z.of_nat (seq 0 n)).
  apply submseteq_length, NoDup_submseteq; [done|]. intros i Hi. specialize (Hb i Hi).
  apply list_elem_of_fmap. exists (Z.to_nat i). split; [lia|]. apply elem_of_seq. lia.
Qed.

Lemma processed_bound processed st d h rest :
  queue st = h :: rest -> explored processed st d -> (length processed < n)%nat.
Proof.
  intros Hq Hex. pose proof (below_length _ (ex_nodup _ _ _ Hex) (ex_below _ _ _ Hex)) as Hl.
  unfold found in Hl. rewrite Hq, length_app in Hl. simpl in Hl. lia.
Qed.

Lemma search_total fuel : forall processed st d,
  between processed st d -> (n <= fuel + length processed)%nat ->
  exists processed' st' d', search fuel reverse st = Ok st' /\ between processed' st' d' /\ queue st' = [].
Proof using Hsource Hwf.
  induction fuel as [|fuel IH]; intros processed st d Hbet Hfuel; simpl;
    destruct (queue st) as [|h rest] eqn:Hq; try (by exists processed, st, d).
  - pose proof (processed_bound _ _ _ _ _ Hq (proj1 Hbet)). lia.
  - destruct (node_predecessors h) as [preds Hpreds].
    { apply (ex_below _ _ _ (proj1 Hbet)). unfold found. rewrite Hq. set_solver. }
    rewrite Hpreds. destruct (round_between _ _ _ _ _ _ Hq Hbet Hpreds) as (st1 & d1 & -> & Hbet1).
    cbn [mbind result_bind]. apply (IH _ _ _ Hbet1). rewrite length_app. simpl. lia.
Qed.

Lemma search_between : exists processed st d,
  (st ← search_start n source; search n reverse st) = Ok st /\ between processed st d /\ queue st = [].
Proof using Hsource Hwf.
  destruct search_start_explored as (st0 & -> & Hq0 & Hex0). cbn [mbind result_bind].
  destruct (search_total n [] st0 (fun _ => O)) as (processed & st & d & -> & Hbet & Hq).
  - split; [done|]. split; [intros; lia|]. intros p i ?%elem_of_nil. done.
  - simpl. lia.
  - by exists processed, st, d.
Qed.

(** The names of a list of ordinals. *)
Definition named (identities : list ExactDatasetIdentity) : list Z -> list ExactDatasetIdentity -> Prop :=
  Forall2 (fun i x => at_ordinal identities i = Some x).

Lemma climb_chain identities processed st d : length identities = n -> explored processed st d ->
  forall k i fuel path, d i = k -> i ∈ found processed st -> (k < fuel)%nat ->
  exists l xs, climb fuel (parent st) identities (Some i) path = Ok (path ++ rev xs)
    /\ chain reverse source l i /\ named identities l xs /\ length l = S k.
Proof using Hsource.
  intros Hn Hex. induction k as [|k IH]; intros i [|fuel] path Hd Hi Hfuel; try lia; cbn [climb].
  all: destruct (at_ordinal_some identities i) as [x Hx]; [rewrite Hn; by apply (ex_below _ _ _ Hex)|].
  all: rewrite Hx; cbn [expect mbind result_bind].
  all: pose proof (ex_parent _ _ _ Hex i Hi) as Hp.
  all: destruct (at_ordinal (parent st) i) as [[p|]|]; [|cbn [expect mbind result_bind]|done].
  - destruct Hp as (_ & _ & Hp). lia.
  - subst i. exists [source], [x]. split; [by destruct fuel|]. split_and!; [constructor|by repeat constructor|done].
  - destruct Hp as (Hp & Hr & Hdp). cbn [expect mbind result_bind].
    destruct (IH p fuel (path ++ [x])) as (l & xs & -> & Hc & Hl & Hlen); [lia|done|lia|].
    exists (l ++ [i]), (xs ++ [x]). split; [by rewrite rev_app_distr, <- app_assoc|]. split_and!.
    + by eapply chain_step.
    + apply Forall2_app; [done|by repeat constructor].
    + rewrite length_app. simpl. lia.
  - subst i. rewrite (proj2 (ex_source _ _ _ Hex)) in Hd. lia.
Qed.

(** The path climbed from a found node. *)
Lemma witness_path_chain identities processed st d i :
  length identities = n -> explored processed st d -> i ∈ found processed st ->
  exists l xs, reconstruct_witness_path i (parent st) identities = Ok xs
    /\ chain reverse source l i /\ named identities l xs /\ length l = S (d i).
Proof using Hsource.
  intros Hn Hex Hin. destruct (climb_chain identities processed st d Hn Hex (d i) i (S (length (parent st))) [])
    as (l & xs & Ec & Hc & Hnames & Hlen); [done..| |].
  - rewrite (ex_parents _ _ _ Hex). apply list_elem_of_lookup in Hin as [k Hk].
    pose proof (ex_rank _ _ _ Hex _ _ Hk). apply lookup_lt_Some in Hk.
    pose proof (below_length _ (ex_nodup _ _ _ Hex) (ex_below _ _ _ Hex)). lia.
  - exists l, xs. unfold reconstruct_witness_path. rewrite Ec. cbn [mbind result_bind app].
    rewrite rev_alt. change (rev_append xs []) with (list.reverse xs). by rewrite reverse_involutive.
Qed.

(** When the queue is empty the distances are shortest. *)
Lemma between_shortest processed st d l i :
  between processed st d -> queue st = [] -> chain reverse source l i ->
  i ∈ found processed st /\ (S (d i) <= length l)%nat.
Proof.
  intros (Hex & _ & Hclosed) Hq Hc. destruct (ex_source _ _ _ Hex) as [Hs Hs0].
  induction Hc as [|l b c Hc [Hb Hd] Hr]; [by rewrite Hs0|].
  unfold found in Hb. rewrite Hq, app_nil_r in Hb. destruct (Hclosed b c Hb Hr) as [Hin Hdc].
  split; [done|]. rewrite length_app. simpl. lia.
Qed.

(** [l] is a chain to [i], and no chain to [i] is shorter. *)
Definition shortest_chain (l : list Z) (i : Z) : Prop :=
  chain reverse source l i /\ forall l', chain reverse source l' i -> (length l <= length l')%nat.

Lemma search_correct identities : length identities = n ->
  exists st, (st ← search_start n source; search n reverse st) = Ok st
    /\ forall i, 0 <= i < Z.of_nat n -> exists b, at_ordinal (visited st) i = Some b
      /\ (b = true <-> exists l, chain reverse source l i)
      /\ (b = true -> exists l xs, reconstruct_witness_path i (parent st) identities = Ok xs
            /\ shortest_chain l i /\ named identities l xs).
Proof using Hsource Hwf.
  intros Hn. destruct search_between as (processed & st & d & E & Hbet & Hq). exists st. split; [done|].
  intros i Hi. pose proof (proj1 Hbet) as Hex. rewrite (ex_visited _ _ _ Hex i Hi). eexists. split; [done|].
  rewrite bool_decide_eq_true.
  assert (i ∈ found processed st -> exists l xs, reconstruct_witness_path i (parent st) identities = Ok xs
    /\ shortest_chain l i /\ named identities l xs) as Hpath.
  { intros Hin. destruct (witness_path_chain identities processed st d i Hn Hex Hin) as (l & xs & Ec & Hc & Hnames & Hlen).
    exists l, xs. split; [done|]. split; [|done]. split; [done|].
    intros l' Hc'. destruct (between_shortest _ _ _ _ _ Hbet Hq Hc'). lia. }
  split; [|done]. split.
  - intros (l & xs & _ & [Hc _] & _)%Hpath. by exists l.
  - intros [l Hc]. by destruct (between_shortest _ _ _ _ _ Hbet Hq Hc).
Qed.

(** Before the queue is empty: a chain to a node not yet found is longer than
    the distance of the head of the queue. *)
Lemma front_shortest processed st d h rest l i :
  between processed st d -> queue st = h :: rest -> chain reverse source l i ->
  (i ∈ found processed st /\ (S (d i) <= length l)%nat) \/ (S (d h) < length l)%nat.
Proof.
  intros (Hex & _ & Hclosed) Hq Hc. destruct (ex_source _ _ _ Hex) as [Hs Hs0].
  assert (forall x, x ∈ queue st -> (d h <= d x)%nat) as Hhead.
  { pose proof (ex_queue _ _ _ Hex) as Hsq. rewrite Hq in *. apply StronglySorted_inv in Hsq as [_ Hf].
    rewrite Forall_forall in Hf. intros x [->|Hx]%elem_of_cons; [done|by apply Hf]. }
  induction Hc as [|l b c Hc IH Hr]; [left; by rewrite Hs0|]. rewrite length_app. simpl.
  destruct IH as [[Hb Hd]|Hlt]; [|right; lia]. apply elem_of_app in Hb as [Hb|Hb].
  - left. destruct (Hclosed b c Hb Hr). split; [done|lia].
  - right. specialize (Hhead b Hb). lia.
Qed.

Lemma search_root_total g root fuel : df_reverse g = reverse -> length (df_identities g) = n ->
  forall processed st d, between processed st d -> root ∉ processed -> (n <= fuel + length processed)%nat ->
  (exists l xs, search_root fuel g root st = Ok xs /\ shortest_chain l root /\ named (df_identities g) l xs)
  \/ (is_err (search_root fuel g root st) = true /\ ~ exists l, chain reverse source l root).
Proof using Hsource Hwf.
  intros Hrev Hn. induction fuel as [|fuel IH]; intros processed st d Hbet Hroot Hfuel; simpl;
    destruct (queue st) as [|h rest] eqn:Hq.
  1,3: right; split; [done|]; intros [l Hc]; destruct (between_shortest _ _ _ _ _ Hbet Hq Hc) as [Hin _];
    unfold found in Hin; rewrite Hq, app_nil_r in Hin; done.
  - pose proof (processed_bound _ _ _ _ _ Hq (proj1 Hbet)). lia.
  - assert (h ∈ found processed st) as Hh by (unfold found; rewrite Hq; set_solver).
    destruct (Z.eqb_spec h root) as [->|Hne].
    + left. destruct (witness_path_chain (df_identities g) processed st d root Hn (proj1 Hbet) Hh)
        as (l & xs & -> & Hc & Hnames & Hlen).
      exists l, xs. split; [done|]. split; [|done]. split; [done|]. intros l' Hc'.
      destruct (front_shortest _ _ _ _ _ _ _ Hbet Hq Hc') as [[_ H]|H]; lia.
    + destruct (node_predecessors h (ex_below _ _ _ (proj1 Hbet) h Hh)) as [preds Hpreds].
      rewrite Hrev, Hpreds. cbn [ok_or mbind result_bind].
      destruct (round_between _ _ _ _ _ _ Hq Hbet Hpreds) as (st1 & d1 & -> & Hbet1). cbn [mbind result_bind].
      apply (IH _ _ _ Hbet1); [set_solver|]. rewrite length_app. simpl. lia.
Qed.
End Search.

(** ** Affected roots *)

(** A chain of references in terms of identities: [x] first, each next
    identity refers to the one before it, [y] last. *)
Inductive reference_chain (references : list ResolvedReference) (x : ExactDatasetIdentity)
    : list ExactDatasetIdentity -> ExactDatasetIdentity -> Prop :=
| reference_chain_start : reference_chain references x [x] x
| reference_chain_step p y z :
    reference_chain references x p y -> reference_between references y z -> reference_chain references x (p ++ [z]) z.

Definition shortest_reference_chain (references : list ResolvedReference) (x y : ExactDatasetIdentity)
    (p : list ExactDatasetIdentity) : Prop :=
  reference_chain references x p y
  /\ forall q, reference_chain references x q y -> (length p <= length q)%nat.

Lemma from_references_spec references roots g : from_references references roots = Ok g ->
  graph_wf g /\ g_identities g = graph_identities references roots
  /\ (forall x y i j, g_ids g !! x = Some i -> g_ids g !! y = Some j ->
        refers (g_reverse g) i j <-> reference_between references x y).
Proof.
  intros Hg. destruct (Z.le_gt_cases (Z.of_nat (length (graph_identities references roots))) (U32_MAX + 1)) as [Hs|Hs].
  - destruct (from_references_ok references roots Hs) as (g' & E & H). rewrite Hg in E. by injection E as <-.
  - unfold from_references in Hg. cbv zeta in Hg. destruct (numbered_err _ Hs) as [e He]. by rewrite He in Hg.
Qed.

Section Affected.
Context (references : list ResolvedReference) (roots : list ExactDatasetIdentity) (g : CompactReferenceGraph)
  (Hg : from_references references roots = Ok g).

Lemma ids_lookup x i : g_ids g !! x = Some i <-> 0 <= i /\ at_ordinal (g_identities g) i = Some x.
Proof using Hg. destruct (from_references_spec _ _ _ Hg) as ((_ & Hids & _) & _). apply Hids. Qed.

Lemma ids_some x : x ∈ g_identities g -> exists i, g_ids g !! x = Some i.
Proof using Hg.
  intros [k Hk]%list_elem_of_lookup. exists (Z.of_nat k). apply ids_lookup. unfold at_ordinal. rewrite Nat2Z.id.
  split; [lia|done].
Qed.

Lemma ids_range x i : g_ids g !! x = Some i -> 0 <= i < Z.of_nat (node_count g).
Proof using Hg. intros [Hi Hx]%ids_lookup. apply lookup_lt_Some in Hx. unfold node_count. lia. Qed.

Lemma root_has_id x : x ∈ roots -> exists i, g_ids g !! x = Some i.
Proof using Hg.
  intros Hx. apply ids_some. destruct (from_references_spec _ _ _ Hg) as (_ & -> & _).
  apply elem_of_graph_identities. by right.
Qed.

Lemma refers_between x y i j : g_ids g !! x = Some i -> g_ids g !! y = Some j ->
  refers (g_reverse g) i j <-> reference_between references x y.
Proof using Hg. destruct (from_references_spec _ _ _ Hg) as (_ & _ & Hr). apply Hr. Qed.

Lemma chain_names x source l i : g_ids g !! x = Some source -> chain (g_reverse g) source l i ->
  forall xs, named (g_identities g) l xs ->
  exists y, g_ids g !! y = Some i /\ reference_chain references x xs y.
Proof using Hg.
  intros Hx Hc. induction Hc as [|l b c Hc IH Hr]; intros xs Hn.
  - apply Forall2_cons_inv_l in Hn as (y & ys & Hy & Hn & ->). apply Forall2_nil_inv_l in Hn as ->.
    apply ids_lookup in Hx as Hx'. destruct Hx' as [_ Hx']. rewrite Hx' in Hy. injection Hy as <-.
    exists x. split; [done|constructor].
  - apply Forall2_app_inv_l in Hn as (ys & zs & Hys & Hzs & ->).
    apply Forall2_cons_inv_l in Hzs as (z & zs' & Hz & Hn & ->). apply Forall2_nil_inv_l in Hn as ->.
    destruct (IH ys Hys) as (y & Hy & Hyc). assert (g_ids g !! z = Some c) as Hzc.
    { apply ids_lookup. split; [|done]. destruct (from_references_spec _ _ _ Hg) as ((_ & _ & Hwf) & _).
      apply (refers_below _ _ Hwf) in Hr. lia. }
    exists z. split; [done|]. eapply reference_chain_step; [exact Hyc|]. by apply (refers_between y z b c).
Qed.

Lemma reference_chain_ordinals x source p y : g_ids g !! x = Some source -> reference_chain references x p y ->
  exists l i, g_ids g !! y = Some i /\ chain (g_reverse g) source l i /\ named (g_identities g) l p.
Proof using Hg.
  intros Hx Hc. induction Hc as [|p y z Hc (l & i & Hi & Hl & Hn) Hr].
  - exists [source], source. split_and!; [done|constructor|]. repeat constructor. by apply ids_lookup in Hx as [_ ?].
  - destruct (ids_some z) as [j Hj].
    { destruct (from_references_spec _ _ _ Hg) as (_ & -> & _). apply elem_of_graph_identities. left.
      destruct Hr as (r & Hr & _ & <-). exists r. auto. }
    exists (l ++ [j]), j. split_and!; [done| |].
    + eapply chain_step; [done|]. by apply (refers_between y z i j).
    + apply Forall2_app; [done|]. repeat constructor. by apply ids_lookup in Hj as [_ ?].
Qed.

Lemma named_length l xs : named (g_identities g) l xs -> length l = length xs.
Proof. apply Forall2_length. Qed.

(** The search from [x], in terms of identities. *)
Lemma affected_search x source : g_ids g !! x = Some source ->
  exists st, (st ← search_start (node_count g) source; search (node_count g) (g_reverse g) st) = Ok st
    /\ forall y i, g_ids g !! y = Some i -> exists b, at_ordinal (visited st) i = Some b
      /\ (b = true <-> exists p, reference_chain references x p y)
      /\ (b = true -> exists p, reconstruct_witness_path i (parent st) (g_identities g) = Ok p
            /\ shortest_reference_chain references x y p).
Proof using Hg.
  intros Hx. destruct (from_references_spec _ _ _ Hg) as ((_ & _ & Hwf) & _).
  destruct (search_correct (node_count g) (g_reverse g) Hwf source (ids_range _ _ Hx) (g_identities g) eq_refl)
    as (st & -> & Hst). exists st. split; [done|]. intros y i Hy.
  assert (forall z, g_ids g !! z = Some i -> z = y) as Huniq.
  { intros z [_ Hz]%ids_lookup. apply ids_lookup in Hy as [_ Hy]. congruence. }
  destruct (Hst i (ids_range _ _ Hy)) as (b & -> & Hb & Hpath). exists b. split; [done|].
  assert (b = true -> exists p, reconstruct_witness_path i (parent st) (g_identities g) = Ok p
            /\ shortest_reference_chain references x y p) as Hsp.
  { intros (l & xs & E & [Hc Hmin] & Hn)%Hpath. exists xs. split; [done|].
    destruct (chain_names _ _ _ _ Hx Hc xs Hn) as (z & Hz & Hzc). apply Huniq in Hz as ->. split; [done|].
    intros q Hq. destruct (reference_chain_ordinals _ _ _ _ Hx Hq) as (l' & i' & Hi' & Hc' & Hn').
    rewrite Hy in Hi'. injection Hi' as <-. apply Hmin in Hc'. by rewrite (named_length _ _ Hn), (named_length _ _ Hn') in Hc'. }
  split; [|done]. rewrite Hb. split.
  - intros Hl. apply Hb in Hl. destruct (Hsp Hl) as (p & _ & [Hp _]). by exists p.
  - intros [p Hp]. destruct (reference_chain_ordinals _ _ _ _ Hx Hp) as (l & i' & Hi' & Hc & _).
    rewrite Hy in Hi'. injection Hi' as <-. by exists l.
Qed.
End Affected.

Lemma sample_roots (witness : ExactDatasetIdentity -> list ExactDatasetIdentity) hits :
  foldM (fun acc y => sample_root acc y (witness y)) hits (mk_affected 0 [] [])
  = Ok (mk_affected (Z.min (Z.of_nat (length hits)) U32_MAX) (take ISSUE_INLINE_AFFECTED_ROOT_SAMPLE_LIMIT hits)
         (take ISSUE_INLINE_AFFECTED_ROOT_SAMPLE_LIMIT (witness <$> hits))).
Proof.
  set (limit := ISSUE_INLINE_AFFECTED_ROOT_SAMPLE_LIMIT).
  induction hits as [|y hits IH] using rev_ind; [by rewrite !take_nil|].
  rewrite foldM_app, IH. cbn [mbind result_bind foldM]. unfold sample_root. cbn [ar_count ar_affected ar_witnesses].
  fold limit. rewrite length_app, fmap_app. cbn [length fmap list_fmap]. rewrite length_take.
  assert (Z.min (Z.min (Z.of_nat (length hits)) U32_MAX + 1) U32_MAX = Z.min (Z.of_nat (length hits + 1)) U32_MAX) as ->
    by (unfold U32_MAX; lia).
  destruct (Nat.ltb_spec (limit `min` length hits) limit) as [Hlt|Hge]; do 2 f_equal.
  - rewrite (take_ge hits), (take_ge (hits ++ [y])) by (rewrite ?length_app; simpl; lia). done.
  - rewrite (take_ge (witness <$> hits)), (take_ge ((witness <$> hits) ++ [witness y]))
      by (rewrite ?length_app, ?length_fmap; simpl; lia). done.
  - by rewrite take_app_le by lia.
  - by rewrite take_app_le by (rewrite length_fmap; lia).
Qed.

Lemma fold_affected {S} (ids : gmap ExactDatasetIdentity Z) (body : S -> Z -> result string S)
    (visit : S -> ExactDatasetIdentity -> list ExactDatasetIdentity -> result string S)
    (affected : ExactDatasetIdentity -> bool) (witness : ExactDatasetIdentity -> list ExactDatasetIdentity) candidates s :
  (forall y i s, ids !! y = Some i -> body s i = if affected y then visit s y (witness y) else Ok s) ->
  (forall y, ids !! y = None -> affected y = false) ->
  foldM body (omap (fun y => ids !! y) candidates) s
  = foldM (fun s y => visit s y (witness y)) (filter (fun y => affected y = true) candidates) s.
Proof.
  intros Hbody Hnone. revert s. induction candidates as [|y ys IH]; intros s; simpl; [done|].
  rewrite filter_cons. destruct (ids !! y) as [i|] eqn:Hi.
  - cbn [foldM]. rewrite (Hbody y i s Hi). destruct (affected y).
    + rewrite decide_True by done. cbn [foldM]. destruct (visit s y (witness y)); [apply IH|done..].
    + rewrite decide_False by done. apply IH.
  - rewrite (Hnone y Hi), decide_False by done. apply IH.
Qed.

(** The searched state answers every question about the roots. *)
Lemma visit_affected {S} references roots g x source candidates
    (visit : S -> ExactDatasetIdentity -> list ExactDatasetIdentity -> result string S) s :
  from_references references roots = Ok g -> g_ids g !! x = Some source ->
  exists (affected : ExactDatasetIdentity -> bool) (witness : ExactDatasetIdentity -> list ExactDatasetIdentity),
    (forall y, affected y = true <-> exists p, reference_chain references x p y)
    /\ (forall y, affected y = true -> shortest_reference_chain references x y (witness y))
    /\ visit_single_source_affected_roots source (omap (fun y => g_ids g !! y) candidates) g visit s
       = foldM (fun s y => visit s y (witness y)) (filter (fun y => affected y = true) candidates) s.
Proof.
  intros Hg Hx. destruct (affected_search references roots g Hg x source Hx) as (st & E & Hst).
  set (affected := fun y => match g_ids g !! y with Some i => default false (at_ordinal (visited st) i) | None => false end).
  set (witness := fun y => match g_ids g !! y with
    | Some i => match reconstruct_witness_path i (parent st) (g_identities g) with Ok p => p | _ => [] end
    | None => [] end).
  exists affected, witness. split_and!.
  - intros y. unfold affected. destruct (g_ids g !! y) as [i|] eqn:Hy.
    + destruct (Hst y i Hy) as (b & -> & Hb & _). exact Hb.
    + split; [done|]. intros [p Hp]. destruct (reference_chain_ordinals _ _ _ Hg _ _ _ _ Hx Hp) as (l & i & Hi & _). congruence.
  - intros y. unfold affected, witness. destruct (g_ids g !! y) as [i|] eqn:Hy; [|done].
    destruct (Hst y i Hy) as (b & -> & _ & Hp). simpl. intros (p & -> & Hp')%Hp. exact Hp'.
  - unfold visit_single_source_affected_roots. unfold node_count in E.
    destruct (search_start (length (g_identities g)) source) as [st0| |]; try done.
    cbn [mbind result_bind] in E |- *. rewrite E. cbn [mbind result_bind].
    apply fold_affected; [|intros y Hy; unfold affected; by rewrite Hy].
    intros y i s' Hy. unfold affected, witness. rewrite Hy. destruct (Hst y i Hy) as (b & -> & _ & Hp).
    cbn [expect mbind result_bind default]. destruct b; [|done]. destruct (Hp eq_refl) as (p & -> & _).
    cbn [mbind result_bind]. apply (ids_lookup _ _ _ Hg) in Hy as [_ ->]. done.
Qed.

(** C8: the affected roots of an issue are exactly the requested roots with a
    chain of references to its source, each reported with a shortest such
    chain.  On a graph built from the resolved references the computation never
    fails, and its saturated count, its first hundred roots and their witness
    paths are those of the roots that reach the source, in order. *)
Theorem affected_roots_exact references roots g x source candidates :
  from_references references roots = Ok g -> g_ids g !! x = Some source ->
  exists (affected : ExactDatasetIdentity -> bool) (witness : ExactDatasetIdentity -> list ExactDatasetIdentity),
    (forall y, affected y = true <-> exists p, reference_chain references x p y)
    /\ (forall y, affected y = true -> shortest_reference_chain references x y (witness y))
    /\ let hits := filter (fun y => affected y = true) candidates in
       compute_single_source_affected_roots source (omap (fun y => g_ids g !! y) candidates) g
       = Ok (mk_affected (Z.min (Z.of_nat (length hits)) U32_MAX) (take ISSUE_INLINE_AFFECTED_ROOT_SAMPLE_LIMIT hits)
              (take ISSUE_INLINE_AFFECTED_ROOT_SAMPLE_LIMIT (witness <$> hits))).
Proof.
  intros Hg Hx.
  destruct (visit_affected references roots g x source candidates sample_root (mk_affected 0 [] []) Hg Hx)
    as (affected & witness & Ha & Hw & E).
  exists affected, witness. split_and!; [done..|]. cbv zeta. unfold compute_single_source_affected_roots.
  by rewrite E, sample_roots.
Qed.

(** ** Witnesses from the frozen artifact *)

Definition frozen_wf (g : DecodedFrozenReferenceGraph) : Prop :=
  reverse_wf (length (df_identities g)) (df_reverse g) /\ ordinals_below (length (df_identities g)) (df_root_ordinals g).

Lemma frozen_witness_search g source k root :
  frozen_wf g -> 0 <= source < Z.of_nat (length (df_identities g)) -> at_ordinal (df_root_ordinals g) k = Some root ->
  (exists l xs, reconstruct_frozen_graph_witness g source k = Ok xs
     /\ shortest_chain (df_reverse g) source l root /\ named (df_identities g) l xs)
  \/ (is_err (reconstruct_frozen_graph_witness g source k) = true /\ ~ exists l, chain (df_reverse g) source l root).
Proof.
  intros [Hwf Hroots] Hs Hk. unfold reconstruct_frozen_graph_witness. rewrite Hk. cbn [ok_or mbind result_bind].
  rewrite (proj2 (Z.leb_gt _ _)) by lia. cbn [negb ensure mbind result_bind].
  destruct (search_start_explored (length (df_identities g)) (df_reverse g) Hwf source Hs) as (st & -> & Hq & Hex).
  cbn [mbind result_bind].
  apply (search_root_total (length (df_identities g)) (df_reverse g) Hwf source Hs g root (length (df_identities g)) eq_refl eq_refl
    [] st (fun _ => O)); [|set_solver|simpl; lia].
  split; [done|]. split; [intros; lia|]. intros p i ?%elem_of_nil. done.
Qed.

(** ** A small graph: a process refers to a flow, which refers to a unit group;
    a method refers to the same flow; a second process refers to nothing. *)

Definition sample_process : ExactDatasetIdentity := mk_identity Processes 1 "01.00.000".
Definition sample_isolated : ExactDatasetIdentity := mk_identity Processes 2 "01.00.000".
Definition sample_method : ExactDatasetIdentity := mk_identity Lciamethods 3 "01.00.000".
Definition sample_flow : ExactDatasetIdentity := mk_identity Flows 4 "01.00.000".
Definition sample_unit : ExactDatasetIdentity := mk_identity Unitgroups 5 "01.00.000".
Definition sample_reference (source target : ExactDatasetIdentity) : ResolvedReference :=
  mk_resolved source target "$" "support_document" "explicit".
Definition sample_references : list ResolvedReference :=
  [sample_reference sample_process sample_flow; sample_reference sample_flow sample_unit;
   sample_reference sample_method sample_flow; sample_reference sample_method sample_unit].
Definition requested_roots : list ExactDatasetIdentity := [sample_method; sample_process; sample_isolated].
Definition sample_graph : CompactReferenceGraph :=
  match from_references sample_references requested_roots with Ok g => g | _ => mk_graph [] ∅ [] end.

Lemma affected_roots_exact_witness :
  from_references sample_references requested_roots = Ok sample_graph
  /\ g_ids sample_graph !! sample_unit = Some 4
  /\ compute_single_source_affected_roots 4 (omap (fun y => g_ids sample_graph !! y) requested_roots) sample_graph
     = Ok (mk_affected 2 [sample_method; sample_process]
            [[sample_unit; sample_method]; [sample_unit; sample_flow; sample_process]])
  /\ exists (affected : ExactDatasetIdentity -> bool), forall y,
       affected y = true <-> exists p, reference_chain sample_references sample_unit p y.
Proof.
  split; [by vm_compute|]. split; [by vm_compute|]. split; [by vm_compute|].
  destruct (affected_roots_exact sample_references requested_roots sample_graph sample_unit 4 requested_roots
    ltac:(by vm_compute) ltac:(by vm_compute)) as (affected & witness & Ha & _).
  by exists affected.
Defined.
