(* ===== verification/BinarySearch.v ===== *)
(** * Binary search, as the standard library performs it

    [slice::binary_search_by]: [Ok(index)] of an equal element, or [Err(index)]
    where one could be inserted, and what that means on a sorted slice. *)

From S2P Require Import Prelude.

Local Open Scope nat_scope.

Section BinarySearch.
Context {A : Type} (f : A -> comparison).

(** The loop halves [size] until one candidate at [base] is left. *)
Fixpoint bisect (fuel : nat) (l : list A) (base size : nat) : nat :=
  match fuel with
  | O => base
  | S fuel =>
      if 1 <? size then
        let half := size / 2 in
        let mid := base + half in
        let base := match f <$> l !! mid with Some Gt => base | _ => mid end in
        bisect fuel l base (size - half)
      else base
  end.

Definition binary_search_by (l : list A) : nat + nat :=
  match l with
  | [] => inr 0
  | _ =>
      let base := bisect (length l) l 0 (length l) in
      match f <$> l !! base with
      | Some Eq => inl base
      | Some Lt => inr (base + 1)
      | _ => inr base
      end
  end.

(** The elements compare less, then equal, then greater. *)
Definition rank (c : comparison) : nat := match c with Lt => 0 | Eq => 1 | Gt => 2 end.
Definition ordered_by (l : list A) : Prop :=
  forall i j a b, l !! i = Some a -> l !! j = Some b -> i < j -> rank (f a) <= rank (f b).

Lemma bisect_spec l : ordered_by l -> forall fuel base size,
  size <= fuel -> 1 <= size -> base + size <= length l ->
  (base = 0 \/ exists a, l !! base = Some a /\ f a <> Gt) ->
  (forall j b, l !! j = Some b -> base + size <= j -> f b = Gt) ->
  let base' := bisect fuel l base size in
  base' < length l /\ (base' = 0 \/ exists a, l !! base' = Some a /\ f a <> Gt)
  /\ (forall j b, l !! j = Some b -> base' < j -> f b = Gt).
Proof.
  intros Ho. induction fuel as [|fuel IH]; intros base size Hf Hs Hl Hlow Hhigh; [lia|]. cbn [bisect].
  destruct (Nat.ltb_spec 1 size) as [H1|H1].
  - pose proof (Nat.div_lt size 2 ltac:(lia) ltac:(lia)) as Hh. pose proof (Nat.div_str_pos size 2 ltac:(lia)) as Hp.
    pose proof (Nat.Div0.mul_div_le size 2) as H2. set (half := size / 2) in *. destruct (lookup_lt_is_Some_2 l (base + half)) as [m Hm]; [lia|].
    cbv zeta. rewrite Hm. cbn [fmap option_fmap option_map]. destruct (f m) eqn:Em; apply IH; try lia.
    + right. exists m. rewrite Em. done.
    + intros j b Hj Hle. apply (Hhigh j b Hj). lia.
    + right. exists m. rewrite Em. done.
    + intros j b Hj Hle. apply (Hhigh j b Hj). lia.
    + exact Hlow.
    + intros j b Hj Hle. destruct (decide (j = base + half)) as [->|Hne]; [congruence|].
      pose proof (Ho (base + half) j m b Hm Hj ltac:(lia)) as Hr. rewrite Em in Hr. destruct (f b); simpl in Hr; (done || lia).
  - split_and!; [lia|exact Hlow|]. intros j b Hj Hle. apply (Hhigh j b Hj). lia.
Qed.

Lemma binary_search_spec l : ordered_by l ->
  match binary_search_by l with
  | inl i => exists a, l !! i = Some a /\ f a = Eq
  | inr i => i <= length l
      /\ (forall j a, l !! j = Some a -> j < i -> f a = Lt) /\ (forall j a, l !! j = Some a -> i <= j -> f a = Gt)
  end.
Proof.
  intros Ho. unfold binary_search_by. destruct l as [|x l'] eqn:El.
  { split_and!; [done|intros; lia|intros j a Hj; by rewrite lookup_nil in Hj]. }
  rewrite <- El in *. assert (1 <= length l) as Hl by (rewrite El; simpl; lia). clear El.
  destruct (bisect_spec l Ho (length l) 0 (length l)) as (Hb & Hlow & Hhigh); [lia..|by left| |].
  { intros j b Hj Hle. apply lookup_lt_Some in Hj. lia. }
  set (base := bisect (length l) l 0 (length l)) in *.
  destruct (lookup_lt_is_Some_2 l base Hb) as [m Hm]. rewrite Hm. simpl. destruct (f m) eqn:Em.
  - by exists m.
  - split_and!; [lia| |].
    + intros j a Hj Hlt. destruct (decide (j = base)) as [->|Hne]; [congruence|].
      pose proof (Ho j base a m Hj Hm ltac:(lia)) as Hr. rewrite Em in Hr. destruct (f a); simpl in Hr; (done || lia).
    + intros j a Hj Hle. apply (Hhigh j a Hj). lia.
  - destruct Hlow as [H0|(a & Ha & Hne)]; [|congruence]. split_and!; [lia|intros; lia|].
    intros j a Hj Hle. destruct (decide (j = base)) as [->|Hne]; [congruence|]. apply (Hhigh j a Hj). lia.
Qed.
End BinarySearch.

(** [binary_search(&x).is_ok()] on a strictly ascending slice is membership. *)
Definition binary_contains (l : list Z) (x : Z) : bool :=
  match binary_search_by (fun a => Z.compare a x) l with inl _ => true | inr _ => false end.

Lemma binary_contains_spec l x : StronglySorted Z.lt l -> binary_contains l x = true <-> x ∈ l.
Proof.
  intros Hs. assert (ordered_by (fun a => Z.compare a x) l) as Ho.
  { intros i j a b Ha Hb Hij. assert (a < b)%Z as Hab.
    { clear x. revert i j Ha Hb Hij. induction Hs as [|y l Hs IH Hall]; intros [|i] [|j] Ha Hb Hij; try done; try lia.
      - injection Ha as ->. rewrite Forall_forall in Hall. apply Hall. by eapply list_elem_of_lookup_2.
      - simpl in *. eapply IH; [done..|lia]. }
    simpl. do 2 case Z.compare_spec; intros; simpl; lia. }
  pose proof (binary_search_spec _ l Ho) as Hsp. unfold binary_contains.
  destruct (binary_search_by _ l) as [i|i].
  - destruct Hsp as (a & Ha & ->%Z.compare_eq_iff). split; [intros _; by eapply list_elem_of_lookup_2|done].
  - destruct Hsp as (_ & Hlt & Hgt). split; [done|]. intros [j Hj]%list_elem_of_lookup.
    destruct (decide (j < i)) as [H|H].
    + specialize (Hlt j x Hj H). rewrite Z.compare_refl in Hlt. done.
    + specialize (Hgt j x Hj ltac:(lia)). rewrite Z.compare_refl in Hgt. done.
Qed.
