(* ===== verification/Wire.v ===== *)
(** * The compact evidence encodings

    The two binary artifacts of the source closure (scope_closure.rs): the
    root-impact index and the frozen reference graph.  The writers append to an
    encoder that also counts and hashes what it is given; the readers decode
    the bytes again.  Bytes are [ascii]; integers are little endian at their
    width, and lists of ordinals are delta-coded in groups of seven bits. *)

From S2P Require Import Prelude Text Json DataBuilder Identity RefGraph BinarySearch.

Local Open Scope string_scope.
Local Open Scope Z_scope.
Local Open Scope list_scope.

(** ** Bytes and integers *)

Definition U8_MAX : Z := 2^8 - 1.
Definition U16_MAX : Z := 2^16 - 1.

Definition u8 (z : Z) : ascii := ascii_of_N (Z.to_N z).
Definition z_of_byte (b : ascii) : Z := Z.of_N (N_of_ascii b).

(** [to_le_bytes] and [from_le_bytes] of a [k]-byte integer. *)
Fixpoint to_le_bytes (k : nat) (value : Z) : list ascii :=
  match k with
  | O => []
  | S k => u8 (value `mod` 256) :: to_le_bytes k (value / 256)
  end.
Definition from_le_bytes (l : list ascii) : Z := foldr (fun b acc => z_of_byte b + 256 * acc) 0 l.

(** [u16::try_from(n : usize)]. *)
Definition u16_of_usize {E} (e : E) (n : nat) : result E Z :=
  if Z.of_nat n <=? U16_MAX then Ok (Z.of_nat n) else Err e.

(** [String::from_utf8]: the well-formed byte sequences of the Unicode
    standard. *)
Definition in_range (lo hi : Z) (b : ascii) : bool := (lo <=? z_of_byte b) && (z_of_byte b <=? hi).
Definition continuation : ascii -> bool := in_range 128 191.

Fixpoint valid_utf8 (l : list ascii) : bool :=
  match l with
  | [] => true
  | a :: l1 =>
      if in_range 0 127 a then valid_utf8 l1
      else match l1 with
      | [] => false
      | b :: l2 =>
          if in_range 194 223 a && continuation b then valid_utf8 l2
          else match l2 with
          | [] => false
          | c :: l3 =>
              if ((in_range 224 224 a && in_range 160 191 b) || (in_range 225 236 a && continuation b)
                  || (in_range 237 237 a && in_range 128 159 b) || (in_range 238 239 a && continuation b))
                 && continuation c
              then valid_utf8 l3
              else match l3 with
              | [] => false
              | d :: l4 =>
                  ((in_range 240 240 a && in_range 144 191 b) || (in_range 241 243 a && continuation b)
                   || (in_range 244 244 a && in_range 128 143 b))
                  && continuation c && continuation d && valid_utf8 l4
              end
          end
      end
  end.
Definition from_utf8 (l : list ascii) : result string string :=
  if valid_utf8 l then Ok (of_bytes l) else Err "invalid utf-8 sequence".

(** ** The evidence writer *)

(** What the encoder was given, its count and the number of records. *)
Record CompactEvidenceWriter := mk_writer {
  ew_path : string;
  ew_media_type : string;
  ew_bytes : list ascii;
  ew_size : Z;
  ew_records : Z;
}.
Record CompactEvidenceFile := mk_evidence {
  ef_path : string;
  ef_media_type : string;
  ef_records : Z;
  ef_uncompressed_size : Z;
  ef_uncompressed_sha256 : string;
  ef_compressed_size : Z;
  ef_compressed_sha256 : string;
}.

(** The storage beneath: whether the encoder takes [new] after [written], and
    the compressed stream it leaves behind when it can be finished. *)
Class EvidenceSink := {
  sink_accepts : list ascii -> list ascii -> bool;
  zstd_stream : list ascii -> option (list ascii);
}.

Section Writers.
Context `{EvidenceSink, ClosureLib}.

Definition evidence_new (path media_type : string) : CompactEvidenceWriter := mk_writer path media_type [] 0 0.

Definition write_all (w : CompactEvidenceWriter) (new : list ascii) : result string CompactEvidenceWriter :=
  _ ← ensure (sink_accepts (ew_bytes w) new) "write failed";
  _ ← ensure (ew_size w + Z.of_nat (length new) <=? U64_MAX) "compact evidence byte count overflow";
  Ok (mk_writer (ew_path w) (ew_media_type w) (ew_bytes w ++ new) (ew_size w + Z.of_nat (length new)) (ew_records w)).

Definition record_completed (w : CompactEvidenceWriter) : result string CompactEvidenceWriter :=
  _ ← ensure (ew_records w + 1 <=? U64_MAX) "compact evidence record count overflow";
  Ok (mk_writer (ew_path w) (ew_media_type w) (ew_bytes w) (ew_size w) (ew_records w + 1)).

Definition evidence_finish (w : CompactEvidenceWriter) : result string CompactEvidenceFile :=
  compressed ← ok_or "finish failed" (zstd_stream (ew_bytes w));
  Ok (mk_evidence (ew_path w) (ew_media_type w) (ew_records w) (ew_size w) (sha256_hex (ew_bytes w))
        (Z.of_nat (length compressed)) (sha256_hex compressed)).

Definition write_u16 (w : CompactEvidenceWriter) (value : Z) : result string CompactEvidenceWriter :=
  write_all w (to_le_bytes 2 value).
Definition write_u32 (w : CompactEvidenceWriter) (value : Z) : result string CompactEvidenceWriter :=
  write_all w (to_le_bytes 4 value).
Definition write_u64 (w : CompactEvidenceWriter) (value : Z) : result string CompactEvidenceWriter :=
  write_all w (to_le_bytes 8 value).
Definition write_compact_string (w : CompactEvidenceWriter) (value : string) : result string CompactEvidenceWriter :=
  n ← u32_of_usize try_from_int_error (length (bytes value));
  w ← write_u32 w n;
  write_all w (bytes value).

(** One ordinal in groups of seven bits, lowest first; a [u32] has five. *)
Fixpoint write_varint (fuel : nat) (w : CompactEvidenceWriter) (delta : Z) : result string CompactEvidenceWriter :=
  let byte := Z.land delta 127 in
  let delta := Z.shiftr delta 7 in
  let byte := if delta =? 0 then byte else Z.lor byte 128 in
  w ← write_all w [u8 byte];
  if delta =? 0 then Ok w
  else match fuel with
       | O => Panic
       | S fuel => write_varint fuel w delta
       end.

(** The loop state: the writer and the previous ordinal, [None] before the first. *)
Definition write_ordinal (st : CompactEvidenceWriter * option Z) (ordinal : Z)
    : result string (CompactEvidenceWriter * option Z) :=
  delta ← match st.2 with
          | None => Ok ordinal
          | Some previous =>
              if previous <=? ordinal then Ok (ordinal - previous)
              else Err "root impact ordinals are not sorted"
          end;
  w ← write_varint 4 st.1 delta;
  Ok (w, Some ordinal).
Definition write_delta_varint (w : CompactEvidenceWriter) (ordinals : list Z) : result string CompactEvidenceWriter :=
  st ← foldM write_ordinal ordinals (w, None);
  Ok st.1.

(** ** The root-impact index *)

Inductive RootImpactMode := ModeNone | AllRoots | IncludedOrdinals | ExcludedOrdinals.
#[export] Instance RootImpactMode_eq_dec : EqDecision RootImpactMode.
Proof. solve_decision. Defined.

Definition mode_byte (m : RootImpactMode) : Z :=
  match m with ModeNone => 0 | AllRoots => 1 | IncludedOrdinals => 2 | ExcludedOrdinals => 3 end.

Record RootImpactIndexWriter := mk_index_writer {
  iw_evidence : CompactEvidenceWriter;
  iw_last_key : option string;
}.

(** b"TGLCA-RI-V1\0" and b"TGLCA-FG-V1\0". *)
Definition ROOT_IMPACT_INDEX_MAGIC : list ascii := bytes "TGLCA-RI-V1" ++ [u8 0].
Definition FROZEN_REFERENCE_GRAPH_MAGIC : list ascii := bytes "TGLCA-FG-V1" ++ [u8 0].

Definition index_writer_new (root_count : nat) : result string RootImpactIndexWriter :=
  let w := evidence_new "evidence/root-impact-index-v1.bin.zst"
             "application/vnd.tiangong.scope-closure-root-impact-index+zstd" in
  w ← write_all w ROOT_IMPACT_INDEX_MAGIC;
  w ← write_u16 w 1;
  n ← u32_of_usize try_from_int_error root_count;
  w ← write_u32 w n;
  Ok (mk_index_writer w None).

Record DecodedRootImpactRecord := mk_impact {
  im_key : string;
  im_kind : Z;
  im_source : option Z;
  im_mode : RootImpactMode;
  im_affected : Z;
  im_ordinals : list Z;
}.

Definition key_not_after (previous : option string) (key : string) : bool :=
  match previous with
  | Some p => match String.compare p key with Lt => false | _ => true end
  | None => false
  end.

Definition index_append (iw : RootImpactIndexWriter) (r : DecodedRootImpactRecord) : result string RootImpactIndexWriter :=
  _ ← ensure (negb (key_not_after (iw_last_key iw) (im_key r)))
        ("root impact keys are not strictly ordered: " +:+ im_key r);
  n ← u16_of_usize try_from_int_error (length (bytes (im_key r)));
  w ← write_u16 (iw_evidence iw) n;
  w ← write_all w (bytes (im_key r));
  w ← write_all w [u8 (im_kind r)];
  w ← write_u32 w (default U32_MAX (im_source r));
  w ← write_all w [u8 (mode_byte (im_mode r))];
  w ← write_u32 w (im_affected r);
  count ← u32_of_usize try_from_int_error (length (im_ordinals r));
  w ← write_u32 w count;
  w ← write_delta_varint w (im_ordinals r);
  w ← record_completed w;
  Ok (mk_index_writer w (Some (im_key r))).

(** Ordinals as a mode and the shorter of the two lists. *)
Definition compact_root_impact_encoding (included : list Z) (root_count : nat)
    : result string (RootImpactMode * list Z) :=
  if decide (included = []) then Ok (ModeNone, [])
  else if (length included =? root_count)%nat then Ok (AllRoots, [])
  else if (length included <=? root_count - length included)%nat then Ok (IncludedOrdinals, included)
  else n ← u32_of_usize try_from_int_error root_count;
       Ok (ExcludedOrdinals, filter (fun i => i ∉ included) (Z.of_nat <$> seq 0 root_count)).

(** ** The frozen reference graph *)

(** [Uuid::as_bytes]: sixteen bytes, most significant first. *)
Definition uuid_bytes (u : Uuid) : list ascii := reverse (to_le_bytes 16 u).

Definition write_identity (w : CompactEvidenceWriter) (i : ExactDatasetIdentity) : result string CompactEvidenceWriter :=
  w ← write_compact_string w (table_name (ei_category i));
  w ← write_all w (uuid_bytes (ei_id i));
  write_compact_string w (ei_version i).
Definition write_predecessors (w : CompactEvidenceWriter) (preds : list Z) : result string CompactEvidenceWriter :=
  n ← u32_of_usize try_from_int_error (length preds);
  w ← write_u32 w n;
  write_delta_varint w preds.

(** The cancellation token, polled at every 4096th element. *)
Definition polled {A} (cancelled : string -> nat -> bool) (phase : string) (f : CompactEvidenceWriter -> A -> result string CompactEvidenceWriter)
    (w : CompactEvidenceWriter) (ix : nat * A) : result string CompactEvidenceWriter :=
  _ ← ensure (negb ((ix.1 mod 4096 =? 0)%nat && cancelled phase ix.1)) ("cancelled: " +:+ phase);
  f w ix.2.

Definition edge_count (reverse : list (list Z)) : result string Z :=
  foldM (fun total preds =>
    _ ← ensure (total + Z.of_nat (length preds) <=? U64_MAX) "reference graph edge count overflow";
    Ok (total + Z.of_nat (length preds))) reverse 0.

Definition frozen_graph_writer (cancelled : string -> nat -> bool) (g : CompactReferenceGraph) (roots : StableRootOrdinals)
    : result string CompactEvidenceWriter :=
  let w := evidence_new "evidence/frozen-reference-graph-v1.bin.zst"
             "application/vnd.tiangong.scope-closure-frozen-reference-graph+zstd" in
  w ← write_all w FROZEN_REFERENCE_GRAPH_MAGIC;
  w ← write_u16 w 1;
  nodes ← u32_of_usize try_from_int_error (length (g_identities g));
  w ← write_u32 w nodes;
  root_count ← u32_of_usize try_from_int_error (length (sr_roots roots));
  w ← write_u32 w root_count;
  edges ← edge_count (g_reverse g);
  w ← write_u64 w edges;
  w ← foldM (polled cancelled "scope_closure_frozen_graph_nodes" write_identity) (zip (seq 0 (length (g_identities g))) (g_identities g)) w;
  w ← foldM write_u32 (sr_graph_nodes roots) w;
  w ← foldM (polled cancelled "scope_closure_frozen_graph_edges" write_predecessors) (zip (seq 0 (length (g_reverse g))) (g_reverse g)) w;
  Ok (mk_writer (ew_path w) (ew_media_type w) (ew_bytes w) (ew_size w) (Z.of_nat (length (g_identities g)))).
Definition build_frozen_reference_graph_file (cancelled : string -> nat -> bool) (g : CompactReferenceGraph) (roots : StableRootOrdinals)
    : result string CompactEvidenceFile :=
  w ← frozen_graph_writer cancelled g roots;
  evidence_finish w.
End Writers.

(** ** The readers *)

Definition Reader (A : Type) : Type := list ascii -> result string (A * list ascii).

Definition read_exact (n : nat) : Reader (list ascii) := fun rest =>
  if (n <=? length rest)%nat then Ok (take n rest, drop n rest) else Err "failed to fill whole buffer".
Definition read_u8 : Reader Z := fun rest =>
  '(b, rest) ← read_exact 1 rest; Ok (from_le_bytes b, rest).
Definition read_u16 : Reader Z := fun rest =>
  '(b, rest) ← read_exact 2 rest; Ok (from_le_bytes b, rest).
Definition read_u32 : Reader Z := fun rest =>
  '(b, rest) ← read_exact 4 rest; Ok (from_le_bytes b, rest).
Definition read_u64 : Reader Z := fun rest =>
  '(b, rest) ← read_exact 8 rest; Ok (from_le_bytes b, rest).
Definition read_compact_string : Reader string := fun rest =>
  '(n, rest) ← read_u32 rest;
  '(b, rest) ← read_exact (Z.to_nat n) rest;
  s ← from_utf8 b;
  Ok (s, rest).

(** The loop of one varint; the shift is at most 28, where the [u32] shift
    drops the high bits. *)
Fixpoint read_varint (fuel : nat) (value shift : Z) (rest : list ascii) : result string (Z * list ascii) :=
  if 35 <=? shift then Err "compact ordinal varint overflow"
  else
    '(byte, rest) ← read_u8 rest;
    let group := Z.shiftl (Z.land byte 127) shift `mod` 2^32 in
    _ ← ensure (value + group <=? U32_MAX) "compact ordinal varint overflow";
    if Z.land byte 128 =? 0 then Ok (value + group, rest)
    else match fuel with
         | O => Panic
         | S fuel => read_varint fuel (value + group) (shift + 7) rest
         end.

Definition read_ordinal (previous : option Z) : Reader Z := fun rest =>
  '(value, rest) ← read_varint 5 0 0 rest;
  match previous with
  | None => Ok (value, rest)
  | Some p =>
      _ ← ensure (p + value <=? U32_MAX) "compact ordinal delta overflow";
      _ ← ensure (negb (p + value <=? p)) "compact ordinals are not strictly ascending";
      Ok (p + value, rest)
  end.
Fixpoint read_ordinals (count : nat) (previous : option Z) (rest : list ascii) : result string (list Z * list ascii) :=
  match count with
  | O => Ok ([], rest)
  | S count =>
      '(ordinal, rest) ← read_ordinal previous rest;
      '(ordinals, rest) ← read_ordinals count (Some ordinal) rest;
      Ok (ordinal :: ordinals, rest)
  end.
Definition read_delta_varints (count : nat) : Reader (list Z) := read_ordinals count None.

Definition mode_of_byte (b : Z) : result string RootImpactMode :=
  match b with
  | 0 => Ok ModeNone
  | 1 => Ok AllRoots
  | 2 => Ok IncludedOrdinals
  | 3 => Ok ExcludedOrdinals
  | _ => Err "root impact index mode is invalid"
  end.

Record DecodedRootImpactIndex := mk_index { ix_root_count : Z; ix_records : list DecodedRootImpactRecord }.

(** The affected roots a payload stands for. *)
Definition decoded_count (root_count : Z) (mode : RootImpactMode) (ordinals : list Z) : result string Z :=
  match mode with
  | ModeNone => _ ← ensure (bool_decide (ordinals = [])) "none root impact has an ordinal payload"; Ok 0
  | AllRoots => _ ← ensure (bool_decide (ordinals = [])) "all-roots impact has an ordinal payload"; Ok root_count
  | IncludedOrdinals => u32_of_usize try_from_int_error (length ordinals)
  | ExcludedOrdinals =>
      n ← u32_of_usize try_from_int_error (length ordinals);
      _ ← ensure (n <=? root_count) "excluded root impact exceeds root count";
      Ok (root_count - n)
  end.

Definition read_impact (root_count : Z) (previous : option string) : Reader DecodedRootImpactRecord := fun rest =>
  '(n, rest) ← read_u16 rest;
  '(b, rest) ← read_exact (Z.to_nat n) rest;
  key ← from_utf8 b;
  _ ← ensure (negb (key_not_after previous key)) "root impact index keys are not strictly ordered";
  '(kind, rest) ← read_u8 rest;
  _ ← ensure ((kind =? 1) || (kind =? 2)) "root impact index kind is invalid";
  '(source, rest) ← read_u32 rest;
  let source := if source =? U32_MAX then None else Some source in
  '(m, rest) ← read_u8 rest;
  mode ← mode_of_byte m;
  '(affected, rest) ← read_u32 rest;
  '(count, rest) ← read_u32 rest;
  '(ordinals, rest) ← read_delta_varints (Z.to_nat count) rest;
  _ ← ensure (match last ordinals with Some o => negb (root_count <=? o) | None => true end)
        "root impact index ordinal is out of range";
  expected ← decoded_count root_count mode ordinals;
  _ ← ensure (expected =? affected) "root impact encoded cardinality mismatch";
  Ok (mk_impact key kind source mode affected ordinals, rest).

(** [while position < bytes.len()]; a record takes at least sixteen bytes. *)
Fixpoint read_impacts (fuel : nat) (root_count : Z) (previous : option string) (rest : list ascii)
    : result string (list DecodedRootImpactRecord) :=
  match rest with
  | [] => Ok []
  | _ => match fuel with
         | O => Panic
         | S fuel =>
             '(r, rest) ← read_impact root_count previous rest;
             rs ← read_impacts fuel root_count (Some (im_key r)) rest;
             Ok (r :: rs)
         end
  end.

(** The header: the magic text, then version one. *)
Definition read_header (magic : list ascii) (message : string) : Reader unit := fun rest =>
  '(m, rest) ← read_exact (length magic) rest;
  _ ← ensure (bool_decide (m = magic)) message;
  '(v, rest) ← read_u16 rest;
  _ ← ensure (v =? 1) message;
  Ok (tt, rest).

Definition decode_root_impact_index (input : list ascii) : result string DecodedRootImpactIndex :=
  '(_, rest) ← read_header ROOT_IMPACT_INDEX_MAGIC "root impact index header mismatch" input;
  '(root_count, rest) ← read_u32 rest;
  records ← read_impacts (length rest) root_count None rest;
  Ok (mk_index root_count records).

(** [for _ in 0..count], collecting; the reader sees what was collected. *)
Fixpoint read_times {A} (count : nat) (previous : option A) (read : option A -> Reader A) (rest : list ascii)
    : result string (list A * list ascii) :=
  match count with
  | O => Ok ([], rest)
  | S count =>
      '(a, rest) ← read previous rest;
      '(l, rest) ← read_times count (Some a) read rest;
      Ok (a :: l, rest)
  end.

Definition read_identity (previous : option ExactDatasetIdentity) : Reader ExactDatasetIdentity := fun rest =>
  '(table, rest) ← read_compact_string rest;
  category ← parse_category table;
  '(b, rest) ← read_exact 16 rest;
  '(version, rest) ← read_compact_string rest;
  let identity := mk_identity category (from_le_bytes (reverse b)) version in
  _ ← ensure (match previous with Some p => match identity_cmp p identity with Lt => true | _ => false end | None => true end)
        "frozen reference graph identities are not strictly ordered";
  Ok (identity, rest).
Definition read_root_ordinal (node_count : Z) : Reader Z := fun rest =>
  '(ordinal, rest) ← read_u32 rest;
  _ ← ensure (negb (node_count <=? ordinal)) "frozen reference graph root ordinal is out of range";
  Ok (ordinal, rest).
Definition read_predecessors (node_count : Z) : Reader (list Z) := fun rest =>
  '(count, rest) ← read_u32 rest;
  '(preds, rest) ← read_delta_varints (Z.to_nat count) rest;
  _ ← ensure (match last preds with Some o => negb (node_count <=? o) | None => true end)
        "frozen reference graph predecessor is out of range";
  Ok (preds, rest).

(** The predecessor lists with the running edge count. *)
Fixpoint read_reverse (count : nat) (node_count observed : Z) (rest : list ascii)
    : result string (list (list Z) * Z * list ascii) :=
  match count with
  | O => Ok ([], observed, rest)
  | S count =>
      '(preds, rest) ← read_predecessors node_count rest;
      _ ← ensure (observed + Z.of_nat (length preds) <=? U64_MAX) "frozen reference graph edge count overflow";
      '(l, observed, rest) ← read_reverse count node_count (observed + Z.of_nat (length preds)) rest;
      Ok (preds :: l, observed, rest)
  end.

Definition decode_frozen_reference_graph (input : list ascii) : result string DecodedFrozenReferenceGraph :=
  '(_, rest) ← read_header FROZEN_REFERENCE_GRAPH_MAGIC "frozen reference graph header mismatch" input;
  '(node_count, rest) ← read_u32 rest;
  '(root_count, rest) ← read_u32 rest;
  '(expected_edges, rest) ← read_u64 rest;
  '(identities, rest) ← read_times (Z.to_nat node_count) None read_identity rest;
  '(roots, rest) ← read_times (Z.to_nat root_count) None (fun _ => read_root_ordinal node_count) rest;
  '(rev, observed, rest) ← read_reverse (Z.to_nat node_count) node_count 0 rest;
  _ ← ensure (bool_decide (rest = []) && (observed =? expected_edges)) "frozen reference graph byte or edge count mismatch";
  Ok (mk_frozen identities roots rev).

Definition decoded_impact_contains_root (r : DecodedRootImpactRecord) (root root_count : Z) : bool :=
  match im_mode r with
  | ModeNone => false
  | AllRoots => root <? root_count
  | IncludedOrdinals => binary_contains (im_ordinals r) root
  | ExcludedOrdinals => (root <? root_count) && negb (binary_contains (im_ordinals r) root)
  end.

(** ** Integers and varints, there and back *)

Lemma z_of_u8 z : 0 <= z < 256 -> z_of_byte (u8 z) = z.
Proof. intros Hz. unfold z_of_byte, u8. rewrite N_ascii_embedding by lia. lia. Qed.

Lemma z_of_byte_range b : 0 <= z_of_byte b < 256.
Proof. unfold z_of_byte. pose proof (N_ascii_bounded b). lia. Qed.

Lemma le_bytes_length k v : length (to_le_bytes k v) = k.
Proof. revert v. induction k; intros; simpl; congruence. Qed.

Lemma from_to_le_bytes k v : 0 <= v < 256 ^ Z.of_nat k -> from_le_bytes (to_le_bytes k v) = v.
Proof.
  revert v. induction k as [|k IH]; intros v Hv.
  - simpl in *. lia.
  - rewrite Nat2Z.inj_succ, Z.pow_succ_r in Hv by lia. simpl. unfold from_le_bytes in IH. rewrite IH.
    + rewrite z_of_u8 by (apply Z.mod_pos_bound; lia). pose proof (Z.div_mod v 256). lia.
    + split; [apply Z.div_pos; lia|apply Z.div_lt_upper_bound; lia].
Qed.

(** The bytes of one varint. *)
Fixpoint varint (fuel : nat) (delta : Z) : list ascii :=
  let more := Z.shiftr delta 7 in
  if more =? 0 then [u8 (Z.land delta 127)]
  else u8 (Z.lor (Z.land delta 127) 128) ::
       match fuel with O => [] | S fuel => varint fuel more end.

Lemma group_facts b : 0 <= b < 128 ->
  (Z.land b 127 = b /\ Z.land b 128 = 0)
  /\ (Z.land (Z.lor b 128) 127 = b /\ Z.land (Z.lor b 128) 128 = 128 /\ 0 <= Z.lor b 128 < 256).
Proof.
  intros Hb. assert (forallb (fun n => let b := Z.of_nat n in
    (Z.land b 127 =? b) && (Z.land b 128 =? 0) && (Z.land (Z.lor b 128) 127 =? b) && (Z.land (Z.lor b 128) 128 =? 128)
    && (0 <=? Z.lor b 128) && (Z.lor b 128 <? 256)) (seq 0 128) = true) as H by (vm_compute; reflexivity).
  rewrite forallb_forall in H. specialize (H (Z.to_nat b) (proj2 (in_seq 128 0 (Z.to_nat b)) ltac:(lia))).
  cbv zeta in H. rewrite Z2Nat.id in H by lia. bool_hyps. lia.
Qed.

Lemma low_group delta : 0 <= delta -> Z.land delta 127 = delta `mod` 128 /\ Z.shiftr delta 7 = delta / 128.
Proof.
  intros Hd. split; [|by rewrite Z.shiftr_div_pow2].
  change 127 with (Z.ones 7). by rewrite Z.land_ones.
Qed.

Lemma read_u8_cons b rest : read_u8 (b :: rest) = Ok (z_of_byte b, rest).
Proof. unfold read_u8, read_exact. simpl. rewrite drop_0. unfold from_le_bytes. simpl. do 2 f_equal. lia. Qed.

Lemma read_varint_S fuel value shift rest : read_varint (S fuel) value shift rest =
  if 35 <=? shift then Err "compact ordinal varint overflow"
  else
    '(byte, rest) ← read_u8 rest;
    let group := Z.shiftl (Z.land byte 127) shift `mod` 2^32 in
    _ ← ensure (value + group <=? U32_MAX) "compact ordinal varint overflow";
    if Z.land byte 128 =? 0 then Ok (value + group, rest) else read_varint fuel (value + group) (shift + 7) rest.
Proof. done. Qed.

(** One group of seven bits and what follows it. *)
Lemma read_group fuel value shift delta tail rest :
  0 <= delta -> 0 <= value -> 0 <= shift <= 28 -> value + delta * 2 ^ shift <= U32_MAX ->
  let group := delta `mod` 128 * 2 ^ shift in
  read_varint (S fuel) value shift ((if delta / 128 =? 0 then [u8 (delta `mod` 128)]
    else u8 (Z.lor (delta `mod` 128) 128) :: tail) ++ rest)
  = if delta / 128 =? 0 then Ok (value + group, rest) else read_varint fuel (value + group) (shift + 7) (tail ++ rest).
Proof.
  intros Hd Hv Hs Hfit group. rewrite read_varint_S, (proj2 (Z.leb_gt 35 shift)) by lia.
  pose proof (Z.div_mod delta 128 ltac:(lia)) as Hdm. pose proof (Z.mod_pos_bound delta 128 ltac:(lia)) as Hm.
  destruct (group_facts (delta `mod` 128) Hm) as [[Ga Gb] (Gc & Gd & Ge)].
  assert (0 < 2 ^ shift) as Hp by (apply Z.pow_pos_nonneg; lia). pose proof (Z.div_pos delta 128 Hd ltac:(lia)) as Hdp.
  assert (0 <= group <= delta * 2 ^ shift) as Hg
    by (split; [apply Z.mul_nonneg_nonneg; lia|apply Z.mul_le_mono_nonneg_r; lia]).
  destruct (delta / 128 =? 0); cbn [app]; rewrite read_u8_cons; cbn [mbind result_bind]; rewrite z_of_u8 by lia;
    rewrite ?Ga, ?Gb, ?Gc, ?Gd, Z.shiftl_mul_pow2 by lia; fold group;
    rewrite (Z.mod_small group) by (unfold U32_MAX in *; lia);
    rewrite (proj2 (Z.leb_le _ _)) by lia; done.
Qed.

Lemma read_varint_back k : forall delta value shift rest,
  shift = 7 * (4 - Z.of_nat k) -> (k <= 4)%nat -> 0 <= delta -> 0 <= value -> value + delta * 2 ^ shift <= U32_MAX ->
  read_varint (S k) value shift (varint k delta ++ rest) = Ok (value + delta * 2 ^ shift, rest).
Proof.
  induction k as [|k IH]; intros delta value shift rest Hsh Hk Hd Hv Hfit.
  all: destruct (low_group delta Hd) as [E127 E7]; pose proof (Z.div_mod delta 128 ltac:(lia)) as Hdm.
  all: cbn [varint]; cbv zeta; rewrite E7, E127, read_group by (done || lia).
  all: pose proof (Z.div_pos delta 128 Hd ltac:(lia)) as Hdp; destruct (Z.eqb_spec (delta / 128) 0) as [H0|H0].
  1,3: do 3 f_equal; rewrite H0 in Hdm; f_equal; lia.
  - exfalso. change (7 * (4 - Z.of_nat 0)) with 28 in Hsh. subst shift.
    unfold U32_MAX in Hfit. pose proof (Z.mod_pos_bound delta 128 ltac:(lia)). lia.
  - assert (delta / 128 * 2 ^ (shift + 7) = (delta - delta `mod` 128) * 2 ^ shift) as Edelta.
    { rewrite Z.pow_add_r by lia. change (2 ^ 7) with 128. rewrite Hdm at 2. ring. }
    pose proof (Z.mod_pos_bound delta 128 ltac:(lia)) as Hm.
    assert (0 <= delta `mod` 128 * 2 ^ shift) by (apply Z.mul_nonneg_nonneg; [lia|apply Z.pow_nonneg; lia]).
    rewrite IH, Edelta; [do 2 f_equal; ring|lia..|rewrite Edelta; lia].
Qed.

(** ** What the writers append *)

Section WriterLemmas.
Context `{EvidenceSink, ClosureLib}.
Implicit Types (w : CompactEvidenceWriter) (f g : CompactEvidenceWriter -> result string CompactEvidenceWriter).

Definition appended (w : CompactEvidenceWriter) (new : list ascii) : CompactEvidenceWriter :=
  mk_writer (ew_path w) (ew_media_type w) (ew_bytes w ++ new) (ew_size w + Z.of_nat (length new)) (ew_records w).

(** The storage refuses nothing and the byte counter does not overflow. *)
Definition room (w : CompactEvidenceWriter) (new : list ascii) : Prop :=
  (forall a b, sink_accepts a b = true) /\ ew_size w + Z.of_nat (length new) <= U64_MAX.

(** [f] appends exactly [new], and does so when there is room. *)
Definition writes (f : CompactEvidenceWriter -> result string CompactEvidenceWriter) (new : list ascii) : Prop :=
  forall w, (forall w', f w = Ok w' -> w' = appended w new) /\ (room w new -> f w = Ok (appended w new)).

Lemma appended_app w a b : appended (appended w a) b = appended w (a ++ b).
Proof. unfold appended. simpl. rewrite app_assoc, length_app. f_equal. lia. Qed.

Lemma writes_all new : writes (fun w => write_all w new) new.
Proof.
  intros w. unfold write_all. split.
  - intros w' Hw. destruct (sink_accepts _ _); [|done]. destruct (_ <=? _); [|done]. by injection Hw as <-.
  - intros [Hs Hr]. rewrite Hs. cbn [ensure mbind result_bind]. by rewrite (proj2 (Z.leb_le _ _) Hr).
Qed.

Lemma writes_ret : writes Ok [].
Proof.
  intros w. assert (appended w [] = w) as E.
  { destruct w. unfold appended. simpl. rewrite app_nil_r, Z.add_0_r. done. }
  rewrite E. split; [by intros w' [= ->]|done].
Qed.

Lemma writes_seq f g a b : writes f a -> writes g b -> writes (fun w => w ← f w; g w) (a ++ b).
Proof.
  intros Hf Hg w. split.
  - intros w' (w1 & E1 & E2)%bind_ok. apply (proj1 (Hf w)) in E1 as ->. apply (proj1 (Hg _)) in E2 as ->. apply appended_app.
  - intros [Hs Hr]. rewrite length_app in Hr. rewrite (proj2 (Hf w)) by (split; [done|lia]). cbn [mbind result_bind].
    rewrite (proj2 (Hg _)), appended_app; [done|]. split; [done|]. simpl. lia.
Qed.

Lemma writes_ext f g new : (forall w, f w = g w) -> writes g new -> writes f new.
Proof. intros E Hg w. rewrite E. apply Hg. Qed.

Lemma writes_fold {A} (step : CompactEvidenceWriter -> A -> result string CompactEvidenceWriter) (out : A -> list ascii) l :
  (forall a, a ∈ l -> writes (fun w => step w a) (out a)) -> writes (foldM step l) (flat_map out l).
Proof.
  induction l as [|a l IH]; intros Hs; simpl; [apply writes_ret|].
  apply (writes_ext _ (fun w => w ← step w a; foldM step l w)); [by intros w; destruct (step w a)|].
  apply writes_seq; [apply Hs, list_elem_of_here|]. apply IH. intros x Hx. by apply Hs, list_elem_of_further.
Qed.

Lemma writes_varint k : forall delta, 0 <= delta < 2 ^ (7 * (Z.of_nat k + 1)) ->
  writes (fun w => write_varint k w delta) (varint k delta).
Proof.
  induction k as [|k IH]; intros delta Hd; cbn [write_varint varint]; cbv zeta;
    destruct (low_group delta (proj1 Hd)) as [_ E7]; rewrite E7; destruct (Z.eqb_spec (delta / 128) 0) as [Hz|Hz].
  1,3: apply (writes_ext _ (fun w => write_all w [u8 (Z.land delta 127)])); [|apply writes_all];
    intros w; by destruct (write_all w [u8 (Z.land delta 127)]).
  - exfalso. change (2 ^ (7 * (Z.of_nat 0 + 1))) with 128 in Hd. rewrite Z.div_small in Hz; lia.
  - apply (writes_seq (fun w => write_all w [_]) _ [_]); [apply writes_all|].
    apply IH. split; [apply Z.div_pos; lia|]. apply Z.div_lt_upper_bound; [lia|].
    rewrite Nat2Z.inj_succ in Hd. change 128 with (2 ^ 7). rewrite <- Z.pow_add_r by lia.
    replace (7 + 7 * (Z.of_nat k + 1)) with (7 * (Z.succ (Z.of_nat k) + 1)) by lia. lia.
Qed.

(** The bytes of a list of ordinals after [previous]. *)
Fixpoint ordinal_bytes (previous : option Z) (ordinals : list Z) : list ascii :=
  match ordinals with
  | [] => []
  | o :: rest => varint 4 (o - default 0 previous) ++ ordinal_bytes (Some o) rest
  end.

(** [u32] ordinals in strictly ascending order, from [previous] on. *)
Definition ordinals_wf (previous : option Z) (ordinals : list Z) : Prop :=
  StronglySorted Z.lt ordinals /\ Forall (fun o => 0 <= o <= U32_MAX) ordinals
  /\ match previous with Some p => 0 <= p /\ Forall (fun o => p < o) ordinals | None => True end.

Lemma ordinals_wf_cons previous o rest : ordinals_wf previous (o :: rest) ->
  ordinals_wf (Some o) rest /\ 0 <= o - default 0 previous <= U32_MAX
  /\ match previous with Some p => 0 <= p < o | None => True end.
Proof.
  intros (Hs & Hr & Hp). apply StronglySorted_inv in Hs as [Hs Ho]. inversion_clear Hr as [|? ? Ho32 Hr'].
  split; [by split_and!; [..|lia|exact Ho]|]. destruct previous as [p|]; simpl; [|lia].
  destruct Hp as [Hp0 Hp]. inversion_clear Hp. lia.
Qed.

Lemma writes_ordinals ordinals : forall previous, ordinals_wf previous ordinals ->
  writes (fun w => st ← foldM write_ordinal ordinals (w, previous); Ok st.1) (ordinal_bytes previous ordinals).
Proof.
  induction ordinals as [|o rest IH]; intros previous Hwf; cbn [ordinal_bytes].
  { eapply writes_ext; [|apply writes_ret]. done. }
  apply ordinals_wf_cons in Hwf as (Hrest & Hdelta & Hprev).
  apply (writes_ext _ (fun w => w ← write_varint 4 w (o - default 0 previous); st ← foldM write_ordinal rest (w, Some o); Ok st.1)).
  - intros w. cbn [foldM]. unfold write_ordinal at 1. destruct previous as [p|]; cbn [fst snd].
    + change (default 0 (Some p)) with p. rewrite (proj2 (Z.leb_le _ _)) by lia. cbn [mbind result_bind]. by destruct (write_varint 4 w (o - p)).
    + cbn [mbind result_bind]. change (default 0 None) with 0. rewrite Z.sub_0_r. by destruct (write_varint 4 w o).
  - apply writes_seq; [|by apply IH]. apply writes_varint. change (2 ^ (7 * (Z.of_nat 4 + 1))) with 34359738368. unfold U32_MAX in *. lia.
Qed.

(** A list of ordinals not in ascending order is refused. *)
Lemma write_ordinals_descending w p o : o < p -> write_ordinal (w, Some p) o = Err "root impact ordinals are not sorted".
Proof. intros Hop. unfold write_ordinal. cbn [fst snd]. by rewrite (proj2 (Z.leb_gt _ _)) by lia. Qed.
End WriterLemmas.

(** ** What the readers recover *)

(** [read] takes [input] off the front and returns [a]. *)
Definition reads {A} (read : Reader A) (input : list ascii) (a : A) : Prop :=
  forall rest, read (input ++ rest) = Ok (a, rest).

Lemma reads_bind {A B} (read : Reader A) (next : A -> Reader B) a input1 input2 b :
  reads read input1 a -> reads (next a) input2 b ->
  reads (fun rest => '(a, rest) ← read rest; next a rest) (input1 ++ input2) b.
Proof. intros H1 H2 rest. rewrite <- app_assoc, H1. cbn [mbind result_bind]. apply H2. Qed.

Lemma reads_exact l : reads (read_exact (length l)) l l.
Proof.
  intros rest. unfold read_exact. rewrite (proj2 (Nat.leb_le _ _)) by (rewrite length_app; lia).
  by rewrite take_app_length, drop_app_length.
Qed.

Lemma reads_le k v : 0 <= v < 256 ^ Z.of_nat k ->
  reads (fun rest => '(b, rest) ← read_exact k rest; Ok (from_le_bytes b, rest)) (to_le_bytes k v) v.
Proof.
  intros Hv rest. pose proof (reads_exact (to_le_bytes k v) rest) as E. rewrite le_bytes_length in E. rewrite E.
  cbn [mbind result_bind]. by rewrite from_to_le_bytes.
Qed.

Lemma reads_u16 v : 0 <= v <= U16_MAX -> reads read_u16 (to_le_bytes 2 v) v.
Proof. intros Hv. apply reads_le. unfold U16_MAX in Hv. change (256 ^ Z.of_nat 2) with 65536. lia. Qed.
Lemma reads_u32 v : 0 <= v <= U32_MAX -> reads read_u32 (to_le_bytes 4 v) v.
Proof. intros Hv. apply reads_le. unfold U32_MAX in Hv. change (256 ^ Z.of_nat 4) with 4294967296. lia. Qed.
Lemma reads_u64 v : 0 <= v <= U64_MAX -> reads read_u64 (to_le_bytes 8 v) v.
Proof. intros Hv. apply reads_le. unfold U64_MAX in Hv. change (256 ^ Z.of_nat 8) with 18446744073709551616. lia. Qed.
Lemma reads_u8 v : 0 <= v <= U8_MAX -> reads read_u8 [u8 v] v.
Proof. intros Hv rest. simpl. rewrite read_u8_cons, z_of_u8; [done|]. unfold U8_MAX in Hv. lia. Qed.

Lemma reads_ordinals ordinals : forall previous, ordinals_wf previous ordinals ->
  reads (read_ordinals (length ordinals) previous) (ordinal_bytes previous ordinals) ordinals.
Proof.
  induction ordinals as [|o rest IH]; intros previous Hwf tail; [done|].
  pose proof Hwf as (_ & Hr & _). inversion_clear Hr as [|? ? Ho _].
  apply ordinals_wf_cons in Hwf as (Hrest & Hdelta & Hprev).
  cbn [length read_ordinals ordinal_bytes]. unfold read_ordinal. rewrite <- app_assoc.
  rewrite (read_varint_back 4 (o - default 0 previous) 0 0) by (simpl; lia). rewrite Z.mul_1_r, Z.add_0_l.
  cbn [mbind result_bind]. destruct previous as [p|]; simpl default.
  - replace (p + (o - p)) with o by lia. rewrite (proj2 (Z.leb_le o U32_MAX)), (proj2 (Z.leb_gt o p)) by lia.
    cbn [negb ensure mbind result_bind]. rewrite IH by done. done.
  - rewrite Z.sub_0_r. cbn [mbind result_bind]. rewrite IH by done. done.
Qed.

(** ** The root-impact index, there and back *)

Lemma bind_assoc {E A B C} (m : result E A) (f : A -> result E B) (g : B -> result E C) :
  ((m ≫= f) ≫= g) = (m ≫= fun a => f a ≫= g).
Proof. by destruct m. Qed.
Lemma Ok_inj {E A} (a b : A) : (Ok a : result E A) = Ok b -> a = b.
Proof. by intros [= ->]. Qed.
Lemma bind_ext {E A B} (m : result E A) (f g : A -> result E B) : (forall a, f a = g a) -> (m ≫= f) = (m ≫= g).
Proof. intros Hfg. destruct m; simpl; auto. Qed.

Definition impact_bytes (r : DecodedRootImpactRecord) : list ascii :=
  to_le_bytes 2 (Z.of_nat (length (bytes (im_key r)))) ++ bytes (im_key r) ++ [u8 (im_kind r)]
  ++ to_le_bytes 4 (default U32_MAX (im_source r)) ++ [u8 (mode_byte (im_mode r))]
  ++ to_le_bytes 4 (im_affected r) ++ to_le_bytes 4 (Z.of_nat (length (im_ordinals r)))
  ++ ordinal_bytes None (im_ordinals r).

(** What the closure writes: UTF-8 keys, kinds one and two, a source below the
    sentinel, ascending ordinals below the root count, the right cardinality. *)
Definition impact_wf (root_count : Z) (r : DecodedRootImpactRecord) : Prop :=
  valid_utf8 (bytes (im_key r)) = true
  /\ (im_kind r = 1 \/ im_kind r = 2)
  /\ match im_source r with Some s => 0 <= s < U32_MAX | None => True end
  /\ ordinals_wf None (im_ordinals r) /\ Forall (fun o => o < root_count) (im_ordinals r)
  /\ decoded_count root_count (im_mode r) (im_ordinals r) = Ok (im_affected r) /\ 0 <= im_affected r <= U32_MAX.

(** The lengths fit their width. *)
Definition impact_fits (r : DecodedRootImpactRecord) : Prop :=
  Z.of_nat (length (bytes (im_key r))) <= U16_MAX /\ Z.of_nat (length (im_ordinals r)) <= U32_MAX.

Lemma u16_of_usize_ok {E} (e : E) n v : u16_of_usize e n = Ok v <-> v = Z.of_nat n /\ Z.of_nat n <= U16_MAX.
Proof. unfold u16_of_usize. destruct (Z.leb_spec (Z.of_nat n) U16_MAX); split; intros H1; inv_result; try done; destruct H1; subst; (done || lia). Qed.
Lemma u32_of_usize_ok {E} (e : E) n v : u32_of_usize e n = Ok v <-> v = Z.of_nat n /\ Z.of_nat n <= U32_MAX.
Proof. unfold u32_of_usize. destruct (Z.leb_spec (Z.of_nat n) U32_MAX); split; intros H1; inv_result; try done; destruct H1; subst; (done || lia). Qed.

Section IndexWriter.
Context `{EvidenceSink, ClosureLib}.

(** The byte-producing part of [index_append]. *)
Definition write_impact (r : DecodedRootImpactRecord) (w : CompactEvidenceWriter) : result string CompactEvidenceWriter :=
  w ← write_u16 w (Z.of_nat (length (bytes (im_key r))));
  w ← write_all w (bytes (im_key r));
  w ← write_all w [u8 (im_kind r)];
  w ← write_u32 w (default U32_MAX (im_source r));
  w ← write_all w [u8 (mode_byte (im_mode r))];
  w ← write_u32 w (im_affected r);
  w ← write_u32 w (Z.of_nat (length (im_ordinals r)));
  write_delta_varint w (im_ordinals r).

Lemma writes_impact r : ordinals_wf None (im_ordinals r) -> writes (write_impact r) (impact_bytes r).
Proof.
  intros Ho. unfold write_impact, impact_bytes.
  repeat (apply writes_seq; [apply writes_all|]). by apply writes_ordinals.
Qed.

Lemma index_append_unfold iw r :
  impact_fits r -> key_not_after (iw_last_key iw) (im_key r) = false ->
  index_append iw r = (w ← write_impact r (iw_evidence iw); w ← record_completed w; Ok (mk_index_writer w (Some (im_key r)))).
Proof.
  intros [Hk Ho] Hkey. unfold index_append, write_impact. rewrite Hkey. cbn [negb ensure mbind result_bind].
  rewrite (proj2 (u16_of_usize_ok _ _ _) (conj eq_refl Hk)). cbn [mbind result_bind].
  do 6 (rewrite ?bind_assoc; apply bind_ext; intros ?).
  rewrite (proj2 (u32_of_usize_ok _ _ _) (conj eq_refl Ho)). cbn [mbind result_bind].
  repeat (rewrite ?bind_assoc; apply bind_ext; intros ?). done.
Qed.

Lemma index_append_inv iw r iw' : index_append iw r = Ok iw' ->
  impact_fits r /\ key_not_after (iw_last_key iw) (im_key r) = false.
Proof.
  unfold index_append. intros ([] & Hk%ensure_ok & (n & Hn & Hrest)%bind_ok)%bind_ok.
  apply u16_of_usize_ok in Hn as [-> Hn]. apply negb_true_iff in Hk. split; [|done]. split; [done|].
  do 6 (apply bind_ok in Hrest as (? & _ & Hrest)). apply bind_ok in Hrest as (c & Hc & _).
  by apply u32_of_usize_ok in Hc as [_ Hc].
Qed.

(** One record appended. *)
Lemma index_append_ok iw r iw' : ordinals_wf None (im_ordinals r) -> index_append iw r = Ok iw' ->
  iw' = mk_index_writer (mk_writer (ew_path (iw_evidence iw)) (ew_media_type (iw_evidence iw))
           (ew_bytes (iw_evidence iw) ++ impact_bytes r)
           (ew_size (iw_evidence iw) + Z.of_nat (length (impact_bytes r))) (ew_records (iw_evidence iw) + 1)) (Some (im_key r)).
Proof.
  intros Ho Hok. destruct (index_append_inv _ _ _ Hok) as [Hf Hk]. rewrite index_append_unfold in Hok by done.
  apply bind_ok in Hok as (w & Hw & (w' & Hr & Hok)%bind_ok). apply (proj1 (writes_impact r Ho _)) in Hw as ->.
  unfold record_completed in Hr. apply bind_ok in Hr as (u & _ & Hr). inv_result. done.
Qed.

(** Appending never panics: the groups of a varint suffice. *)
Definition settles {A} : result string A -> Prop := outcome (fun _ => True) (fun _ => True).
Lemma write_all_settles w new : settles (write_all w new).
Proof. unfold write_all. destruct (sink_accepts _ _), (_ <=? _); exact I. Qed.
Lemma settles_bind {A B} (m : result string A) (f : A -> result string B) :
  settles m -> (forall a, m = Ok a -> settles (f a)) -> settles (m ≫= f).
Proof. intros Hm Hf. eapply outcome_bind; [exact Hm|]. intros a Ha _. by apply Hf. Qed.
Lemma write_varint_settles k : forall delta w, 0 <= delta < 2 ^ (7 * (Z.of_nat k + 1)) -> settles (write_varint k w delta).
Proof.
  induction k as [|k IH]; intros delta w Hd; cbn [write_varint]; cbv zeta;
    (apply settles_bind; [apply write_all_settles|]); intros w' _;
    destruct (low_group delta (proj1 Hd)) as [_ ->]; destruct (Z.eqb_spec (delta / 128) 0) as [|Hz]; try exact I.
  - change (2 ^ (7 * (Z.of_nat 0 + 1))) with 128 in Hd. rewrite Z.div_small in Hz; lia.
  - apply IH. split; [apply Z.div_pos; lia|]. apply Z.div_lt_upper_bound; [lia|].
    rewrite Nat2Z.inj_succ in Hd. change 128 with (2 ^ 7). rewrite <- Z.pow_add_r by lia.
    replace (7 + 7 * (Z.of_nat k + 1)) with (7 * (Z.succ (Z.of_nat k) + 1)) by lia. lia.
Qed.
Lemma index_append_settles iw r : ordinals_wf None (im_ordinals r) -> settles (index_append iw r).
Proof.
  intros (_ & Hb & _). unfold index_append.
  assert (forall w, settles (write_delta_varint w (im_ordinals r))) as Ho.
  { intros w. unfold write_delta_varint. apply settles_bind; [|intros; exact I].
    eapply outcome_mono; [|intros; exact I].
    apply (outcome_foldM _ (fun _ st => match st.2 with Some p => 0 <= p | None => True end)); [exact I|].
    intros pre o post [w' q] Ho Hq. rewrite Ho in Hb. apply Forall_app in Hb as [_ Hb]. inversion Hb as [|? ? Hr _]; subst.
    unfold write_ordinal. apply (outcome_bind _ (fun d => 0 <= d <= o)).
    - destruct q as [p|]; simpl in Hq |- *; [|lia]. destruct (Z.leb_spec p o); simpl; [lia|exact I].
    - intros d _ Hd. apply (outcome_bind _ (fun _ => True)).
      + apply write_varint_settles. unfold U32_MAX in Hr. change (2 ^ (7 * (Z.of_nat 4 + 1))) with 34359738368. lia.
      + intros w'' _ _. simpl. lia. }
  apply settles_bind; [by destruct (negb _)|]. intros _ _.
  apply settles_bind; [unfold u16_of_usize; by destruct (_ <=? _)|]. intros n _.
  repeat (apply settles_bind; [apply write_all_settles|]; intros ? _).
  apply settles_bind; [unfold u32_of_usize; by destruct (_ <=? _)|]. intros c _.
  apply settles_bind; [apply write_all_settles|]. intros ? _. apply settles_bind; [apply Ho|]. intros w _.
  apply settles_bind; [|intros; exact I]. unfold record_completed. by destruct (_ <=? _).
Qed.

(** The header and the records of a whole index. *)
Definition write_index (root_count : nat) (records : list DecodedRootImpactRecord) : result string CompactEvidenceWriter :=
  iw ← index_writer_new root_count;
  iw ← foldM index_append records iw;
  Ok (iw_evidence iw).

Definition index_header (root_count : Z) : list ascii :=
  ROOT_IMPACT_INDEX_MAGIC ++ to_le_bytes 2 1 ++ to_le_bytes 4 root_count.

Lemma index_writer_new_ok root_count iw : index_writer_new root_count = Ok iw ->
  Z.of_nat root_count <= U32_MAX /\ iw_last_key iw = None
  /\ ew_bytes (iw_evidence iw) = index_header (Z.of_nat root_count)
  /\ ew_size (iw_evidence iw) = Z.of_nat (length (index_header (Z.of_nat root_count))) /\ ew_records (iw_evidence iw) = 0.
Proof.
  unfold index_writer_new. cbv zeta. intros (w1 & H1 & (w2 & H2 & (n & Hn & (w3 & H3 & Hiw)%bind_ok)%bind_ok)%bind_ok)%bind_ok.
  apply u32_of_usize_ok in Hn as [-> Hn]. apply (proj1 (writes_all _ _)) in H1 as ->.
  apply (proj1 (writes_all _ _)) in H2 as ->. apply (proj1 (writes_all _ _)) in H3 as ->. inv_result.
  rewrite !appended_app. done.
Qed.

(** Keys after [previous], strictly ascending. *)
Fixpoint keys_ascending (previous : option string) (records : list DecodedRootImpactRecord) : Prop :=
  match records with
  | [] => True
  | r :: rest => key_not_after previous (im_key r) = false /\ keys_ascending (Some (im_key r)) rest
  end.

Lemma append_records records : forall iw iw', Forall (fun r => ordinals_wf None (im_ordinals r)) records ->
  foldM index_append records iw = Ok iw' ->
  ew_bytes (iw_evidence iw') = ew_bytes (iw_evidence iw) ++ flat_map impact_bytes records
  /\ ew_size (iw_evidence iw') = ew_size (iw_evidence iw) + Z.of_nat (length (flat_map impact_bytes records))
  /\ ew_records (iw_evidence iw') = ew_records (iw_evidence iw) + Z.of_nat (length records)
  /\ keys_ascending (iw_last_key iw) records /\ Forall impact_fits records.
Proof.
  induction records as [|r rest IH]; intros iw iw' Ho Hf; cbn [foldM] in Hf.
  - inv_result. simpl. rewrite app_nil_r. split_and!; (done || lia || constructor).
  - inversion_clear Ho as [|? ? Hr Hrest]. destruct (index_append iw r) as [iw1| |] eqn:E1; try done.
    destruct (index_append_inv _ _ _ E1) as [Hfit Hkey]. apply index_append_ok in E1 as ->; [|done].
    destruct (IH _ _ Hrest Hf) as (Eb & Es & En & Hk & Hfits). cbn [iw_evidence ew_bytes ew_size ew_records iw_last_key] in *.
    cbn [flat_map]. rewrite length_app, Eb, Es, En, <- app_assoc. split_and!; [done|lia|simpl length; lia|by split|by constructor].
Qed.
End IndexWriter.

Lemma from_utf8_bytes s : valid_utf8 (bytes s) = true -> from_utf8 (bytes s) = Ok s.
Proof. intros Hv. unfold from_utf8. by rewrite Hv, of_bytes_bytes. Qed.

Lemma last_below (l : list Z) bound : Forall (fun o => o < bound) l ->
  match last l with Some o => negb (bound <=? o) | None => true end = true.
Proof.
  intros Hl. destruct (last l) as [o|] eqn:E; [|done]. rewrite Forall_forall in Hl.
  apply last_Some in E as [l' ->]. specialize (Hl o ltac:(set_solver)). apply negb_true_iff, Z.leb_gt. lia.
Qed.

Ltac read_step H := first [ rewrite H | rewrite <- ?app_assoc; rewrite H ]; cbn [mbind result_bind].

Lemma reads_impact root_count previous r :
  impact_wf root_count r -> impact_fits r -> key_not_after previous (im_key r) = false ->
  reads (read_impact root_count previous) (impact_bytes r) r.
Proof.
  intros (Hu & Hkind & Hsrc & Hord & Hbelow & Hcount & Haff) [Hk Ho] Hkey rest. unfold read_impact, impact_bytes.
  read_step (reads_u16 (Z.of_nat (length (bytes (im_key r)))) ltac:(lia)). rewrite Nat2Z.id.
  read_step (reads_exact (bytes (im_key r))). rewrite (from_utf8_bytes _ Hu). cbn [mbind result_bind].
  rewrite Hkey. cbn [negb ensure mbind result_bind].
  read_step (reads_u8 (im_kind r) ltac:(unfold U8_MAX; lia)).
  rewrite (proj2 (orb_true_iff _ _)) by (rewrite !Z.eqb_eq; lia). cbn [ensure mbind result_bind].
  assert (0 <= default U32_MAX (im_source r) <= U32_MAX) as Hs by (destruct (im_source r); simpl; unfold U32_MAX in *; lia).
  read_step (reads_u32 (default U32_MAX (im_source r)) Hs).
  assert ((if default U32_MAX (im_source r) =? U32_MAX then None else Some (default U32_MAX (im_source r))) = im_source r) as ->.
  { destruct (im_source r) as [s|]; simpl; [|done]. by rewrite (proj2 (Z.eqb_neq _ _)) by lia. }
  read_step (reads_u8 (mode_byte (im_mode r)) ltac:(destruct (im_mode r); unfold U8_MAX; simpl; lia)).
  assert (mode_of_byte (mode_byte (im_mode r)) = Ok (im_mode r)) as -> by (by destruct (im_mode r)). cbn [mbind result_bind].
  read_step (reads_u32 (im_affected r) Haff).
  read_step (reads_u32 (Z.of_nat (length (im_ordinals r))) ltac:(lia)). rewrite Nat2Z.id. unfold read_delta_varints.
  read_step (reads_ordinals (im_ordinals r) None Hord). rewrite (last_below _ _ Hbelow). cbn [ensure mbind result_bind].
  rewrite Hcount. cbn [mbind result_bind]. rewrite Z.eqb_refl. cbn [ensure mbind result_bind]. by destruct r.
Qed.

Lemma impact_bytes_nonempty r : (0 < length (impact_bytes r))%nat.
Proof. unfold impact_bytes. rewrite length_app, le_bytes_length. lia. Qed.

Lemma read_impacts_back root_count records : forall fuel previous,
  Forall (impact_wf root_count) records -> Forall impact_fits records -> keys_ascending previous records ->
  (length (flat_map impact_bytes records) <= fuel)%nat ->
  read_impacts fuel root_count previous (flat_map impact_bytes records) = Ok records.
Proof.
  induction records as [|r rest IH]; intros fuel previous Hwf Hfit Hk Hfuel; [by destruct fuel|].
  inversion_clear Hwf as [|? ? Hr Hwf']. inversion_clear Hfit as [|? ? Hrf Hfit']. destruct Hk as [Hk Hk'].
  cbn [flat_map] in *. rewrite length_app in Hfuel. pose proof (impact_bytes_nonempty r) as Hne.
  destruct fuel as [|fuel]; [lia|]. pose proof (reads_impact root_count previous r Hr Hrf Hk) as Hread.
  destruct (impact_bytes r ++ flat_map impact_bytes rest) as [|b tl] eqn:E.
  { apply (f_equal length) in E. rewrite length_app in E. simpl in E. lia. }
  rewrite <- E. destruct (impact_bytes r) as [|b' l'] eqn:Eb; [simpl in Hne; lia|]. cbn [app read_impacts].
  change (b' :: l' ++ flat_map impact_bytes rest) with ((b' :: l') ++ flat_map impact_bytes rest).
  rewrite Hread. cbn [mbind result_bind]. rewrite IH by (done || lia). done.
Qed.

Lemma reads_header magic message : reads (read_header magic message) (magic ++ to_le_bytes 2 1) tt.
Proof.
  intros rest. unfold read_header. read_step (reads_exact magic). rewrite bool_decide_true by done. cbn [ensure mbind result_bind].
  read_step (reads_u16 1 ltac:(unfold U16_MAX; lia)). done.
Qed.

(** The root-impact index survives its encoding.  Whatever records the
    writer accepted, decoding the bytes it produced gives back the root count
    and the same records in the same order, provided the records are what the
    closure writes; the byte and record counters it reports are exact. *)
Theorem root_impact_index_roundtrip `{EvidenceSink, ClosureLib} root_count records w :
  Forall (impact_wf (Z.of_nat root_count)) records ->
  write_index root_count records = Ok w ->
  decode_root_impact_index (ew_bytes w) = Ok (mk_index (Z.of_nat root_count) records)
  /\ ew_size w = Z.of_nat (length (ew_bytes w)) /\ ew_records w = Z.of_nat (length records).
Proof.
  intros Hwf (iw0 & Hnew & (iw & Hfold & Hw)%bind_ok)%bind_ok. inv_result.
  destruct (index_writer_new_ok _ _ Hnew) as (Hn & Hlast & Eb0 & Es0 & En0).
  destruct (append_records _ _ _ ltac:(eapply Forall_impl; [exact Hwf|by intros r (_ & _ & _ & Ho & _)]) Hfold)
    as (Eb & Es & En & Hk & Hfits).
  rewrite Eb, Es, En, Eb0, Es0, En0, length_app. rewrite Hlast in Hk. split_and!; [|lia..].
  unfold decode_root_impact_index, index_header. rewrite <- !app_assoc.
  rewrite (app_assoc ROOT_IMPACT_INDEX_MAGIC). read_step (reads_header ROOT_IMPACT_INDEX_MAGIC "root impact index header mismatch").
  read_step (reads_u32 (Z.of_nat root_count) ltac:(lia)). rewrite read_impacts_back by done. done.
Qed.

(** ** Root sets as a mode and a payload *)

Lemma ascending_seq n : StronglySorted Z.lt (Z.of_nat <$> seq 0 n).
Proof.
  apply (StronglySorted_fmap Z.of_nat Nat.lt); [intros; lia|]. generalize 0%nat as k.
  induction n as [|n IH]; intros k; simpl; constructor; [apply IH|].
  apply Forall_forall. intros x Hx%elem_of_seq. lia.
Qed.

Lemma elem_of_ordinals n i : i ∈ Z.of_nat <$> seq 0 n <-> 0 <= i < Z.of_nat n.
Proof.
  rewrite list_elem_of_fmap. setoid_rewrite elem_of_seq. split.
  - intros (k & -> & Hk). lia.
  - intros Hi. exists (Z.to_nat i). lia.
Qed.

Lemma Zlt_sorted_NoDup (l : list Z) : StronglySorted Z.lt l -> NoDup l.
Proof.
  induction 1 as [|a l Hs IH Ha]; constructor; [|done]. intros Hin. rewrite Forall_forall in Ha.
  specialize (Ha a Hin). lia.
Qed.

(** The complement of a duplicate-free list below [n]. *)
Lemma length_complement n (included : list Z) : NoDup included -> ordinals_below n included ->
  (length (filter (fun i => i ∉ included) (Z.of_nat <$> seq 0 n)) + length included)%nat = n.
Proof.
  intros Hnd Hb. rewrite <- (length_seq n 0) at 2. rewrite <- (length_fmap Z.of_nat (seq 0 n)).
  rewrite <- length_app. apply Permutation_length. unfold ordinals_below in Hb. rewrite Forall_forall in Hb.
  apply NoDup_Permutation.
  - apply NoDup_app. split_and!; [apply NoDup_filter, Zlt_sorted_NoDup, ascending_seq| |done].
    intros x [Hx _]%list_elem_of_filter. done.
  - apply Zlt_sorted_NoDup, ascending_seq.
  - intros x. rewrite elem_of_app, list_elem_of_filter. split.
    + intros [[_ Hx]|Hx]; [done|]. apply elem_of_ordinals. by apply Hb.
    + intros Hx. destruct (decide (x ∈ included)); auto.
Qed.

(** The encoded record of a set of roots. *)
Definition impact_of (key : string) (source : option Z) (included : list Z) (e : RootImpactMode * list Z)
    : DecodedRootImpactRecord :=
  mk_impact key 2 source e.1 (Z.of_nat (length included)) e.2.

Lemma encoding_cases included root_count : StronglySorted Z.lt included -> ordinals_below root_count included ->
  Z.of_nat root_count <= U32_MAX ->
  exists mode payload, compact_root_impact_encoding included root_count = Ok (mode, payload)
    /\ (StronglySorted Z.lt payload /\ ordinals_below root_count payload)
    /\ (2 * length payload <= root_count)%nat
    /\ decoded_count (Z.of_nat root_count) mode payload = Ok (Z.of_nat (length included))
    /\ match mode with
       | ModeNone => included = []
       | AllRoots => forall i, i ∈ included <-> 0 <= i < Z.of_nat root_count
       | IncludedOrdinals => payload = included
       | ExcludedOrdinals => forall i, i ∈ payload <-> 0 <= i < Z.of_nat root_count /\ i ∉ included
       end.
Proof.
  intros Hs Hb Hn. pose proof (length_complement root_count included (Zlt_sorted_NoDup _ Hs) Hb) as Hlen.
  unfold compact_root_impact_encoding. case_decide as He; [|destruct (Nat.eqb_spec (length included) root_count) as [Ha|Ha];
    [|destruct (Nat.leb_spec (length included) (root_count - length included)) as [Hi|Hi]]].
  - exists ModeNone, []. subst. split_and!; [done|constructor|constructor|simpl; lia|done|done].
  - exists AllRoots, []. split_and!; [done|constructor|constructor|simpl; lia|simpl; by rewrite Ha|].
    intros i. split; [unfold ordinals_below in Hb; rewrite Forall_forall in Hb; apply Hb|]. intros Hi.
    destruct (decide (i ∈ included)) as [|Hni]; [done|]. exfalso.
    assert (i ∈ filter (fun i => i ∉ included) (Z.of_nat <$> seq 0 root_count)) as Hf
      by (apply list_elem_of_filter; split; [done|by apply elem_of_ordinals]).
    apply list_elem_of_split in Hf as (l1 & l2 & E). rewrite E, length_app in Hlen. simpl in Hlen. lia.
  - exists IncludedOrdinals, included. split_and!; [done..|lia| |done]. simpl. apply u32_of_usize_ok. split; [done|lia].
  - rewrite (proj2 (u32_of_usize_ok _ _ _) (conj eq_refl Hn)). cbn [mbind result_bind]. eexists _, _. split; [done|].
    set (payload := filter (fun i => i ∉ included) (Z.of_nat <$> seq 0 root_count)) in *.
    assert (Z.of_nat (length payload) <= U32_MAX) as Hp by lia. split_and!.
    + apply StronglySorted_filter, ascending_seq.
    + apply Forall_forall. intros i [_ Hi']%list_elem_of_filter. by apply elem_of_ordinals.
    + lia.
    + cbn [decoded_count]. rewrite (proj2 (u32_of_usize_ok _ (length payload) _) (conj eq_refl Hp)).
      cbn [mbind result_bind]. rewrite (proj2 (Z.leb_le _ _)) by lia. cbn [ensure mbind result_bind]. f_equal. lia.
    + intros i. unfold payload. rewrite list_elem_of_filter, elem_of_ordinals. tauto.
Qed.

Lemma impact_of_wf key source included e root_count :
  valid_utf8 (bytes key) = true -> match source with Some s => 0 <= s < U32_MAX | None => True end ->
  StronglySorted Z.lt included -> ordinals_below root_count included -> Z.of_nat root_count <= U32_MAX ->
  compact_root_impact_encoding included root_count = Ok e -> impact_wf (Z.of_nat root_count) (impact_of key source included e).
Proof.
  intros Hu Hsrc Hs Hb Hn He. destruct (encoding_cases included root_count Hs Hb Hn) as (m & p & E & [Hps Hpb] & _ & Hc & _).
  rewrite E in He. injection He as <-. unfold ordinals_below in Hpb. rewrite Forall_forall in Hpb.
  pose proof (length_complement root_count included (Zlt_sorted_NoDup _ Hs) Hb) as Hlen.
  unfold impact_wf, impact_of. cbn [im_key im_kind im_source im_mode im_affected im_ordinals fst snd].
  split_and!; [done|by right|done| | |done|lia|lia].
  - split_and!; [done| |done]. apply Forall_forall. intros x Hx. specialize (Hpb x Hx). lia.
  - apply Forall_forall. intros x Hx. by apply Hpb.
Qed.

(** The encoded set and the reader's membership test agree. *)
Lemma encoding_members included root_count key source :
  StronglySorted Z.lt included -> ordinals_below root_count included -> Z.of_nat root_count <= U32_MAX ->
  exists e, compact_root_impact_encoding included root_count = Ok e
    /\ (2 * length e.2 <= root_count)%nat
    /\ forall root, 0 <= root ->
         decoded_impact_contains_root (impact_of key source included e) root (Z.of_nat root_count) = true
         <-> root ∈ included.
Proof.
  intros Hs Hb Hn. destruct (encoding_cases included root_count Hs Hb Hn) as (m & p & -> & [Hps Hpb] & Hhalf & _ & Hm).
  exists (m, p). split; [done|]. split; [done|]. intros root Hroot. unfold decoded_impact_contains_root, impact_of. simpl.
  unfold ordinals_below in Hb. rewrite Forall_forall in Hb. destruct m.
  - subst included. split; [done|]. by intros ?%elem_of_nil.
  - rewrite Hm, Z.ltb_lt. lia.
  - subst p. by apply binary_contains_spec.
  - rewrite andb_true_iff, negb_true_iff, Z.ltb_lt. rewrite <- not_true_iff_false, binary_contains_spec by done.
    rewrite Hm. split.
    + intros [Hlt Hni]. destruct (decide (root ∈ included)); [done|]. exfalso. apply Hni. split; [lia|done].
    + intros Hin. pose proof (Hb root Hin). split; [lia|]. intros [_ Hni]. done.
Qed.

(** The compact root encoding denotes the roots it was given.  For
    ascending root ordinals the encoder succeeds with a payload of at most half
    the roots, and a decoded record with that mode and payload contains an
    ordinal exactly when it was among the affected roots (the membership test
    is the binary search of the reader). *)
Theorem compact_encoding_exact included root_count key source :
  StronglySorted Z.lt included -> ordinals_below root_count included -> Z.of_nat root_count <= U32_MAX ->
  exists e, compact_root_impact_encoding included root_count = Ok e
    /\ (2 * length e.2 <= root_count)%nat
    /\ forall root, 0 <= root ->
         decoded_impact_contains_root (impact_of key source included e) root (Z.of_nat root_count) = true
         <-> root ∈ included.
Proof. apply encoding_members. Qed.

(** ** The frozen graph, there and back *)

Definition string_bytes (s : string) : list ascii := to_le_bytes 4 (Z.of_nat (length (bytes s))) ++ bytes s.
Definition identity_bytes (i : ExactDatasetIdentity) : list ascii :=
  string_bytes (table_name (ei_category i)) ++ uuid_bytes (ei_id i) ++ string_bytes (ei_version i).
Definition predecessor_bytes (preds : list Z) : list ascii :=
  to_le_bytes 4 (Z.of_nat (length preds)) ++ ordinal_bytes None preds.

(** A Rust identity: a 128-bit id and a UTF-8 version. *)
Definition identity_wf (i : ExactDatasetIdentity) : Prop :=
  0 <= ei_id i < 2 ^ 128 /\ valid_utf8 (bytes (ei_version i)) = true.
Definition text_fits (s : string) : Prop := Z.of_nat (length (bytes s)) <= U32_MAX.

Section FrozenWriter.
Context `{EvidenceSink, ClosureLib}.

(** When [f] succeeds it has appended [new], and [P] holds. *)
Definition emits (f : CompactEvidenceWriter -> result string CompactEvidenceWriter) (new : list ascii) (P : Prop) : Prop :=
  forall w w', f w = Ok w' -> w' = appended w new /\ P.

Lemma emits_all new : emits (fun w => write_all w new) new True.
Proof. intros w w' Hw. by apply (proj1 (writes_all new w)) in Hw. Qed.

Lemma emits_seq f g a b P Q : emits f a P -> emits g b Q -> emits (fun w => w ← f w; g w) (a ++ b) (P /\ Q).
Proof.
  intros Hf Hg w w' (w1 & H1 & H2)%bind_ok. apply Hf in H1 as [-> HP]. apply Hg in H2 as [-> HQ].
  by rewrite appended_app.
Qed.

Lemma emits_impl f new (P Q : Prop) : emits f new P -> (P -> Q) -> emits f new Q.
Proof. intros Hf HPQ w w' Hw. apply Hf in Hw as [-> HP]. auto. Qed.

Lemma emits_fold {A} (step : CompactEvidenceWriter -> A -> result string CompactEvidenceWriter) (out : A -> list ascii)
    (P : A -> Prop) l : (forall a, a ∈ l -> emits (fun w => step w a) (out a) (P a)) ->
  emits (foldM step l) (flat_map out l) (Forall P l).
Proof.
  induction l as [|a l IH]; intros Hs w w'; cbn [foldM flat_map].
  - intros [= <-]. split; [|constructor]. destruct w. unfold appended. simpl. by rewrite app_nil_r, Z.add_0_r.
  - destruct (step w a) as [w1| |] eqn:E1; try done. intros Hf. apply (Hs a (list_elem_of_here _ _)) in E1 as [-> Ha].
    apply IH in Hf as [-> Hl]; [|intros x Hx; by apply Hs, list_elem_of_further].
    rewrite appended_app. split; [done|by constructor].
Qed.

Lemma emits_u32_len n (e : string) f new P : (Z.of_nat n <= U32_MAX -> emits (f (Z.of_nat n)) new P) ->
  emits (fun w => v ← u32_of_usize e n; f v w) new (Z.of_nat n <= U32_MAX /\ P).
Proof.
  intros Hf w w' (v & [-> Hn]%u32_of_usize_ok & Hv)%bind_ok. apply Hf in Hv as [-> HP]; done.
Qed.

Lemma emits_compact_string s : emits (fun w => write_compact_string w s) (string_bytes s) (text_fits s).
Proof.
  eapply emits_impl.
  - apply (emits_u32_len _ _ (fun n w => w ← write_u32 w n; write_all w (bytes s)) _ (True /\ True)). intros _.
    apply (emits_seq (fun w => write_u32 w _)); apply emits_all.
  - by intros [Hn _].
Qed.

Lemma emits_identity i : emits (fun w => write_identity w i) (identity_bytes i) (text_fits (ei_version i)).
Proof.
  eapply emits_impl.
  - apply (emits_seq (fun w => write_compact_string w _)); [apply emits_compact_string|].
    apply (emits_seq (fun w => write_all w _)); [apply emits_all|apply emits_compact_string].
  - by intros (_ & _ & Hv).
Qed.

Lemma emits_predecessors preds : ordinals_wf None preds ->
  emits (fun w => write_predecessors w preds) (predecessor_bytes preds) (Z.of_nat (length preds) <= U32_MAX).
Proof.
  intros Hwf. eapply emits_impl.
  - apply (emits_u32_len _ _ (fun n w => w ← write_u32 w n; write_delta_varint w preds) _ (True /\ True)). intros _.
    apply (emits_seq (fun w => write_u32 w _)); [apply emits_all|].
    intros w w' Hw. split; [|done]. by apply (proj1 (writes_ordinals preds None Hwf w)).
  - by intros [Hn _].
Qed.

Lemma emits_polled {A} cancelled phase (f : CompactEvidenceWriter -> A -> result string CompactEvidenceWriter)
    (ix : nat * A) new P : emits (fun w => f w ix.2) new P -> emits (fun w => polled cancelled phase f w ix) new P.
Proof. intros Hf w w' (u & _ & Hw)%bind_ok. by apply Hf in Hw. Qed.

Lemma flat_map_zip {A B} (f : A -> list B) (l : list A) :
  flat_map (fun ix : nat * A => f ix.2) (zip (seq 0 (length l)) l) = flat_map f l.
Proof. generalize 0%nat. induction l as [|a l IH]; intros k; simpl; [done|]. by rewrite IH. Qed.

Lemma emits_polled_fold {A} cancelled phase (step : CompactEvidenceWriter -> A -> result string CompactEvidenceWriter) out
    (P : A -> Prop) l : (forall a, a ∈ l -> emits (fun w => step w a) (out a) (P a)) ->
  emits (foldM (polled cancelled phase step) (zip (seq 0 (length l)) l)) (flat_map out l) (Forall P l).
Proof.
  intros Hs. rewrite <- flat_map_zip. eapply emits_impl.
  - apply (emits_fold _ (fun ix : nat * A => out ix.2) (fun ix => P ix.2)). intros [k a] Hin. apply emits_polled. simpl.
    apply Hs. apply list_elem_of_lookup in Hin as [j Hj]. apply lookup_zip_with_Some in Hj as (? & ? & [= <- <-] & _ & Hj).
    by eapply list_elem_of_lookup_2.
  - intros Hf. apply Forall_lookup. intros j a Ha. rewrite Forall_lookup in Hf. apply (Hf j (j, a)).
    apply lookup_zip_with_Some. exists j, a. split_and!; [done| |done]. apply lookup_seq. apply lookup_lt_Some in Ha. lia.
Qed.

Lemma edge_count_ok rev n : edge_count rev = Ok n -> n = Z.of_nat (length (concat rev)) /\ n <= U64_MAX.
Proof.
  unfold edge_count. enough (forall acc, 0 <= acc <= U64_MAX -> foldM (fun total (preds : list Z) =>
    _ ← ensure (total + Z.of_nat (length preds) <=? U64_MAX) "reference graph edge count overflow";
    Ok (total + Z.of_nat (length preds))) rev acc = Ok n -> n = acc + Z.of_nat (length (concat rev)) /\ n <= U64_MAX) as Hacc.
  { intros Hf. apply Hacc in Hf; [|unfold U64_MAX; lia]. lia. }
  induction rev as [|preds rev IH]; intros acc Hacc Hf; cbn [foldM concat] in *.
  - inv_result. simpl. lia.
  - destruct (Z.leb_spec (acc + Z.of_nat (length preds)) U64_MAX) as [Hle|Hle]; [|done].
    cbn [ensure mbind result_bind] in Hf. apply IH in Hf as [-> ?]; [|lia]. rewrite length_app. lia.
Qed.

(** The bytes of a frozen graph. *)
Definition frozen_bytes (identities : list ExactDatasetIdentity) (roots : list Z) (rev : list (list Z)) : list ascii :=
  (FROZEN_REFERENCE_GRAPH_MAGIC ++ to_le_bytes 2 1)
  ++ to_le_bytes 4 (Z.of_nat (length identities)) ++ to_le_bytes 4 (Z.of_nat (length roots))
  ++ to_le_bytes 8 (Z.of_nat (length (concat rev)))
  ++ flat_map identity_bytes identities ++ flat_map (to_le_bytes 4) roots ++ flat_map predecessor_bytes rev.

Lemma frozen_writer_ok cancelled g sr w :
  length (sr_roots sr) = length (sr_graph_nodes sr) -> Forall (ordinals_wf None) (g_reverse g) ->
  frozen_graph_writer cancelled g sr = Ok w ->
  ew_bytes w = frozen_bytes (g_identities g) (sr_graph_nodes sr) (g_reverse g)
  /\ ew_size w = Z.of_nat (length (ew_bytes w))
  /\ (Z.of_nat (length (g_identities g)) <= U32_MAX /\ Z.of_nat (length (sr_roots sr)) <= U32_MAX
      /\ Z.of_nat (length (concat (g_reverse g))) <= U64_MAX)
  /\ Forall (fun i => text_fits (ei_version i)) (g_identities g)
  /\ Forall (fun preds => Z.of_nat (length preds) <= U32_MAX) (g_reverse g).
Proof.
  intros Hlen Hrev. rewrite Forall_forall in Hrev. unfold frozen_graph_writer. cbv zeta.
  intros (w1 & [-> _]%emits_all & (w2 & [-> _]%emits_all & (n & [-> Hn]%u32_of_usize_ok & Hrest)%bind_ok)%bind_ok)%bind_ok.
  apply bind_ok in Hrest as (w3 & [-> _]%emits_all & (r & [-> Hr]%u32_of_usize_ok & Hrest)%bind_ok).
  apply bind_ok in Hrest as (w4 & [-> _]%emits_all & (e & [-> He]%edge_count_ok & Hrest)%bind_ok).
  apply bind_ok in Hrest as (w5 & [-> _]%emits_all & (w6 & H6 & Hrest)%bind_ok).
  apply (emits_polled_fold _ _ _ identity_bytes (fun i => text_fits (ei_version i))) in H6 as [-> Hfit]; [|intros; apply emits_identity].
  apply bind_ok in Hrest as (w7 & H7 & (w8 & H8 & Hw)%bind_ok).
  apply (emits_fold _ (to_le_bytes 4) (fun _ => True)) in H7 as [-> _]; [|intros; apply emits_all].
  apply (emits_polled_fold _ _ _ predecessor_bytes (fun preds => Z.of_nat (length preds) <= U32_MAX)) in H8 as [-> Hp];
    [|intros; by apply emits_predecessors, Hrev].
  apply Ok_inj in Hw as <-. rewrite !appended_app. unfold frozen_bytes. rewrite Hlen. cbn [ew_bytes ew_size].
  rewrite <- !app_assoc. split_and!; (done || lia).
Qed.
End FrozenWriter.

Lemma reads_compact_string s : text_fits s -> valid_utf8 (bytes s) = true -> reads read_compact_string (string_bytes s) s.
Proof.
  intros Hf Hu rest. unfold read_compact_string, string_bytes. unfold text_fits in Hf.
  read_step (reads_u32 (Z.of_nat (length (bytes s))) ltac:(lia)). rewrite Nat2Z.id.
  read_step (reads_exact (bytes s)). by rewrite (from_utf8_bytes _ Hu).
Qed.

Lemma table_name_wf c : text_fits (table_name c) /\ valid_utf8 (bytes (table_name c)) = true.
Proof. destruct c; split; (by vm_compute || (unfold text_fits; vm_compute; congruence)). Qed.

Lemma reads_identity previous i : identity_wf i -> text_fits (ei_version i) ->
  match previous with Some p => identity_lt p i | None => True end ->
  reads (read_identity previous) (identity_bytes i) i.
Proof.
  intros [Hid Hu] Hf Hp rest. unfold read_identity, identity_bytes. destruct (table_name_wf (ei_category i)) as [Ht Htu].
  read_step (reads_compact_string _ Ht Htu). rewrite parse_category_table_name. cbn [mbind result_bind].
  assert (length (uuid_bytes (ei_id i)) = 16%nat) as Hl by (unfold uuid_bytes; by rewrite length_reverse, le_bytes_length).
  pose proof (reads_exact (uuid_bytes (ei_id i))) as Hread. rewrite Hl in Hread. read_step Hread.
  read_step (reads_compact_string _ Hf Hu). unfold uuid_bytes. rewrite reverse_involutive, from_to_le_bytes by done.
  destruct i as [c u v]. cbn [ei_category ei_id ei_version] in *.
  destruct previous as [p|]; [unfold identity_lt in Hp; by rewrite Hp|done].
Qed.

Lemma reads_times {A} (read : option A -> Reader A) (out : A -> list ascii) (R : A -> A -> Prop) l : forall previous,
  (forall previous a, a ∈ l -> match previous with Some p => R p a | None => True end -> reads (read previous) (out a) a) ->
  StronglySorted R l -> match previous with Some p => Forall (R p) l | None => True end ->
  reads (read_times (length l) previous read) (flat_map out l) l.
Proof.
  induction l as [|a l IH]; intros previous Hread Hs Hp rest; [done|]. apply StronglySorted_inv in Hs as [Hs Ha].
  cbn [length read_times flat_map]. rewrite <- app_assoc.
  rewrite (Hread previous a (list_elem_of_here _ _)) by (destruct previous; [by inversion Hp|done]). cbn [mbind result_bind].
  rewrite IH; [done| |done|done]. intros q x Hx. by apply Hread, list_elem_of_further.
Qed.

Lemma trivially_sorted {A} (l : list A) : StronglySorted (fun _ _ => True) l.
Proof. induction l; constructor; [done|by apply Forall_true]. Qed.

Lemma reads_root_ordinal n o : 0 <= o < n -> n <= U32_MAX -> reads (read_root_ordinal n) (to_le_bytes 4 o) o.
Proof.
  intros Ho Hn rest. unfold read_root_ordinal. read_step (reads_u32 o ltac:(lia)).
  by rewrite (proj2 (Z.leb_gt _ _)) by lia.
Qed.

Lemma reads_predecessors n preds : ordinals_wf None preds -> Z.of_nat (length preds) <= U32_MAX ->
  Forall (fun o => o < n) preds -> reads (read_predecessors n) (predecessor_bytes preds) preds.
Proof.
  intros Hwf Hl Hb rest. unfold read_predecessors, predecessor_bytes.
  read_step (reads_u32 (Z.of_nat (length preds)) ltac:(lia)). rewrite Nat2Z.id. unfold read_delta_varints.
  read_step (reads_ordinals preds None Hwf). by rewrite (last_below _ _ Hb).
Qed.

Lemma reads_reverse n rev : forall observed rest,
  Forall (fun preds => ordinals_wf None preds /\ Z.of_nat (length preds) <= U32_MAX /\ Forall (fun o => o < n) preds) rev ->
  0 <= observed -> observed + Z.of_nat (length (concat rev)) <= U64_MAX ->
  read_reverse (length rev) n observed (flat_map predecessor_bytes rev ++ rest)
  = Ok (rev, observed + Z.of_nat (length (concat rev)), rest).
Proof.
  induction rev as [|preds rev IH]; intros observed rest Hf Ho Hc; cbn [length read_reverse flat_map concat] in *.
  - by rewrite Z.add_0_r.
  - inversion_clear Hf as [|? ? (Hwf & Hl & Hb) Hrest]. rewrite length_app in *.
    read_step (reads_predecessors n preds Hwf Hl Hb). rewrite (proj2 (Z.leb_le _ _)) by lia. cbn [ensure mbind result_bind].
    rewrite IH by (done || lia). cbn [mbind result_bind]. do 3 f_equal. lia.
Qed.

Lemma decode_frozen_bytes identities roots rev :
  StronglySorted identity_lt identities -> Forall identity_wf identities ->
  Forall (fun i => text_fits (ei_version i)) identities ->
  reverse_wf (length identities) rev -> Forall (fun preds => Z.of_nat (length preds) <= U32_MAX) rev ->
  ordinals_below (length identities) roots ->
  Z.of_nat (length identities) <= U32_MAX -> Z.of_nat (length roots) <= U32_MAX ->
  Z.of_nat (length (concat rev)) <= U64_MAX ->
  decode_frozen_reference_graph (frozen_bytes identities roots rev) = Ok (mk_frozen identities roots rev).
Proof.
  intros Hs Hwf Hfit [Hlen Hrev] Hpl Hroots Hn Hr He. unfold ordinals_below in *.
  rewrite Forall_forall in Hwf, Hfit. rewrite Forall_forall in Hroots. unfold decode_frozen_reference_graph, frozen_bytes.
  read_step (reads_header FROZEN_REFERENCE_GRAPH_MAGIC "frozen reference graph header mismatch").
  read_step (reads_u32 (Z.of_nat (length identities)) ltac:(lia)). read_step (reads_u32 (Z.of_nat (length roots)) ltac:(lia)).
  read_step (reads_u64 (Z.of_nat (length (concat rev))) ltac:(lia)). rewrite !Nat2Z.id.
  assert (reads (read_times (length identities) None read_identity) (flat_map identity_bytes identities) identities) as Hi.
  { apply (reads_times _ _ identity_lt); [|done|done]. intros p i Hin Hp. apply reads_identity; [by apply Hwf|by apply Hfit|done]. }
  read_step Hi.
  assert (reads (read_times (length roots) None (fun _ => read_root_ordinal (Z.of_nat (length identities))))
    (flat_map (to_le_bytes 4) roots) roots) as Hro.
  { apply (reads_times _ _ (fun _ _ => True)); [|apply trivially_sorted|done].
    intros _ o Hin _. apply reads_root_ordinal; [by apply Hroots|done]. }
  read_step Hro. rewrite <- Hlen at 1. rewrite <- (app_nil_r (flat_map predecessor_bytes rev)).
  rewrite reads_reverse; [| |lia|lia].
  - cbn [mbind result_bind]. rewrite Z.add_0_l, bool_decide_true, Z.eqb_refl by done. done.
  - apply Forall_forall. intros preds Hp. rewrite Forall_forall in Hrev. rewrite Forall_forall in Hpl.
    destruct (Hrev preds Hp) as [Hps Hpb]. unfold ordinals_below in Hpb. rewrite Forall_forall in Hpb. split_and!; [|by apply Hpl|].
    + split_and!; [done| |done]. apply Forall_forall. intros o Ho. specialize (Hpb o Ho). lia.
    + apply Forall_forall. intros o Ho. by apply Hpb.
Qed.

(** The stable roots are nodes of the graph. *)
Lemma stable_roots_wf g roots sr : graph_wf g -> stable_root_ordinals roots g = Ok sr ->
  length (sr_roots sr) = length (sr_graph_nodes sr) /\ ordinals_below (node_count g) (sr_graph_nodes sr)
  /\ sr_roots sr = ascending (list_to_set roots)
  /\ Forall2 (fun root node => g_ids g !! root = Some node) (sr_roots sr) (sr_graph_nodes sr).
Proof.
  intros (_ & Hids & _). unfold stable_root_ordinals. cbv zeta. intros (pairs & _ & (nodes & Hn & Hsr)%bind_ok)%bind_ok.
  inv_result. cbn [sr_roots sr_graph_nodes]. apply mapR_ok in Hn.
  assert (Forall2 (fun root node => g_ids g !! root = Some node) (ascending (list_to_set roots)) nodes) as Hf.
  { eapply Forall2_impl; [exact Hn|]. intros root node. simpl. destruct (g_ids g !! root); simpl; intros; inv_result; done. }
  split_and!; [by eapply Forall2_length| |done|done]. apply Forall_lookup. intros k node Hk.
  destruct (Forall2_lookup_r _ _ _ _ _ Hf Hk) as (root & _ & Hroot). apply Hids in Hroot as [Hi Hx].
  apply lookup_lt_Some in Hx. unfold node_count. lia.
Qed.

(** C33: the frozen reference graph survives its encoding.  For a graph built
    from the resolved references and the stable ordinals of its roots, decoding
    the bytes the writer produced gives back the identities, the root nodes and
    the predecessor lists. *)
Theorem frozen_graph_roundtrip `{EvidenceSink, ClosureLib} references roots requested g sr cancelled w :
  from_references references roots = Ok g -> stable_root_ordinals requested g = Ok sr ->
  Forall identity_wf (g_identities g) ->
  frozen_graph_writer cancelled g sr = Ok w ->
  decode_frozen_reference_graph (ew_bytes w) = Ok (mk_frozen (g_identities g) (sr_graph_nodes sr) (g_reverse g))
  /\ ew_size w = Z.of_nat (length (ew_bytes w)).
Proof.
  intros Hg Hsr Hid Hw. destruct (from_references_spec _ _ _ Hg) as (Hwf & _). pose proof Hwf as (Hs & _ & Hrev).
  destruct (stable_roots_wf _ _ _ Hwf Hsr) as (Hlen & Hroots & _ & _). unfold node_count in *.
  destruct (frozen_writer_ok cancelled g sr w Hlen) as (-> & Hsz & (Hn & Hr & He) & Hfit & Hpl); [|done|].
  - destruct Hrev as [Hl Hrev]. eapply Forall_impl; [exact Hrev|]. intros preds [Hps Hpb]. split_and!; [done| |done].
    eapply Forall_impl; [exact Hpb|]. simpl. intros o Ho.
    apply bind_ok in Hw as (w1 & _ & (w2 & _ & (n & [_ Hn]%u32_of_usize_ok & _)%bind_ok)%bind_ok). lia.
  - split; [|done]. apply decode_frozen_bytes; (done || lia).
Qed.

(** ** Witnesses *)

(** A sink that takes everything, and text functions to run the writers with. *)
#[local] Instance open_sink : EvidenceSink := {| sink_accepts := fun _ _ => true; zstd_stream := Some |}.
#[local] Instance plain_lib : ClosureLib :=
  {| uuid_text := fun _ => "id"; uuid_parse_str := fun _ => None; sha256_hex := fun _ => "digest"; json_text := fun _ => [] |}.

Definition sample_impacts : list DecodedRootImpactRecord :=
  [mk_impact "issue:a" 2 (Some 7) ExcludedOrdinals 299 [3]; mk_impact "issue:b" 2 None IncludedOrdinals 2 [1; 200]].
Definition sample_index : CompactEvidenceWriter :=
  match write_index 300 sample_impacts with Ok w => w | _ => evidence_new "" "" end.

Lemma sample_impacts_wf : Forall (impact_wf 300) sample_impacts.
Proof.
  assert (forall l : list Z, forallb (fun o => (0 <=? o) && (o <=? U32_MAX)) l = true -> forallb (fun o => o <? 300) l = true ->
    StronglySorted Z.lt l -> ordinals_wf None l /\ Forall (fun o => o < 300) l) as Hl.
  { intros l H1 H2 Hs. split; [split_and!; [done| |done]|]; apply Forall_forall; intros o Ho%list_elem_of_In.
    - rewrite forallb_forall in H1. specialize (H1 o Ho). bool_hyps. lia.
    - rewrite forallb_forall in H2. specialize (H2 o Ho). bool_hyps. lia. }
  destruct (Hl [3] eq_refl eq_refl ltac:(repeat constructor)) as [Ha1 Ha2].
  destruct (Hl [1; 200] eq_refl eq_refl ltac:(repeat constructor)) as [Hb1 Hb2].
  repeat (apply Forall_cons; split); [| |constructor].
  - split; [reflexivity|]. split; [by right|]. split; [unfold U32_MAX; simpl; lia|]. split; [exact Ha1|]. split; [exact Ha2|].
    split; [reflexivity|]. unfold U32_MAX. simpl. lia.
  - split; [reflexivity|]. split; [by right|]. split; [exact I|]. split; [exact Hb1|]. split; [exact Hb2|].
    split; [reflexivity|]. unfold U32_MAX. simpl. lia.
Qed.

Lemma root_impact_index_roundtrip_witness :
  write_index 300 sample_impacts = Ok sample_index
  /\ decode_root_impact_index (ew_bytes sample_index) = Ok (mk_index 300 sample_impacts).
Proof.
  assert (write_index 300 sample_impacts = Ok sample_index) as Hw by (by vm_compute). split; [exact Hw|].
  exact (proj1 (root_impact_index_roundtrip 300 sample_impacts sample_index sample_impacts_wf Hw)).
Defined.

Lemma compact_encoding_exact_witness :
  compact_root_impact_encoding [0; 1; 3; 4] 5 = Ok (ExcludedOrdinals, [2])
  /\ exists e, compact_root_impact_encoding [0; 1; 3; 4] 5 = Ok e /\ (2 * length e.2 <= 5)%nat.
Proof.
  split; [by vm_compute|].
  destruct (compact_encoding_exact [0; 1; 3; 4] 5 "issue:a" None) as (e & He & Hl & _).
  - repeat constructor.
  - repeat constructor; lia.
  - by vm_compute.
  - by exists e.
Defined.

Definition sample_stable : StableRootOrdinals :=
  match stable_root_ordinals requested_roots sample_graph with Ok s => s | _ => mk_stable [] ∅ [] end.
Definition sample_frozen : CompactEvidenceWriter :=
  match frozen_graph_writer (fun _ _ => false) sample_graph sample_stable with Ok w => w | _ => evidence_new "" "" end.

Lemma frozen_graph_roundtrip_witness :
  frozen_graph_writer (fun _ _ => false) sample_graph sample_stable = Ok sample_frozen
  /\ decode_frozen_reference_graph (ew_bytes sample_frozen)
     = Ok (mk_frozen (g_identities sample_graph) (sr_graph_nodes sample_stable) (g_reverse sample_graph)).
Proof.
  assert (frozen_graph_writer (fun _ _ => false) sample_graph sample_stable = Ok sample_frozen) as Hw by (by vm_compute).
  split; [exact Hw|].
  refine (proj1 (frozen_graph_roundtrip sample_references requested_roots requested_roots sample_graph sample_stable
    (fun _ _ => false) sample_frozen _ _ _ Hw)); [by vm_compute..|].
  assert (g_identities sample_graph = [sample_flow; sample_method; sample_process; sample_isolated; sample_unit]) as -> by (by vm_compute).
  repeat constructor; simpl; lia.
Defined.

(** The fifth group of a varint holds seven bits, of which a [u32] keeps four:
    the reader drops the other three instead of reporting an overflow. *)
Lemma varint_high_bits_dropped :
  read_delta_varints 1 [u8 255; u8 255; u8 255; u8 255; u8 127] = Ok ([U32_MAX], [])
  /\ read_delta_varints 1 [u8 255; u8 255; u8 255; u8 255; u8 15] = Ok ([U32_MAX], []).
Proof. split; by vm_compute. Qed.
