(* ===== verification/Issues.v ===== *)
(** * Closure issues

    The issues of the source closure (scope_closure.rs): how each kind is
    built, their canonical keys, coalescing by key, the occurrences attached
    from the resolved references, the affected roots, and the severities the
    database accepts. *)

From S2P Require Import Prelude Text Json DataBuilder Identity References RefGraph BinarySearch.

Local Open Scope string_scope.
Local Open Scope Z_scope.
Local Open Scope list_scope.

Record ClosureIssueOccurrence := mk_occurrence {
  oc_key : string;
  oc_source : option ExactDatasetIdentity;
  oc_json_path : option string;
  oc_role : option string;
  oc_details : Value;
}.
Record ClosureIssue := mk_issue {
  ci_key : string;
  ci_severity : string;
  ci_blocking : bool;
  ci_code : string;
  ci_source : option ExactDatasetIdentity;
  ci_json_path : option string;
  ci_role : option string;
  ci_target_type : option string;
  ci_target_id : option Uuid;
  ci_target_version : option string;
  ci_message : string;
  ci_action : option string;
  ci_occurrence_count : Z;
  ci_occurrences : list ClosureIssueOccurrence;
  ci_affected_count : Z;
  ci_affected_roots : list ExactDatasetIdentity;
  ci_witness_paths : list (list ExactDatasetIdentity);
  ci_witness_path : list ExactDatasetIdentity;
}.

(** [u32::try_from(n).unwrap_or(u32::MAX)]. *)
Definition u32_saturating (n : nat) : Z := Z.min (Z.of_nat n) U32_MAX.

(** Field updates. *)
Definition with_occurrences (occurrences : list ClosureIssueOccurrence) (i : ClosureIssue) : ClosureIssue :=
  mk_issue (ci_key i) (ci_severity i) (ci_blocking i) (ci_code i) (ci_source i) (ci_json_path i) (ci_role i)
    (ci_target_type i) (ci_target_id i) (ci_target_version i) (ci_message i) (ci_action i)
    (u32_saturating (length occurrences)) occurrences
    (ci_affected_count i) (ci_affected_roots i) (ci_witness_paths i) (ci_witness_path i).
Definition with_role (role : option string) (i : ClosureIssue) : ClosureIssue :=
  mk_issue (ci_key i) (ci_severity i) (ci_blocking i) (ci_code i) (ci_source i) (ci_json_path i) role
    (ci_target_type i) (ci_target_id i) (ci_target_version i) (ci_message i) (ci_action i) (ci_occurrence_count i)
    (ci_occurrences i) (ci_affected_count i) (ci_affected_roots i) (ci_witness_paths i) (ci_witness_path i).
Definition with_severity (severity : string) (i : ClosureIssue) : ClosureIssue :=
  mk_issue (ci_key i) severity (ci_blocking i) (ci_code i) (ci_source i) (ci_json_path i) (ci_role i)
    (ci_target_type i) (ci_target_id i) (ci_target_version i) (ci_message i) (ci_action i) (ci_occurrence_count i)
    (ci_occurrences i) (ci_affected_count i) (ci_affected_roots i) (ci_witness_paths i) (ci_witness_path i).
Definition with_affected (count : Z) (roots : list ExactDatasetIdentity) (paths : list (list ExactDatasetIdentity))
    (path : list ExactDatasetIdentity) (i : ClosureIssue) : ClosureIssue :=
  mk_issue (ci_key i) (ci_severity i) (ci_blocking i) (ci_code i) (ci_source i) (ci_json_path i) (ci_role i)
    (ci_target_type i) (ci_target_id i) (ci_target_version i) (ci_message i) (ci_action i) (ci_occurrence_count i)
    (ci_occurrences i) count roots paths path.

(** ** Canonical JSON *)

(** Separators between the items. *)
Fixpoint comma_separated (items : list (list ascii)) : list ascii :=
  match items with
  | [] => []
  | [item] => item
  | item :: rest => item ++ [","%char] ++ comma_separated rest
  end.

Section Canonical.
Context `{ClosureLib}.

(** Objects in ascending key order; the text of keys and scalars is
    [serde_json]'s. *)
Fixpoint write_canonical_json (v : Value) : list ascii :=
  match v with
  | JObject entries =>
      let written := (fun kv => (kv.1, write_canonical_json kv.2)) <$> entries in
      ["{"%char]
      ++ comma_separated ((fun kt => json_text (JString kt.1) ++ [":"%char] ++ kt.2)
                          <$> sort_by (cmp_by fst String.compare) written)
      ++ ["}"%char]
  | JArray items => ["["%char] ++ comma_separated (write_canonical_json <$> items) ++ ["]"%char]
  | scalar => json_text scalar
  end.
Definition canonical_json_sha256 (v : Value) : string := sha256_hex (write_canonical_json v).
Definition canonical_value (v : Value) : string := of_bytes (write_canonical_json v).

(** The serialized identity. *)
Definition identity_json (i : ExactDatasetIdentity) : Value :=
  json_object [("category", JString (table_name (ei_category i))); ("id", JString (uuid_text (ei_id i)));
               ("version", JString (ei_version i))].

(** ** The kinds of issue *)

(** What the constructors share: a blocker with one occurrence and no affected
    roots yet. *)
Definition blocker_issue (key code : string) (source : option ExactDatasetIdentity) (path role : option string)
    (target_type : option string) (target_id : option Uuid) (target_version : option string) (message action : string)
    (details : Value) : ClosureIssue :=
  mk_issue key "blocker" true code source path role target_type target_id target_version message (Some action)
    1 [mk_occurrence (key +:+ ":0") source path role details] 0 [] [] [].

Definition extraction_issue (source : ExactDatasetIdentity) (issue : ReferenceExtractionIssue) : ClosureIssue :=
  let key := canonical_json_sha256 (json_object [("code", JString (ri_issue_code issue)); ("source", identity_json source);
    ("path", JString (ri_json_path issue)); ("role", JString (ri_role issue))]) in
  blocker_issue key (ri_issue_code issue) (Some source) (Some (ri_json_path issue)) (Some (ri_role issue)) None None None
    (ri_message issue) "Repair the source reference and rerun closure preflight." (ri_details issue).

Definition missing_dataset_issue (target : ExactDatasetIdentity) (explicitly_requested : bool) : ClosureIssue :=
  let code := if explicitly_requested then "reference_exact_version_missing" else "reference_target_missing" in
  let key := canonical_json_sha256 (json_object [("code", JString code); ("target", identity_json target)]) in
  blocker_issue key code (Some target) None None (Some (table_name (ei_category target))) (Some (ei_id target))
    (Some (ei_version target)) ("Exact referenced dataset " +:+ document_key target +:+ " was not found.")
    "Publish or repair the exact referenced revision." (JObject []).

Definition provider_boundary_issue (code : string) (identity : ExactDatasetIdentity) (message : string) (details : Value)
    : ClosureIssue :=
  let key := canonical_json_sha256 (json_object [("code", JString code); ("identity", identity_json identity)]) in
  blocker_issue key code (Some identity) None None (Some (table_name (ei_category identity))) (Some (ei_id identity))
    (Some (ei_version identity)) (message +:+ " Evidence: " +:+ canonical_value details)
    "Recreate the closure request from a consistent published release snapshot." details.

Definition provider_outside_universe_issue (source target : ExactDatasetIdentity) (edge : ReferenceEdge) : ClosureIssue :=
  let key := canonical_json_sha256 (json_object [("code", JString "provider_outside_scope_universe");
    ("source", identity_json source); ("path", JString (re_json_path edge)); ("target", identity_json target)]) in
  blocker_issue key "provider_outside_scope_universe" (Some source) (Some (re_json_path edge)) (Some (re_role edge))
    (Some (table_name (ei_category target))) (Some (ei_id target)) (Some (ei_version target))
    "Referenced process is outside the frozen scope-only provider universe."
    "Include the provider as a root or use the tracked transitive-expansion policy."
    (json_object [("target", identity_json target)]).

Definition omitted_version_issue (source : ExactDatasetIdentity) (edge : ReferenceEdge) (target_id : option Uuid) : ClosureIssue :=
  let key := canonical_json_sha256 (json_object [("code", JString "reference_version_omitted");
    ("source", identity_json source); ("path", JString (re_json_path edge)); ("target", JString (re_target_uuid edge))]) in
  blocker_issue key "reference_version_omitted" (Some source) (Some (re_json_path edge)) (Some (re_role edge))
    (Some (re_target_category edge)) target_id None
    "Reference omits @version and the selected policy did not resolve it."
    "Bind the reference to an exact published version."
    (json_object [("targetId", match target_id with Some u => JString (uuid_text u) | None => JNull end)]).

(** ** Occurrences *)

(** [sort_by] on the key, then [dedup_by] on it: the first of each run stays. *)
Definition occurrence_cmp : ClosureIssueOccurrence -> ClosureIssueOccurrence -> comparison := cmp_by oc_key String.compare.
Fixpoint dedup_keys (l : list ClosureIssueOccurrence) : list ClosureIssueOccurrence :=
  match l with
  | a :: rest =>
      match dedup_keys rest with
      | b :: rest' => if decide (oc_key a = oc_key b) then a :: rest' else a :: b :: rest'
      | [] => [a]
      end
  | [] => []
  end.
Definition normalize_occurrences (l : list ClosureIssueOccurrence) : list ClosureIssueOccurrence :=
  dedup_keys (sort_by occurrence_cmp l).

(** Insertion at the place the binary search names, unless the key is there. *)
Definition insert_occurrence (l : list ClosureIssueOccurrence) (o : ClosureIssueOccurrence) : list ClosureIssueOccurrence :=
  match binary_search_by (fun candidate => String.compare (oc_key candidate) (oc_key o)) l with
  | inl _ => l
  | inr index => take index l ++ o :: drop index l
  end.

(** ** Coalescing *)

Definition coalesce_issue_into (output : gmap string ClosureIssue) (issue : ClosureIssue) : gmap string ClosureIssue :=
  let occurrences := normalize_occurrences (ci_occurrences issue) in
  match output !! ci_key issue with
  | Some existing =>
      <[ci_key issue := with_occurrences (foldl insert_occurrence (ci_occurrences existing) occurrences) existing]> output
  | None => <[ci_key issue := with_occurrences occurrences issue]> output
  end.

(** [BTreeMap::into_values]: in ascending key order. *)
Definition key_order : string * ClosureIssue -> string * ClosureIssue -> comparison := cmp_by fst String.compare.
Definition finish_coalesced_issues (output : gmap string ClosureIssue) : list ClosureIssue :=
  (fun kv => with_occurrences (normalize_occurrences (ci_occurrences kv.2)) kv.2)
  <$> sort_by key_order (map_to_list output).
Definition coalesce_issues (issues : list ClosureIssue) : list ClosureIssue :=
  finish_coalesced_issues (foldl coalesce_issue_into ∅ issues).

(** ** Occurrences from the resolved references *)

Definition issue_target (i : ClosureIssue) : option ExactDatasetIdentity :=
  match ci_source i with
  | Some s => if decide (ci_target_id i = Some (ei_id s) /\ ci_target_version i = Some (ei_version s)) then Some s else None
  | None => None
  end.
Definition reference_occurrence (i : ClosureIssue) (r : ResolvedReference) : ClosureIssueOccurrence :=
  mk_occurrence
    (canonical_json_sha256 (json_object [("issueKey", JString (ci_key i)); ("source", identity_json (rr_source r));
       ("jsonPath", JString (rr_json_path r)); ("referenceRole", JString (rr_role r))]))
    (Some (rr_source r)) (Some (rr_json_path r)) (Some (rr_role r))
    (json_object [("requestedVersionState", JString (rr_version_state r)); ("target", identity_json (rr_target r))]).
Definition attach_occurrences (references : list ResolvedReference) (i : ClosureIssue) : ClosureIssue :=
  match issue_target i with
  | None => i
  | Some target =>
      let occurrences := normalize_occurrences (reference_occurrence i <$> filter (fun r => rr_target r = target) references) in
      match occurrences with
      | [] => i
      | first :: _ => with_role (oc_role first) (with_occurrences occurrences i)
      end
  end.
Definition attach_reference_occurrences (issues : list ClosureIssue) (references : list ResolvedReference) : list ClosureIssue :=
  attach_occurrences references <$> issues.
End Canonical.

(** ** Affected roots of the issues *)

(** One issue; the cache holds the searches already made, by source node. *)
Definition affect_issue (g : CompactReferenceGraph) (root_ids : list Z) (st : gmap Z AffectedRoots * list ClosureIssue)
    (i : ClosureIssue) : result string (gmap Z AffectedRoots * list ClosureIssue) :=
  let '(cache, done) := st in
  match ci_source i with
  | None =>
      Ok (cache, done ++ [with_affected (u32_saturating (length (ci_affected_roots i)))
                            (take ISSUE_INLINE_AFFECTED_ROOT_SAMPLE_LIMIT (ci_affected_roots i))
                            (take ISSUE_INLINE_AFFECTED_ROOT_SAMPLE_LIMIT (ci_witness_paths i)) (ci_witness_path i) i])
  | Some source =>
      match g_ids g !! source with
      | None => Ok (cache, done ++ [i])
      | Some source_id =>
          a ← match cache !! source_id with
              | Some a => Ok a
              | None => compute_single_source_affected_roots source_id root_ids g
              end;
          Ok (<[source_id := a]> cache,
              done ++ [with_affected (ar_count a) (ar_affected a) (ar_witnesses a) (default [] (head (ar_witnesses a))) i])
      end
  end.
Definition compute_affected_roots_batch (issues : list ClosureIssue) (roots : list ExactDatasetIdentity)
    (g : CompactReferenceGraph) : result string (list ClosureIssue) :=
  st ← foldM (affect_issue g (omap (fun root => g_ids g !! root) roots)) issues (∅, []);
  Ok st.2.

(** ** Severities *)

Definition database_severity (i : ClosureIssue) : result string string :=
  let severity := ci_severity i in
  if ci_blocking i then
    if one_of ["blocker"; "error"; "fatal"] severity then Ok "blocker"
    else if one_of ["warning"; "info"] severity
    then Err ("blocking closure issue " +:+ ci_code i +:+ " cannot use non-blocking severity " +:+ severity)
    else Err ("closure issue " +:+ ci_code i +:+ " has unsupported severity " +:+ severity)
  else if decide (severity = "warning") then Ok "warning"
  else if decide (severity = "info") then Ok "info"
  else if one_of ["blocker"; "error"; "fatal"] severity
  then Err ("non-blocking closure issue " +:+ ci_code i +:+ " cannot use blocking severity " +:+ severity)
  else Err ("closure issue " +:+ ci_code i +:+ " has unsupported severity " +:+ severity).
Definition normalize_database_issue_severities (issues : list ClosureIssue) : result string (list ClosureIssue) :=
  mapR (fun i => severity ← database_severity i; Ok (with_severity severity i)) issues.

(** ** Occurrence lists *)

Definition occurrence_keys (l : list ClosureIssueOccurrence) : list string := oc_key <$> l.
Definition occurrence_lt (a b : ClosureIssueOccurrence) : Prop := String.compare (oc_key a) (oc_key b) = Lt.
Definition occurrences_sorted (l : list ClosureIssueOccurrence) : Prop := StronglySorted occurrence_lt l.

#[export] Instance occurrence_lt_trans : Transitive occurrence_lt.
Proof. intros a b c. apply (cmp_lt_trans String.compare). Qed.

Lemma string_compare_lt_ne a b : String.compare a b = Lt -> a <> b.
Proof. intros Hlt ->. by rewrite string_compare_refl in Hlt. Qed.

Lemma dedup_keys_keys l k : k ∈ occurrence_keys (dedup_keys l) <-> k ∈ occurrence_keys l.
Proof.
  unfold occurrence_keys. induction l as [|a l IH]; [done|]. simpl.
  destruct (dedup_keys l) as [|b rest]; [|case_decide as Hk]; simpl in *; rewrite ?elem_of_cons in *.
  - rewrite <- IH. done.
  - rewrite <- IH, Hk. tauto.
  - rewrite <- IH. done.
Qed.

Lemma dedup_keys_sorted l : StronglySorted (fun a b => not_gt occurrence_cmp a b = true) l -> occurrences_sorted (dedup_keys l).
Proof.
  induction 1 as [|a l Hs IH Ha]; [constructor|]. simpl. destruct (dedup_keys l) as [|b rest] eqn:Ed; [repeat constructor|].
  apply StronglySorted_inv in IH as [Hr Hb]. case_decide as Hk.
  - constructor; [done|]. eapply Forall_impl; [exact Hb|]. unfold occurrence_lt. by rewrite Hk.
  - assert (occurrence_lt a b) as Hab.
    { assert (oc_key b ∈ occurrence_keys l) as Hin by (rewrite <- dedup_keys_keys, Ed; apply list_elem_of_here).
      apply list_elem_of_fmap in Hin as (y & Ey & Hy). rewrite Forall_forall in Ha. specialize (Ha y Hy).
      unfold not_gt, occurrence_cmp, cmp_by in Ha. unfold occurrence_lt. rewrite Ey in *.
      destruct (String.compare (oc_key a) (oc_key y)) eqn:E; [|done..]. by apply String.compare_eq_iff in E. }
    constructor; [by constructor|]. constructor; [done|]. eapply Forall_impl; [exact Hb|]. intros x Hx. by transitivity b.
Qed.

Lemma normalize_occurrences_spec l :
  occurrences_sorted (normalize_occurrences l)
  /\ forall k, k ∈ occurrence_keys (normalize_occurrences l) <-> k ∈ occurrence_keys l.
Proof.
  split; [apply dedup_keys_sorted, sort_by_sorted', _|]. intros k. unfold normalize_occurrences. rewrite dedup_keys_keys.
  unfold occurrence_keys. by rewrite sort_by_perm.
Qed.

(** A sorted list is its own normal form. *)
Lemma dedup_keys_fixed l : occurrences_sorted l -> dedup_keys l = l.
Proof.
  induction 1 as [|a l Hs IH Ha]; [done|]. simpl. rewrite IH. destruct l as [|b l]; [done|].
  rewrite decide_False; [done|]. inversion_clear Ha. by apply string_compare_lt_ne.
Qed.
Lemma normalize_occurrences_fixed l : occurrences_sorted l -> normalize_occurrences l = l.
Proof.
  intros Hs. unfold normalize_occurrences. rewrite (sort_by_unique occurrence_cmp l l); [by apply dedup_keys_fixed| |done|].
  - intros x y Hx Hy E. apply String.compare_eq_iff in E. clear -Hs Hx Hy E. induction Hs as [|a l Hs IH Ha]; [by apply elem_of_nil in Hx|].
    rewrite Forall_forall in Ha.
    apply elem_of_cons in Hx as [->|Hx], Hy as [->|Hy]; [done|exfalso..|by apply IH].
    + apply Ha, string_compare_lt_ne in Hy. done.
    + apply Ha, string_compare_lt_ne in Hx. done.
  - eapply StronglySorted_impl; [|exact Hs]. intros a b Hab. unfold not_gt, occurrence_cmp, cmp_by. by rewrite Hab.
Qed.

Lemma sorted_lookup (l : list ClosureIssueOccurrence) i j a b :
  occurrences_sorted l -> l !! i = Some a -> l !! j = Some b -> (i < j)%nat -> occurrence_lt a b.
Proof.
  intros Hs. revert i j. induction Hs as [|x l Hs IH Hx]; intros [|i] [|j] Ha Hb Hij; try done; try lia.
  - injection Ha as ->. rewrite Forall_forall in Hx. apply Hx. by eapply list_elem_of_lookup_2.
  - simpl in *. eapply IH; [done..|lia].
Qed.

Lemma insert_occurrence_spec l o : occurrences_sorted l ->
  occurrences_sorted (insert_occurrence l o)
  /\ forall k, k ∈ occurrence_keys (insert_occurrence l o) <-> k ∈ occurrence_keys l \/ k = oc_key o.
Proof.
  intros Hs. set (f := fun c => String.compare (oc_key c) (oc_key o)).
  assert (ordered_by f l) as Ho.
  { intros i j a b Ha Hb Hij. pose proof (sorted_lookup l i j a b Hs Ha Hb Hij) as Hab. unfold f, occurrence_lt in *.
    destruct (String.compare (oc_key b) (oc_key o)) eqn:Eb; simpl.
    - apply String.compare_eq_iff in Eb. rewrite <- Eb, Hab. simpl. lia.
    - rewrite (cmp_lt_trans String.compare _ _ _ Hab Eb). simpl. lia.
    - destruct (String.compare (oc_key a) (oc_key o)); simpl; lia. }
  pose proof (binary_search_spec f l Ho) as Hsp. unfold insert_occurrence. fold f.
  destruct (binary_search_by f l) as [i|i].
  - destruct Hsp as (a & Ha & E%String.compare_eq_iff). split; [done|]. intros k. split; [by left|].
    intros [Hk| ->]; [done|]. rewrite <- E. apply list_elem_of_fmap. exists a. split; [done|by eapply list_elem_of_lookup_2].
  - destruct Hsp as (Hi & Hlt & Hgt). split.
    + rewrite <- (take_drop i l) in Hs. apply StronglySorted_app in Hs as (Hcross & Ht & Hd).
      apply StronglySorted_app_2; [|done|].
      * intros a b Ha [->|Hb]%elem_of_cons; [|by apply Hcross].
        apply list_elem_of_lookup in Ha as [j Hj]. apply lookup_take_Some in Hj as [Hj Hji]. exact (Hlt j a Hj Hji).
      * constructor; [done|]. apply Forall_forall. intros b Hb. apply list_elem_of_lookup in Hb as [j Hj].
        rewrite lookup_drop in Hj. specialize (Hgt _ _ Hj ltac:(lia)). unfold f in Hgt. unfold occurrence_lt.
        rewrite String.compare_antisym, Hgt. done.
    + intros k. unfold occurrence_keys. rewrite fmap_app, fmap_cons, elem_of_app, elem_of_cons.
      assert (oc_key <$> l = (oc_key <$> take i l) ++ (oc_key <$> drop i l)) as -> by (by rewrite <- fmap_app, take_drop).
      rewrite elem_of_app. tauto.
Qed.

Lemma insert_occurrences_spec os : forall l, occurrences_sorted l ->
  occurrences_sorted (foldl insert_occurrence l os)
  /\ forall k, k ∈ occurrence_keys (foldl insert_occurrence l os) <-> k ∈ occurrence_keys l \/ k ∈ occurrence_keys os.
Proof.
  induction os as [|o os IH]; intros l Hs; simpl.
  - split; [done|]. intros k. split; [by left|]. intros [Hk|Hk]; [done|by apply elem_of_nil in Hk].
  - destruct (insert_occurrence_spec l o Hs) as [Hs1 Hk1]. destruct (IH _ Hs1) as [Hs2 Hk2]. split; [done|].
    intros k. rewrite Hk2, Hk1. change (occurrence_keys (o :: os)) with (oc_key o :: occurrence_keys os). rewrite elem_of_cons. tauto.
Qed.

(** ** Coalescing *)

(** What the map holds after the issues [seen]: under each key the first issue
    with it, with the occurrences of all of them. *)
Definition coalesced (seen : list ClosureIssue) (key : string) (i : ClosureIssue) : Prop :=
  ci_key i = key /\ occurrences_sorted (ci_occurrences i)
  /\ ci_occurrence_count i = u32_saturating (length (ci_occurrences i))
  /\ (forall k, k ∈ occurrence_keys (ci_occurrences i)
        <-> exists j, j ∈ seen /\ ci_key j = key /\ k ∈ occurrence_keys (ci_occurrences j))
  /\ (exists first, find (fun j => bool_decide (ci_key j = key)) seen = Some first
        /\ i = with_occurrences (ci_occurrences i) first).
Definition coalesced_map (seen : list ClosureIssue) (output : gmap string ClosureIssue) : Prop :=
  (forall key, is_Some (output !! key) <-> exists j, j ∈ seen /\ ci_key j = key)
  /\ forall key i, output !! key = Some i -> coalesced seen key i.

Lemma find_app {A} (p : A -> bool) l1 l2 :
  find p (l1 ++ l2) = match find p l1 with Some a => Some a | None => find p l2 end.
Proof. induction l1 as [|a l1 IH]; simpl; [done|]. by destruct (p a). Qed.

Lemma with_occurrences_twice l1 l2 i : with_occurrences l1 (with_occurrences l2 i) = with_occurrences l1 i.
Proof. done. Qed.

Lemma coalesce_step seen output issue :
  coalesced_map seen output -> coalesced_map (seen ++ [issue]) (coalesce_issue_into output issue).
Proof.
  intros [Hdom Hmap]. destruct (normalize_occurrences_spec (ci_occurrences issue)) as [Hns Hnk].
  assert (forall key, key <> ci_key issue -> forall i, coalesced seen key i -> coalesced (seen ++ [issue]) key i) as Hother.
  { intros key Hne i (H1 & H2 & H3 & H4 & (first & Hf & Hi)). split_and!; [done..| |].
    - intros k. rewrite H4. split; intros (j & Hj & Hk & Hin); exists j; (split; [|done]).
      + apply elem_of_app. by left.
      + apply elem_of_app in Hj as [Hj|Hj%list_elem_of_singleton]; [done|]. subst. done.
    - exists first. rewrite find_app, Hf. done. }
  assert (forall key, (exists j, j ∈ seen ++ [issue] /\ ci_key j = key)
    <-> key = ci_key issue \/ exists j, j ∈ seen /\ ci_key j = key) as Hseen.
  { intros key. split.
    - intros (j & [Hj|Hj%list_elem_of_singleton]%elem_of_app & Hk); [right; by exists j|left; by subst].
    - intros [->|(j & Hj & Hk)]; [exists issue|exists j]; (split; [set_solver|done]). }
  assert (exists new, coalesce_issue_into output issue = <[ci_key issue := new]> output
    /\ coalesced (seen ++ [issue]) (ci_key issue) new) as (new & -> & Hnew).
  { unfold coalesce_issue_into. destruct (output !! ci_key issue) as [old|] eqn:Hold; (eexists; split; [done|]).
    - destruct (Hmap _ _ Hold) as (H1 & H2 & H3 & H4 & (first & Hf & Hi)).
      destruct (insert_occurrences_spec (normalize_occurrences (ci_occurrences issue)) _ H2) as [Hs Hk].
      split_and!; [done|done|done| |].
      + intros k. cbn [ci_occurrences with_occurrences]. rewrite Hk, H4, Hnk. split.
        * intros [(j & Hj & E & Hin)|Hin]; [exists j|exists issue]; (split; [set_solver|done]).
        * intros (j & [Hj|Hj%list_elem_of_singleton]%elem_of_app & E & Hin); [left; by exists j|right; by subst].
      + exists first. rewrite find_app, Hf. split; [done|].
        assert (forall X, with_occurrences X old = with_occurrences X first) as HX by (intros X; by rewrite Hi). apply HX.
    - assert (~ exists j, j ∈ seen /\ ci_key j = ci_key issue) as Hno.
      { intros Hj. apply Hdom in Hj as [i Hi]. congruence. }
      split_and!; [done|done|done| |].
      + intros k. cbn [ci_occurrences with_occurrences]. rewrite Hnk. split.
        * intros Hin. exists issue. split; [set_solver|done].
        * intros (j & [Hj|Hj%list_elem_of_singleton]%elem_of_app & E & Hin); [|by subst]. exfalso. apply Hno. by exists j.
      + exists issue. split; [|done]. rewrite find_app. simpl. rewrite bool_decide_true by done.
        destruct (find _ seen) as [j|] eqn:Ef; [|done]. apply find_some in Ef as [Hj Hk].
        apply bool_decide_eq_true in Hk. exfalso. apply Hno. exists j. split; [by apply list_elem_of_In|done]. }
  split.
  - intros key. rewrite Hseen, lookup_insert_is_Some, Hdom. split; [intros [->|[_ ?]]|intros [->|?]]; auto.
    destruct (decide (ci_key issue = key)); auto.
  - intros key i. rewrite lookup_insert_Some. intros [[<- <-]|[Hne Hi]]; [done|]. apply Hother; [done|by apply Hmap].
Qed.

Lemma coalesce_all issues : coalesced_map issues (foldl coalesce_issue_into ∅ issues).
Proof.
  induction issues as [|issue issues IH] using rev_ind; [cbn [foldl]|].
  - split.
    + intros key. rewrite lookup_empty. split; [by intros [? ?]|]. intros (j & Hj & _). by apply elem_of_nil in Hj.
    + intros key i. by rewrite lookup_empty.
  - rewrite foldl_app. by apply coalesce_step.
Qed.

Definition issue_key_lt (a b : ClosureIssue) : Prop := String.compare (ci_key a) (ci_key b) = Lt.

Lemma coalesce_issues_spec issues :
  StronglySorted issue_key_lt (coalesce_issues issues)
  /\ (forall key, (exists i, i ∈ coalesce_issues issues /\ ci_key i = key) <-> exists j, j ∈ issues /\ ci_key j = key)
  /\ forall i, i ∈ coalesce_issues issues -> coalesced issues (ci_key i) i.
Proof.
  destruct (coalesce_all issues) as [Hdom Hmap]. unfold coalesce_issues, finish_coalesced_issues.
  set (output := foldl coalesce_issue_into ∅ issues) in *.
  set (finish := fun kv : string * ClosureIssue => with_occurrences (normalize_occurrences (ci_occurrences kv.2)) kv.2).
  assert (forall kv, kv ∈ sort_by key_order (map_to_list output) -> output !! kv.1 = Some kv.2 /\ finish kv = kv.2) as Hfin.
  { intros [key i]. rewrite sort_by_perm, elem_of_map_to_list. intros Hi. split; [done|]. unfold finish. simpl.
    destruct (Hmap _ _ Hi) as (_ & Hs & Hc & _). rewrite normalize_occurrences_fixed by done.
    destruct i. unfold with_occurrences. simpl in *. by rewrite Hc. }
  split_and!.
  - pose proof (sort_by_sorted' key_order (map_to_list output)) as Hs.
    assert (NoDup (sort_by key_order (map_to_list output)).*1) as Hnd by (rewrite sort_by_perm; apply NoDup_fst_map_to_list).
    induction Hs as [|kv l Hs IH Hall]; [constructor|]. rewrite fmap_cons. apply NoDup_cons in Hnd as [Hni Hnd].
    constructor; [apply IH; [|done]; intros x Hx; by apply Hfin, list_elem_of_further|].
    apply Forall_forall. intros x (kv' & -> & Hkv')%list_elem_of_fmap.
    destruct (Hfin kv (list_elem_of_here _ _)) as [Hl ->]. destruct (Hfin kv' (list_elem_of_further _ _ _ Hkv')) as [Hl' ->].
    unfold issue_key_lt. destruct (Hmap _ _ Hl) as [-> _], (Hmap _ _ Hl') as [-> _].
    rewrite Forall_forall in Hall. specialize (Hall kv' Hkv'). unfold not_gt, key_order, cmp_by in Hall.
    destruct (String.compare kv.1 kv'.1) eqn:E; [|done..]. exfalso. apply String.compare_eq_iff in E. apply Hni. rewrite E.
    by apply list_elem_of_fmap_2.
  - intros key. rewrite <- Hdom. split.
    + intros (i & (kv & -> & Hkv)%list_elem_of_fmap & Hk). destruct (Hfin kv Hkv) as [Hl E]. rewrite E in Hk.
      destruct (Hmap _ _ Hl) as [Hk' _]. rewrite <- Hk, Hk', Hl. by eexists.
    + intros [i Hi]. exists i. destruct (Hmap _ _ Hi) as [Hk _]. split; [|done]. apply list_elem_of_fmap. exists (key, i).
      assert ((key, i) ∈ sort_by key_order (map_to_list output)) as Hin by (rewrite sort_by_perm; by apply elem_of_map_to_list).
      split; [|done]. by destruct (Hfin _ Hin) as [_ ->].
  - intros i (kv & -> & Hkv)%list_elem_of_fmap. destruct (Hfin kv Hkv) as [Hl ->]. pose proof (Hmap _ _ Hl) as Hc.
    destruct Hc as [E Hc]. rewrite E. done.
Qed.


(** ** Laws of the smaller operations *)

(** The canonical text of an object does not depend on the order of its
    entries. *)
Lemma canonical_object_order `{ClosureLib} entries1 entries2 :
  entries1 ≡ₚ entries2 -> NoDup entries1.*1 ->
  write_canonical_json (JObject entries1) = write_canonical_json (JObject entries2).
Proof.
  intros Hp Hnd. cbn [write_canonical_json]. do 2 f_equal. f_equal. f_equal.
  set (written := fun kv : string * Value => (kv.1, write_canonical_json kv.2)).
  apply sort_by_unique; [apply _| |rewrite sort_by_perm; by rewrite Hp|apply sort_by_sorted', _].
  intros x y (a & -> & Ha)%list_elem_of_fmap (b & -> & Hb)%list_elem_of_fmap E%String.compare_eq_iff.
  destruct a as [k v], b as [k' v']. simpl in E. subst k'. f_equal.
  apply (elem_of_list_to_map (M := gmap string)) in Ha, Hb; [|done..]. congruence.
Qed.

(** The accepted severities: exactly the blocking issues become blockers. *)
Lemma database_severity_ok i s : database_severity i = Ok s ->
  (ci_blocking i = true -> s = "blocker") /\ (ci_blocking i = false -> s = "warning" \/ s = "info").
Proof.
  unfold database_severity. destruct (ci_blocking i).
  - destruct (one_of _ _); [|by destruct (one_of _ _)]. intros [= <-]. split; [done|discriminate].
  - repeat case_decide; [intros [= <-]..|by destruct (one_of _ _)]; (split; [discriminate|auto]).
Qed.

Lemma normalize_severities_ok issues out : normalize_database_issue_severities issues = Ok out ->
  Forall2 (fun i o => o = with_severity (ci_severity o) i /\ (ci_severity o = "blocker" <-> ci_blocking i = true)) issues out.
Proof.
  intros Hm%mapR_ok. eapply Forall2_impl; [exact Hm|]. intros i o (s & Hs & Ho)%bind_ok.
  injection Ho as <-. apply database_severity_ok in Hs as [Ht Hf]. cbn [ci_severity with_severity]. split; [done|].
  destruct (ci_blocking i); [split; [done|by intros _; apply Ht]|]. split; [|done]. intros ->. by destruct (Hf eq_refl).
Qed.

(** ** The affected roots of a batch of issues *)

(** What one issue becomes, without the cache. *)
Definition affected_issue (g : CompactReferenceGraph) (root_ids : list Z) (i o : ClosureIssue) : Prop :=
  match ci_source i with
  | None => o = with_affected (u32_saturating (length (ci_affected_roots i)))
                  (take ISSUE_INLINE_AFFECTED_ROOT_SAMPLE_LIMIT (ci_affected_roots i))
                  (take ISSUE_INLINE_AFFECTED_ROOT_SAMPLE_LIMIT (ci_witness_paths i)) (ci_witness_path i) i
  | Some source =>
      match g_ids g !! source with
      | None => o = i
      | Some source_id => exists a, compute_single_source_affected_roots source_id root_ids g = Ok a
          /\ o = with_affected (ar_count a) (ar_affected a) (ar_witnesses a) (default [] (head (ar_witnesses a))) i
      end
  end.

Lemma affect_batch g root_ids issues :
  (forall source id, g_ids g !! source = Some id -> exists a, compute_single_source_affected_roots id root_ids g = Ok a) ->
  exists cache out, foldM (affect_issue g root_ids) issues (∅, []) = Ok (cache, out)
    /\ Forall2 (affected_issue g root_ids) issues out.
Proof.
  intros Hok.
  destruct (foldM_total_ind (fun pre st => Forall2 (affected_issue g root_ids) pre st.2
    /\ forall id a, st.1 !! id = Some a -> compute_single_source_affected_roots id root_ids g = Ok a)
    (affect_issue g root_ids) issues (∅, [])) as ([cache out] & E & HF & _).
  - split; [constructor|]. simpl. intros id a. by rewrite lookup_empty.
  - intros pre i post [cache done] _ [HF Hc]. simpl in HF, Hc. unfold affect_issue.
    assert (forall o, affected_issue g root_ids i o -> Forall2 (affected_issue g root_ids) (pre ++ [i]) (done ++ [o])) as Happ
      by (intros o Ho; apply Forall2_app; [exact HF|by repeat constructor]).
    destruct (ci_source i) as [source|] eqn:Es; [destruct (g_ids g !! source) as [id|] eqn:Eid|].
    + destruct (Hok source id Eid) as [a Ha].
      assert (match cache !! id with Some a => Ok a | None => compute_single_source_affected_roots id root_ids g end = Ok a) as ->
        by (destruct (cache !! id) as [a'|] eqn:Ec; [apply Hc in Ec; congruence|done]).
      eexists. split; [done|]. simpl. split.
      * apply Happ. unfold affected_issue. rewrite Es, Eid. by exists a.
      * intros id' a'. rewrite lookup_insert_Some. intros [[<- <-]|[_ H]]; [done|by apply Hc].
    + eexists. split; [done|]. split; [|done]. apply Happ. unfold affected_issue. by rewrite Es, Eid.
    + eexists. split; [done|]. split; [|done]. apply Happ. unfold affected_issue. by rewrite Es.
  - by exists cache, out.
Qed.

Lemma compute_affected_batch references roots g issues candidates :
  from_references references roots = Ok g ->
  exists out, compute_affected_roots_batch issues candidates g = Ok out
    /\ Forall2 (affected_issue g (omap (fun root => g_ids g !! root) candidates)) issues out.
Proof.
  intros Hg. destruct (affect_batch g (omap (fun root => g_ids g !! root) candidates) issues) as (cache & out & E & HF).
  - intros source id Hs.
    destruct (visit_affected references roots g source id candidates sample_root (mk_affected 0 [] []) Hg Hs)
      as (affected & witness & _ & _ & Ev).
    unfold compute_single_source_affected_roots. rewrite Ev, sample_roots. by eexists.
  - exists out. unfold compute_affected_roots_batch. by rewrite E.
Qed.
