(* ===== verification/ExternalSort.v ===== *)
(** * External sorting of relation streams

    [SortedJsonlRunWriter] and [sort_jsonl_spool] (scope_closure.rs): lines of
    canonical JSON are buffered, written to sorted run files and merged with a
    heap, in several passes when there are many runs.  A file is its bytes, one
    line per line feed. *)

From S2P Require Import Prelude Text Json DataBuilder Identity.

Local Open Scope string_scope.
Local Open Scope Z_scope.
Local Open Scope list_scope.

Abbreviation Line := (list ascii).

(** The order of [Vec<u8>]. *)
Definition line_cmp (a b : Line) : comparison := String.compare (of_bytes a) (of_bytes b).
#[export] Instance line_cmp_preorder : TotalPreorder line_cmp.
Proof. change line_cmp with (cmp_by of_bytes String.compare). apply _. Qed.

Definition line_feed : ascii := byte 10.
Definition carriage_return : ascii := byte 13.

(** ** Files of lines *)

Definition file_of_lines (lines : list Line) : list ascii := flat_map (fun l => l ++ [line_feed]) lines.

(** [read_until(b'\n')]: up to and including the line feed. *)
Fixpoint read_until_line_feed (file : list ascii) : list ascii * list ascii :=
  match file with
  | [] => ([], [])
  | c :: rest =>
      if (c =? line_feed)%char then ([c], rest)
      else let '(line, rest) := read_until_line_feed rest in (c :: line, rest)
  end.

(** [if line.last() == Some(&c) { line.pop(); }]. *)
Definition pop_last (c : ascii) (line : list ascii) : list ascii :=
  match reverse line with
  | d :: l => if (d =? c)%char then reverse l else line
  | [] => line
  end.

Definition read_canonical_jsonl_line (file : list ascii) : option (Line * list ascii) :=
  match file with
  | [] => None
  | _ => let '(line, rest) := read_until_line_feed file in
         Some (pop_last carriage_return (pop_last line_feed line), rest)
  end.

(** ** Runs and their merge *)

(** [buffered.sort()] and one line after the other. *)
Definition write_sorted_jsonl_run (buffered : list Line) : list ascii := file_of_lines (sort_by line_cmp buffered).

(** The heap holds the next line of each reader with its index; [pop] takes the
    least pair. *)
Definition heap_cmp : Line * nat -> Line * nat -> comparison :=
  cmp_then (cmp_by fst line_cmp) (cmp_by (fun x => Z.of_nat x.2) Z.compare).
Definition heap_remove (index : nat) (heap : list (Line * nat)) : list (Line * nat) :=
  filter (fun x => x.2 <> index) heap.

(** The next line of reader [index] goes onto the heap. *)
Definition refill (readers : list (list ascii)) (heap : list (Line * nat)) (index : nat)
    : list (list ascii) * list (Line * nat) :=
  match readers !! index ≫= read_canonical_jsonl_line with
  | Some (line, rest) => (<[index := rest]> readers, (line, index) :: heap)
  | None => (readers, heap)
  end.

(** [while let Some(..) = heap.pop()]: the lines in the order they are visited.
    Every round consumes a line, so the number of bytes bounds the rounds. *)
Fixpoint merge_loop (fuel : nat) (readers : list (list ascii)) (heap : list (Line * nat)) : option (list Line) :=
  match min_by heap_cmp heap with
  | None => Some []
  | Some (line, index) =>
      match fuel with
      | O => None
      | S fuel =>
          let '(readers, heap) := refill readers (heap_remove index heap) index in
          (fun lines => line :: lines) <$> merge_loop fuel readers heap
      end
  end.
Definition merge_sorted_jsonl_runs (runs : list (list ascii)) : option (list Line) :=
  let '(readers, heap) := foldl (fun st index => refill st.1 st.2 index) (runs, []) (seq 0 (length runs)) in
  merge_loop (S (length (concat runs))) readers heap.

(** ** The run writer *)

Definition ISSUE_PARTITION_MAX_UNCOMPRESSED_BYTES : Z := 32 * 1024 * 1024.
Definition SCOPE_CLOSURE_TEMP_FREE_SPACE_RESERVE_BYTES : Z := 512 * 1024 * 1024.
Definition SORT_MERGE_FAN_IN : nat := 64.
Definition VALIDATION_SORT_RUN_BYTES : Z := 32 * 1024 * 1024.

Record SortedJsonlRunWriter := mk_run_writer {
  rw_run_bytes : Z;
  rw_fan_in : nat;
  rw_runs : list (list ascii);
  rw_buffered : list Line;
  rw_buffered_bytes : Z;
  rw_events : Z;
  rw_size : Z;
}.
Record SortedJsonlRuns := mk_runs { sr_runs : list (list ascii); sr_events : Z; sr_size : Z }.

Definition run_writer_new : SortedJsonlRunWriter :=
  mk_run_writer VALIDATION_SORT_RUN_BYTES SORT_MERGE_FAN_IN [] [] 0 0 0.

Definition ensure_relation_temp_capacity (available planned : Z) : result string unit :=
  _ ← ensure (planned + SCOPE_CLOSURE_TEMP_FREE_SPACE_RESERVE_BYTES <=? U64_MAX)
        "scope closure relation temp-space requirement overflow";
  ensure (planned + SCOPE_CLOSURE_TEMP_FREE_SPACE_RESERVE_BYTES <=? available) "scope_closure_relation_temp_space_low".

Definition RELATION_TEMP_ADMISSION_SAFETY_PERCENT : Z := 125.
Definition RELATION_TEMP_ACTIVE_WINDOW_COUNT : Z := 4.
Definition relation_temp_admission_bytes (raw_event_count raw_byte_size : Z) : Z :=
  let bytes := raw_byte_size + saturating_sub raw_event_count 1 in
  let average_raw_event_bytes := if bytes <=? U64_MAX then bytes / Z.max raw_event_count 1 else raw_byte_size in
  let merge_runs := saturating_mul (saturating_mul average_raw_event_bytes raw_event_count) 5 in
  let issue_runs := merge_runs in
  let occurrence_runs := saturating_mul (saturating_mul average_raw_event_bytes raw_event_count) 2 in
  let active_outputs := saturating_mul ISSUE_PARTITION_MAX_UNCOMPRESSED_BYTES RELATION_TEMP_ACTIVE_WINDOW_COUNT in
  saturating_add
    (saturating_mul
       (saturating_add (saturating_add (saturating_add (saturating_add raw_byte_size (saturating_mul merge_runs 2)) issue_runs)
          occurrence_runs) active_outputs)
       RELATION_TEMP_ADMISSION_SAFETY_PERCENT) 99 / 100.
Definition admit_relation_temp_space (available : Z) (events size : Z) : result string Z :=
  let planned := relation_temp_admission_bytes events size in
  _ ← ensure_relation_temp_capacity available planned;
  Ok planned.

(** When the free space of the temporary directory is asked for: before run
    [index] is written, before group [group_index] of merge pass [pass], or before
    a spool is sorted. *)
Inductive SpaceQuery := BeforeRun (index : nat) | BeforeMerge (pass group_index : nat) | BeforeSort.

Section RunWriter.
Context (available : SpaceQuery -> Z).

Definition flush_run (w : SortedJsonlRunWriter) : result string SortedJsonlRunWriter :=
  match rw_buffered w with
  | [] => Ok w
  | _ =>
      _ ← ensure_relation_temp_capacity (available (BeforeRun (length (rw_runs w)))) (rw_buffered_bytes w);
      Ok (mk_run_writer (rw_run_bytes w) (rw_fan_in w) (rw_runs w ++ [write_sorted_jsonl_run (rw_buffered w)]) [] 0
            (rw_events w) (rw_size w))
  end.

Definition run_append (w : SortedJsonlRunWriter) (line : Line) : result string SortedJsonlRunWriter :=
  let record_bytes := Z.of_nat (length line) + 1 in
  _ ← ensure (record_bytes <=? USIZE_MAX) "derived relation record byte count overflow";
  _ ← ensure (record_bytes <=? ISSUE_PARTITION_MAX_UNCOMPRESSED_BYTES) "derived_relation_record_too_large";
  _ ← ensure (rw_size w + record_bytes <=? U64_MAX) "derived relation byte count overflow";
  _ ← ensure (rw_events w + 1 <=? U64_MAX) "derived relation event count overflow";
  _ ← ensure (rw_buffered_bytes w + record_bytes <=? USIZE_MAX) "derived relation run byte count overflow";
  let w := mk_run_writer (rw_run_bytes w) (rw_fan_in w) (rw_runs w) (rw_buffered w ++ [line])
             (rw_buffered_bytes w + record_bytes) (rw_events w + 1) (rw_size w + record_bytes) in
  if rw_run_bytes w <=? rw_buffered_bytes w then flush_run w else Ok w.

(** [slice.chunks(k)]; the length bounds the number of chunks. *)
Fixpoint chunks_of {A} (fuel k : nat) (l : list A) : list (list A) :=
  match fuel, l with
  | S fuel, _ :: _ => take k l :: chunks_of fuel k (drop k l)
  | _, _ => []
  end.
Definition chunks {A} (k : nat) (l : list A) : list (list A) := chunks_of (length l) k l.

(** One group of runs merged into one file. *)
Definition merge_group (pass : nat) (g : nat * list (list ascii)) : result string (list ascii) :=
  let '(group_index, group) := g in
  let planned := Z.min (Z.of_nat (length (concat group))) U64_MAX in
  _ ← ensure_relation_temp_capacity (available (BeforeMerge pass group_index)) planned;
  match merge_sorted_jsonl_runs group with
  | Some lines => Ok (file_of_lines lines)
  | None => Panic
  end.

(** [while run_paths.len() > merge_fan_in]; a pass leaves fewer runs. *)
Fixpoint merge_passes (fuel fan_in pass : nat) (runs : list (list ascii)) : result string (list (list ascii)) :=
  if (length runs <=? fan_in)%nat then Ok runs
  else match fuel with
       | O => Panic
       | S fuel =>
           let groups := chunks fan_in runs in
           compacted ← mapR (merge_group pass) (zip (seq 0 (length groups)) groups);
           merge_passes fuel fan_in (S pass) compacted
       end.

Definition run_finish (w : SortedJsonlRunWriter) : result string SortedJsonlRuns :=
  w ← flush_run w;
  runs ← merge_passes (length (rw_runs w)) (rw_fan_in w) 0 (rw_runs w);
  Ok (mk_runs runs (rw_events w) (rw_size w)).
End RunWriter.

(** The order [SortedJsonlRuns::visit] hands the lines out in. *)
Definition run_visit (r : SortedJsonlRuns) : option (list Line) := merge_sorted_jsonl_runs (sr_runs r).

(** ** Spools of values *)

Definition VALIDATION_ISSUE_SPOOL_MAX_BYTES : Z := 2 * 1024 * 1024 * 1024.
Definition VALIDATION_ISSUE_SPOOL_MAX_EVENTS : Z := 5000000.

(** A finished spool: its file and its counters (the digest of the file is a
    function of the file). *)
Record JsonlValueSpool := mk_spool { sp_file : list ascii; sp_events : Z; sp_size : Z }.
Record JsonlValueSpoolWriter := mk_spool_writer { sw_file : list ascii; sw_events : Z; sw_size : Z; sw_limits : bool }.

Definition spool_writer_new : JsonlValueSpoolWriter := mk_spool_writer [] 0 0 true.
Definition spool_writer_new_derived : JsonlValueSpoolWriter := mk_spool_writer [] 0 0 false.
Definition record_append (w : JsonlValueSpoolWriter) (written : list ascii) : result string JsonlValueSpoolWriter :=
  let size := sw_size w + Z.of_nat (length written) in
  _ ← ensure (size <=? U64_MAX) "validation issue spool byte count overflow";
  let events := sw_events w + 1 in
  _ ← ensure (events <=? U64_MAX) "validation issue spool event count overflow";
  _ ← ensure (negb (sw_limits w && ((VALIDATION_ISSUE_SPOOL_MAX_BYTES <? size) || (VALIDATION_ISSUE_SPOOL_MAX_EVENTS <? events))))
        "validation issue spool exceeded bounded capacity";
  Ok (mk_spool_writer (sw_file w ++ written) events size (sw_limits w)).
Definition append_raw_jsonl_line (w : JsonlValueSpoolWriter) (line : list ascii) : result string JsonlValueSpoolWriter :=
  match reverse line with
  | c :: _ => if (c =? line_feed)%char then record_append w line else Err "validation issue stream line must end with a newline"
  | [] => Err "validation issue stream line must end with a newline"
  end.
Definition append_canonical_bytes (w : JsonlValueSpoolWriter) (line : Line) : result string JsonlValueSpoolWriter :=
  record_append w (line ++ [line_feed]).
Definition spool_finish (w : JsonlValueSpoolWriter) : JsonlValueSpool := mk_spool (sw_file w) (sw_events w) (sw_size w).

(** [tidas_cli::visit_jsonl]: the lines that are not blank. *)
Definition is_ascii_whitespace (c : ascii) : bool := existsb (Ascii.eqb c) [byte 32; byte 9; byte 10; byte 12; byte 13].
Fixpoint visit_jsonl (fuel : nat) (file : list ascii) : list Line :=
  match fuel, read_canonical_jsonl_line file with
  | S fuel, Some (line, rest) =>
      if forallb is_ascii_whitespace line then visit_jsonl fuel rest else line :: visit_jsonl fuel rest
  | _, _ => []
  end.
Definition spool_visit (spool : JsonlValueSpool) : list Line := visit_jsonl (length (sp_file spool)) (sp_file spool).

Definition ensure_temp_free_space (available planned : Z) : result string unit :=
  _ ← ensure (planned + SCOPE_CLOSURE_TEMP_FREE_SPACE_RESERVE_BYTES <=? U64_MAX) "scope closure temporary-space requirement overflow";
  ensure (negb (available <? planned + SCOPE_CLOSURE_TEMP_FREE_SPACE_RESERVE_BYTES)) "scope_closure_temp_space_low".

Section SpoolSort.
(** [canonical] reads a line as JSON and writes it canonically. *)
Context (available : SpaceQuery -> Z) (canonical : Line -> result string Line) (run_bytes : Z).

Record SortBuffer := mk_sort_buffer { sb_runs : list (list ascii); sb_buffered : list Line; sb_bytes : Z }.
Definition sort_push (st : SortBuffer) (event : Line) : result string SortBuffer :=
  line ← canonical event;
  let bytes := saturating_add (sb_bytes st) (Z.of_nat (length line)) in
  let buffered := sb_buffered st ++ [line] in
  Ok (if run_bytes <=? bytes then mk_sort_buffer (sb_runs st ++ [write_sorted_jsonl_run buffered]) [] 0
      else mk_sort_buffer (sb_runs st) buffered bytes).
Definition sort_jsonl_spool_with_run_bytes (spool : JsonlValueSpool) : result string JsonlValueSpool :=
  _ ← ensure (negb (run_bytes =? 0)) "validation issue sort run budget must be positive";
  _ ← ensure_temp_free_space (available BeforeSort) (saturating_mul (sp_size spool) 2);
  st ← foldM sort_push (spool_visit spool) (mk_sort_buffer [] [] 0);
  let runs := match sb_buffered st with
              | [] => sb_runs st
              | buffered => sb_runs st ++ [write_sorted_jsonl_run buffered]
              end in
  lines ← match merge_sorted_jsonl_runs runs with Some lines => Ok lines | None => Panic end;
  output ← foldM append_canonical_bytes lines spool_writer_new;
  _ ← ensure (sw_events output =? sp_events spool) "validation issue external sort count mismatch";
  Ok (spool_finish output).
End SpoolSort.

(** ** Reading back what was written *)

(** Canonical JSON has no line break inside. *)
Definition clean_line (l : Line) : Prop := line_feed ∉ l /\ carriage_return ∉ l.
Definition line_le (a b : Line) : Prop := not_gt line_cmp a b = true.

Lemma read_until_written l rest : line_feed ∉ l ->
  read_until_line_feed (l ++ line_feed :: rest) = (l ++ [line_feed], rest).
Proof.
  induction l as [|c l IH]; intros Hl; cbn [app read_until_line_feed].
  - by rewrite Ascii.eqb_refl.
  - apply not_elem_of_cons in Hl as [Hc Hl]. destruct (Ascii.eqb_spec c line_feed) as [->|_]; [done|]. by rewrite IH.
Qed.

Lemma pop_last_snoc c l : pop_last c (l ++ [c]) = l.
Proof. unfold pop_last. rewrite reverse_snoc, Ascii.eqb_refl. apply reverse_involutive. Qed.
Lemma pop_last_absent c l : c ∉ l -> pop_last c l = l.
Proof.
  intros Hc. unfold pop_last. destruct (reverse l) as [|d r] eqn:E; [done|].
  destruct (Ascii.eqb_spec d c) as [->|_]; [|done]. exfalso. apply Hc. rewrite <- (reverse_involutive l), E.
  apply elem_of_reverse, list_elem_of_here.
Qed.

Lemma read_line_back l ls : clean_line l -> read_canonical_jsonl_line (file_of_lines (l :: ls)) = Some (l, file_of_lines ls).
Proof.
  intros [Hf Hr]. unfold read_canonical_jsonl_line. cbn [file_of_lines flat_map]. rewrite <- app_assoc. cbn [app].
  rewrite read_until_written, pop_last_snoc, pop_last_absent by done. by destruct l.
Qed.

Lemma lines_le_bytes ls : (length ls <= length (file_of_lines ls))%nat.
Proof. induction ls as [|l ls IH]; [done|]. cbn [file_of_lines flat_map]. rewrite length_app, length_app. simpl. unfold file_of_lines in IH. lia. Qed.

Lemma file_of_lines_app a b : file_of_lines (a ++ b) = file_of_lines a ++ file_of_lines b.
Proof. apply flat_map_app. Qed.
Lemma concat_files (rs : list (list Line)) : concat (file_of_lines <$> rs) = file_of_lines (concat rs).
Proof. induction rs as [|r rs IH]; [done|]. cbn [fmap list_fmap concat]. rewrite file_of_lines_app. f_equal. apply IH. Qed.

(** ** The merge *)

Section Merge.
Implicit Types (rs : list (list Line)) (heap : list (Line * nat)).

Definition pending (rs : list (list Line)) (heap : list (Line * nat)) : list Line := heap.*1 ++ concat rs.
Definition run_ok (r : list Line) : Prop := StronglySorted line_le r /\ Forall clean_line r.

(** An opened reader has its least line on the heap, or nothing left. *)
Record merging (opened : nat -> Prop) (rs : list (list Line)) (heap : list (Line * nat)) : Prop := {
  mg_indices : NoDup heap.*2;
  mg_entry : forall l i, (l, i) ∈ heap -> opened i /\ exists r, rs !! i = Some r /\ StronglySorted line_le (l :: r);
  mg_empty : forall i r, rs !! i = Some r -> opened i -> i ∈ heap.*2 \/ r = [];
  mg_runs : forall i r, rs !! i = Some r -> run_ok r;
}.

Lemma concat_insert rs i l r : rs !! i = Some (l :: r) -> concat rs ≡ₚ l :: concat (<[i := r]> rs).
Proof.
  revert i. induction rs as [|x rs IH]; intros [|i] Hi; [done..| |]; cbn [lookup list_lookup insert list_insert concat] in *.
  - injection Hi as ->. done.
  - rewrite (IH i Hi). by rewrite Permutation_middle.
Qed.

(** A closed reader [i] is asked for its next line. *)
Lemma refill_merging (O O' : nat -> Prop) rs heap i : merging O rs heap -> ~ O i -> (i < length rs)%nat ->
  (forall j, O' j <-> j = i \/ O j) ->
  exists rs' heap', refill (file_of_lines <$> rs) heap i = (file_of_lines <$> rs', heap')
    /\ merging O' rs' heap' /\ pending rs' heap' ≡ₚ pending rs heap /\ length rs' = length rs.
Proof.
  intros [Hnd He Hm Hs] Hi Hlen HO. unfold refill. rewrite list_lookup_fmap.
  assert (forall l j, (l, j) ∈ heap -> j <> i) as Hne by (intros l j Hj ->; by apply Hi, (He l)).
  destruct (lookup_lt_is_Some_2 rs i Hlen) as [r Hr]. rewrite Hr. cbn [fmap option_fmap option_map mbind option_bind].
  destruct (Hs i r Hr) as [Hsr Hcr]. destruct r as [|l r].
  - exists rs, heap. split; [done|]. split; [split; try done|done].
    + intros l j Hj. destruct (He l j Hj) as [Hlt Hr']. split; [|done]. apply HO. by right.
    + intros j r Hj [->|Hj']%HO; [right; congruence|by apply (Hm j r)].
  - inversion_clear Hcr as [|? ? Hcl Hcr']. rewrite (read_line_back l r Hcl).
    exists (<[i := r]> rs), ((l, i) :: heap). split; [by rewrite list_fmap_insert|]. split; [split|split].
    + simpl. constructor; [|done]. intros ([l' j] & -> & Hj)%list_elem_of_fmap. by apply (Hne l' j).
    + intros l' j [[= -> ->]|Hj]%elem_of_cons.
      * split; [apply HO; by left|]. exists r. split; [by apply list_lookup_insert_eq|done].
      * destruct (He l' j Hj) as (Hlt & r' & Hr' & Hsr'). split; [apply HO; by right|]. exists r'. split; [|done].
        rewrite list_lookup_insert_ne; [done|]. intros ->. by apply (Hne l' j).
    + intros j r' Hj Hj'. destruct (decide (j = i)) as [->|Hji]; [left; apply list_elem_of_here|].
      rewrite list_lookup_insert_ne in Hj by done. apply HO in Hj' as [->|Hj']; [done|].
      destruct (Hm j r' Hj Hj') as [Hin|]; [|by right]. left. by apply list_elem_of_further.
    + intros j r' Hj. destruct (decide (j = i)) as [->|Hji].
      * rewrite list_lookup_insert_eq in Hj by done. injection Hj as <-. apply StronglySorted_inv in Hsr as [? _]. done.
      * rewrite list_lookup_insert_ne in Hj by done. by apply (Hs j).
    + unfold pending. simpl. rewrite (concat_insert rs i l r Hr). by rewrite Permutation_middle.
    + by rewrite length_insert.
Qed.

Lemma heap_split heap l i : NoDup heap.*2 -> (l, i) ∈ heap -> heap ≡ₚ (l, i) :: heap_remove i heap.
Proof.
  unfold heap_remove. induction heap as [|[l' j] heap IH]; intros Hnd Hin; [by apply elem_of_nil in Hin|].
  simpl in Hnd. apply NoDup_cons in Hnd as [Hj Hnd]. rewrite filter_cons. simpl. apply elem_of_cons in Hin as [[= <- <-]|Hin].
  - rewrite decide_False by tauto. rewrite filter_all; [done|]. apply Forall_forall. intros [l' j'] Hx E. simpl in E. subst.
    apply Hj, list_elem_of_fmap. by exists (l', i).
  - assert (j <> i) as Hne by (intros ->; apply Hj, list_elem_of_fmap; by exists (l, i)).
    rewrite decide_True by done. rewrite (IH Hnd Hin) at 1. apply Permutation_swap.
Qed.

(** The popped line is the least of all that is left. *)
Lemma popped_least (O : nat -> Prop) rs heap l i : merging O rs heap -> (forall j, (j < length rs)%nat -> O j) ->
  min_by heap_cmp heap = Some (l, i) -> (l, i) ∈ heap /\ forall y, y ∈ pending rs heap -> line_le l y.
Proof.
  intros [Hnd He Hm Hs] HO Hmin. destruct (min_by_spec heap_cmp heap (l, i) Hmin) as (Hin & Hleast). split; [done|].
  assert (forall l' j, (l', j) ∈ heap -> line_le l l') as Hheap.
  { intros l' j Hj. specialize (Hleast (l', j) Hj). unfold line_le, not_gt in *. unfold heap_cmp, cmp_then, cmp_by in Hleast.
    simpl in Hleast. by destruct (line_cmp l l'). }
  intros y [([l' j] & -> & Hj)%list_elem_of_fmap|Hy]%elem_of_app; [by apply (Hheap _ j)|].
  apply list_elem_of_In, in_concat in Hy as (r & Hr%list_elem_of_In & Hy%list_elem_of_In).
  apply list_elem_of_lookup in Hr as [j Hj]. pose proof (lookup_lt_Some _ _ _ Hj) as Hlt.
  destruct (Hm j r Hj (HO j Hlt)) as [([l' j'] & -> & Hin')%list_elem_of_fmap| ->]; [|by apply elem_of_nil in Hy]. simpl in *.
  destruct (He l' j' Hin') as (_ & r' & Hr' & Hsr). rewrite Hj in Hr'. injection Hr' as <-.
  apply StronglySorted_inv in Hsr as [_ Hsr]. rewrite Forall_forall in Hsr.
  apply (cmp_trans l l' y); [by apply (Hheap l' j')|by apply Hsr].
Qed.

(** Without the popped entry its reader counts as closed. *)
Lemma merging_pop (O : nat -> Prop) rs heap i : merging O rs heap -> merging (fun j => O j /\ j <> i) rs (heap_remove i heap).
Proof.
  intros [Hnd He Hm Hs]. unfold heap_remove. split; [..|done].
  - eapply sublist_NoDup; [exact Hnd|]. apply fmap_sublist, sublist_filter.
  - intros l j [Hne Hj]%list_elem_of_filter. simpl in Hne. destruct (He l j Hj) as [? ?]. done.
  - intros j r Hj [HOj Hne]. destruct (Hm j r Hj HOj) as [([l j'] & -> & Hl)%list_elem_of_fmap|]; [left|by right].
    apply list_elem_of_fmap. exists (l, j'). split; [done|]. by apply list_elem_of_filter.
Qed.

Lemma merge_loop_sorts (O : nat -> Prop) fuel rs heap : merging O rs heap -> (forall j, (j < length rs)%nat <-> O j) ->
  (length (pending rs heap) <= fuel)%nat ->
  exists out, merge_loop fuel (file_of_lines <$> rs) heap = Some out /\ out ≡ₚ pending rs heap /\ StronglySorted line_le out.
Proof.
  revert O rs heap. induction fuel as [|fuel IH]; intros O rs heap Hm HO Hf.
  all: cbn [merge_loop]; destruct (min_by heap_cmp heap) as [[l i]|] eqn:Emin.
  2,4: exists []; destruct heap; [|done]; split; [done|]; split; [|constructor]; unfold pending; simpl; symmetry;
    enough (concat rs = []) as -> by done; apply concat_nil_Forall, Forall_lookup; intros j r Hj;
    destruct (mg_empty _ _ _ Hm j r Hj) as [Hin|]; [apply HO; by eapply lookup_lt_Some|by apply elem_of_nil in Hin|done].
  all: destruct (popped_least O rs heap l i Hm) as [Hin Hleast]; [by intros j; apply HO|done|].
  - assert (pending rs heap = []) as E by (apply length_zero_iff_nil; lia).
    unfold pending in E. destruct heap; [by apply elem_of_nil in Hin|done].
  - destruct (mg_entry _ _ _ Hm l i Hin) as (HOi & r & Hr & _).
    pose proof (heap_split heap l i (mg_indices _ _ _ Hm) Hin) as Hsplit.
    destruct (refill_merging (fun j => O j /\ j <> i) O rs (heap_remove i heap) i) as (rs' & heap' & -> & Hm' & Hp & Hlen).
    { by apply merging_pop. } { tauto. } { by apply HO. }
    { intros j. destruct (decide (j = i)) as [->|]; tauto. }
    assert (pending rs heap ≡ₚ l :: pending rs' heap') as Hpend by (rewrite Hp; unfold pending; exact (Permutation_app_tail _ (Permutation_map fst Hsplit))).
    destruct (IH O rs' heap') as (out & -> & Hpo & Hso); [done|by rewrite Hlen|by rewrite Hpend in Hf; simpl in Hf; lia|].
    exists (l :: out). split; [done|]. split; [by rewrite Hpo, Hpend|]. constructor; [done|].
    apply Forall_forall. intros y Hy. apply Hleast. rewrite Hpend. apply list_elem_of_further. by rewrite <- Hpo.
Qed.

Lemma open_readers rs n : (n <= length rs)%nat -> Forall run_ok rs ->
  exists rs' heap, foldl (fun st index => refill st.1 st.2 index) (file_of_lines <$> rs, []) (seq 0 n) = (file_of_lines <$> rs', heap)
    /\ merging (fun j => (j < n)%nat) rs' heap /\ pending rs' heap ≡ₚ concat rs /\ length rs' = length rs.
Proof.
  intros Hn Hok. induction n as [|n IH].
  - exists rs, []. split; [done|]. split; [|done]. split; [constructor|..].
    + by intros l i Hin%elem_of_nil.
    + intros; lia.
    + intros i r Hr. rewrite Forall_lookup in Hok. by apply (Hok i).
  - destruct IH as (rs1 & heap1 & E & Hm & Hp & Hlen); [lia|]. rewrite seq_S, foldl_app, E. cbn [foldl fst snd Nat.add].
    destruct (refill_merging (fun j => (j < n)%nat) (fun j => (j < S n)%nat) rs1 heap1 n Hm) as (rs2 & heap2 & -> & Hm2 & Hp2 & Hlen2);
      [lia|lia|lia|].
    exists rs2, heap2. split; [done|]. split; [done|]. split; [by rewrite Hp2|lia].
Qed.

Lemma strict_lines (l : list Line) : strict_on line_cmp l.
Proof.
  intros x y _ _ E. apply String.compare_eq_iff in E. rewrite <- (bytes_of_bytes x), <- (bytes_of_bytes y). by rewrite E.
Qed.

(** The heap merge of sorted runs is the sort of all their lines. *)
Lemma merge_is_sort rs : Forall run_ok rs ->
  merge_sorted_jsonl_runs (file_of_lines <$> rs) = Some (sort_by line_cmp (concat rs)).
Proof.
  intros Hok. unfold merge_sorted_jsonl_runs. rewrite length_fmap.
  destruct (open_readers rs (length rs)) as (rs' & heap & -> & Hm & Hp & Hlen); [lia|done|].
  destruct (merge_loop_sorts _ (S (length (concat (file_of_lines <$> rs)))) rs' heap Hm) as (out & -> & Hpo & Hso).
  { intros j. by rewrite Hlen. }
  { rewrite Hp, concat_files. pose proof (lines_le_bytes (concat rs)). lia. }
  f_equal. symmetry. apply sort_by_unique; [apply _|apply strict_lines|by rewrite Hpo, Hp|done].
Qed.
End Merge.

(** ** The run writer *)

Section Chunks.
Context {A B : Type}.
Implicit Types l : list A.

Lemma concat_chunks k l : (0 < k)%nat -> concat (chunks k l) = l.
Proof.
  intros Hk. unfold chunks. enough (forall n l, (length l <= n)%nat -> concat (chunks_of n k l) = l) as HH by by apply HH.
  clear l. induction n as [|n IH]; intros l Hn; [by destruct l; [|simpl in Hn; lia]|].
  destruct l as [|x l]; [done|]. cbn [chunks_of concat]. rewrite IH; [apply take_drop|]. rewrite length_drop. simpl in *. lia.
Qed.

Lemma chunks_shorter k l : (2 <= k)%nat -> (k < length l)%nat -> (length (chunks k l) < length l)%nat.
Proof.
  intros Hk. enough (forall n l, (2 * length (chunks_of n k l) <= length l + 1)%nat) as HH
    by (specialize (HH (length l) l); unfold chunks; lia).
  clear l. induction n as [|n IH]; intros l; [simpl; lia|]. destruct l as [|x l]; [simpl; lia|]. cbn [chunks_of length].
  specialize (IH (drop k (x :: l))). rewrite length_drop in IH. cbn [length] in IH.
  destruct (decide (length l <= 1)%nat); [|lia].
  replace (drop k (x :: l)) with (@nil A) by (symmetry; apply drop_ge; simpl; lia). destruct n; simpl; lia.
Qed.

Lemma chunks_of_step {C} n k (l : list C) : l <> [] -> chunks_of (S n) k l = take k l :: chunks_of n k (drop k l).
Proof. by destruct l. Qed.

Lemma chunks_fmap (f : A -> B) k l : chunks k (f <$> l) = (fmap f : list A -> list B) <$> chunks k l.
Proof.
  unfold chunks. rewrite length_fmap. generalize (length l) as n. intros n. revert l. induction n as [|n IH]; intros l; [done|].
  destruct (decide (l = [])) as [->|Hl]; [done|].
  rewrite !chunks_of_step by (done || by intros ?%fmap_nil_inv). rewrite fmap_cons, <- IH. by rewrite fmap_take, fmap_drop.
Qed.
End Chunks.

Definition line_bytes (ls : list Line) : Z := Z.of_nat (length (file_of_lines ls)).

Lemma line_bytes_app a b : line_bytes (a ++ b) = line_bytes a + line_bytes b.
Proof. unfold line_bytes. rewrite file_of_lines_app, length_app. lia. Qed.
Lemma line_bytes_one l : line_bytes [l] = Z.of_nat (length l) + 1.
Proof. unfold line_bytes, file_of_lines. cbn [flat_map]. rewrite app_nil_r, length_app. cbn [length]. lia. Qed.
Lemma line_bytes_cons l ls : line_bytes (l :: ls) = Z.of_nat (length l) + 1 + line_bytes ls.
Proof. change (l :: ls) with ([l] ++ ls). by rewrite line_bytes_app, line_bytes_one. Qed.
Lemma line_bytes_nonneg ls : 0 <= line_bytes ls.
Proof. unfold line_bytes. lia. Qed.
#[global] Instance line_bytes_perm : Proper ((≡ₚ) ==> (=)) line_bytes.
Proof.
  intros a b Hp. induction Hp as [|x a b _ IH|x y a|]; [done|rewrite !line_bytes_cons; lia..|congruence].
Qed.

Lemma sort_run_ok ls : Forall clean_line ls -> run_ok (sort_by line_cmp ls).
Proof. intros Hc. split; [apply sort_by_sorted', _|]. by rewrite sort_by_perm. Qed.

Lemma concat_sorted_groups (groups : list (list (list Line))) :
  concat ((fun g => sort_by line_cmp (concat g)) <$> groups) ≡ₚ concat (concat groups).
Proof. induction groups as [|g groups IH]; [done|]. cbn [fmap list_fmap concat]. rewrite concat_app, sort_by_perm. by apply Permutation_app. Qed.

(** No record is too large, and wherever the free space is asked for there is
    room for all lines and the reserve. *)
Definition fits (available : SpaceQuery -> Z) (ls : list Line) : Prop :=
  Forall (fun l => Z.of_nat (length l) + 1 <= ISSUE_PARTITION_MAX_UNCOMPRESSED_BYTES) ls
  /\ line_bytes ls + SCOPE_CLOSURE_TEMP_FREE_SPACE_RESERVE_BYTES <= U64_MAX
  /\ forall q, line_bytes ls + SCOPE_CLOSURE_TEMP_FREE_SPACE_RESERVE_BYTES <= available q.

Section RunWriterSpec.
Context (available : SpaceQuery -> Z) (all : list Line) (all_clean : Forall clean_line all).

Let Q : string -> Prop := fun _ => ~ fits available all.

Lemma capacity_outcome q planned : planned <= line_bytes all ->
  outcome (fun _ => True) Q (ensure_relation_temp_capacity (available q) planned).
Proof.
  intros Hp. unfold ensure_relation_temp_capacity. eapply outcome_bind.
  - apply outcome_ensure. intros E%Z.leb_gt (_ & Hmax & _). lia.
  - intros _ _ _. eapply outcome_mono; [apply outcome_ensure|done]. intros E%Z.leb_gt (_ & _ & Hq). specialize (Hq q). lia.
Qed.

(** The files of a run list hold these lines. *)
Definition runs_hold (runs : list (list ascii)) (ls : list Line) : Prop :=
  exists rs, runs = file_of_lines <$> rs /\ Forall run_ok rs /\ concat rs ≡ₚ ls.

Lemma merge_group_outcome pass index rs : Forall run_ok rs -> line_bytes (concat rs) <= line_bytes all ->
  outcome (fun f => f = file_of_lines (sort_by line_cmp (concat rs))) Q (merge_group available pass (index, file_of_lines <$> rs)).
Proof.
  intros Hok Hb. cbn [merge_group]. rewrite concat_files. eapply outcome_bind.
  - apply (capacity_outcome (BeforeMerge pass index)). change (Z.of_nat (length (file_of_lines (concat rs)))) with (line_bytes (concat rs)). lia.
  - intros _ _ _. by rewrite merge_is_sort.
Qed.

Lemma group_bytes (groups : list (list (list Line))) g : g ∈ groups -> line_bytes (concat g) <= line_bytes (concat (concat groups)).
Proof.
  intros Hg. induction groups as [|g' groups IH]; [by apply elem_of_nil in Hg|]. cbn [concat].
  rewrite concat_app, line_bytes_app. pose proof (line_bytes_nonneg (concat (concat groups))). pose proof (line_bytes_nonneg (concat g')).
  apply elem_of_cons in Hg as [->|Hg]; [lia|]. specialize (IH Hg). lia.
Qed.

Definition merged_group (g : list (list Line)) : list Line := sort_by line_cmp (concat g).

(** One pass over the groups. *)
Lemma pass_outcome pass n (groups : list (list (list Line))) :
  Forall (Forall run_ok) groups -> line_bytes (concat (concat groups)) <= line_bytes all ->
  outcome (fun fs : list (list ascii) => fs = file_of_lines <$> (merged_group <$> groups)) Q
    (mapR (merge_group available pass) (zip (seq n (length groups)) ((fmap file_of_lines : list (list Line) -> list (list ascii)) <$> groups))).
Proof.
  revert n. induction groups as [|g groups IH]; intros n Hok Hb; [done|]. inversion_clear Hok as [|? ? Hg Hok'].
  pose proof (group_bytes (g :: groups) g (list_elem_of_here _ _)) as Hgb.
  cbn [length seq fmap list_fmap zip zip_with mapR]. eapply outcome_bind; [apply (merge_group_outcome pass n g Hg); lia|].
  intros f _ ->. eapply outcome_bind; [apply (IH (S n) Hok')|].
  - cbn [concat] in Hb. rewrite concat_app, line_bytes_app in Hb. pose proof (line_bytes_nonneg (concat g)). lia.
  - by intros fs _ ->.
Qed.

Lemma merge_passes_outcome fan_in rs fuel pass : (2 <= fan_in)%nat -> Forall run_ok rs -> concat rs ≡ₚ all -> (length rs <= fuel)%nat ->
  outcome (fun runs => runs_hold runs all /\ (length runs <= fan_in)%nat) Q (merge_passes available fuel fan_in pass (file_of_lines <$> rs)).
Proof.
  intros Hfan. revert pass rs. induction fuel as [|fuel IH]; intros pass rs Hok Hp Hf.
  all: cbn [merge_passes]; rewrite length_fmap; destruct (Nat.leb_spec (length rs) fan_in) as [Hle|Hgt].
  1,3: simpl; rewrite length_fmap; split; [by exists rs|done].
  - exfalso. lia.
  - rewrite chunks_fmap, length_fmap.
    assert (concat (chunks fan_in rs) = rs) as Hcc by (apply concat_chunks; lia).
    assert (Forall (Forall run_ok) (chunks fan_in rs)) as Hok' by (apply Forall_concat; by rewrite Hcc).
    eapply outcome_bind; [apply (pass_outcome pass 0 (chunks fan_in rs) Hok'); rewrite Hcc, Hp; lia|].
    intros fs _ ->.
    apply IH.
    + apply Forall_fmap. eapply Forall_impl; [exact Hok'|]. intros g Hg. apply sort_run_ok, Forall_concat.
      eapply Forall_impl; [exact Hg|]. by intros r [_ ?].
    + rewrite <- Hp. rewrite <- Hcc at 2. apply concat_sorted_groups.
    + rewrite length_fmap. pose proof (chunks_shorter fan_in rs Hfan Hgt). lia.
Qed.

(** After the lines [ls] were appended. *)
Record writing (run_bytes : Z) (fan_in : nat) (ls : list Line) (w : SortedJsonlRunWriter) : Prop := {
  wr_limits : rw_run_bytes w = run_bytes /\ rw_fan_in w = fan_in;
  wr_lines : exists rs, rw_runs w = file_of_lines <$> rs /\ Forall run_ok rs /\ concat rs ++ rw_buffered w ≡ₚ ls;
  wr_buffered : rw_buffered_bytes w = line_bytes (rw_buffered w);
  wr_events : rw_events w = Z.of_nat (length ls);
  wr_size : rw_size w = line_bytes ls;
}.

Lemma line_bytes_le_buffered run_bytes fan_in ls w : writing run_bytes fan_in ls w -> rw_buffered_bytes w <= line_bytes ls.
Proof.
  intros [_ (rs & _ & _ & Hp) -> _ _]. rewrite <- Hp, line_bytes_app. pose proof (line_bytes_nonneg (concat rs)). lia.
Qed.

Lemma flush_run_outcome run_bytes fan_in ls w : writing run_bytes fan_in ls w -> Forall clean_line ls -> line_bytes ls <= line_bytes all ->
  outcome (fun w' => writing run_bytes fan_in ls w' /\ rw_buffered w' = []) Q (flush_run available w).
Proof.
  intros Hw Hc Hb. pose proof (line_bytes_le_buffered _ _ _ _ Hw) as Hle. unfold flush_run. destruct (rw_buffered w) as [|b bs] eqn:E; [done|].
  eapply outcome_bind; [apply capacity_outcome; lia|]. intros _ _ _. destruct Hw as [Hl (rs & Hrs & Hok & Hp) Hbb He Hs]. simpl. split; [|done].
  rewrite E in *. split; cbn; try done. exists (rs ++ [sort_by line_cmp (b :: bs)]). rewrite fmap_app, Hrs. split; [done|]. split.
  - apply Forall_app. split; [done|]. constructor; [|constructor]. apply sort_run_ok. rewrite <- Hp in Hc. by apply Forall_app in Hc as [_ ?].
  - rewrite concat_app, app_nil_r. cbn [concat]. rewrite app_nil_r, <- Hp. apply Permutation_app_head. apply sort_by_perm.
Qed.

Lemma run_append_outcome run_bytes fan_in pre l post w : all = pre ++ l :: post -> writing run_bytes fan_in pre w ->
  outcome (writing run_bytes fan_in (pre ++ [l])) Q (run_append available w l).
Proof using all_clean.
  intros Eall Hw. pose proof (line_bytes_le_buffered _ _ _ _ Hw) as Hle. destruct Hw as [Hl (rs & Hrs & Hok & Hp) Hbb He Hs].
  pose proof (line_bytes_nonneg post) as Hpost. pose proof (lines_le_bytes pre) as Hev. change (Z.of_nat (length (file_of_lines pre))) with (line_bytes pre) in *.
  assert (Z.of_nat (length pre) <= line_bytes pre) as Hev' by (unfold line_bytes; lia). clear Hev.
  assert (line_bytes all = line_bytes pre + (Z.of_nat (length l) + 1) + line_bytes post) as Hall.
  { rewrite Eall, line_bytes_app, line_bytes_cons. lia. }
  unfold run_append, SCOPE_CLOSURE_TEMP_FREE_SPACE_RESERVE_BYTES in *.
  assert (fits available all -> Z.of_nat (length l) + 1 <= ISSUE_PARTITION_MAX_UNCOMPRESSED_BYTES /\ line_bytes all < U64_MAX) as Hfit.
  { intros (Hl' & Hmax & _). unfold SCOPE_CLOSURE_TEMP_FREE_SPACE_RESERVE_BYTES in Hmax. split; [|lia]. rewrite Forall_forall in Hl'. apply Hl'.
    rewrite Eall. apply elem_of_app. right. apply list_elem_of_here. }
  unfold USIZE_MAX in *. pose proof (line_bytes_nonneg pre).
  do 5 (eapply outcome_bind; [apply outcome_ensure; intros E%Z.leb_gt [? ?]%Hfit; unfold U64_MAX in *; lia|]; intros _ _ _).
  cbn zeta. set (w' := mk_run_writer _ _ _ _ _ _ _).
  assert (writing run_bytes fan_in (pre ++ [l]) w') as Hw'.
  { split; cbn; [done|exists rs; split; [done|]; split; [done|by rewrite app_assoc, Hp]|rewrite line_bytes_app, line_bytes_one; lia| |].
    - rewrite length_app. simpl. lia.
    - rewrite line_bytes_app, line_bytes_one. lia. }
  destruct (rw_run_bytes w' <=? rw_buffered_bytes w'); [|done]. eapply outcome_mono; [apply (flush_run_outcome run_bytes fan_in); [done| |]|].
  - rewrite Eall in all_clean. apply Forall_app in all_clean as [? H2]. inversion_clear H2. apply Forall_app. split; [done|]. by constructor.
  - rewrite line_bytes_app, line_bytes_one. lia.
  - by intros ? _ [? _].
Qed.

Lemma external_sort_outcome run_bytes fan_in : (2 <= fan_in)%nat ->
  outcome (fun r => runs_hold (sr_runs r) all /\ (length (sr_runs r) <= fan_in)%nat /\ sr_events r = Z.of_nat (length all) /\ sr_size r = line_bytes all)
    Q (w ← foldM (run_append available) all (mk_run_writer run_bytes fan_in [] [] 0 0 0); run_finish available w).
Proof using all_clean.
  intros Hfan. eapply outcome_bind.
  { apply (outcome_foldM Q (writing run_bytes fan_in)).
    - split; try done. exists []. split; [done|]. split; [constructor|done].
    - intros pre l post w E Hw. by apply (run_append_outcome run_bytes fan_in pre l post). }
  intros w _ Hw. unfold run_finish. eapply outcome_bind; [apply (flush_run_outcome run_bytes fan_in all w Hw all_clean); lia|].
  intros w' _ [[[_ Hf] (rs & Hrs & Hok & Hp) _ He Hs] Hb]. rewrite Hb, app_nil_r in Hp. rewrite Hrs, length_fmap, Hf.
  eapply outcome_bind; [by apply (merge_passes_outcome fan_in rs)|]. by intros runs _ [? ?].
Qed.
End RunWriterSpec.

(** C12: the external sort of relation streams, for every run size and every
    merge fan-in of at least two (the program uses 32 MiB and 64): appending
    the lines, finishing and visiting hands out exactly the sorted lines - so
    splitting into runs, the number of merge passes and the heap have no
    influence on the result; at most [fan_in] runs are left and the counters
    are exact.  The computation always ends; it fails only when a line exceeds
    32 MiB, the sizes leave 64 bits, or free space runs out. *)
Theorem external_sort_exact available run_bytes fan_in lines : (2 <= fan_in)%nat -> Forall clean_line lines ->
  match w ← foldM (run_append available) lines (mk_run_writer run_bytes fan_in [] [] 0 0 0); run_finish available w with
  | Ok r => run_visit r = Some (sort_by line_cmp lines) /\ (length (sr_runs r) <= fan_in)%nat
            /\ sr_events r = Z.of_nat (length lines) /\ sr_size r = line_bytes lines
  | Err _ => ~ fits available lines
  | Panic => False
  end.
Proof.
  intros Hfan Hc. pose proof (external_sort_outcome available lines Hc run_bytes fan_in Hfan) as Ho.
  destruct (w ← _; _) as [r| |]; [|done..]. destruct Ho as [(rs & Hrs & Hok & Hp) ?]. split; [|done].
  unfold run_visit. rewrite Hrs, merge_is_sort by done. f_equal. apply sort_by_unique; [apply _|apply strict_lines| |apply sort_by_sorted', _].
  by rewrite sort_by_perm.
Qed.

(** Five lines, a run for every line, merged two by two. *)
Definition sample_lines : list Line := bytes <$> ["{c}"; "{a}"; "{e}"; "{b}"; "{d}"].
Lemma external_sort_exact_witness :
  exists r, (w ← foldM (run_append (fun _ => U64_MAX)) sample_lines (mk_run_writer 1 2 [] [] 0 0 0); run_finish (fun _ => U64_MAX) w) = Ok r
    /\ run_visit r = Some (bytes <$> ["{a}"; "{b}"; "{c}"; "{d}"; "{e}"]) /\ sr_size r = 20.
Proof.
  assert (Forall clean_line sample_lines) as Hc by (repeat constructor; compute_done).
  pose proof (external_sort_exact (fun _ => U64_MAX) 1 2 sample_lines ltac:(lia) Hc) as HT.
  destruct (w ← _; _) as [r| |] eqn:E in HT |- *; [|by vm_compute in E..].
  exists r. destruct HT as (Hv & _ & _ & Hs). split; [done|]. split; [rewrite Hv; by vm_compute|rewrite Hs; by vm_compute].
Defined.

(** ** Sorting a spool *)

Section SpoolSortSpec.
Context (available : SpaceQuery -> Z) (canonical : Line -> result string Line) (run_bytes : Z).

(** A line of canonical JSON, not blank. *)
Definition event_line (l : Line) : Prop :=
  clean_line l /\ forallb is_ascii_whitespace l = false /\ canonical l = Ok l.

Lemma spool_visit_lines ls : Forall event_line ls -> forall fuel, (length ls <= fuel)%nat -> visit_jsonl fuel (file_of_lines ls) = ls.
Proof.
  induction 1 as [|l ls (Hc & Hb & _) _ IH]; intros fuel Hf; [by destruct fuel|]. destruct fuel as [|fuel]; [simpl in Hf; lia|].
  cbn [visit_jsonl]. rewrite (read_line_back l ls Hc), Hb. f_equal. apply IH. simpl in Hf. lia.
Qed.

Lemma sort_push_all ls : Forall event_line ls ->
  exists st rs, foldM (sort_push canonical run_bytes) ls (mk_sort_buffer [] [] 0) = Ok st
    /\ sb_runs st = file_of_lines <$> rs /\ Forall run_ok rs /\ concat rs ++ sb_buffered st ≡ₚ ls.
Proof.
  intros Hls. destruct (foldM_total_ind (fun pre st => exists rs, sb_runs st = file_of_lines <$> rs /\ Forall run_ok rs
      /\ concat rs ++ sb_buffered st ≡ₚ pre) (sort_push canonical run_bytes) ls (mk_sort_buffer [] [] 0)) as (st & Hst & rs & Hrs).
  - exists []. split; [done|]. split; [constructor|done].
  - intros pre l post st -> (rs & Hr & Hok & Hp). apply Forall_app in Hls as [Hpre Hl]. inversion_clear Hl as [|? ? (Hc & _ & Hcan) _].
    unfold sort_push. rewrite Hcan. cbn [mbind result_bind]. eexists. split; [reflexivity|]. destruct (_ <=? _); cbn.
    + exists (rs ++ [sort_by line_cmp (sb_buffered st ++ [l])]). rewrite fmap_app, Hr. split; [done|]. split.
      * apply Forall_app. split; [done|]. constructor; [|constructor]. apply sort_run_ok. rewrite <- Hp in Hpre.
        apply Forall_app in Hpre as [_ Hbuf]. apply Forall_app. split; [|by constructor].
        eapply Forall_impl; [exact Hbuf|]. by intros ? [? _].
      * rewrite concat_app, app_nil_r. cbn [concat]. by rewrite app_nil_r, <- Hp, sort_by_perm, app_assoc.
    + exists rs. split; [done|]. split; [done|]. by rewrite app_assoc, Hp.
  - by exists st, rs.
Qed.

(** The errors of a sort: the free space and the limits of a spool. *)
Definition spool_errors : list string :=
  ["validation issue spool byte count overflow"; "validation issue spool event count overflow";
   "validation issue spool exceeded bounded capacity"].
Definition sort_errors : list string :=
  "scope closure temporary-space requirement overflow" :: "scope_closure_temp_space_low" :: spool_errors.

Lemma append_all ls :
  outcome (fun w => w = mk_spool_writer (file_of_lines ls) (Z.of_nat (length ls)) (line_bytes ls) true)
    (fun e => e ∈ spool_errors /\ (VALIDATION_ISSUE_SPOOL_MAX_BYTES < line_bytes ls \/ VALIDATION_ISSUE_SPOOL_MAX_EVENTS < Z.of_nat (length ls)))
    (foldM append_canonical_bytes ls spool_writer_new).
Proof.
  apply (outcome_foldM _ (fun pre w => w = mk_spool_writer (file_of_lines pre) (Z.of_nat (length pre)) (line_bytes pre) true)); [done|].
  intros pre l post w -> ->. unfold append_canonical_bytes, record_append. cbn [sw_size sw_events sw_limits sw_file andb].
  assert (line_bytes (pre ++ l :: post) = line_bytes pre + (Z.of_nat (length l) + 1) + line_bytes post) as -> by
    (rewrite line_bytes_app, line_bytes_cons; lia).
  rewrite !length_app, Nat2Z.inj_add. cbn [length].
  pose proof (line_bytes_nonneg post). pose proof (line_bytes_nonneg pre). pose proof (lines_le_bytes pre) as Hev.
  assert (Z.of_nat (length pre) <= line_bytes pre) by (unfold line_bytes; lia).
  unfold VALIDATION_ISSUE_SPOOL_MAX_BYTES, VALIDATION_ISSUE_SPOOL_MAX_EVENTS, U64_MAX in *.
  eapply outcome_bind; [apply outcome_ensure; intros E%Z.leb_gt; split; [compute_done|lia]|]. intros _ _ _. cbn zeta.
  eapply outcome_bind; [apply outcome_ensure; intros E%Z.leb_gt; split; [compute_done|lia]|]. intros _ _ _.
  eapply outcome_bind; [apply outcome_ensure; intros [E%Z.ltb_lt|E%Z.ltb_lt]%negb_false_iff%orb_true_iff; (split; [compute_done|lia])|]. intros _ _ _.
  cbn [outcome]. rewrite line_bytes_app, line_bytes_one, file_of_lines_app. unfold file_of_lines at 3. cbn [flat_map].
  rewrite app_nil_r. rewrite !Nat2Z.inj_add. reflexivity.
Qed.

(** Sorting a spool: the output holds the sorted lines, with the same
    counters; the check of the event count never fails. *)
Lemma sort_jsonl_spool_exact ls : Forall event_line ls -> run_bytes <> 0 ->
  outcome (fun out => out = mk_spool (file_of_lines (sort_by line_cmp ls)) (Z.of_nat (length ls)) (line_bytes ls))
    (fun e => e ∈ sort_errors /\ (available BeforeSort < saturating_mul (line_bytes ls) 2 + SCOPE_CLOSURE_TEMP_FREE_SPACE_RESERVE_BYTES
              \/ U64_MAX < saturating_mul (line_bytes ls) 2 + SCOPE_CLOSURE_TEMP_FREE_SPACE_RESERVE_BYTES
              \/ VALIDATION_ISSUE_SPOOL_MAX_BYTES < line_bytes ls \/ VALIDATION_ISSUE_SPOOL_MAX_EVENTS < Z.of_nat (length ls)))
    (sort_jsonl_spool_with_run_bytes available canonical run_bytes (mk_spool (file_of_lines ls) (Z.of_nat (length ls)) (line_bytes ls))).
Proof.
  intros Hls Hrun. unfold sort_jsonl_spool_with_run_bytes, spool_visit. cbn [sp_file sp_size sp_events].
  rewrite (spool_visit_lines ls Hls _ (lines_le_bytes ls)).
  eapply outcome_bind; [apply outcome_ensure; by intros E%negb_false_iff%Z.eqb_eq|]. intros _ _ _. unfold ensure_temp_free_space.
  eapply (outcome_bind _ (fun _ => True)).
  { eapply outcome_bind; [apply outcome_ensure; intros E%Z.leb_gt; split; [compute_done|tauto]|]. intros _ _ _.
    eapply outcome_mono; [apply outcome_ensure; intros E%negb_false_iff%Z.ltb_lt; split; [compute_done|tauto]|done]. }
  intros _ _ _. destruct (sort_push_all ls Hls) as (st & rs & -> & Hr & Hok & Hp). cbn [mbind result_bind].
  assert (Forall clean_line ls) as Hc by (eapply Forall_impl; [exact Hls|]; by intros ? [? _]).
  set (runs := match sb_buffered st with [] => _ | _ => _ end).
  assert (merge_sorted_jsonl_runs runs = Some (sort_by line_cmp ls)) as ->.
  { assert (runs_hold runs ls) as (rs' & -> & Hok' & Hp').
    { unfold runs. destruct (sb_buffered st) as [|b bs] eqn:Eb; [exists rs; by rewrite app_nil_r in Hp|].
      exists (rs ++ [sort_by line_cmp (b :: bs)]). rewrite fmap_app, Hr. split; [done|]. split.
      - apply Forall_app. split; [done|]. constructor; [|constructor]. apply sort_run_ok. rewrite <- Hp in Hc. by apply Forall_app in Hc as [_ ?].
      - rewrite concat_app. cbn [concat]. by rewrite app_nil_r, <- Hp, sort_by_perm. }
    rewrite merge_is_sort by done. f_equal. apply sort_by_unique; [apply _|apply strict_lines| |apply sort_by_sorted', _]. by rewrite sort_by_perm. }
  cbn [mbind result_bind]. eapply outcome_bind; [eapply outcome_err_mono; [|apply append_all]; intros e [He Hl]; rewrite !sort_by_perm in Hl; (split; [unfold sort_errors; rewrite !elem_of_cons; tauto|tauto])|].
  intros w _ ->. cbn [sw_events]. rewrite length_sort_by, Z.eqb_refl. cbn.
  unfold spool_finish. cbn [sw_file sw_events sw_size].
  by rewrite (line_bytes_perm _ _ (sort_by_perm line_cmp ls)).
Qed.
End SpoolSortSpec.

(** ** The initial admission *)

(** Up to [2^50] raw bytes nothing saturates, and the admission covers the raw
    stream, three relation copies of five times its size and two occurrence
    copies, with a quarter on top. *)
Lemma admission_covers events size : 0 <= events <= size -> size <= 2 ^ 50 -> 0 < events ->
  18 * size * 5 / 4 <= relation_temp_admission_bytes events size.
Proof.
  intros He Hs Hpos. unfold relation_temp_admission_bytes. rewrite (proj2 (Z.leb_le _ _)) by (unfold saturating_sub, U64_MAX; lia).
  replace (Z.max events 1) with events by lia. set (avg := (size + saturating_sub events 1) / events).
  assert (size <= avg * events <= 2 * size) as Havg.
  { unfold avg, saturating_sub. rewrite Z.max_l by lia. pose proof (Z.div_mod (size + (events - 1)) events ltac:(lia)).
    pose proof (Z.mod_pos_bound (size + (events - 1)) events Hpos). nia. }
  unfold saturating_mul, saturating_add, USIZE_MAX, U64_MAX, ISSUE_PARTITION_MAX_UNCOMPRESSED_BYTES, RELATION_TEMP_ACTIVE_WINDOW_COUNT,
    RELATION_TEMP_ADMISSION_SAFETY_PERCENT.
  rewrite (Z.min_l (avg * events)) by lia. repeat (rewrite Z.min_l by lia).
  apply Z.div_le_lower_bound; [lia|]. pose proof (Z.div_mod (18 * size * 5) 4 ltac:(lia)). pose proof (Z.mod_pos_bound (18 * size * 5) 4 ltac:(lia)). lia.
Qed.
