(* ===== verification/SnapshotProvider.v ===== *)
(** * The frozen snapshot and its provider

    The data snapshot a closure check is bound to (scope_closure.rs): its
    manifest and the validation of the worker input, the boundary the snapshot
    puts around the live tables, the resolution of omitted versions, the
    database-backed provider built from them, and the spool of the fetched
    documents. *)

From S2P Require Import Prelude Text Json DataBuilder Identity References RefGraph BinarySearch Issues.

Local Open Scope string_scope.
Local Open Scope Z_scope.
Local Open Scope list_scope.

(** ** Data *)

Record CurrentPublicRelease := mk_release {
  publication_id : Uuid;
  release_run_id : Uuid;
  release_version : string;
  published_at : string;
  release_manifest_hash : string;
}.
Record SnapshotDatasetEntry := mk_entry {
  dataset_type : DatasetCategory;
  dataset_id : Uuid;
  dataset_version : string;
  role : string;
  source_process_id : option Uuid;
  source_process_version : option string;
  version_significant_hash : string;
  semantic_hash : string;
  canonical_content_hash : string;
}.
Record DataSnapshotManifest := mk_snapshot {
  sn_schema_version : string;
  sn_requested_scope : RequestedScopeManifest;
  current_public_release : CurrentPublicRelease;
  datasets : list SnapshotDatasetEntry;
}.
Record ScopeClosureWorkerInput := mk_input {
  closure_check_id : Uuid;
  scan_execution_id : Uuid;
  numerical_snapshot_id : Uuid;
  requested_scope : RequestedScopeManifest;
  requested_scope_hash : string;
  policy_fingerprint : string;
  data_snapshot_token : string;
  data_snapshot_manifest : Value;
  data_snapshot_manifest_hash : string;
  publication_epoch : Z;
  expected_validator_scanner_fingerprint : string;
  request_fingerprint : string;
  calculation_fingerprint : option string;
}.
Record ClosureDocument := mk_document { doc_identity : ExactDatasetIdentity; doc_payload : Value }.
Record ProviderFetchResult := mk_fetch {
  pf_documents : list ClosureDocument;
  pf_issues : list ClosureIssue;
  pf_incomplete : gset ExactDatasetIdentity;
}.
Record OmittedVersionResolution := mk_resolution {
  selected : option ExactDatasetIdentity;
  candidates : list ExactDatasetIdentity;
  resolution_policy : string;
}.

Definition entry_identity (e : SnapshotDatasetEntry) : ExactDatasetIdentity :=
  mk_identity (dataset_type e) (dataset_id e) (dataset_version e).

(** [collect::<BTreeMap<_, _>>()]: the last entry of a key stays. *)
Definition last_by_key {A} (key : A -> ExactDatasetIdentity) (l : list A) : gmap ExactDatasetIdentity A :=
  foldl (fun m a => <[key a := a]> m) ∅ l.
Definition snapshot_dataset_universe (s : DataSnapshotManifest) : gmap ExactDatasetIdentity SnapshotDatasetEntry :=
  last_by_key entry_identity (datasets s).

(** ** Validation of the worker input *)

Definition TIDAS_ALLOCATION_SEMANTICS_VERSION : string := "tidas-reference-allocation-v5".
Definition is_blank (s : string) : bool := bool_decide (trim s = "").
Definition ensure_current (fingerprint : string) (recorded : option string) : result string unit :=
  ensure (bool_decide (recorded = Some fingerprint))
    "calculation_contract_mismatch: rebuild with the requested calculation implementation".

Definition hash_valid (hash : string) : bool := (length (bytes hash) =? 64)%nat && forallb is_ascii_hexdigit (bytes hash).
Definition check_hash (named : string * string) : result string unit :=
  ensure (hash_valid named.2) ("immutable data snapshot dataset has invalid " +:+ named.1).
Definition check_not_blank (named : string * string) : result string unit :=
  ensure (negb (is_blank named.2)) ("closure worker input requires " +:+ named.1).
Definition forR {A} (f : A -> result string unit) (l : list A) : result string unit := foldM (fun _ a => f a) l tt.

(** One dataset of the manifest; the set holds the identities seen. *)
Definition check_entry (seen : gset ExactDatasetIdentity) (e : SnapshotDatasetEntry) : result string (gset ExactDatasetIdentity) :=
  _ ← validate_version (dataset_version e);
  _ ← ensure (negb (bool_decide (entry_identity e ∈ seen)))
        "immutable data snapshot contains a duplicate exact dataset identity";
  _ ← forR check_hash [("versionSignificantHash", version_significant_hash e); ("semanticHash", semantic_hash e);
                       ("canonicalContentHash", canonical_content_hash e)];
  Ok ({[entry_identity e]} ∪ seen).

Section Validate.
Context `{ClosureLib}.
(** [serde_json::from_value] of the manifest, and the fingerprint of this
    implementation. *)
Context (parse_data_snapshot_manifest : Value -> result string DataSnapshotManifest) (fingerprint : string).

Definition check_root (universe : gmap ExactDatasetIdentity SnapshotDatasetEntry) (root : ExactDatasetIdentity) : result string unit :=
  match universe !! root with
  | Some entry =>
      ensure (negb (bool_decide (ei_category root = Processes) && negb (bool_decide (role entry = "unit_process"))))
        ("requested process root is not a unit_process in the frozen public release: " +:+ document_key root)
  | None => Ok tt
  end.

Definition validate_worker_input (input : ScopeClosureWorkerInput) : result string unit :=
  let scope := requested_scope input in
  _ ← match calculation_fingerprint input with Some f => ensure_current fingerprint (Some f) | None => Ok tt end;
  snapshot ← parse_data_snapshot_manifest (data_snapshot_manifest input);
  _ ← ensure (bool_decide (allocation_semantics_version (link_policy scope) = TIDAS_ALLOCATION_SEMANTICS_VERSION)
              && bool_decide (allocation_semantics_version (link_policy (sn_requested_scope snapshot)) = TIDAS_ALLOCATION_SEMANTICS_VERSION))
        ("scope closure requires allocationSemanticsVersion=" +:+ TIDAS_ALLOCATION_SEMANTICS_VERSION);
  _ ← ensure (negb (bool_decide (manifest_roots scope = []))) "requested closure scope has no exact roots";
  _ ← ensure (bool_decide (version_resolution_policy scope = "reference-version-resolution-v1"))
        "scope closure requires versionResolutionPolicy=reference-version-resolution-v1";
  _ ← ensure_certificate_scope_closure_boundary_policy (technosphere_boundary_policy (link_policy scope));
  _ ← ensure (one_of ["scope_only"; "eligible_transitive_expansion-v1"] (provider_universe_policy (link_policy scope)))
        ("unsupported provider universe policy: " +:+ provider_universe_policy (link_policy scope));
  _ ← ensure (one_of ["reject"; "latest_eligible"] (legacy_omitted_version_policy scope))
        ("unsupported legacy omitted-version policy: " +:+ legacy_omitted_version_policy scope);
  _ ← forR (fun root => validate_version (ei_version root)) (manifest_roots scope);
  _ ← forR check_not_blank
        [("requestedScopeHash", requested_scope_hash input); ("policyFingerprint", policy_fingerprint input);
         ("dataSnapshotToken", data_snapshot_token input);
         ("expectedValidatorScannerFingerprint", expected_validator_scanner_fingerprint input);
         ("requestFingerprint", request_fingerprint input)];
  _ ← ensure (bool_decide (sn_schema_version snapshot = "lcia.scope-closure-data-snapshot.v2"))
        ("unsupported immutable data snapshot schema: " +:+ sn_schema_version snapshot);
  _ ← ensure (bool_decide (sn_requested_scope snapshot = scope))
        "immutable data snapshot manifest differs from requested scope";
  _ ← ensure (negb (is_blank (data_snapshot_manifest_hash input) || (publication_epoch input <? 0)))
        "invalid immutable data snapshot metadata";
  _ ← ensure (contains_key "requestedScope" (data_snapshot_manifest input)) "immutable data snapshot omits requestedScope";
  _ ← ensure (negb (is_blank (release_manifest_hash (current_public_release snapshot))))
        "immutable data snapshot omits the public release manifest hash";
  _ ← foldM check_entry (datasets snapshot) ∅;
  forR (check_root (snapshot_dataset_universe snapshot)) (manifest_roots scope).
End Validate.

(** ** The boundary of the snapshot *)

Section Boundary.
Context `{ClosureLib}.

Definition with_incomplete (issue : ClosureIssue) (identity : ExactDatasetIdentity) (r : ProviderFetchResult) : ProviderFetchResult :=
  mk_fetch (pf_documents r) (pf_issues r ++ [issue]) ({[identity]} ∪ pf_incomplete r).

Definition enforce_identity (universe : gmap ExactDatasetIdentity SnapshotDatasetEntry)
    (live_by_identity : gmap ExactDatasetIdentity ClosureDocument) (r : ProviderFetchResult) (identity : ExactDatasetIdentity)
    : ProviderFetchResult :=
  match universe !! identity with
  | None =>
      match live_by_identity !! identity with
      | Some _ =>
          with_incomplete (provider_boundary_issue "snapshot_dataset_not_allowed" identity
            "A live exact dataset exists but is absent from the frozen public-release manifest."
            (json_object [("snapshotAllowed", JBool false); ("liveOnly", JBool true)])) identity r
      | None => r
      end
  | Some entry =>
      match live_by_identity !! identity with
      | None =>
          with_incomplete (provider_boundary_issue "snapshot_dataset_unavailable" identity
            "The frozen public-release dataset is no longer readable from the source table."
            (json_object [("expectedCanonicalContentHash", JString (canonical_content_hash entry))])) identity r
      | Some document =>
          let actual_hash := canonical_json_sha256 (doc_payload document) in
          if decide (actual_hash = canonical_content_hash entry)
          then mk_fetch (pf_documents r ++ [document]) (pf_issues r) (pf_incomplete r)
          else with_incomplete (provider_boundary_issue "snapshot_source_drift" identity
                 "Live content no longer matches the canonical hash frozen in the public-release manifest."
                 (json_object [("expectedCanonicalContentHash", JString (canonical_content_hash entry));
                               ("actualCanonicalContentHash", JString actual_hash)])) identity r
      end
  end.
Definition enforce_snapshot_boundary (identities : list ExactDatasetIdentity)
    (universe : gmap ExactDatasetIdentity SnapshotDatasetEntry) (live_documents : list ClosureDocument) : ProviderFetchResult :=
  foldl (enforce_identity universe (last_by_key doc_identity live_documents)) (mk_fetch [] [] ∅) identities.

Definition resolve_snapshot_omitted_version (universe : gmap ExactDatasetIdentity SnapshotDatasetEntry)
    (category : DatasetCategory) (id : Uuid) (policy : string) : result string OmittedVersionResolution :=
  if decide (policy = "reject") then Ok (mk_resolution None [] policy)
  else if decide (policy = "latest_eligible") then
    let found := sort_by (cmp_by ei_version String.compare)
                   (filter (fun i => ei_category i = category /\ ei_id i = id) (ascending (dom universe))) in
    Ok (mk_resolution (last found) found policy)
  else Err ("unsupported legacy omitted-version policy: " +:+ policy).
End Boundary.

(** ** The provider interface *)

Class ScopeClosureProvider := {
  checkpoint : nat -> nat -> result string unit;
  fetch_exact : list ExactDatasetIdentity -> result string ProviderFetchResult;
  resolve_omitted_version : DatasetCategory -> Uuid -> string -> result string OmittedVersionResolution;
}.

(** The provider over the database: [heartbeat] extends the lease of the job,
    [fetch_exact_documents] reads the live tables. *)
Definition PgScopeClosureProvider `{ClosureLib} (heartbeat : nat -> nat -> result string unit)
    (fetch_exact_documents : list ExactDatasetIdentity -> result string (list ClosureDocument))
    (snapshot_universe : gmap ExactDatasetIdentity SnapshotDatasetEntry) : ScopeClosureProvider := {|
  checkpoint := heartbeat;
  fetch_exact identities :=
    live_documents ← fetch_exact_documents identities;
    Ok (enforce_snapshot_boundary identities snapshot_universe live_documents);
  resolve_omitted_version := resolve_snapshot_omitted_version snapshot_universe;
|}.

(** ** The document spool *)

Record ClosureDocumentRecord := mk_record {
  rec_identity : ExactDatasetIdentity;
  rec_content_hash : string;
  rec_offset : Z;
  rec_byte_size : Z;
}.
Record ClosureDocumentSpoolWriter := mk_documents {
  dw_file : list ascii;
  dw_records : gmap ExactDatasetIdentity ClosureDocumentRecord;
  dw_byte_size : Z;
}.
Record ClosureDocumentSpool := mk_document_spool {
  ds_file : list ascii;
  ds_records : list ClosureDocumentRecord;
  ds_byte_size : Z;
}.

Section DocumentSpool.
Context `{ClosureLib}.

Definition document_json (d : ClosureDocument) : Value :=
  json_object [("identity", identity_json (doc_identity d)); ("payload", doc_payload d)].
Definition documents_new : ClosureDocumentSpoolWriter := mk_documents [] ∅ 0.
Definition documents_append (w : ClosureDocumentSpoolWriter) (d : ClosureDocument) : result string ClosureDocumentSpoolWriter :=
  let bytes := write_canonical_json (document_json d) in
  let byte_size := Z.of_nat (length bytes) in
  let record := mk_record (doc_identity d) (canonical_json_sha256 (doc_payload d)) (dw_byte_size w) byte_size in
  _ ← ensure (negb (bool_decide (is_Some (dw_records w !! doc_identity d))))
        ("scope closure document spool received duplicate identity " +:+ document_key (doc_identity d));
  _ ← ensure (dw_byte_size w + byte_size <=? U64_MAX) "scope closure document spool byte count overflow";
  Ok (mk_documents (dw_file w ++ bytes) (<[doc_identity d := record]> (dw_records w)) (dw_byte_size w + byte_size)).

(** [into_values]: in the order of the identities. *)
Definition record_cmp : ExactDatasetIdentity * ClosureDocumentRecord -> ExactDatasetIdentity * ClosureDocumentRecord -> comparison :=
  cmp_by fst identity_cmp.
Definition documents_finish (w : ClosureDocumentSpoolWriter) : ClosureDocumentSpool :=
  mk_document_spool (dw_file w) (snd <$> sort_by record_cmp (map_to_list (dw_records w))) (dw_byte_size w).

(** [seek] and [read_exact] of one record. *)
Definition read_record (file : list ascii) (r : ClosureDocumentRecord) : result string (list ascii) :=
  let bytes := take (Z.to_nat (rec_byte_size r)) (drop (Z.to_nat (rec_offset r)) file) in
  _ ← ensure (Z.of_nat (length bytes) =? rec_byte_size r) "failed to fill whole buffer";
  Ok bytes.
Definition documents_visit (s : ClosureDocumentSpool) : result string (list (ExactDatasetIdentity * list ascii)) :=
  mapR (fun r => bytes ← read_record (ds_file s) r; Ok (rec_identity r, bytes)) (ds_records s).
End DocumentSpool.

(** ** Maps collected from lists *)

Lemma last_by_key_spec {A} (key : A -> ExactDatasetIdentity) l k :
  last_by_key key l !! k = last (filter (fun a => key a = k) l).
Proof.
  unfold last_by_key. induction l as [|a l IH] using rev_ind; [done|].
  rewrite foldl_app, filter_app. cbn [foldl]. rewrite filter_cons, filter_nil. case_decide as Ha.
  - subst k. by rewrite lookup_insert_eq, last_snoc.
  - by rewrite lookup_insert_ne, app_nil_r, IH.
Qed.

Lemma last_by_key_key {A} (key : A -> ExactDatasetIdentity) l k a : last_by_key key l !! k = Some a -> key a = k /\ a ∈ l.
Proof.
  rewrite last_by_key_spec. intros Hl%last_Some_elem_of. by apply list_elem_of_filter in Hl.
Qed.

Lemma distinct_key {A} (key : A -> ExactDatasetIdentity) l a b : NoDup (key <$> l) -> a ∈ l -> b ∈ l -> key a = key b -> a = b.
Proof.
  intros Hnd [i Hi]%list_elem_of_lookup [j Hj]%list_elem_of_lookup E.
  assert (i = j) as -> by (eapply (NoDup_lookup (key <$> l)); [done|rewrite list_lookup_fmap, Hi; done|rewrite list_lookup_fmap, Hj; simpl; congruence]).
  congruence.
Qed.

(** With distinct keys every element is found. *)
Lemma last_by_key_unique {A} (key : A -> ExactDatasetIdentity) l a : NoDup (key <$> l) -> a ∈ l -> last_by_key key l !! key a = Some a.
Proof.
  intros Hnd Ha. destruct (last_by_key key l !! key a) as [b|] eqn:E.
  - apply last_by_key_key in E as [Hk Hb]. f_equal. by eapply (distinct_key key l).
  - rewrite last_by_key_spec in E. apply last_None in E. assert (a ∈ filter (fun b => key b = key a) l) as Hin by by apply list_elem_of_filter.
    rewrite E in Hin. by apply elem_of_nil in Hin.
Qed.

(** ** What a valid worker input has *)

Lemma forR_ok {A} (f : A -> result string unit) l : forR f l = Ok tt <-> Forall (fun a => f a = Ok tt) l.
Proof.
  unfold forR. induction l as [|a l IH]; [done|]. cbn [foldM]. rewrite Forall_cons, <- IH. destruct (f a) as [[]| |]; naive_solver.
Qed.

Lemma check_entries_ok entries seen out : foldM check_entry entries seen = Ok out ->
  NoDup (entry_identity <$> entries) /\ (forall e, e ∈ entries -> entry_identity e ∉ seen)
  /\ Forall (fun e => version_valid (dataset_version e) = true /\ hash_valid (canonical_content_hash e) = true) entries.
Proof.
  revert seen. induction entries as [|e entries IH]; intros seen; cbn [foldM]; [intros _; split; [constructor|]; split; [by intros ? ?%elem_of_nil|constructor]|].
  intros Hf. destruct (check_entry seen e) as [seen'| |] eqn:E; [|done..]. apply IH in Hf as (Hnd & Hout & Hv).
  unfold check_entry in E. apply bind_ok in E as ([] & Hver & E). apply bind_ok in E as ([] & Hseen%ensure_ok & E).
  apply bind_ok in E as ([] & Hh%forR_ok & [= <-]). apply negb_true_iff, bool_decide_eq_false in Hseen.
  split; [|split].
  - cbn [fmap list_fmap]. constructor; [|done]. intros (e' & He' & Hin)%list_elem_of_fmap. apply (Hout e' Hin). rewrite <- He'. set_solver.
  - intros e' [->|Hin]%elem_of_cons; [done|]. specialize (Hout e' Hin). set_solver.
  - constructor; [|done]. split.
    + unfold validate_version in Hver. by destruct (version_valid _).
    + apply Forall_cons in Hh as [_ Hh]. apply Forall_cons in Hh as [_ Hh]. apply Forall_cons in Hh as [Hh _]. by apply ensure_ok in Hh.
Qed.

(** C36: what the scan may rely on after the worker input was admitted: the
    snapshot repeats the requested scope; there is a root, and every root has
    a well-formed exact version; the boundary policy is the cutoff; the
    policies are the ones the scan handles; every dataset of the snapshot is
    found under its own identity with a well-formed version and content hash;
    and no process root is frozen as anything but a unit process. *)
Theorem validated_worker_input `{ClosureLib} parse fingerprint input :
  validate_worker_input parse fingerprint input = Ok tt ->
  exists snapshot, parse (data_snapshot_manifest input) = Ok snapshot
    /\ sn_requested_scope snapshot = requested_scope input
    /\ manifest_roots (requested_scope input) <> []
    /\ (forall r, r ∈ manifest_roots (requested_scope input) -> version_valid (ei_version r) = true)
    /\ technosphere_boundary_policy (link_policy (requested_scope input)) = "cutoff"
    /\ (provider_universe_policy (link_policy (requested_scope input)) ∈ ["scope_only"; "eligible_transitive_expansion-v1"])
    /\ (legacy_omitted_version_policy (requested_scope input) ∈ ["reject"; "latest_eligible"])
    /\ (forall e, e ∈ datasets snapshot -> snapshot_dataset_universe snapshot !! entry_identity e = Some e
          /\ version_valid (dataset_version e) = true /\ hash_valid (canonical_content_hash e) = true)
    /\ (forall r e, r ∈ manifest_roots (requested_scope input) -> ei_category r = Processes ->
          snapshot_dataset_universe snapshot !! r = Some e -> role e = "unit_process").
Proof.
  unfold validate_worker_input. intros (? & _ & H1)%bind_ok. apply bind_ok in H1 as (snapshot & Hp & H1). exists snapshot. split; [done|].
  apply bind_ok in H1 as ([] & _ & H1). apply bind_ok in H1 as ([] & Hne%ensure_ok & H1). apply bind_ok in H1 as ([] & _ & H1).
  apply bind_ok in H1 as ([] & Hb & H1). apply bind_ok in H1 as ([] & Hpu%ensure_ok & H1). apply bind_ok in H1 as ([] & Hom%ensure_ok & H1).
  apply bind_ok in H1 as ([] & Hv%forR_ok & H1). apply bind_ok in H1 as ([] & _ & H1). apply bind_ok in H1 as ([] & _ & H1).
  apply bind_ok in H1 as ([] & Hsc%ensure_ok & H1). do 3 apply bind_ok in H1 as ([] & _ & H1).
  apply bind_ok in H1 as (? & (Hnd & _ & Hent)%check_entries_ok & Hroots%forR_ok).
  apply bool_decide_eq_true in Hsc, Hpu, Hom. apply negb_true_iff, bool_decide_eq_false in Hne.
  rewrite Forall_forall in Hv. rewrite Forall_forall in Hent. rewrite Forall_forall in Hroots.
  split; [done|]. split; [done|]. split; [|split; [|split; [done|split; [done|split]]]].
  - intros r Hr. specialize (Hv r Hr). unfold validate_version in Hv. by destruct (version_valid _).
  - unfold ensure_certificate_scope_closure_boundary_policy in Hb. by case_decide.
  - intros e He. split; [by apply last_by_key_unique|]. by apply Hent.
  - intros r e Hr Hc He. specialize (Hroots r Hr). unfold check_root in Hroots. rewrite He in Hroots. apply ensure_ok in Hroots.
    rewrite bool_decide_eq_true_2 in Hroots by done. simpl in Hroots. by apply negb_true_iff, negb_false_iff, bool_decide_eq_true in Hroots.
Qed.

(** Stand-ins for the third-party text functions. *)
Definition sample_lib : ClosureLib := {|
  uuid_text := fun u => if decide (u = 7) then "seven" else "other";
  uuid_parse_str := fun s => if decide (s = "seven") then Some 7 else if decide (s = "eight") then Some 8 else None;
  sha256_hex := fun l => of_bytes (take 64 (l ++ replicate 64 "0"%char));
  json_text := fun v => match v with JString s => bytes s | JBool true => bytes "true" | JBool false => bytes "false" | _ => bytes "null" end;
|}.
Definition sample_hash : string := of_bytes (replicate 64 "a"%char).
Definition sample_policy : ScopeLinkPolicy :=
  mk_link_policy "v1" "exact" TIDAS_ALLOCATION_SEMANTICS_VERSION "cutoff" "scope_only".
Definition sample_scope : RequestedScopeManifest :=
  mk_manifest "v1" "full" "v1" [mk_requested 7 "01.00.000"] [] "reference-version-resolution-v1" "latest_eligible" "strict" sample_policy None.
Definition sample_snapshot : DataSnapshotManifest :=
  mk_snapshot "lcia.scope-closure-data-snapshot.v2" sample_scope (mk_release 1 2 "v1" "now" "hash")
    [mk_entry Processes 7 "01.00.000" "unit_process" None None sample_hash sample_hash sample_hash].
Definition sample_input : ScopeClosureWorkerInput :=
  mk_input 1 2 3 sample_scope "h" "p" "t" (JObject [("requestedScope", JNull)]) "h" 0 "f" "r" None.
Lemma validated_worker_input_witness :
  validate_worker_input (H := sample_lib) (fun _ => Ok sample_snapshot) "" sample_input = Ok tt
  /\ exists snapshot, Ok sample_snapshot = Ok (E := string) snapshot /\ manifest_roots sample_scope <> [].
Proof.
  assert (validate_worker_input (H := sample_lib) (fun _ => Ok sample_snapshot) "" sample_input = Ok tt) as Hv by by vm_compute.
  split; [done|]. destruct (validated_worker_input (H := sample_lib) (fun _ => Ok sample_snapshot) "" sample_input Hv) as (s & Hs & _ & Hr & _).
  exists s. exact (conj Hs Hr).
Defined.

(** ** The snapshot boundary *)

Section BoundarySpec.
Context `{ClosureLib} (universe : gmap ExactDatasetIdentity SnapshotDatasetEntry) (live : gmap ExactDatasetIdentity ClosureDocument).

(** The document of an identity that is in the snapshot and live, unchanged. *)
Definition boundary_document (i : ExactDatasetIdentity) : option ClosureDocument :=
  match universe !! i, live !! i with
  | Some entry, Some d => if decide (canonical_json_sha256 (doc_payload d) = canonical_content_hash entry) then Some d else None
  | _, _ => None
  end.
(** Live but not in the snapshot, or in the snapshot but gone or changed. *)
Definition boundary_incomplete (i : ExactDatasetIdentity) : Prop :=
  boundary_document i = None /\ (is_Some (universe !! i) \/ is_Some (live !! i)).
#[export] Instance boundary_incomplete_dec i : Decision (boundary_incomplete i).
Proof. unfold boundary_incomplete. apply _. Defined.

Lemma enforce_identity_spec r i :
  let r' := enforce_identity universe live r i in
  pf_documents r' = pf_documents r ++ option_list (boundary_document i)
  /\ (if decide (boundary_incomplete i)
      then (exists issue, pf_issues r' = pf_issues r ++ [issue] /\ ci_source issue = Some i /\ ci_blocking issue = true)
           /\ pf_incomplete r' = {[i]} ∪ pf_incomplete r
      else pf_issues r' = pf_issues r /\ pf_incomplete r' = pf_incomplete r).
Proof.
  cbv zeta. destruct (decide (boundary_incomplete i)) as [Hi|Hi]; unfold boundary_incomplete, boundary_document, enforce_identity in *;
    destruct (universe !! i) as [entry|], (live !! i) as [d|]; cbn -[provider_boundary_issue]; repeat case_decide;
    cbn -[provider_boundary_issue]; rewrite ?app_nil_r; (split; [done|]); try tauto.
  all: first [ split; [eexists; by split_and!|done] | by split | exfalso; apply Hi; split; eauto | destruct Hi as [? [[? ?]|[? ?]]]; done ].
Qed.

Lemma enforce_all_spec ids r :
  let r' := foldl (enforce_identity universe live) r ids in
  pf_documents r' = pf_documents r ++ omap boundary_document ids
  /\ (forall i, i ∈ pf_incomplete r' <-> i ∈ pf_incomplete r \/ (i ∈ ids /\ boundary_incomplete i))
  /\ exists issues, pf_issues r' = pf_issues r ++ issues
       /\ (ci_source <$> issues) = (Some <$> filter boundary_incomplete ids) /\ Forall (fun issue => ci_blocking issue = true) issues.
Proof.
  revert r. induction ids as [|i ids IH]; intros r; cbn [foldl].
  - simpl. rewrite app_nil_r. split; [done|]. split; [set_solver|]. exists []. by rewrite app_nil_r.
  - destruct (enforce_identity_spec r i) as [Hd Hi]. destruct (IH (enforce_identity universe live r i)) as (Hd' & Hin & issues & His & Hsrc & Hb).
    cbv zeta in *. rewrite Hd', Hd, <- app_assoc. split; [f_equal; cbn [omap list_omap]; by destruct (boundary_document i)|]. rewrite filter_cons. case_decide as Hc.
    + destruct Hi as [(issue & Hiss & Hs & Hbl) Hinc]. split; [intros j; rewrite Hin, Hinc; set_solver|].
      exists (issue :: issues). rewrite His, Hiss, <- app_assoc. split; [done|]. split; [by rewrite !fmap_cons, Hs, Hsrc|by constructor].
    + destruct Hi as [Hiss Hinc]. split; [intros j; rewrite Hin, Hinc; set_solver|]. exists issues. by rewrite His, Hiss.
Qed.
End BoundarySpec.

(** C34: the boundary of the frozen release, for any live content.  A fetch
    hands out exactly the requested documents that are in the snapshot, are
    live and hash to the frozen content hash, in request order; a requested
    dataset is incomplete exactly when it is known to one side but not handed
    out - live only, gone or drifted - and each such identity has one blocking
    issue; a dataset neither side knows is in neither list. *)
Theorem snapshot_boundary_exact `{ClosureLib} identities universe live_documents :
  let r := enforce_snapshot_boundary identities universe live_documents in
  let live := last_by_key doc_identity live_documents in
  pf_documents r = omap (boundary_document universe live) identities
  /\ (forall i, i ∈ pf_incomplete r <-> i ∈ identities /\ boundary_incomplete universe live i)
  /\ (ci_source <$> pf_issues r) = (Some <$> filter (boundary_incomplete universe live) identities)
  /\ (forall issue, issue ∈ pf_issues r -> ci_blocking issue = true)
  /\ (forall d, d ∈ pf_documents r -> doc_identity d ∈ identities /\ d ∈ live_documents
        /\ exists entry, universe !! doc_identity d = Some entry
             /\ canonical_json_sha256 (doc_payload d) = canonical_content_hash entry).
Proof.
  cbv zeta. unfold enforce_snapshot_boundary.
  destruct (enforce_all_spec universe (last_by_key doc_identity live_documents) identities (mk_fetch [] [] ∅)) as (Hd & Hi & issues & His & Hsrc & Hb).
  cbv zeta in *. rewrite Hd, His. cbn [pf_documents pf_issues app]. rewrite Forall_forall in Hb. split; [done|]. split; [intros i; rewrite Hi; set_solver|].
  split; [done|]. split; [done|]. intros d (i & Hin & Hbd)%list_elem_of_omap. unfold boundary_document in Hbd.
  destruct (universe !! i) as [entry|] eqn:Hu; [|done]. destruct (last_by_key _ _ !! i) as [d'|] eqn:Hl; [|done]. case_decide; [|done].
  injection Hbd as ->. apply last_by_key_key in Hl as [<- Hl]. split; [done|]. split; [done|]. by exists entry.
Qed.

(** ** Omitted versions *)

(** Under [latest_eligible] the candidates are the versions of the dataset in
    the snapshot, ascending; the selected one is the latest: no other version,
    read as numbers, is greater. *)
Lemma omitted_version_latest universe category id r :
  resolve_snapshot_omitted_version universe category id "latest_eligible" = Ok r ->
  (forall i, i ∈ candidates r <-> i ∈ dom universe /\ ei_category i = category /\ ei_id i = id)
  /\ (selected r = None <-> candidates r = [])
  /\ (forall s, selected r = Some s -> s ∈ candidates r
        /\ forall i, i ∈ candidates r -> not_gt String.compare (ei_version i) (ei_version s) = true
             /\ (Forall (fun v => version_valid v = true /\ length (version_components v) = 3%nat) [ei_version i; ei_version s] ->
                 numbers_cmp (version_numbers (ei_version i)) (version_numbers (ei_version s)) <> Gt)).
Proof.
  unfold resolve_snapshot_omitted_version. rewrite decide_False by done. rewrite decide_True by done. intros [= <-]. cbn [candidates selected].
  set (found := sort_by _ _). split; [intros i; subst found; rewrite sort_by_perm, list_elem_of_filter, elem_of_ascending; tauto|].
  split; [apply last_None|]. intros s Hs. split; [by apply last_Some_elem_of|]. intros i Hi.
  assert (not_gt (cmp_by ei_version String.compare) i s = true) as Hle.
  { pose proof (sort_by_sorted' (cmp_by ei_version String.compare)
      (filter (fun i => ei_category i = category /\ ei_id i = id) (ascending (dom universe)))) as Hsort. fold found in Hsort.
    apply last_Some in Hs as [pre E]. rewrite E in Hi, Hsort. apply elem_of_app in Hi as [Hi|Hi].
    - apply StronglySorted_app in Hsort as [Hsort _]. apply (Hsort i s Hi), list_elem_of_here.
    - apply list_elem_of_singleton in Hi as ->. unfold not_gt, cmp_by. by rewrite string_compare_refl. }
  split; [done|]. intros [[Hv1 Hl1] [[Hv2 Hl2] _]%Forall_cons]%Forall_cons. rewrite <- version_order_full by done.
  unfold not_gt, cmp_by in Hle. by destruct (String.compare _ _).
Qed.

(** ** The document spool *)

Section DocumentSpoolSpec.
Context `{ClosureLib}.

(** The records of the appended documents: each names the bytes of its document. *)
Record documents_hold (ds : list ClosureDocument) (w : ClosureDocumentSpoolWriter) : Prop := {
  dh_size : dw_byte_size w = Z.of_nat (length (dw_file w));
  dh_distinct : NoDup (doc_identity <$> ds);
  dh_dom : dom (dw_records w) = list_to_set (doc_identity <$> ds);
  dh_record : forall d, d ∈ ds -> exists r pre post, dw_records w !! doc_identity d = Some r
    /\ rec_identity r = doc_identity d /\ rec_content_hash r = canonical_json_sha256 (doc_payload d)
    /\ dw_file w = pre ++ write_canonical_json (document_json d) ++ post
    /\ rec_offset r = Z.of_nat (length pre) /\ rec_byte_size r = Z.of_nat (length (write_canonical_json (document_json d)));
}.

Lemma documents_new_hold : documents_hold [] documents_new.
Proof. split; [done|constructor|done|by intros d ?%elem_of_nil]. Qed.

(** Appending a new document only fails when the file leaves 64 bits. *)
Lemma documents_append_outcome ds w d : documents_hold ds w -> doc_identity d ∉ doc_identity <$> ds ->
  outcome (documents_hold (ds ++ [d])) (fun e => e = "scope closure document spool byte count overflow") (documents_append w d).
Proof.
  intros [Hsize Hnd Hdom Hrec] Hd. unfold documents_append.
  assert (dw_records w !! doc_identity d = None) as Hnone by (apply not_elem_of_dom; rewrite Hdom; set_solver).
  eapply outcome_bind; [apply outcome_ensure; rewrite Hnone, bool_decide_eq_false_2 by (by intros []); done|]. intros _ _ _.
  eapply outcome_bind; [apply outcome_ensure; done|]. intros _ _ _. cbn [outcome]. split; cbn [dw_file dw_records dw_byte_size].
  - rewrite length_app. lia.
  - rewrite fmap_app. apply NoDup_app. split; [done|]. split; [set_solver|]. apply NoDup_singleton.
  - rewrite dom_insert_L, Hdom, fmap_app, list_to_set_app_L. cbn [fmap list_fmap list_to_set]. set_solver.
  - intros d' [Hd'|Hd']%elem_of_app.
    + destruct (Hrec d' Hd') as (r & pre & post & Hr & Hid & Hh & Hf & Ho & Hb). exists r, pre, (post ++ write_canonical_json (document_json d)).
      rewrite lookup_insert_ne by (intros E; apply Hd, list_elem_of_fmap; by exists d'). split_and!; [done..| |done|done].
      rewrite Hf. by rewrite <- !app_assoc.
    + apply list_elem_of_singleton in Hd' as ->. eexists _, (dw_file w), []. rewrite lookup_insert_eq, app_nil_r. by split_and!.
Qed.

Lemma read_middle (pre mid post : list ascii) : take (length mid) (drop (length pre) (pre ++ mid ++ post)) = mid.
Proof. rewrite drop_app_length. by rewrite take_app_length. Qed.

(** A record of the map reads back its document. *)
Lemma record_reads ds w i r : documents_hold ds w -> dw_records w !! i = Some r ->
  exists d, d ∈ ds /\ i = doc_identity d /\ rec_identity r = i /\ read_record (dw_file w) r = Ok (write_canonical_json (document_json d)).
Proof.
  intros [Hsize Hnd Hdom Hrec] Hir. assert (i ∈ dom (dw_records w)) as Hi by (apply elem_of_dom; by exists r). rewrite Hdom in Hi.
  apply elem_of_list_to_set, list_elem_of_fmap in Hi as (d & -> & Hd). exists d. split; [done|]. split; [done|].
  destruct (Hrec d Hd) as (r' & pre & post & Hr & Hid & _ & Hf & Ho & Hb). rewrite Hir in Hr. injection Hr as <-. split; [done|].
  unfold read_record. rewrite Ho, Hb, Hf, !Nat2Z.id, read_middle, Z.eqb_refl. done.
Qed.

Lemma sorted_records (m : gmap ExactDatasetIdentity ClosureDocumentRecord) :
  (sort_by record_cmp (map_to_list m)).*1 = ascending (dom m).
Proof.
  symmetry. unfold ascending. apply sort_by_unique; [apply _| | |].
  - intros x y _ _ E. by apply identity_cmp_eq.
  - rewrite sort_by_perm. apply NoDup_Permutation; [apply NoDup_fst_map_to_list|apply NoDup_elements|].
    intros x. rewrite elem_of_elements, elem_of_dom, list_elem_of_fmap. split.
    + intros ([k r] & -> & Hk%elem_of_map_to_list). by exists r.
    + intros [r Hr]. exists (x, r). split; [done|]. by apply elem_of_map_to_list.
  - pose proof (sort_by_sorted' record_cmp (map_to_list m)) as Hss. induction Hss as [|a l _ IH Ha]; cbn; constructor; [done|].
    apply Forall_fmap. eapply Forall_impl; [exact Ha|]. by intros [? ?].
Qed.

Lemma visit_records (file : list ascii) (P : ExactDatasetIdentity -> list ascii -> Prop) records :
  (forall r, r ∈ records -> exists b, read_record file r = Ok b /\ P (rec_identity r) b) ->
  exists visited, mapR (fun r => bytes ← read_record file r; Ok (rec_identity r, bytes)) records = Ok visited
    /\ visited.*1 = rec_identity <$> records /\ (forall i b, (i, b) ∈ visited -> P i b).
Proof.
  induction records as [|r records IH]; intros Hread.
  - exists []. split; [done|]. split; [done|]. by intros i b ?%elem_of_nil.
  - destruct IH as (visited & Hv & Hk & Hof); [intros r' Hr'; apply Hread; by apply list_elem_of_further|].
    destruct (Hread r (list_elem_of_here _ _)) as (b & Hb & HP). cbn [mapR]. rewrite Hb. cbn [mbind result_bind]. rewrite Hv.
    eexists. split; [reflexivity|]. split; [cbn; f_equal; exact Hk|]. intros i b' [[= -> ->]|Hin]%elem_of_cons; [done|by apply Hof].
Qed.

(** The finished spool, visited, yields every appended document once, in the
    order of the identities, as its canonical bytes. *)
Lemma documents_visit_back ds w : documents_hold ds w ->
  exists visited, documents_visit (documents_finish w) = Ok visited
    /\ visited.*1 = ascending (list_to_set (doc_identity <$> ds))
    /\ (forall i b, (i, b) ∈ visited <-> exists d, d ∈ ds /\ i = doc_identity d /\ b = write_canonical_json (document_json d)).
Proof.
  intros Hw. unfold documents_visit, documents_finish. cbn [ds_file ds_records].
  destruct (visit_records (dw_file w) (fun i b => exists d, d ∈ ds /\ i = doc_identity d /\ b = write_canonical_json (document_json d))
    (snd <$> sort_by record_cmp (map_to_list (dw_records w)))) as (visited & Hv & Hk & Hof).
  { intros r ([i r'] & -> & Hr)%list_elem_of_fmap. rewrite sort_by_perm in Hr. apply elem_of_map_to_list in Hr.
    destruct (record_reads ds w i r' Hw Hr) as (d & Hd & -> & Hid & Hb). exists (write_canonical_json (document_json d)). split; [done|]. by exists d. }
  assert (visited.*1 = ascending (list_to_set (doc_identity <$> ds))) as Hkeys.
  { rewrite Hk, <- (dh_dom _ _ Hw), <- sorted_records, <- list_fmap_compose. apply list_fmap_ext. intros k [i r] Hir%list_elem_of_lookup_2.
    rewrite sort_by_perm in Hir. apply elem_of_map_to_list in Hir. by destruct (record_reads ds w i r Hw Hir) as (d & _ & _ & Hid & _). }
  exists visited. split; [done|]. split; [done|]. intros i b. split; [apply Hof|]. intros (d & Hd & -> & ->).
  assert (doc_identity d ∈ visited.*1) as ([i b] & Hi & Hin)%list_elem_of_fmap.
  { rewrite Hkeys, elem_of_ascending. apply elem_of_list_to_set, list_elem_of_fmap. by exists d. }
  simpl in Hi. subst i. destruct (Hof _ _ Hin) as (d' & Hd' & E & ->). assert (d = d') as <- by by apply (distinct_key doc_identity ds _ _ (dh_distinct _ _ Hw)).
  done.
Qed.
End DocumentSpoolSpec.
