(* ===== verification/Preflight.v ===== *)
(** * The source-closure scan

    [collect_scope_closure] and [finalize_scope_closure_scan]
    (scope_closure.rs): starting at the requested roots, documents are fetched
    in batches, their references extracted, classified and resolved to exact
    identities, and new targets scheduled until nothing is left; the collected
    evidence is then sorted, coalesced and related to the roots.

    The provider of documents is the interface [ScopeClosureProvider]; what it
    promises is [LawfulProvider], which the database-backed provider
    implements over a stable source. *)

From S2P Require Import Prelude Text Json DataBuilder Identity References RefGraph BinarySearch Issues ExternalSort SnapshotProvider.

Local Open Scope string_scope.
Local Open Scope Z_scope.
Local Open Scope list_scope.

Definition FETCH_BATCH_SIZE : nat := 96.

(** ** State *)

Record Scan := mk_scan {
  sc_queue : list ExactDatasetIdentity;
  sc_scheduled : gset ExactDatasetIdentity;
  sc_documents : ClosureDocumentSpoolWriter;
  sc_edges : JsonlValueSpoolWriter;
  sc_references : list ResolvedReference;
  sc_omitted : list Value;
  sc_issues : list ClosureIssue;
  sc_complete : bool;
}.

Record ScopeClosureScan := mk_closure_scan {
  cs_schema_version : string;
  cs_complete : bool;
  cs_roots : list ExactDatasetIdentity;
  cs_documents : ClosureDocumentSpool;
  cs_edges : JsonlValueSpool;
  cs_references : JsonlValueSpool;
  cs_omitted : list Value;
  cs_issues : list ClosureIssue;
  cs_frontier : list ExactDatasetIdentity;
  cs_provider_universe : list ExactDatasetIdentity;
  cs_graph : CompactReferenceGraph;
}.

Definition push_scan_issue (issue : ClosureIssue) (st : Scan) : Scan :=
  mk_scan (sc_queue st) (sc_scheduled st) (sc_documents st) (sc_edges st) (sc_references st) (sc_omitted st)
    (sc_issues st ++ [issue]) (sc_complete st).
Definition push_omitted (v : Value) (st : Scan) : Scan :=
  mk_scan (sc_queue st) (sc_scheduled st) (sc_documents st) (sc_edges st) (sc_references st) (sc_omitted st ++ [v])
    (sc_issues st) (sc_complete st).
Definition push_reference (r : ResolvedReference) (st : Scan) : Scan :=
  mk_scan (sc_queue st) (sc_scheduled st) (sc_documents st) (sc_edges st) (sc_references st ++ [r]) (sc_omitted st)
    (sc_issues st) (sc_complete st).
(** [if scheduled.insert(target.clone()) { queue.push_back(target); }]. *)
Definition schedule (target : ExactDatasetIdentity) (st : Scan) : Scan :=
  if decide (target ∈ sc_scheduled st) then st
  else mk_scan (sc_queue st ++ [target]) ({[target]} ∪ sc_scheduled st) (sc_documents st) (sc_edges st) (sc_references st)
         (sc_omitted st) (sc_issues st) (sc_complete st).

(** ** The serialized evidence *)

Definition edge_with_role (role : string) (e : ReferenceEdge) : ReferenceEdge :=
  mk_edge (re_schema_version e) (re_document_key e) (re_source_category e) (re_target_category e) (re_target_uuid e)
    (re_version_state e) (re_requested_version e) (re_version_raw e) role (re_json_path e) (re_raw_type e) (re_uri e).
Definition json_text_opt (o : option string) : Value := match o with Some s => JString s | None => JNull end.
Definition edge_json (e : ReferenceEdge) : Value :=
  json_object [("schema_version", JString (re_schema_version e)); ("document_key", JString (re_document_key e));
    ("source_category", JString (re_source_category e)); ("target_category", JString (re_target_category e));
    ("target_uuid", JString (re_target_uuid e)); ("requested_version_state", JString (re_version_state e));
    ("requested_version", json_text_opt (re_requested_version e)); ("requested_version_raw", re_version_raw e);
    ("reference_role", JString (re_role e)); ("json_path", JString (re_json_path e));
    ("raw_type", re_raw_type e); ("uri", re_uri e)].

(** The derived order of resolved references. *)
Definition reference_cmp : ResolvedReference -> ResolvedReference -> comparison :=
  cmp_then (cmp_by rr_source identity_cmp) (cmp_then (cmp_by rr_target identity_cmp)
    (cmp_then (cmp_by rr_json_path String.compare) (cmp_then (cmp_by rr_role String.compare)
      (cmp_by rr_version_state String.compare)))).

#[export] Instance reference_cmp_preorder : TotalPreorder reference_cmp.
Proof. unfold reference_cmp. apply _. Qed.

Section Scanning.
Context `{ClosureLib, ScopeClosureProvider}.
(** The resident memory observed in round [n] of a phase, its budget, the free
    temporary space, and reading a line as JSON and writing it canonically. *)
Context (resident_bytes : string -> nat -> option Z) (budget_bytes : Z) (available : SpaceQuery -> Z)
  (canonical : Line -> result string Line).

Definition enforce_scope_closure_memory_budget (phase : string) (round : nat) : result string unit :=
  match resident_bytes phase round with
  | Some resident => ensure (negb (budget_bytes <? resident)) "scope_closure_memory_budget_exceeded"
  | None => Ok tt
  end.

Definition resolved_json (r : ResolvedReference) : Value :=
  json_object [("source", identity_json (rr_source r)); ("target", identity_json (rr_target r));
    ("jsonPath", JString (rr_json_path r)); ("referenceRole", JString (rr_role r));
    ("requestedVersionState", JString (rr_version_state r))].
Definition omitted_json (source : ExactDatasetIdentity) (e : ReferenceEdge) (category : DatasetCategory) (id : Uuid)
    (r : OmittedVersionResolution) : Value :=
  json_object [("source", identity_json source); ("jsonPath", JString (re_json_path e)); ("referenceRole", JString (re_role e));
    ("targetCategory", JString (table_name category)); ("targetId", JString (uuid_text id)); ("policy", JString (resolution_policy r));
    ("candidateUniverse", JString "frozen-public-release-manifest"); ("candidates", JArray (identity_json <$> candidates r));
    ("selected", match selected r with Some i => identity_json i | None => JNull end)].

(** ** One edge *)

Definition classified (e : ReferenceEdge) : option ClassifiedSourceReference :=
  match classify_reference e CertificateClosure with Ok c => Some c | _ => None end.
Definition retagged (e : ReferenceEdge) : ReferenceEdge :=
  match classified e with Some c => edge_with_role (role_as_str (cl_role c)) e | None => e end.

(** The exact identity an edge asks for, and the resolution when its version is
    omitted. *)
Definition edge_target (policy : string) (category : DatasetCategory) (e : ReferenceEdge)
    : result string (option ExactDatasetIdentity * option (Uuid * OmittedVersionResolution)) :=
  match uuid_parse_str (re_target_uuid e) with
  | None => Ok (None, None)
  | Some id =>
      if decide (re_version_state e = "explicit") then
        match re_requested_version e with
        | Some version => v ← normalize_exact_version version; Ok (Some (mk_identity category id v), None)
        | None => Ok (None, None)
        end
      else if decide (re_version_state e = "omitted") then
        r ← resolve_omitted_version category id policy;
        Ok (selected r, Some (id, r))
      else Ok (None, None)
  end.

(** A provider process outside the roots, under the scope-only policy. *)
Definition outside_universe (m : RequestedScopeManifest) (root_set : gset ExactDatasetIdentity) (e : ReferenceEdge)
    (target : ExactDatasetIdentity) : bool :=
  bool_decide (ei_category target = Processes)
  && match classified e with Some c => bool_decide (cl_role c = ProviderProcess) | None => true end
  && bool_decide (target ∉ root_set)
  && bool_decide (provider_universe_policy (link_policy m) = "scope_only").

Definition append_edge (e : ReferenceEdge) (st : Scan) : result string Scan :=
  edges ← append_canonical_bytes (sc_edges st) (write_canonical_json (edge_json e));
  Ok (mk_scan (sc_queue st) (sc_scheduled st) (sc_documents st) edges (sc_references st) (sc_omitted st) (sc_issues st) (sc_complete st)).

Definition process_edge (m : RequestedScopeManifest) (root_set : gset ExactDatasetIdentity) (source : ExactDatasetIdentity)
    (st : Scan) (edge0 : ReferenceEdge) : result string Scan :=
  let edge := retagged edge0 in
  target_category ← parse_category (re_target_category edge);
  let target_id := uuid_parse_str (re_target_uuid edge) in
  '(target, resolution) ← edge_target (legacy_omitted_version_policy m) target_category edge;
  let st := match resolution with
            | Some (id, r) => push_omitted (omitted_json source edge target_category id r) st
            | None => st
            end in
  let st := if decide (re_version_state edge = "omitted" /\ target = None)
            then push_scan_issue (omitted_version_issue source edge target_id) st else st in
  match target with
  | None => append_edge edge st
  | Some target =>
      if outside_universe m root_set edge0 target
      then append_edge edge (push_scan_issue (provider_outside_universe_issue source target edge) st)
      else append_edge edge (schedule target (push_reference
             (mk_resolved source target (re_json_path edge) (re_role edge) (re_version_state edge)) st))
  end.

(** ** One requested identity *)

Definition append_document (d : ClosureDocument) (st : Scan) : result string Scan :=
  documents ← documents_append (sc_documents st) d;
  Ok (mk_scan (sc_queue st) (sc_scheduled st) documents (sc_edges st) (sc_references st) (sc_omitted st) (sc_issues st) (sc_complete st)).
Definition extend_issues (issues : list ClosureIssue) (st : Scan) : Scan :=
  mk_scan (sc_queue st) (sc_scheduled st) (sc_documents st) (sc_edges st) (sc_references st) (sc_omitted st)
    (sc_issues st ++ issues) (sc_complete st).

Definition process_requested (m : RequestedScopeManifest) (root_set incomplete : gset ExactDatasetIdentity)
    (acc : Scan * gmap ExactDatasetIdentity ClosureDocument) (requested : ExactDatasetIdentity)
    : result string (Scan * gmap ExactDatasetIdentity ClosureDocument) :=
  let '(st, fetched) := acc in
  match fetched !! requested with
  | None =>
      if decide (requested ∈ incomplete) then Ok (st, fetched)
      else
        let explicitly_requested :=
          existsb (fun r => bool_decide (rr_target r = requested) && bool_decide (rr_version_state r = "explicit")) (sc_references st) in
        Ok (push_scan_issue (missing_dataset_issue requested explicitly_requested) st, fetched)
  | Some document =>
      let extraction := extract_scope_closure_references (document_key (doc_identity document))
                          (ei_category (doc_identity document)) (doc_payload document) in
      let st := extend_issues (extraction_issue (doc_identity document) <$> rx_issues extraction) st in
      st ← foldM (process_edge m root_set (doc_identity document)) (rx_edges extraction) st;
      st ← append_document document st;
      Ok (st, delete requested fetched)
  end.

(** ** Batches *)

Definition take_batch (fetched : ProviderFetchResult) (st : Scan) : Scan :=
  mk_scan (drop FETCH_BATCH_SIZE (sc_queue st)) (sc_scheduled st) (sc_documents st) (sc_edges st) (sc_references st)
    (sc_omitted st) (sc_issues st ++ pf_issues fetched) (sc_complete st && bool_decide (pf_incomplete fetched = ∅)).
Definition process_batch (m : RequestedScopeManifest) (root_set : gset ExactDatasetIdentity) (st : Scan) : result string Scan :=
  let batch := take FETCH_BATCH_SIZE (sc_queue st) in
  fetched ← fetch_exact batch;
  '(st, _) ← foldM (process_requested m root_set (pf_incomplete fetched)) batch
               (take_batch fetched st, last_by_key doc_identity (pf_documents fetched));
  Ok st.

(** [while !queue.is_empty()]; the fuel bounds the number of batches. *)
Fixpoint collect_loop (fuel round : nat) (m : RequestedScopeManifest) (root_set : gset ExactDatasetIdentity) (st : Scan)
    : result string Scan :=
  match sc_queue st with
  | [] => Ok st
  | _ =>
      match fuel with
      | O => Panic
      | S fuel =>
          _ ← enforce_scope_closure_memory_budget "discover_reference_graph" round;
          _ ← checkpoint (size (dw_records (sc_documents st))) (size (sc_scheduled st));
          st ← process_batch m root_set st;
          collect_loop fuel (S round) m root_set st
      end
  end.

(** ** Finalization *)

Definition issue_key_cmp : ClosureIssue -> ClosureIssue -> comparison := cmp_by ci_key String.compare.
Definition sort_by_canonical_value (l : list Value) : list Value := sort_by (cmp_by canonical_value String.compare) l.

Definition finalize_scope_closure_scan (roots : list ExactDatasetIdentity) (st : Scan) : result string ScopeClosureScan :=
  edges ← sort_jsonl_spool_with_run_bytes available canonical VALIDATION_SORT_RUN_BYTES (spool_finish (sc_edges st));
  let references := sort_by reference_cmp (sc_references st) in
  let omitted := sort_by_canonical_value (sc_omitted st) in
  let issues := coalesce_issues (attach_reference_occurrences (sc_issues st) references) in
  graph ← from_references references roots;
  issues ← compute_affected_roots_batch issues roots graph;
  w ← foldM append_canonical_bytes ((fun r => write_canonical_json (resolved_json r)) <$> references) spool_writer_new;
  Ok (mk_closure_scan "lcia.scope-closure-scan.v1" (sc_complete st) roots (documents_finish (sc_documents st)) edges
        (spool_finish w) omitted (sort_by issue_key_cmp issues) [] (ascending (sc_scheduled st)) graph).

Definition scan_start (roots : list ExactDatasetIdentity) : Scan :=
  mk_scan roots (list_to_set roots) documents_new spool_writer_new [] [] [] true.
Definition collect_scope_closure (fuel : nat) (m : RequestedScopeManifest) : result string ScopeClosureScan :=
  let roots := manifest_roots m in
  st ← collect_loop fuel 0 m (list_to_set roots) (scan_start roots);
  scan ← finalize_scope_closure_scan roots st;
  _ ← enforce_scope_closure_memory_budget "scope_closure_finalize" 0;
  Ok scan.
End Scanning.

(** ** What a provider promises

    Every call returns; a fetch hands out, for each requested identity, the
    document the source holds for it, and reports the requested identities it
    could not settle. *)

Class LawfulProvider `{ScopeClosureProvider} (document_of : ExactDatasetIdentity -> option Value)
    (incomplete_of : ExactDatasetIdentity -> Prop) : Prop := {
  checkpoint_returns : forall scanned scheduled, checkpoint scanned scheduled <> Panic;
  fetch_returns : forall ids, fetch_exact ids <> Panic;
  resolve_returns : forall category id policy, resolve_omitted_version category id policy <> Panic;
  fetch_document : forall ids r i, fetch_exact ids = Ok r -> i ∈ ids ->
    doc_payload <$> (last_by_key doc_identity (pf_documents r) !! i) = document_of i;
  fetch_incomplete : forall ids r i, fetch_exact ids = Ok r -> (i ∈ pf_incomplete r <-> i ∈ ids /\ incomplete_of i);
}.

(** The database-backed provider implements it over a stable source: reading
    the live tables yields what [table] holds. *)
Section PgLawful.
Context `{ClosureLib} (universe : gmap ExactDatasetIdentity SnapshotDatasetEntry) (table : ExactDatasetIdentity -> option Value)
  (heartbeat : nat -> nat -> result string unit) (read : list ExactDatasetIdentity -> result string (list ClosureDocument)).

Definition frozen_payload (i : ExactDatasetIdentity) : option Value :=
  match universe !! i, table i with
  | Some entry, Some payload => if decide (canonical_json_sha256 payload = canonical_content_hash entry) then Some payload else None
  | _, _ => None
  end.
Definition frozen_incomplete (i : ExactDatasetIdentity) : Prop :=
  frozen_payload i = None /\ (is_Some (universe !! i) \/ is_Some (table i)).

Lemma pg_provider_lawful :
  (forall n k, heartbeat n k <> Panic) -> (forall ids, read ids <> Panic) ->
  (forall ids ds i, read ids = Ok ds -> i ∈ ids -> doc_payload <$> (last_by_key doc_identity ds !! i) = table i) ->
  LawfulProvider (H := PgScopeClosureProvider heartbeat read universe) frozen_payload frozen_incomplete.
Proof.
  intros Hh Hr Ht. split.
  - exact Hh.
  - intros ids. simpl. specialize (Hr ids). by destruct (read ids).
  - intros category id policy. simpl. unfold resolve_snapshot_omitted_version. repeat case_decide; done.
  - intros ids r i. simpl. intros (ds & Hds & [= <-])%bind_ok Hi.
    destruct (enforce_all_spec universe (last_by_key doc_identity ds) ids (mk_fetch [] [] ∅)) as (Hd & _).
    cbv zeta in Hd. unfold enforce_snapshot_boundary. rewrite Hd. cbn [pf_documents app].
    specialize (Ht ids ds i Hds Hi). rewrite last_by_key_spec.
    assert (boundary_document universe (last_by_key doc_identity ds) i = None /\ frozen_payload i = None
      \/ exists d, boundary_document universe (last_by_key doc_identity ds) i = Some d /\ frozen_payload i = Some (doc_payload d)) as Hcases.
    { unfold boundary_document, frozen_payload. rewrite <- Ht. destruct (universe !! i), (last_by_key _ _ !! i); simpl; try tauto.
      case_decide; [right; eauto|left; tauto]. }
    assert (forall j d, boundary_document universe (last_by_key doc_identity ds) j = Some d -> doc_identity d = j) as Hid.
    { intros j d. unfold boundary_document. destruct (universe !! j); [|done]. destruct (last_by_key _ _ !! j) eqn:El; [|done].
      case_decide; [|done]. intros [= <-]. by apply last_by_key_key in El as [? _]. }
    destruct Hcases as [[Hb ->]|(d & Hb & ->)].
    + rewrite filter_none; [done|]. apply Forall_forall. intros d (j & Hj & Hd')%list_elem_of_omap E. pose proof (Hid j d Hd'). congruence.
    + assert (forall x, x ∈ filter (fun a => doc_identity a = i) (omap (boundary_document universe (last_by_key doc_identity ds)) ids) -> x = d) as Hall.
      { intros x [Hx (j & Hj & Hx')%list_elem_of_omap]%list_elem_of_filter. pose proof (Hid j x Hx'). congruence. }
      destruct (last _) as [x|] eqn:El; [apply last_Some_elem_of in El; by rewrite (Hall x El)|].
      apply last_None in El. exfalso. assert (d ∈ @nil ClosureDocument) as Hin; [|by apply elem_of_nil in Hin].
      rewrite <- El. apply list_elem_of_filter. split; [by apply Hid|]. apply list_elem_of_omap. by exists i.
  - intros ids r i. simpl. intros (ds & Hds & [= <-])%bind_ok.
    destruct (enforce_all_spec universe (last_by_key doc_identity ds) ids (mk_fetch [] [] ∅)) as (_ & Hi & _).
    cbv zeta in Hi. unfold enforce_snapshot_boundary. rewrite Hi. cbn [pf_incomplete].
    assert (i ∈ ids -> (boundary_incomplete universe (last_by_key doc_identity ds) i <-> frozen_incomplete i)) as Hiff; [|rewrite elem_of_empty; tauto].
    intros Hin. specialize (Ht ids ds i Hds Hin). unfold boundary_incomplete, frozen_incomplete, boundary_document, frozen_payload.
    rewrite <- Ht. destruct (universe !! i) as [e|], (last_by_key _ _ !! i) as [d|]; cbn [fmap option_fmap option_map]; try case_decide;
      split; intros [Hn Hs]; (done || (split; [done|])); first [by left; eexists|by right; eexists|by destruct Hs as [[? ?]|[? ?]]].
Qed.
End PgLawful.

(** ** The closure, as the documents define it *)

Section Closure.
Context `{HL : ClosureLib, HP : ScopeClosureProvider} (m : RequestedScopeManifest)
  (document_of : ExactDatasetIdentity -> option Value) (incomplete_of : ExactDatasetIdentity -> Prop).

Definition root_set : gset ExactDatasetIdentity := list_to_set (manifest_roots m).

Definition edges_of (i : ExactDatasetIdentity) : list ReferenceEdge :=
  match document_of i with
  | Some payload => rx_edges (extract_scope_closure_references (document_key i) (ei_category i) payload)
  | None => []
  end.
(** The reference an edge resolves to, unless it leaves the provider universe. *)
Definition follow (source : ExactDatasetIdentity) (e : ReferenceEdge) : option ResolvedReference :=
  match parse_category (re_target_category e) with
  | Ok category =>
      match edge_target (legacy_omitted_version_policy m) category (retagged e) with
      | Ok (Some target, _) =>
          if outside_universe m root_set e target then None
          else Some (mk_resolved source target (re_json_path (retagged e)) (re_role (retagged e)) (re_version_state (retagged e)))
      | _ => None
      end
  | _ => None
  end.
Definition references_of (i : ExactDatasetIdentity) : list ResolvedReference := omap (follow i) (edges_of i).
Definition edge_line (e : ReferenceEdge) : Line := write_canonical_json (edge_json (retagged e)).
Definition edge_lines_of (i : ExactDatasetIdentity) : list Line := edge_line <$> edges_of i.
Definition document_at (i : ExactDatasetIdentity) : option ClosureDocument := mk_document i <$> document_of i.

(** The least set with the roots that is closed under references. *)
Inductive in_closure : ExactDatasetIdentity -> Prop :=
| closure_root i : i ∈ manifest_roots m -> in_closure i
| closure_reference i r : in_closure i -> r ∈ references_of i -> in_closure (rr_target r).

(** ** Errors

    What may end a scan: an error of the provider, the memory budget, the size
    limits of the spools, the free space, or more identities than 32-bit
    ordinals. *)
Definition resource_errors : list string :=
  ["scope_closure_memory_budget_exceeded"; "validation issue spool byte count overflow";
   "validation issue spool event count overflow"; "validation issue spool exceeded bounded capacity";
   "scope closure document spool byte count overflow"; "scope closure temporary-space requirement overflow";
   "scope_closure_temp_space_low"; try_from_int_error].
Definition scan_error (e : string) : Prop :=
  e ∈ resource_errors
  \/ (exists n k, checkpoint n k = Err e) \/ (exists ids, fetch_exact ids = Err e)
  \/ (exists category id, resolve_omitted_version category id (legacy_omitted_version_policy m) = Err e).

Lemma resource_error e : e ∈ resource_errors -> scan_error e.
Proof. by left. Qed.

(** ** One edge *)

Definition edges_hold (ls : list Line) (w : JsonlValueSpoolWriter) : Prop :=
  w = mk_spool_writer (file_of_lines ls) (Z.of_nat (length ls)) (line_bytes ls) true.

(** [st'] is [st] after references [refs] were followed and lines written. *)
Record advance (refs : list ResolvedReference) (lines : list Line) (st st' : Scan) : Prop := {
  ad_references : sc_references st' = sc_references st ++ refs;
  ad_scheduled : sc_scheduled st' = sc_scheduled st ∪ list_to_set (rr_target <$> refs);
  ad_queue : exists new, sc_queue st' = sc_queue st ++ new /\ NoDup new
    /\ forall x, x ∈ new <-> x ∈ rr_target <$> refs /\ x ∉ sc_scheduled st;
  ad_documents : sc_documents st' = sc_documents st;
  ad_complete : sc_complete st' = sc_complete st;
  ad_issues : exists more, sc_issues st' = sc_issues st ++ more;
  ad_edges : forall ls, edges_hold ls (sc_edges st) -> edges_hold (ls ++ lines) (sc_edges st');
}.

Lemma advance_refl st : advance [] [] st st.
Proof.
  split; try done; rewrite ?app_nil_r; try done; [set_solver| |by exists []; rewrite app_nil_r|by intros ls; rewrite app_nil_r].
  exists []. rewrite app_nil_r. split; [done|]. split; [constructor|]. intros x. cbn. set_solver.
Qed.

Lemma advance_trans r1 l1 r2 l2 st1 st2 st3 : advance r1 l1 st1 st2 -> advance r2 l2 st2 st3 -> advance (r1 ++ r2) (l1 ++ l2) st1 st3.
Proof.
  intros [R1 S1 (n1 & Q1 & N1 & X1) D1 C1 (i1 & I1) E1] [R2 S2 (n2 & Q2 & N2 & X2) D2 C2 (i2 & I2) E2]. split.
  - by rewrite R2, R1, app_assoc.
  - rewrite S2, S1, fmap_app, list_to_set_app_L. by rewrite (assoc_L (∪)).
  - exists (n1 ++ n2). rewrite Q2, Q1, app_assoc. split; [done|]. split.
    + apply NoDup_app. split; [done|]. split; [|done]. intros x [Hx1 _]%X1 [_ Hx2]%X2. apply Hx2. rewrite S1. apply elem_of_union. right.
      by apply elem_of_list_to_set.
    + intros x. rewrite elem_of_app, fmap_app, elem_of_app, X1, X2, S1, not_elem_of_union, elem_of_list_to_set.
      destruct (decide (x ∈ rr_target <$> r1)); tauto.
  - by rewrite D2.
  - by rewrite C2.
  - exists (i1 ++ i2). by rewrite I2, I1, app_assoc.
  - intros ls Hls. rewrite app_assoc. by apply E2, E1.
Qed.

Lemma advance_issue issue st : advance [] [] st (push_scan_issue issue st).
Proof. destruct (advance_refl st) as [R S Q D C I E]. split; try done. by exists [issue]. Qed.
Lemma advance_omitted v st : advance [] [] st (push_omitted v st).
Proof. destruct (advance_refl st) as [R S Q D C I E]. by split. Qed.
Lemma advance_extend issues st : advance [] [] st (extend_issues issues st).
Proof. destruct (advance_refl st) as [R S Q D C I E]. split; try done. by exists issues. Qed.

Lemma advance_schedule r st : advance [r] [] st (schedule (rr_target r) (push_reference r st)).
Proof.
  unfold schedule. cbn [push_reference sc_scheduled]. case_decide as Hin; split; cbn; try done.
  - set_solver.
  - exists []. rewrite app_nil_r. split; [done|]. split; [constructor|]. set_solver.
  - by exists []; rewrite app_nil_r.
  - intros ls. by rewrite app_nil_r.
  - set_solver.
  - exists [rr_target r]. split; [done|]. split; [apply NoDup_singleton|]. set_solver.
  - by exists []; rewrite app_nil_r.
  - intros ls. by rewrite app_nil_r.
Qed.

(** A guard whose error is among the expected ones. *)
Lemma outcome_guard {A} (P : A -> Prop) (Q : string -> Prop) c msg (f : unit -> result string A) :
  Q msg -> outcome P Q (f tt) -> outcome P Q (ensure c msg ≫= f).
Proof. intros Hm Hf. by destruct c. Qed.

Lemma append_line_outcome w line :
  outcome (fun w' => forall ls, edges_hold ls w -> edges_hold (ls ++ [line]) w') (fun e => e ∈ resource_errors) (append_canonical_bytes w line).
Proof.
  unfold append_canonical_bytes, record_append.
  do 3 (apply outcome_guard; [compute_done|]). cbn [outcome]. intros ls ->. unfold edges_hold. cbn [sw_file sw_events sw_size sw_limits].
  rewrite file_of_lines_app, line_bytes_app, !length_app, line_bytes_one. cbn [length file_of_lines flat_map]. rewrite app_nil_r.
  f_equal; lia.
Qed.

Lemma advance_edge e st : outcome (advance [] [write_canonical_json (edge_json e)] st) scan_error (append_edge e st).
Proof.
  unfold append_edge. eapply outcome_bind; [eapply outcome_err_mono; [|apply append_line_outcome]; apply resource_error|].
  intros w _ Hw. destruct (advance_refl st) as [R S Q D C I E]. by split.
Qed.

Lemma retagged_same e :
  re_target_category (retagged e) = re_target_category e /\ re_target_uuid (retagged e) = re_target_uuid e
  /\ re_version_state (retagged e) = re_version_state e /\ re_requested_version (retagged e) = re_requested_version e
  /\ re_json_path (retagged e) = re_json_path e.
Proof. unfold retagged. by destruct (classified e). Qed.

(** A well-formed edge resolves without an error of its own. *)
Lemma edge_target_outcome category e c : edge_wf category e ->
  (forall c id p, resolve_omitted_version c id p <> Panic) ->
  outcome (fun _ => True) scan_error (edge_target (legacy_omitted_version_policy m) c (retagged e)).
Proof.
  intros (_ & _ & _ & Hst) Hr. destruct (retagged_same e) as (_ & Hu & Hs & Hv & _). unfold edge_target. rewrite Hu, Hs, Hv.
  destruct (uuid_parse_str _) as [id|]; [|done]. case_decide as H1; [|case_decide as H2; [|done]].
  - destruct Hst as [(_ & v & -> & Hval)|[(E & _)|E]]; [|congruence..].
    unfold normalize_exact_version, validate_version. rewrite Hval. cbn [mbind result_bind]. by destruct (_ =? _)%nat.
  - specialize (Hr c id (legacy_omitted_version_policy m)). destruct (resolve_omitted_version _ _ _) as [r|err|] eqn:E; [done| |done].
    do 3 right. by exists c, id.
Qed.

Lemma process_edge_outcome source st e category : edge_wf category e ->
  (forall c id p, resolve_omitted_version c id p <> Panic) ->
  outcome (advance (option_list (follow source e)) [edge_line e] st) scan_error (process_edge m root_set source st e).
Proof.
  intros Hwf Hr. unfold process_edge, follow. cbv zeta. destruct (retagged_same e) as (-> & _ & Hs & _ & _).
  destruct Hwf as (Hc & (target & Ht) & Hrest). rewrite Ht, parse_category_table_name. cbn [mbind result_bind].
  pose proof (edge_target_outcome category e target (conj Hc (conj (ex_intro _ target Ht) Hrest)) Hr) as Het.
  destruct (edge_target _ _ _) as [[o resolution]|err|] eqn:Eet; [|done..]. cbn [mbind result_bind].
  set (st1 := match resolution with Some _ => _ | None => _ end).
  set (st2 := if decide _ then _ else st1).
  assert (advance [] [] st st2) as Hst2.
  { apply (advance_trans [] [] [] [] st st1 st2); subst st1 st2.
    - destruct resolution as [[id r]|]; [apply advance_omitted|apply advance_refl].
    - case_decide; [apply advance_issue|apply advance_refl]. }
  clearbody st2. destruct o as [t|].
  - destruct (outside_universe m root_set e t).
    + eapply outcome_mono; [apply advance_edge|]. intros st' _ Hadv. cbn [option_list].
      eapply (advance_trans [] [] [] _ st st2); [done|]. by eapply (advance_trans [] [] [] _ st2 _ st' (advance_issue _ _)).
    + eapply outcome_mono; [apply advance_edge|]. intros st' _ Hadv. cbn [option_list].
      set (r := mk_resolved source t _ _ _) in *.
      eapply (advance_trans [] [] [r] _ st st2); [done|]. by eapply (advance_trans [r] [] [] _ st2 _ st' (advance_schedule r st2)).
  - eapply outcome_mono; [apply advance_edge|]. intros st' _ Hadv. by eapply (advance_trans [] [] [] _ st st2).
Qed.

(** ** One document *)

Lemma process_edges_outcome source category es st : Forall (edge_wf category) es ->
  (forall c id p, resolve_omitted_version c id p <> Panic) ->
  outcome (advance (omap (follow source) es) (edge_line <$> es) st) scan_error (foldM (process_edge m root_set source) es st).
Proof.
  intros Hes Hr. rewrite Forall_forall in Hes.
  apply (outcome_foldM scan_error (fun pre st' => advance (omap (follow source) pre) (edge_line <$> pre) st st')); [apply advance_refl|].
  intros pre e post st' -> Hadv. eapply outcome_mono; [apply (process_edge_outcome source st' e category); [|done]|].
  - apply Hes, elem_of_app. right. apply list_elem_of_here.
  - intros st'' _ Hstep. rewrite omap_app, fmap_app. eapply advance_trans; [exact Hadv|].
    replace (omap (follow source) [e]) with (option_list (follow source e)) by (cbn; by destruct (follow source e)). exact Hstep.
Qed.

(** ** The scan

    After the identities [P] were processed and with [B] left of the batch. *)
Record scanned (P B : list ExactDatasetIdentity) (st : Scan) : Prop := {
  sn_distinct : NoDup (P ++ B ++ sc_queue st);
  sn_scheduled : forall x, x ∈ sc_scheduled st <-> x ∈ P ++ B ++ sc_queue st;
  sn_origin : forall x, x ∈ sc_scheduled st <-> x ∈ manifest_roots m \/ exists i r, i ∈ P /\ r ∈ references_of i /\ x = rr_target r;
  sn_closure : forall x, x ∈ sc_scheduled st -> in_closure x;
  sn_references : sc_references st = flat_map references_of P;
  sn_edges : edges_hold (flat_map edge_lines_of P) (sc_edges st);
  sn_documents : documents_hold (omap document_at P) (sc_documents st);
  sn_missing : forall i, i ∈ P -> document_of i = None -> ~ incomplete_of i ->
    exists explicit, missing_dataset_issue i explicit ∈ sc_issues st;
  sn_complete : sc_complete st = true <-> forall i, i ∈ P ++ B -> ~ incomplete_of i;
}.

Lemma scan_start_scanned : scanned [] [] (scan_start (manifest_roots m)).
Proof.
  split; cbn.
  - apply lt_sorted_NoDup, manifest_roots_sorted.
  - intros x. apply elem_of_list_to_set.
  - intros x. rewrite elem_of_list_to_set. split; [by left|]. intros [?|(i & r & Hi & _)]; [done|by apply elem_of_nil in Hi].
  - intros x Hx%elem_of_list_to_set. by apply closure_root.
  - done.
  - done.
  - apply documents_new_hold.
  - by intros i ?%elem_of_nil.
  - split; [|done]. by intros _ i ?%elem_of_nil.
Qed.

(** What an [advance] through the references of [i] does to the invariant, with
    [w] for the documents. *)
Lemma advance_scanned P i B st st' w : scanned P (i :: B) st -> advance (references_of i) (edge_lines_of i) st st' ->
  documents_hold (omap document_at (P ++ [i])) w ->
  (document_of i = None -> ~ incomplete_of i -> exists explicit, missing_dataset_issue i explicit ∈ sc_issues st') ->
  scanned (P ++ [i]) B (mk_scan (sc_queue st') (sc_scheduled st') w (sc_edges st') (sc_references st') (sc_omitted st')
    (sc_issues st') (sc_complete st')).
Proof.
  intros [Hnd Hsch Hor Hcl Href Hed Hdoc Hmis Hcom] [R S (new & Hq & Hnn & Hnew) D C (more & Hi) E] Hdocs Hmiss.
  assert (in_closure i) as Hci by (apply Hcl, Hsch, elem_of_app; right; apply list_elem_of_here).
  assert (forall x, x ∈ rr_target <$> references_of i <-> exists r, r ∈ references_of i /\ x = rr_target r) as Htg.
  { intros x. rewrite list_elem_of_fmap. naive_solver. }
  split; cbn [sc_queue sc_scheduled sc_documents sc_edges sc_references sc_issues sc_complete].
  - rewrite Hq, <- app_assoc. cbn [app]. change (i :: B ++ sc_queue st ++ new) with ((i :: B) ++ sc_queue st ++ new). rewrite !app_assoc.
    apply NoDup_app. rewrite <- app_assoc. split; [exact Hnd|]. split; [|done]. intros x Hx [_ Hns]%Hnew. by apply Hns, Hsch.
  - intros x. rewrite S, elem_of_union, elem_of_list_to_set, Hq. specialize (Hsch x). specialize (Hnew x).
    repeat (rewrite elem_of_app in * || rewrite elem_of_cons in * || rewrite elem_of_nil in *).
    destruct (decide (x ∈ sc_scheduled st)); tauto.
  - intros x. rewrite S, elem_of_union, elem_of_list_to_set, Htg, Hor. setoid_rewrite elem_of_app. setoid_rewrite list_elem_of_singleton. split.
    + intros [[?|(j & r & Hj & Hr & ->)]|(r & Hr & ->)]; [by left|right; exists j, r; tauto|right; exists i, r; tauto].
    + intros [?|(j & r & [Hj| ->] & Hr & ->)]; [by left; left|left; right; by exists j, r|right; by exists r].
  - intros x. rewrite S, elem_of_union, elem_of_list_to_set, Htg. intros [?|(r & Hr & ->)]; [by apply Hcl|by apply (closure_reference i)].
  - rewrite R, Href, flat_map_app. cbn [flat_map]. by rewrite app_nil_r.
  - rewrite flat_map_app. cbn [flat_map]. rewrite app_nil_r. by apply E.
  - done.
  - intros j [Hj|Hj]%elem_of_app.
    + intros Hn Hni. destruct (Hmis j Hj Hn Hni) as [b Hb]. exists b. rewrite Hi. apply elem_of_app. by left.
    + apply list_elem_of_singleton in Hj as ->. done.
  - rewrite C, Hcom. by rewrite <- app_assoc.
Qed.

Lemma scan_eta st : st = mk_scan (sc_queue st) (sc_scheduled st) (sc_documents st) (sc_edges st) (sc_references st) (sc_omitted st)
    (sc_issues st) (sc_complete st).
Proof. by destruct st. Qed.
Lemma document_eta d : d = mk_document (doc_identity d) (doc_payload d).
Proof. by destruct d. Qed.

Context {HLaw : LawfulProvider document_of incomplete_of}.

Lemma document_fresh P i B st : scanned P (i :: B) st -> i ∉ doc_identity <$> omap document_at P.
Proof.
  intros Hs (d & Hd & (j & Hj & Hdj)%list_elem_of_omap)%list_elem_of_fmap. unfold document_at in Hdj.
  apply fmap_Some in Hdj as (payload & _ & ->). simpl in Hd. subst j. apply sn_distinct in Hs. apply NoDup_app in Hs as (_ & Hni & _).
  by apply (Hni i Hj), list_elem_of_here.
Qed.

(** One requested identity. *)
Lemma process_requested_outcome P i B st fetched incomplete : scanned P (i :: B) st ->
  doc_payload <$> fetched !! i = document_of i -> (forall d, fetched !! i = Some d -> doc_identity d = i) ->
  (i ∈ incomplete <-> incomplete_of i) ->
  outcome (fun acc => scanned (P ++ [i]) B acc.1 /\ forall x, x <> i -> acc.2 !! x = fetched !! x) scan_error
    (process_requested m root_set incomplete (st, fetched) i).
Proof using HLaw.
  intros Hs Hdoc Hid Hinc. unfold process_requested. destruct (fetched !! i) as [d|] eqn:Ef.
  - specialize (Hid d eq_refl). simpl in Hdoc. cbv zeta. rewrite Hid.
    set (extraction := extract_scope_closure_references _ _ _).
    assert (edges_of i = rx_edges extraction) as Hedges by (unfold edges_of; by rewrite <- Hdoc).
    eapply outcome_bind.
    { apply (process_edges_outcome i (ei_category i)); [|apply resolve_returns]. apply Forall_forall. intros e He.
      by apply (proj1 (extract_references_spec (document_key i) (ei_category i) (doc_payload d) false)). }
    intros st1 _ Hadv. unfold append_document.
    assert (advance (references_of i) (edge_lines_of i) st st1) as Hadv'.
    { unfold references_of, edge_lines_of. rewrite Hedges. by eapply (advance_trans [] [] _ _ st), Hadv; apply advance_extend. }
    eapply (outcome_bind scan_error (fun st' => scanned (P ++ [i]) B st')).
    { eapply outcome_bind.
      - eapply outcome_err_mono; [|apply (documents_append_outcome (omap document_at P) (sc_documents st1) d)].
        + intros e ->. apply resource_error. compute_done.
        + rewrite (ad_documents _ _ _ _ Hadv'). apply (sn_documents _ _ _ Hs).
        + rewrite Hid. by eapply document_fresh.
      - intros w _ Hw. apply (advance_scanned P i B st); [done|done| |by rewrite <- Hdoc].
        rewrite omap_app. cbn. unfold document_at at 2. rewrite <- Hdoc. cbn. by rewrite <- Hid, <- (document_eta d). }
    intros st2 _ Hs2. simpl. split; [done|]. intros x Hx. by apply lookup_delete_ne.
  - simpl in Hdoc.
    assert (references_of i = [] /\ edge_lines_of i = []) as [Er El] by (unfold references_of, edge_lines_of, edges_of; by rewrite <- Hdoc).
    assert (documents_hold (omap document_at (P ++ [i])) (sc_documents st)) as Hw.
    { rewrite omap_app. cbn. unfold document_at at 2. rewrite <- Hdoc. cbn. rewrite app_nil_r. apply (sn_documents _ _ _ Hs). }
    case_decide as Hin.
    + cbn [outcome fst snd]. split; [|done]. rewrite (scan_eta st). apply (advance_scanned P i B st); [done| |done|tauto].
      rewrite Er, El. apply advance_refl.
    + cbn [outcome fst snd]. split; [|done]. set (b := existsb _ _).
      apply (advance_scanned P i B st (push_scan_issue (missing_dataset_issue i b) st)); [done| |done|].
      * rewrite Er, El. apply advance_issue.
      * intros _ _. exists b. cbn [push_scan_issue sc_issues]. apply elem_of_app. right. apply list_elem_of_here.
Qed.

Lemma take_batch_scanned P st fetched : scanned P [] st -> fetch_exact (take FETCH_BATCH_SIZE (sc_queue st)) = Ok fetched ->
  scanned P (take FETCH_BATCH_SIZE (sc_queue st)) (take_batch fetched st).
Proof using HLaw.
  intros [Hnd Hsch Hor Hcl Href Hed Hdoc Hmis Hcom] Hf. set (n := FETCH_BATCH_SIZE) in *.
  split; cbn [take_batch sc_queue sc_scheduled sc_documents sc_edges sc_references sc_issues sc_complete]; try done.
  - rewrite take_drop. exact Hnd.
  - intros x. rewrite take_drop. apply Hsch.
  - intros i Hi Hn Hni. destruct (Hmis i Hi Hn Hni) as [b Hb]. exists b. apply elem_of_app. by left.
  - rewrite andb_true_iff, Hcom, bool_decide_eq_true, app_nil_r. setoid_rewrite elem_of_app. split.
    + intros [HPP He] i [Hi|Hi]; [by apply HPP|]. intros Hinc.
      assert (i ∈ pf_incomplete fetched) as Hin by (apply (fetch_incomplete _ _ i Hf); done). rewrite He in Hin. set_solver.
    + intros Hall. split; [intros i Hi; apply Hall; by left|]. apply set_eq. intros i. rewrite (fetch_incomplete _ _ i Hf), elem_of_empty.
      split; [|done]. intros [Hi Hinc]. apply (Hall i); [by right|done].
Qed.

Lemma process_batch_outcome P st : scanned P [] st ->
  outcome (scanned (P ++ take FETCH_BATCH_SIZE (sc_queue st)) []) scan_error (process_batch m root_set st).
Proof using HLaw.
  intros Hs. unfold process_batch. set (batch := take _ _).
  eapply (outcome_bind scan_error (fun fetched => fetch_exact batch = Ok fetched)).
  { pose proof (fetch_returns batch) as Hr. destruct (fetch_exact batch) eqn:E; [done| |done]. right. right. left. by exists batch. }
  intros fetched _ Hf. set (original := last_by_key doc_identity (pf_documents fetched)).
  assert (NoDup batch) as Hnb.
  { pose proof (sn_distinct _ _ _ Hs) as Hnd. apply NoDup_app in Hnd as (_ & _ & Hnd). cbn in Hnd. by eapply sublist_NoDup, sublist_take. }
  eapply (outcome_bind scan_error (fun acc => scanned (P ++ batch) [] acc.1)); [|by intros [st' ?] _ ?].
  eapply outcome_mono; [apply (outcome_foldM scan_error (fun pre acc => exists rest, batch = pre ++ rest /\ scanned (P ++ pre) rest acc.1
    /\ forall x, x ∈ rest -> acc.2 !! x = original !! x))|].
  - exists batch. rewrite app_nil_r. split; [done|]. split; [by apply take_batch_scanned|done].
  - intros pre i post [st' map] E (rest & E' & Hsc & Hmap). rewrite E' in E. apply app_inv_head in E as ->. simpl in Hsc, Hmap.
    assert (i ∈ batch) as Hib by (rewrite E'; apply elem_of_app; right; apply list_elem_of_here).
    eapply outcome_mono; [apply (process_requested_outcome (P ++ pre) i post); [done|..]|].
    + rewrite (Hmap i) by apply list_elem_of_here. by apply (fetch_document batch).
    + intros d. rewrite (Hmap i) by apply list_elem_of_here. intros Hd. by apply last_by_key_key in Hd as [? _].
    + rewrite (fetch_incomplete _ _ i Hf). tauto.
    + intros [st2 map2] _ [Hs2 Hm2]. exists post. split; [by rewrite <- app_assoc|]. rewrite app_assoc. split; [done|]. simpl in *.
      intros x Hx. assert (x <> i) as Hne; [|rewrite Hm2 by done; apply Hmap; by apply list_elem_of_further].
      intros ->. rewrite E' in Hnb. apply NoDup_app in Hnb as (_ & _ & Hnb). by apply NoDup_cons in Hnb as [? _].
  - intros [st' map] _ (rest & E & Hsc & _). assert (rest = []) as -> by (destruct rest; [done|apply (f_equal length) in E; rewrite length_app in E; simpl in E; lia]).
    done.
Qed.

(** ** The whole loop *)

Context (resident_bytes : string -> nat -> option Z) (budget_bytes : Z).

Lemma memory_outcome phase round : outcome (fun _ => True) scan_error
  (enforce_scope_closure_memory_budget resident_bytes budget_bytes phase round).
Proof.
  unfold enforce_scope_closure_memory_budget. destruct (resident_bytes _ _) as [r|]; [|done]. destruct (budget_bytes <? r); simpl; [|done].
  apply resource_error. compute_done.
Qed.

Lemma collect_loop_outcome (U : gset ExactDatasetIdentity) : (forall x, in_closure x -> x ∈ U) ->
  forall fuel round P st, scanned P [] st -> (size U <= fuel + length P)%nat ->
  outcome (fun st' => sc_queue st' = [] /\ exists P', scanned P' [] st') scan_error
    (collect_loop resident_bytes budget_bytes fuel round m root_set st).
Proof using HLaw.
  intros HU. induction fuel as [|fuel IH]; intros round P st Hs Hf.
  all: cbn [collect_loop]; destruct (sc_queue st) as [|q qs] eqn:Eq; [split; [done|by exists P]|].
  - assert (length (P ++ sc_queue st) <= size U)%nat as Hlen.
    { rewrite <- (size_list_to_set (C := gset ExactDatasetIdentity)) by exact (sn_distinct _ _ _ Hs). apply subseteq_size. intros x Hx%elem_of_list_to_set.
      by apply HU, (sn_closure _ _ _ Hs), (sn_scheduled _ _ _ Hs). }
    rewrite length_app, Eq in Hlen. simpl in Hlen. lia.
  - eapply outcome_bind; [apply memory_outcome|]. intros _ _ _. eapply (outcome_bind scan_error (fun _ => True)).
    { pose proof (checkpoint_returns (size (dw_records (sc_documents st))) (size (sc_scheduled st))) as Hr.
      destruct (checkpoint _ _) eqn:E; [done| |done]. right. left. by eexists _, _. }
    intros _ _ _. eapply outcome_bind; [by apply process_batch_outcome|]. intros st' _ Hs'. eapply IH; [exact Hs'|].
    rewrite length_app, length_take, Eq. simpl. lia.
Qed.

(** ** The result *)

Context (available : SpaceQuery -> Z) (canonical : Line -> result string Line).

(** [serde_json] writes strings and scalars without line breaks.  The sort of
    the edges reads every edge line again and writes it canonically; the edge
    lines of the closure are those that survive this. *)
Context (json_text_clean : forall v, clean_line (json_text v))
  (edges_back : forall i line, in_closure i -> line ∈ edge_lines_of i -> canonical line = Ok line).

Lemma clean_app a b : clean_line a -> clean_line b -> clean_line (a ++ b).
Proof. intros [? ?] [? ?]. split; by rewrite elem_of_app; intros [?|?]. Qed.
Lemma clean_char c : c <> line_feed -> c <> carriage_return -> clean_line [c].
Proof. intros ? ?. split; intros E%list_elem_of_singleton; congruence. Qed.
Lemma clean_commas items : Forall clean_line items -> clean_line (comma_separated items).
Proof.
  induction 1 as [|item items Hi Hall IH]; [split; apply not_elem_of_nil|]. destruct items as [|b items]; [done|].
  change (clean_line (item ++ [","%char] ++ comma_separated (b :: items))). apply clean_app; [done|]. apply clean_app; [|done]. by apply clean_char.
Qed.

Lemma canonical_clean v : clean_line (write_canonical_json v).
Proof using json_text_clean.
  induction v as [|b|n|str|items IH|entries IH] using value_induction; [apply json_text_clean..| |].
  - cbn [write_canonical_json]. apply clean_app; [by apply clean_char|]. apply clean_app; [|by apply clean_char]. apply clean_commas.
    by apply Forall_fmap.
  - cbn [write_canonical_json]. apply clean_app; [by apply clean_char|]. apply clean_app; [|by apply clean_char]. apply clean_commas.
    apply Forall_fmap. rewrite sort_by_perm. apply Forall_fmap. eapply Forall_impl; [exact IH|]. intros [k v] Hv. cbn [fst snd] in *.
    apply clean_app; [apply json_text_clean|]. apply clean_app; [by apply clean_char|done].
Qed.

Lemma edge_line_event i line : in_closure i -> line ∈ edge_lines_of i -> event_line canonical line.
Proof using json_text_clean edges_back.
  intros Hi Hl. pose proof (edges_back i line Hi Hl) as Hback. apply list_elem_of_fmap in Hl as (e & -> & _).
  split; [apply canonical_clean|]. split; [done|exact Hback].
Qed.

Lemma graph_outcome references roots :
  outcome (fun g => from_references references roots = Ok g) (fun e => e = try_from_int_error) (from_references references roots).
Proof.
  destruct (Z.le_gt_cases (Z.of_nat (length (graph_identities references roots))) (U32_MAX + 1)) as [Hs|Hs].
  - destruct (from_references_ok references roots Hs) as (g & -> & _). done.
  - unfold from_references. cbv zeta. destruct (numbered_err _ Hs) as [e He]. rewrite He. cbn.
    unfold numbered in He. clear Hs. revert He. generalize (zip (seq 0 (length (graph_identities references roots))) (graph_identities references roots)).
    intros l. induction l as [|[k x] l IH]; cbn [mapR]; [done|]. unfold u32_of_usize at 1. destruct (_ <=? _); cbn [mbind result_bind]; [|congruence].
    destruct (mapR _ l) eqn:El; [done| |done]. intros [= ->]. by apply IH.
Qed.

Lemma append_lines_outcome lines : outcome (edges_hold lines) (fun e => e ∈ resource_errors) (foldM append_canonical_bytes lines spool_writer_new).
Proof.
  apply (outcome_foldM _ edges_hold); [done|]. intros pre l post w _ Hw. eapply outcome_mono; [apply append_line_outcome|]. intros w' _ Hw'. by apply Hw'.
Qed.

Lemma attach_keys issues references : ci_key <$> attach_reference_occurrences issues references = ci_key <$> issues.
Proof.
  unfold attach_reference_occurrences. rewrite <- list_fmap_compose. apply list_fmap_ext. intros k i _. cbn. unfold attach_occurrences.
  destruct (issue_target i); [|done]. by destruct (normalize_occurrences _).
Qed.

Lemma affected_key g ids i o : affected_issue g ids i o -> ci_key o = ci_key i.
Proof.
  unfold affected_issue. destruct (ci_source i); [destruct (g_ids g !! _); [intros (a & _ & ->)|intros ->]|intros ->]; done.
Qed.

Lemma final_keys issues references g roots out key :
  compute_affected_roots_batch (coalesce_issues (attach_reference_occurrences issues references)) roots g = Ok out ->
  Forall2 (affected_issue g (omap (fun root => g_ids g !! root) roots)) (coalesce_issues (attach_reference_occurrences issues references)) out ->
  key ∈ ci_key <$> issues -> exists i, i ∈ sort_by issue_key_cmp out /\ ci_key i = key.
Proof.
  intros _ HF Hk. rewrite <- (attach_keys issues references) in Hk. apply list_elem_of_fmap in Hk as (j & -> & Hj).
  destruct (proj2 (proj1 (proj2 (coalesce_issues_spec (attach_reference_occurrences issues references))) (ci_key j))) as (i & Hi & <-); [by exists j|].
  apply list_elem_of_lookup in Hi as [k Hi]. destruct (Forall2_lookup_l _ _ _ _ _ HF Hi) as (o & Ho & Ha).
  exists o. rewrite sort_by_perm. split; [by eapply list_elem_of_lookup_2|by eapply affected_key].
Qed.

(** What the finished scan says about the closure. *)
Record exact_scan (scan : ScopeClosureScan) : Prop := {
  ex_universe : StronglySorted identity_lt (cs_provider_universe scan) /\ (forall i, i ∈ cs_provider_universe scan <-> in_closure i)
    /\ cs_frontier scan = [];
  ex_documents : exists visited, documents_visit (cs_documents scan) = Ok visited
    /\ forall i b, (i, b) ∈ visited <-> in_closure i /\ exists payload, document_of i = Some payload
         /\ b = write_canonical_json (document_json (mk_document i payload));
  ex_references : exists references, from_references references (manifest_roots m) = Ok (cs_graph scan)
    /\ StronglySorted (fun a b => not_gt reference_cmp a b = true) references
    /\ (forall r, r ∈ references <-> in_closure (rr_source r) /\ r ∈ references_of (rr_source r))
    /\ sp_file (cs_references scan) = file_of_lines ((fun r => write_canonical_json (resolved_json r)) <$> references);
  ex_edges : sp_file (cs_edges scan) = file_of_lines (sort_by line_cmp (flat_map edge_lines_of (cs_provider_universe scan)));
  ex_missing : forall i, in_closure i -> document_of i = None -> ~ incomplete_of i ->
    exists issue explicit, issue ∈ cs_issues scan /\ ci_key issue = ci_key (missing_dataset_issue i explicit);
  ex_complete : cs_complete scan = true <-> forall i, in_closure i -> ~ incomplete_of i;
}.

Lemma reference_source i r : r ∈ references_of i -> rr_source r = i.
Proof.
  unfold references_of. intros (e & _ & Hf)%list_elem_of_omap. unfold follow in Hf. destruct (parse_category _); [|done..].
  destruct (edge_target _ _ _) as [[[t|] ?]| |]; [|done..]. destruct (outside_universe _ _ _ _); [done|]. by injection Hf as <-.
Qed.

(** When the queue is empty the processed identities are the closure. *)
Lemma finished_closure P st : scanned P [] st -> sc_queue st = [] ->
  (forall x, x ∈ P <-> in_closure x) /\ (forall x, x ∈ sc_scheduled st <-> in_closure x) /\ P ≡ₚ ascending (sc_scheduled st).
Proof.
  intros [Hnd Hsch Hor Hcl _ _ _ _ _] Hq. rewrite Hq in *. cbn in *. rewrite app_nil_r in *.
  assert (forall x, in_closure x -> x ∈ sc_scheduled st) as Hin.
  { intros x Hx. induction Hx as [x Hx|i r _ IH Hr]; [apply Hor; by left|]. apply Hor. right. exists i, r. split; [|done]. by apply Hsch. }
  split; [|split].
  - intros x. split; [intros Hx; apply Hcl; by apply Hsch|intros Hx; by apply Hsch, Hin].
  - intros x. split; [apply Hcl|apply Hin].
  - apply NoDup_Permutation; [done|apply lt_sorted_NoDup, ascending_sorted|]. intros x. by rewrite elem_of_ascending, Hsch.
Qed.

Lemma sort_edges_outcome lines w : edges_hold lines w -> Forall (event_line canonical) lines ->
  outcome (fun out => sp_file out = file_of_lines (sort_by line_cmp lines)) scan_error
    (sort_jsonl_spool_with_run_bytes available canonical VALIDATION_SORT_RUN_BYTES (spool_finish w)).
Proof using Type.
  intros -> Hls. eapply outcome_mono; [eapply outcome_err_mono; [|by apply sort_jsonl_spool_exact]|].
  - intros e [He _]. apply resource_error. unfold sort_errors, spool_errors in He. unfold resource_errors. clear -He. set_solver.
  - by intros out _ ->.
Qed.

Lemma finalize_outcome P st : scanned P [] st -> sc_queue st = [] ->
  outcome exact_scan scan_error (finalize_scope_closure_scan available canonical (manifest_roots m) st).
Proof using json_text_clean edges_back.
  intros Hs Hq. destruct (finished_closure P st Hs Hq) as (HPcl & Hscl & Hperm). unfold finalize_scope_closure_scan.
  eapply outcome_bind; [apply (sort_edges_outcome (flat_map edge_lines_of P)); [apply (sn_edges _ _ _ Hs)|]|].
  { apply Forall_forall. intros l (i & Hi & Hl)%elem_of_flat_map. apply (edge_line_event i); [by apply HPcl|exact Hl]. }
  intros edges _ Hedges. cbv zeta. set (references := sort_by reference_cmp (sc_references st)).
  eapply outcome_bind; [eapply outcome_err_mono; [|apply graph_outcome]; intros e ->; apply resource_error; compute_done|].
  intros g _ Hg. destruct (compute_affected_batch references (manifest_roots m) g
    (coalesce_issues (attach_reference_occurrences (sc_issues st) references)) (manifest_roots m) Hg) as (out & Hout & HF).
  rewrite Hout. cbn [mbind result_bind].
  eapply outcome_bind; [eapply outcome_err_mono; [|apply append_lines_outcome]; apply resource_error|]. intros w _ ->.
  split; cbn [cs_provider_universe cs_frontier cs_documents cs_graph cs_references cs_edges cs_issues cs_complete spool_finish sp_file sw_file].
  - split; [apply ascending_sorted|]. split; [|done]. intros i. by rewrite elem_of_ascending.
  - destruct (documents_visit_back _ _ (sn_documents _ _ _ Hs)) as (visited & Hv & _ & Hvis). exists visited. split; [done|].
    intros i b. rewrite Hvis. split.
    + intros (d & (j & Hj & Hd)%list_elem_of_omap & -> & ->). unfold document_at in Hd. apply fmap_Some in Hd as (payload & Hp & ->). cbn.
      split; [by apply HPcl|]. by exists payload.
    + intros (Hi & payload & Hp & ->). exists (mk_document i payload). split; [|done]. apply list_elem_of_omap. exists i. split; [by apply HPcl|].
      unfold document_at. by rewrite Hp.
  - exists references. split; [done|]. split; [apply sort_by_sorted', _|]. split; [|done]. intros r. subst references.
    rewrite sort_by_perm, (sn_references _ _ _ Hs), elem_of_flat_map. split.
    + intros (i & Hi & Hr). rewrite (reference_source i r Hr). split; [by apply HPcl|done].
    + intros [Hi Hr]. exists (rr_source r). split; [by apply HPcl|done].
  - rewrite Hedges. f_equal. apply sort_by_unique; [apply _|apply strict_lines| |apply sort_by_sorted', _].
    rewrite sort_by_perm. clear -Hperm. by rewrite Hperm.
  - intros i Hi Hn Hni. apply HPcl in Hi. destruct (sn_missing _ _ _ Hs i Hi Hn Hni) as [b Hb].
    destruct (final_keys (sc_issues st) references g (manifest_roots m) out (ci_key (missing_dataset_issue i b)) Hout HF) as (issue & His & Hk).
    + apply list_elem_of_fmap. by exists (missing_dataset_issue i b).
    + by exists issue, b.
  - rewrite (sn_complete _ _ _ Hs), app_nil_r. by setoid_rewrite HPcl.
Qed.
End Closure.



(** For a source with finitely many documents there is such a set: the roots and
    what the documents refer to. *)
Lemma closure_finite `{HL : ClosureLib, HP : ScopeClosureProvider} m document_of (D : list ExactDatasetIdentity) :
  (forall i, is_Some (document_of i) -> i ∈ D) ->
  forall x, in_closure m document_of x ->
    x ∈ (list_to_set (manifest_roots m ++ (rr_target <$> flat_map (references_of m document_of) D)) : gset ExactDatasetIdentity).
Proof.
  intros HD x Hx. apply elem_of_list_to_set, elem_of_app. destruct Hx as [x Hx|i r _ Hr]; [by left|right].
  apply list_elem_of_fmap. exists r. split; [done|]. apply elem_of_flat_map. exists i. split; [|done]. apply HD.
  unfold references_of, edges_of in Hr. destruct (document_of i); [by eexists|]. cbn in Hr. by apply elem_of_nil in Hr.
Qed.

(** A process that refers to a flow neither the snapshot nor the tables hold. *)
Module Sample.
Definition lib : ClosureLib := {|
  uuid_text := fun _ => "u";
  uuid_parse_str := fun s => if decide (s = "eight") then Some 8 else None;
  sha256_hex := fun _ => "h";
  json_text := fun _ => ["x"%char];
|}.
Definition root : ExactDatasetIdentity := mk_identity Processes 7 "01.00.000".
Definition flow : ExactDatasetIdentity := mk_identity Flows 8 "01.00.000".
Definition payload : Value :=
  JObject [("referenceToFlow", JObject [("@refObjectId", JString "eight"); ("@type", JString "flow data set"); ("@version", JString "01.00")])].
Definition table (i : ExactDatasetIdentity) : option Value := if decide (i = root) then Some payload else None.
Definition read (ids : list ExactDatasetIdentity) : result string (list ClosureDocument) :=
  Ok (omap (fun i => mk_document i <$> table i) ids).
Definition universe : gmap ExactDatasetIdentity SnapshotDatasetEntry :=
  {[root := mk_entry Processes 7 "01.00.000" "unit_process" None None "h" "h" "h"]}.
Definition provider : ScopeClosureProvider := PgScopeClosureProvider (H := lib) (fun _ _ => Ok tt) read universe.
(** A reader that gives the edge lines of the root back and refuses all others. *)
Definition reread (line : Line) : result string Line :=
  if decide (line ∈ edge_lines_of (HL := lib) (frozen_payload (H := lib) universe table) root) then Ok line else Err "JSON error".
Definition scan : result string ScopeClosureScan :=
  collect_scope_closure (H := lib) (H0 := provider) (fun _ _ => None) 0 (fun _ => U64_MAX) reread 2 sample_scope.

Lemma lawful : LawfulProvider (H := provider) (frozen_payload (H := lib) universe table) (frozen_incomplete (H := lib) universe table).
Proof.
  apply pg_provider_lawful; [done|done|]. intros ids ds i [= <-] Hi. rewrite last_by_key_spec.
  destruct (last _) as [d|] eqn:El.
  - apply last_Some_elem_of, list_elem_of_filter in El as [Hd (j & Hj & Hdj)%list_elem_of_omap].
    apply fmap_Some in Hdj as (p & Hp & ->). cbn in *. by subst.
  - apply last_None in El. destruct (table i) as [p|] eqn:Ep; [|done]. exfalso.
    assert (mk_document i p ∈ @nil ClosureDocument) as Hin; [|by apply elem_of_nil in Hin].
    rewrite <- El. apply list_elem_of_filter. split; [done|]. apply list_elem_of_omap. exists i. by rewrite Ep.
Qed.

Lemma closed x : in_closure (HL := lib) (HP := provider) sample_scope (frozen_payload (H := lib) universe table) x ->
  x ∈ ({[root; flow]} : gset ExactDatasetIdentity).
Proof.
  intros Hx. apply closure_finite with (D := [root]) in Hx.
  - revert x Hx. apply elem_of_subseteq. by vm_compute.
  - intros i [p Hp]. unfold frozen_payload, universe in Hp. destruct (decide (i = root)) as [->|Hne]; [apply list_elem_of_here|].
    by rewrite lookup_singleton_ne in Hp by done.
Qed.
Lemma reread_edges i line : in_closure (HL := lib) (HP := provider) sample_scope (frozen_payload (H := lib) universe table) i ->
  line ∈ edge_lines_of (HL := lib) (frozen_payload (H := lib) universe table) i -> reread line = Ok line.
Proof.
  intros [->%elem_of_singleton| ->%elem_of_singleton]%closed%elem_of_union Hl.
  - unfold reread. by rewrite decide_True.
  - exfalso. by apply elem_of_nil in Hl.
Qed.
End Sample.


(** Whether a missing dataset counts as explicitly requested is decided when it
    is reached, from the references resolved by then: a missing root that a
    later root refers to by an explicit version is reported as a plain missing
    target. *)
Module LateReference.
Definition lib : ClosureLib := {|
  uuid_text := fun _ => "u";
  uuid_parse_str := fun s => if decide (s = "seven") then Some 7 else None;
  sha256_hex := fun _ => "h";
  json_text := fun _ => ["x"%char];
|}.
Definition missing : ExactDatasetIdentity := mk_identity Processes 7 "01.00.000".
Definition referrer : ExactDatasetIdentity := mk_identity Processes 9 "01.00.000".
Definition scope : RequestedScopeManifest :=
  mk_manifest "v1" "full" "v1" [mk_requested 7 "01.00.000"; mk_requested 9 "01.00.000"] [] "reference-version-resolution-v1" "reject" "strict"
    sample_policy None.
Definition payload : Value :=
  JObject [("referenceToX", JObject [("@refObjectId", JString "seven"); ("@type", JString "process data set"); ("@version", JString "01.00.000")])].
Definition provider : ScopeClosureProvider :=
  PgScopeClosureProvider (H := lib) (fun _ _ => Ok tt)
    (fun ids => Ok (omap (fun i => if decide (i = referrer) then Some (mk_document i payload) else None) ids))
    {[referrer := mk_entry Processes 9 "01.00.000" "unit_process" None None "h" "h" "h"]}.
End LateReference.

Lemma late_explicit_reference :
  exists st, collect_loop (H := LateReference.lib) (H0 := LateReference.provider) (fun _ _ => None) 0 1 0 LateReference.scope
      (list_to_set (manifest_roots LateReference.scope)) (scan_start (manifest_roots LateReference.scope)) = Ok st
    /\ ((fun r => (rr_target r, rr_version_state r)) <$> sc_references st) = [(LateReference.missing, "explicit")]
    /\ ((fun i => (ci_source i, ci_code i)) <$> sc_issues st) = [(Some LateReference.missing, "reference_target_missing")].
Proof. eexists. split; [by vm_compute|]. split; by vm_compute. Qed.
