(* ===== verification/IssueMerge.v ===== *)
(** * Merging the issue stream

    [CoalescedIssueState], [load_source_reachability],
    [finalize_coalesced_issue] and the pass over the sorted merge records
    (scope_closure.rs): records of the same issue key follow each other; their
    sources and occurrences are merged into one issue, its affected roots are
    computed from one or several sources, a root-impact record is written for
    it, and its line - the key, the issue and its partition record - goes to the
    run writer of the canonical issues.  The reachability of the last source is
    kept across issues. *)

From S2P Require Import Prelude Text Json DataBuilder Identity References RefGraph BinarySearch Wire Issues ExternalSort.

Local Open Scope string_scope.
Local Open Scope Z_scope.
Local Open Scope list_scope.

Definition ISSUE_INLINE_OCCURRENCE_SAMPLE_LIMIT : nat := 100.

(** ** Data *)

Record MergeRecord := mk_merge_record {
  mr_source_key : string;
  mr_issue : ClosureIssue;
  mr_occurrence : option ClosureIssueOccurrence;
}.
Record SourceReachability := mk_reach {
  sv_source_key : option string;
  sv_node : option Z;
  sv_visited : list bool;
  sv_parent : list (option Z);
  sv_affected : list Z;
  sv_mode : option RootImpactMode;
  sv_encoded : list Z;
}.
Record CoalescedIssueState := mk_pending {
  pe_source_key : string;
  pe_last_source_key : string;
  pe_source_count : Z;
  pe_root_union : list bool;
  pe_root_witnesses : list (Z * list ExactDatasetIdentity);
  pe_issue : ClosureIssue;
  pe_last_occurrence_key : option string;
}.
Record RootImpactReference := mk_impact_reference {
  ri_mode : RootImpactMode;
  ri_impact_key : option string;
  ri_source_node : option Z;
  ri_evidence_schema_version : string;
}.
Record IssueRelationStats := mk_stats {
  rs_issue_count : Z;
  rs_blocker_count : Z;
  rs_occurrence_count : Z;
  rs_affected_root_count : Z;
  rs_blocker_codes : gset string;
}.

Definition no_reachability : SourceReachability := mk_reach None None [] [] [] None [].
Definition no_stats : IssueRelationStats := mk_stats 0 0 0 0 ∅.

(** ** The merge records of an issue *)

Section Records.
Context `{ClosureLib}.

Definition issue_source_sort_key (source : option ExactDatasetIdentity) : string :=
  match source with Some s => canonical_json_sha256 (identity_json s) | None => "" end.
(** [occurrences] taken out, its count reset. *)
Definition bare (i : ClosureIssue) : ClosureIssue := with_occurrences [] i.
Definition issue_merge_records (i : ClosureIssue) : list MergeRecord :=
  let source_key := issue_source_sort_key (ci_source i) in
  match ci_occurrences i with
  | [] => [mk_merge_record source_key (bare i) None]
  | occurrences => (fun o => mk_merge_record source_key (bare i) (Some o)) <$> occurrences
  end.

(** ** The line of a finished issue *)

Definition json_str (s : option string) : Value := json_opt (JString <$> s).
Definition json_nat (n : Z) : Value := JNumber (PosInt n).
Definition identities_json (l : list ExactDatasetIdentity) : Value := JArray (identity_json <$> l).

(** The serialized occurrence, issue and root-impact reference; the last leaves
    out the fields that are absent. *)
Definition occurrence_json (o : ClosureIssueOccurrence) : Value :=
  json_object [("occurrenceKey", JString (oc_key o)); ("source", json_opt (identity_json <$> oc_source o));
    ("jsonPath", json_str (oc_json_path o)); ("referenceRole", json_str (oc_role o)); ("details", oc_details o)].
Definition issue_json (i : ClosureIssue) : Value :=
  json_object [("issueKey", JString (ci_key i)); ("severity", JString (ci_severity i)); ("blocking", JBool (ci_blocking i));
    ("issueCode", JString (ci_code i)); ("source", json_opt (identity_json <$> ci_source i));
    ("jsonPath", json_str (ci_json_path i)); ("referenceRole", json_str (ci_role i));
    ("requestedTargetType", json_str (ci_target_type i)); ("requestedTargetId", json_str (uuid_text <$> ci_target_id i));
    ("requestedTargetVersion", json_str (ci_target_version i)); ("message", JString (ci_message i));
    ("suggestedAction", json_str (ci_action i)); ("occurrenceCount", json_nat (ci_occurrence_count i));
    ("occurrences", JArray (occurrence_json <$> ci_occurrences i)); ("affectedRootCount", json_nat (ci_affected_count i));
    ("affectedRoots", identities_json (ci_affected_roots i));
    ("affectedRootWitnessPaths", JArray (identities_json <$> ci_witness_paths i));
    ("witnessPath", identities_json (ci_witness_path i))].
Definition mode_name (m : RootImpactMode) : string :=
  match m with
  | ModeNone => "none" | AllRoots => "all_roots" | IncludedOrdinals => "included_ordinals" | ExcludedOrdinals => "excluded_ordinals"
  end.
Definition root_impact_json (r : RootImpactReference) : Value :=
  json_object ([("mode", JString (mode_name (ri_mode r)))]
    ++ match ri_impact_key r with Some key => [("impactKey", JString key)] | None => [] end
    ++ match ri_source_node r with Some node => [("sourceNodeOrdinal", json_nat node)] | None => [] end
    ++ [("evidenceSchemaVersion", JString (ri_evidence_schema_version r))]).

(** A sampled root with its ordinal; a root without a path of its own gets the
    issue's. *)
Definition affected_root_sample (roots : StableRootOrdinals) (i : ClosureIssue) (ix : nat * ExactDatasetIdentity) : result string Value :=
  root_ordinal ← ok_or "issue sample references an unknown root" (sr_ordinals roots !! ix.2);
  Ok (json_object [("rootOrdinal", json_nat root_ordinal); ("root", identity_json ix.2);
        ("witnessPath", identities_json (default (ci_witness_path i) (ci_witness_paths i !! ix.1)))]).

Definition issue_partition_record_v3 (i : ClosureIssue) (root_impact : RootImpactReference) (roots : StableRootOrdinals)
    : result string Value :=
  let occurrence_samples := take ISSUE_INLINE_OCCURRENCE_SAMPLE_LIMIT (ci_occurrences i) in
  affected_root_samples ← mapR (affected_root_sample roots i)
    (take ISSUE_INLINE_AFFECTED_ROOT_SAMPLE_LIMIT (zip (seq 0 (length (ci_affected_roots i))) (ci_affected_roots i)));
  Ok (json_object [("schemaVersion", JString "lcia.scope-closure-issue.v3"); ("issueKey", JString (ci_key i));
    ("severity", JString (ci_severity i)); ("blocker", JBool (ci_blocking i)); ("code", JString (ci_code i));
    ("source", json_opt (identity_json <$> ci_source i)); ("path", json_str (ci_json_path i));
    ("referenceRole", json_str (ci_role i)); ("requestedTargetType", json_str (ci_target_type i));
    ("requestedTargetId", json_str (uuid_text <$> ci_target_id i)); ("requestedTargetVersion", json_str (ci_target_version i));
    ("message", JString (ci_message i)); ("suggestedAction", json_str (ci_action i));
    ("occurrenceCount", json_nat (ci_occurrence_count i)); ("affectedRootCount", json_nat (ci_affected_count i));
    ("rootImpact", root_impact_json root_impact); ("occurrenceSamples", JArray (occurrence_json <$> occurrence_samples));
    ("occurrenceSamplesTruncated", JBool (Z.of_nat (length occurrence_samples) <? ci_occurrence_count i));
    ("affectedRootSamples", JArray affected_root_samples);
    ("affectedRootSamplesTruncated", JBool (Z.of_nat (length affected_root_samples) <? ci_affected_count i))]).

(** ** The merge records as values *)

(** [append_issue_merge_records]: an array per record, sorted by issue key,
    source key and occurrence key. *)
Definition merge_record_json (r : MergeRecord) : Value :=
  JArray [JString (ci_key (mr_issue r)); JString (mr_source_key r);
    JString (match mr_occurrence r with Some o => oc_key o | None => "" end); issue_json (mr_issue r);
    json_opt (occurrence_json <$> mr_occurrence r)].
Definition append_issue_merge_records (available : SpaceQuery -> Z) (w : SortedJsonlRunWriter) (i : ClosureIssue)
    : result string SortedJsonlRunWriter :=
  foldM (fun w r => run_append available w (write_canonical_json (merge_record_json r))) (issue_merge_records i) w.

Definition serde_error : string := "serde_json error".
(** [issue_merge_record]; [decode_issue] and [decode_occurrence] are the derived
    deserializers. *)
Definition issue_merge_record (decode_issue : Value -> option ClosureIssue) (decode_occurrence : Value -> option ClosureIssueOccurrence)
    (v : Value) : result string MergeRecord :=
  fields ← ok_or "issue merge record must be an array" (match v with JArray fields => Some fields | _ => None end);
  match fields with
  | [_; source_key; _; issue; occurrence] =>
      occurrence ← match occurrence with
                   | JNull => Ok None
                   | v => o ← ok_or serde_error (decode_occurrence v); Ok (Some o)
                   end;
      issue ← ok_or serde_error (decode_issue issue);
      source_key ← ok_or "issue merge record source key must be text" (as_str source_key);
      Ok (mk_merge_record source_key issue occurrence)
  | _ => Err "issue merge record field count mismatch"
  end.

(** The value appended to the canonical issues. *)
Definition canonical_issue (i : ClosureIssue) (partition_record : Value) : Value :=
  JArray [JString (ci_key i); issue_json i; partition_record].
End Records.

(** ** Reachability of a source *)

Section Merge.
Context `{EvidenceSink, ClosureLib}.
(** The cancellation token, polled at every 4096th visited node and every
    4096th record, where the memory budget is read too; the free temporary
    space, asked for before a run is written. *)
Context (cancelled : string -> nat -> bool) (within_budget : nat -> bool) (available : SpaceQuery -> Z)
  (decode_issue : Value -> option ClosureIssue) (decode_occurrence : Value -> option ClosureIssueOccurrence) (g : CompactReferenceGraph) (roots : StableRootOrdinals).

(** [Vec<bool>] positions that hold, as ordinals. *)
Definition set_ordinals (bits : list bool) : list Z :=
  omap (fun ix : nat * bool => if ix.2 then Some (Z.of_nat ix.1) else None) (zip (seq 0 (length bits)) bits).

(** The roots whose node is visited, by ordinal. *)
Definition affected_ordinal (visited : list bool) (acc : list Z) (ix : nat * Z) : result string (list Z) :=
  seen ← expect (at_ordinal visited ix.2);
  if seen : bool then n ← u32_of_usize try_from_int_error ix.1; Ok (acc ++ [n]) else Ok acc.

Definition load_source_reachability (cache : SourceReachability) (source_key : string) (source : option ExactDatasetIdentity)
    : result string SourceReachability :=
  if decide (sv_source_key cache = Some source_key) then Ok cache
  else match source ≫= (fun s => g_ids g !! s) with
  | None => Ok (mk_reach (Some source_key) None [] [] [] None [])
  | Some source_id =>
      st ← search_start (length (g_identities g)) source_id;
      st ← search (length (g_identities g)) (g_reverse g) st;
      let visited_nodes := length (set_ordinals (visited st)) in
      _ ← ensure (negb (existsb (fun k => (k mod 4096 =? 0)%nat && cancelled "scope_closure_root_impact" k) (seq 1 visited_nodes)))
            "cancelled: scope_closure_root_impact";
      affected ← foldM (affected_ordinal (visited st)) (zip (seq 0 (length (sr_graph_nodes roots))) (sr_graph_nodes roots)) [];
      '(mode, encoded) ← compact_root_impact_encoding affected (length (sr_roots roots));
      Ok (mk_reach (Some source_key) (Some source_id) (visited st) (parent st) affected (Some mode) encoded)
  end.

(** ** Merging the sources of an issue *)

Definition pending_new (source_key : string) (i : ClosureIssue) : CoalescedIssueState :=
  mk_pending source_key source_key 0 [] [] (with_occurrences [] i) None.

(** One affected root ordinal joins the union; the first hundred also get a
    witness.  The witnesses are a map from ordinals, in ascending order. *)
Fixpoint insert_witness (ordinal : Z) (w : list ExactDatasetIdentity) (l : list (Z * list ExactDatasetIdentity))
    : list (Z * list ExactDatasetIdentity) :=
  match l with
  | [] => [(ordinal, w)]
  | (o, w') :: rest => if ordinal <? o then (ordinal, w) :: l else (o, w') :: insert_witness ordinal w rest
  end.
Definition merge_root (reach : SourceReachability) (acc : list bool * list (Z * list ExactDatasetIdentity)) (ordinal : Z)
    : result string (list bool * list (Z * list ExactDatasetIdentity)) :=
  let '(root_union, witnesses) := acc in
  _ ← expect (at_ordinal root_union ordinal);
  let root_union := <[Z.to_nat ordinal := true]> root_union in
  if ((length witnesses <? ISSUE_INLINE_AFFECTED_ROOT_SAMPLE_LIMIT)%nat && negb (bool_decide (ordinal ∈ witnesses.*1))) : bool then
    node ← expect (at_ordinal (sr_graph_nodes roots) ordinal);
    witness ← reconstruct_witness_path node (sv_parent reach) (g_identities g);
    Ok (root_union, insert_witness ordinal witness witnesses)
  else Ok (root_union, witnesses).
Definition merge_reachability (reach : SourceReachability) (p : CoalescedIssueState) : result string CoalescedIssueState :=
  let root_union := match pe_root_union p with [] => replicate (length (sr_roots roots)) false | u => u end in
  '(root_union, witnesses) ← foldM (merge_root reach) (sv_affected reach) (root_union, pe_root_witnesses p);
  Ok (mk_pending (pe_source_key p) (pe_last_source_key p) (pe_source_count p) root_union witnesses (pe_issue p)
        (pe_last_occurrence_key p)).

(** Field updates. *)
Definition with_last_source (key : string) (count : Z) (p : CoalescedIssueState) : CoalescedIssueState :=
  mk_pending (pe_source_key p) key count (pe_root_union p) (pe_root_witnesses p) (pe_issue p) (pe_last_occurrence_key p).
Definition without_source (p : CoalescedIssueState) : CoalescedIssueState :=
  let i := pe_issue p in
  mk_pending (pe_source_key p) (pe_last_source_key p) (pe_source_count p) (pe_root_union p) (pe_root_witnesses p)
    (mk_issue (ci_key i) (ci_severity i) (ci_blocking i) (ci_code i) None None None (ci_target_type i) (ci_target_id i)
       (ci_target_version i) (ci_message i) (ci_action i) (ci_occurrence_count i) (ci_occurrences i) (ci_affected_count i)
       (ci_affected_roots i) (ci_witness_paths i) (ci_witness_path i))
    (pe_last_occurrence_key p).

Definition observe_source (source_key : string) (source : option ExactDatasetIdentity) (reach : SourceReachability)
    (p : CoalescedIssueState) : result string (SourceReachability * CoalescedIssueState) :=
  if pe_source_count p =? 0 then Ok (reach, with_last_source source_key 1 p)
  else if decide (pe_last_source_key p = source_key) then Ok (reach, p)
  else
    '(reach, p) ← (if pe_source_count p =? 1 then
                     reach ← load_source_reachability reach (pe_source_key p) (ci_source (pe_issue p));
                     p ← merge_reachability reach p;
                     Ok (reach, p)
                   else Ok (reach, p));
    let p := with_last_source source_key (saturating_add (pe_source_count p) 1) p in
    reach ← load_source_reachability reach source_key source;
    p ← merge_reachability reach p;
    Ok (reach, without_source p).

Definition push_occurrence (o : option ClosureIssueOccurrence) (p : CoalescedIssueState) (stats : IssueRelationStats)
    : CoalescedIssueState * IssueRelationStats :=
  match o with
  | None => (p, stats)
  | Some occurrence =>
      if decide (pe_last_occurrence_key p = Some (oc_key occurrence)) then (p, stats)
      else
        let i := pe_issue p in
        let occurrences := if (length (ci_occurrences i) <? ISSUE_INLINE_OCCURRENCE_SAMPLE_LIMIT)%nat
                           then ci_occurrences i ++ [occurrence] else ci_occurrences i in
        (mk_pending (pe_source_key p) (pe_last_source_key p) (pe_source_count p) (pe_root_union p) (pe_root_witnesses p)
           (mk_issue (ci_key i) (ci_severity i) (ci_blocking i) (ci_code i) (ci_source i) (ci_json_path i) (ci_role i)
              (ci_target_type i) (ci_target_id i) (ci_target_version i) (ci_message i) (ci_action i)
              (Z.min (ci_occurrence_count i + 1) U32_MAX) occurrences (ci_affected_count i)
              (ci_affected_roots i) (ci_witness_paths i) (ci_witness_path i))
           (Some (oc_key occurrence)),
         mk_stats (rs_issue_count stats) (rs_blocker_count stats) (saturating_add (rs_occurrence_count stats) 1)
           (rs_affected_root_count stats) (rs_blocker_codes stats))
  end.

(** ** The finished issue *)

Definition IMPACT_SCHEMA : string := "lcia.scope-closure-root-impact-index.v1".
Definition impact_key_of (i : ClosureIssue) : string := "issue:" +:+ ci_key i.

(** The impact record of roots given as ordinals. *)
Definition write_root_impact (index : RootImpactIndexWriter) (key : string) (node : option Z) (mode : RootImpactMode)
    (included : nat) (encoded : list Z) : result string RootImpactIndexWriter :=
  n ← u32_of_usize try_from_int_error included;
  index_append index (mk_impact key 2 node mode n encoded).

(** The affected roots a source-less issue brings with it. *)
Definition sourceless_ordinals (i : ClosureIssue) : result string (list Z) :=
  let expected_count := Z.to_nat (ci_affected_count i) in
  if (expected_count =? length (sr_roots roots))%nat then
    n ← u32_of_usize try_from_int_error (length (sr_roots roots));
    Ok (Z.of_nat <$> seq 0 (length (sr_roots roots)))
  else
    _ ← ensure (expected_count =? length (ci_affected_roots i))%nat
          ("source-less issue " +:+ ci_key i +:+ " has incomplete affected-root evidence");
    ordinals ← mapR (fun root => ok_or ("source-less issue " +:+ ci_key i +:+ " references an unknown root") (sr_ordinals roots !! root))
                 (ci_affected_roots i);
    let ordinals := dedup (sort_by Z.compare ordinals) in
    _ ← ensure (length ordinals =? expected_count)%nat
          ("source-less issue " +:+ ci_key i +:+ " affected-root identities are not unique");
    Ok ordinals.

Definition root_impact_of (p : CoalescedIssueState) (reach : SourceReachability) (index : RootImpactIndexWriter)
    : result string (RootImpactReference * SourceReachability * RootImpactIndexWriter) :=
  let i := pe_issue p in
  if (pe_source_count p <=? 1) && bool_decide (is_Some (ci_source i)) then
    reach ← load_source_reachability reach (pe_source_key p) (ci_source i);
    mode ← ok_or "source impact omitted compact encoding" (sv_mode reach);
    index ← write_root_impact index (impact_key_of i) (sv_node reach) mode (length (sv_affected reach)) (sv_encoded reach);
    Ok (mk_impact_reference mode (Some (impact_key_of i)) (sv_node reach) IMPACT_SCHEMA, reach, index)
  else if 1 <? pe_source_count p then
    let included := set_ordinals (pe_root_union p) in
    '(mode, encoded) ← compact_root_impact_encoding included (length (sr_roots roots));
    index ← write_root_impact index (impact_key_of i) None mode (length included) encoded;
    Ok (mk_impact_reference mode (Some (impact_key_of i)) None IMPACT_SCHEMA, reach, index)
  else
    included ← sourceless_ordinals i;
    '(mode, encoded) ← compact_root_impact_encoding included (length (sr_roots roots));
    if (bool_decide (mode = IncludedOrdinals) || bool_decide (mode = ExcludedOrdinals)) : bool then
      index ← write_root_impact index (impact_key_of i) None mode (length included) encoded;
      Ok (mk_impact_reference mode (Some (impact_key_of i)) None IMPACT_SCHEMA, reach, index)
    else Ok (mk_impact_reference mode None None IMPACT_SCHEMA, reach, index).

(** A root and its witness are pushed; the first witness that is not empty is
    the issue's. *)
Definition push_affected (acc : ClosureIssue) (rw : ExactDatasetIdentity * list ExactDatasetIdentity) : ClosureIssue :=
  with_affected (ci_affected_count acc) (ci_affected_roots acc ++ [rw.1]) (ci_witness_paths acc ++ [rw.2])
    (match ci_witness_path acc with [] => rw.2 | path => path end) acc.

Definition affect_pending (p : CoalescedIssueState) (reach : SourceReachability) : result string ClosureIssue :=
  let i := pe_issue p in
  if 1 <? pe_source_count p then
    count ← u32_of_usize try_from_int_error (length (set_ordinals (pe_root_union p)));
    pairs ← mapR (fun ow => root ← ok_or "root ordinal is out of bounds" (at_ordinal (sr_roots roots) ow.1); Ok (root, ow.2))
              (pe_root_witnesses p);
    Ok (foldl push_affected (with_affected count [] [] [] i) pairs)
  else if bool_decide (sv_visited reach <> []) then
    count ← u32_of_usize try_from_int_error (length (sv_affected reach));
    pairs ← mapR (fun ordinal =>
                root ← ok_or "root ordinal is out of bounds" (at_ordinal (sr_roots roots) ordinal);
                node ← expect (at_ordinal (sr_graph_nodes roots) ordinal);
                witness ← reconstruct_witness_path node (sv_parent reach) (g_identities g);
                Ok (root, witness))
              (take ISSUE_INLINE_AFFECTED_ROOT_SAMPLE_LIMIT (sv_affected reach));
    Ok (foldl push_affected (with_affected count [] [] [] i) pairs)
  else if bool_decide (ci_source i = None) && (Z.to_nat (ci_affected_count i) =? length (sr_roots roots))%nat then
    let sampled := take ISSUE_INLINE_AFFECTED_ROOT_SAMPLE_LIMIT (sr_roots roots) in
    Ok (with_affected (ci_affected_count i) sampled ((fun root => [root]) <$> sampled) (ci_witness_path i) i)
  else Ok i.

Definition count_issue (i : ClosureIssue) (stats : IssueRelationStats) : result string IssueRelationStats :=
  _ ← ensure (rs_affected_root_count stats + ci_affected_count i <=? U64_MAX) "logical affected-root count overflow";
  Ok (mk_stats (saturating_add (rs_issue_count stats) 1)
        (if ci_blocking i then saturating_add (rs_blocker_count stats) 1 else rs_blocker_count stats)
        (rs_occurrence_count stats) (rs_affected_root_count stats + ci_affected_count i)
        (if ci_blocking i then {[ci_code i]} ∪ rs_blocker_codes stats else rs_blocker_codes stats)).

(** ** The pass over the sorted records *)

(** [ms_issues] lists the issues finished so far, [ms_writer] holds their lines. *)
Record MergeState := mk_merge {
  ms_observed : nat;
  ms_current : option CoalescedIssueState;
  ms_reach : SourceReachability;
  ms_index : RootImpactIndexWriter;
  ms_stats : IssueRelationStats;
  ms_writer : SortedJsonlRunWriter;
  ms_issues : list (ClosureIssue * RootImpactReference);
}.

Definition finalize_coalesced_issue (p : CoalescedIssueState) (st : MergeState) : result string MergeState :=
  '(impact, reach, index) ← root_impact_of p (ms_reach st) (ms_index st);
  i ← affect_pending p reach;
  stats ← count_issue i (ms_stats st);
  partition_record ← issue_partition_record_v3 i impact roots;
  writer ← run_append available (ms_writer st) (write_canonical_json (canonical_issue i partition_record));
  Ok (mk_merge (ms_observed st) None reach index stats writer (ms_issues st ++ [(i, impact)])).

(** One record joins the issue in progress or starts the next one. *)
Definition absorb_record (observed : nat) (st : MergeState) (r : MergeRecord) : result string MergeState :=
  st ← match ms_current st with
       | Some p => if decide (ci_key (pe_issue p) = ci_key (mr_issue r)) then Ok st else finalize_coalesced_issue p st
       | None => Ok st
       end;
  let p := match ms_current st with Some p => p | None => pending_new (mr_source_key r) (mr_issue r) end in
  '(reach, p) ← observe_source (mr_source_key r) (ci_source (mr_issue r)) (ms_reach st) p;
  let '(p, stats) := push_occurrence (mr_occurrence r) p (ms_stats st) in
  Ok (mk_merge observed (Some p) reach (ms_index st) stats (ms_writer st) (ms_issues st)).

Definition merge_record (st : MergeState) (record : Value) : result string MergeState :=
  let observed := S (ms_observed st) in
  _ ← (if (observed mod 4096 =? 0)%nat then
         _ ← ensure (negb (cancelled "scope_closure_coalesce" observed)) "cancelled: scope_closure_coalesce";
         ensure (within_budget observed) "scope_closure_memory_budget_exceeded: phase=coalesce_sorted_issue_runs"
       else Ok tt);
  r ← issue_merge_record decode_issue decode_occurrence record;
  absorb_record observed st r.

Definition merge_issue_records (index : RootImpactIndexWriter) (records : list Value) : result string MergeState :=
  st ← foldM merge_record records (mk_merge 0 None no_reachability index no_stats run_writer_new []);
  match ms_current st with Some p => finalize_coalesced_issue p st | None => Ok st end.
End Merge.

(** ** Ordinals that are set *)

Lemma elem_of_set_ordinals bits o : o ∈ set_ordinals bits <-> 0 <= o /\ at_ordinal bits o = Some true.
Proof.
  unfold set_ordinals, at_ordinal. rewrite list_elem_of_omap. split.
  - intros ([k b] & Hk & Hb). simpl in Hb. destruct b; [|done]. injection Hb as <-.
    apply list_elem_of_lookup in Hk as [i Hi]. apply lookup_zip_Some in Hi as [Hs Hb].
    apply lookup_seq in Hs as [-> _]. rewrite Nat2Z.id. split; [lia|done].
  - intros [Ho Hb]. exists (Z.to_nat o, true). split; [|simpl; by rewrite Z2Nat.id].
    apply list_elem_of_lookup. exists (Z.to_nat o). apply lookup_zip_Some. split; [|done].
    apply lookup_seq. split; [done|]. by eapply lookup_lt_Some.
Qed.

Lemma set_ordinals_sorted bits : StronglySorted Z.lt (set_ordinals bits).
Proof.
  unfold set_ordinals. generalize 0%nat as k. induction bits as [|b bits IH]; intros k; simpl; [constructor|].
  assert (forall j, (S k <= j)%nat -> Forall (fun o => Z.of_nat k < o)
    (omap (fun ix : nat * bool => if ix.2 then Some (Z.of_nat ix.1) else None) (zip (seq j (length bits)) bits))) as Hk.
  { intros j Hj. apply Forall_forall. intros o ([i c] & Hi & Hc)%list_elem_of_omap. simpl in Hc. destruct c; [|done].
    injection Hc as <-. apply elem_of_zip_l, elem_of_seq in Hi. lia. }
  destruct b; [constructor; [apply IH|by apply Hk]|apply IH].
Qed.

Lemma set_ordinals_below bits : ordinals_below (length bits) (set_ordinals bits).
Proof.
  apply Forall_forall. intros o [Ho Hb]%elem_of_set_ordinals. apply lookup_lt_Some in Hb. lia.
Qed.

(** ** What a loaded source says *)

Section Correct.
Context `{EvidenceSink, ClosureLib}.
Context (cancelled : string -> nat -> bool) (available : SpaceQuery -> Z).
Context (references : list ResolvedReference) (scanned requested : list ExactDatasetIdentity)
  (g : CompactReferenceGraph) (roots : StableRootOrdinals)
  (Hg : from_references references scanned = Ok g) (Hroots : stable_root_ordinals requested g = Ok roots)
  (Hcount : Z.of_nat (length (sr_roots roots)) <= U32_MAX).
(** The source a source key stands for. *)
Context (source_at : string -> ExactDatasetIdentity).

(** The root with this ordinal is requested and refers, through some chain, to [s]. *)
Definition reaches (s : ExactDatasetIdentity) (o : Z) : Prop :=
  0 <= o /\ exists root p, at_ordinal (sr_roots roots) o = Some root /\ reference_chain references s p root.

Definition witnessed (s : ExactDatasetIdentity) (reach : SourceReachability) (o : Z) : Prop :=
  exists root node p, at_ordinal (sr_roots roots) o = Some root /\ at_ordinal (sr_graph_nodes roots) o = Some node
    /\ reconstruct_witness_path node (sv_parent reach) (g_identities g) = Ok p /\ shortest_reference_chain references s root p.

Record loaded (s : ExactDatasetIdentity) (reach : SourceReachability) : Prop := {
  ld_node : sv_node reach = g_ids g !! s;
  ld_visited : sv_visited reach <> [];
  ld_sorted : StronglySorted Z.lt (sv_affected reach);
  ld_affected o : o ∈ sv_affected reach <-> reaches s o;
  ld_encoding : exists mode, sv_mode reach = Some mode
    /\ compact_root_impact_encoding (sv_affected reach) (length (sr_roots roots)) = Ok (mode, sv_encoded reach);
  ld_witness o : o ∈ sv_affected reach -> witnessed s reach o;
}.
(** The cache holds the reachability of the source of its key. *)
Definition cache_ok (reach : SourceReachability) : Prop :=
  forall key, sv_source_key reach = Some key -> loaded (source_at key) reach.

Lemma roots_aligned : Forall2 (fun root node => g_ids g !! root = Some node) (sr_roots roots) (sr_graph_nodes roots).
Proof using Hg Hroots.
  destruct (from_references_spec _ _ _ Hg) as (Hwf & _). by destruct (stable_roots_wf _ _ _ Hwf Hroots) as (_ & _ & _ & Hf).
Qed.
Lemma root_node o node : at_ordinal (sr_graph_nodes roots) o = Some node ->
  exists root, at_ordinal (sr_roots roots) o = Some root /\ g_ids g !! root = Some node.
Proof using Hg Hroots. intros Hn. exact (Forall2_lookup_r _ _ _ _ _ roots_aligned Hn). Qed.
Lemma node_root o root : at_ordinal (sr_roots roots) o = Some root ->
  exists node, at_ordinal (sr_graph_nodes roots) o = Some node /\ g_ids g !! root = Some node.
Proof using Hg Hroots. intros Hn. exact (Forall2_lookup_l _ _ _ _ _ roots_aligned Hn). Qed.
(** The ordinal of a requested root. *)
Lemma root_ordinal o root : 0 <= o -> at_ordinal (sr_roots roots) o = Some root -> sr_ordinals roots !! root = Some o.
Proof using Hroots Hcount.
  pose proof Hroots as Hr. unfold stable_root_ordinals in Hr. apply bind_ok in Hr as (pairs & Hp & (nodes & _ & Hr)%bind_ok).
  injection Hr as Hr. rewrite <- Hr in *. cbn [sr_roots sr_ordinals] in *. rewrite numbered_ok in Hp by lia. injection Hp as <-.
  intros Ho Hat. apply numbered_lookup; [apply lt_sorted_NoDup, ascending_sorted|by split].
Qed.

(** The pass over the roots keeps the visited ones, in order. *)
Lemma affected_pass visited :
  (forall k node, sr_graph_nodes roots !! k = Some node -> is_Some (at_ordinal visited node)) ->
  exists l, foldM (affected_ordinal visited) (zip (seq 0 (length (sr_graph_nodes roots))) (sr_graph_nodes roots)) [] = Ok l
    /\ StronglySorted Z.lt l
    /\ forall o, o ∈ l <-> 0 <= o /\ exists node, at_ordinal (sr_graph_nodes roots) o = Some node /\ at_ordinal visited node = Some true.
Proof using Hcount Hg Hroots.
  intros Hv. set (nodes := sr_graph_nodes roots) in *.
  assert (length nodes = length (sr_roots roots)) as Hlen by (symmetry; apply (Forall2_length _ _ _ roots_aligned)).
  assert (forall n, (n <= length nodes)%nat -> exists l,
    foldM (affected_ordinal visited) (zip (seq 0 n) (take n nodes)) [] = Ok l /\ StronglySorted Z.lt l
    /\ forall o, o ∈ l <-> 0 <= o < Z.of_nat n /\ exists node, at_ordinal nodes o = Some node /\ at_ordinal visited node = Some true) as Hpre.
  { induction n as [|n IH]; intros Hn.
    - exists []. split_and!; [done|constructor|]. intros o. rewrite elem_of_nil. split; [done|]. intros [? _]. lia.
    - destruct (lookup_lt_is_Some_2 nodes n ltac:(lia)) as [node Hnode].
      destruct IH as (l & E & Hs & Hl); [lia|]. rewrite seq_S, (take_S_r _ _ _ Hnode), zip_with_app
        by (rewrite length_seq, length_take; lia). rewrite foldM_app, E. cbn [mbind result_bind foldM zip_with].
      unfold affected_ordinal. cbn [fst snd Nat.add]. destruct (Hv n node Hnode) as [b Hb]. rewrite Hb. cbn [expect mbind result_bind].
      assert (forall o, 0 <= o < Z.of_nat (S n) <-> 0 <= o < Z.of_nat n \/ o = Z.of_nat n) as Hcases by lia.
      assert (at_ordinal nodes (Z.of_nat n) = Some node) as Hat by (unfold at_ordinal; by rewrite Nat2Z.id). destruct b.
      + rewrite (proj2 (u32_of_usize_ok _ _ _) (conj eq_refl (ltac:(lia) : Z.of_nat n <= U32_MAX))). cbn [mbind result_bind].
        eexists. split; [done|]. split.
        * apply StronglySorted_app_2; [|done|by repeat constructor]. intros x y Hx ->%list_elem_of_singleton. apply Hl in Hx as [? _]. lia.
        * intros o. rewrite elem_of_app, list_elem_of_singleton, Hl, Hcases. split; [|naive_solver].
          intros [?| ->]; [naive_solver|]. split; [by right|]. by exists node.
      + exists l. split_and!; [done..|]. intros o. rewrite Hl, Hcases. split; [naive_solver|].
        intros [[?| ->] (node' & Hn' & Hv')]; [naive_solver|]. congruence. }
  destruct (Hpre (length nodes) ltac:(lia)) as (l & E & Hs & Hl). rewrite take_ge in E by lia. exists l. split_and!; [done..|].
  intros o. rewrite Hl. split; [intros [[? _] ?]; done|]. intros [Ho (node & Hn & Hvn)]. split; [|by exists node].
  apply lookup_lt_Some in Hn. lia.
Qed.

Definition root_impact_cancelled : string := "cancelled: scope_closure_root_impact".

Lemma load_spec cache key :
  source_at key ∈ g_identities g -> cache_ok cache ->
  outcome (fun r => sv_source_key r = Some key /\ loaded (source_at key) r) (eq root_impact_cancelled)
    (load_source_reachability cancelled g roots cache key (Some (source_at key))).
Proof using Hcount Hg Hroots.
  intros Hin Hcache. unfold load_source_reachability. case_decide as Hk; [split; [exact Hk|exact (Hcache key Hk)]|].
  destruct (ids_some _ _ _ Hg _ Hin) as [i Hi]. cbn [mbind option_bind]. rewrite Hi.
  destruct (affected_search _ _ _ Hg _ _ Hi) as (st & E & Hst). unfold node_count in E.
  destruct (search_start (length (g_identities g)) i) as [st0| |]; [|done..]. cbn [mbind result_bind] in E |- *.
  rewrite E. cbn [mbind result_bind]. cbv zeta.
  eapply outcome_bind; [apply outcome_ensure; intros _; reflexivity|]. intros _ _ _.
  destruct (affected_pass (visited st)) as (l & -> & Hs & Hl).
  { intros k node Hk'. destruct (root_node (Z.of_nat k) node) as (root & _ & Hr); [unfold at_ordinal; by rewrite Nat2Z.id|].
    destruct (Hst root node Hr) as (b & -> & _). by eexists. }
  cbn [mbind result_bind].
  assert (forall o, o ∈ l <-> reaches (source_at key) o) as Hreach.
  { intros o. rewrite Hl. unfold reaches. split; intros [Ho Hx]; (split; [exact Ho|]).
    - destruct Hx as (node & Hn & Hv). destruct (root_node _ _ Hn) as (root & Hr & Hid). destruct (Hst root node Hid) as (b & Hb & Hc & _).
      assert (b = true) as Hbt by congruence. apply Hc in Hbt as [p Hp]. by exists root, p.
    - destruct Hx as (root & p & Hr & Hp). destruct (node_root _ _ Hr) as (node & Hn & Hid). destruct (Hst root node Hid) as (b & Hb & Hc & _).
      exists node. split; [exact Hn|]. rewrite Hb. f_equal. apply Hc. by exists p. }
  assert (ordinals_below (length (sr_roots roots)) l) as Hbelow.
  { apply Forall_forall. intros o (Ho & root & p & Hr & _)%Hreach. apply lookup_lt_Some in Hr. lia. }
  destruct (encoding_cases l (length (sr_roots roots)) Hs Hbelow Hcount) as (mode & payload & Ee & _). rewrite Ee. cbn [mbind result_bind].
  split; [reflexivity|]. split; cbn [sv_node sv_visited sv_affected sv_mode sv_encoded sv_parent].
  - by rewrite Hi.
  - intros Hnil. destruct (Hst _ _ Hi) as (b & Hb & _). rewrite Hnil in Hb. done.
  - exact Hs.
  - exact Hreach.
  - by exists mode.
  - intros o Ho%Hl. destruct Ho as (_ & node & Hn & Hv). destruct (root_node _ _ Hn) as (root & Hr & Hid).
    destruct (Hst root node Hid) as (b & Hb & _ & Hp). destruct (Hp ltac:(congruence)) as (p & E1 & E2). by exists root, node, p.
Qed.

(** ** The union of several sources *)

(** A root of the union with a shortest chain from one of the sources. *)
Definition witness_of (sources : ExactDatasetIdentity -> Prop) (ow : Z * list ExactDatasetIdentity) : Prop :=
  exists s root, sources s /\ at_ordinal (sr_roots roots) ow.1 = Some root /\ shortest_reference_chain references s root ow.2.

Record union_wf (sources : ExactDatasetIdentity -> Prop) (bits : list bool) (ws : list (Z * list ExactDatasetIdentity)) : Prop := {
  un_length : length bits = length (sr_roots roots);
  un_sorted : StronglySorted Z.lt ws.*1;
  un_witness : Forall (fun ow => ow.1 ∈ set_ordinals bits /\ witness_of sources ow) ws;
  un_limit : (length ws <= ISSUE_INLINE_AFFECTED_ROOT_SAMPLE_LIMIT)%nat;
  un_all : (length ws < ISSUE_INLINE_AFFECTED_ROOT_SAMPLE_LIMIT)%nat -> forall o, o ∈ set_ordinals bits -> o ∈ ws.*1;
}.

Lemma insert_witness_perm o w ws : insert_witness o w ws ≡ₚ (o, w) :: ws.
Proof.
  induction ws as [|[o' w'] ws IH]; simpl; [done|]. destruct (o <? o'); [done|]. rewrite IH. apply Permutation_swap.
Qed.
Lemma insert_witness_sorted o w ws : StronglySorted Z.lt ws.*1 -> o ∉ ws.*1 -> StronglySorted Z.lt (insert_witness o w ws).*1.
Proof.
  induction ws as [|[o' w'] ws IH]; simpl; intros Hs Ho; [by repeat constructor|].
  apply not_elem_of_cons in Ho as [Hne Ho]. pose proof (StronglySorted_inv Hs) as [Hs' Ha]. destruct (Z.ltb_spec o o'); simpl.
  - constructor; [done|]. constructor; [done|]. eapply Forall_impl; [exact Ha|]. simpl. lia.
  - constructor; [by apply IH|]. rewrite insert_witness_perm. simpl. constructor; [lia|done].
Qed.

Lemma set_ordinals_insert bits o o' : 0 <= o < Z.of_nat (length bits) ->
  o' ∈ set_ordinals (<[Z.to_nat o := true]> bits) <-> o' = o \/ o' ∈ set_ordinals bits.
Proof.
  intros Ho. rewrite !elem_of_set_ordinals. unfold at_ordinal. destruct (decide (o' = o)) as [->|Hne].
  - rewrite list_lookup_insert_eq by lia. split; [by left|]. intros _. split; [lia|done].
  - split.
    + intros [Ho' Hb]. right. split; [done|]. rewrite list_lookup_insert_ne in Hb by lia. done.
    + intros [?|[Ho' Hb]]; [done|]. split; [done|]. by rewrite list_lookup_insert_ne by lia.
Qed.

Lemma merge_root_spec (sources : ExactDatasetIdentity -> Prop) s reach bits ws o :
  loaded s reach -> sources s -> o ∈ sv_affected reach -> union_wf sources bits ws ->
  exists bits' ws', merge_root g roots reach (bits, ws) o = Ok (bits', ws') /\ union_wf sources bits' ws'
    /\ forall o', o' ∈ set_ordinals bits' <-> o' = o \/ o' ∈ set_ordinals bits.
Proof using Type.
  intros Hld Hsrc Ho Hu. pose proof (proj1 (ld_affected _ _ Hld o) Ho) as (Hpos & root & p & Hr & _).
  assert (o < Z.of_nat (length bits)) as Hlt by (rewrite (un_length _ _ _ Hu); apply lookup_lt_Some in Hr; lia).
  destruct (ld_witness _ _ Hld o Ho) as (root' & node & w & Hr' & Hn & Hw & Hshort).
  unfold merge_root. destruct (at_ordinal_some bits o) as [b ->]; [lia|]. cbn [expect mbind result_bind].
  set (bits' := <[Z.to_nat o := true]> bits).
  assert (forall o', o' ∈ set_ordinals bits' <-> o' = o \/ o' ∈ set_ordinals bits) as Hbits by (intros; apply set_ordinals_insert; lia).
  assert (length bits' = length (sr_roots roots)) as Hlen by (unfold bits'; rewrite length_insert; apply Hu).
  assert (Forall (fun ow => ow.1 ∈ set_ordinals bits' /\ witness_of sources ow) ws) as Hws.
  { eapply Forall_impl; [exact (un_witness _ _ _ Hu)|]. intros ow [Hin Hwit]. split; [apply Hbits; by right|exact Hwit]. }
  destruct (_ && _) eqn:Hc.
  - apply andb_true_iff in Hc as [Hl%Nat.ltb_lt Hni%negb_true_iff%bool_decide_eq_false]. rewrite Hn. cbn [expect mbind result_bind].
    rewrite Hw. cbn [mbind result_bind]. exists bits', (insert_witness o w ws). split; [reflexivity|]. split; [|exact Hbits].
    pose proof (insert_witness_perm o w ws) as Hp. split.
    + exact Hlen.
    + by apply insert_witness_sorted; [apply Hu|].
    + rewrite Hp. constructor; [|exact Hws]. split; [apply Hbits; by left|]. by exists s, root'.
    + rewrite Hp. simpl. lia.
    + intros Hl' o' Ho'. rewrite Hp in Hl' |- *. simpl in *. apply elem_of_cons. apply Hbits in Ho' as [->|Ho']; [by left|right].
      apply (un_all _ _ _ Hu); [lia|exact Ho'].
  - exists bits', ws. split; [reflexivity|]. split; [|exact Hbits]. split; [exact Hlen|apply Hu|exact Hws|apply Hu|].
    intros Hl o' Ho'. apply Hbits in Ho' as [->|Ho']; [|exact (un_all _ _ _ Hu Hl o' Ho')].
    apply andb_false_iff in Hc as [Hc%Nat.ltb_ge|Hc%negb_false_iff%bool_decide_eq_true]; [lia|exact Hc].
Qed.

Lemma merge_roots_spec (sources : ExactDatasetIdentity -> Prop) s reach bits ws :
  loaded s reach -> sources s -> union_wf sources bits ws -> forall l, (forall o, o ∈ l -> o ∈ sv_affected reach) ->
  exists bits' ws', foldM (merge_root g roots reach) l (bits, ws) = Ok (bits', ws') /\ union_wf sources bits' ws'
    /\ forall o', o' ∈ set_ordinals bits' <-> o' ∈ l \/ o' ∈ set_ordinals bits.
Proof using Type.
  intros Hld Hsrc Hu l. induction l as [|o l IH] using rev_ind; intros Hl.
  - exists bits, ws. split; [reflexivity|]. split; [exact Hu|]. intros o. rewrite elem_of_nil. tauto.
  - destruct IH as (b1 & w1 & E1 & Hu1 & H1); [intros o' ?; apply Hl, elem_of_app; by left|].
    destruct (merge_root_spec sources s reach b1 w1 o Hld Hsrc ltac:(apply Hl, elem_of_app; right; by apply list_elem_of_singleton) Hu1)
      as (b2 & w2 & E2 & Hu2 & H2).
    exists b2, w2. rewrite foldM_app, E1. cbn [mbind result_bind foldM]. rewrite E2. split; [reflexivity|]. split; [exact Hu2|].
    intros o'. rewrite H2, H1, elem_of_app, list_elem_of_singleton. tauto.
Qed.

Definition start_bits (p : CoalescedIssueState) : list bool :=
  match pe_root_union p with [] => replicate (length (sr_roots roots)) false | u => u end.
(** The union and the witnesses of [p] are those of the sources. *)
Definition merged (sources : ExactDatasetIdentity -> Prop) (p : CoalescedIssueState) : Prop :=
  union_wf sources (start_bits p) (pe_root_witnesses p)
  /\ forall o, o ∈ set_ordinals (start_bits p) <-> exists s, sources s /\ reaches s o.

Lemma start_bits_full p : length (pe_root_union p) = length (sr_roots roots) -> start_bits p = pe_root_union p.
Proof. unfold start_bits. destruct (pe_root_union p); [|done]. by intros <-. Qed.

Lemma union_wf_mono (old new : ExactDatasetIdentity -> Prop) bits ws : (forall s, old s -> new s) -> union_wf old bits ws -> union_wf new bits ws.
Proof.
  intros Hon [H1 H2 H3 H4 H5]. split; [done..| |done|done]. eapply Forall_impl; [exact H3|].
  intros ow [Hin (s & root & Hs & Hrest)]. split; [done|]. exists s, root. split; [by apply Hon|done].
Qed.
Lemma merged_ext (old new : ExactDatasetIdentity -> Prop) p : (forall s, old s <-> new s) -> merged old p -> merged new p.
Proof.
  intros Hon [Hu Hb]. split; [by eapply union_wf_mono; [apply Hon|]|]. intros o. rewrite Hb. by setoid_rewrite Hon.
Qed.

Lemma merged_nothing p : pe_root_union p = [] -> pe_root_witnesses p = [] -> merged (fun _ => False) p.
Proof.
  intros Hu Hw. unfold merged, start_bits. rewrite Hu, Hw.
  assert (forall o, o ∉ set_ordinals (replicate (length (sr_roots roots)) false)) as Hno.
  { intros o [_ Ho]%elem_of_set_ordinals. by apply lookup_replicate in Ho as [? _]. }
  split.
  - split; [apply length_replicate|constructor|constructor|simpl; lia|]. intros _ o Ho. by apply Hno in Ho.
  - intros o. split; [intros Ho; by apply Hno in Ho|]. by intros (s & [] & _).
Qed.

Lemma merge_reachability_spec sources s reach p : loaded s reach -> merged sources p ->
  exists p', merge_reachability g roots reach p = Ok p' /\ merged (fun x => x = s \/ sources x) p'
    /\ length (pe_root_union p') = length (sr_roots roots)
    /\ p' = mk_pending (pe_source_key p) (pe_last_source_key p) (pe_source_count p) (pe_root_union p') (pe_root_witnesses p')
               (pe_issue p) (pe_last_occurrence_key p).
Proof using Type.
  intros Hld [Hu Hb]. apply (union_wf_mono _ (fun x => x = s \/ sources x)) in Hu; [|by right].
  destruct (merge_roots_spec _ s reach _ _ Hld (or_introl eq_refl) Hu (sv_affected reach)) as (bits & ws & E & Hu' & Hb'); [done|].
  unfold merge_reachability. fold (start_bits p). rewrite E. cbn [mbind result_bind]. eexists. split; [reflexivity|].
  split; [|split; [apply Hu'|reflexivity]]. unfold merged. rewrite start_bits_full by apply Hu'. split; [exact Hu'|].
  intros o. cbn [pe_root_union]. rewrite Hb', Hb, (ld_affected _ _ Hld). split.
  - intros [?|(s' & Hs' & ?)]; [exists s|exists s']; auto.
  - intros (s' & [->|Hs'] & Hr); [by left|right; by exists s'].
Qed.

(** ** One issue in progress *)

Definition source_ok (r : MergeRecord) : Prop :=
  ci_source (mr_issue r) = Some (source_at (mr_source_key r)) /\ source_at (mr_source_key r) ∈ g_identities g.
Definition in_group (group : list MergeRecord) (s : ExactDatasetIdentity) : Prop :=
  exists r, r ∈ group /\ s = source_at (mr_source_key r).

Definition single_source (group : list MergeRecord) (p : CoalescedIssueState) : Prop :=
  pe_source_count p = 1 /\ ci_source (pe_issue p) = Some (source_at (pe_source_key p))
  /\ Forall (fun r => mr_source_key r = pe_source_key p) group /\ pe_root_union p = [] /\ pe_root_witnesses p = [].
Definition several_sources (group : list MergeRecord) (p : CoalescedIssueState) : Prop :=
  1 < pe_source_count p /\ ci_source (pe_issue p) = None
  /\ length (pe_root_union p) = length (sr_roots roots) /\ merged (in_group group) p.
Record pending_ok (group : list MergeRecord) (p : CoalescedIssueState) : Prop := {
  po_key : Forall (fun r => ci_key (mr_issue r) = ci_key (pe_issue p)) group;
  po_last : exists r, last group = Some r /\ pe_last_source_key p = mr_source_key r;
  po_sources : single_source group p \/ several_sources group p;
}.

Lemma observe_new r reach : source_ok r ->
  exists p, observe_source cancelled g roots (mr_source_key r) (ci_source (mr_issue r)) reach (pending_new (mr_source_key r) (mr_issue r))
    = Ok (reach, p) /\ pending_ok [r] p.
Proof.
  intros [Hs _]. eexists. split; [reflexivity|]. split.
  - by repeat constructor.
  - by exists r.
  - left. split_and!; [done|exact Hs|by repeat constructor|done..].
Qed.

Lemma in_group_snoc group r s : in_group (group ++ [r]) s <-> s = source_at (mr_source_key r) \/ in_group group s.
Proof.
  unfold in_group. split.
  - intros (x & [Hx| ->%list_elem_of_singleton]%elem_of_app & ->); [right; by exists x|by left].
  - intros [->|(x & Hx & ->)]; [exists r|exists x]; rewrite elem_of_app, list_elem_of_singleton; auto.
Qed.

(** A record of the source seen last. *)
Lemma pending_same group p r : pending_ok group p -> ci_key (mr_issue r) = ci_key (pe_issue p) ->
  pe_last_source_key p = mr_source_key r -> pending_ok (group ++ [r]) p.
Proof.
  intros [Hk (r' & Hl & Hl') Hs] Hkey Hsame. apply last_Some_elem_of in Hl as Hin. split.
  - apply Forall_app. by repeat constructor.
  - exists r. by rewrite last_snoc.
  - destruct Hs as [(H1 & H2 & H3 & H4)|(H1 & H2 & H3 & H4)].
    + left. split_and!; [done..| |apply H4|apply H4]. apply Forall_app. split; [done|]. repeat constructor.
      rewrite Forall_forall in H3. rewrite <- Hsame, Hl'. by apply H3.
    + right. split_and!; [done..|]. eapply merged_ext; [|exact H4]. intros s. rewrite in_group_snoc. split; [by right|].
      intros [->|?]; [|done]. exists r'. split; [done|]. congruence.
Qed.

(** The second source pulls in the first; from then on each joins. *)
Lemma join_source group p p1 reach r :
  loaded (source_at (mr_source_key r)) reach -> ci_key (mr_issue r) = ci_key (pe_issue p) ->
  Forall (fun r => ci_key (mr_issue r) = ci_key (pe_issue p)) group ->
  1 <= pe_source_count p -> pe_issue p1 = pe_issue p -> pe_source_count p1 = pe_source_count p -> merged (in_group group) p1 ->
  exists p', (p' ← merge_reachability g roots reach (with_last_source (mr_source_key r) (saturating_add (pe_source_count p1) 1) p1);
              Ok (reach, without_source p')) = Ok (reach, p') /\ pending_ok (group ++ [r]) p'.
Proof using Type.
  intros Hld Hkey Hk Hc Hi Hpc Hm.
  destruct (merge_reachability_spec (in_group group) _ reach
    (with_last_source (mr_source_key r) (saturating_add (pe_source_count p1) 1) p1) Hld Hm) as (p' & -> & Hm' & Hlen & Hp').
  cbn [mbind result_bind]. eexists. split; [reflexivity|]. rewrite Hp'.
  split; cbn [without_source with_last_source pe_issue ci_key pe_last_source_key pe_source_count ci_source pe_root_union].
  - rewrite Hi. apply Forall_app. by repeat constructor.
  - exists r. by rewrite last_snoc.
  - right. split_and!; [|reflexivity|exact Hlen|].
    + cbn [pe_source_count without_source with_last_source]. rewrite Hpc. unfold saturating_add, USIZE_MAX, U64_MAX. lia.
    + eapply merged_ext; [intros s; symmetry; apply in_group_snoc|]. exact Hm'.
Qed.

Lemma observe_spec group p reach r :
  pending_ok group p -> Forall source_ok group -> source_ok r -> ci_key (mr_issue r) = ci_key (pe_issue p) -> cache_ok reach ->
  outcome (fun rp => cache_ok rp.1 /\ pending_ok (group ++ [r]) rp.2) (eq root_impact_cancelled)
    (observe_source cancelled g roots (mr_source_key r) (ci_source (mr_issue r)) reach p).
Proof using Hcount Hg Hroots.
  intros Hpo Hgs [Hsrc Hin] Hkey Hcache. unfold observe_source. pose proof Hpo as [Hk (r' & Hl & Hl') Hs].
  assert (1 <= pe_source_count p) as Hc by (destruct Hs as [[? _]|[? _]]; lia).
  destruct (Z.eqb_spec (pe_source_count p) 0); [lia|]. case_decide as Hsame; [split; [exact Hcache|by apply pending_same]|].
  apply (outcome_bind _ (fun rp => cache_ok rp.1 /\ pe_issue rp.2 = pe_issue p /\ pe_source_count rp.2 = pe_source_count p
    /\ merged (in_group group) rp.2)).
  - destruct Hs as [(H1 & H2 & H3 & H4 & H5)|(H1 & H2 & H3 & H4)].
    + rewrite H1. cbn [Z.eqb Pos.eqb]. rewrite H2. apply last_Some_elem_of in Hl. rewrite Forall_forall in H3. rewrite Forall_forall in Hgs.
      eapply outcome_bind; [apply load_spec; [|exact Hcache]; rewrite <- (H3 r' Hl); by apply Hgs|].
      intros reach1 _ [Hk1 Hld1]. destruct (merge_reachability_spec _ _ _ p Hld1 (merged_nothing p H4 H5)) as (p1 & -> & Hm1 & _ & Hp1).
      cbn [mbind result_bind]. split_and!; cbn [fst snd]; [by intros key [= <-]%(eq_trans (eq_sym Hk1))|by rewrite Hp1|rewrite Hp1; exact H1|].
      eapply merged_ext; [|exact Hm1]. intros s. split.
      * intros [->|[]]. exists r'. split; [exact Hl|]. by rewrite (H3 r' Hl).
      * intros (x & Hx & ->). left. by rewrite (H3 x Hx).
    + destruct (Z.eqb_spec (pe_source_count p) 1); [lia|]. by split_and!.
  - intros [reach1 p1] _ (Hc1 & Hi & Hpc & Hm). cbn [fst snd] in *. rewrite Hsrc. cbv zeta.
    eapply outcome_bind; [by apply load_spec|]. intros reach2 _ [Hk2 Hld2].
    destruct (join_source group p p1 reach2 r Hld2 Hkey Hk Hc Hi Hpc Hm) as (p' & -> & Hp'). split; [|exact Hp'].
    cbn [fst]. intros key Hkey'. rewrite Hk2 in Hkey'. injection Hkey' as <-. exact Hld2.
Qed.

(** ** The finished issue *)

(** An affected root. *)
Definition sampled_root (included : list Z) (root : ExactDatasetIdentity) : Prop :=
  exists o, o ∈ included /\ 0 <= o /\ at_ordinal (sr_roots roots) o = Some root.

(** The issue, its reference and the index record of the records of one key:
    the affected roots are the requested roots that reach one of the sources,
    the sampled ones carry a shortest chain from one of them, and the record
    answers membership. *)
Record issue_merged (group : list MergeRecord) (e : ClosureIssue * RootImpactReference) (d : DecodedRootImpactRecord)
    (included : list Z) : Prop := {
  im_ascending : StronglySorted Z.lt included;
  im_included o : o ∈ included <-> exists r, r ∈ group /\ reaches (source_at (mr_source_key r)) o;
  im_same_key : Forall (fun r => ci_key (mr_issue r) = ci_key e.1) group;
  im_counted : ci_affected_count e.1 = Z.of_nat (length included);
  im_sampled : length (ci_affected_roots e.1) = min ISSUE_INLINE_AFFECTED_ROOT_SAMPLE_LIMIT (length included);
  im_sampled_affected : Forall (sampled_root included) (ci_affected_roots e.1);
  im_witnessed : Forall2 (fun root path => exists r, r ∈ group
    /\ shortest_reference_chain references (source_at (mr_source_key r)) root path) (ci_affected_roots e.1) (ci_witness_paths e.1);
  im_first_path : ci_witness_path e.1 = default [] (head (ci_witness_paths e.1));
  im_reference : im_key d = impact_key_of e.1 /\ ri_impact_key e.2 = Some (im_key d) /\ im_mode d = ri_mode e.2
    /\ im_source d = ri_source_node e.2 /\ im_affected d = ci_affected_count e.1;
  im_indexed o : 0 <= o -> decoded_impact_contains_root d o (Z.of_nat (length (sr_roots roots))) = true <-> o ∈ included;
}.

Lemma push_affected_all pairs : forall i, Forall (fun rw : ExactDatasetIdentity * list ExactDatasetIdentity => rw.2 <> []) pairs ->
  Forall (fun w => w <> []) (ci_witness_paths i) -> ci_witness_path i = default [] (head (ci_witness_paths i)) ->
  let i' := foldl push_affected i pairs in
  ci_affected_count i' = ci_affected_count i /\ ci_affected_roots i' = ci_affected_roots i ++ pairs.*1
  /\ ci_witness_paths i' = ci_witness_paths i ++ pairs.*2 /\ ci_key i' = ci_key i
  /\ ci_witness_path i' = default [] (head (ci_witness_paths i')).
Proof.
  induction pairs as [|[root w] pairs IH]; intros i Hne Hi Hp; simpl; [by rewrite !app_nil_r|].
  apply Forall_cons in Hne as [Hw Hne]. simpl in Hw.
  destruct (IH (push_affected i (root, w)) Hne) as (H1 & H2 & H3 & H4 & H5).
  - simpl. apply Forall_app. by repeat constructor.
  - simpl. rewrite Hp. destruct (ci_witness_paths i) as [|[|x q] rest]; simpl; [done| |done].
    by apply Forall_cons in Hi as [? _].
  - rewrite H1, H2, H3, H4. simpl. rewrite <- !app_assoc. split_and!; try done. rewrite H5, H3. simpl. by rewrite <- app_assoc.
Qed.

(** A chain is not empty. *)
Lemma chain_nonempty x p y : reference_chain references x p y -> p <> [].
Proof. destruct 1; [done|]. by destruct p. Qed.

(** The sampled roots of an issue, whichever way they were found. *)
Lemma sampled_issue (sources : ExactDatasetIdentity -> Prop) i count (pairs : list (ExactDatasetIdentity * list ExactDatasetIdentity)) :
  Forall (fun rw => exists s, sources s /\ shortest_reference_chain references s rw.1 rw.2) pairs ->
  let i' := foldl push_affected (with_affected count [] [] [] i) pairs in
  ci_affected_count i' = count /\ ci_affected_roots i' = pairs.*1 /\ ci_key i' = ci_key i
  /\ Forall2 (fun root path => exists s, sources s /\ shortest_reference_chain references s root path)
       (ci_affected_roots i') (ci_witness_paths i')
  /\ ci_witness_path i' = default [] (head (ci_witness_paths i')).
Proof.
  intros Hp. destruct (push_affected_all pairs (with_affected count [] [] [] i)) as (H1 & H2 & H3 & H4 & H5); [|constructor|done|].
  - eapply Forall_impl; [exact Hp|]. intros rw (s & _ & [Hc _]). by eapply chain_nonempty.
  - cbv zeta. rewrite H1, H2, H3, H4. split_and!; [done|done|done| |by rewrite H5, H3].
    simpl. clear -Hp. induction Hp; constructor; auto.
Qed.

(** What one source affects. *)
Lemma single_pairs s reach : loaded s reach ->
  outcome (fun pairs => length pairs = min ISSUE_INLINE_AFFECTED_ROOT_SAMPLE_LIMIT (length (sv_affected reach))
      /\ Forall (fun rw => sampled_root (sv_affected reach) rw.1 /\ exists s', s' = s /\ shortest_reference_chain references s' rw.1 rw.2) pairs)
    (fun _ => False)
    (mapR (fun ordinal =>
       root ← ok_or "root ordinal is out of bounds" (at_ordinal (sr_roots roots) ordinal);
       node ← expect (at_ordinal (sr_graph_nodes roots) ordinal);
       witness ← reconstruct_witness_path node (sv_parent reach) (g_identities g);
       Ok (root, witness)) (take ISSUE_INLINE_AFFECTED_ROOT_SAMPLE_LIMIT (sv_affected reach))).
Proof.
  intros Hld. eapply outcome_mono.
  - apply (outcome_mapR _ (fun _ rw => sampled_root (sv_affected reach) rw.1 /\ exists s', s' = s /\ shortest_reference_chain references s' rw.1 rw.2)).
    intros o Ho%elem_of_take. destruct Ho as (k & Ho & _). apply list_elem_of_lookup_2 in Ho.
    destruct (ld_witness _ _ Hld o Ho) as (root & node & p & Hroot & -> & Hp & Hs). rewrite Hroot. cbn [ok_or expect mbind result_bind].
    rewrite Hp. cbn [mbind result_bind]. split; [|by exists s]. exists o. split; [exact Ho|]. split; [|exact Hroot].
    by apply (ld_affected _ _ Hld) in Ho as [? _].
  - intros pairs _ Hf. split.
    + rewrite <- (Forall2_length _ _ _ Hf). apply length_take.
    + clear -Hf. induction Hf; constructor; auto.
Qed.

(** What the union of several sources affects. *)
Lemma union_pairs (sources : ExactDatasetIdentity -> Prop) bits ws : union_wf sources bits ws ->
  outcome (fun pairs => length pairs = min ISSUE_INLINE_AFFECTED_ROOT_SAMPLE_LIMIT (length (set_ordinals bits))
      /\ Forall (fun rw => sampled_root (set_ordinals bits) rw.1 /\ exists s, sources s /\ shortest_reference_chain references s rw.1 rw.2) pairs)
    (fun _ => False)
    (mapR (fun ow : Z * list ExactDatasetIdentity =>
       root ← ok_or "root ordinal is out of bounds" (at_ordinal (sr_roots roots) ow.1); Ok (root, ow.2)) ws).
Proof.
  intros Hu. eapply outcome_mono.
  - apply (outcome_mapR _ (fun _ (rw : ExactDatasetIdentity * list ExactDatasetIdentity) =>
      sampled_root (set_ordinals bits) rw.1 /\ exists s, sources s /\ shortest_reference_chain references s rw.1 rw.2)).
    intros ow How. pose proof (un_witness _ _ _ Hu) as Hw. rewrite Forall_forall in Hw.
    destruct (Hw ow How) as [Hin (s & root & Hs & Hroot & Hsh)]. rewrite Hroot. cbn [ok_or mbind result_bind].
    split; [|by exists s]. exists ow.1. split; [exact Hin|]. split; [by apply elem_of_set_ordinals in Hin as [? _]|exact Hroot].
  - intros pairs _ Hf. split; [|clear -Hf; induction Hf; constructor; auto].
    rewrite <- (Forall2_length _ _ _ Hf). rewrite <- (length_fmap fst ws).
    assert (NoDup ws.*1) as Hnd by (apply Zlt_sorted_NoDup, Hu).
    assert (ws.*1 ⊆ set_ordinals bits) as Hsub.
    { intros o (ow & -> & How)%list_elem_of_fmap. pose proof (un_witness _ _ _ Hu) as Hw. rewrite Forall_forall in Hw. by apply (Hw ow How). }
    pose proof (un_limit _ _ _ Hu) as Hl. rewrite <- (length_fmap fst ws) in Hl.
    pose proof (submseteq_length _ _ (NoDup_submseteq _ _ Hnd Hsub)) as Hle.
    destruct (decide (length ws = ISSUE_INLINE_AFFECTED_ROOT_SAMPLE_LIMIT)) as [He|Hne]; [rewrite length_fmap in *; lia|].
    assert (set_ordinals bits ⊆ ws.*1) as Hsup.
    { intros o Ho. apply (un_all _ _ _ Hu); [|exact Ho]. rewrite length_fmap in Hl. lia. }
    pose proof (submseteq_length _ _ (NoDup_submseteq _ _ (Zlt_sorted_NoDup _ (set_ordinals_sorted bits)) Hsup)). lia.
Qed.

(** The index record of the roots. *)
Lemma included_bounds included : StronglySorted Z.lt included -> ordinals_below (length (sr_roots roots)) included ->
  (length included <= length (sr_roots roots))%nat.
Proof.
  intros Hs Hb. pose proof (length_complement _ included (Zlt_sorted_NoDup _ Hs) Hb). lia.
Qed.

Definition index_refused (e : string) : Prop := exists iw d, index_append iw d = Err e.

Lemma record_impact included key node iw mode encoded :
  StronglySorted Z.lt included -> ordinals_below (length (sr_roots roots)) included ->
  compact_root_impact_encoding included (length (sr_roots roots)) = Ok (mode, encoded) ->
  outcome (fun iw' => index_append iw (impact_of key node included (mode, encoded)) = Ok iw') index_refused
    (write_root_impact iw key node mode (length included) encoded).
Proof using Hcount.
  intros Hs Hb He. unfold write_root_impact. pose proof (included_bounds included Hs Hb) as Hl.
  rewrite (proj2 (u32_of_usize_ok _ (length included) _) (conj eq_refl (ltac:(lia) : Z.of_nat (length included) <= U32_MAX))).
  cbn [mbind result_bind]. change (mk_impact key 2 node mode (Z.of_nat (length included)) encoded) with (impact_of key node included (mode, encoded)).
  destruct (encoding_cases included _ Hs Hb Hcount) as (m & e & E & [Hps Hpb] & _). rewrite E in He. injection He as -> ->.
  assert (settles (index_append iw (impact_of key node included (mode, encoded)))) as Hset.
  { apply index_append_settles. split; [exact Hps|]. split; [|exact I]. eapply Forall_impl; [exact Hpb|]. simpl. lia. }
  destruct (index_append iw _) eqn:Ei; [reflexivity|eexists _, _; exact Ei|exact Hset].
Qed.

(** What is known when the impact of an issue has been written. *)
Definition impact_ready (group : list MergeRecord) (p : CoalescedIssueState) (iw : RootImpactIndexWriter) (included : list Z)
    (out : RootImpactReference * SourceReachability * RootImpactIndexWriter) : Prop :=
  let '(impact, reach, iw') := out in
  StronglySorted Z.lt included /\ ordinals_below (length (sr_roots roots)) included
  /\ (forall o, o ∈ included <-> exists r, r ∈ group /\ reaches (source_at (mr_source_key r)) o)
  /\ cache_ok reach
  /\ exists node e, compact_root_impact_encoding included (length (sr_roots roots)) = Ok e
       /\ impact = mk_impact_reference e.1 (Some (impact_key_of (pe_issue p))) node IMPACT_SCHEMA
       /\ index_append iw (impact_of (impact_key_of (pe_issue p)) node included e) = Ok iw'.

(** The errors of appending a line to a run writer. *)
Definition run_writer_errors : list string :=
  ["derived relation record byte count overflow"; "derived_relation_record_too_large"; "derived relation byte count overflow";
   "derived relation event count overflow"; "derived relation run byte count overflow";
   "scope closure relation temp-space requirement overflow"; "scope_closure_relation_temp_space_low"].
Lemma run_append_errors w line :
  outcome (fun w' => run_append available w line = Ok w') (fun e => e ∈ run_writer_errors) (run_append available w line).
Proof.
  apply (outcome_mono _ (fun _ => True)); [|intros w' Hw _; exact Hw].
  unfold run_append. do 5 (eapply outcome_bind; [apply outcome_ensure; intros _; compute_done|]; intros _ _ _). cbv zeta.
  destruct (_ <=? _); [|exact I]. unfold flush_run. destruct (rw_buffered _); [exact I|]. unfold ensure_relation_temp_capacity.
  rewrite bind_assoc. do 2 (eapply outcome_bind; [apply outcome_ensure; intros _; compute_done|]; intros _ _ _). exact I.
Qed.

Definition merge_refused (e : string) : Prop :=
  e = root_impact_cancelled \/ e = "cancelled: scope_closure_coalesce"
  \/ e = "scope_closure_memory_budget_exceeded: phase=coalesce_sorted_issue_runs"
  \/ e = "logical affected-root count overflow" \/ index_refused e \/ e ∈ run_writer_errors.

Lemma affected_below s reach : loaded s reach -> ordinals_below (length (sr_roots roots)) (sv_affected reach).
Proof.
  intros Hld. apply Forall_forall. intros o (Ho & root & p & Hr & _)%(ld_affected _ _ Hld). apply lookup_lt_Some in Hr. lia.
Qed.

Lemma impact_single group p reach iw : pending_ok group p -> single_source group p -> Forall source_ok group -> cache_ok reach ->
  outcome (fun out => loaded (source_at (pe_source_key p)) out.1.2 /\ impact_ready group p iw (sv_affected out.1.2) out) merge_refused
    (root_impact_of cancelled g roots p reach iw).
Proof using Hcount Hg Hroots.
  intros [_ (r & Hl & _) _] (Hc & Hsrc & Hall & _) Hgs Hcache. unfold root_impact_of. rewrite Hc, Hsrc.
  cbn [Z.leb Z.compare Pos.compare Pos.compare_cont andb]. rewrite bool_decide_true by (by eexists).
  apply last_Some_elem_of in Hl. rewrite Forall_forall in Hgs. rewrite Forall_forall in Hall. cbn [andb].
  eapply outcome_bind; [eapply outcome_err_mono; [|apply load_spec; [|exact Hcache]]|].
  - intros e <-. by left.
  - rewrite <- (Hall r Hl). by apply Hgs.
  - intros reach1 _ [Hk Hld]. destruct (ld_encoding _ _ Hld) as (mode & -> & He). cbn [ok_or mbind result_bind].
    pose proof (affected_below _ _ Hld) as Hb.
    eapply outcome_bind; [eapply outcome_err_mono; [|apply (record_impact _ _ _ _ _ _ (ld_sorted _ _ Hld) Hb He)]|].
    + intros e Hr. do 4 right. by left.
    + intros iw' _ Hi. split; [exact Hld|]. split; [apply Hld|]. split; [exact Hb|]. split.
      { intros o. rewrite (ld_affected _ _ Hld). split.
        - intros Hr. exists r. by rewrite (Hall r Hl).
        - intros (x & Hx & Hr). by rewrite (Hall x Hx) in Hr. }
      split; [intros key [= <-]%(eq_trans (eq_sym Hk)); exact Hld|]. eexists _, _. split; [exact He|]. split; [reflexivity|exact Hi].
Qed.

Lemma impact_several group p reach iw : several_sources group p -> cache_ok reach ->
  outcome (impact_ready group p iw (set_ordinals (pe_root_union p))) merge_refused (root_impact_of cancelled g roots p reach iw).
Proof using Hcount.
  intros (Hc & Hsrc & Hlen & Hm) Hcache. unfold root_impact_of. rewrite (proj2 (Z.leb_gt _ _) Hc), (proj2 (Z.ltb_lt _ _) Hc). cbn [andb].
  pose proof (set_ordinals_sorted (pe_root_union p)) as Hs. pose proof (set_ordinals_below (pe_root_union p)) as Hb.
  rewrite Hlen in Hb. destruct (encoding_cases _ _ Hs Hb Hcount) as (mode & payload & He & _). cbv zeta. rewrite He. cbn [mbind result_bind].
  eapply outcome_bind; [eapply outcome_err_mono; [|apply (record_impact _ _ _ _ _ _ Hs Hb He)]|].
  - intros e Hr. do 4 right. by left.
  - intros iw' _ Hi. split; [exact Hs|]. split; [exact Hb|]. split.
    { destruct Hm as [_ Hm]. rewrite (start_bits_full p Hlen) in Hm. intros o. rewrite Hm. unfold in_group. split.
      - intros (s & (r & Hr & ->) & Hreach). by exists r.
      - intros (r & Hr & Hreach). eexists. split; [by exists r|exact Hreach]. }
    split; [exact Hcache|]. eexists _, _. split; [exact He|]. split; [reflexivity|exact Hi].
Qed.

(** What is known of the issue itself. *)
Definition issue_ready (group : list MergeRecord) (p : CoalescedIssueState) (included : list Z) (i : ClosureIssue) : Prop :=
  ci_affected_count i = Z.of_nat (length included) /\ Forall (sampled_root included) (ci_affected_roots i)
  /\ length (ci_affected_roots i) = min ISSUE_INLINE_AFFECTED_ROOT_SAMPLE_LIMIT (length included)
  /\ ci_key i = ci_key (pe_issue p)
  /\ Forall2 (fun root path => exists s, in_group group s /\ shortest_reference_chain references s root path)
       (ci_affected_roots i) (ci_witness_paths i)
  /\ ci_witness_path i = default [] (head (ci_witness_paths i)).

Lemma issue_of_pairs group p included count pairs :
  count = Z.of_nat (length included) ->
  length pairs = min ISSUE_INLINE_AFFECTED_ROOT_SAMPLE_LIMIT (length included)
    /\ Forall (fun rw => sampled_root included rw.1 /\ exists s, in_group group s /\ shortest_reference_chain references s rw.1 rw.2) pairs ->
  issue_ready group p included (foldl push_affected (with_affected count [] [] [] (pe_issue p)) pairs).
Proof.
  intros -> [Hlen [Hsr Hp]%Forall_and].
  destruct (sampled_issue (in_group group) (pe_issue p) (Z.of_nat (length included)) pairs Hp) as (H1 & H2 & H3 & H4 & H5).
  unfold issue_ready. rewrite H1, H3. split_and!; try done; rewrite H2; [by apply Forall_fmap|by rewrite length_fmap].
Qed.

Lemma affect_spec group p reach included : pending_ok group p ->
  StronglySorted Z.lt included -> ordinals_below (length (sr_roots roots)) included ->
  (single_source group p /\ loaded (source_at (pe_source_key p)) reach /\ included = sv_affected reach)
  \/ (several_sources group p /\ included = set_ordinals (pe_root_union p)) ->
  outcome (issue_ready group p included) (fun _ => False) (affect_pending g roots p reach).
Proof using Hcount.
  intros Hpo Hs Hb Hcase. pose proof (included_bounds included Hs Hb) as Hl.
  assert (u32_of_usize try_from_int_error (length included) = Ok (Z.of_nat (length included))) as Hu
    by (apply u32_of_usize_ok; split; [done|lia]).
  unfold affect_pending. destruct Hcase as [((Hc & _ & Hall & _) & Hld & ->)|((Hc & _ & Hlen & [Hun _]) & ->)].
  - rewrite Hc. cbn [Z.ltb Z.compare Pos.compare Pos.compare_cont]. rewrite bool_decide_true by apply Hld. rewrite Hu. cbn [mbind result_bind].
    eapply outcome_bind; [apply (single_pairs _ _ Hld)|]. intros pairs _ [Hpl Hpf]. apply issue_of_pairs; [done|]. split; [exact Hpl|].
    eapply Forall_impl; [exact Hpf|]. intros rw (Hsr & s & -> & Hsh). split; [exact Hsr|]. exists (source_at (pe_source_key p)). split; [|exact Hsh].
    destruct (po_last _ _ Hpo) as (r & Hr & _). apply last_Some_elem_of in Hr. rewrite Forall_forall in Hall.
    exists r. split; [exact Hr|]. by rewrite (Hall r Hr).
  - rewrite (proj2 (Z.ltb_lt _ _) Hc), Hu. cbn [mbind result_bind]. rewrite (start_bits_full p Hlen) in Hun.
    eapply outcome_bind; [apply (union_pairs _ _ _ Hun)|]. intros pairs _ Hp. by apply issue_of_pairs.
Qed.

(** The sample of a root in the partition record: its ordinal, which is one of
    the affected, the root and its own witness path. *)
Definition root_sample (included : list Z) (root : ExactDatasetIdentity) (path : list ExactDatasetIdentity) (v : Value) : Prop :=
  exists o, o ∈ included /\ at_ordinal (sr_roots roots) o = Some root
    /\ v = json_object [("rootOrdinal", json_nat o); ("root", identity_json root); ("witnessPath", identities_json path)].

(** The line of an issue: its partition record samples the affected roots the
    issue samples, and says whether there are more. *)
Definition issue_written (e : ClosureIssue * RootImpactReference) (included : list Z) (line : Line) : Prop :=
  exists record samples, issue_partition_record_v3 e.1 e.2 roots = Ok record
    /\ line = write_canonical_json (canonical_issue e.1 record)
    /\ get "affectedRootSamples" record = Some (JArray samples)
    /\ Forall3 (root_sample included) (ci_affected_roots e.1) (ci_witness_paths e.1) samples
    /\ get "affectedRootSamplesTruncated" record
       = Some (JBool (bool_decide (ISSUE_INLINE_AFFECTED_ROOT_SAMPLE_LIMIT < length included)%nat)).

Lemma samples_from included i roots' paths : forall k, Forall (sampled_root included) roots' -> length paths = length roots' ->
  (forall j, ci_witness_paths i !! (k + j)%nat = paths !! j) ->
  exists samples, mapR (affected_root_sample roots i) (zip (seq k (length roots')) roots') = Ok samples
    /\ Forall3 (root_sample included) roots' paths samples.
Proof using Hroots Hcount.
  revert paths. induction roots' as [|root roots' IH]; intros [|path paths] k Hs Hl Hp; [|done..|].
  { exists []. split; [reflexivity|constructor]. }
  apply Forall_cons in Hs as [(o & Hin & Ho & Hat) Hs]. injection Hl as Hl.
  destruct (IH paths (S k) Hs Hl) as (samples & E & Hf).
  { intros j. pose proof (Hp (S j)) as Hj. by rewrite Nat.add_succ_r in Hj. }
  cbn [length seq zip_with mapR]. unfold affected_root_sample at 1. cbn [fst snd]. rewrite (root_ordinal o root Ho Hat).
  cbn [ok_or mbind result_bind]. rewrite E. cbn [mbind result_bind]. pose proof (Hp 0%nat) as Hhead. rewrite Nat.add_0_r in Hhead. rewrite Hhead.
  cbn [lookup list_lookup default from_option]. eexists. split; [reflexivity|]. constructor; [by exists o|exact Hf].
Qed.

Lemma partition_record_spec group p included i impact : issue_ready group p included i ->
  exists record, issue_partition_record_v3 i impact roots = Ok record
    /\ issue_written (i, impact) included (write_canonical_json (canonical_issue i record)).
Proof using Hroots Hcount.
  intros (Hc & Hsr & Hlen & _ & Hw & _). apply Forall2_length in Hw as Hwl.
  destruct (samples_from included i (ci_affected_roots i) (ci_witness_paths i) 0 Hsr (eq_sym Hwl)) as (samples & E & Hf); [done|].
  assert (length samples = length (ci_affected_roots i)) as Hsl by (rewrite <- (Forall3_length_lr _ _ _ _ Hf); done).
  rewrite <- (take_ge (zip _ _) ISSUE_INLINE_AFFECTED_ROOT_SAMPLE_LIMIT) in E by (rewrite length_zip_with, length_seq; lia).
  eexists. split; [unfold issue_partition_record_v3; rewrite E; reflexivity|].
  eexists _, samples. split; [unfold issue_partition_record_v3; cbn [fst snd]; rewrite E; reflexivity|].
  split; [reflexivity|]. split; [reflexivity|]. split; [exact Hf|]. cbn [fst]. rewrite Hc, Hsl, Hlen.
  transitivity (Some (JBool (Z.of_nat (min ISSUE_INLINE_AFFECTED_ROOT_SAMPLE_LIMIT (length included)) <? Z.of_nat (length included)))); [reflexivity|].
  do 2 f_equal. apply eq_bool_prop_intro. rewrite bool_decide_spec, Is_true_true, Z.ltb_lt. lia.
Qed.

(** One more issue with its index record and its line. *)
Definition issue_emitted (group : list MergeRecord) (st st' : MergeState) : Prop :=
  exists e d line included, issue_merged group e d included /\ issue_written e included line
    /\ ms_issues st' = ms_issues st ++ [e] /\ index_append (ms_index st) d = Ok (ms_index st')
    /\ run_append available (ms_writer st) line = Ok (ms_writer st')
    /\ cache_ok (ms_reach st') /\ ms_current st' = None
    /\ rs_issue_count (ms_stats st') = saturating_add (rs_issue_count (ms_stats st)) 1.

Lemma issue_completed group p iw included impact reach iw' i :
  pending_ok group p -> impact_ready group p iw included (impact, reach, iw') -> issue_ready group p included i ->
  exists d, issue_merged group (i, impact) d included /\ index_append iw d = Ok iw'.
Proof using Hcount.
  intros Hpo (Hs & Hb & Hin & _ & node & e & He & -> & Hi) (H1 & H2 & H2' & H3 & H4 & H5).
  eexists. split; [|exact Hi]. split; cbn [fst snd]; try done.
  - rewrite H3. apply Hpo.
  - eapply Forall2_impl; [exact H4|]. intros root path (s & (r & Hr & ->) & Hsh). by exists r.
  - unfold impact_key_of, impact_of. cbn [im_key im_mode im_source im_affected ri_impact_key ri_mode ri_source_node]. by rewrite H3, H1.
  - destruct (encoding_members included _ (impact_key_of (pe_issue p)) node Hs Hb Hcount) as (e' & He' & _ & Hm). rewrite He in He'. injection He' as <-. exact Hm.
Qed.

Lemma finalize_spec group p st : pending_ok group p -> Forall source_ok group -> cache_ok (ms_reach st) ->
  outcome (issue_emitted group st) merge_refused (finalize_coalesced_issue cancelled available g roots p st).
Proof using Hcount Hg Hroots.
  intros Hpo Hgs Hcache. unfold finalize_coalesced_issue.
  apply (outcome_bind _ (fun out => exists included, impact_ready group p (ms_index st) included out
    /\ ((single_source group p /\ loaded (source_at (pe_source_key p)) out.1.2 /\ included = sv_affected out.1.2)
        \/ (several_sources group p /\ included = set_ordinals (pe_root_union p))))).
  - destruct (po_sources _ _ Hpo) as [Hone|Hmany].
    + eapply outcome_mono; [by apply (impact_single group)|]. intros out _ [Hld Hi]. eexists. split; [exact Hi|]. by left.
    + eapply outcome_mono; [by apply (impact_several group)|]. intros out _ Hi. eexists. split; [exact Hi|]. by right.
  - intros [[impact reach] iw'] _ (included & Hready & Hcase). pose proof Hready as (Hs & Hb & _ & Hc' & _). cbn [fst snd] in Hcase.
    eapply outcome_bind; [eapply outcome_err_mono; [|apply (affect_spec group p reach included Hpo Hs Hb Hcase)]; done|].
    intros i _ Hi. destruct (issue_completed group p _ _ _ _ _ _ Hpo Hready Hi) as (d & Hm & Hix).
    unfold count_issue. rewrite bind_assoc. eapply outcome_bind; [apply outcome_ensure; intros _; by (do 3 right; left)|].
    intros _ _ _. destruct (partition_record_spec group p included i impact Hi) as (record & -> & Hrec). cbn [mbind result_bind].
    eapply outcome_bind; [eapply outcome_err_mono; [|apply run_append_errors]; intros e He; by do 5 right|].
    intros writer _ Hwr. eexists (i, impact), d, _, included. split; [exact Hm|]. split; [exact Hrec|]. by split_and!.
Qed.

(** ** The whole pass *)

Context (within_budget : nat -> bool).

(** Records of the same key that follow each other. *)
Definition run_step (acc : list (list MergeRecord) * list MergeRecord) (r : MergeRecord) : list (list MergeRecord) * list MergeRecord :=
  match head acc.2 with
  | None => (acc.1, [r])
  | Some first => if decide (ci_key (mr_issue first) = ci_key (mr_issue r)) then (acc.1, acc.2 ++ [r]) else (acc.1 ++ [acc.2], [r])
  end.
Definition runs (records : list MergeRecord) : list (list MergeRecord) :=
  let '(closed, open) := foldl run_step ([], []) records in
  match open with [] => closed | _ => closed ++ [open] end.

Definition run_merged (group : list MergeRecord) (e : ClosureIssue * RootImpactReference) (out : DecodedRootImpactRecord * Line) : Prop :=
  exists included, issue_merged group e out.1 included /\ issue_written e included out.2.

Definition emitted (index : RootImpactIndexWriter) (closed : list (list MergeRecord)) (st : MergeState) : Prop :=
  exists outs, Forall3 run_merged closed (ms_issues st) outs /\ foldM index_append outs.*1 index = Ok (ms_index st)
    /\ foldM (run_append available) outs.*2 run_writer_new = Ok (ms_writer st)
    /\ rs_issue_count (ms_stats st) = Z.min (Z.of_nat (length closed)) USIZE_MAX.
Definition progress (index : RootImpactIndexWriter) (acc : list (list MergeRecord) * list MergeRecord) (st : MergeState) : Prop :=
  emitted index acc.1 st /\ cache_ok (ms_reach st) /\ Forall source_ok acc.2
  /\ match ms_current st with None => acc.2 = [] | Some p => pending_ok acc.2 p end.

Lemma pending_ok_push group o p stats p' stats' : pending_ok group p -> push_occurrence o p stats = (p', stats') ->
  pending_ok group p' /\ rs_issue_count stats' = rs_issue_count stats.
Proof.
  intros Hp. unfold push_occurrence. destruct o as [o|]; [|by intros [= <- <-]]. case_decide; [by intros [= <- <-]|].
  intros [= <- <-]. split; [|done]. destruct Hp as [Hk Hl Hs]. split; [exact Hk|exact Hl|exact Hs].
Qed.

Lemma emitted_more index closed group st st' : emitted index closed st -> issue_emitted group st st' -> emitted index (closed ++ [group]) st'.
Proof.
  intros (outs & Hf & Hix & Hwr & Hc) (e & d & line & included & Hm & Hl & Hi & Hd & Hw & _ & _ & Hn). exists (outs ++ [(d, line)]).
  rewrite Hi, !fmap_app, !foldM_app, Hix, Hwr, Hn, Hc, length_app. cbn [mbind result_bind foldM length fmap list_fmap fst snd].
  rewrite Hd, Hw. split_and!; [|done..|].
  - apply Forall3_app; [exact Hf|]. constructor; [by exists included|constructor].
  - unfold saturating_add, USIZE_MAX, U64_MAX. lia.
Qed.

(** The record's occurrence is pushed and the state put back together. *)
Lemma progress_push index closed group st reach p o n :
  emitted index closed st -> cache_ok reach -> Forall source_ok group -> pending_ok group p ->
  outcome (progress index (closed, group)) merge_refused
    (let '(p, stats) := push_occurrence o p (ms_stats st) in Ok (mk_merge n (Some p) reach (ms_index st) stats (ms_writer st) (ms_issues st))).
Proof.
  intros (outs & Hf & Hix & Hwr & Hn) Hc Hgs Hp. destruct (push_occurrence _ _ _) as [p2 stats2] eqn:Hpush.
  destruct (pending_ok_push _ _ _ _ _ _ Hp Hpush) as [Hp2 Hs2]. split_and!; cbn [fst snd ms_reach ms_current]; try done.
  exists outs. split_and!; [done..|]. cbn [ms_stats]. by rewrite Hs2.
Qed.

Lemma absorb_record_spec observed index acc st r : progress index acc st -> source_ok r ->
  outcome (progress index (run_step acc r)) merge_refused (absorb_record cancelled available g roots observed st r).
Proof using Hcount Hg Hroots.
  intros (Hem & Hcache & Hgs & Hcur) Hr. unfold absorb_record. cbv zeta.
  apply (outcome_bind _ (fun st1 => exists acc', emitted index acc'.1 st1 /\ cache_ok (ms_reach st1) /\ Forall source_ok acc'.2
    /\ match ms_current st1 with
       | None => run_step acc r = (acc'.1, [r])
       | Some p => pending_ok acc'.2 p /\ ci_key (mr_issue r) = ci_key (pe_issue p) /\ run_step acc r = (acc'.1, acc'.2 ++ [r])
       end)).
  - destruct (ms_current st) as [p|] eqn:Hp.
    + pose proof Hcur as [Hk (r' & Hl & _) _]. destruct acc as [closed [|first rest]]; [done|]. cbn [fst snd] in *.
      apply Forall_cons in Hk as Hfirst. destruct Hfirst as [Hfirst _]. unfold run_step. cbn [fst snd head].
      destruct (decide (ci_key (pe_issue p) = ci_key (mr_issue r))) as [Hkey|Hkey].
      * exists (closed, first :: rest). rewrite Hp, decide_True by congruence. by split_and!.
      * rewrite decide_False by congruence. eapply outcome_mono; [by apply (finalize_spec (first :: rest))|].
        intros st1 _ Hst1. exists (closed ++ [first :: rest], []). cbn [fst snd]. pose proof Hst1 as (_ & _ & _ & _ & _ & _ & _ & _ & _ & Hc1 & -> & _).
        split_and!; [by eapply emitted_more|exact Hc1|constructor|reflexivity].
    + exists acc. rewrite Hp. split_and!; [done..|]. unfold run_step. by rewrite Hcur.
  - intros st1 _ (acc' & Hem1 & Hc1 & Hgs1 & Hcur1). destruct (ms_current st1) as [p|].
    + destruct Hcur1 as (Hpo & Hkey & ->). eapply outcome_bind; [eapply outcome_err_mono; [|by apply (observe_spec acc'.2)]|].
      { intros e <-. by left. }
      intros [reach p1] _ [Hc2 Hp1]. apply progress_push; [done..| |done].
      apply Forall_app. split; [exact Hgs1|]. constructor; [exact Hr|constructor].
    + rewrite Hcur1. destruct (observe_new r (ms_reach st1) Hr) as (p & -> & Hp1). cbn [mbind result_bind].
      apply progress_push; [done..| |done]. constructor; [exact Hr|constructor].
Qed.

(** The values of the sorted stream and the records they hold. *)
Context (decode_issue : Value -> option ClosureIssue) (decode_occurrence : Value -> option ClosureIssueOccurrence).
Definition holds_record (v : Value) (r : MergeRecord) : Prop := issue_merge_record decode_issue decode_occurrence v = Ok r.
Definition pass_refused (values : list Value) (e : string) : Prop :=
  merge_refused e \/ exists v, v ∈ values /\ issue_merge_record decode_issue decode_occurrence v = Err e.

Lemma issue_merge_record_outcome v :
  outcome (holds_record v) (fun e => issue_merge_record decode_issue decode_occurrence v = Err e)
    (issue_merge_record decode_issue decode_occurrence v).
Proof.
  destruct (issue_merge_record decode_issue decode_occurrence v) eqn:E; [exact E|reflexivity|]. unfold issue_merge_record in E.
  destruct v; try done. cbn [ok_or mbind result_bind] in E. repeat (destruct items as [|? items]; try done). revert E.
  destruct (match _ with JNull => _ | _ => _ end) as [o| |] eqn:Eo; cbn [mbind result_bind]; [|done|].
  - destruct (decode_issue _); cbn; [|done]. by destruct (as_str _).
  - destruct v3; try done; by destruct (decode_occurrence _).
Qed.

Lemma merge_record_spec index values v acc st : progress index acc st -> v ∈ values -> (forall r, holds_record v r -> source_ok r) ->
  outcome (fun st' => exists r, holds_record v r /\ progress index (run_step acc r) st') (pass_refused values)
    (merge_record cancelled within_budget available decode_issue decode_occurrence g roots st v).
Proof using Hcount Hg Hroots.
  intros Hst Hv Hr. unfold merge_record. cbv zeta. apply (outcome_bind _ (fun _ => True)).
  { destruct (_ =? _)%nat; [|exact I]. apply (outcome_bind _ (fun _ => True)).
    - destruct (negb _); simpl; [exact I|left; right; by left].
    - intros _ _ _. destruct (within_budget _); simpl; [exact I|left; do 2 right; by left]. }
  intros _ _ _. eapply outcome_bind; [eapply outcome_err_mono; [|apply issue_merge_record_outcome]; intros e He; right; by exists v|].
  intros r _ Hrec. eapply outcome_mono; [eapply outcome_err_mono; [|by apply absorb_record_spec; [exact Hst|apply Hr]]; by left|].
  intros st' _ Hst'. by exists r.
Qed.

Lemma merge_all_spec index values : (forall v r, v ∈ values -> holds_record v r -> source_ok r) ->
  outcome (fun st => exists records, Forall2 holds_record values records /\ progress index (foldl run_step ([], []) records) st)
    (pass_refused values)
    (foldM (merge_record cancelled within_budget available decode_issue decode_occurrence g roots) values
       (mk_merge 0 None no_reachability index no_stats run_writer_new [])).
Proof using Hcount Hg Hroots.
  intros Hr. apply (outcome_foldM _ (fun pre st => exists records, Forall2 holds_record pre records
    /\ progress index (foldl run_step ([], []) records) st)).
  - exists []. split; [constructor|]. split_and!; [|by intros key|constructor|reflexivity]. exists []. split_and!; [constructor|reflexivity..].
  - intros pre v post st Heq (records & Hf & Hst). assert (v ∈ values) as Hv by (rewrite Heq; apply elem_of_app; right; apply list_elem_of_here).
    eapply outcome_mono; [apply (merge_record_spec index values v _ _ Hst Hv); intros r; by apply Hr|].
    intros st' _ (r & Hrec & Hst'). exists (records ++ [r]). split; [apply Forall2_app; [exact Hf|by repeat constructor]|].
    by rewrite foldl_app.
Qed.

(** C9: merging the issue stream loses and invents no affected root.  For
    records whose sources are nodes of the reference graph and whose source keys
    determine the sources, the pass reads every value of the stream as a record
    and emits one issue per run of equal issue keys, in order.  Its affected
    roots are exactly the requested roots with a chain of references to one of
    the run's sources, whether the reachability came from the cache, one search
    or the union of several; the sampled roots carry a shortest chain to one of
    the sources; the index record written for it answers membership of every
    root ordinal; and the line appended for it to the canonical issues holds a
    partition record that samples these roots with their ordinals and paths and
    says whether there are more.  The pass fails only by cancellation, the
    memory budget, a value that is not a record, the index writer, the overflow
    of the total, or the run writer of the canonical issues (a line over its
    limit, a counter that overflows, too little free temporary space; writing a
    run file is taken to succeed, as in the external sort); the lookup of a
    sampled root never fails. *)
Theorem merge_issue_records_exact index values : (forall v r, v ∈ values -> holds_record v r -> source_ok r) ->
  outcome (fun st => exists records, Forall2 holds_record values records /\ emitted index (runs records) st) (pass_refused values)
    (merge_issue_records cancelled within_budget available decode_issue decode_occurrence g roots index values).
Proof using Hcount Hg Hroots.
  intros Hr. unfold merge_issue_records. eapply outcome_bind; [exact (merge_all_spec index values Hr)|].
  intros st _ (records & Hf & Hem & Hcache & Hgs & Hcur). cut (outcome (emitted index (runs records)) merge_refused
    (match ms_current st with Some p => finalize_coalesced_issue cancelled available g roots p st | None => Ok st end)).
  { intros Ho. eapply outcome_mono; [eapply outcome_err_mono; [|exact Ho]; by left|]. intros st' _ Hst'. by exists records. }
  unfold runs. destruct (foldl run_step ([], []) records) as [closed group]. cbn [fst snd] in *.
  destruct (ms_current st) as [p|]; [|by subst group].
  destruct group as [|first rest]; [by destruct Hcur as [_ (r & Hl & _) _]|].
  eapply outcome_mono; [by apply (finalize_spec (first :: rest))|]. intros st' _ Hst'. by eapply emitted_more.
Qed.
End Correct.

(** A record written to the stream is read back, when the deserializers give
    back what was serialized. *)
Lemma merge_record_roundtrip `{ClosureLib} decode_issue decode_occurrence r :
  decode_issue (issue_json (mr_issue r)) = Some (mr_issue r) ->
  (forall o, mr_occurrence r = Some o -> decode_occurrence (occurrence_json o) = Some o) ->
  issue_merge_record decode_issue decode_occurrence (merge_record_json r) = Ok r.
Proof.
  intros Hi Ho. unfold issue_merge_record, merge_record_json. cbn [ok_or mbind result_bind]. destruct r as [key i [o|]]; cbn in *.
  - rewrite (Ho o eq_refl). cbn [ok_or mbind result_bind]. by rewrite Hi.
  - by rewrite Hi.
Qed.

(** ** Witnesses *)

#[local] Instance merge_sink : EvidenceSink := {| sink_accepts := fun _ _ => true; zstd_stream := Some |}.
#[local] Instance merge_lib : ClosureLib :=
  {| uuid_text := fun _ => "id"; uuid_parse_str := fun _ => None; sha256_hex := fun _ => "digest"; json_text := fun _ => [] |}.

Definition merge_issue (key : string) (source : option ExactDatasetIdentity) : ClosureIssue :=
  mk_issue key "blocker" true "missing_reference" source None None None None None "" None 0 [] 0 [] [] [].
Definition merge_source_at (key : string) : ExactDatasetIdentity := if decide (key = "flow") then sample_flow else sample_unit.
Definition merge_sample (key source_key : string) : MergeRecord :=
  mk_merge_record source_key (merge_issue key (Some (merge_source_at source_key))) None.
Definition sample_records : list MergeRecord := [merge_sample "a" "flow"; merge_sample "a" "unit"; merge_sample "b" "unit"].
Definition fresh_index : RootImpactIndexWriter :=
  match index_writer_new 3 with Ok iw => iw | _ => mk_index_writer (evidence_new "" "") None end.

(** The deserializer of the sample issues. *)
Definition text_at (key : string) (v : option Value) : option string := (v ≫= get key) ≫= as_str.
Definition decode_sample (v : Value) : option ClosureIssue :=
  let source := (fun category => merge_source_at (if decide (category = "flows") then "flow" else "unit"))
                <$> text_at "category" (get "source" v) in
  (fun key => merge_issue key source) <$> text_at "issueKey" (Some v).
Definition sample_pass (records : list MergeRecord) : result string MergeState :=
  merge_issue_records (fun _ _ => false) (fun _ => true) (fun _ => U64_MAX) decode_sample (fun _ => None) sample_graph sample_stable
    fresh_index (merge_record_json <$> records).

Lemma sample_graph_nodes : g_identities sample_graph = [sample_flow; sample_method; sample_process; sample_isolated; sample_unit].
Proof. by vm_compute. Qed.
Lemma sample_source_ok r : r ∈ sample_records -> source_ok sample_graph merge_source_at r.
Proof.
  intros Hr. assert (Forall (source_ok sample_graph merge_source_at) sample_records) as Hall.
  { repeat apply Forall_cons_2; [..|constructor]; (split; [reflexivity|]; rewrite sample_graph_nodes; apply list_elem_of_In; vm_compute; tauto). }
  rewrite Forall_forall in Hall. by apply Hall.
Qed.
Lemma sample_values v r : v ∈ merge_record_json <$> sample_records -> holds_record decode_sample (fun _ => None) v r ->
  source_ok sample_graph merge_source_at r.
Proof.
  intros (x & -> & Hx)%list_elem_of_fmap Hr. assert (x = r) as <-; [|by apply sample_source_ok].
  assert (Forall (fun x => issue_merge_record decode_sample (fun _ => None) (merge_record_json x) = Ok x) sample_records) as Hall
    by (repeat constructor; by vm_compute).
  rewrite Forall_forall in Hall. unfold holds_record in Hr. rewrite (Hall x Hx) in Hr. by injection Hr.
Qed.

Lemma merge_issue_records_exact_witness :
  (match sample_pass sample_records with
   | Ok st => (fun e => (ci_key e.1, ci_affected_count e.1, ci_affected_roots e.1)) <$> ms_issues st
   | _ => []
   end) = [("a", 2, [sample_method; sample_process]); ("b", 2, [sample_method; sample_process])]
  /\ (match sample_pass sample_records with
      | Ok st => (rw_events (ms_writer st), length (rw_buffered (ms_writer st)))
      | _ => (0, 0%nat)
      end) = (2, 2%nat)
  /\ outcome (fun st => exists records, Forall2 (holds_record decode_sample (fun _ => None)) (merge_record_json <$> sample_records) records
         /\ emitted (fun _ => U64_MAX) sample_references sample_stable merge_source_at fresh_index (runs records) st)
       (pass_refused decode_sample (fun _ => None) (merge_record_json <$> sample_records)) (sample_pass sample_records).
Proof.
  split; [by vm_compute|]. split; [by vm_compute|].
  exact (merge_issue_records_exact (fun _ _ => false) (fun _ => U64_MAX) sample_references requested_roots requested_roots sample_graph
    sample_stable ltac:(by vm_compute) ltac:(by vm_compute) ltac:(by vm_compute) merge_source_at (fun _ => true) decode_sample (fun _ => None)
    fresh_index (merge_record_json <$> sample_records) sample_values).
Defined.

(** An issue without a source after one with a source: the reachability kept
    from the previous issue overwrites its affected roots, while its impact
    reference says that no root is affected. *)
Lemma stale_reachability :
  (match sample_pass [merge_sample "a" "unit"; mk_merge_record "" (merge_issue "b" None) None] with
   | Ok st => (fun e => (ci_key e.1, ci_affected_count e.1, ci_affected_roots e.1, ri_mode e.2)) <$> ms_issues st
   | _ => []
   end) = [("a", 2, [sample_method; sample_process], ExcludedOrdinals); ("b", 2, [sample_method; sample_process], ModeNone)].
Proof. by vm_compute. Qed.
