(* ===== verification/Partitions.v ===== *)
(** * Partitions of a relation stream

    [IssuePartitionAccumulator] (scope_closure.rs): the records of a relation,
    one line each, are cut into compressed partitions bounded in records and
    bytes.  A record that alone exceeds the byte bound is stored as chunks with
    an index.  A layout lists partitions and oversized records in the order of
    the stream.  Files are their bytes; a running digest is the bytes fed to it. *)

From S2P Require Import Prelude Text Json DataBuilder Identity References RefGraph BinarySearch Wire Issues ExternalSort.
From stdpp Require Import pretty.

Local Open Scope string_scope.
Local Open Scope Z_scope.
Local Open Scope list_scope.

Definition ISSUE_PARTITION_MAX_RECORDS : Z := 25000.
Definition ADMINISTRATIVE_OVERSIZED_RECORD_CHUNK_BYTES : Z := 8 * 1024 * 1024.
(** [usize::try_from(..)] of it. *)
Definition CHUNK : nat := Z.to_nat ADMINISTRATIVE_OVERSIZED_RECORD_CHUNK_BYTES.
Lemma CHUNK_bytes : Z.of_nat CHUNK = ADMINISTRATIVE_OVERSIZED_RECORD_CHUNK_BYTES.
Proof. unfold CHUNK. apply Z2Nat.id. unfold ADMINISTRATIVE_OVERSIZED_RECORD_CHUNK_BYTES. lia. Qed.

(** ** Names *)

(** [format!("{n:0width$}")]. *)
Definition zero_padded (width : nat) (n : Z) : string :=
  let digits := pretty (Z.to_N n) in
  of_bytes (replicate (width - String.length digits) (byte 48)) +:+ digits.

(** [relation.strip_prefix("administrative/").unwrap_or(&relation)]. *)
Definition without_administrative (relation : string) : string :=
  match Text.strip_prefix (bytes "administrative/") (bytes relation) with Some rest => of_bytes rest | None => relation end.

(** ** Data *)

Inductive ScopeClosureArtifactRole := ClosureReport | CompleteMachineResult | ClosureBundle.

Record ArtifactManifestEntry := mk_descriptor {
  am_artifact_type : string;
  am_role : ScopeClosureArtifactRole;
  am_file_name : string;
  am_content_type : string;
  am_byte_size : Z;
  am_checksum : string;
}.
(** A descriptor and the bytes of the file it describes. *)
Record PreparedArtifact := mk_prepared { pa_descriptor : ArtifactManifestEntry; pa_content : list ascii }.

Record IssuePartitionManifestEntry := mk_partition_entry {
  pm_relation : string;
  pm_path : string;
  pm_media_type : string;
  pm_record_count : Z;
  pm_uncompressed_size : Z;
  pm_uncompressed_sha256 : string;
  pm_compressed_size : Z;
  pm_compressed_sha256 : string;
  pm_first_key : string;
  pm_last_key : string;
}.
Record AdministrativeLayoutEntry := mk_layout {
  al_relation : string;
  al_sequence_ordinal : Z;
  al_kind : string;
  al_path : string;
}.
Record AdministrativeOversizedRecordManifestEntry := mk_oversized {
  ao_relation : string;
  ao_record_ordinal : Z;
  ao_record_key : string;
  ao_logical_size : Z;
  ao_logical_sha256 : string;
  ao_index_path : string;
  ao_index_size : Z;
  ao_index_sha256 : string;
}.
Record AdministrativeOversizedRecordChunk := mk_chunk {
  ck_ordinal : Z;
  ck_path : string;
  ck_byte_size : Z;
  ck_sha256 : string;
}.
Record AdministrativeOversizedRecordIndex := mk_oversized_index {
  ox_schema_version : string;
  ox_relation : string;
  ox_record_ordinal : Z;
  ox_record_key : string;
  ox_logical_size : Z;
  ox_logical_sha256 : string;
  ox_chunk_byte_size : Z;
  ox_chunk_count : Z;
  ox_chunks : list AdministrativeOversizedRecordChunk;
}.

(** The partition being written: the encoder and the digest have both been fed
    [ap_bytes]. *)
Record ActiveIssuePartition := mk_active {
  ap_relative_path : string;
  ap_bytes : list ascii;
  ap_record_count : Z;
  ap_uncompressed_bytes : Z;
  ap_first_key : string;
  ap_last_key : string;
}.
Record IssuePartitionAccumulator := mk_accumulator {
  pc_relation : string;
  pc_max_records : Z;
  pc_max_bytes : Z;
  pc_active : option ActiveIssuePartition;
  pc_entries : list IssuePartitionManifestEntry;
  pc_artifacts : list PreparedArtifact;
  pc_relation_bytes : list ascii;
  pc_record_count : Z;
  pc_byte_size : Z;
  pc_layout : list AdministrativeLayoutEntry;
  pc_oversized : list AdministrativeOversizedRecordManifestEntry;
}.
Record IssuePartitionFinish := mk_partition_finish {
  pf_entries : list IssuePartitionManifestEntry;
  pf_artifacts : list PreparedArtifact;
  pf_sha256 : string;
  pf_record_count : Z;
  pf_byte_size : Z;
  pf_layout : list AdministrativeLayoutEntry;
  pf_oversized : list AdministrativeOversizedRecordManifestEntry;
}.

Section Accumulator.
Context `{EvidenceSink, ClosureLib}.
(** Whether [fs::write] to this path succeeds; the cancellation token at the
    chunks of an oversized record, by record and chunk ordinal. *)
Context (fs_write : string -> list ascii -> bool) (cancelled : Z -> nat -> bool).

Definition accumulator_new (relation : string) : IssuePartitionAccumulator :=
  mk_accumulator relation ISSUE_PARTITION_MAX_RECORDS ISSUE_PARTITION_MAX_UNCOMPRESSED_BYTES None [] [] [] 0 0 [] [].
Definition accumulator_with_limits (relation : string) (max_records max_bytes : Z) : IssuePartitionAccumulator :=
  mk_accumulator relation max_records max_bytes None [] [] [] 0 0 [] [].

Definition machine_result (file_name content_type : string) (content : list ascii) : PreparedArtifact :=
  mk_prepared (mk_descriptor "closure_complete_machine_result" CompleteMachineResult file_name content_type
                 (Z.of_nat (length content)) (sha256_hex content)) content.

Definition partition_path (relation : string) (index : Z) : string :=
  relation +:+ "/part-" +:+ zero_padded 6 index +:+ ".ndjson.zst".
Definition open_partition (c : IssuePartitionAccumulator) (key : string) : ActiveIssuePartition :=
  mk_active (partition_path (pc_relation c) (Z.of_nat (length (pc_entries c)))) [] 0 0 key key.

Definition flush (c : IssuePartitionAccumulator) : result string IssuePartitionAccumulator :=
  match pc_active c with
  | None => Ok c
  | Some active =>
      compressed ← ok_or "finish failed" (zstd_stream (ap_bytes active));
      let entry := mk_partition_entry (pc_relation c) (ap_relative_path active) "application/x-ndjson+zstd" (ap_record_count active)
                     (ap_uncompressed_bytes active) (sha256_hex (ap_bytes active)) (Z.of_nat (length compressed))
                     (sha256_hex compressed) (ap_first_key active) (ap_last_key active) in
      let layout := mk_layout (pc_relation c) (Z.of_nat (length (pc_layout c))) "ndjson_partition" (ap_relative_path active) in
      Ok (mk_accumulator (pc_relation c) (pc_max_records c) (pc_max_bytes c) None (pc_entries c ++ [entry])
            (pc_artifacts c ++ [machine_result (ap_relative_path active) "application/x-ndjson+zstd" compressed])
            (pc_relation_bytes c) (pc_record_count c) (pc_byte_size c) (pc_layout c ++ [layout]) (pc_oversized c))
  end.

(** The two counters of the relation after one more record. *)
Definition count_record (c : IssuePartitionAccumulator) (size : Z) : result string unit :=
  _ ← ensure (pc_record_count c + 1 <=? U64_MAX) "partition logical record count overflow";
  ensure (pc_byte_size c + size <=? U64_MAX) "partition logical byte size overflow".

(** ** Oversized records *)

Definition CHUNK_MEDIA_TYPE : string := "application/vnd.tiangong.scope-closure-canonical-json-chunk".
Definition INDEX_MEDIA_TYPE : string := "application/vnd.tiangong.scope-closure-oversized-record-index+json".
Definition record_directory (relation : string) (record_ordinal : Z) : string :=
  relation +:+ "/oversized/record-" +:+ zero_padded 20 record_ordinal.
Definition chunk_path (directory : string) (ordinal : nat) : string :=
  directory +:+ "/chunk-" +:+ zero_padded 6 (Z.of_nat ordinal) +:+ ".bin".

(** One chunk written: its entry in the index and its artifact. *)
Definition push_chunk (cancellation : bool) (record_ordinal : Z) (directory : string)
    (acc : list AdministrativeOversizedRecordChunk * list PreparedArtifact) (ix : nat * list ascii)
    : result string (list AdministrativeOversizedRecordChunk * list PreparedArtifact) :=
  _ ← ensure (negb (cancellation && cancelled record_ordinal ix.1)) "cancelled: scope_closure_administrative_oversized_record_chunk";
  let relative_path := chunk_path directory ix.1 in
  _ ← ensure (fs_write relative_path ix.2) "write failed";
  Ok (acc.1 ++ [mk_chunk (Z.of_nat ix.1) relative_path (Z.of_nat (length ix.2)) (sha256_hex ix.2)],
      acc.2 ++ [machine_result relative_path CHUNK_MEDIA_TYPE ix.2]).

Definition chunk_json (c : AdministrativeOversizedRecordChunk) : Value :=
  json_object [("ordinal", JNumber (PosInt (ck_ordinal c))); ("path", JString (ck_path c));
    ("byteSize", JNumber (PosInt (ck_byte_size c))); ("sha256", JString (ck_sha256 c))].
Definition oversized_index_json (x : AdministrativeOversizedRecordIndex) : Value :=
  json_object [("schemaVersion", JString (ox_schema_version x)); ("relation", JString (ox_relation x));
    ("recordOrdinal", JNumber (PosInt (ox_record_ordinal x))); ("recordKey", JString (ox_record_key x));
    ("logicalByteSize", JNumber (PosInt (ox_logical_size x))); ("logicalSha256", JString (ox_logical_sha256 x));
    ("chunkByteSize", JNumber (PosInt (ox_chunk_byte_size x))); ("chunkCount", JNumber (PosInt (ox_chunk_count x)));
    ("chunks", JArray (chunk_json <$> ox_chunks x))].

Definition push_oversized_record (cancellation : bool) (c : IssuePartitionAccumulator) (key : string) (record : list ascii)
    : result string IssuePartitionAccumulator :=
  _ ← ensure (bool_decide (last record = Some line_feed))
        "oversized administrative record must retain canonical NDJSON newline framing";
  c ← flush c;
  let logical_bytes := take (length record - 1) record in
  let record_ordinal := pc_record_count c in
  let directory := record_directory (pc_relation c) record_ordinal in
  let pieces := chunks CHUNK logical_bytes in
  '(chunk_entries, chunk_artifacts) ← foldM (push_chunk cancellation record_ordinal directory) (zip (seq 0 (length pieces)) pieces) ([], []);
  let index := mk_oversized_index "lcia.scope-closure-administrative-oversized-record.v1" (without_administrative (pc_relation c))
                 record_ordinal key (Z.of_nat (length logical_bytes)) (sha256_hex logical_bytes)
                 ADMINISTRATIVE_OVERSIZED_RECORD_CHUNK_BYTES (Z.of_nat (length chunk_entries)) chunk_entries in
  let index_path := directory +:+ "/index.json" in
  let index_bytes := write_canonical_json (oversized_index_json index) in
  _ ← ensure (fs_write index_path index_bytes) "write failed";
  let layout := mk_layout (pc_relation c) (Z.of_nat (length (pc_layout c))) "oversized_record" index_path in
  let entry := mk_oversized (pc_relation c) record_ordinal key (Z.of_nat (length logical_bytes)) (sha256_hex logical_bytes)
                 index_path (Z.of_nat (length index_bytes)) (sha256_hex index_bytes) in
  _ ← count_record c (Z.of_nat (length record));
  Ok (mk_accumulator (pc_relation c) (pc_max_records c) (pc_max_bytes c) (pc_active c) (pc_entries c)
        (pc_artifacts c ++ chunk_artifacts ++ [machine_result index_path INDEX_MEDIA_TYPE index_bytes])
        (pc_relation_bytes c ++ record) (pc_record_count c + 1) (pc_byte_size c + Z.of_nat (length record))
        (pc_layout c ++ [layout]) (pc_oversized c ++ [entry])).

(** ** Records that fit *)

Definition record_limit_reached (c : IssuePartitionAccumulator) : bool :=
  match pc_active c with Some active => pc_max_records c <=? ap_record_count active | None => false end.
Definition byte_limit_reached (c : IssuePartitionAccumulator) (record_bytes : Z) : bool :=
  match pc_active c with
  | Some active => pc_max_bytes c <? saturating_add (ap_uncompressed_bytes active) record_bytes
  | None => false
  end.

Definition push_bytes_with_cancellation (cancellation : bool) (c : IssuePartitionAccumulator) (key : string) (record : list ascii)
    : result string IssuePartitionAccumulator :=
  let record_bytes := Z.of_nat (length record) in
  if pc_max_bytes c <? record_bytes then push_oversized_record cancellation c key record
  else
    c ← (if record_limit_reached c || byte_limit_reached c record_bytes then flush c else Ok c);
    let active := match pc_active c with Some active => active | None => open_partition c key end in
    _ ← ensure (sink_accepts (ap_bytes active) record) "write failed";
    _ ← count_record c record_bytes;
    _ ← ensure (ap_record_count active + 1 <=? U64_MAX) "partition record count overflow";
    _ ← ensure (ap_uncompressed_bytes active + record_bytes <=? U64_MAX) "partition uncompressed byte size overflow";
    Ok (mk_accumulator (pc_relation c) (pc_max_records c) (pc_max_bytes c)
          (Some (mk_active (ap_relative_path active) (ap_bytes active ++ record) (ap_record_count active + 1)
                   (ap_uncompressed_bytes active + record_bytes) (ap_first_key active) key))
          (pc_entries c) (pc_artifacts c) (pc_relation_bytes c ++ record) (pc_record_count c + 1)
          (pc_byte_size c + record_bytes) (pc_layout c) (pc_oversized c)).
Definition push_bytes : IssuePartitionAccumulator -> string -> list ascii -> result string IssuePartitionAccumulator :=
  push_bytes_with_cancellation false.
Definition push_bytes_cancellable : IssuePartitionAccumulator -> string -> list ascii -> result string IssuePartitionAccumulator :=
  push_bytes_with_cancellation true.
Definition push (c : IssuePartitionAccumulator) (key : string) (value : Value) : result string IssuePartitionAccumulator :=
  push_bytes c key (write_canonical_json value ++ [line_feed]).

Definition partition_finish (c : IssuePartitionAccumulator) : result string IssuePartitionFinish :=
  c ← flush c;
  Ok (mk_partition_finish (pc_entries c) (pc_artifacts c) (sha256_hex (pc_relation_bytes c)) (pc_record_count c) (pc_byte_size c)
        (pc_layout c) (pc_oversized c)).
End Accumulator.

(** ** Distinct names *)

#[local] Opaque CHUNK.

Definition digit_of (c : ascii) : N := (N_of_ascii c - 48)%N.
Definition numeral (l : list ascii) : N := foldl (fun n c => (10 * n + digit_of c)%N) 0%N l.
Definition is_digit (c : ascii) : Prop := (48 <= N_of_ascii c <= 57)%N.

Lemma pretty_char_digit x : (x < 10)%N -> digit_of (pretty_N_char x) = x /\ is_digit (pretty_N_char x).
Proof.
  intros Hx. assert (x = 0 \/ x = 1 \/ x = 2 \/ x = 3 \/ x = 4 \/ x = 5 \/ x = 6 \/ x = 7 \/ x = 8 \/ x = 9)%N as Hc by lia.
  destruct_or! Hc; subst; (split; [reflexivity|by vm_compute]).
Qed.

Lemma pretty_go_numeral x s : numeral (bytes (pretty_N_go x s)) = foldl (fun n c => (10 * n + digit_of c)%N) x (bytes s)
  /\ (Forall is_digit (bytes s) -> Forall is_digit (bytes (pretty_N_go x s))).
Proof.
  revert s. induction (N.lt_wf_0 x) as [x _ IH]; intros s. destruct (decide (x = 0)%N) as [->|Hx]; [done|].
  rewrite pretty_N_go_step by lia. destruct (pretty_char_digit (x `mod` 10)) as [Hv Hd]; [apply N.mod_lt; lia|].
  destruct (IH (x `div` 10)%N (N.div_lt x 10 ltac:(lia) ltac:(lia)) (String (pretty_N_char (x `mod` 10)) s)) as [Hn Hf].
  split.
  - rewrite Hn. cbn [bytes String.list_ascii_of_string foldl]. rewrite Hv. by rewrite <- N.div_mod by lia.
  - intros Hs. apply Hf. cbn [bytes String.list_ascii_of_string]. by constructor.
Qed.
Lemma pretty_numeral x : numeral (bytes (pretty x)) = x /\ Forall is_digit (bytes (pretty x)).
Proof.
  unfold pretty, pretty_N. case_decide as Hx; [subst; split; [reflexivity|by repeat constructor]|].
  destruct (pretty_go_numeral x "") as [-> Hf]. split; [reflexivity|]. apply Hf. constructor.
Qed.

Lemma numeral_zeros k l : numeral (replicate k (byte 48) ++ l) = numeral l.
Proof. unfold numeral. induction k as [|k IH]; [done|]. exact IH. Qed.
Lemma padded_bytes width n : bytes (zero_padded width n)
  = replicate (width - String.length (pretty (Z.to_N n))) (byte 48) ++ bytes (pretty (Z.to_N n)).
Proof. unfold zero_padded. by rewrite bytes_app, bytes_of_bytes. Qed.
Lemma padded_digits width n : Forall is_digit (bytes (zero_padded width n)).
Proof.
  rewrite padded_bytes. apply Forall_app. split; [|apply pretty_numeral]. apply Forall_replicate. by vm_compute.
Qed.
Lemma padded_inj width a b : 0 <= a -> 0 <= b -> bytes (zero_padded width a) = bytes (zero_padded width b) -> a = b.
Proof.
  intros Ha Hb E. apply (f_equal numeral) in E. rewrite !padded_bytes, !numeral_zeros in E.
  destruct (pretty_numeral (Z.to_N a)) as [Ea _]. destruct (pretty_numeral (Z.to_N b)) as [Eb _]. lia.
Qed.

(** A run of digits ends at the first character that is none. *)
Lemma digits_end l l' c r r' : Forall is_digit l -> Forall is_digit l' -> ~ is_digit c ->
  l ++ c :: r = l' ++ c :: r' -> l = l' /\ r = r'.
Proof.
  revert l'. induction l as [|x l IH]; intros [|x' l'] Hl Hl' Hc E; simpl in E.
  - by injection E as ->.
  - injection E as -> _. by inversion Hl'.
  - injection E as <- _. by inversion Hl.
  - injection E as -> E. inversion_clear Hl. inversion_clear Hl'. destruct (IH l') as [-> ->]; done.
Qed.

Lemma partition_path_inj relation a b : 0 <= a -> 0 <= b -> partition_path relation a = partition_path relation b -> a = b.
Proof.
  intros Ha Hb E. unfold partition_path in E. apply (inj _), (inj _) in E. apply (f_equal bytes) in E. rewrite !bytes_app in E.
  apply digits_end in E as [E _]; [by eapply padded_inj|apply padded_digits..|cbv; intuition congruence].
Qed.
Lemma directory_inj relation a b x y : 0 <= a -> 0 <= b ->
  record_directory relation a +:+ "/" +:+ x = record_directory relation b +:+ "/" +:+ y -> a = b /\ x = y.
Proof.
  intros Ha Hb E. apply (f_equal bytes) in E. unfold record_directory in E. rewrite !bytes_app, <- !app_assoc in E.
  do 2 apply app_inv_head in E. cbn [app] in E. apply digits_end in E as [E1 E2]; [|apply padded_digits..|cbv; intuition congruence].
  split; [by eapply padded_inj|by apply bytes_inj].
Qed.
Lemma chunk_path_inj directory a b : chunk_path directory a = chunk_path directory b -> a = b.
Proof.
  intros E. unfold chunk_path in E. apply (inj _), (inj _) in E. apply (f_equal bytes) in E. rewrite !bytes_app in E.
  apply digits_end in E as [E _]; [|apply padded_digits..|cbv; intuition congruence]. apply padded_inj in E; lia.
Qed.

(** ** Reading the stored stream back *)

Definition file_name (a : PreparedArtifact) : string := am_file_name (pa_descriptor a).
Definition find_content (artifacts : list PreparedArtifact) (path : string) : option (list ascii) :=
  pa_content <$> (snd <$> list_find (fun a => file_name a = path) artifacts).
Definition chunk_count (size : Z) : nat :=
  Z.to_nat ((size + ADMINISTRATIVE_OVERSIZED_RECORD_CHUNK_BYTES - 1) / ADMINISTRATIVE_OVERSIZED_RECORD_CHUNK_BYTES).
(** A reader that knows only the manifest and the files: a partition is
    decompressed, an oversized record is its chunks and a line feed. *)
Definition restore_entry (unzstd : list ascii -> option (list ascii)) (f : IssuePartitionFinish) (l : AdministrativeLayoutEntry)
    : option (list ascii) :=
  if decide (al_kind l = "ndjson_partition") then find_content (pf_artifacts f) (al_path l) ≫= unzstd
  else
    o ← snd <$> list_find (fun o => ao_index_path o = al_path l) (pf_oversized f);
    pieces ← mapM (fun k => find_content (pf_artifacts f) (chunk_path (record_directory (ao_relation o) (ao_record_ordinal o)) k))
               (seq 0 (chunk_count (ao_logical_size o)));
    Some (concat pieces ++ [line_feed]).
Definition restore (unzstd : list ascii -> option (list ascii)) (f : IssuePartitionFinish) : option (list ascii) :=
  (fun pieces => concat pieces) <$> mapM (restore_entry unzstd f) (pf_layout f).

Lemma find_by_key {A} (key : A -> string) l x : NoDup (key <$> l) -> x ∈ l ->
  snd <$> list_find (fun y => key y = key x) l = Some x.
Proof.
  intros Hnd [i Hi]%list_elem_of_lookup.
  assert (list_find (fun y => key y = key x) l = Some (i, x)) as ->; [|done]. apply list_find_Some. split_and!; [done..|].
  intros j y Hj Hlt E. assert (j = i); [|lia]. eapply (NoDup_lookup _ _ _ (key x) Hnd).
  - rewrite list_lookup_fmap, Hj. simpl. by rewrite E.
  - by rewrite list_lookup_fmap, Hi.
Qed.
Lemma find_content_in artifacts a : NoDup (file_name <$> artifacts) -> a ∈ artifacts ->
  find_content artifacts (file_name a) = Some (pa_content a).
Proof. intros Hnd Ha. unfold find_content. by rewrite (find_by_key file_name artifacts a Hnd Ha). Qed.

Lemma length_chunks {A} k (l : list A) : (0 < k)%nat ->
  Z.of_nat (length (chunks k l)) = (Z.of_nat (length l) + Z.of_nat k - 1) / Z.of_nat k.
Proof.
  intros Hk. unfold chunks. enough (forall n (l : list A), (length l <= n)%nat ->
    Z.of_nat (length (chunks_of n k l)) = (Z.of_nat (length l) + Z.of_nat k - 1) / Z.of_nat k) as HH by by apply HH.
  clear l. induction n as [|n IH]; intros l Hl.
  - assert (length l = 0)%nat as E by lia. apply length_zero_iff_nil in E as ->. simpl. symmetry. apply Z.div_small. lia.
  - destruct l as [|x l]; [simpl; symmetry; apply Z.div_small; lia|]. cbn [chunks_of length]. rewrite Nat2Z.inj_succ.
    rewrite IH by (rewrite length_drop; simpl in *; lia). rewrite length_drop. cbn [length] in *.
    destruct (decide (k <= S (length l))%nat).
    + replace (Z.of_nat (S (length l)) + Z.of_nat k - 1) with (Z.of_nat (S (length l) - k) + Z.of_nat k - 1 + 1 * Z.of_nat k) by lia.
      rewrite Z.div_add by lia. lia.
    + replace (S (length l) - k)%nat with 0%nat by lia. rewrite (Z.div_small (Z.of_nat 0 + Z.of_nat k - 1)) by lia.
      symmetry. replace (Z.of_nat (S (length l)) + Z.of_nat k - 1) with (Z.of_nat (length l) + 1 * Z.of_nat k) by lia.
      rewrite Z.div_add, Z.div_small by lia. lia.
Qed.

Lemma chunk_bounds {A} k (l : list A) piece : (0 < k)%nat -> piece ∈ chunks k l -> (0 < length piece <= k)%nat.
Proof.
  intros Hk. unfold chunks. generalize (length l) as n. intros n. revert l. induction n as [|n IH]; intros l; [by intros ?%elem_of_nil|].
  destruct l as [|x l]; [by intros ?%elem_of_nil|]. cbn [chunks_of]. intros [->|Hp]%elem_of_cons; [|by eapply IH].
  rewrite length_take. simpl. lia.
Qed.

Lemma mapM_seq {A} (f : nat -> option A) l : (forall k x, l !! k = Some x -> f k = Some x) -> mapM f (seq 0 (length l)) = Some l.
Proof.
  intros Hf. apply mapM_Some. apply Forall2_same_length_lookup. split; [by rewrite length_seq|].
  intros i k x Hk Hx. apply lookup_seq in Hk as [-> _]. by apply Hf.
Qed.

(** ** A stream cut into segments *)

Abbreviation KeyedRecord := (string * list ascii)%type.

Inductive Segment := Packed (records : list KeyedRecord) | Single (record : KeyedRecord).
Definition segment_records (s : Segment) : list KeyedRecord := match s with Packed rs => rs | Single r => [r] end.
Definition records_of (segs : list Segment) : list KeyedRecord := flat_map segment_records segs.
Definition stream (records : list KeyedRecord) : list ascii := flat_map snd records.
Definition is_packed (s : Segment) : bool := match s with Packed _ => true | Single _ => false end.
Definition packed_count (segs : list Segment) : Z := Z.of_nat (length (filter (fun s => is_packed s = true) segs)).
Definition record_count (segs : list Segment) : Z := Z.of_nat (length (records_of segs)).

(** [f] at every segment, with the segments before it. *)
Fixpoint with_prefix {B} (f : list Segment -> Segment -> list B) (pre segs : list Segment) : list B :=
  match segs with [] => [] | s :: rest => f pre s ++ with_prefix f (pre ++ [s]) rest end.

Lemma with_prefix_app {B} (f : list Segment -> Segment -> list B) segs segs' : forall pre,
  with_prefix f pre (segs ++ segs') = with_prefix f pre segs ++ with_prefix f (pre ++ segs) segs'.
Proof.
  induction segs as [|s segs IH]; intros pre; simpl; [by rewrite app_nil_r|]. rewrite IH, <- !app_assoc. done.
Qed.
Lemma with_prefix_snoc {B} (f : list Segment -> Segment -> list B) segs s :
  with_prefix f [] (segs ++ [s]) = with_prefix f [] segs ++ f segs s.
Proof. rewrite with_prefix_app. simpl. by rewrite app_nil_r. Qed.
Lemma elem_of_with_prefix {B} (f : list Segment -> Segment -> list B) segs x :
  x ∈ with_prefix f [] segs <-> exists pre s post, segs = pre ++ s :: post /\ x ∈ f pre s.
Proof.
  induction segs as [|s segs IH] using rev_ind.
  - split; [by intros ?%elem_of_nil|]. intros ([|] & s0 & post & ? & _); done.
  - rewrite with_prefix_snoc, elem_of_app, IH. split.
    + intros [(pre & s' & post & -> & Hx)|Hx].
      * exists pre, s', (post ++ [s]). by rewrite <- app_assoc.
      * by exists segs, s, [].
    + intros (pre & s' & post & E & Hx). destruct post as [|z post _] using rev_ind.
      * apply app_inj_tail in E as [-> ->]. by right.
      * rewrite app_comm_cons, app_assoc in E. apply app_inj_tail in E as [-> ->]. left. by exists pre, s', post.
Qed.
Lemma length_with_prefix {B} (f : list Segment -> Segment -> B) segs pre :
  length (with_prefix (fun pre s => [f pre s]) pre segs) = length segs.
Proof. revert pre. induction segs as [|s segs IH]; intros pre; simpl; [done|]. by rewrite IH. Qed.

Section Stored.
Context `{EvidenceSink, ClosureLib}.
Context (fs_write : string -> list ascii -> bool) (cancelled : Z -> nat -> bool).
Context (relation : string) (max_records max_bytes : Z).

Definition compressed (records : list KeyedRecord) : list ascii := default [] (zstd_stream (stream records)).
Definition first_key (records : list KeyedRecord) : string := default "" (fst <$> head records).
Definition last_key (records : list KeyedRecord) : string := default "" (fst <$> last records).
Definition logical (record : list ascii) : list ascii := take (length record - 1) record.
Definition index_path (pre : list Segment) : string := record_directory relation (record_count pre) +:+ "/index.json".

Definition chunk_entry (directory : string) (k : nat) (piece : list ascii) : AdministrativeOversizedRecordChunk :=
  mk_chunk (Z.of_nat k) (chunk_path directory k) (Z.of_nat (length piece)) (sha256_hex piece).
Definition chunk_artifact (directory : string) (k : nat) (piece : list ascii) : PreparedArtifact :=
  machine_result (chunk_path directory k) CHUNK_MEDIA_TYPE piece.
Definition index_of (pre : list Segment) (r : KeyedRecord) : AdministrativeOversizedRecordIndex :=
  let directory := record_directory relation (record_count pre) in
  let entries := imap (chunk_entry directory) (chunks CHUNK (logical r.2)) in
  mk_oversized_index "lcia.scope-closure-administrative-oversized-record.v1" (without_administrative relation)
    (record_count pre) r.1 (Z.of_nat (length (logical r.2))) (sha256_hex (logical r.2))
    ADMINISTRATIVE_OVERSIZED_RECORD_CHUNK_BYTES (Z.of_nat (length entries)) entries.
Definition index_bytes (pre : list Segment) (r : KeyedRecord) : list ascii := write_canonical_json (oversized_index_json (index_of pre r)).

(** What each segment leaves behind, given the segments before it. *)
Definition segment_entry (pre : list Segment) (s : Segment) : list IssuePartitionManifestEntry :=
  match s with
  | Packed rs => [mk_partition_entry relation (partition_path relation (packed_count pre)) "application/x-ndjson+zstd"
                    (Z.of_nat (length rs)) (Z.of_nat (length (stream rs))) (sha256_hex (stream rs))
                    (Z.of_nat (length (compressed rs))) (sha256_hex (compressed rs)) (first_key rs) (last_key rs)]
  | Single _ => []
  end.
Definition segment_layout (pre : list Segment) (s : Segment) : AdministrativeLayoutEntry :=
  mk_layout relation (Z.of_nat (length pre))
    (match s with Packed _ => "ndjson_partition" | Single _ => "oversized_record" end)
    (match s with Packed _ => partition_path relation (packed_count pre) | Single _ => index_path pre end).
Definition segment_oversized (pre : list Segment) (s : Segment) : list AdministrativeOversizedRecordManifestEntry :=
  match s with
  | Packed _ => []
  | Single r => [mk_oversized relation (record_count pre) r.1 (Z.of_nat (length (logical r.2))) (sha256_hex (logical r.2))
                   (index_path pre) (Z.of_nat (length (index_bytes pre r))) (sha256_hex (index_bytes pre r))]
  end.
Definition segment_artifacts (pre : list Segment) (s : Segment) : list PreparedArtifact :=
  match s with
  | Packed rs => [machine_result (partition_path relation (packed_count pre)) "application/x-ndjson+zstd" (compressed rs)]
  | Single r => imap (chunk_artifact (record_directory relation (record_count pre))) (chunks CHUNK (logical r.2))
                ++ [machine_result (index_path pre) INDEX_MEDIA_TYPE (index_bytes pre r)]
  end.

Definition active_of (segs : list Segment) (active : list KeyedRecord) : option ActiveIssuePartition :=
  match active with
  | [] => None
  | _ => Some (mk_active (partition_path relation (packed_count segs)) (stream active) (Z.of_nat (length active))
                 (Z.of_nat (length (stream active))) (first_key active) (last_key active))
  end.
(** The accumulator after these segments and an active partition. *)
Definition state_of (segs : list Segment) (active : list KeyedRecord) : IssuePartitionAccumulator :=
  let all := records_of segs ++ active in
  mk_accumulator relation max_records max_bytes (active_of segs active) (with_prefix segment_entry [] segs)
    (with_prefix segment_artifacts [] segs) (stream all) (Z.of_nat (length all)) (Z.of_nat (length (stream all)))
    (with_prefix (fun pre s => [segment_layout pre s]) [] segs) (with_prefix segment_oversized [] segs).

Lemma entries_count segs : Z.of_nat (length (with_prefix segment_entry [] segs)) = packed_count segs.
Proof.
  unfold packed_count. induction segs as [|s segs IH] using rev_ind; [done|].
  rewrite with_prefix_snoc, length_app, filter_app, length_app. destruct s; simpl; lia.
Qed.
Lemma records_of_snoc segs s : records_of (segs ++ [s]) = records_of segs ++ segment_records s.
Proof. unfold records_of. rewrite flat_map_app. simpl. by rewrite app_nil_r. Qed.
Lemma stream_app a b : stream (a ++ b) = stream a ++ stream b.
Proof. apply flat_map_app. Qed.

Lemma flush_state segs active : flush (state_of segs active)
  = match active with
    | [] => Ok (state_of segs [])
    | _ => match zstd_stream (stream active) with Some _ => Ok (state_of (segs ++ [Packed active]) []) | None => Err "finish failed" end
    end.
Proof.
  unfold flush. destruct active as [|r active]; [done|]. cbn [state_of active_of pc_active]. cbv zeta.
  cbn [ap_bytes]. destruct (zstd_stream (stream (r :: active))) as [z|] eqn:Hz; [|done]. cbn [ok_or mbind result_bind].
  unfold state_of. cbn [pc_layout pc_relation]. rewrite !with_prefix_snoc, records_of_snoc, (length_with_prefix segment_layout). cbn [segment_records active_of]. rewrite !app_nil_r.
  unfold segment_entry, segment_artifacts, segment_oversized, compressed. by rewrite Hz.
Qed.

(** ** One more record *)

Definition within (active : list KeyedRecord) : Prop :=
  Z.of_nat (length active) <= max_records /\ Z.of_nat (length (stream active)) <= max_bytes.
Definition segment_ok (s : Segment) : Prop :=
  match s with
  | Packed rs => rs <> [] /\ within rs /\ is_Some (zstd_stream (stream rs))
  | Single r => max_bytes < Z.of_nat (length r.2) /\ last r.2 = Some line_feed
  end.

(** Why a push may fail. *)
Definition partition_errors : list string :=
  ["finish failed"; "write failed"; "partition logical record count overflow"; "partition logical byte size overflow";
   "partition record count overflow"; "partition uncompressed byte size overflow";
   "cancelled: scope_closure_administrative_oversized_record_chunk";
   "oversized administrative record must retain canonical NDJSON newline framing"].
Definition partition_refused (e : string) : Prop := e ∈ partition_errors.

Ltac refused := cbn [outcome]; unfold partition_refused; compute_done.

Definition holds (records : list KeyedRecord) (c : IssuePartitionAccumulator) : Prop :=
  exists segs active, c = state_of segs active /\ records_of segs ++ active = records /\ Forall segment_ok segs /\ within active
    /\ Z.of_nat (length (stream records)) <= U64_MAX.

Lemma flush_holds records c : holds records c ->
  outcome (fun c' => exists segs, c' = state_of segs [] /\ records_of segs = records /\ Forall segment_ok segs) partition_refused (flush c).
Proof.
  intros (segs & active & -> & Hr & Hok & Hw & _). rewrite flush_state. destruct active as [|r active].
  - exists segs. by rewrite app_nil_r in Hr.
  - destruct (zstd_stream (stream (r :: active))) eqn:Hz; [|refused]. exists (segs ++ [Packed (r :: active)]).
    split; [done|]. split; [by rewrite records_of_snoc|]. apply Forall_app. split; [done|]. constructor; [|constructor].
    split; [done|]. split; [done|]. by eexists.
Qed.

Lemma push_chunks cancellation ordinal directory pieces :
  outcome (fun out => out = (imap (chunk_entry directory) pieces, imap (chunk_artifact directory) pieces)) partition_refused
    (foldM (push_chunk fs_write cancelled cancellation ordinal directory) (zip (seq 0 (length pieces)) pieces) ([], [])).
Proof.
  enough (forall pre, outcome (fun out => out = (imap (chunk_entry directory) (pre ++ pieces), imap (chunk_artifact directory) (pre ++ pieces)))
    partition_refused (foldM (push_chunk fs_write cancelled cancellation ordinal directory) (zip (seq (length pre) (length pieces)) pieces)
      (imap (chunk_entry directory) pre, imap (chunk_artifact directory) pre))) as HH by exact (HH []).
  induction pieces as [|piece pieces IH]; intros pre; [by rewrite app_nil_r|]. cbn [length seq zip zip_with foldM].
  change (outcome (fun out => out = (imap (chunk_entry directory) (pre ++ piece :: pieces), imap (chunk_artifact directory) (pre ++ piece :: pieces)))
    partition_refused (push_chunk fs_write cancelled cancellation ordinal directory
        (imap (chunk_entry directory) pre, imap (chunk_artifact directory) pre) (length pre, piece)
      ≫= foldM (push_chunk fs_write cancelled cancellation ordinal directory) (zip (seq (S (length pre)) (length pieces)) pieces))).
  apply (outcome_bind _ (fun out => out = (imap (chunk_entry directory) (pre ++ [piece]), imap (chunk_artifact directory) (pre ++ [piece])))).
  - unfold push_chunk. cbn [fst snd]. eapply outcome_bind; [apply outcome_ensure; intros _; refused|]. intros _ _ _. cbv zeta.
    eapply outcome_bind; [apply outcome_ensure; intros _; refused|]. intros _ _ _. cbn [outcome]. rewrite !imap_app. cbn [imap].
    by rewrite Nat.add_0_r.
  - intros out _ ->. specialize (IH (pre ++ [piece])). rewrite length_app, Nat.add_1_r, <- app_assoc in IH. exact IH.
Qed.

Lemma oversized_holds cancellation records c key record : holds records c -> max_bytes < Z.of_nat (length record) -> 1 <= max_records -> 0 <= max_bytes ->
  outcome (holds (records ++ [(key, record)])) partition_refused (push_oversized_record fs_write cancelled cancellation c key record).
Proof.
  intros Hc Hbig Hrec Hmax. unfold push_oversized_record.
  eapply outcome_bind; [apply outcome_ensure; intros _; refused|]. intros _ _ Hlast%bool_decide_eq_true.
  eapply outcome_bind; [exact (flush_holds _ _ Hc)|]. intros c' _ (segs & -> & Hr & Hok). cbv zeta.
  assert (pc_record_count (state_of segs []) = record_count segs) as Hn
    by (unfold record_count; cbn [state_of pc_record_count]; by rewrite app_nil_r).
  cbn [pc_relation state_of]. fold (state_of segs []). rewrite Hn. fold (logical record).
  eapply outcome_bind; [apply push_chunks|]. intros out _ ->.
  eapply outcome_bind; [apply outcome_ensure; intros _; refused|]. intros _ _ _.
  unfold count_record. rewrite bind_assoc. eapply outcome_bind; [apply outcome_ensure; intros _; refused|]. intros _ _ _.
  eapply outcome_bind; [apply outcome_ensure; intros _; refused|]. intros _ _ Hsize%Z.leb_le.
  exists (segs ++ [Single (key, record)]), []. split; [|split; [by rewrite app_nil_r, records_of_snoc, Hr|split; [|split]]].
  - cbn [pc_layout pc_max_records pc_max_bytes pc_active pc_entries pc_artifacts pc_relation_bytes pc_byte_size pc_oversized state_of].
    unfold state_of. rewrite !with_prefix_snoc, records_of_snoc, (length_with_prefix segment_layout), !app_nil_r.
    rewrite stream_app, !length_app. assert (stream (segment_records (Single (key, record))) = record) as -> by apply app_nil_r.
    rewrite !Nat2Z.inj_add. reflexivity.
  - apply Forall_app. split; [exact Hok|]. constructor; [split; [exact Hbig|exact Hlast]|constructor].
  - split; simpl; lia.
  - cbn [pc_byte_size state_of] in Hsize. rewrite app_nil_r, Hr in Hsize. rewrite stream_app, length_app. simpl. rewrite app_nil_r. lia.
Qed.

Lemma last_snoc_key (active : list KeyedRecord) key record : last_key (active ++ [(key, record)]) = key.
Proof. unfold last_key. by rewrite last_snoc. Qed.

(** A record that fits joins the active partition. *)
Lemma join_active segs active key record :
  outcome (fun c => c = state_of segs (active ++ [(key, record)])
      /\ Z.of_nat (length (stream (records_of segs ++ active))) + Z.of_nat (length record) <= U64_MAX) partition_refused
    (let c := state_of segs active in
     let record_bytes := Z.of_nat (length record) in
     let part := match pc_active c with Some part => part | None => open_partition c key end in
     _ ← ensure (sink_accepts (ap_bytes part) record) "write failed";
     _ ← count_record c record_bytes;
     _ ← ensure (ap_record_count part + 1 <=? U64_MAX) "partition record count overflow";
     _ ← ensure (ap_uncompressed_bytes part + record_bytes <=? U64_MAX) "partition uncompressed byte size overflow";
     Ok (mk_accumulator (pc_relation c) (pc_max_records c) (pc_max_bytes c)
          (Some (mk_active (ap_relative_path part) (ap_bytes part ++ record) (ap_record_count part + 1)
                   (ap_uncompressed_bytes part + record_bytes) (ap_first_key part) key))
          (pc_entries c) (pc_artifacts c) (pc_relation_bytes c ++ record) (pc_record_count c + 1)
          (pc_byte_size c + record_bytes) (pc_layout c) (pc_oversized c))).
Proof.
  cbv zeta. set (part := match pc_active _ with Some part => part | None => _ end).
  assert (part = mk_active (partition_path relation (packed_count segs)) (stream active) (Z.of_nat (length active))
    (Z.of_nat (length (stream active))) (first_key (active ++ [(key, record)])) (match active with [] => key | _ => last_key active end)) as ->.
  { unfold part. destruct active as [|r active]; [|reflexivity]. cbn [state_of active_of pc_active]. unfold open_partition.
    cbn [pc_entries pc_relation state_of]. rewrite entries_count. reflexivity. }
  eapply outcome_bind; [apply outcome_ensure; intros _; refused|]. intros _ _ _.
  unfold count_record. rewrite bind_assoc. eapply outcome_bind; [apply outcome_ensure; intros _; refused|]. intros _ _ _.
  eapply outcome_bind; [apply outcome_ensure; intros _; refused|]. intros _ _ Hsize%Z.leb_le.
  do 2 (eapply outcome_bind; [apply outcome_ensure; intros _; refused|]; intros _ _ _). cbn [outcome]. split; [|exact Hsize].
  cbn [pc_layout pc_max_records pc_max_bytes pc_entries pc_artifacts pc_relation pc_relation_bytes pc_byte_size pc_record_count pc_oversized state_of
    ap_relative_path ap_bytes ap_record_count ap_uncompressed_bytes ap_first_key].
  unfold state_of. rewrite app_assoc, !stream_app, !length_app, !Nat2Z.inj_add.
  assert (stream [(key, record)] = record) as -> by apply app_nil_r.
  assert (active_of segs (active ++ [(key, record)]) = Some (mk_active (partition_path relation (packed_count segs)) (stream active ++ record)
    (Z.of_nat (length active) + 1) (Z.of_nat (length (stream active)) + Z.of_nat (length record)) (first_key (active ++ [(key, record)])) key)) as ->.
  { unfold active_of. destruct (active ++ [(key, record)]) as [|r l] eqn:E; [by destruct active|]. rewrite <- E, last_snoc_key.
    rewrite stream_app, !length_app, !Nat2Z.inj_add. assert (stream [(key, record)] = record) as -> by apply app_nil_r. reflexivity. }
  reflexivity.
Qed.

Lemma push_holds cancellation records c key record : 1 <= max_records -> 0 <= max_bytes < USIZE_MAX -> holds records c ->
  outcome (holds (records ++ [(key, record)])) partition_refused (push_bytes_with_cancellation fs_write cancelled cancellation c key record).
Proof.
  intros Hmr Hmb Hc. unfold push_bytes_with_cancellation. cbv zeta. destruct (Z.ltb_spec (pc_max_bytes c) (Z.of_nat (length record))) as [Hbig|Hfit].
  { apply oversized_holds; [exact Hc| |lia..]. destruct Hc as (segs & active & -> & _). exact Hbig. }
  apply (outcome_bind _ (fun c' => exists segs active, c' = state_of segs active /\ records_of segs ++ active = records
    /\ Forall segment_ok segs /\ within (active ++ [(key, record)]))).
  - destruct (record_limit_reached c || byte_limit_reached c (Z.of_nat (length record))) eqn:Hlim.
    + assert (Z.of_nat (length record) <= max_bytes) as Hfit' by (destruct Hc as (segs & active & -> & _); exact Hfit).
      eapply outcome_mono; [exact (flush_holds _ _ Hc)|]. intros c' _ (segs & -> & Hr & Hok). exists segs, [].
      split; [reflexivity|]. split; [by rewrite app_nil_r|]. split; [exact Hok|]. split; simpl; [lia|]. by rewrite app_nil_r.
    + destruct Hc as (segs & active & -> & Hr & Hok & [Hw1 Hw2] & _). exists segs, active. split; [reflexivity|]. split; [exact Hr|]. split; [exact Hok|].
      unfold within. rewrite stream_app, !length_app. simpl. rewrite app_nil_r. cbn [pc_max_bytes state_of] in Hfit.
      unfold record_limit_reached, byte_limit_reached in Hlim. cbn [pc_active state_of active_of pc_max_records pc_max_bytes] in Hlim.
      destruct active as [|r active]; [simpl; lia|]. cbn [active_of ap_record_count ap_uncompressed_bytes] in Hlim.
      apply orb_false_iff in Hlim as [Hl1%Z.leb_gt Hl2%Z.ltb_ge]. unfold saturating_add in Hl2. lia.
  - intros c' _ (segs & active & -> & Hr & Hok & Hw). eapply outcome_mono; [exact (join_active segs active key record)|].
    intros c'' _ [-> Hsize]. exists segs, (active ++ [(key, record)]). split; [reflexivity|]. split; [by rewrite app_assoc, Hr|]. split; [exact Hok|].
    split; [exact Hw|]. rewrite Hr in Hsize. rewrite stream_app, length_app. simpl. rewrite app_nil_r. lia.
Qed.

(** ** Names *)

Lemma segment_names pre s a : a ∈ segment_artifacts pre s ->
  (is_packed s = true /\ file_name a = partition_path relation (packed_count pre))
  \/ (is_packed s = false /\ exists x, file_name a = record_directory relation (record_count pre) +:+ "/" +:+ x).
Proof.
  destruct s as [rs|r]; simpl.
  - intros ->%list_elem_of_singleton. by left.
  - intros [Ha| ->%list_elem_of_singleton]%elem_of_app; right; (split; [done|]).
    + apply elem_of_lookup_imap in Ha as (k & piece & -> & _). by eexists.
    + by eexists.
Qed.

Lemma packed_count_snoc segs s : packed_count (segs ++ [s]) = packed_count segs + (if is_packed s then 1 else 0).
Proof. unfold packed_count. rewrite filter_app, length_app. destruct s; simpl; lia. Qed.
Lemma record_count_snoc segs s : record_count (segs ++ [s]) = record_count segs + Z.of_nat (length (segment_records s)).
Proof. unfold record_count. rewrite records_of_snoc, length_app. lia. Qed.

Lemma names_used segs a : a ∈ with_prefix segment_artifacts [] segs ->
  (exists k, 0 <= k < packed_count segs /\ file_name a = partition_path relation k)
  \/ (exists n x, 0 <= n < record_count segs /\ file_name a = record_directory relation n +:+ "/" +:+ x).
Proof.
  assert (forall l, 0 <= packed_count l /\ 0 <= record_count l) as Hpos by (intros; unfold packed_count, record_count; lia).
  induction segs as [|s segs IH] using rev_ind; [by intros ?%elem_of_nil|].
  rewrite with_prefix_snoc, elem_of_app, packed_count_snoc, record_count_snoc. destruct (Hpos segs) as [Hp1 Hp2]. intros [Ha|Ha].
  - destruct (IH Ha) as [(k & Hk & E)|(n & x & Hn & E)]; [left; exists k|right; exists n, x]; (split; [|exact E]); [case_match|]; lia.
  - destruct (segment_names _ _ _ Ha) as [[Hs E]|(Hs & x & E)].
    + left. exists (packed_count segs). rewrite Hs. split; [lia|exact E].
    + right. exists (record_count segs), x. destruct s; [done|]. simpl. split; [lia|exact E].
Qed.

Lemma part_not_record k n x : partition_path relation k <> record_directory relation n +:+ "/" +:+ x.
Proof.
  intros E. apply (f_equal bytes) in E. unfold partition_path, record_directory in E. rewrite !bytes_app, <- !app_assoc in E.
  apply app_inv_head in E. discriminate E.
Qed.

Lemma chunk_names directory pieces :
  NoDup (file_name <$> imap (chunk_artifact directory) pieces).
Proof.
  apply NoDup_alt. intros i j x Hi Hj. rewrite list_lookup_fmap, list_lookup_imap in Hi, Hj.
  destruct (pieces !! i) as [p|]; [|done]. destruct (pieces !! j) as [q|]; [|done]. 
  apply (chunk_path_inj directory). injection Hi as Hi. injection Hj as Hj. exact (eq_trans Hi (eq_sym Hj)).
Qed.

Lemma names_distinct segs : NoDup (file_name <$> with_prefix segment_artifacts [] segs).
Proof.
  assert (forall l, 0 <= packed_count l /\ 0 <= record_count l) as Hpos by (intros; unfold packed_count, record_count; lia).
  induction segs as [|s segs IH] using rev_ind; [constructor|]. rewrite with_prefix_snoc, fmap_app. destruct (Hpos segs) as [Hp1 Hp2].
  apply NoDup_app. split; [exact IH|]. split.
  - intros name (a & -> & Ha)%list_elem_of_fmap (b & E & Hb)%list_elem_of_fmap.
    destruct (segment_names _ _ _ Hb) as [[_ Eb]|(_ & x & Eb)], (names_used _ _ Ha) as [(k & Hk & Ea)|(n & y & Hn & Ea)];
      rewrite Ea, Eb in E.
    + apply partition_path_inj in E; lia.
    + symmetry in E. by apply part_not_record in E.
    + by apply part_not_record in E.
    + apply directory_inj in E as [E _]; lia.
  - destruct s as [rs|r]; [apply NoDup_singleton|]. cbn [segment_artifacts]. rewrite fmap_app. apply NoDup_app. split; [apply chunk_names|].
    split; [|apply NoDup_singleton]. intros name (a & -> & Ha)%list_elem_of_fmap Hin%list_elem_of_singleton.
    apply elem_of_lookup_imap in Ha as (k & piece & -> & _). cbn in Hin. unfold chunk_path, index_path in Hin. by apply (inj _) in Hin.
Qed.
Lemma oversized_distinct segs : NoDup (ao_index_path <$> with_prefix segment_oversized [] segs).
Proof.
  assert (forall l, 0 <= record_count l) as Hpos by (intros; unfold record_count; lia).
  induction segs as [|s segs IH] using rev_ind; [constructor|]. rewrite with_prefix_snoc, fmap_app. apply NoDup_app. split; [exact IH|].
  split; [|destruct s; [constructor|apply NoDup_singleton]].
  intros path (o & -> & (pre & s' & post & -> & Ho)%elem_of_with_prefix)%list_elem_of_fmap Hin.
  destruct s as [|r]; [by apply elem_of_nil in Hin|]. apply list_elem_of_singleton in Hin. cbn in Hin.
  destruct s' as [|r']; [by apply elem_of_nil in Ho|]. apply list_elem_of_singleton in Ho as ->. cbn in Hin.
  apply (directory_inj relation _ _ "index.json" "index.json") in Hin as [Hin _]; [|apply Hpos..].
  unfold record_count, records_of in Hin. rewrite flat_map_app, length_app in Hin. cbn [flat_map segment_records app length] in Hin. lia.
Qed.

(** ** The finished accumulator *)

Definition finish_of (segs : list Segment) : IssuePartitionFinish :=
  mk_partition_finish (with_prefix segment_entry [] segs) (with_prefix segment_artifacts [] segs) (sha256_hex (stream (records_of segs)))
    (record_count segs) (Z.of_nat (length (stream (records_of segs)))) (with_prefix (fun pre s => [segment_layout pre s]) [] segs)
    (with_prefix segment_oversized [] segs).

Context (unzstd : list ascii -> option (list ascii)) (Hunzstd : forall b z, zstd_stream b = Some z -> unzstd z = Some b).

Lemma logical_framed record : last record = Some line_feed -> logical record ++ [line_feed] = record.
Proof.
  intros [l ->]%last_Some. unfold logical. rewrite length_app. cbn [length]. by rewrite Nat.add_sub, take_app_length.
Qed.

Lemma restore_segment segs pre s post : segs = pre ++ s :: post -> segment_ok s ->
  restore_entry unzstd (finish_of segs) (segment_layout pre s) = Some (stream (segment_records s)).
Proof using Hunzstd.
  intros Hsegs Hok. unfold restore_entry. cbn [pf_artifacts pf_oversized finish_of].
  assert (forall a, a ∈ segment_artifacts pre s -> find_content (with_prefix segment_artifacts [] segs) (file_name a) = Some (pa_content a)) as Hfind.
  { intros a Ha. apply find_content_in; [apply names_distinct|]. apply elem_of_with_prefix. by exists pre, s, post. }
  destruct s as [rs|r]; cbn [segment_layout al_kind al_path].
  - rewrite decide_True by done. destruct Hok as (_ & _ & [z Hz]).
    specialize (Hfind _ (list_elem_of_here _ _)). cbn [file_name machine_result pa_descriptor am_file_name pa_content] in Hfind. rewrite Hfind.
    unfold compressed. rewrite Hz. cbn [mbind option_bind default]. by apply Hunzstd.
  - rewrite decide_False by done. destruct Hok as [_ Hlast].
    assert (exists o, o ∈ with_prefix segment_oversized [] segs /\ ao_index_path o = index_path pre /\ ao_relation o = relation
      /\ ao_record_ordinal o = record_count pre /\ ao_logical_size o = Z.of_nat (length (logical r.2))) as (o & Ho & Hp & Hrel & Hord & Hsize).
    { eexists. split; [apply elem_of_with_prefix; exists pre, (Single r), post; split; [exact Hsegs|apply list_elem_of_here]|]. by split_and!. }
    rewrite <- Hp, (find_by_key ao_index_path _ o (oversized_distinct segs) Ho). cbn [mbind option_bind]. rewrite Hrel, Hord, Hsize.
    assert (chunk_count (Z.of_nat (length (logical r.2))) = length (chunks CHUNK (logical r.2))) as ->.
    { unfold chunk_count. rewrite <- CHUNK_bytes, <- length_chunks; [apply Nat2Z.id|]. pose proof CHUNK_bytes.
      unfold ADMINISTRATIVE_OVERSIZED_RECORD_CHUNK_BYTES in *. lia. }
    rewrite (mapM_seq _ (chunks CHUNK (logical r.2))).
    + cbn [mbind option_bind]. rewrite concat_chunks, logical_framed by (done || (pose proof CHUNK_bytes; unfold ADMINISTRATIVE_OVERSIZED_RECORD_CHUNK_BYTES in *; lia)).
      unfold stream. cbn [segment_records flat_map]. by rewrite app_nil_r.
    + intros k piece Hk. apply (Hfind (chunk_artifact (record_directory relation (record_count pre)) k piece)).
      cbn [segment_artifacts]. apply elem_of_app. left. apply elem_of_lookup_imap. by exists k, piece.
Qed.

Lemma mapM_with_prefix {A B} (g : A -> option B) (h : list Segment -> Segment -> A) (k : Segment -> B) segs : forall pre,
  (forall p s q, segs = p ++ s :: q -> g (h (pre ++ p) s) = Some (k s)) ->
  mapM g (with_prefix (fun pre s => [h pre s]) pre segs) = Some (k <$> segs).
Proof.
  induction segs as [|s segs IH]; intros pre Hg; [done|]. cbn [with_prefix app mapM].
  pose proof (Hg [] s segs eq_refl) as E. rewrite app_nil_r in E. rewrite E. cbn [mbind option_bind]. rewrite IH; [done|].
  intros p s' q ->. specialize (Hg (s :: p) s' q eq_refl). by rewrite <- app_assoc.
Qed.

Lemma restore_finish segs : Forall segment_ok segs -> restore unzstd (finish_of segs) = Some (stream (records_of segs)).
Proof using Hunzstd.
  intros Hok. unfold restore. cbn [pf_layout finish_of].
  rewrite (mapM_with_prefix _ segment_layout (fun s => stream (segment_records s))).
  - cbn. f_equal. unfold records_of, stream. clear. induction segs as [|s segs IH]; [done|]. cbn. by rewrite flat_map_app, IH.
  - intros pre s post Hsegs. cbn [app]. apply (restore_segment segs pre s post Hsegs). rewrite Hsegs in Hok. apply Forall_app in Hok as [_ Hok].
    by apply Forall_cons in Hok as [? _].
Qed.

(** ** Bounds *)

(** The manifest describes every file, and chunks are bounded. *)
Definition described (a : PreparedArtifact) : Prop :=
  am_byte_size (pa_descriptor a) = Z.of_nat (length (pa_content a)) /\ am_checksum (pa_descriptor a) = sha256_hex (pa_content a)
  /\ (am_content_type (pa_descriptor a) = CHUNK_MEDIA_TYPE ->
        0 < am_byte_size (pa_descriptor a) <= ADMINISTRATIVE_OVERSIZED_RECORD_CHUNK_BYTES).
Definition bounded (e : IssuePartitionManifestEntry) : Prop :=
  1 <= pm_record_count e <= max_records /\ pm_uncompressed_size e <= max_bytes.

Lemma finish_described segs : Forall described (pf_artifacts (finish_of segs)).
Proof.
  apply Forall_forall. intros a (pre & s & post & _ & Ha)%elem_of_with_prefix. destruct s as [rs|r].
  - apply list_elem_of_singleton in Ha as ->. by split_and!.
  - apply elem_of_app in Ha as [Ha| ->%list_elem_of_singleton]; [|by split_and!].
    apply elem_of_lookup_imap in Ha as (k & piece & -> & Hk). split_and!; [reflexivity..|]. intros _.
    cbn [am_byte_size pa_descriptor chunk_artifact machine_result]. apply list_elem_of_lookup_2, chunk_bounds in Hk.
    + rewrite <- CHUNK_bytes. lia.
    + pose proof CHUNK_bytes. unfold ADMINISTRATIVE_OVERSIZED_RECORD_CHUNK_BYTES in *. lia.
Qed.
Lemma finish_bounded segs : Forall segment_ok segs -> Forall bounded (pf_entries (finish_of segs)).
Proof.
  intros Hok. apply Forall_forall. intros e (pre & s & post & -> & He)%elem_of_with_prefix. apply Forall_app in Hok as [_ Hok].
  apply Forall_cons in Hok as [Hs _]. destruct s as [rs|r]; [|by apply elem_of_nil in He]. apply list_elem_of_singleton in He as ->.
  destruct Hs as (Hne & [Hw1 Hw2] & _). unfold bounded. cbn [pm_record_count pm_uncompressed_size].
  destruct rs; [done|]. cbn [length] in *. lia.
Qed.
Lemma finish_sequence segs : al_sequence_ordinal <$> pf_layout (finish_of segs) = Z.of_nat <$> seq 0 (length segs).
Proof.
  cbn [pf_layout finish_of]. induction segs as [|s segs IH] using rev_ind; [done|].
  rewrite with_prefix_snoc, fmap_app, IH, length_app, seq_app, fmap_app. done.
Qed.

Lemma pushes_hold cancellation records : 1 <= max_records -> 0 <= max_bytes < USIZE_MAX ->
  outcome (holds records) partition_refused
    (foldM (fun c (r : KeyedRecord) => push_bytes_with_cancellation fs_write cancelled cancellation c r.1 r.2) records
       (accumulator_with_limits relation max_records max_bytes)).
Proof.
  intros Hr Hb. apply (outcome_foldM _ (fun pre c => holds pre c)).
  - exists [], []. split_and!; [reflexivity..|constructor|split; simpl; lia|by vm_compute].
  - intros pre [key record] post c _ Hc. by apply push_holds.
Qed.
Lemma finish_holds records c : holds records c ->
  outcome (fun f => exists segs, f = finish_of segs /\ records_of segs = records /\ Forall segment_ok segs) partition_refused (partition_finish c).
Proof.
  intros Hc. unfold partition_finish. eapply outcome_bind; [exact (flush_holds _ _ Hc)|]. intros c' _ (segs & -> & Hr & Hok).
  exists segs. split; [|done]. unfold finish_of, state_of, record_count. cbn. by rewrite !app_nil_r.
Qed.
End Stored.

(** C13: partitioning a relation stream loses nothing and respects its bounds.
    For every sequence of keyed records and every pair of limits, the finished
    accumulator restores to the concatenated records when its layout is read
    back from the files alone (partitions decompressed, oversized records
    reassembled from their chunks); its counters and digest are those of the
    stream; every partition holds between one and the maximal number of records
    and no more than the maximal bytes; chunks are bounded; files have distinct
    names and the sizes and digests their descriptors state; the layout is
    numbered without gaps.  The only failures are refused writes, a missing
    newline of an oversized record, cancellation and counter overflow. *)
Theorem partition_stream_exact `{EvidenceSink, ClosureLib} fs_write cancelled cancellation relation max_records max_bytes unzstd
    (records : list KeyedRecord) :
  1 <= max_records -> 0 <= max_bytes < USIZE_MAX -> (forall b z, zstd_stream b = Some z -> unzstd z = Some b) ->
  outcome (fun f => restore unzstd f = Some (stream records)
      /\ pf_record_count f = Z.of_nat (length records) /\ pf_byte_size f = Z.of_nat (length (stream records))
      /\ pf_sha256 f = sha256_hex (stream records)
      /\ Forall (bounded max_records max_bytes) (pf_entries f)
      /\ Forall described (pf_artifacts f) /\ NoDup (file_name <$> pf_artifacts f)
      /\ al_sequence_ordinal <$> pf_layout f = Z.of_nat <$> seq 0 (length (pf_layout f)))
    partition_refused
    (c ← foldM (fun c (r : KeyedRecord) => push_bytes_with_cancellation fs_write cancelled cancellation c r.1 r.2) records
          (accumulator_with_limits relation max_records max_bytes);
     partition_finish c).
Proof.
  intros Hr Hb Hz. eapply outcome_bind; [by apply pushes_hold|]. intros c _ Hc.
  eapply outcome_mono; [exact (finish_holds _ _ _ _ _ Hc)|]. intros f _ (segs & -> & <- & Hok). split_and!.
  - by apply (restore_finish relation max_records max_bytes).
  - reflexivity.
  - reflexivity.
  - reflexivity.
  - by apply finish_bounded.
  - apply finish_described.
  - apply names_distinct.
  - rewrite finish_sequence. do 2 f_equal. symmetry. apply (length_with_prefix (segment_layout relation)).
Qed.

(** ** A run with a small bound *)

#[local] Instance copying_sink : EvidenceSink := {| sink_accepts := fun _ _ => true; zstd_stream := Some |}.
#[local] Instance digest_lib : ClosureLib :=
  {| uuid_text := fun _ => "id"; uuid_parse_str := fun _ => None; sha256_hex := fun _ => "digest"; json_text := fun _ => [] |}.
Definition sample_stream : list KeyedRecord :=
  [("a", bytes "1" ++ [line_feed]); ("b", bytes "2" ++ [line_feed]); ("c", bytes "33333" ++ [line_feed]); ("d", bytes "4" ++ [line_feed])].

Lemma partition_stream_exact_witness :
  exists f, (c ← foldM (fun c (r : KeyedRecord) => push_bytes_with_cancellation (fun _ _ => true) (fun _ _ => false) true c r.1 r.2) sample_stream
                  (accumulator_with_limits "issues" 10 4);
             partition_finish c) = Ok f
    /\ al_kind <$> pf_layout f = ["ndjson_partition"; "oversized_record"; "ndjson_partition"]
    /\ restore Some f = Some (stream sample_stream).
Proof.
  pose proof (partition_stream_exact (fun _ _ => true) (fun _ _ => false) true "issues" 10 4 Some sample_stream ltac:(lia) ltac:(by vm_compute)
    ltac:(by intros b z [= ->])) as HT.
  destruct (c ← _; _) as [f| |] eqn:E in HT |- *; [|by vm_compute in E..].
  exists f. split; [done|]. destruct HT as (Hrest & _). split; [|exact Hrest].
  assert (match (c ← foldM (fun c (r : KeyedRecord) => push_bytes_with_cancellation (fun _ _ => true) (fun _ _ => false) true c r.1 r.2) sample_stream
                  (accumulator_with_limits "issues" 10 4); partition_finish c) with
          | Ok f => al_kind <$> pf_layout f | _ => [] end = ["ndjson_partition"; "oversized_record"; "ndjson_partition"]) as Hk by (by vm_compute).
  rewrite E in Hk. exact Hk.
Defined.
