(* ===== verification/Administrative.v ===== *)
(** * Administrative evidence

    The eight relations of a finished scan (scope_closure.rs).
    [prepare_administrative_partition_artifacts] cuts each into partitions for
    the manifest; [administrative_evidence_summaries] summarizes the same
    relations for the closure bundle, by another computation.  The resolution
    map is one of them: every reference request of the edges and every omitted
    version resolved, sorted. *)

From S2P Require Import Prelude Text Json DataBuilder Identity References RefGraph BinarySearch Wire Issues ExternalSort SnapshotProvider Preflight Partitions.

Local Open Scope string_scope.
Local Open Scope Z_scope.
Local Open Scope list_scope.

Definition ADMINISTRATIVE_PARTITION_MAX_RECORDS : Z := 25000.
Definition ADMINISTRATIVE_PARTITION_MAX_UNCOMPRESSED_BYTES : Z := 32 * 1024 * 1024.

Record AdministrativeEvidenceSummary := mk_summary {
  as_relation : string;
  as_record_count : Z;
  as_logical_size : Z;
  as_logical_sha256 : string;
  as_partition_prefix : string;
}.
(** The five lists the relations are collected into. *)
Record PreparedAdministrativePartitions := mk_administrative {
  ad_summaries : list AdministrativeEvidenceSummary;
  ad_entries : list IssuePartitionManifestEntry;
  ad_layout : list AdministrativeLayoutEntry;
  ad_oversized : list AdministrativeOversizedRecordManifestEntry;
  ad_artifacts : list PreparedArtifact;
}.
Definition administrative_partition_prefix (relation : string) : string := "administrative/" +:+ relation.

Section Administrative.
Context `{EvidenceSink, ClosureLib}.
(** [fs_write] as for a partition; the cancellation token by phase and record,
    and at the chunks of an oversized record; [parse_json] is [serde_json]'s. *)
Context (fs_write : string -> list ascii -> bool) (cancelled : string -> nat -> bool) (chunk_cancelled : string -> Z -> nat -> bool).
Context (parse_json : Line -> result string Value) (available : SpaceQuery -> Z).

Definition canonical (line : Line) : result string Line := v ← parse_json line; Ok (write_canonical_json v).

(** ** The partitions *)

Definition administrative_accumulator (relation : string) : IssuePartitionAccumulator :=
  accumulator_with_limits (administrative_partition_prefix relation) ADMINISTRATIVE_PARTITION_MAX_RECORDS
    ADMINISTRATIVE_PARTITION_MAX_UNCOMPRESSED_BYTES.

Definition relabel_layout (relation : string) (l : AdministrativeLayoutEntry) : AdministrativeLayoutEntry :=
  mk_layout relation (al_sequence_ordinal l) (al_kind l) (al_path l).
Definition relabel_oversized (relation : string) (o : AdministrativeOversizedRecordManifestEntry) : AdministrativeOversizedRecordManifestEntry :=
  mk_oversized relation (ao_record_ordinal o) (ao_record_key o) (ao_logical_size o) (ao_logical_sha256 o) (ao_index_path o)
    (ao_index_size o) (ao_index_sha256 o).
Definition finish_administrative_relation (relation : string) (accumulator : IssuePartitionAccumulator)
    (out : PreparedAdministrativePartitions) : result string PreparedAdministrativePartitions :=
  f ← partition_finish accumulator;
  Ok (mk_administrative
        (ad_summaries out ++ [mk_summary relation (pf_record_count f) (pf_byte_size f) (pf_sha256 f) (administrative_partition_prefix relation)])
        (ad_entries out ++ pf_entries f) (ad_layout out ++ (relabel_layout relation <$> pf_layout f))
        (ad_oversized out ++ (relabel_oversized relation <$> pf_oversized f)) (ad_artifacts out ++ pf_artifacts f)).

(** One keyed line, after the check for cancellation. *)
Definition push_record (phase relation : string) (c : IssuePartitionAccumulator) (ix : nat * KeyedRecord) : result string IssuePartitionAccumulator :=
  _ ← ensure (negb (cancelled phase ix.1)) ("cancelled: " +:+ phase);
  push_bytes_cancellable fs_write (chunk_cancelled relation) c ix.2.1 (ix.2.2 ++ [line_feed]).
Definition push_records (phase relation : string) (records : list KeyedRecord) : result string IssuePartitionAccumulator :=
  foldM (push_record phase relation) (zip (seq 0 (length records)) records) (administrative_accumulator relation).

(** A line of a spool is parsed and written canonically before it is pushed. *)
Definition push_line (relation : string) (st : IssuePartitionAccumulator * nat) (line : Line) : result string (IssuePartitionAccumulator * nat) :=
  let '(c, ordinal) := st in
  v ← parse_json line;
  _ ← ensure (negb (cancelled "scope_closure_administrative_spool" ordinal)) "cancelled: scope_closure_administrative_spool";
  c ← push_bytes_cancellable fs_write (chunk_cancelled relation) c (zero_padded 20 (Z.of_nat ordinal)) (write_canonical_json v ++ [line_feed]);
  _ ← ensure (Z.of_nat ordinal + 1 <=? U64_MAX) "administrative record ordinal overflow";
  Ok (c, S ordinal).
Definition prepare_spooled_administrative_relation (relation : string) (spool : JsonlValueSpool) (out : PreparedAdministrativePartitions)
    : result string PreparedAdministrativePartitions :=
  '(c, _) ← foldM (push_line relation) (spool_visit spool) (administrative_accumulator relation, O);
  finish_administrative_relation relation c out.

Definition value_records (values : list Value) : list KeyedRecord :=
  imap (fun k v => (zero_padded 20 (Z.of_nat k), write_canonical_json v)) values.
Definition prepare_values_administrative_relation (relation : string) (values : list Value) (out : PreparedAdministrativePartitions)
    : result string PreparedAdministrativePartitions :=
  c ← push_records "scope_closure_administrative_values" relation (value_records values);
  finish_administrative_relation relation c out.

Definition prepare_documents (documents : ClosureDocumentSpool) (out : PreparedAdministrativePartitions)
    : result string PreparedAdministrativePartitions :=
  visited ← documents_visit documents;
  c ← push_records "scope_closure_administrative_documents" "documents" ((fun ib => (document_key ib.1, ib.2)) <$> visited);
  finish_administrative_relation "documents" c out.

Definition summary_cmp : AdministrativeEvidenceSummary -> AdministrativeEvidenceSummary -> comparison := cmp_by as_relation String.compare.
Definition entry_cmp : IssuePartitionManifestEntry -> IssuePartitionManifestEntry -> comparison := cmp_by pm_path String.compare.
Definition layout_cmp : AdministrativeLayoutEntry -> AdministrativeLayoutEntry -> comparison :=
  cmp_then (cmp_by al_relation String.compare) (cmp_by al_sequence_ordinal Z.compare).
Definition oversized_cmp : AdministrativeOversizedRecordManifestEntry -> AdministrativeOversizedRecordManifestEntry -> comparison :=
  cmp_then (cmp_by ao_relation String.compare) (cmp_by ao_record_ordinal Z.compare).
Definition artifact_cmp : PreparedArtifact -> PreparedArtifact -> comparison := cmp_by file_name String.compare.

Definition prepare_administrative_partition_artifacts (scan : ScopeClosureScan) (resolution_map : JsonlValueSpool)
    : result string PreparedAdministrativePartitions :=
  out ← prepare_documents (cs_documents scan) (mk_administrative [] [] [] [] []);
  out ← prepare_spooled_administrative_relation "edges" (cs_edges scan) out;
  out ← prepare_values_administrative_relation "frontier" (identity_json <$> cs_frontier scan) out;
  out ← prepare_values_administrative_relation "omitted-version-resolutions" (cs_omitted scan) out;
  out ← prepare_values_administrative_relation "provider-universe" (identity_json <$> cs_provider_universe scan) out;
  out ← prepare_spooled_administrative_relation "resolution-map" resolution_map out;
  out ← prepare_spooled_administrative_relation "resolved-references" (cs_references scan) out;
  out ← prepare_values_administrative_relation "roots" (identity_json <$> cs_roots scan) out;
  Ok (mk_administrative (sort_by summary_cmp (ad_summaries out)) (sort_by entry_cmp (ad_entries out))
        (sort_by layout_cmp (ad_layout out)) (sort_by oversized_cmp (ad_oversized out)) (sort_by artifact_cmp (ad_artifacts out))).

(** ** The summaries of the bundle *)

(** A running digest and byte count. *)
Definition summarize_bytes (acc : list ascii * Z) (line : list ascii) : result string (list ascii * Z) :=
  let size := saturating_add (Z.of_nat (length line)) 1 in
  _ ← ensure (acc.2 + size <=? U64_MAX) "administrative evidence byte count overflow";
  Ok (acc.1 ++ line ++ [line_feed], acc.2 + size).
Definition summarize_document_records (documents : ClosureDocumentSpool) : result string AdministrativeEvidenceSummary :=
  visited ← documents_visit documents;
  '(digest, byte_size) ← foldM summarize_bytes (visited.*2) ([], 0);
  Ok (mk_summary "documents" (Z.of_nat (length (ds_records documents))) byte_size (sha256_hex digest)
        (administrative_partition_prefix "documents")).
Definition summarize_jsonl_spool (relation : string) (spool : JsonlValueSpool) : AdministrativeEvidenceSummary :=
  mk_summary relation (sp_events spool) (sp_size spool) (sha256_hex (sp_file spool)) (administrative_partition_prefix relation).
Definition summarize_values (relation : string) (values : list Value) : result string AdministrativeEvidenceSummary :=
  '(digest, byte_size) ← foldM summarize_bytes (write_canonical_json <$> values) ([], 0);
  Ok (mk_summary relation (Z.of_nat (length values)) byte_size (sha256_hex digest) (administrative_partition_prefix relation)).

Definition administrative_evidence_summaries (scan : ScopeClosureScan) (resolution_map : JsonlValueSpool)
    : result string (list AdministrativeEvidenceSummary) :=
  documents ← summarize_document_records (cs_documents scan);
  frontier ← summarize_values "frontier" (identity_json <$> cs_frontier scan);
  omitted ← summarize_values "omitted-version-resolutions" (cs_omitted scan);
  universe ← summarize_values "provider-universe" (identity_json <$> cs_provider_universe scan);
  roots ← summarize_values "roots" (identity_json <$> cs_roots scan);
  Ok (sort_by summary_cmp
        [documents; summarize_jsonl_spool "edges" (cs_edges scan); frontier; omitted; universe;
         summarize_jsonl_spool "resolution-map" resolution_map; summarize_jsonl_spool "resolved-references" (cs_references scan); roots]).

(** ** The resolution map *)

Definition field (key : string) (v : Value) : Value := default JNull (get key v).
Definition reference_request (edge : Value) : Value :=
  json_object [("kind", JString "reference-request"); ("source", field "document_key" edge); ("jsonPath", field "json_path" edge);
    ("role", field "reference_role" edge); ("targetCategory", field "target_category" edge); ("targetId", field "target_uuid" edge);
    ("requestedVersionState", field "requested_version_state" edge); ("requestedVersion", field "requested_version" edge)].
Definition omitted_provenance (resolution : Value) : Value :=
  json_object [("kind", JString "omitted-version-resolution"); ("provenance", resolution)].

Definition build_resolution_map_spool (edges : JsonlValueSpool) (omitted_resolutions : list Value) : result string JsonlValueSpool :=
  w ← foldM (fun w line => edge ← parse_json line; append_canonical_bytes w (write_canonical_json (reference_request edge)))
        (spool_visit edges) spool_writer_new;
  w ← foldM (fun w resolution => append_canonical_bytes w (write_canonical_json (omitted_provenance resolution))) omitted_resolutions w;
  sort_jsonl_spool_with_run_bytes available canonical VALIDATION_SORT_RUN_BYTES (spool_finish w).
End Administrative.

(** ** Both computations summarize the same lines *)

Section Agreement.
Context `{EvidenceSink, ClosureLib}.
Context (fs_write : string -> list ascii -> bool) (cancelled : string -> nat -> bool) (chunk_cancelled : string -> Z -> nat -> bool).
Context (parse_json : Line -> result string Value).

Definition lines_summary (relation : string) (lines : list Line) : AdministrativeEvidenceSummary :=
  mk_summary relation (Z.of_nat (length lines)) (Z.of_nat (length (file_of_lines lines))) (sha256_hex (file_of_lines lines))
    (administrative_partition_prefix relation).
(** The records of the lines. *)
Definition framed (r : KeyedRecord) : KeyedRecord := (r.1, r.2 ++ [line_feed]).
Lemma stream_framed records : stream (framed <$> records) = file_of_lines records.*2.
Proof. unfold stream, file_of_lines. induction records as [|r records IH]; [done|]. cbn. by rewrite IH. Qed.

Definition administrative_errors : list string :=
  partition_errors ++ ["cancelled: scope_closure_administrative_documents"; "cancelled: scope_closure_administrative_values";
    "cancelled: scope_closure_administrative_spool"; "administrative record ordinal overflow"].
Definition administrative_refused (e : string) : Prop := e ∈ administrative_errors.
Lemma refused_partition e : partition_refused e -> administrative_refused e.
Proof. intros He. apply elem_of_app. by left. Qed.

Definition collected (relation : string) : list KeyedRecord -> IssuePartitionAccumulator -> Prop :=
  holds (administrative_partition_prefix relation) ADMINISTRATIVE_PARTITION_MAX_RECORDS ADMINISTRATIVE_PARTITION_MAX_UNCOMPRESSED_BYTES.

Lemma collected_push relation records c key record : collected relation records c ->
  outcome (collected relation (records ++ [(key, record)])) administrative_refused
    (push_bytes_cancellable fs_write (chunk_cancelled relation) c key record).
Proof.
  intros Hc. eapply outcome_err_mono; [apply refused_partition|]. apply push_holds; [by vm_compute|by vm_compute|exact Hc].
Qed.
Lemma collected_new relation : collected relation [] (administrative_accumulator relation).
Proof. exists [], []. split_and!; [reflexivity..|constructor|by vm_compute|by vm_compute]. Qed.

Lemma push_records_spec phase relation records : administrative_refused ("cancelled: " +:+ phase) ->
  outcome (collected relation (framed <$> records)) administrative_refused (push_records fs_write cancelled chunk_cancelled phase relation records).
Proof.
  intros Hp. unfold push_records. assert ((zip (seq 0 (length records)) records).*2 = records) as Hz by (apply snd_zip; rewrite length_seq; lia).
  rewrite <- Hz at 1. apply (outcome_foldM _ (fun pre c => collected relation (framed <$> pre.*2) c)); [apply collected_new|].
  intros pre [k r] post c _ Hc. unfold push_record. eapply outcome_bind; [apply outcome_ensure; by intros _|]. intros _ _ _.
  rewrite !fmap_app. by apply collected_push.
Qed.

Lemma push_lines_spec relation lines : Forall (event_line (canonical parse_json)) lines ->
  outcome (fun st => exists keys, length keys = length lines /\ collected relation (framed <$> zip keys lines) st.1) administrative_refused
    (foldM (push_line fs_write cancelled chunk_cancelled parse_json relation) lines (administrative_accumulator relation, O)).
Proof.
  intros Hl. rewrite Forall_forall in Hl.
  apply (outcome_foldM _ (fun pre st => exists keys, length keys = length pre /\ collected relation (framed <$> zip keys pre) st.1)).
  - exists []. split; [done|apply collected_new].
  - intros pre line post [c n] -> (keys & Hk & Hc). cbn [fst] in Hc. destruct (Hl line) as (_ & _ & Hcan); [apply elem_of_app; right; apply list_elem_of_here|].
    unfold canonical in Hcan. unfold push_line. destruct (parse_json line) as [v| |]; [|done..]. cbn [mbind result_bind] in Hcan |- *. injection Hcan as Hcan.
    eapply outcome_bind; [apply outcome_ensure; intros _; unfold administrative_refused; compute_done|]. intros _ _ _.
    eapply outcome_bind; [exact (collected_push relation _ c (zero_padded 20 (Z.of_nat n)) (write_canonical_json v ++ [line_feed]) Hc)|]. intros c' _ Hc'.
    eapply outcome_bind; [apply outcome_ensure; intros _; unfold administrative_refused; compute_done|]. intros _ _ _.
    exists (keys ++ [zero_padded 20 (Z.of_nat n)]). split; [rewrite !length_app; simpl; lia|]. rewrite zip_with_app by done. rewrite fmap_app.
    cbn. rewrite Hcan in Hc'. exact Hc'.
Qed.

(** The summary of a finished relation; its size fits 64 bits. *)
Definition summarized (relation : string) (lines : list Line) (out out' : PreparedAdministrativePartitions) : Prop :=
  ad_summaries out' = ad_summaries out ++ [lines_summary relation lines] /\ Z.of_nat (length (file_of_lines lines)) <= U64_MAX.

Lemma finish_relation_spec relation records c out : collected relation (framed <$> records) c ->
  outcome (summarized relation records.*2 out) administrative_refused (finish_administrative_relation relation c out).
Proof.
  intros Hc. pose proof Hc as (_ & _ & _ & _ & _ & _ & Hsize). unfold finish_administrative_relation.
  eapply outcome_bind; [eapply outcome_err_mono; [apply refused_partition|exact (finish_holds _ _ _ _ _ Hc)]|].
  intros f _ (segs & -> & Hr & _). split; [|by rewrite <- stream_framed]. cbn [ad_summaries pf_record_count pf_byte_size pf_sha256 finish_of].
  unfold record_count. rewrite Hr, stream_framed, length_fmap. unfold lines_summary. by rewrite length_fmap.
Qed.

Lemma summarize_lines lines : Z.of_nat (length (file_of_lines lines)) <= U64_MAX ->
  foldM summarize_bytes lines ([], 0) = Ok (file_of_lines lines, Z.of_nat (length (file_of_lines lines))).
Proof.
  induction lines as [|line lines IH] using rev_ind; [done|]. rewrite file_of_lines_app, length_app. intros Hb. rewrite foldM_app.
  assert (file_of_lines [line] = line ++ [line_feed]) as E by apply app_nil_r. rewrite E, length_app in Hb |- *. cbn [length] in Hb |- *.
  rewrite IH by lia. cbn [mbind result_bind foldM]. unfold summarize_bytes. cbn [fst snd]. unfold saturating_add, USIZE_MAX.
  rewrite Z.min_l by lia. rewrite (proj2 (Z.leb_le _ _)) by lia. cbn. do 2 f_equal. lia.
Qed.

Lemma values_spec relation values out :
  outcome (summarized relation (write_canonical_json <$> values) out) administrative_refused
    (prepare_values_administrative_relation fs_write cancelled chunk_cancelled relation values out).
Proof.
  unfold prepare_values_administrative_relation.
  eapply outcome_bind; [apply push_records_spec; unfold administrative_refused; compute_done|]. intros c _ Hc.
  assert ((value_records values).*2 = write_canonical_json <$> values) as <-; [|by apply finish_relation_spec].
  unfold value_records. rewrite fmap_imap. apply imap_const.
Qed.
Lemma summarize_values_spec relation (values : list Value) : Z.of_nat (length (file_of_lines (write_canonical_json <$> values))) <= U64_MAX ->
  summarize_values relation values = Ok (lines_summary relation (write_canonical_json <$> values)).
Proof.
  intros Hb. unfold summarize_values. rewrite summarize_lines by done. cbn. unfold lines_summary. by rewrite length_fmap.
Qed.

(** A spool as its writer leaves it. *)
Definition spool_of (lines : list Line) : JsonlValueSpool :=
  mk_spool (file_of_lines lines) (Z.of_nat (length lines)) (Z.of_nat (length (file_of_lines lines))).
Lemma spooled_spec relation lines out : Forall (event_line (canonical parse_json)) lines ->
  outcome (summarized relation lines out) administrative_refused
    (prepare_spooled_administrative_relation fs_write cancelled chunk_cancelled parse_json relation (spool_of lines) out).
Proof.
  intros Hl. unfold prepare_spooled_administrative_relation, spool_visit. cbn [sp_file spool_of].
  rewrite (spool_visit_lines _ lines Hl _ (lines_le_bytes lines)). eapply outcome_bind; [by apply push_lines_spec|].
  intros [c n] _ (keys & Hk & Hc). pose proof (finish_relation_spec relation (zip keys lines) c out Hc) as Hf.
  by rewrite snd_zip in Hf by lia.
Qed.

Lemma documents_spec documents visited out : documents_visit documents = Ok visited ->
  outcome (fun out' => summarized "documents" visited.*2 out out'
      /\ summarize_document_records documents = Ok (lines_summary "documents" visited.*2)) administrative_refused
    (prepare_documents fs_write cancelled chunk_cancelled documents out).
Proof.
  intros Hv. unfold prepare_documents, summarize_document_records. rewrite Hv. cbn [mbind result_bind].
  eapply outcome_bind; [apply push_records_spec; unfold administrative_refused; compute_done|]. intros c _ Hc.
  eapply outcome_mono; [by apply finish_relation_spec|]. intros out' _.
  assert (((fun ib : ExactDatasetIdentity * list ascii => (document_key ib.1, ib.2)) <$> visited).*2 = visited.*2) as -> by (by rewrite <- list_fmap_compose).
  intros [Hs Hb]. split; [by split|]. rewrite summarize_lines by done. cbn. unfold lines_summary. rewrite length_fmap.
  apply mapR_ok, Forall2_length in Hv. by rewrite Hv.
Qed.

(** ** The resolution map *)

(** The request of a line of the edges. *)
Definition request_line (line : Line) (request : Line) : Prop :=
  exists edge, parse_json line = Ok edge /\ request = write_canonical_json (reference_request edge).

Lemma append_requests lines requests : Forall2 request_line lines requests -> forall w,
  foldM (fun w line => edge ← parse_json line; append_canonical_bytes w (write_canonical_json (reference_request edge))) lines w
  = foldM append_canonical_bytes requests w.
Proof.
  induction 1 as [|line request lines requests (edge & Hp & ->) _ IH]; intros w; [done|]. cbn [foldM]. rewrite Hp. cbn [mbind result_bind].
  destruct (append_canonical_bytes w _); [apply IH|done..].
Qed.
Lemma append_omitted (omitted : list Value) w :
  foldM (fun w resolution => append_canonical_bytes w (write_canonical_json (omitted_provenance resolution))) omitted w
  = foldM append_canonical_bytes ((fun r => write_canonical_json (omitted_provenance r)) <$> omitted) w.
Proof. revert w. induction omitted as [|r omitted IH]; intros w; [done|]. cbn [foldM fmap list_fmap]. destruct (append_canonical_bytes w _); [apply IH|done..]. Qed.

(** The resolution map holds one line per reference request and per omitted
    version, sorted. *)
Lemma resolution_map_exact available edges requests omitted :
  Forall (event_line (canonical parse_json)) edges -> Forall2 request_line edges requests ->
  Forall (event_line (canonical parse_json)) (requests ++ ((fun r => write_canonical_json (omitted_provenance r)) <$> omitted)) ->
  outcome (fun m => m = spool_of (sort_by line_cmp (requests ++ ((fun r => write_canonical_json (omitted_provenance r)) <$> omitted))))
    (fun e => e ∈ sort_errors) (build_resolution_map_spool parse_json available (spool_of edges) omitted).
Proof.
  intros He Hr Hl. unfold build_resolution_map_spool, spool_visit. cbn [sp_file spool_of].
  rewrite (spool_visit_lines _ edges He _ (lines_le_bytes edges)), (append_requests _ _ Hr).
  set (lines := requests ++ _) in *.
  assert (forall A (k : JsonlValueSpoolWriter -> result string A), (w ← foldM append_canonical_bytes requests spool_writer_new;
      w ← foldM (fun w resolution => append_canonical_bytes w (write_canonical_json (omitted_provenance resolution))) omitted w; k w)
    = (w ← foldM append_canonical_bytes lines spool_writer_new; k w)) as ->.
  { intros A k. unfold lines. rewrite foldM_app, bind_assoc. apply bind_ext. intros w. by rewrite append_omitted. }
  eapply outcome_bind.
  { eapply outcome_err_mono; [|exact (append_all lines)]. intros e [Hin _]. unfold sort_errors. rewrite !elem_of_cons. by right; right. }
  intros w _ ->. cbn [spool_finish sw_file sw_events sw_size].
  eapply outcome_mono; [eapply outcome_err_mono; [|apply (sort_jsonl_spool_exact available _ VALIDATION_SORT_RUN_BYTES lines Hl ltac:(done))]|].
  - intros e [Hin _]. exact Hin.
  - intros m _ ->. unfold spool_of, line_bytes. assert (sort_by line_cmp lines ≡ₚ lines) as Hp by apply sort_by_perm.
    rewrite <- (Permutation_length Hp). f_equal. symmetry. exact (line_bytes_perm _ _ Hp).
Qed.

(** C14: the two computations of the administrative evidence agree.  Whenever
    the eight relations of a scan are partitioned for the manifest, the
    summaries that come with the partitions are the summaries the closure
    bundle states: for every relation the number, the bytes and the digest of
    its canonical lines, in order of relation.  Partitioning fails only for the
    reasons a partition may be refused, cancellation or an exhausted ordinal. *)
Theorem administrative_summaries_agree scan visited edges references resolution_map :
  documents_visit (cs_documents scan) = Ok visited ->
  cs_edges scan = spool_of edges -> cs_references scan = spool_of references ->
  Forall (event_line (canonical parse_json)) (edges ++ references ++ resolution_map) ->
  outcome (fun out => administrative_evidence_summaries scan (spool_of resolution_map) = Ok (ad_summaries out)
      /\ ad_summaries out = sort_by summary_cmp
           [lines_summary "documents" visited.*2; lines_summary "edges" edges;
            lines_summary "frontier" ((fun i => write_canonical_json (identity_json i)) <$> cs_frontier scan);
            lines_summary "omitted-version-resolutions" (write_canonical_json <$> cs_omitted scan);
            lines_summary "provider-universe" ((fun i => write_canonical_json (identity_json i)) <$> cs_provider_universe scan);
            lines_summary "resolution-map" resolution_map; lines_summary "resolved-references" references;
            lines_summary "roots" ((fun i => write_canonical_json (identity_json i)) <$> cs_roots scan)])
    administrative_refused
    (prepare_administrative_partition_artifacts fs_write cancelled chunk_cancelled parse_json scan (spool_of resolution_map)).
Proof.
  intros Hv He Hr [Hl1 [Hl2 Hl3]%Forall_app]%Forall_app. unfold prepare_administrative_partition_artifacts. rewrite He, Hr.
  eapply outcome_bind; [by apply documents_spec|]. intros o1 _ [[E1 _] S1].
  eapply outcome_bind; [by apply spooled_spec|]. intros o2 _ [E2 _].
  eapply outcome_bind; [apply values_spec|]. intros o3 _ [E3 B3].
  eapply outcome_bind; [apply values_spec|]. intros o4 _ [E4 B4].
  eapply outcome_bind; [apply values_spec|]. intros o5 _ [E5 B5].
  eapply outcome_bind; [by apply spooled_spec|]. intros o6 _ [E6 _].
  eapply outcome_bind; [by apply spooled_spec|]. intros o7 _ [E7 _].
  eapply outcome_bind; [apply values_spec|]. intros o8 _ [E8 B8]. cbn [outcome ad_summaries].
  rewrite E8, E7, E6, E5, E4, E3, E2, E1. cbn [ad_summaries app]. rewrite <- !list_fmap_compose.
  split; [|reflexivity]. unfold administrative_evidence_summaries. rewrite S1, !summarize_values_spec, He, Hr by done.
  cbn [mbind result_bind]. rewrite <- !list_fmap_compose. reflexivity.
Qed.
End Agreement.

(** ** A small scan *)

#[local] Instance administrative_sink : EvidenceSink := {| sink_accepts := fun _ _ => true; zstd_stream := Some |}.
#[local] Instance administrative_lib : ClosureLib :=
  {| uuid_text := fun _ => "id"; uuid_parse_str := fun _ => None; sha256_hex := fun l => of_bytes (take 8 l); json_text := fun _ => bytes "x" |}.
Definition scalar_json (line : Line) : result string Value := Ok JNull.
Definition administrative_scan : ScopeClosureScan :=
  mk_closure_scan "v1" true [sample_process] (documents_finish documents_new) (spool_of [bytes "x"]) (spool_of []) [JNull] []
    [sample_flow] [sample_process; sample_flow] (mk_graph [] ∅ []).

Lemma administrative_summaries_agree_witness :
  exists out, prepare_administrative_partition_artifacts (fun _ _ => true) (fun _ _ => false) (fun _ _ _ => false) scalar_json administrative_scan
      (spool_of [bytes "x"; bytes "x"]) = Ok out
    /\ administrative_evidence_summaries administrative_scan (spool_of [bytes "x"; bytes "x"]) = Ok (ad_summaries out)
    /\ as_record_count <$> ad_summaries out = [0; 1; 1; 1; 2; 2; 0; 1].
Proof.
  pose proof (administrative_summaries_agree (fun _ _ => true) (fun _ _ => false) (fun _ _ _ => false) scalar_json administrative_scan
    [] [bytes "x"] [] [bytes "x"; bytes "x"] eq_refl eq_refl eq_refl) as HT.
  destruct (prepare_administrative_partition_artifacts _ _ _ _ _ _) as [out| |] eqn:E in HT |- *; [|by vm_compute in E..].
  exists out. split; [done|]. destruct HT as [Hs Hl].
  - repeat constructor; compute_done.
  - split; [exact Hs|]. rewrite Hl. by vm_compute.
Defined.
