(* ===== verification/ArtifactGc.v ===== *)
(** * Garbage collection of Worker artifacts

    [artifact_gc.rs]: a run claims expired artifacts under a lease, deletes each
    object before it lets the database tombstone its row, records failures for
    a retry, and hands over when the lease is lost.  Before that it cleans up
    write sets that were left behind.  The trait [ArtifactGcBackend] is a class
    over the backend's own state; the run is a program in a state and error
    monad whose world also holds the log of the backend calls. *)

From S2P Require Import Prelude Text Json DataBuilder Identity References RefGraph BinarySearch Wire Issues SnapshotProvider.

Local Open Scope string_scope.
Local Open Scope Z_scope.
Local Open Scope list_scope.

Definition ARTIFACT_GC_MAX_BATCH_SIZE : Z := 500.
Definition ARTIFACT_GC_MAX_BATCHES : Z := 100.
Definition ARTIFACT_GC_MAX_LEASE_SECONDS : Z := 3600.
Definition ARTIFACT_GC_MAX_DETAIL_LIMIT : Z := 50000.
Definition ARTIFACT_GC_MAX_COMPLETION_ROUNDS : Z := 10000.
Definition ARTIFACT_GC_COMPLETION_CALL_ATTEMPTS : Z := 3.

(** ** Data *)

Inductive ArtifactGcPhase := ObjectDelete | DetailCleanup.
Record ArtifactGcCandidate := mk_candidate {
  gc_artifact_id : Uuid;
  gc_storage_bucket : option string;
  gc_storage_path : option string;
  gc_artifact_role : string;
  gc_lifecycle_state : string;
  gc_phase : ArtifactGcPhase;
  gc_object_delete_required : bool;
  gc_checksum_sha256 : string;
  gc_expires_at : string;
}.
Record ArtifactGcClaim := mk_claim { cl_token : Uuid; cl_lease_expires_at : string; cl_items : list ArtifactGcCandidate }.
Record ArtifactGcRenewal := mk_renewal { rn_token : Uuid; rn_lease_expires_at : string; rn_artifact_ids : list Uuid }.
Record ArtifactWriteSetReconcileItem := mk_reconcile_item { ws_artifact_id : Uuid; ws_bucket : string; ws_path : string }.
Record ArtifactWriteSetReconcileCandidate := mk_write_set {
  ws_id : Uuid;
  ws_status : string;
  ws_items : list ArtifactWriteSetReconcileItem;
}.
Record ArtifactWriteSetReconcileClaim := mk_stale_claim {
  sc_token : Uuid;
  sc_lease_expires_at : string;
  sc_write_sets : list ArtifactWriteSetReconcileCandidate;
}.
Record ArtifactGcCompletion := mk_completion {
  cp_details_remaining : Z;
  cp_occurrences : Z;
  cp_affected_roots : Z;
  cp_issues : Z;
}.
Inductive ArtifactObjectDeleteOutcome := Deleted | Missing.
Inductive ArtifactGcProcessOutcome := CompletedObject (o : ArtifactObjectDeleteOutcome) | CompletedDetailCleanup | RetryRecorded.
Record ArtifactGcRunOptions := mk_options {
  op_batch_size : Z;
  op_max_batches : Z;
  op_lease_seconds : Z;
  op_detail_limit : Z;
  op_execute : bool;
}.
Record ArtifactGcTotals := mk_totals {
  tt_batches : Z;
  tt_candidates : Z;
  tt_objects_deleted : Z;
  tt_objects_missing : Z;
  tt_detail_cleanup_candidates : Z;
  tt_completed : Z;
  tt_retryable_failures : Z;
  tt_completion_rounds : Z;
  tt_occurrences : Z;
  tt_affected_roots : Z;
  tt_issues : Z;
  tt_lease_handoffs : Z;
  tt_write_sets_cleaned : Z;
  tt_staging_deleted : Z;
  tt_staging_missing : Z;
  tt_staging_handoffs : Z;
}.
Record ArtifactGcRunReport := mk_report { rp_preview_items : list ArtifactGcCandidate; rp_totals : ArtifactGcTotals }.

#[export] Instance ArtifactGcPhase_eq_dec : EqDecision ArtifactGcPhase.
Proof. solve_decision. Defined.
#[export] Instance ArtifactObjectDeleteOutcome_eq_dec : EqDecision ArtifactObjectDeleteOutcome.
Proof. solve_decision. Defined.

Definition phase_as_str (p : ArtifactGcPhase) : string := match p with ObjectDelete => "object_delete" | DetailCleanup => "detail_cleanup" end.

(** [anyhow::Error]; [ArtifactGcLeaseLost] is told apart by [downcast_ref]. *)
Inductive GcError := LeaseLost (message : string) | Failure (message : string).

(** ** Validation *)

Definition validate_storage_path (path : string) : result string unit :=
  let path := trim path in
  ensure (negb (bool_decide (path = "") || starts_with "/" path || contains "\"%char path
                || existsb (fun segment => bool_decide (segment = "") || bool_decide (segment = ".") || bool_decide (segment = ".."))
                     (split_chars ["/"%char] path)))
    "artifact GC candidate has invalid storage path".

Definition candidate_validate (c : ArtifactGcCandidate) : result string unit :=
  _ ← match gc_phase c with
      | ObjectDelete =>
          _ ← ensure (negb (negb (gc_object_delete_required c) || negb (bool_decide (gc_lifecycle_state c = "expired"))))
                "artifact GC object-delete candidate has inconsistent phase";
          _ ← ensure (negb (is_blank (default "" (gc_storage_bucket c)))) "artifact GC candidate omitted storage bucket";
          validate_storage_path (default "" (gc_storage_path c))
      | DetailCleanup =>
          ensure (negb (gc_object_delete_required c || negb (bool_decide (gc_lifecycle_state c = "deleted"))
                        || bool_decide (is_Some (gc_storage_bucket c)) || bool_decide (is_Some (gc_storage_path c))))
            "artifact GC detail-cleanup candidate exposed an object locator"
      end;
  _ ← ensure (negb (is_blank (gc_artifact_role c))) "artifact GC candidate omitted artifact role";
  _ ← ensure (hash_valid (gc_checksum_sha256 c)) "artifact GC candidate has invalid SHA-256 checksum";
  ensure (negb (is_blank (gc_expires_at c))) "artifact GC candidate omitted artifact expiry".

Definition in_range (lo hi n : Z) : bool := (lo <=? n) && (n <=? hi).
Definition validated_batch_size (n : Z) : result string Z :=
  _ ← ensure (in_range 1 ARTIFACT_GC_MAX_BATCH_SIZE n) "artifact GC batch size must be between 1 and 500"; Ok n.
Definition validated_max_batches (n : Z) : result string Z :=
  _ ← ensure (in_range 1 ARTIFACT_GC_MAX_BATCHES n) "artifact GC max batches must be between 1 and 100"; Ok n.
Definition validated_lease_seconds (n : Z) : result string Z :=
  _ ← ensure (in_range 1 ARTIFACT_GC_MAX_LEASE_SECONDS n) "artifact GC lease seconds must be between 1 and 3600"; Ok n.
Definition validated_detail_limit (n : Z) : result string Z :=
  _ ← ensure (in_range 1 ARTIFACT_GC_MAX_DETAIL_LIMIT n) "artifact GC detail limit must be between 1 and 50000"; Ok n.

(** ** The backend *)

(** An answer is an error message or a value.  Times are nanoseconds, and every
    reading of the clock may differ from the last.  [delete_object] runs under a
    timeout: [None] when the time was up. *)
Class ArtifactGcBackend (St : Type) := {
  expected_bucket : string;
  now : St -> Z * St;
  preview : Z -> St -> (string + list ArtifactGcCandidate) * St;
  claim : Z -> Z -> St -> (string + ArtifactGcClaim) * St;
  renew : Uuid -> Z -> St -> (string + ArtifactGcRenewal) * St;
  delete_object : Z -> string -> St -> option (string + ArtifactObjectDeleteOutcome) * St;
  complete : Uuid -> ArtifactGcCandidate -> ArtifactObjectDeleteOutcome -> Z -> St -> (string + ArtifactGcCompletion) * St;
  fail : Uuid -> ArtifactGcCandidate -> string -> St -> (string + unit) * St;
  claim_stale_write_sets : Z -> Z -> St -> (string + ArtifactWriteSetReconcileClaim) * St;
  complete_stale_write_set : Uuid -> Uuid -> St -> (string + unit) * St;
}.

(** What a deletion is for. *)
Inductive Purpose := ForArtifact (c : ArtifactGcCandidate) | ForWriteSet (item : ArtifactWriteSetReconcileItem).
(** The calls that matter, with the clock's last reading before the call and the
    answer. *)
Inductive Event :=
| Claimed (c : ArtifactGcClaim)
| Renewed (token : Uuid) (answer : string + ArtifactGcRenewal)
| DeleteCalled (p : Purpose) (path : string) (at_time : Z) (answer : option (string + ArtifactObjectDeleteOutcome))
| CompleteCalled (token : Uuid) (c : ArtifactGcCandidate) (o : ArtifactObjectDeleteOutcome) (at_time : Z)
    (answer : string + ArtifactGcCompletion)
| FailCalled (token : Uuid) (c : ArtifactGcCandidate) (message : string) (at_time : Z) (answer : string + unit)
| StaleClaimed (c : ArtifactWriteSetReconcileClaim)
| StaleCompleted (id token : Uuid) (at_time : Z) (answer : string + unit).

Definition no_totals : ArtifactGcTotals := mk_totals 0 0 0 0 0 0 0 0 0 0 0 0 0 0 0 0.
Definition no_claim : ArtifactGcClaim := mk_claim 0 "" [].

Section Run.
Context {St : Type} `{ArtifactGcBackend St}.
(** [DateTime::parse_from_rfc3339]. *)
Context (parse_from_rfc3339 : string -> option Z).

(** The backend, the clock's last reading, the log, and the variables the run
    mutates: its totals and the claim in hand. *)
Record World := mk_world { w_backend : St; w_clock : Z; w_log : list Event; w_totals : ArtifactGcTotals; w_claim : ArtifactGcClaim }.

Definition GC (A : Type) : Type := World -> result GcError A * World.
#[local] Instance gc_ret : MRet GC := fun A a w => (Ok a, w).
#[local] Instance gc_bind : MBind GC := fun A B f m w =>
  match m w with (Ok a, w) => f a w | (Err e, w) => (Err e, w) | (Panic, w) => (Panic, w) end.
Definition panic {A} : GC A := fun w => (Panic, w).
Definition throw {A} (e : GcError) : GC A := fun w => (Err e, w).
Definition gc_lift {A} (r : result string A) : GC A := fun w =>
  (match r with Ok a => Ok a | Err e => Err (Failure e) | Panic => Panic end, w).
Definition answered {A} (a : string + A) : GC A := match a with inl e => throw (Failure e) | inr v => mret v end.
Definition gc_now : GC Z := fun w =>
  let '(t, s) := now (w_backend w) in (Ok t, mk_world s t (w_log w) (w_totals w) (w_claim w)).
Definition current_claim : GC ArtifactGcClaim := fun w => (Ok (w_claim w), w).
Definition current_totals : GC ArtifactGcTotals := fun w => (Ok (w_totals w), w).
Definition set_claim (c : ArtifactGcClaim) : GC unit := fun w => (Ok tt, mk_world (w_backend w) (w_clock w) (w_log w) (w_totals w) c).
Definition update (f : ArtifactGcTotals -> ArtifactGcTotals) : GC unit := fun w =>
  (Ok tt, mk_world (w_backend w) (w_clock w) (w_log w) (f (w_totals w)) (w_claim w)).
(** One backend call. *)
Definition call {A} (f : St -> A * St) (event : Z -> A -> option Event) : GC A := fun w =>
  let '(a, s) := f (w_backend w) in
  (Ok a, mk_world s (w_clock w) (w_log w ++ match event (w_clock w) a with Some e => [e] | None => [] end) (w_totals w) (w_claim w)).

(** ** Totals *)

Definition add_claimed (n : Z) (t : ArtifactGcTotals) : ArtifactGcTotals :=
  mk_totals (saturating_add (tt_batches t) 1) (saturating_add (tt_candidates t) n) (tt_objects_deleted t) (tt_objects_missing t)
    (tt_detail_cleanup_candidates t) (tt_completed t) (tt_retryable_failures t) (tt_completion_rounds t) (tt_occurrences t)
    (tt_affected_roots t) (tt_issues t) (tt_lease_handoffs t) (tt_write_sets_cleaned t) (tt_staging_deleted t)
    (tt_staging_missing t) (tt_staging_handoffs t).
Definition add_object (o : ArtifactObjectDeleteOutcome) (t : ArtifactGcTotals) : ArtifactGcTotals :=
  mk_totals (tt_batches t) (tt_candidates t)
    (match o with Deleted => saturating_add (tt_objects_deleted t) 1 | Missing => tt_objects_deleted t end)
    (match o with Missing => saturating_add (tt_objects_missing t) 1 | Deleted => tt_objects_missing t end)
    (tt_detail_cleanup_candidates t) (tt_completed t) (tt_retryable_failures t) (tt_completion_rounds t) (tt_occurrences t)
    (tt_affected_roots t) (tt_issues t) (tt_lease_handoffs t) (tt_write_sets_cleaned t) (tt_staging_deleted t)
    (tt_staging_missing t) (tt_staging_handoffs t).
Definition add_detail_cleanup (t : ArtifactGcTotals) : ArtifactGcTotals :=
  mk_totals (tt_batches t) (tt_candidates t) (tt_objects_deleted t) (tt_objects_missing t)
    (saturating_add (tt_detail_cleanup_candidates t) 1) (tt_completed t) (tt_retryable_failures t) (tt_completion_rounds t)
    (tt_occurrences t) (tt_affected_roots t) (tt_issues t) (tt_lease_handoffs t) (tt_write_sets_cleaned t)
    (tt_staging_deleted t) (tt_staging_missing t) (tt_staging_handoffs t).
Definition add_retryable (t : ArtifactGcTotals) : ArtifactGcTotals :=
  mk_totals (tt_batches t) (tt_candidates t) (tt_objects_deleted t) (tt_objects_missing t) (tt_detail_cleanup_candidates t)
    (tt_completed t) (saturating_add (tt_retryable_failures t) 1) (tt_completion_rounds t) (tt_occurrences t)
    (tt_affected_roots t) (tt_issues t) (tt_lease_handoffs t) (tt_write_sets_cleaned t) (tt_staging_deleted t)
    (tt_staging_missing t) (tt_staging_handoffs t).
Definition add_completed (round : Z) (a : ArtifactGcCompletion) (t : ArtifactGcTotals) : ArtifactGcTotals :=
  mk_totals (tt_batches t) (tt_candidates t) (tt_objects_deleted t) (tt_objects_missing t) (tt_detail_cleanup_candidates t)
    (saturating_add (tt_completed t) 1) (tt_retryable_failures t) (saturating_add (tt_completion_rounds t) round)
    (saturating_add (tt_occurrences t) (cp_occurrences a)) (saturating_add (tt_affected_roots t) (cp_affected_roots a))
    (saturating_add (tt_issues t) (cp_issues a)) (tt_lease_handoffs t) (tt_write_sets_cleaned t) (tt_staging_deleted t)
    (tt_staging_missing t) (tt_staging_handoffs t).
Definition add_lease_handoff (t : ArtifactGcTotals) : ArtifactGcTotals :=
  mk_totals (tt_batches t) (tt_candidates t) (tt_objects_deleted t) (tt_objects_missing t) (tt_detail_cleanup_candidates t)
    (tt_completed t) (tt_retryable_failures t) (tt_completion_rounds t) (tt_occurrences t) (tt_affected_roots t) (tt_issues t)
    (saturating_add (tt_lease_handoffs t) 1) (tt_write_sets_cleaned t) (tt_staging_deleted t) (tt_staging_missing t)
    (tt_staging_handoffs t).
Definition add_staging (cleaned deleted missing handoffs : Z) (t : ArtifactGcTotals) : ArtifactGcTotals :=
  mk_totals (tt_batches t) (tt_candidates t) (tt_objects_deleted t) (tt_objects_missing t) (tt_detail_cleanup_candidates t)
    (tt_completed t) (tt_retryable_failures t) (tt_completion_rounds t) (tt_occurrences t) (tt_affected_roots t) (tt_issues t)
    (tt_lease_handoffs t) (saturating_add (tt_write_sets_cleaned t) cleaned) (saturating_add (tt_staging_deleted t) deleted)
    (saturating_add (tt_staging_missing t) missing) (saturating_add (tt_staging_handoffs t) handoffs).

(** ** The lease *)

Definition SECOND : Z := 1000000000.

Definition claim_deadline : GC Z :=
  c ← current_claim;
  match parse_from_rfc3339 (cl_lease_expires_at c) with
  | Some deadline => mret deadline
  | None => throw (Failure "invalid artifact GC leaseExpiresAt")
  end.
Definition with_lease (lease : string) (c : ArtifactGcClaim) : ArtifactGcClaim := mk_claim (cl_token c) lease (cl_items c).

Definition ensure_current_claim (lease_seconds : Z) : GC unit :=
  deadline ← claim_deadline;
  t ← gc_now;
  if t + Z.max (lease_seconds / 3) 1 * SECOND <? deadline then mret tt
  else
    c ← current_claim;
    answer ← call (renew (cl_token c) lease_seconds) (fun _ a => Some (Renewed (cl_token c) a));
    renewal ← match answer with inl e => throw (LeaseLost e) | inr r => mret r end;
    _ ← (if decide (rn_token renewal = cl_token c) then mret tt else throw (LeaseLost "Database renewed a different claim token"));
    _ ← set_claim (with_lease (rn_lease_expires_at renewal) c);
    deadline ← claim_deadline;
    t ← gc_now;
    if deadline <=? t then throw (LeaseLost "renewed claim is already expired") else mret tt.

(** ** One candidate *)

(** [s.chars().take(n).collect()] on UTF-8. *)
Fixpoint take_chars (n : nat) (l : list ascii) : list ascii :=
  match l with
  | [] => []
  | c :: rest =>
      if continuation c then c :: take_chars n rest
      else match n with O => [] | S n => c :: take_chars n rest end
  end.
Definition shortened (message : string) : string := of_bytes (take_chars 1000 (bytes message)).

Definition record_failure (lease_seconds : Z) (c : ArtifactGcCandidate) (message : string) : GC unit :=
  _ ← ensure_current_claim lease_seconds;
  claim ← current_claim;
  answer ← call (fail (cl_token claim) c message) (fun t a => Some (FailCalled (cl_token claim) c message t a));
  _ ← answered answer;
  update add_retryable.

Fixpoint complete_attempts (budget : nat) (attempt lease_seconds detail_limit : Z) (c : ArtifactGcCandidate)
    (o : ArtifactObjectDeleteOutcome) : GC ArtifactGcCompletion :=
  _ ← ensure_current_claim lease_seconds;
  claim ← current_claim;
  answer ← call (complete (cl_token claim) c o detail_limit) (fun t a => Some (CompleteCalled (cl_token claim) c o t a));
  match answer, budget with
  | inr completion, _ => mret completion
  | inl _, S budget => complete_attempts budget (attempt + 1) lease_seconds detail_limit c o
  | inl e, O => throw (Failure ("artifact GC completion failed after 3 attempts: " +:+ e))
  end.

Fixpoint complete_rounds (budget : nat) (round lease_seconds detail_limit : Z) (c : ArtifactGcCandidate)
    (o : ArtifactObjectDeleteOutcome) (aggregate : ArtifactGcCompletion) : GC unit :=
  match budget with
  | O => throw (Failure "artifact GC detail cleanup exceeded 10000 bounded rounds")
  | S budget =>
      _ ← ensure_current_claim lease_seconds;
      completion ← complete_attempts (Z.to_nat ARTIFACT_GC_COMPLETION_CALL_ATTEMPTS - 1) 1 lease_seconds detail_limit c o;
      let aggregate := mk_completion (cp_details_remaining completion) (saturating_add (cp_occurrences aggregate) (cp_occurrences completion))
                         (saturating_add (cp_affected_roots aggregate) (cp_affected_roots completion))
                         (saturating_add (cp_issues aggregate) (cp_issues completion)) in
      if cp_details_remaining completion =? 0 then update (add_completed round aggregate)
      else complete_rounds budget (round + 1) lease_seconds detail_limit c o aggregate
  end.
Definition complete_claimed_candidate (lease_seconds detail_limit : Z) (c : ArtifactGcCandidate) (o : ArtifactObjectDeleteOutcome) : GC unit :=
  complete_rounds (Z.to_nat ARTIFACT_GC_MAX_COMPLETION_ROUNDS) 1 lease_seconds detail_limit c o (mk_completion 0 0 0 0).

Definition bucket_mismatch (c : ArtifactGcCandidate) : string :=
  "artifact_gc_bucket_mismatch: candidate_bucket=" +:+ default "" (gc_storage_bucket c) +:+ ", configured_bucket=" +:+ expected_bucket.

Definition process_claimed_candidate (lease_seconds detail_limit : Z) (c : ArtifactGcCandidate) : GC unit :=
  match candidate_validate c with
  | Err message => record_failure lease_seconds c (shortened message)
  | Panic => panic
  | Ok _ =>
      if negb (gc_object_delete_required c) then
        _ ← update add_detail_cleanup;
        complete_claimed_candidate lease_seconds detail_limit c Deleted
      else if negb (bool_decide (default "" (gc_storage_bucket c) = expected_bucket)) then
        record_failure lease_seconds c (bucket_mismatch c)
      else
        _ ← ensure_current_claim lease_seconds;
        deadline ← claim_deadline;
        t ← gc_now;
        _ ← (if deadline - t <? 0 then throw (LeaseLost "claim expired before object deletion") else mret tt);
        let path := default "" (gc_storage_path c) in
        answer ← call (delete_object (deadline - t) path) (fun t a => Some (DeleteCalled (ForArtifact c) path t a));
        match answer with
        | None => throw (LeaseLost "object deletion reached claim deadline")
        | Some (inr o) => _ ← update (add_object o); complete_claimed_candidate lease_seconds detail_limit c o
        | Some (inl message) => record_failure lease_seconds c (shortened message)
        end
  end.

(** ** Write sets left behind *)

(** [false] when the lease was handed over. *)
Fixpoint reconcile_items (deadline : Z) (items : list ArtifactWriteSetReconcileItem) : GC bool :=
  match items with
  | [] => mret true
  | item :: items =>
      _ ← (if decide (ws_bucket item = expected_bucket) then mret tt else throw (Failure "staging reconcile bucket mismatch for artifact"));
      t ← gc_now;
      if deadline - t <? 0 then _ ← update (add_staging 0 0 0 1); mret false
      else
        answer ← call (delete_object (deadline - t) (ws_path item)) (fun t a => Some (DeleteCalled (ForWriteSet item) (ws_path item) t a));
        match answer with
        | Some (inr Deleted) => _ ← update (add_staging 0 1 0 0); reconcile_items deadline items
        | Some (inr Missing) => _ ← update (add_staging 0 0 1 0); reconcile_items deadline items
        | Some (inl message) => throw (Failure message)
        | None => _ ← update (add_staging 0 0 0 1); mret false
        end
  end.

Fixpoint reconcile_stale_write_sets (budget : nat) (lease_seconds : Z) : GC unit :=
  match budget with
  | O => mret tt
  | S budget =>
      answer ← call (claim_stale_write_sets 1 lease_seconds) (fun _ a => match a with inr c => Some (StaleClaimed c) | inl _ => None end);
      claim ← answered answer;
      match sc_write_sets claim with
      | [] => mret tt
      | [write_set] =>
          match parse_from_rfc3339 (sc_lease_expires_at claim) with
          | None => throw (Failure "invalid staging reconcile leaseExpiresAt")
          | Some deadline =>
              if (negb (bool_decide (ws_status write_set = "cleanup_pending")) || (500 <? length (ws_items write_set))%nat) : bool then
                throw (Failure "Database returned an invalid staging reconciliation candidate")
              else
                finished ← reconcile_items deadline (ws_items write_set);
                if negb finished then mret tt
                else
                  t ← gc_now;
                  if deadline <=? t then update (add_staging 0 0 0 1)
                  else
                    answer ← call (complete_stale_write_set (ws_id write_set) (sc_token claim))
                               (fun t a => Some (StaleCompleted (ws_id write_set) (sc_token claim) t a));
                    _ ← answered answer;
                    _ ← update (add_staging 1 0 0 0);
                    reconcile_stale_write_sets budget lease_seconds
          end
      | _ => throw (Failure "staging reconciliation exceeded the single-write-set claim bound")
      end
  end.

(** ** The run *)

Fixpoint process_items (lease_seconds detail_limit : Z) (items : list ArtifactGcCandidate) : GC unit :=
  match items with
  | [] => mret tt
  | c :: items => _ ← process_claimed_candidate lease_seconds detail_limit c; process_items lease_seconds detail_limit items
  end.

(** [while report.totals.batches < max_batches]; every round counts a batch. *)
Fixpoint run_batches (budget : nat) (batch_size max_batches lease_seconds detail_limit : Z) : GC unit :=
  totals ← current_totals;
  if tt_batches totals <? max_batches then
    match budget with
    | O => panic
    | S budget =>
        answer ← call (claim batch_size lease_seconds) (fun _ a => match a with inr c => Some (Claimed c) | inl _ => None end);
         claim ← answered answer;
         _ ← (if (Z.to_nat batch_size <? length (cl_items claim))%nat then throw (Failure "artifact GC claim exceeded requested batch bound") else mret tt);
         match cl_items claim with
         | [] => mret tt
         | items =>
             _ ← update (add_claimed (Z.of_nat (length items)));
             _ ← set_claim claim;
             _ ← process_items lease_seconds detail_limit items;
             run_batches budget batch_size max_batches lease_seconds detail_limit
         end
    end
  else mret tt.

(** [Err(error) if error.downcast_ref::<ArtifactGcLeaseLost>().is_some()]. *)
Definition handing_over (m : GC unit) : GC unit := fun w =>
  match m w with
  | (Err (LeaseLost _), w) => update add_lease_handoff w
  | r => r
  end.
Definition report : GC ArtifactGcRunReport := fun w => (Ok (mk_report [] (w_totals w)), w).

Definition run_artifact_gc (options : ArtifactGcRunOptions) : GC ArtifactGcRunReport :=
  batch_size ← gc_lift (validated_batch_size (op_batch_size options));
  max_batches ← gc_lift (validated_max_batches (op_max_batches options));
  lease_seconds ← gc_lift (validated_lease_seconds (op_lease_seconds options));
  detail_limit ← gc_lift (validated_detail_limit (op_detail_limit options));
  if negb (op_execute options) then
    answer ← call (preview batch_size) (fun _ _ => None);
    items ← answered answer;
    _ ← (if (Z.to_nat batch_size <? length items)%nat then throw (Failure "artifact GC preview exceeded requested batch bound") else mret tt);
    mret (mk_report items (mk_totals 0 (Z.of_nat (length items)) 0 0 0 0 0 0 0 0 0 0 0 0 0 0))
  else
    _ ← reconcile_stale_write_sets (Z.to_nat max_batches) lease_seconds;
    totals ← current_totals;
    if 0 <? tt_staging_handoffs totals then report
    else
      _ ← handing_over (run_batches (Z.to_nat max_batches) batch_size max_batches lease_seconds detail_limit);
      report.
End Run.

(** ** The entry points that take callbacks

    [FnMut] and [FnOnce] arguments act on the caller's state [S]. *)

Section Callbacks.
Context {S : Type}.

Fixpoint details_attempts (budget : nat) (complete : S -> (string + ArtifactGcCompletion) * S) (s : S) : result string ArtifactGcCompletion * S :=
  match complete s, budget with
  | (inr completion, s), _ => (Ok completion, s)
  | (inl _, s), Datatypes.S budget => details_attempts budget complete s
  | (inl e, s), O => (Err ("artifact GC completion failed after 3 attempts: " +:+ e), s)
  end.
Fixpoint details_rounds (budget : nat) (round : Z) (complete : S -> (string + ArtifactGcCompletion) * S) (total : ArtifactGcCompletion) (s : S)
    : result string (Z * ArtifactGcCompletion) * S :=
  match budget with
  | O => (Err "artifact GC detail cleanup exceeded 10000 bounded rounds", s)
  | Datatypes.S budget =>
      match details_attempts (Z.to_nat ARTIFACT_GC_COMPLETION_CALL_ATTEMPTS - 1) complete s with
      | (Ok completion, s) =>
          let total := mk_completion (cp_details_remaining completion) (saturating_add (cp_occurrences total) (cp_occurrences completion))
                         (saturating_add (cp_affected_roots total) (cp_affected_roots completion))
                         (saturating_add (cp_issues total) (cp_issues completion)) in
          if cp_details_remaining completion =? 0 then (Ok (round, total), s)
          else details_rounds budget (round + 1) complete total s
      | (Err e, s) => (Err e, s)
      | (Panic, s) => (Panic, s)
      end
  end.
Definition complete_artifact_details (complete : S -> (string + ArtifactGcCompletion) * S) (s : S) : result string (Z * ArtifactGcCompletion) * S :=
  details_rounds (Z.to_nat ARTIFACT_GC_MAX_COMPLETION_ROUNDS) 1 complete (mk_completion 0 0 0 0) s.

Definition process_artifact_gc_candidate (c : ArtifactGcCandidate) (expected_bucket : string)
    (delete_object : string -> S -> (string + ArtifactObjectDeleteOutcome) * S)
    (complete_gc : ArtifactObjectDeleteOutcome -> S -> (string + unit) * S)
    (record_failure : string -> S -> (string + unit) * S) (s : S) : result string ArtifactGcProcessOutcome * S :=
  let after (r : (string + unit) * S) (o : ArtifactGcProcessOutcome) : result string ArtifactGcProcessOutcome * S :=
    match r with (inr _, s) => (Ok o, s) | (inl e, s) => (Err e, s) end in
  match candidate_validate c with
  | Err e => (Err e, s)
  | Panic => (Panic, s)
  | Ok _ =>
      if negb (gc_object_delete_required c) then after (complete_gc Deleted s) CompletedDetailCleanup
      else
        let candidate_bucket := default "" (gc_storage_bucket c) in
        if negb (bool_decide (candidate_bucket = expected_bucket)) then
          after (record_failure ("artifact_gc_bucket_mismatch: candidate_bucket=" +:+ candidate_bucket +:+ ", configured_bucket=" +:+ expected_bucket) s)
            RetryRecorded
        else
          match delete_object (default "" (gc_storage_path c)) s with
          | (inr o, s) => after (complete_gc o s) (CompletedObject o)
          | (inl message, s) => after (record_failure message s) RetryRecorded
          end
  end.

(** An object reported complete was deleted first, with that outcome. *)
Lemma process_candidate_completed c bucket delete_object complete_gc record_failure (s s' : S) o :
  process_artifact_gc_candidate c bucket delete_object complete_gc record_failure s = (Ok (CompletedObject o), s') ->
  candidate_validate c = Ok tt /\ exists s1, delete_object (default "" (gc_storage_path c)) s = (inr o, s1) /\ complete_gc o s1 = (inr tt, s').
Proof.
  unfold process_artifact_gc_candidate. intros HR. destruct (candidate_validate c) as [[]| |]; [split; [done|]|done..].
  repeat case_in HR; simplify_eq. repeat match goal with u : unit |- _ => destruct u end. eauto.
Qed.
(** Details are reported complete only when none remain. *)
Lemma complete_artifact_details_none_remain complete (s s' : S) round total :
  complete_artifact_details complete s = (Ok (round, total), s') -> cp_details_remaining total = 0 /\ 1 <= round <= ARTIFACT_GC_MAX_COMPLETION_ROUNDS.
Proof.
  unfold complete_artifact_details. set (n := Z.to_nat ARTIFACT_GC_MAX_COMPLETION_ROUNDS).
  enough (HG : forall n r t s, details_rounds n r complete t s = (Ok (round, total), s') -> cp_details_remaining total = 0 /\ r <= round < r + Z.of_nat n).
  { intros [HZ HB]%HG. split; [done|]. subst n. unfold ARTIFACT_GC_MAX_COMPLETION_ROUNDS in *. lia. }
  clear n s. induction n as [|n IH]; intros r t s HR; [done|]. cbn [details_rounds] in HR.
  destruct (details_attempts _ _ _) as [[a| |] s1]; [|done..]. cbn zeta in HR.
  destruct (cp_details_remaining a =? 0) eqn:E; [|apply IH in HR as [? ?]; split; [assumption|lia]].
  injection HR as <- <- <-. bool_hyps. split; [done|lia].
Qed.
End Callbacks.

(** ** The protocol with the database and the object store

    What a run may do next, as a machine over its log: the claim in hand, what
    was deleted since the last claim and which deletions failed. *)

Record View := mk_view {
  vw_claim : option ArtifactGcClaim;
  vw_done : list (Purpose * ArtifactObjectDeleteOutcome);
  vw_failed : list ArtifactGcCandidate;
  vw_stale : option ArtifactWriteSetReconcileClaim;
}.
Definition no_view : View := mk_view None [] [] None.

Definition advance (v : View) (e : Event) : View :=
  match e with
  | Claimed c => mk_view (Some c) [] [] (vw_stale v)
  | Renewed token (inr r) =>
      match vw_claim v with
      | Some c => if decide (rn_token r = cl_token c)
                  then mk_view (Some (with_lease (rn_lease_expires_at r) c)) (vw_done v) (vw_failed v) (vw_stale v) else v
      | None => v
      end
  | DeleteCalled p _ _ (Some (inr o)) => mk_view (vw_claim v) ((p, o) :: vw_done v) (vw_failed v) (vw_stale v)
  | DeleteCalled (ForArtifact c) _ _ (Some (inl _)) => mk_view (vw_claim v) (vw_done v) (c :: vw_failed v) (vw_stale v)
  | StaleClaimed c => mk_view (vw_claim v) [] (vw_failed v) (Some c)
  | _ => v
  end.

Section Protocol.
Context {St : Type} `{ArtifactGcBackend St}.
Context (parse_from_rfc3339 : string -> option Z).

(** The claim in hand covers the candidate, and its lease ends at [d]. *)
Definition holds_claim (v : View) (cl : ArtifactGcClaim) (c : ArtifactGcCandidate) (d : Z) : Prop :=
  vw_claim v = Some cl /\ c ∈ cl_items cl /\ parse_from_rfc3339 (cl_lease_expires_at cl) = Some d.
Definition holds_write_set (v : View) (cl : ArtifactWriteSetReconcileClaim) (ws : ArtifactWriteSetReconcileCandidate) (d : Z) : Prop :=
  vw_stale v = Some cl /\ sc_write_sets cl = [ws] /\ ws_status ws = "cleanup_pending"
  /\ parse_from_rfc3339 (sc_lease_expires_at cl) = Some d.

Definition allowed (v : View) (e : Event) : Prop :=
  match e with
  | Claimed _ | StaleClaimed _ => True
  | Renewed token _ => exists cl, vw_claim v = Some cl /\ token = cl_token cl
  | DeleteCalled (ForArtifact c) path t _ =>
      exists cl d, holds_claim v cl c d /\ t <= d /\ candidate_validate c = Ok tt /\ gc_phase c = ObjectDelete
        /\ gc_storage_bucket c = Some expected_bucket /\ gc_storage_path c = Some path
  | DeleteCalled (ForWriteSet i) path t _ =>
      exists cl ws d, holds_write_set v cl ws d /\ t <= d /\ i ∈ ws_items ws /\ ws_bucket i = expected_bucket /\ path = ws_path i
  | CompleteCalled token c o t _ =>
      exists cl d, holds_claim v cl c d /\ t < d /\ token = cl_token cl /\ candidate_validate c = Ok tt
        /\ match gc_phase c with ObjectDelete => (ForArtifact c, o) ∈ vw_done v | DetailCleanup => o = Deleted end
  | FailCalled token c _ t _ =>
      exists cl d, holds_claim v cl c d /\ t < d /\ token = cl_token cl
        /\ (candidate_validate c <> Ok tt \/ gc_storage_bucket c <> Some expected_bucket \/ c ∈ vw_failed v)
  | StaleCompleted id token t _ =>
      exists cl ws d, holds_write_set v cl ws d /\ t < d /\ id = ws_id ws /\ token = sc_token cl
        /\ forall i, i ∈ ws_items ws -> exists o, (ForWriteSet i, o) ∈ vw_done v
  end.

(** Logs of runs that keep to the protocol, and where they leave it. *)
Inductive follows : list Event -> View -> Prop :=
| follows_start : follows [] no_view
| follows_step log v e : follows log v -> allowed v e -> follows (log ++ [e]) (advance v e).

(** ** Totals as counts of the log *)

Definition count (p : Event -> bool) (log : list Event) : Z := Z.of_nat (length (filter (fun e => p e = true) log)).
Definition saturated (n : Z) : Z := Z.min n USIZE_MAX.

Definition artifact_deletion (o : ArtifactObjectDeleteOutcome) (e : Event) : bool :=
  match e with DeleteCalled (ForArtifact _) _ _ (Some (inr o')) => bool_decide (o' = o) | _ => false end.
Definition staging_deletion (o : ArtifactObjectDeleteOutcome) (e : Event) : bool :=
  match e with DeleteCalled (ForWriteSet _) _ _ (Some (inr o')) => bool_decide (o' = o) | _ => false end.
Definition final_completion (e : Event) : bool :=
  match e with CompleteCalled _ _ _ _ (inr a) => cp_details_remaining a =? 0 | _ => false end.
Definition recorded_failure (e : Event) : bool := match e with FailCalled _ _ _ _ (inr _) => true | _ => false end.
Definition cleaned_write_set (e : Event) : bool := match e with StaleCompleted _ _ _ (inr _) => true | _ => false end.

Record tallies (log : list Event) (t : ArtifactGcTotals) : Prop := {
  ty_deleted : tt_objects_deleted t = saturated (count (artifact_deletion Deleted) log);
  ty_missing : tt_objects_missing t = saturated (count (artifact_deletion Missing) log);
  ty_completed : tt_completed t = saturated (count final_completion log);
  ty_failures : tt_retryable_failures t = saturated (count recorded_failure log);
  ty_cleaned : tt_write_sets_cleaned t = saturated (count cleaned_write_set log);
  ty_staging_deleted : tt_staging_deleted t = saturated (count (staging_deletion Deleted) log);
  ty_staging_missing : tt_staging_missing t = saturated (count (staging_deletion Missing) log);
  ty_handoffs : 0 <= tt_lease_handoffs t;
}.

Lemma count_snoc p log e : count p (log ++ [e]) = count p log + (if p e then 1 else 0).
Proof. unfold count. rewrite filter_app, length_app, filter_cons. destruct (p e); simpl; lia. Qed.
Lemma count_nonneg p log : 0 <= count p log.
Proof. unfold count. lia. Qed.

(** Closes goals about the totals after some calls. *)
Ltac tally :=
  match goal with HT : tallies _ _ |- tallies _ _ => destruct HT end;
  split; rewrite ?count_snoc;
  repeat match goal with |- context [count ?p ?l] => let n := fresh "n" in pose proof (count_nonneg p l); set (n := count p l) in * end;
  cbn in *; rewrite ?bool_decide_eq_true_2, ?bool_decide_eq_false_2 by done; unfold saturated, saturating_add, USIZE_MAX, U64_MAX in *; lia.

Lemma tallies_quiet log t e :
  artifact_deletion Deleted e = false -> artifact_deletion Missing e = false -> final_completion e = false -> recorded_failure e = false ->
  cleaned_write_set e = false -> staging_deletion Deleted e = false -> staging_deletion Missing e = false ->
  tallies log t -> tallies (log ++ [e]) t.
Proof. intros E1 E2 E3 E4 E5 E6 E7 []. split; rewrite ?count_snoc, ?E1, ?E2, ?E3, ?E4, ?E5, ?E6, ?E7, ?Z.add_0_r; done. Qed.

(** ** Runs keep to the protocol *)

#[local] Existing Instances gc_ret gc_bind.
#[local] Notation World := (@World St).
#[local] Notation GC := (@GC St).

Definition sound (w : World) : Prop := exists v, follows (w_log w) v /\ tallies (w_log w) (w_totals w).
(** From a world in [P] the program answers in [Q] or fails soundly. *)
Definition triple {A} (P : World -> Prop) (m : GC A) (Q : A -> World -> Prop) : Prop := forall w, P w ->
  match m w with (Ok a, w') => Q a w' | (Err _, w') => sound w' | (Panic, _) => False end.

Lemma triple_bind {A B} P (m : GC A) Q (f : A -> GC B) T :
  triple P m Q -> (forall a, triple (Q a) (f a) T) -> triple P (m ≫= f) T.
Proof.
  intros Hm Hf w Hw. specialize (Hm w Hw). unfold mbind, gc_bind. destruct (m w) as [[a|e|] w']; [apply (Hf a), Hm|done..].
Qed.
Lemma triple_ret {A} P (a : A) Q : (forall w, P w -> Q a w) -> triple P (mret a) Q.
Proof. intros HQ w Hw. apply HQ, Hw. Qed.
Lemma triple_throw {A} P e (Q : A -> World -> Prop) : (forall w, P w -> sound w) -> triple P (throw e) Q.
Proof. intros HQ w Hw. apply HQ, Hw. Qed.
Lemma triple_bind_ret {A B} P (a : A) (f : A -> GC B) Q : triple P (f a) Q -> triple P (mret a ≫= f) Q.
Proof. done. Qed.
Lemma triple_bind_throw {A B} P e (f : A -> GC B) Q : (forall w, P w -> sound w) -> triple P (throw e ≫= f) Q.
Proof. intros HP w Hw. apply HP, Hw. Qed.
Lemma triple_weaken {A} (P P' : World -> Prop) (m : GC A) (Q Q' : A -> World -> Prop) :
  triple P' m Q' -> (forall w, P w -> P' w) -> (forall a w, Q' a w -> Q a w) -> triple P m Q.
Proof. intros Hm HP HQ w Hw. specialize (Hm w (HP w Hw)). destruct (m w) as [[a|e|] w']; auto. Qed.
Lemma triple_update (P : World -> Prop) f (Q : World -> Prop) :
  (forall w, P w -> Q (mk_world (w_backend w) (w_clock w) (w_log w) (f (w_totals w)) (w_claim w))) -> triple P (update f) (fun _ => Q).
Proof. intros HQ w Hw. apply HQ, Hw. Qed.
Lemma triple_call {A} (P : World -> Prop) (f : St -> A * St) event (Q : A -> World -> Prop) :
  (forall w a s, P w -> Q a (mk_world s (w_clock w) (w_log w ++ match event (w_clock w) a with Some e => [e] | None => [] end) (w_totals w) (w_claim w))) ->
  triple P (call f event) Q.
Proof. intros HQ w Hw. unfold call. destruct (f (w_backend w)) as [a s]. apply HQ, Hw. Qed.
Lemma triple_now (P : World -> Prop) (Q : Z -> World -> Prop) :
  (forall w t s, P w -> Q t (mk_world s t (w_log w) (w_totals w) (w_claim w))) -> triple P gc_now Q.
Proof. intros HQ w Hw. unfold gc_now. destruct (now (w_backend w)) as [t s]. apply HQ, Hw. Qed.
Lemma triple_claim (P : World -> Prop) : triple P current_claim (fun c w => P w /\ w_claim w = c).
Proof. intros w Hw. done. Qed.
Lemma triple_totals (P : World -> Prop) : triple P current_totals (fun _ => P).
Proof. intros w Hw. done. Qed.
Lemma triple_pure {A} (P : World -> Prop) (p : Prop) (m : GC A) Q : (p -> triple P m Q) -> triple (fun w => P w /\ p) m Q.
Proof. intros Hm w [Hw Hp]. apply (Hm Hp w Hw). Qed.

(** In the middle of a batch: [f] is what is still to be added to the totals. *)
Definition batch_with (f : ArtifactGcTotals -> ArtifactGcTotals) (items : list ArtifactGcCandidate) (R : View -> Prop) (w : World) : Prop :=
  exists v, follows (w_log w) v /\ vw_claim v = Some (w_claim w) /\ cl_items (w_claim w) = items /\ R v
    /\ tallies (w_log w) (f (w_totals w)).
Notation batch := (batch_with (fun t => t)).
(** The lease was open at the clock's last reading. *)
Definition leased (w : World) : Prop :=
  exists d, parse_from_rfc3339 (cl_lease_expires_at (w_claim w)) = Some d /\ w_clock w < d.
(** What is known of the deletions so far. *)
Definition knows (R : View -> Prop) : Prop :=
  forall v v', vw_done v' = vw_done v -> vw_failed v' = vw_failed v -> R v -> R v'.
Definition one_completed : ArtifactGcTotals -> ArtifactGcTotals := add_completed 0 (mk_completion 0 0 0 0).

Lemma batch_sound items R w : batch items R w -> sound w.
Proof. intros (v & HF & _ & _ & _ & HT). exists v. done. Qed.
Hint Resolve batch_sound : core.
Lemma batch_step f items R (R' : View -> Prop) w s t e :
  batch items R w ->
  (forall v, vw_claim v = Some (w_claim w) -> R v -> allowed v e /\ vw_claim (advance v e) = Some (w_claim w) /\ R' (advance v e)) ->
  (tallies (w_log w) (w_totals w) -> tallies (w_log w ++ [e]) (f (w_totals w))) ->
  batch_with f items R' (mk_world s t (w_log w ++ [e]) (w_totals w) (w_claim w)).
Proof.
  intros (v & HF & HC & HI & HR & HT) Hv Ht. destruct (Hv v HC HR) as (HA & HC' & HR').
  exists (advance v e). split_and!; [by constructor|done..|by apply Ht].
Qed.

Lemma claim_deadline_spec (P : World -> Prop) : (forall w, P w -> sound w) ->
  triple P (claim_deadline parse_from_rfc3339) (fun d w => P w /\ parse_from_rfc3339 (cl_lease_expires_at (w_claim w)) = Some d).
Proof.
  intros HP w Hw. unfold claim_deadline, mbind, gc_bind, current_claim; simpl.
  destruct (parse_from_rfc3339 (cl_lease_expires_at (w_claim w))) as [d|] eqn:E; simpl; auto.
Qed.
Lemma read_clock_spec items R d :
  triple (fun w => batch items R w /\ parse_from_rfc3339 (cl_lease_expires_at (w_claim w)) = Some d) gc_now
    (fun t w => batch items R w /\ parse_from_rfc3339 (cl_lease_expires_at (w_claim w)) = Some d /\ w_clock w = t).
Proof. apply triple_now. intros w t s [Hb Hp]. done. Qed.
Lemma renew_spec items R c lease_seconds : knows R ->
  triple (fun w => batch items R w /\ w_claim w = c)
    (call (renew (cl_token c) lease_seconds) (fun _ a => Some (Renewed (cl_token c) a)))
    (fun a w => sound w /\ forall r, a = inr r -> rn_token r = cl_token c ->
       batch items R (mk_world (w_backend w) (w_clock w) (w_log w) (w_totals w) (with_lease (rn_lease_expires_at r) c))).
Proof.
  intros HK. apply triple_call. intros w a s [(v & HF & HC & HI & HR & HT) <-]; simpl.
  assert (HF' : follows (w_log w ++ [Renewed (cl_token (w_claim w)) a]) (advance v (Renewed (cl_token (w_claim w)) a))).
  { constructor; [done|]; simpl; eauto. }
  split.
  - eexists; split; [exact HF'|]. by apply tallies_quiet.
  - intros r -> Hr. eexists; split_and!; [exact HF'|..]; simpl; rewrite ?HC, ?decide_True by congruence; [done..| |by apply tallies_quiet].
    by eapply HK; [..|exact HR].
Qed.
Lemma set_claim_spec c (Q : World -> Prop) :
  triple (fun w => Q (mk_world (w_backend w) (w_clock w) (w_log w) (w_totals w) c)) (set_claim c) (fun _ => Q).
Proof. intros w Hw. exact Hw. Qed.
Lemma triple_check (P : World -> Prop) (b : bool) e : (forall w, P w -> sound w) ->
  triple P (if b then throw e else mret tt) (fun _ w => P w /\ b = false).
Proof. intros HP w Hw. destruct b; simpl; auto. Qed.
Lemma ensure_current_claim_spec items R lease_seconds : knows R ->
  triple (batch items R) (ensure_current_claim parse_from_rfc3339 lease_seconds) (fun _ w => batch items R w /\ leased w).
Proof.
  intros HK. eapply triple_bind; [apply claim_deadline_spec; eauto|intros d; simpl].
  eapply triple_bind; [apply read_clock_spec|intros t; simpl]. case_match eqn:E.
  { apply triple_ret. intros w (Hb & Hp & <-). split; [done|]. exists d; split; [done|].
    apply Z.ltb_lt in E. unfold SECOND in E. lia. }
  eapply triple_bind; [apply triple_claim|intros c; simpl].
  eapply triple_bind; [eapply triple_weaken; [apply (renew_spec items R c lease_seconds HK)|naive_solver|intros a w Hw; exact Hw]|].
  intros [e|r]; simpl; [apply triple_bind_throw; naive_solver|apply triple_bind_ret].
  destruct (decide (rn_token r = cl_token c)) as [Hr|Hr]; [apply triple_bind_ret|apply triple_bind_throw; naive_solver].
  eapply triple_bind; [eapply triple_weaken; [apply (set_claim_spec _ (batch items R))|naive_solver|intros a w Hw; exact Hw]|intros []; simpl].
  eapply triple_bind; [apply claim_deadline_spec; eauto|intros d'; simpl].
  eapply triple_bind; [apply read_clock_spec|intros t'; simpl].
  case_match eqn:E'; [apply triple_throw; naive_solver|].
  apply triple_ret. intros w (Hb & Hp & <-). split; [done|]. exists d'. apply Z.leb_gt in E'. done.
Qed.

Definition may_fail (c : ArtifactGcCandidate) (v : View) : Prop :=
  candidate_validate c <> Ok tt \/ gc_storage_bucket c <> Some expected_bucket \/ c ∈ vw_failed v.
Definition may_complete (c : ArtifactGcCandidate) (o : ArtifactObjectDeleteOutcome) (v : View) : Prop :=
  match gc_phase c with ObjectDelete => (ForArtifact c, o) ∈ vw_done v | DetailCleanup => o = Deleted end.
Lemma knows_may_fail c : knows (may_fail c).
Proof. intros v v' _ Ef. unfold may_fail. by rewrite Ef. Qed.
Lemma knows_may_complete c o : knows (may_complete c o).
Proof. intros v v' Ed _. unfold may_complete. by rewrite Ed. Qed.
Lemma knows_nothing : knows (fun _ => True).
Proof. done. Qed.
Hint Resolve knows_may_fail knows_may_complete knows_nothing : core.

(** A call under the open lease of the batch. *)
Lemma leased_call_spec {A B} items R c (f : Uuid -> St -> A * St) (event : Uuid -> Z -> A -> Event)
    (g : A -> ArtifactGcTotals -> ArtifactGcTotals) (k : A -> GC B) Q lease_seconds : knows R -> c ∈ items ->
  (forall v cl d t a, holds_claim v cl c d -> t < d -> R v -> allowed v (event (cl_token cl) t a) /\ advance v (event (cl_token cl) t a) = v) ->
  (forall token t a log totals, tallies log totals -> tallies (log ++ [event token t a]) (g a totals)) ->
  (forall a, triple (batch_with (g a) items R) (k a) Q) ->
  triple (batch items R)
    (_ ← ensure_current_claim parse_from_rfc3339 lease_seconds; cl ← current_claim;
     a ← call (f (cl_token cl)) (fun t a => Some (event (cl_token cl) t a)); k a) Q.
Proof.
  intros HK Hc Hv Ht Hk. eapply triple_bind; [by apply ensure_current_claim_spec|intros []; simpl].
  eapply triple_bind; [apply triple_claim|intros cl; simpl].
  eapply triple_bind; [apply triple_call|exact Hk]. intros w a s [[Hb (d & Hd & Hlt)] <-].
  eapply batch_step; [exact Hb| |apply Ht]. intros v HC HR.
  assert (Hi : cl_items (w_claim w) = items) by (destruct Hb as (? & ? & ? & ? & ?); done).
  destruct (Hv v (w_claim w) d (w_clock w) a) as [HA HE]; [|done..|by rewrite HE].
  split_and!; [done|by rewrite Hi|done].
Qed.

Lemma batch_update f items R R' : (forall v, R v -> R' v) ->
  triple (batch_with f items R) (update f) (fun _ => batch items R').
Proof.
  intros HR. apply triple_update. intros w (v & HF & HC & HI & Hv & HT). exists v. split_and!; [done..|by apply HR|done].
Qed.
Lemma batch_update_quiet f items R : (forall log t, tallies log t -> tallies log (f t)) ->
  triple (batch items R) (update f) (fun _ => batch items R).
Proof.
  intros Hf. apply triple_update. intros w (v & HF & HC & HI & Hv & HT). exists v. split_and!; [done..|by apply Hf].
Qed.
Lemma batch_weaken f items (R R' : View -> Prop) w : (forall v, R v -> R' v) -> batch_with f items R w -> batch_with f items R' w.
Proof. intros HR (v & HF & HC & HI & Hv & HT). exists v. split_and!; [done..|by apply HR|done]. Qed.
Lemma record_failure_spec items c lease_seconds message : c ∈ items ->
  triple (batch items (may_fail c)) (record_failure parse_from_rfc3339 lease_seconds c message) (fun _ => batch items (fun _ => True)).
Proof.
  intros Hc. unfold record_failure.
  apply (leased_call_spec items (may_fail c) c (fun token => fail token c message) (fun token t a => FailCalled token c message t a)
           (fun a => match a with inr _ => add_retryable | inl _ => fun t => t end)); [done..| | |].
  - intros v cl d t a Hcl Ht HR. split; [|done]. exists cl, d. done.
  - intros token t [e|[]] log totals HT; tally.
  - intros [e|[]]; simpl; [apply triple_bind_throw; eauto|apply triple_bind_ret]. by apply batch_update.
Qed.
(** What an answered completion adds to the totals. *)
Definition completing (a : string + ArtifactGcCompletion) : ArtifactGcTotals -> ArtifactGcTotals :=
  match a with inr a => if cp_details_remaining a =? 0 then one_completed else fun t => t | inl _ => fun t => t end.
Lemma tallies_completing token c o t a log totals : tallies log totals -> tallies (log ++ [CompleteCalled token c o t a]) (completing a totals).
Proof.
  intros HT. destruct a as [e|a]; [tally|]. simpl. destruct (cp_details_remaining a =? 0) eqn:E; [|by apply tallies_quiet].
  assert (Ef : final_completion (CompleteCalled token c o t (inr a)) = true) by exact E.
  destruct HT as [? ? Hcompleted ? ? ? ? ?]; split; rewrite ?count_snoc, ?Ef; try (simpl; rewrite ?Z.add_0_r; done).
  simpl. pose proof (count_nonneg final_completion log). rewrite Hcompleted. unfold saturated, saturating_add, USIZE_MAX, U64_MAX. lia.
Qed.
Lemma complete_call_spec {B} items c o detail_limit (k : _ -> GC B) Q lease_seconds : c ∈ items -> candidate_validate c = Ok tt ->
  (forall a, triple (batch_with (completing a) items (may_complete c o)) (k a) Q) ->
  triple (batch items (may_complete c o))
    (_ ← ensure_current_claim parse_from_rfc3339 lease_seconds; cl ← current_claim;
     a ← call (complete (cl_token cl) c o detail_limit) (fun t a => Some (CompleteCalled (cl_token cl) c o t a)); k a) Q.
Proof.
  intros Hc HV Hk.
  apply (leased_call_spec items (may_complete c o) c (fun token => complete token c o detail_limit)
           (fun token t a => CompleteCalled token c o t a) completing); [done..| | |exact Hk].
  - intros v cl d t a Hcl Ht HR; split; [|done]; exists cl, d; done.
  - intros. by apply tallies_completing.
Qed.
Lemma complete_attempts_spec items c o lease_seconds detail_limit budget attempt : c ∈ items -> candidate_validate c = Ok tt ->
  triple (batch items (may_complete c o)) (complete_attempts parse_from_rfc3339 budget attempt lease_seconds detail_limit c o)
    (fun a => batch_with (completing (inr a)) items (may_complete c o)).
Proof.
  intros Hc HV. revert attempt. induction budget as [|budget IH]; intros attempt; simpl; apply complete_call_spec; try done; intros [e|a]; simpl.
  - apply triple_throw; eauto.
  - by apply triple_ret.
  - apply IH.
  - by apply triple_ret.
Qed.
Lemma tallies_completed round a log t : tallies log (one_completed t) -> tallies log (add_completed round a t).
Proof. intros []. by split. Qed.
Lemma complete_rounds_spec items c o lease_seconds detail_limit budget round aggregate : c ∈ items -> candidate_validate c = Ok tt ->
  triple (batch items (may_complete c o)) (complete_rounds parse_from_rfc3339 budget round lease_seconds detail_limit c o aggregate)
    (fun _ => batch items (fun _ => True)).
Proof.
  intros Hc HV. revert round aggregate. induction budget as [|budget IH]; intros round aggregate; cbn [complete_rounds]; [apply triple_throw; eauto|].
  eapply triple_bind; [by apply ensure_current_claim_spec|intros []].
  eapply triple_bind; [eapply triple_weaken; [by apply (complete_attempts_spec items c o)|naive_solver|intros a w Hw; exact Hw]|intros a].
  simpl. destruct (cp_details_remaining a =? 0); [|apply IH].
  apply triple_update. intros w (v & HF & HC & HI & HR & HT). exists v. split_and!; [done..|by apply tallies_completed].
Qed.

(** ** A batch of candidates *)

Lemma validated_object c : candidate_validate c = Ok tt -> gc_object_delete_required c = true ->
  gc_phase c = ObjectDelete /\ exists bucket path, gc_storage_bucket c = Some bucket /\ gc_storage_path c = Some path.
Proof.
  unfold candidate_validate. intros HV Ho. destruct (gc_phase c); rewrite Ho in HV; [split; [done|]|done].
  apply bind_ok in HV as ([] & HV & _). apply bind_ok in HV as ([] & _ & HV). apply bind_ok in HV as ([] & Hb & Hp).
  destruct (gc_storage_bucket c) as [bucket|]; [|done]. destruct (gc_storage_path c) as [path|]; [by eauto|done].
Qed.
Lemma candidate_validate_no_panic c : candidate_validate c <> Panic.
Proof. unfold candidate_validate, validate_storage_path. no_panic. Qed.
Lemma validated_details c : candidate_validate c = Ok tt -> gc_object_delete_required c = false -> gc_phase c = DetailCleanup.
Proof. unfold candidate_validate. intros HV Ho. destruct (gc_phase c); [by rewrite Ho in HV|done]. Qed.

Definition deleting (a : option (string + ArtifactObjectDeleteOutcome)) : ArtifactGcTotals -> ArtifactGcTotals :=
  match a with Some (inr o) => add_object o | _ => fun t => t end.
Definition deletion_known (c : ArtifactGcCandidate) (a : option (string + ArtifactObjectDeleteOutcome)) (v : View) : Prop :=
  match a with Some (inr o) => (ForArtifact c, o) ∈ vw_done v | Some (inl _) => c ∈ vw_failed v | None => True end.
Lemma tallies_deleting c path t a log totals :
  tallies log totals -> tallies (log ++ [DeleteCalled (ForArtifact c) path t a]) (deleting a totals).
Proof. intros HT. destruct a as [[e|[]]|]; simpl; tally. Qed.
(** The object of a validated candidate is deleted before its lease ends. *)
Lemma delete_call_spec items c path d t :
  c ∈ items -> candidate_validate c = Ok tt -> gc_phase c = ObjectDelete -> gc_storage_bucket c = Some expected_bucket ->
  gc_storage_path c = Some path -> t <= d ->
  triple (fun w => batch items (fun _ => True) w /\ parse_from_rfc3339 (cl_lease_expires_at (w_claim w)) = Some d /\ w_clock w = t)
    (call (delete_object (d - t) path) (fun t a => Some (DeleteCalled (ForArtifact c) path t a)))
    (fun a => batch_with (deleting a) items (deletion_known c a)).
Proof.
  intros Hc HV Hph Hbk Hpa Htd. apply triple_call. intros w a s (Hb & Hd & Ht).
  eapply batch_step; [exact Hb| |apply tallies_deleting]. intros v HC _.
  assert (Hi : cl_items (w_claim w) = items) by (destruct Hb as (? & ? & ? & ? & ?); done).
  split; [|destruct a as [[e|o]|]; simpl; split; auto using list_elem_of_here].
  exists (w_claim w), d. split_and!; [|lia|done..]. split_and!; [done|by rewrite Hi|done].
Qed.

Lemma process_claimed_candidate_spec items c lease_seconds detail_limit : c ∈ items ->
  triple (batch items (fun _ => True)) (process_claimed_candidate parse_from_rfc3339 lease_seconds detail_limit c)
    (fun _ => batch items (fun _ => True)).
Proof.
  intros Hc. unfold process_claimed_candidate. destruct (candidate_validate c) as [[]|e|] eqn:HV.
  3: { exfalso. by apply candidate_validate_no_panic in HV. }
  2: { eapply triple_weaken; [apply (record_failure_spec items c); done| |done].
       intros w. apply batch_weaken. intros v _. left. by rewrite HV. }
  destruct (gc_object_delete_required c) eqn:Ho; simpl.
  2: { eapply triple_bind; [apply (batch_update_quiet add_detail_cleanup items (fun _ => True))|intros []].
       { intros log t []. by split. }
       eapply triple_weaken; [by apply (complete_rounds_spec items c Deleted)| |done].
       intros w. apply batch_weaken. intros v _. unfold may_complete. by rewrite (validated_details c HV Ho). }
  destruct (validated_object c HV Ho) as (Hph & bucket & path & Hbk & Hpa).
  case_bool_decide as Hbd; simpl; rewrite Hbk in Hbd; simpl in Hbd.
  2: { eapply triple_weaken; [apply (record_failure_spec items c); done| |done].
       intros w. apply batch_weaken. intros v _. right; left. rewrite Hbk. congruence. }
  subst bucket. rewrite Hpa; simpl.
  eapply triple_bind; [by apply (ensure_current_claim_spec items (fun _ => True))|intros []].
  eapply triple_bind; [eapply triple_weaken; [apply (claim_deadline_spec (batch items (fun _ => True))); eauto|naive_solver|intros d w Hw; exact Hw]|intros d].
  eapply triple_bind; [apply read_clock_spec|intros t]. eapply triple_bind; [apply triple_check; naive_solver|intros []; apply triple_pure; intros Hlt].
  eapply triple_bind; [apply (delete_call_spec items c path d t); try done; bool_hyps; lia|].
  intros [[e|o]|]; simpl.
  - eapply triple_weaken; [apply (record_failure_spec items c); done| |done].
    intros w. apply batch_weaken. intros v Hf. by right; right.
  - eapply triple_bind; [by apply batch_update|intros []].
    eapply triple_weaken; [by apply (complete_rounds_spec items c o)| |done].
    intros w. apply batch_weaken. intros v Hf. unfold may_complete. rewrite Hph. exact Hf.
  - apply triple_throw. intros w. apply batch_sound.
Qed.
Lemma process_items_spec items rest lease_seconds detail_limit : (forall c, c ∈ rest -> c ∈ items) ->
  triple (batch items (fun _ => True)) (process_items parse_from_rfc3339 lease_seconds detail_limit rest)
    (fun _ => batch items (fun _ => True)).
Proof.
  induction rest as [|c rest IH]; intros Hr; cbn [process_items]; [by apply triple_ret|].
  eapply triple_bind; [apply (process_claimed_candidate_spec items c)|intros []; apply IH].
  - apply Hr, list_elem_of_here.
  - intros c' Hc'. by apply Hr, list_elem_of_further.
Qed.

(** ** Every claimed candidate is settled *)

(** What the candidates of the batches so far have come to. *)
Record settled (batches candidates k : Z) (t : ArtifactGcTotals) : Prop := {
  se_batches : tt_batches t = batches;
  se_candidates : tt_candidates t = candidates;
  se_handoffs : tt_lease_handoffs t = 0;
  se_completed : 0 <= tt_completed t;
  se_failures : 0 <= tt_retryable_failures t;
  se_sum : tt_completed t + tt_retryable_failures t = k;
}.
Definition settles {A} (n : Z) (m : GC A) : Prop := forall w b c k, settled b c k (w_totals w) -> k + n <= USIZE_MAX ->
  match m w with (Ok _, w') => settled b c (k + n) (w_totals w') | _ => True end.

Lemma settles_then {A B} n n' (m : GC A) (f : A -> GC B) : 0 <= n' ->
  settles n m -> (forall a, settles n' (f a)) -> settles (n + n') (m ≫= f).
Proof.
  intros Hn Hm Hf w b c k Hs Hb. specialize (Hm w b c k Hs). unfold mbind, gc_bind.
  destruct (m w) as [[a|e|] w']; [|done..]. rewrite Z.add_assoc. apply Hf; [apply Hm|]; lia.
Qed.
Lemma settles_quiet {A B} n (m : GC A) (f : A -> GC B) : 0 <= n -> settles 0 m -> (forall a, settles n (f a)) -> settles n (m ≫= f).
Proof. intros Hn Hm Hf. by apply (settles_then 0 n). Qed.
Lemma settles_same {A} (m : GC A) : (forall w, w_totals (m w).2 = w_totals w) -> settles 0 m.
Proof. intros Hm w b c k Hs _. specialize (Hm w). destruct (m w) as [[a|e|] w']; [|done..]. simpl in Hm. by rewrite Hm, Z.add_0_r. Qed.
Lemma settles_throw {A} n e : settles n (@throw St A e).
Proof. by intros w b c k _ _. Qed.
Lemma settles_call {A} (f : St -> A * St) event : settles 0 (call f event).
Proof. apply settles_same. intros w. unfold call. by destruct (f (w_backend w)). Qed.
Lemma settles_now : settles 0 gc_now.
Proof. apply settles_same. intros w. unfold gc_now. by destruct (now (w_backend w)). Qed.
Lemma settles_claim : settles 0 (@current_claim St).
Proof. by apply settles_same. Qed.
Lemma settles_set_claim c : settles 0 (@set_claim St c).
Proof. by apply settles_same. Qed.
Lemma settles_ret {A} (a : A) : settles 0 (mret a : GC A).
Proof. by apply settles_same. Qed.
Lemma settles_deadline : settles 0 (@claim_deadline St parse_from_rfc3339).
Proof. apply settles_quiet; [done|apply settles_claim|]. intros c. case_match; [apply settles_ret|apply settles_throw]. Qed.
Hint Resolve settles_throw settles_call settles_now settles_claim settles_set_claim settles_ret settles_deadline : core.
(** Walks through the parts that leave the totals alone. *)
Ltac quiet := repeat first [solve [auto]|apply settles_quiet; [lia| |intros ?]|case_match].
Lemma settles_ensure lease_seconds : settles 0 (ensure_current_claim parse_from_rfc3339 lease_seconds).
Proof. unfold ensure_current_claim. quiet. Qed.
Hint Resolve settles_ensure : core.
Lemma settles_add_retryable : settles 1 (@update St add_retryable).
Proof.
  intros w b c k [] Hk. simpl. split; simpl; try done; unfold saturating_add, USIZE_MAX, U64_MAX in *; lia.
Qed.
Lemma settles_add_completed round a : settles 1 (@update St (add_completed round a)).
Proof.
  intros w b c k [] Hk. simpl. split; simpl; try done; unfold saturating_add, USIZE_MAX, U64_MAX in *; lia.
Qed.
Hint Resolve settles_add_retryable settles_add_completed : core.
Lemma settles_record_failure lease_seconds c message : settles 1 (record_failure parse_from_rfc3339 lease_seconds c message).
Proof. unfold record_failure, answered. quiet. Qed.
Lemma settles_attempts budget attempt lease_seconds detail_limit c o :
  settles 0 (complete_attempts parse_from_rfc3339 budget attempt lease_seconds detail_limit c o).
Proof. revert attempt. induction budget as [|budget IH]; intros attempt; simpl; quiet. Qed.
Hint Resolve settles_record_failure settles_attempts : core.
Lemma settles_rounds budget round lease_seconds detail_limit c o aggregate :
  settles 1 (complete_rounds parse_from_rfc3339 budget round lease_seconds detail_limit c o aggregate).
Proof. revert round aggregate. induction budget as [|budget IH]; intros round aggregate; cbn [complete_rounds]; quiet. Qed.
Lemma settles_candidate lease_seconds detail_limit c :
  settles 1 (process_claimed_candidate parse_from_rfc3339 lease_seconds detail_limit c).
Proof.
  assert (Hd : settles 0 (@update St add_detail_cleanup)) by (intros w b n k [] _; split; simpl; try done; lia).
  assert (Ho : forall o, settles 0 (@update St (add_object o))) by (intros o w b n k [] _; split; simpl; try done; lia).
  pose proof settles_rounds. unfold process_claimed_candidate, complete_claimed_candidate. quiet. by intros w b n k _ _.
Qed.
Lemma settles_items lease_seconds detail_limit items :
  settles (Z.of_nat (length items)) (process_items parse_from_rfc3339 lease_seconds detail_limit items).
Proof.
  induction items as [|c items IH]; cbn [process_items]; [auto|].
  replace (Z.of_nat (length (c :: items))) with (1 + Z.of_nat (length items)) by (simpl; lia).
  apply settles_then; [lia|apply settles_candidate|done].
Qed.

(** ** Write sets *)

(** In the middle of a write set: the objects of [pre] are gone. *)
Definition reconciling (f : ArtifactGcTotals -> ArtifactGcTotals) (cl : ArtifactWriteSetReconcileClaim)
    (ws : ArtifactWriteSetReconcileCandidate) (d : Z) (pre : list ArtifactWriteSetReconcileItem) (w : World) : Prop :=
  exists v, follows (w_log w) v /\ holds_write_set v cl ws d /\ (forall i, i ∈ pre -> exists o, (ForWriteSet i, o) ∈ vw_done v)
    /\ tallies (w_log w) (f (w_totals w)).
Definition staging (a : option (string + ArtifactObjectDeleteOutcome)) : ArtifactGcTotals -> ArtifactGcTotals :=
  match a with Some (inr Deleted) => add_staging 0 1 0 0 | Some (inr Missing) => add_staging 0 0 1 0 | _ => fun t => t end.
Lemma reconciling_sound cl ws d pre w : reconciling (fun t => t) cl ws d pre w -> sound w.
Proof. intros (v & HF & _ & _ & HT). exists v. done. Qed.
Hint Resolve reconciling_sound : core.
Lemma tallies_staging i path t a log totals :
  tallies log totals -> tallies (log ++ [DeleteCalled (ForWriteSet i) path t a]) (staging a totals).
Proof. intros HT. destruct a as [[e|[]]|]; simpl; tally. Qed.
Lemma tallies_handoff log t : tallies log t -> tallies log (add_staging 0 0 0 1 t).
Proof. intros HT. tally. Qed.
Lemma update_handoff_spec (P : World -> Prop) : (forall w, P w -> sound w) -> triple P (update (add_staging 0 0 0 1)) (fun _ => sound).
Proof. intros HP. apply triple_update. intros w (v & HF & HT)%HP. exists v. split; [done|by apply tallies_handoff]. Qed.

Lemma staging_call_spec cl ws d pre i t : i ∈ ws_items ws -> ws_bucket i = expected_bucket -> t <= d ->
  triple (fun w => reconciling (fun t => t) cl ws d pre w /\ w_clock w = t)
    (call (delete_object (d - t) (ws_path i)) (fun t a => Some (DeleteCalled (ForWriteSet i) (ws_path i) t a)))
    (fun a => reconciling (staging a) cl ws d (match a with Some (inr _) => pre ++ [i] | _ => pre end)).
Proof.
  intros Hi Hb Ht. apply triple_call. intros w a s [(v & HF & HW & HD & HT) <-].
  exists (advance v (DeleteCalled (ForWriteSet i) (ws_path i) (w_clock w) a)). split_and!.
  - constructor; [done|]. exists cl, ws, d. done.
  - destruct HW as (? & ? & ? & ?). destruct a as [[e|o]|]; done.
  - destruct a as [[e|o]|]; [done| |done]. intros j [Hj|Hj]%elem_of_app.
    + destruct (HD j Hj) as [o' Ho]. exists o'. by apply list_elem_of_further.
    + apply list_elem_of_singleton in Hj as ->. exists o. apply list_elem_of_here.
  - by apply tallies_staging.
Qed.
Lemma reconciling_update f cl ws d pre : triple (reconciling f cl ws d pre) (update f) (fun _ => reconciling (fun t => t) cl ws d pre).
Proof. apply triple_update. intros w (v & HF & HW & HD & HT). by exists v. Qed.
Lemma reconcile_items_spec cl ws d items pre : ws_items ws = pre ++ items ->
  triple (reconciling (fun t => t) cl ws d pre) (reconcile_items d items)
    (fun finished w => if finished then reconciling (fun t => t) cl ws d (ws_items ws) w else sound w).
Proof.
  revert pre. induction items as [|i items IH]; intros pre Hw; cbn [reconcile_items].
  { rewrite app_nil_r in Hw. rewrite Hw. by apply triple_ret. }
  assert (Hi : i ∈ ws_items ws) by (rewrite Hw; apply elem_of_app; right; apply list_elem_of_here).
  assert (IH' := IH (pre ++ [i])). rewrite <-app_assoc in IH'. specialize (IH' Hw).
  case_decide as Hb; [apply triple_bind_ret|apply triple_bind_throw; eauto].
  eapply triple_bind.
  { apply (triple_now _ (fun t w => reconciling (fun t => t) cl ws d pre w /\ w_clock w = t)). intros w t s Hr. done. }
  intros t. destruct (d - t <? 0) eqn:Et.
  { eapply triple_bind; [apply update_handoff_spec; naive_solver|intros []; by apply triple_ret]. }
  eapply triple_bind; [apply staging_call_spec; [done..|bool_hyps; lia]|]. intros [[e|[]]|].
  - apply triple_throw. intros w. apply reconciling_sound.
  - eapply triple_bind; [apply reconciling_update|intros []; apply IH'].
  - eapply triple_bind; [apply reconciling_update|intros []; apply IH'].
  - eapply triple_bind; [apply update_handoff_spec; apply reconciling_sound|intros []; by apply triple_ret].
Qed.

Lemma stale_claim_spec lease_seconds :
  triple sound (call (claim_stale_write_sets 1 lease_seconds) (fun _ a => match a with inr c => Some (StaleClaimed c) | inl _ => None end))
    (fun a w => sound w /\ forall cl, a = inr cl ->
       exists v, follows (w_log w) v /\ vw_stale v = Some cl /\ tallies (w_log w) (w_totals w)).
Proof.
  apply triple_call. intros w a s (v & HF & HT). destruct a as [e|cl]; simpl.
  { rewrite app_nil_r. split; [by exists v|done]. }
  assert (HF' : follows (w_log w ++ [StaleClaimed cl]) (advance v (StaleClaimed cl))) by by constructor.
  split; [|intros cl' [= <-]]; eexists; split_and!; try exact HF'; try done; by apply tallies_quiet.
Qed.
Lemma stale_complete_spec cl ws d :
  triple (fun w => reconciling (fun t => t) cl ws d (ws_items ws) w /\ w_clock w < d)
    (call (complete_stale_write_set (ws_id ws) (sc_token cl)) (fun t a => Some (StaleCompleted (ws_id ws) (sc_token cl) t a)))
    (fun a => reconciling (match a with inr _ => add_staging 1 0 0 0 | inl _ => fun t => t end) cl ws d (ws_items ws)).
Proof.
  apply triple_call. intros w a s [(v & HF & HW & HD & HT) Hlt].
  exists (advance v (StaleCompleted (ws_id ws) (sc_token cl) (w_clock w) a)). split_and!; [|done..|].
  - constructor; [done|]. by exists cl, ws, d.
  - destruct a as [e|[]]; simpl; tally.
Qed.
Lemma reconcile_stale_write_sets_spec budget lease_seconds :
  triple sound (reconcile_stale_write_sets parse_from_rfc3339 budget lease_seconds) (fun _ => sound).
Proof.
  induction budget as [|budget IH]; cbn [reconcile_stale_write_sets]; [by apply triple_ret|].
  eapply triple_bind; [apply stale_claim_spec|]. intros [e|cl]; simpl; [apply triple_bind_throw; naive_solver|apply triple_bind_ret].
  destruct (sc_write_sets cl) as [|ws [|]] eqn:Hws; [apply triple_ret; naive_solver| |apply triple_throw; naive_solver].
  destruct (parse_from_rfc3339 (sc_lease_expires_at cl)) as [d|] eqn:Hd; [|apply triple_throw; naive_solver].
  case_match eqn:Hv; [apply triple_throw; naive_solver|]. bool_hyps. case_bool_decide as Hst; [|done].
  eapply triple_bind.
  { eapply triple_weaken; [apply (reconcile_items_spec cl ws d (ws_items ws) []); done| |intros b w Hw; exact Hw].
    intros w [_ Hcl]. destruct (Hcl cl eq_refl) as (v & HF & HC & HT). exists v. split_and!; [done..| |done]. by intros i ?%elem_of_nil. }
  intros [|]; simpl; [|by apply triple_ret]. eapply triple_bind.
  { apply (triple_now _ (fun t w => reconciling (fun t => t) cl ws d (ws_items ws) w /\ w_clock w = t)). intros w t s Hr. done. }
  intros t. destruct (d <=? t) eqn:Et; [apply update_handoff_spec; naive_solver|]. bool_hyps.
  eapply triple_bind; [eapply triple_weaken; [apply stale_complete_spec| |intros a w Hw; exact Hw]|].
  { intros w [Hr Ht]. split; [exact Hr|lia]. }
  intros [e|[]]; simpl; [apply triple_bind_throw; intros w; apply reconciling_sound|apply triple_bind_ret].
  eapply triple_bind; [apply reconciling_update|intros []]. eapply triple_weaken; [exact IH|intros w; apply reconciling_sound|done].
Qed.
Lemma settles_staging cleaned deleted missing handoffs : settles 0 (@update St (add_staging cleaned deleted missing handoffs)).
Proof. intros w b c k [] _. split; simpl; try done; lia. Qed.
Hint Resolve settles_staging : core.
Lemma settles_reconcile_items d items : settles 0 (reconcile_items d items).
Proof. induction items as [|i items IH]; cbn [reconcile_items]; quiet. Qed.
Hint Resolve settles_reconcile_items : core.
Lemma settles_reconcile budget lease_seconds : settles 0 (reconcile_stale_write_sets parse_from_rfc3339 budget lease_seconds).
Proof. induction budget as [|budget IH]; cbn [reconcile_stale_write_sets]; unfold answered; quiet. Qed.

(** ** The run *)

Lemma triple_settles {A} P (m : GC A) Q n b c k : triple P m Q -> settles n m -> k + n <= USIZE_MAX ->
  triple (fun w => P w /\ settled b c k (w_totals w)) m (fun a w => Q a w /\ settled b c (k + n) (w_totals w)).
Proof.
  intros Hm Hs Hk w [Hw Ht]. specialize (Hm w Hw). specialize (Hs w b c k Ht Hk). destruct (m w) as [[a|e|] w']; done.
Qed.
Lemma claim_spec batch_size lease_seconds :
  triple sound (call (claim batch_size lease_seconds) (fun _ a => match a with inr c => Some (Claimed c) | inl _ => None end))
    (fun a w => sound w /\ forall cl, a = inr cl ->
       exists v, follows (w_log w) v /\ vw_claim v = Some cl /\ tallies (w_log w) (w_totals w)).
Proof.
  apply triple_call. intros w a s (v & HF & HT). destruct a as [e|cl]; simpl.
  { rewrite app_nil_r. split; [by exists v|done]. }
  assert (HF' : follows (w_log w ++ [Claimed cl]) (advance v (Claimed cl))) by by constructor.
  split; [|intros cl' [= <-]]; eexists; split_and!; try exact HF'; try done; by apply tallies_quiet.
Qed.
(** Between two batches. *)
Definition going (batch_size max_batches : Z) (w : World) : Prop :=
  sound w /\ exists b c, settled b c c (w_totals w) /\ 0 <= b <= max_batches /\ 0 <= c <= b * batch_size.

Lemma start_batch_spec {B} cl b c k (m : GC B) Q : 0 <= b < ARTIFACT_GC_MAX_BATCHES -> 0 <= c -> c + Z.of_nat (length (cl_items cl)) <= USIZE_MAX ->
  triple (fun w => batch (cl_items cl) (fun _ => True) w /\ settled (b + 1) (c + Z.of_nat (length (cl_items cl))) k (w_totals w)) m Q ->
  triple (fun w => (exists v, follows (w_log w) v /\ vw_claim v = Some cl /\ tallies (w_log w) (w_totals w)) /\ settled b c k (w_totals w))
    (_ ← update (add_claimed (Z.of_nat (length (cl_items cl)))); _ ← set_claim cl; m) Q.
Proof.
  intros Hb Hc Hn Hm w [(v & HF & HC & HT) []]. apply Hm. simpl. split.
  - exists v. split_and!; [done..|]. simpl. destruct HT. by split.
  - split; simpl; try done; unfold saturating_add, USIZE_MAX, U64_MAX, ARTIFACT_GC_MAX_BATCHES in *; lia.
Qed.
(** One round of the loop, with what follows it. *)
Lemma round_spec batch_size lease_seconds detail_limit b c (m : GC unit) Q :
  1 <= batch_size <= ARTIFACT_GC_MAX_BATCH_SIZE -> 0 <= b < ARTIFACT_GC_MAX_BATCHES -> 0 <= c <= b * batch_size ->
  (forall n, 0 <= n <= batch_size -> triple (fun w => sound w /\ settled (b + 1) (c + n) (c + n) (w_totals w)) m Q) ->
  (forall w, sound w -> settled b c c (w_totals w) -> Q tt w) ->
  triple (fun w => sound w /\ settled b c c (w_totals w))
    (answer ← call (claim batch_size lease_seconds) (fun _ a => match a with inr c => Some (Claimed c) | inl _ => None end);
     claim ← answered answer;
     _ ← (if (Z.to_nat batch_size <? length (cl_items claim))%nat then throw (Failure "artifact GC claim exceeded requested batch bound") else mret tt);
     match cl_items claim with
     | [] => mret tt
     | items =>
         _ ← update (add_claimed (Z.of_nat (length items)));
         _ ← set_claim claim;
         _ ← process_items parse_from_rfc3339 lease_seconds detail_limit items;
         m
     end) Q.
Proof.
  intros Hbs Hb Hc Hm HQ. assert (Hmax : 50000 <= USIZE_MAX) by done. unfold ARTIFACT_GC_MAX_BATCH_SIZE, ARTIFACT_GC_MAX_BATCHES in *.
  assert (Hprod : b * batch_size <= 99 * 500) by (apply Z.mul_le_mono_nonneg; lia).
  eapply triple_bind; [apply triple_settles; [apply claim_spec|apply settles_call|lia]|]. rewrite Z.add_0_r.
  intros [e|cl]; cbn [answered]; [apply triple_bind_throw; naive_solver|apply triple_bind_ret].
  eapply triple_bind; [apply triple_check; naive_solver|intros []; apply triple_pure; intros Hlen].
  apply Nat.ltb_ge in Hlen. assert (Hbound : c + Z.of_nat (length (cl_items cl)) <= USIZE_MAX) by lia.
  destruct (cl_items cl) as [|i items] eqn:Hi; [apply triple_ret; naive_solver|]. rewrite <-Hi in *. clear i items Hi.
  eapply triple_weaken; [apply (start_batch_spec cl b c c); [unfold ARTIFACT_GC_MAX_BATCHES; lia..|]| |intros a w Hw; exact Hw].
  2: { intros w [[_ Hcl] Hs]. split; [by apply Hcl|done]. }
  eapply triple_bind.
  - apply triple_settles; [by apply (process_items_spec (cl_items cl) (cl_items cl))|apply settles_items|lia].
  - intros []. eapply triple_weaken; [apply (Hm (Z.of_nat (length (cl_items cl)))); lia| |intros a w Hw; exact Hw].
    intros w [Hb' Hs]. split; [by eapply batch_sound|done].
Qed.
Lemma run_batches_spec budget batch_size max_batches lease_seconds detail_limit :
  1 <= batch_size <= ARTIFACT_GC_MAX_BATCH_SIZE -> max_batches <= ARTIFACT_GC_MAX_BATCHES ->
  triple (fun w => going batch_size max_batches w /\ max_batches - tt_batches (w_totals w) <= Z.of_nat budget)
    (run_batches parse_from_rfc3339 budget batch_size max_batches lease_seconds detail_limit) (fun _ => going batch_size max_batches).
Proof.
  intros Hbs Hmb. induction budget as [|budget IH]; intros w [Hg Hbud]; cbn [run_batches];
    unfold mbind at 1, gc_bind at 1, current_totals at 1;
    (destruct (tt_batches (w_totals w) <? max_batches) eqn:Elt; bool_hyps; [|exact Hg]); [lia|].
  destruct Hg as [HS (b & c & Hs & Hb & Hc)]. rewrite (se_batches _ _ _ _ Hs) in *.
  refine (round_spec batch_size lease_seconds detail_limit b c _ (fun _ => going batch_size max_batches) Hbs _ Hc _ _ w (conj HS Hs)); [lia| |].
  - intros n Hn. eapply triple_weaken; [exact IH| |done]. intros w' [HS' Hs']. rewrite (se_batches _ _ _ _ Hs'). split; [|lia].
    split; [done|]. exists (b + 1), (c + n). split_and!; [done|nia..].
  - intros w' HS' Hs'. split; [done|]. exists b, c. done.
Qed.

(** What a report says of the candidates its run claimed. *)
Definition accounted (t : ArtifactGcTotals) : Prop :=
  tt_lease_handoffs t = 0 -> tt_completed t + tt_retryable_failures t = tt_candidates t.
Lemma going_accounted batch_size max_batches w : going batch_size max_batches w -> sound w /\ accounted (w_totals w).
Proof. intros [HS (b & c & [] & _)]. split; [done|]. intros _. lia. Qed.
Lemma handing_over_spec P m Q : triple P m (fun _ w => Q w /\ sound w /\ accounted (w_totals w)) ->
  triple P (handing_over m) (fun _ w => sound w /\ accounted (w_totals w)).
Proof.
  intros Hm w Hw. specialize (Hm w Hw). unfold handing_over. destruct (m w) as [[[]|[e|e]|] w']; [apply Hm| |done..].
  destruct Hm as (v & HF & HT). simpl. split.
  - exists v. split; [done|]. tally.
  - destruct HT. intros Hh. simpl in Hh. unfold saturating_add, USIZE_MAX, U64_MAX in Hh. lia.
Qed.
Definition reported (w : World) (r : ArtifactGcRunReport) : Prop := tallies (w_log w) (rp_totals r) /\ accounted (rp_totals r).
Lemma report_spec : triple (fun w => sound w /\ accounted (w_totals w)) report (fun r w => sound w /\ reported w r).
Proof. intros w [HS HA]. simpl. split; [done|]. split; [by destruct HS as (v & _ & HT)|done]. Qed.
Lemma execute_spec batch_size max_batches lease_seconds detail_limit :
  1 <= batch_size <= ARTIFACT_GC_MAX_BATCH_SIZE -> 1 <= max_batches <= ARTIFACT_GC_MAX_BATCHES ->
  triple (fun w => sound w /\ settled 0 0 0 (w_totals w))
    (_ ← reconcile_stale_write_sets parse_from_rfc3339 (Z.to_nat max_batches) lease_seconds;
     totals ← current_totals;
     if 0 <? tt_staging_handoffs totals then report
     else
       _ ← handing_over (run_batches parse_from_rfc3339 (Z.to_nat max_batches) batch_size max_batches lease_seconds detail_limit);
       report)
    (fun r w => sound w /\ reported w r).
Proof.
  intros Hbs Hmb. eapply triple_bind; [apply triple_settles; [apply reconcile_stale_write_sets_spec|apply settles_reconcile|done]|intros []].
  rewrite Z.add_0_r.
  eapply triple_bind; [apply (triple_totals (fun w => sound w /\ settled 0 0 0 (w_totals w)))|intros t]. case_match.
  - eapply triple_weaken; [apply report_spec| |done]. intros w [HS []]. split; [done|]. intros _. lia.
  - eapply triple_bind; [|intros a; apply report_spec].
    eapply (handing_over_spec _ _ (fun _ => True)), triple_weaken; [apply run_batches_spec; lia| |].
    + intros w [HS Hs]. rewrite (se_batches _ _ _ _ Hs). split; [|lia]. split; [done|]. exists 0, 0. split_and!; [done|lia..].
    + intros a' w Hg. split; [done|]. exact (going_accounted _ _ w Hg).
Qed.
Lemma validated_bounds lo hi n e (P : World -> Prop) : (forall w, P w -> sound w) ->
  triple P (gc_lift (_ ← ensure (in_range lo hi n) e; Ok n)) (fun m w => P w /\ m = n /\ lo <= n <= hi).
Proof.
  intros HP w Hw. unfold ensure. destruct (in_range lo hi n) eqn:E; simpl; [|by apply HP].
  unfold in_range in E. bool_hyps. done.
Qed.
Lemma preview_spec batch_size :
  triple (fun w => w_log w = [] /\ w_totals w = no_totals)
    (answer ← call (preview batch_size) (fun _ _ => None);
     items ← answered answer;
     _ ← (if (Z.to_nat batch_size <? length items)%nat then throw (Failure "artifact GC preview exceeded requested batch bound") else mret tt);
     mret (mk_report items (mk_totals 0 (Z.of_nat (length items)) 0 0 0 0 0 0 0 0 0 0 0 0 0 0)))
    (fun r w => w_log w = [] /\ w_totals w = no_totals /\ tallies [] (rp_totals r)).
Proof.
  assert (HS : forall w : World, w_log w = [] /\ w_totals w = no_totals -> sound w).
  { intros w [El Et]. exists no_view. rewrite El, Et. split; [constructor|]. by split. }
  eapply triple_bind; [apply (triple_call _ _ _ (fun _ w => w_log w = [] /\ w_totals w = no_totals)); intros w a s [El Et]; by rewrite El|].
  intros [e|items]; cbn [answered]; [by apply triple_bind_throw|apply triple_bind_ret].
  eapply triple_bind; [by apply triple_check|intros []; apply triple_pure; intros _]. apply triple_ret. intros w [El Et]. by split_and!.
Qed.

(** Where a run starts: an empty log, no totals, no claim. *)
Definition fresh (s : St) (t : Z) : World := mk_world s t [] no_totals no_claim.
Lemma fresh_sound s t : sound (fresh s t) /\ settled 0 0 0 (w_totals (fresh s t)).
Proof. split; [|by split]. exists no_view. split; [constructor|]. by split. Qed.
Lemma run_artifact_gc_spec options s t :
  triple (fun w => w = fresh s t) (run_artifact_gc parse_from_rfc3339 options)
    (fun r w => sound w /\ tallies (w_log w) (rp_totals r)
       /\ (if op_execute options then accounted (rp_totals r) else w_log w = [])).
Proof.
  assert (HS : forall w, w = fresh s t -> sound w) by (intros w ->; apply fresh_sound).
  unfold run_artifact_gc, validated_batch_size, validated_max_batches, validated_lease_seconds, validated_detail_limit.
  do 4 (eapply triple_bind; [apply validated_bounds; naive_solver|intros ?]).
  destruct (op_execute options); simpl negb; cbn iota; intros w ((((-> & -> & Hb) & -> & Hm) & -> & Hl) & -> & Hd).
  - eapply triple_weaken; [apply (execute_spec _ _ _ _ Hb Hm)|intros w Hw; exact Hw|naive_solver|apply fresh_sound].
  - eapply triple_weaken; [apply preview_spec|intros w Hw; exact Hw| |done]. intros r w (El & Et & HT). split_and!; [|by rewrite El|done].
    exists no_view. rewrite El, Et. split; [constructor|by split].
Qed.

End Protocol.

(** ** A run *)

(** A backend with a clock that ticks, one expired artifact to claim, an object
    store that holds it, and a lease that must be renewed. *)
Definition sample_candidate : ArtifactGcCandidate :=
  mk_candidate 7 (Some "artifacts") (Some "a/b.json") "result" "expired" ObjectDelete true
    "00112233445566778899aabbccddeeff00112233445566778899aabbccddeeff" "2026-01-01T00:00:00Z".
Record sample_state := mk_sample { sm_time : Z; sm_left : list ArtifactGcCandidate }.
Definition sample_tick {A} (a : A) (s : sample_state) : A * sample_state := (a, mk_sample (sm_time s + 400 * 1000000000) (sm_left s)).
Definition sample_backend : ArtifactGcBackend sample_state := {|
  expected_bucket := "artifacts";
  now := fun s => (sm_time s, mk_sample (sm_time s + 1) (sm_left s));
  preview := fun _ s => (inr (sm_left s), s);
  claim := fun _ _ s => (inr (mk_claim 1 (if decide (sm_time s < 1000000000) then "soon" else "later") (sm_left s)), mk_sample (sm_time s) []);
  renew := fun token _ s => (inr (mk_renewal token "later" []), s);
  delete_object := fun _ _ => sample_tick (Some (inr Deleted));
  complete := fun _ _ _ _ => sample_tick (inr (mk_completion 0 2 3 4));
  fail := fun _ _ _ => sample_tick (inr tt);
  claim_stale_write_sets := fun _ _ s => (inr (mk_stale_claim 2 "later" []), s);
  complete_stale_write_set := fun _ _ => sample_tick (inr tt);
|}.
Definition sample_clock (lease : string) : option Z :=
  if decide (lease = "soon") then Some 1000000000 else if decide (lease = "later") then Some (3600 * 1000000000) else None.
