(* ===== verification/Readiness.v ===== *)
(** * Readiness of a matrix for publication

    [readiness.rs]: the verdict on a built snapshot.  The coverage report and
    the compiled graph are compared with the policy, the matrix is factorized
    by a service of its own and sampled with unit demands; what fails is a
    blocker, what deserves a look is a finding.  Here with the theorem that the
    verdict is "passed" exactly when every condition of the policy holds. *)

From S2P Require Import Prelude F64 Csc Umfpack DataBuilder Validator Cache Service SignedFlow Text Json Location ProviderLink Lineage Balance Assemble.
From stdpp Require Import pretty.

Local Open Scope string_scope.
Local Open Scope Z_scope.
Local Open Scope list_scope.

Definition REPORT_SCHEMA_VERSION : string := "matrix_readiness_report.v2".
Definition INPUT_SCHEMA_VERSION : string := "matrix_readiness_input.v2".
Definition DETAIL_LIMIT : nat := 8.

(** ** Data *)

Inductive ReadinessStatus := Passed | Failed.
Inductive FindingSeverity := Info | Warning | Blocker.
#[export] Instance FindingSeverity_eq_dec : EqDecision FindingSeverity.
Proof. solve_decision. Defined.
Inductive ComputeAnomalyPolicy := PolicyIgnore | PolicyWarning | PolicyBlocker.

Record MatrixReadinessPolicy := mk_policy {
  min_provider_write_pct : f64;
  max_unmatched_no_provider : Z;
  max_multi_unresolved : Z;
  allow_equal_fallback : bool;
  allow_medium_singular_risk : bool;
  allow_high_singular_risk : bool;
  require_lcia_factors : bool;
  run_factorization : bool;
  sample_solve_unit_limit : nat;
  negative_lcia_policy : ComputeAnomalyPolicy;
  negative_lcia_epsilon : f64;
}.
Definition default_min_provider_write_pct : f64 := f64_of_Z 100.
Definition default_sample_solve_unit_limit : nat := 16.
Definition default_negative_lcia_policy : ComputeAnomalyPolicy := PolicyWarning.
Definition default_negative_lcia_epsilon : f64 := f64_of_ratio 1 (10^12).
Definition default_policy : MatrixReadinessPolicy :=
  mk_policy default_min_provider_write_pct 0 0 false false false true true default_sample_solve_unit_limit
    default_negative_lcia_policy default_negative_lcia_epsilon.

(** The parts of [SnapshotCoverageReport] the verdict reads. *)
Record SnapshotMatchingCoverage := mk_matching {
  mc_input_edges_total : Z;
  mc_unmatched_no_provider : Z;
  mc_matched_multi_unresolved : Z;
  mc_matched_multi_fallback_equal : Z;
  mc_a_input_edges_written : Z;
  mc_residual_edges_total : Z;
  mc_a_balance_edges_written : Z;
  mc_a_write_pct : f64;
  mc_provider_present_resolved_pct : f64;
}.
Record SnapshotReferenceCoverage := mk_reference_coverage {
  rc_process_total : Z;
  rc_normalized_process_count : Z;
  rc_missing_reference_count : Z;
  rc_invalid_reference_count : Z;
}.
Record SnapshotAllocationCoverage := mk_allocation_coverage {
  ac_exchange_total : Z;
  ac_present_pct : f64;
  ac_missing_count : Z;
  ac_invalid_count : Z;
  ac_legacy_empty_count : Z;
  ac_legacy_single_output_count : Z;
  ac_legacy_single_reference_count : Z;
}.
Record SnapshotMatrixScale := mk_scale {
  ms_process_count : Z;
  ms_flow_count : Z;
  ms_impact_count : Z;
  ms_a_nnz : Z;
  ms_b_nnz : Z;
  ms_c_nnz : Z;
  ms_m_nnz_estimated : Z;
  ms_m_sparsity_estimated : f64;
}.
Record SnapshotCoverageReport := mk_coverage {
  cv_matching : SnapshotMatchingCoverage;
  cv_reference : SnapshotReferenceCoverage;
  cv_allocation : SnapshotAllocationCoverage;
  cv_singular_risk : SnapshotSingularRisk;
  cv_matrix_scale : SnapshotMatrixScale;
}.

(** A graph as an artifact stores it: fields that older artifacts lack are
    optional. *)
Record StoredCandidate := mk_stored_candidate {
  sd_provider_idx : Z;
  sd_provider_id : Uuid;
  sd_output_exchange_internal_id : option string;
  sd_output_exchange_is_reference : bool;
  sd_output_normalized_amount : option f64;
  sd_output_allocation_state : CompiledProviderOutputAllocationState;
  sd_eligibility : CompiledProviderCandidateEligibility;
  sd_process_name : option string;
  sd_location : option string;
  sd_reference_year : option Z;
  sd_annual_volume : option f64;
  sd_reference_exchange_internal_id : option string;
  sd_reference_coefficient : option f64;
}.
Record StoredDecision := mk_stored_decision {
  sn_consumer_idx : Z;
  sn_flow_id : Uuid;
  sn_flow_version : string;
  sn_candidate_provider_count : Z;
  sn_matched_provider_count : Z;
  sn_candidates : list StoredCandidate;
  sn_decision_kind : option CompiledProviderDecisionKind;
  sn_resolution_strategy : option CompiledProviderResolutionStrategy;
  sn_failure_reason : option CompiledProviderFailureReason;
  sn_used_equal_fallback : bool;
  sn_geography_tier : option CompiledProviderGeographyTier;
  sn_supply_region_source : option CompiledProviderSupplyRegionSource;
  sn_supply_region_location : option string;
  sn_allocations : list (Z * f64);
}.
Record StoredGraph := mk_stored_graph {
  sg_processes : list CompiledProcess;
  sg_balance_resolutions : list CompiledBalanceResolution;
  sg_unresolved_balances : list CompiledUnresolvedBalance;
  sg_provider_decisions : list StoredDecision;
}.

(** [config] holds the one field of [SnapshotBuildConfig] that is read,
    [technosphere_boundary_policy]. *)
Record MatrixReadinessInput := mk_input {
  in_snapshot_id : option Uuid;
  in_config : option string;
  in_coverage : SnapshotCoverageReport;
  in_payload : ModelSparseData;
  in_compiled_graph : option StoredGraph;
  in_policy : MatrixReadinessPolicy;
}.

Record ProviderClosureMetrics := mk_closure_metrics {
  pm_input_edges_total : Z;
  pm_a_input_edges_written : Z;
  pm_residual_edges_total : Z;
  pm_a_balance_edges_written : Z;
  pm_a_write_pct : f64;
  pm_provider_present_resolved_pct : f64;
  pm_unmatched_no_provider : Z;
  pm_matched_multi_unresolved : Z;
  pm_matched_multi_fallback_equal : Z;
  pm_provider_evidence_count : nat;
}.
Record GraphReadinessMetrics := mk_graph_metrics {
  gm_scale : SnapshotMatrixScale;
  gm_reference_missing_count : Z;
  gm_reference_invalid_count : Z;
  gm_allocation_fraction_missing_count : Z;
  gm_allocation_fraction_invalid_count : Z;
  gm_legacy_empty_count : Z;
  gm_legacy_single_output_count : Z;
  gm_legacy_single_reference_count : Z;
  gm_singular_risk_level : string;
  gm_m_zero_diagonal_count : Z;
  gm_m_min_abs_diagonal : f64;
}.
Record ComputeStabilityMetrics := mk_compute_metrics {
  cm_factorization_checked : bool;
  cm_factorization_ready : bool;
  cm_validation : option ValidationReport;
  cm_sampled_unit_solves : nat;
  cm_non_finite_value_count : nat;
  cm_negative_lcia_value_count : nat;
  cm_min_lcia_value : option f64;
}.
Record MatrixReadinessMetrics := mk_metrics {
  me_provider_closure : ProviderClosureMetrics;
  me_graph_readiness : GraphReadinessMetrics;
  me_compute_stability : ComputeStabilityMetrics;
}.

(** The candidate's fields, the two enumerations as labels. *)
Record ProviderCandidateEvidence := mk_candidate_evidence {
  ce_candidate : StoredCandidate;
  ce_output_allocation_state : string;
  ce_eligibility : string;
}.
Record ProviderAllocationEvidence := mk_allocation_evidence { ae_provider_idx : Z; ae_provider_id : option Uuid; ae_weight : f64 }.
Record ProviderDecisionEvidence := mk_decision_evidence {
  de_consumer_idx : Z;
  de_consumer_process_id : option Uuid;
  de_consumer_process_version : option string;
  de_consumer_process_name : option string;
  de_flow_id : Uuid;
  de_flow_version : string;
  de_candidate_provider_count : Z;
  de_matched_provider_count : Z;
  de_decision_kind : option string;
  de_resolution_strategy : option string;
  de_failure_reason : option string;
  de_ambiguity : string;
  de_confidence : string;
  de_geography_tier : option string;
  de_supply_region_source : option string;
  de_supply_region_location : option string;
  de_candidates : list ProviderCandidateEvidence;
  de_allocations : list ProviderAllocationEvidence;
}.
Record ReadinessFinding := mk_finding { fi_code : string; fi_severity : FindingSeverity; fi_message : string; fi_details : Value }.
(** Without the time of the report. *)
Record MatrixReadinessReport := mk_readiness_report {
  rr_schema_version : string;
  rr_snapshot_id : option Uuid;
  rr_status : ReadinessStatus;
  rr_next_action : string;
  rr_policy : MatrixReadinessPolicy;
  rr_metrics : MatrixReadinessMetrics;
  rr_provider_evidence : list ProviderDecisionEvidence;
  rr_balance_evidence : list CompiledBalanceResolution;
  rr_unresolved_balances : list CompiledUnresolvedBalance;
  rr_findings : list ReadinessFinding;
  rr_blockers : list ReadinessFinding;
}.

(** ** Labels *)

Definition provider_decision_kind_label (k : CompiledProviderDecisionKind) : string :=
  match k with
  | KindUniqueProvider => "unique_provider"
  | MultiResolved => "multi_resolved"
  | MultiUnresolved => "multi_unresolved"
  | NoProvider => "no_provider"
  end.
Definition provider_resolution_strategy_label (s : CompiledProviderResolutionStrategy) : string :=
  match s with
  | UniqueProvider => "unique_provider"
  | SelectedModelResult => "selected_model_result"
  | StrategyBestProviderStrict => "best_provider_strict"
  | StrategySplitByEvidence => "split_by_evidence"
  | StrategySplitByProcessVolume => "split_by_process_volume"
  | StrategySplitEqual => "split_equal"
  | StrategySplitEqualFallback => "split_equal_fallback"
  end.
Definition provider_failure_reason_label (r : CompiledProviderFailureReason) : string :=
  match r with
  | NoProviderCandidates => "no_provider_candidates"
  | RejectedNonReferenceOnly => "rejected_non_reference_only"
  | RuleRequiresUniqueProvider => "rule_requires_unique_provider"
  | NoCandidateGeMinScore => "no_candidate_ge_min_score"
  | Top1BelowTop1MinScore => "top1_below_top1_min_score"
  | Top1Top2RatioTooClose => "top1_top2_ratio_too_close"
  | ScoreSumNonPositive => "score_sum_non_positive"
  | NoOppositeSignReference => "no_opposite_sign_reference"
  | FailureLineageOverlapRequiresBinding => "lineage_overlap_requires_binding"
  end.
Definition provider_candidate_eligibility_label (e : CompiledProviderCandidateEligibility) : string :=
  match e with
  | EligibilityUnknown => "unknown"
  | AcceptedReferenceOutput => "accepted_reference_output"
  | RejectedNonReferenceOutput => "rejected_non_reference_output"
  | AcceptedOppositeSignReference => "accepted_opposite_sign_reference"
  | RejectedSameSignReference => "rejected_same_sign_reference"
  end.
Definition provider_output_allocation_state_label (s : CompiledProviderOutputAllocationState) : string :=
  match s with OutputUnknown => "unknown" | OutputPresent => "present" | OutputMissing => "missing" | OutputInvalid => "invalid" end.
Definition provider_geography_tier_label (t : CompiledProviderGeographyTier) : string :=
  match t with
  | LocalSubnational => "local_subnational"
  | SameCountry => "same_country"
  | SameRegion => "same_region"
  | Location.Global => "global"
  | Location.Other => "other"
  end.
Definition provider_supply_region_source_label (s : CompiledProviderSupplyRegionSource) : string :=
  match s with
  | ExchangeLocation => "exchange_location"
  | ConsumerProcessLocation => "consumer_process_location"
  | Unspecified => "unspecified"
  end.
Definition provider_ambiguity_label (d : StoredDecision) : string :=
  match sn_decision_kind d with
  | Some KindUniqueProvider => "none"
  | Some MultiResolved => "multi_provider_resolved"
  | Some MultiUnresolved => "multi_provider_unresolved"
  | Some NoProvider => "no_provider"
  | None => "unknown"
  end.
Definition provider_confidence_label (d : StoredDecision) : string :=
  match sn_decision_kind d, sn_used_equal_fallback d, sn_failure_reason d with
  | Some KindUniqueProvider, false, None => "high"
  | Some MultiResolved, false, None => "medium"
  | _, _, _ => "low"
  end.

(** ** Evidence *)

(** The [BTreeMap] of processes by index: the last of equal indices stays. *)
Definition process_map (processes : list CompiledProcess) : gmap Z CompiledProcess :=
  foldl (fun m p => <[meta_process_idx (cp_meta p) := p]> m) ∅ processes.
Definition candidate_evidence (c : StoredCandidate) : ProviderCandidateEvidence :=
  mk_candidate_evidence c (provider_output_allocation_state_label (sd_output_allocation_state c))
    (provider_candidate_eligibility_label (sd_eligibility c)).
Definition provider_decision_evidence (processes : gmap Z CompiledProcess) (d : StoredDecision) : ProviderDecisionEvidence :=
  let consumer := processes !! sn_consumer_idx d in
  {| de_consumer_idx := sn_consumer_idx d;
     de_consumer_process_id := (fun p => meta_process_id (cp_meta p)) <$> consumer;
     de_consumer_process_version := (fun p => meta_process_version (cp_meta p)) <$> consumer;
     de_consumer_process_name := consumer ≫= fun p => meta_process_name (cp_meta p);
     de_flow_id := sn_flow_id d;
     de_flow_version := sn_flow_version d;
     de_candidate_provider_count := sn_candidate_provider_count d;
     de_matched_provider_count := sn_matched_provider_count d;
     de_decision_kind := provider_decision_kind_label <$> sn_decision_kind d;
     de_resolution_strategy := provider_resolution_strategy_label <$> sn_resolution_strategy d;
     de_failure_reason := provider_failure_reason_label <$> sn_failure_reason d;
     de_ambiguity := provider_ambiguity_label d;
     de_confidence := provider_confidence_label d;
     de_geography_tier := provider_geography_tier_label <$> sn_geography_tier d;
     de_supply_region_source := provider_supply_region_source_label <$> sn_supply_region_source d;
     de_supply_region_location := sn_supply_region_location d;
     de_candidates := candidate_evidence <$> sn_candidates d;
     de_allocations := (fun a => mk_allocation_evidence a.1 ((fun p => meta_process_id (cp_meta p)) <$> processes !! a.1) a.2) <$> sn_allocations d |}.
Definition provider_evidence_from_graph (g : StoredGraph) : list ProviderDecisionEvidence :=
  provider_decision_evidence (process_map (sg_processes g)) <$> sg_provider_decisions g.

(** ** Findings *)

(** The two vectors the checks push to. *)
Record Notes := mk_notes { no_findings : list ReadinessFinding; no_blockers : list ReadinessFinding }.
Definition finding (code : string) (severity : FindingSeverity) (message : string) (details : Value) : ReadinessFinding :=
  mk_finding code severity message details.
Definition push_finding (f : ReadinessFinding) (n : Notes) : Notes := mk_notes (no_findings n ++ [f]) (no_blockers n).
Definition push_item (f : ReadinessFinding) (n : Notes) : Notes := mk_notes (no_findings n) (no_blockers n ++ [f]).
Definition push_blocker (code message : string) (details : Value) (n : Notes) : Notes :=
  push_item (finding code Blocker message details) n.
(** An [if] that pushes something. *)
Definition when (c : bool) (f : Notes -> Notes) (n : Notes) : Notes := if c then f n else n.

(** [json!] of the types in use; the map is ordered by key. *)
Definition json (fields : list (string * Value)) : Value := JObject (sort_by (cmp_by fst String.compare) fields).
Definition json_i64 (z : Z) : Value := JNumber (if z <? 0 then NegInt z else PosInt z).
Definition json_f64 (x : f64) : Value := if is_finite x then JNumber (Float x) else JNull.
Definition json_opt {A} (f : A -> Value) (o : option A) : Value := match o with Some a => f a | None => JNull end.

Section Checks.
Context `{Htext : TextLib}.
(** [Display] of an [f64]. *)
Context (f64_display : f64 -> string).

Definition candidate_json (c : StoredCandidate) : Value :=
  json [("provider_idx", json_i64 (sd_provider_idx c));
        ("provider_id", JString (uuid_display (sd_provider_id c)));
        ("process_name", json_opt JString (sd_process_name c));
        ("output_exchange_internal_id", json_opt JString (sd_output_exchange_internal_id c));
        ("output_exchange_is_reference", JBool (sd_output_exchange_is_reference c));
        ("output_normalized_amount", json_opt json_f64 (sd_output_normalized_amount c));
        ("output_allocation_state", JString (provider_output_allocation_state_label (sd_output_allocation_state c)));
        ("eligibility", JString (provider_candidate_eligibility_label (sd_eligibility c)))].
Definition gap_json (processes : gmap Z CompiledProcess) (d : StoredDecision) : Value :=
  let consumer := processes !! sn_consumer_idx d in
  json [("consumer_idx", json_i64 (sn_consumer_idx d));
        ("consumer_process_id", json_opt (fun p => JString (uuid_display (meta_process_id (cp_meta p)))) consumer);
        ("consumer_process_version", json_opt (fun p => JString (meta_process_version (cp_meta p))) consumer);
        ("consumer_process_name", json_opt JString (consumer ≫= fun p => meta_process_name (cp_meta p)));
        ("flow_id", JString (uuid_display (sn_flow_id d)));
        ("flow_version", JString (sn_flow_version d));
        ("candidate_provider_count", json_i64 (sn_candidate_provider_count d));
        ("matched_provider_count", json_i64 (sn_matched_provider_count d));
        ("failure_reason", JString "rejected_non_reference_only");
        ("candidates", JArray (candidate_json <$> sn_candidates d))].
Definition rejected_non_reference_only (d : StoredDecision) : bool := bool_decide (sn_failure_reason d = Some RejectedNonReferenceOnly).
Definition add_reference_provider_missing_findings (i : MatrixReadinessInput) (n : Notes) : Notes :=
  match in_compiled_graph i with
  | None => n
  | Some graph =>
      let processes := process_map (sg_processes graph) in
      match gap_json processes <$> filter (fun d => rejected_non_reference_only d = true) (sg_provider_decisions graph) with
      | [] => n
      | gaps =>
          push_blocker "provider_closure_reference_provider_missing"
            "input flows are supplied only by non-reference outputs; publish a complete process whose quantitative reference supplies each flow"
            (json [("missing_reference_provider_count", json_i64 (Z.of_nat (length gaps))); ("examples", JArray (take DETAIL_LIMIT gaps))]) n
      end
  end.

Definition boundary_policy_label (i : MatrixReadinessInput) : string := default "closed" (in_config i).
(** [TechnosphereBoundaryPolicy::parse], with the blocker of its error. *)
Definition check_boundary (i : MatrixReadinessInput) (n : Notes) : TechnosphereBoundaryPolicy * Notes :=
  match policy_parse (boundary_policy_label i) with
  | Ok p => (p, n)
  | _ => (Closed, push_blocker "technosphere_boundary_policy_unsupported"
                    ("unsupported technosphere_boundary_policy=" +:+ boundary_policy_label i +:+ "; expected closed, open, or cutoff")
                    (json [("technosphere_boundary_policy", JString (boundary_policy_label i))]) n)
  end.

Definition add_provider_findings (i : MatrixReadinessInput) (n : Notes) : Notes :=
  let matching := cv_matching (in_coverage i) in
  let policy := in_policy i in
  let '(boundary_policy, n) := check_boundary i n in
  let n := when (requires_closure boundary_policy && (mc_a_write_pct matching <? min_provider_write_pct policy)%f64)
    (push_blocker "provider_closure_write_pct_below_policy"
       ("provider closure wrote " +:+ f64_display (mc_a_write_pct matching) +:+ "% of input edges; policy requires at least "
        +:+ f64_display (min_provider_write_pct policy) +:+ "%")
       (json [("a_write_pct", json_f64 (mc_a_write_pct matching)); ("min_provider_write_pct", json_f64 (min_provider_write_pct policy))])) n in
  let n := when (requires_closure boundary_policy && (max_unmatched_no_provider policy <? mc_unmatched_no_provider matching))
    (push_blocker "provider_closure_unmatched"
       (pretty (mc_unmatched_no_provider matching) +:+ " input edges have no provider; policy allows " +:+ pretty (max_unmatched_no_provider policy))
       (json [("unmatched_no_provider", json_i64 (mc_unmatched_no_provider matching));
              ("max_unmatched_no_provider", json_i64 (max_unmatched_no_provider policy))])) n in
  let n := when (requires_closure boundary_policy) (add_reference_provider_missing_findings i) n in
  let n := when (requires_closure boundary_policy && (max_multi_unresolved policy <? mc_matched_multi_unresolved matching))
    (push_blocker "provider_closure_multi_unresolved"
       (pretty (mc_matched_multi_unresolved matching) +:+ " multi-provider edges are unresolved; policy allows " +:+ pretty (max_multi_unresolved policy))
       (json [("matched_multi_unresolved", json_i64 (mc_matched_multi_unresolved matching));
              ("max_multi_unresolved", json_i64 (max_multi_unresolved policy))])) n in
  let n := when (negb (allow_equal_fallback policy) && (0 <? mc_matched_multi_fallback_equal matching))
    (push_blocker "provider_closure_equal_fallback"
       (pretty (mc_matched_multi_fallback_equal matching) +:+ " multi-provider edges fell back to equal allocation")
       (json [("matched_multi_fallback_equal", json_i64 (mc_matched_multi_fallback_equal matching))])) n in
  let n := when (negb (requires_closure boundary_policy)
                 && ((0 <? mc_unmatched_no_provider matching) || (0 <? mc_matched_multi_unresolved matching)))
    (push_finding (finding "technosphere_boundary_unresolved_permitted" Warning
       (policy_as_str boundary_policy +:+ " technosphere boundary permits unresolved non-zero balance coefficients")
       (json [("technosphere_boundary_policy", JString (policy_as_str boundary_policy));
              ("unmatched_no_provider", json_i64 (mc_unmatched_no_provider matching));
              ("matched_multi_unresolved", json_i64 (mc_matched_multi_unresolved matching));
              ("unresolved_balance_evidence_count",
               json_i64 (match in_compiled_graph i with Some g => Z.of_nat (length (sg_unresolved_balances g)) | None => 0 end))]))) n in
  when (mc_input_edges_total matching =? 0)
    (push_finding (finding "provider_closure_no_input_edges" Warning "snapshot has no input edges to check for provider closure" JNull)) n.

Definition check_singular_risk (i : MatrixReadinessInput) : Notes -> Notes :=
  let risk := cv_singular_risk (in_coverage i) in
  let diagonals := json [("prefilter_diag_abs_ge_cutoff", json_i64 (prefilter_diag_ge_cutoff risk));
                         ("postfilter_a_diag_abs_ge_cutoff", json_i64 (a_diag_ge_cutoff risk))] in
  if decide (risk_level risk = "high" /\ allow_high_singular_risk (in_policy i) = false) then
    push_blocker "singular_risk_high" "matrix singular risk is high"
      (json [("m_zero_diagonal_count", json_i64 (m_zero_diag_count risk)); ("m_min_abs_diagonal", json_f64 (m_min_abs_diag risk))])
  else if decide (risk_level risk = "medium" /\ allow_medium_singular_risk (in_policy i) = false) then
    push_blocker "singular_risk_medium" "matrix singular risk is medium and requires review by policy" diagonals
  else if decide (risk_level risk = "medium") then
    push_finding (finding "singular_risk_medium" Warning "matrix singular risk is medium and requires manual review" diagonals)
  else if decide (risk_level risk = "low") then fun n => n
  else push_finding (finding "singular_risk_observed" Info ("matrix singular risk level is " +:+ risk_level risk)
                       (json [("risk_level", JString (risk_level risk))])).

Definition add_graph_findings (i : MatrixReadinessInput) (n : Notes) : Notes :=
  let coverage := in_coverage i in
  let n := when ((0 <? rc_missing_reference_count (cv_reference coverage)) || (0 <? rc_invalid_reference_count (cv_reference coverage)))
    (push_blocker "reference_normalization_not_closed" "quantitative reference normalization has missing or invalid references"
       (json [("missing_reference_count", json_i64 (rc_missing_reference_count (cv_reference coverage)));
              ("invalid_reference_count", json_i64 (rc_invalid_reference_count (cv_reference coverage)))])) n in
  let n := when (0 <? ac_invalid_count (cv_allocation coverage))
    (push_blocker "allocation_fraction_invalid" "allocation fractions contain invalid values"
       (json [("allocation_fraction_invalid_count", json_i64 (ac_invalid_count (cv_allocation coverage)))])) n in
  let n := check_singular_risk i n in
  let n := when (require_lcia_factors (in_policy i) && (ms_c_nnz (cv_matrix_scale coverage) =? 0))
    (push_blocker "lcia_factors_missing" "LCIA factors are required but no characterization factors were written"
       (json [("impact_count", json_i64 (ms_impact_count (cv_matrix_scale coverage))); ("c_nnz", json_i64 (ms_c_nnz (cv_matrix_scale coverage)))])) n in
  when (ms_b_nnz (cv_matrix_scale coverage) =? 0)
    (push_finding (finding "biosphere_entries_missing" Warning "snapshot has no biosphere entries; compute results may be uninformative" JNull)) n.
End Checks.

(** ** Compute stability *)

Definition count_non_finite (m : ComputeStabilityMetrics) : ComputeStabilityMetrics :=
  mk_compute_metrics (cm_factorization_checked m) (cm_factorization_ready m) (cm_validation m) (cm_sampled_unit_solves m)
    (S (cm_non_finite_value_count m)) (cm_negative_lcia_value_count m) (cm_min_lcia_value m).
Definition observe_values (values : option (list f64)) (m : ComputeStabilityMetrics) : ComputeStabilityMetrics :=
  foldl (fun m value => if is_finite value then m else count_non_finite m) m (default [] values).
Definition observe_lcia_value (policy : MatrixReadinessPolicy) (m : ComputeStabilityMetrics) (value : f64) : ComputeStabilityMetrics :=
  if negb (is_finite value) then count_non_finite m
  else
    mk_compute_metrics (cm_factorization_checked m) (cm_factorization_ready m) (cm_validation m) (cm_sampled_unit_solves m)
      (cm_non_finite_value_count m)
      (if (value <? - negative_lcia_epsilon policy)%f64 then S (cm_negative_lcia_value_count m) else cm_negative_lcia_value_count m)
      (Some (match cm_min_lcia_value m with Some current => f64_min current value | None => value end)).
Definition observe_lcia_values (values : option (list f64)) (policy : MatrixReadinessPolicy) (m : ComputeStabilityMetrics) : ComputeStabilityMetrics :=
  foldl (observe_lcia_value policy) m (default [] values).

Definition unchecked_metrics : ComputeStabilityMetrics := mk_compute_metrics false false None 0 0 0 None.
Definition start_metrics : ComputeStabilityMetrics := mk_compute_metrics true false None 0 0 0 None.
Definition with_validation (ready : bool) (v : option ValidationReport) (m : ComputeStabilityMetrics) : ComputeStabilityMetrics :=
  mk_compute_metrics (cm_factorization_checked m) ready v (cm_sampled_unit_solves m) (cm_non_finite_value_count m)
    (cm_negative_lcia_value_count m) (cm_min_lcia_value m).
Definition count_solve (m : ComputeStabilityMetrics) : ComputeStabilityMetrics :=
  mk_compute_metrics (cm_factorization_checked m) (cm_factorization_ready m) (cm_validation m) (S (cm_sampled_unit_solves m))
    (cm_non_finite_value_count m) (cm_negative_lcia_value_count m) (cm_min_lcia_value m).

(** [vec![0.0; n]] with [rhs[process_idx] = 1.0]. *)
Definition unit_demand (n process_idx : nat) : result Empty_set (list f64) :=
  if (process_idx <? n)%nat then Ok (<[process_idx := f64_one]> (replicate n f64_zero)) else Panic.

Definition severity_of (p : ComputeAnomalyPolicy) : FindingSeverity :=
  match p with PolicyIgnore => Info | PolicyWarning => Warning | PolicyBlocker => Blocker end.

Section Stability.
Context `{Htext : TextLib} `{Hiter : HashMapIter} `{Hlib : UmfpackLib} (capacity : nat -> Z).
(** [Display] of a [SolverError]. *)
Context (error_display : SolverError -> string).

(** The local service's cache, the vectors and the metrics of the loop. *)
Definition Sampling : Type := CacheInner * Notes * ComputeStabilityMetrics.

Definition sample_unit (clk : nat -> Z) (payload : ModelSparseData) (policy : MatrixReadinessPolicy) (st : Sampling) (process_idx : nat)
    : result Empty_set Sampling :=
  let '(c, n, m) := st in
  rhs ← unit_demand (usize_or_default (process_count payload)) process_idx;
  match solve_one (clk process_idx) (model_version payload) default_options rhs
          {| return_x := true; return_g := true; return_h := true |} c with
  | (c, Ok r) =>
      Ok (c, n, observe_lcia_values (sr_h r) policy (observe_values (sr_g r) (observe_values (sr_x r) (count_solve m))))
  | (c, Err e) =>
      Ok (c, push_blocker "sample_unit_solve_failed"
               ("unit demand solve failed for process index " +:+ pretty (Z.of_nat process_idx) +:+ ": " +:+ error_display e)
               (json [("process_idx", json_i64 (Z.of_nat process_idx))]) n, m)
  | (c, Panic) => Panic
  end.

(** What the metrics of the samples come to. *)
Definition judge_samples (policy : MatrixReadinessPolicy) (m : ComputeStabilityMetrics) (n : Notes) : Notes :=
  let n := when (0 <? cm_non_finite_value_count m)%nat
    (push_blocker "compute_non_finite_values" "sample unit solve produced non-finite values"
       (json [("non_finite_value_count", json_i64 (Z.of_nat (cm_non_finite_value_count m)))])) n in
  when (0 <? cm_negative_lcia_value_count m)%nat
    (let item := finding "negative_lcia_values" (severity_of (negative_lcia_policy policy))
       "sample unit solve produced negative LCIA values below policy epsilon"
       (json [("negative_lcia_value_count", json_i64 (Z.of_nat (cm_negative_lcia_value_count m)));
              ("min_lcia_value", json_opt json_f64 (cm_min_lcia_value m));
              ("negative_lcia_epsilon", json_f64 (negative_lcia_epsilon policy))]) in
     if decide (severity_of (negative_lcia_policy policy) = Blocker) then push_item item else push_finding item) n.

(** The service, with its clock, belongs to this call. *)
Definition run_compute_stability (prepare_clk solve_clk : nat -> Z) (payload : ModelSparseData) (policy : MatrixReadinessPolicy) (n : Notes)
    : result Empty_set (ComputeStabilityMetrics * Notes) :=
  let '(service, c) := service_new in
  match prepare capacity service prepare_clk payload default_options c with
  | (c, Ok r) =>
      let v := d_validation (diagnostics r) in
      let m := with_validation true (Some v) start_metrics in
      let n := when (bool_decide (Validator.status v = WarningNearSingular))
        (push_finding (finding "matrix_validation_warning" Warning "factorization matrix validation emitted warnings"
           (json [("messages", JArray (JString <$> messages v))]))) n in
      let sample_count := Nat.min (usize_or_default (process_count payload)) (sample_solve_unit_limit policy) in
      '(_, n, m) ← foldM (sample_unit solve_clk payload policy) (seq 0 sample_count) (c, n, m);
      Ok (m, judge_samples policy m n)
  | (c, Err e) =>
      let v := match e with ValidationFailed report => Some report | _ => None end in
      Ok (with_validation false v start_metrics,
          push_blocker "factorization_not_ready" ("factorization failed: " +:+ error_display e) JNull n)
  | (c, Panic) => Panic
  end.

(** ** The verdict *)

Definition any_code (prefix : string) (l : list ReadinessFinding) : bool := existsb (fun f => starts_with prefix (fi_code f)) l.
Definition next_action (blockers findings : list ReadinessFinding) : string :=
  if any_code "provider_closure" blockers then "repair_provider_closure_then_recheck"
  else if any_code "factorization" blockers || any_code "compute" blockers then "repair_compute_stability_then_recheck"
  else if any_code "lcia" blockers then "repair_lcia_factors_then_recheck"
  else match blockers with
       | _ :: _ => "repair_graph_readiness_then_recheck"
       | [] =>
           if existsb (fun f => bool_decide (fi_severity f = Warning)) findings then "manual_review_warnings"
           else "publish_ready"
       end.

Definition readiness_metrics (i : MatrixReadinessInput) (evidence : nat) (stability : ComputeStabilityMetrics) : MatrixReadinessMetrics :=
  let matching := cv_matching (in_coverage i) in
  let allocation := cv_allocation (in_coverage i) in
  let risk := cv_singular_risk (in_coverage i) in
  mk_metrics
    (mk_closure_metrics (mc_input_edges_total matching) (mc_a_input_edges_written matching) (mc_residual_edges_total matching)
       (mc_a_balance_edges_written matching) (mc_a_write_pct matching) (mc_provider_present_resolved_pct matching)
       (mc_unmatched_no_provider matching) (mc_matched_multi_unresolved matching) (mc_matched_multi_fallback_equal matching) evidence)
    (mk_graph_metrics (cv_matrix_scale (in_coverage i)) (rc_missing_reference_count (cv_reference (in_coverage i)))
       (rc_invalid_reference_count (cv_reference (in_coverage i))) (ac_missing_count allocation) (ac_invalid_count allocation)
       (ac_legacy_empty_count allocation) (ac_legacy_single_output_count allocation) (ac_legacy_single_reference_count allocation)
       (risk_level risk) (m_zero_diag_count risk) (m_min_abs_diag risk))
    stability.

Definition verify_matrix_readiness (f64_display : f64 -> string) (prepare_clk solve_clk : nat -> Z) (i : MatrixReadinessInput)
    : result Empty_set MatrixReadinessReport :=
  let provider_evidence := match in_compiled_graph i with Some g => provider_evidence_from_graph g | None => [] end in
  let balance_evidence := match in_compiled_graph i with Some g => sg_balance_resolutions g | None => [] end in
  let unresolved_balances := match in_compiled_graph i with Some g => sg_unresolved_balances g | None => [] end in
  let n := add_graph_findings i (add_provider_findings f64_display i (mk_notes [] [])) in
  '(compute_stability, n) ←
    (if run_factorization (in_policy i) then run_compute_stability prepare_clk solve_clk (in_payload i) (in_policy i) n
     else Ok (unchecked_metrics, n));
  let status := match no_blockers n with [] => Passed | _ => Failed end in
  Ok (mk_readiness_report REPORT_SCHEMA_VERSION (in_snapshot_id i) status (next_action (no_blockers n) (no_findings n)) (in_policy i)
        (readiness_metrics i (length provider_evidence) compute_stability) provider_evidence balance_evidence unresolved_balances
        (no_findings n) (no_blockers n)).
End Stability.

(** ** What a ready matrix is *)

Definition clean (n : Notes) : Prop := no_blockers n = [].
Definition finite (x : f64) : Prop := is_finite x = true.
(** [x] is not below [-eps]. *)
Definition not_below (eps x : f64) : Prop := (x <? - eps)%f64 = false.

(** The technosphere boundary is known, and if it is closed the balances are. *)
Definition closure_ready (i : MatrixReadinessInput) : Prop :=
  let matching := cv_matching (in_coverage i) in
  exists boundary, policy_parse (boundary_policy_label i) = Ok boundary
  /\ (boundary = Closed ->
        (mc_a_write_pct matching <? min_provider_write_pct (in_policy i))%f64 = false
        /\ mc_unmatched_no_provider matching <= max_unmatched_no_provider (in_policy i)
        /\ mc_matched_multi_unresolved matching <= max_multi_unresolved (in_policy i)
        /\ forall g d, in_compiled_graph i = Some g -> d ∈ sg_provider_decisions g -> sn_failure_reason d <> Some RejectedNonReferenceOnly)
  /\ (allow_equal_fallback (in_policy i) = true \/ mc_matched_multi_fallback_equal matching <= 0).
Definition graph_ready (i : MatrixReadinessInput) : Prop :=
  let coverage := in_coverage i in
  rc_missing_reference_count (cv_reference coverage) <= 0 /\ rc_invalid_reference_count (cv_reference coverage) <= 0
  /\ ac_invalid_count (cv_allocation coverage) <= 0
  /\ (risk_level (cv_singular_risk coverage) = "high" -> allow_high_singular_risk (in_policy i) = true)
  /\ (risk_level (cv_singular_risk coverage) = "medium" -> allow_medium_singular_risk (in_policy i) = true)
  /\ (require_lcia_factors (in_policy i) = true -> ms_c_nnz (cv_matrix_scale coverage) <> 0).

Lemma clean_when c f n : (forall n, ~ clean (f n)) -> clean (when c f n) <-> c = false /\ clean n.
Proof. intros Hf. unfold when. destruct c; [split; [by intros ?%Hf|by intros []]|naive_solver]. Qed.
Lemma dirty_item f n : ~ clean (push_item f n).
Proof. unfold clean, push_item. simpl. by destruct (no_blockers n). Qed.
Lemma clean_when_item c f n : clean (when c (push_item f) n) <-> c = false /\ clean n.
Proof. apply clean_when. intros n'. apply dirty_item. Qed.
Lemma clean_when_finding c f n : clean (when c (push_finding f) n) <-> clean n.
Proof. by destruct c. Qed.
Lemma andb_false_imp (a b : bool) : a && b = false <-> (a = true -> b = false).
Proof. destruct a, b; naive_solver. Qed.

Lemma clean_reference_missing `{TextLib} i n :
  clean (add_reference_provider_missing_findings i n) <->
  clean n /\ forall g d, in_compiled_graph i = Some g -> d ∈ sg_provider_decisions g -> sn_failure_reason d <> Some RejectedNonReferenceOnly.
Proof.
  unfold add_reference_provider_missing_findings. destruct (in_compiled_graph i) as [g|]; [|naive_solver].
  destruct (gap_json _ <$> _) as [|gap gaps] eqn:E.
  - apply fmap_nil_inv in E. split; [|naive_solver]. intros Hn. split; [done|]. intros g' d [= <-] Hd Hf.
    assert (Hin : d ∈ filter (fun d => rejected_non_reference_only d = true) (sg_provider_decisions g)).
    { apply list_elem_of_filter. split; [by apply bool_decide_eq_true|done]. }
    rewrite E in Hin. by apply elem_of_nil in Hin.
  - split; [intros Hn; exfalso; by eapply dirty_item, Hn|]. intros [_ Hg]. exfalso.
    destruct (filter _ _) as [|d ds] eqn:Ef; [done|].
    assert (Hin : d ∈ filter (fun d => rejected_non_reference_only d = true) (sg_provider_decisions g)) by (rewrite Ef; apply list_elem_of_here).
    apply list_elem_of_filter in Hin as [Hr Hd]. apply bool_decide_eq_true in Hr. by apply (Hg g d).
Qed.
(** The checks of the closure, once the boundary is known. *)
Lemma clean_balances `{TextLib} f64_display i b n :
  check_boundary i (mk_notes [] []) = (b, n) ->
  clean (add_provider_findings f64_display i (mk_notes [] [])) <->
  clean n
  /\ (b = Closed ->
        (mc_a_write_pct (cv_matching (in_coverage i)) <? min_provider_write_pct (in_policy i))%f64 = false
        /\ mc_unmatched_no_provider (cv_matching (in_coverage i)) <= max_unmatched_no_provider (in_policy i)
        /\ mc_matched_multi_unresolved (cv_matching (in_coverage i)) <= max_multi_unresolved (in_policy i)
        /\ forall g d, in_compiled_graph i = Some g -> d ∈ sg_provider_decisions g -> sn_failure_reason d <> Some RejectedNonReferenceOnly)
  /\ (allow_equal_fallback (in_policy i) = true \/ mc_matched_multi_fallback_equal (cv_matching (in_coverage i)) <= 0).
Proof.
  intros Hb. unfold add_provider_findings. rewrite Hb. cbn zeta. rewrite !clean_when_finding. unfold push_blocker.
  rewrite !clean_when_item, andb_false_iff, negb_false_iff, Z.ltb_ge.
  destruct b; cbn [requires_closure]; unfold when at 1; cbn iota; rewrite ?clean_reference_missing, !clean_when_item; simpl andb;
    rewrite ?Z.ltb_ge; naive_solver.
Qed.
Lemma clean_closure `{TextLib} f64_display i : clean (add_provider_findings f64_display i (mk_notes [] [])) <-> closure_ready i.
Proof.
  destruct (check_boundary i (mk_notes [] [])) as [b n] eqn:Hb. rewrite (clean_balances f64_display i b n Hb).
  unfold closure_ready, check_boundary in *. destruct (policy_parse (boundary_policy_label i)) as [b'|e|]; simplify_eq.
  - split; [intros (_ & HC & HF); by exists b|]. intros (b' & [= <-] & HC & HF). done.
  - split; [intros [HC _]; by apply dirty_item in HC|naive_solver].
  - split; [intros [HC _]; by apply dirty_item in HC|naive_solver].
Qed.
Lemma clean_risk i n : clean (check_singular_risk i n) <->
  clean n /\ (risk_level (cv_singular_risk (in_coverage i)) = "high" -> allow_high_singular_risk (in_policy i) = true)
  /\ (risk_level (cv_singular_risk (in_coverage i)) = "medium" -> allow_medium_singular_risk (in_policy i) = true).
Proof.
  unfold check_singular_risk. set (r := risk_level _). set (h := allow_high_singular_risk _). set (m := allow_medium_singular_risk _).
  case_decide as Hh; [split; [by intros ?%dirty_item|intros (_ & Hc & _); destruct Hh as [Hr Hf]; specialize (Hc Hr); congruence]|].
  case_decide as Hm; [split; [by intros ?%dirty_item|intros (_ & _ & Hc); destruct Hm as [Hr Hf]; specialize (Hc Hr); congruence]|].
  assert (HA : (r = "high" -> h = true) /\ (r = "medium" -> m = true)) by (destruct h, m; naive_solver).
  repeat case_decide; unfold clean; simpl; naive_solver.
Qed.
Lemma clean_graph i n : clean (add_graph_findings i n) <-> clean n /\ graph_ready i.
Proof.
  unfold add_graph_findings, graph_ready. cbn zeta. rewrite clean_when_finding. unfold push_blocker.
  rewrite clean_when_item, clean_risk, !clean_when_item, andb_false_imp, orb_false_iff, Z.eqb_neq, !Z.ltb_ge. tauto.
Qed.

(** ** Samples *)

Lemma observe_values_spec values m :
  let m' := observe_values values m in
  (cm_non_finite_value_count m' = 0%nat <-> cm_non_finite_value_count m = 0%nat /\ Forall finite (default [] values))
  /\ cm_negative_lcia_value_count m' = cm_negative_lcia_value_count m /\ cm_sampled_unit_solves m' = cm_sampled_unit_solves m.
Proof.
  unfold observe_values. generalize (default [] values); intros l. revert m. induction l as [|x l IH]; intros m; simpl; [naive_solver|].
  destruct (IH (if is_finite x then m else count_non_finite m)) as (HF & HN & HS). rewrite HF, HN, HS, Forall_cons. unfold finite at 2.
  destruct (is_finite x); simpl; split_and!; naive_solver.
Qed.
Lemma observe_lcia_values_spec values policy m :
  let m' := observe_lcia_values values policy m in
  (cm_non_finite_value_count m' = 0%nat <-> cm_non_finite_value_count m = 0%nat /\ Forall finite (default [] values))
  /\ (Forall finite (default [] values) ->
      cm_negative_lcia_value_count m' = 0%nat <->
      cm_negative_lcia_value_count m = 0%nat /\ Forall (not_below (negative_lcia_epsilon policy)) (default [] values))
  /\ cm_sampled_unit_solves m' = cm_sampled_unit_solves m.
Proof.
  unfold observe_lcia_values. generalize (default [] values); intros l. revert m. induction l as [|x l IH]; intros m; simpl; [naive_solver|].
  destruct (IH (observe_lcia_value policy m x)) as (HF & HN & HS). rewrite HF, HS, !Forall_cons. unfold finite at 2 4, not_below at 1.
  unfold observe_lcia_value in *. destruct (is_finite x); simpl in *.
  - split_and!; [naive_solver| |done]. intros [_ Hl]. rewrite (HN Hl). destruct (x <? - negative_lcia_epsilon policy)%f64; naive_solver.
  - split_and!; naive_solver.
Qed.

Section Verdict.
Context `{Htext : TextLib} `{Hiter : HashMapIter} `{Hlib : UmfpackLib} (capacity : nat -> Z) (error_display : SolverError -> string).
Context (payload : ModelSparseData) (policy : MatrixReadinessPolicy) (p : PreparedModel).

Definition all_results : SolveOptions := {| return_x := true; return_g := true; return_h := true |}.
(** The unit demand for one process. *)
Definition unit_vector (j : nat) : list f64 := <[j := f64_one]> (replicate (Z.to_nat (process_count payload)) f64_zero).
Definition solved (j : nat) : option SolveResult := match answer p all_results (unit_vector j) with Ok r => Some r | _ => None end.
Definition result_finite (r : SolveResult) : Prop :=
  Forall finite (default [] (sr_x r)) /\ Forall finite (default [] (sr_g r)) /\ Forall finite (default [] (sr_h r)).
Definition result_not_below (r : SolveResult) : Prop := Forall (not_below (negative_lcia_epsilon policy)) (default [] (sr_h r)).

(** What the loop has found after some samples. *)
Record sampled (js : list nat) (n0 n : Notes) (m : ComputeStabilityMetrics) : Prop := {
  sp_clean : clean n <-> clean n0 /\ forall j, j ∈ js -> is_Some (solved j);
  sp_finite : cm_non_finite_value_count m = 0%nat <-> forall j r, j ∈ js -> solved j = Some r -> result_finite r;
  sp_not_below : cm_non_finite_value_count m = 0%nat ->
    cm_negative_lcia_value_count m = 0%nat <-> forall j r, j ∈ js -> solved j = Some r -> result_not_below r;
  sp_solves : cm_sampled_unit_solves m = length (omap solved js);
}.
Definition observed (r : SolveResult) (m : ComputeStabilityMetrics) : ComputeStabilityMetrics :=
  observe_lcia_values (sr_h r) policy (observe_values (sr_g r) (observe_values (sr_x r) (count_solve m))).

Lemma forall_snoc (js : list nat) j (P : nat -> Prop) : (forall k, k ∈ js ++ [j] -> P k) <-> (forall k, k ∈ js -> P k) /\ P j.
Proof. setoid_rewrite elem_of_app. setoid_rewrite list_elem_of_singleton. naive_solver. Qed.
Lemma forall_snoc_result (js : list nat) j (Q : SolveResult -> Prop) :
  (forall k r, k ∈ js ++ [j] -> solved k = Some r -> Q r) <->
  (forall k r, k ∈ js -> solved k = Some r -> Q r) /\ (forall r, solved j = Some r -> Q r).
Proof. setoid_rewrite elem_of_app. setoid_rewrite list_elem_of_singleton. naive_solver. Qed.

Lemma sampled_ok js j n0 n m r : sampled js n0 n m -> solved j = Some r -> sampled (js ++ [j]) n0 n (observed r m).
Proof.
  intros [HC HF HN HS] Hr. unfold observed.
  destruct (observe_values_spec (sr_x r) (count_solve m)) as (F1 & N1 & S1).
  destruct (observe_values_spec (sr_g r) (observe_values (sr_x r) (count_solve m))) as (F2 & N2 & S2).
  destruct (observe_lcia_values_spec (sr_h r) policy (observe_values (sr_g r) (observe_values (sr_x r) (count_solve m)))) as (F3 & N3 & S3).
  cbn zeta in *. rewrite F2, F1 in F3. rewrite N2, N1 in N3. rewrite S2, S1 in S3. simpl in F3, N3, S3. split.
  - rewrite HC, forall_snoc, Hr. naive_solver.
  - rewrite F3, HF, forall_snoc_result, Hr. unfold result_finite. naive_solver.
  - rewrite F3. intros (((HF0 & _) & _) & Hh). rewrite (N3 Hh), (HN HF0), forall_snoc_result, Hr. unfold result_not_below. naive_solver.
  - rewrite S3, HS, omap_app, length_app. simpl. rewrite Hr. simpl. lia.
Qed.
Lemma sampled_failed js j n0 n m f : sampled js n0 n m -> solved j = None -> sampled (js ++ [j]) n0 (push_item f n) m.
Proof.
  intros [HC HF HN HS] Hr. split.
  - rewrite forall_snoc, Hr. split; [by intros ?%dirty_item|]. intros (_ & _ & [? [=]]).
  - rewrite HF, forall_snoc_result, Hr. naive_solver.
  - intros H0. rewrite (HN H0), forall_snoc_result, Hr. naive_solver.
  - rewrite HS, omap_app, length_app. simpl. rewrite Hr. simpl. lia.
Qed.

Lemma sample_unit_spec clk js n0 j c n m :
  model_ok p -> (forall now, (get_ready now c (factorization_key (model_version payload) default_options)).2 = Some p) ->
  (j < Z.to_nat (process_count payload))%nat -> sampled js n0 n m ->
  exists c' n' m', sample_unit error_display clk payload policy (c, n, m) j = Ok (c', n', m')
    /\ (forall now, (get_ready now c' (factorization_key (model_version payload) default_options)).2 = Some p) /\ sampled (js ++ [j]) n0 n' m'.
Proof.
  intros Hok Hg Hj Hs. pose proof (answer_no_panic p all_results (unit_vector j) Hok) as Hnp.
  assert (Hg' : forall now now', (get_ready now' (get_ready now c (factorization_key (model_version payload) default_options)).1
    (factorization_key (model_version payload) default_options)).2 = Some p) by (intros now now'; apply get_ready_again, Hg).
  unfold sample_unit, unit_demand, usize_or_default. rewrite (proj2 (Nat.ltb_lt _ _) Hj). cbn [mbind result_bind].
  fold (unit_vector j). fold all_results. rewrite (solve_one_answer _ _ _ _ _ _ p (Hg _) Hok).
  destruct (answer p all_results (unit_vector j)) as [r|e|] eqn:Ea; [| |done]; do 3 eexists; (split; [reflexivity|]); (split; [apply Hg'|]).
  - apply sampled_ok; [done|]. unfold solved. by rewrite Ea.
  - apply sampled_failed; [done|]. unfold solved. by rewrite Ea.
Qed.
Lemma sample_loop_spec clk l js n0 c n m :
  model_ok p -> (forall now, (get_ready now c (factorization_key (model_version payload) default_options)).2 = Some p) ->
  (forall j, j ∈ l -> (j < Z.to_nat (process_count payload))%nat) -> sampled js n0 n m ->
  exists c' n' m', foldM (sample_unit error_display clk payload policy) l (c, n, m) = Ok (c', n', m') /\ sampled (js ++ l) n0 n' m'.
Proof.
  intros Hok. revert js c n m. induction l as [|j l IH]; intros js c n m Hg Hl Hs.
  { exists c, n, m. by rewrite app_nil_r. }
  destruct (sample_unit_spec clk js n0 j c n m) as (c1 & n1 & m1 & E1 & Hg1 & Hs1); [done..|apply Hl, list_elem_of_here|done|].
  destruct (IH (js ++ [j]) c1 n1 m1) as (c2 & n2 & m2 & E2 & Hs2); [done|intros k Hk; by apply Hl, list_elem_of_further|done|].
  exists c2, n2, m2. cbn [foldM]. rewrite E1. cbn [mbind result_bind]. rewrite E2. by rewrite <-app_assoc in Hs2.
Qed.
Lemma sampled_start n m : cm_non_finite_value_count m = 0%nat -> cm_negative_lcia_value_count m = 0%nat -> cm_sampled_unit_solves m = 0%nat ->
  sampled [] n n m.
Proof.
  intros E1 E2 E3. split; rewrite ?E1, ?E2, ?E3; [|split; [|done]|intros _; split; [|done]|done].
  - split; [intros Hn; split; [done|]|by intros []]. by intros j ?%elem_of_nil.
  - by intros _ j r ?%elem_of_nil.
  - by intros _ j r ?%elem_of_nil.
Qed.

(** The samples of a prepared model that the policy accepts. *)
Definition samples_ready : Prop :=
  forall j, (j < Nat.min (Z.to_nat (process_count payload)) (sample_solve_unit_limit policy))%nat ->
    exists r, answer p all_results (unit_vector j) = Ok r /\ result_finite r
      /\ (negative_lcia_policy policy = PolicyBlocker -> result_not_below r).
Lemma clean_judged js n0 n m : sampled js n0 n m ->
  clean (judge_samples policy m n) <->
  clean n0 /\ forall j, j ∈ js -> exists r, solved j = Some r /\ result_finite r /\ (negative_lcia_policy policy = PolicyBlocker -> result_not_below r).
Proof.
  intros [HC HF HN _].
  assert (HJ : clean (judge_samples policy m n) <->
    clean n /\ cm_non_finite_value_count m = 0%nat /\ (negative_lcia_policy policy = PolicyBlocker -> cm_negative_lcia_value_count m = 0%nat)).
  { unfold judge_samples. cbn zeta. unfold push_blocker. case_decide as Hs.
    - rewrite !clean_when_item, !Nat.ltb_ge, !Nat.le_0_r. destruct (negative_lcia_policy policy); naive_solver.
    - rewrite clean_when_finding, clean_when_item, Nat.ltb_ge, Nat.le_0_r. destruct (negative_lcia_policy policy); naive_solver. }
  rewrite HJ, HC. split.
  - intros ((Hn & Hs) & Hf & Hb). split; [done|]. intros j Hj. destruct (Hs j Hj) as [r Hr]. exists r. split_and!; [done|by eapply HF|].
    intros Hp. by eapply HN; [done|by apply Hb|..].
  - intros (Hn & Hs). assert (Hf : cm_non_finite_value_count m = 0%nat).
    { apply HF. intros j r Hj Hr. destruct (Hs j Hj) as (r' & Hr' & Hfin & _). by simplify_eq. }
    split_and!; [done|intros j Hj; destruct (Hs j Hj) as (r & Hr & _); by exists r|done|].
    intros Hp. apply (HN Hf). intros j r Hj Hr. destruct (Hs j Hj) as (r' & Hr' & _ & Hb). simplify_eq. by apply Hb.
Qed.
End Verdict.

(** ** The verdict is exact *)

(** Blockers are blockers, findings are not. *)
Definition graded (n : Notes) : Prop :=
  Forall (fun f => fi_severity f = Blocker) (no_blockers n) /\ Forall (fun f => fi_severity f <> Blocker) (no_findings n).
Lemma graded_item f n : fi_severity f = Blocker -> graded n -> graded (push_item f n).
Proof. intros Hf [HB HF]. split; simpl; [apply Forall_app; by repeat constructor|done]. Qed.
Lemma graded_finding f n : fi_severity f <> Blocker -> graded n -> graded (push_finding f n).
Proof. intros Hf [HB HF]. split; simpl; [done|apply Forall_app; split; [done|by constructor]]. Qed.
Lemma graded_when c f n : (graded n -> graded (f n)) -> graded n -> graded (when c f n).
Proof. destruct c; auto. Qed.
Ltac graded := repeat first
  [ assumption | apply graded_when; [intros ?|] | apply graded_item; [reflexivity|] | apply graded_finding; [discriminate|] | case_match ].
Lemma graded_reference_missing `{TextLib} i n : graded n -> graded (add_reference_provider_missing_findings i n).
Proof. intros Hn. unfold add_reference_provider_missing_findings, push_blocker. cbn zeta. graded. Qed.
Lemma graded_provider `{TextLib} f64_display i : graded (add_provider_findings f64_display i (mk_notes [] [])).
Proof.
  assert (Hb : graded (check_boundary i (mk_notes [] [])).2).
  { assert (graded (mk_notes [] [])) by by split. unfold check_boundary, push_blocker. case_match; simpl; graded. }
  unfold add_provider_findings, push_blocker. destruct (check_boundary i _) as [b n]. cbn zeta. simpl in Hb.
  repeat first [assumption|apply graded_when; [intros ?|]|apply graded_reference_missing|apply graded_item; [reflexivity|]
               |apply graded_finding; [discriminate|]].
Qed.
Lemma graded_graph i n : graded n -> graded (add_graph_findings i n).
Proof.
  intros Hn. unfold add_graph_findings, push_blocker. cbn zeta. apply graded_when; [intros ?; graded|]. apply graded_when; [intros ?; graded|].
  unfold check_singular_risk, push_blocker. cbn zeta. repeat case_decide; graded.
Qed.
Lemma graded_judged policy m n : graded n -> graded (judge_samples policy m n).
Proof.
  intros Hn. unfold judge_samples, push_blocker. cbn zeta. apply graded_when; [intros Hg; case_decide as Hs|graded].
  - by apply graded_item.
  - by apply graded_finding.
Qed.

Section Exact.
Context `{Htext : TextLib} `{Hiter : HashMapIter} `{Hlib : UmfpackLib} (capacity : nat -> Z) (Hcap : forall n, 0 <= capacity n).
Context (error_display : SolverError -> string) (prepare_clk solve_clk : nat -> Z).

(** The matrix is prepared by a fresh service, and the answers of that
    factorization to the sampled unit demands are accepted. *)
Definition computes_ready (payload : ModelSparseData) (policy : MatrixReadinessPolicy) : Prop :=
  exists c pr bm f v,
    prepare capacity service_new.1 prepare_clk payload default_options service_new.2 = (c, Ok pr)
    /\ build default_zero_epsilon payload = Ok bm
    /\ (factorize (bm_m bm) {| print_level := f64_zero |}).1 = Ok f
    /\ samples_ready payload policy {| p_factorization := f; p_b := bm_b bm; p_c := bm_c bm; p_validation := v |}.

Lemma get_ready_time now now' c k : (get_ready now c k).2 = (get_ready now' c k).2.
Proof. unfold get_ready. destruct (entries c !! k) as [e|]; simpl; [|done]. case_decide; [|done]. by destruct (prepared e). Qed.
Lemma default_capacity : 0 <= DEFAULT_CAPACITY_BYTES < USIZE_MAX.
Proof. unfold DEFAULT_CAPACITY_BYTES, USIZE_MAX, U64_MAX. lia. Qed.
Lemma graded_samples payload policy l st st' :
  graded st.1.2 -> foldM (sample_unit error_display solve_clk payload policy) l st = Ok st' -> graded st'.1.2.
Proof.
  revert st. induction l as [|j l IH]; intros st Hg; cbn [foldM]; [by intros [= <-]|].
  intros (st1 & H1 & H2)%bind_ok. apply (IH st1); [|done]. clear IH H2. destruct st as [[c n] m].
  unfold sample_unit in H1. apply bind_ok in H1 as (rhs & _ & H1). destruct (solve_one _ _ _ _ _ _) as [c' [r|e|]]; [| |done]; injection H1 as <-; [done|].
  by apply graded_item.
Qed.
Lemma run_compute_stability_spec payload policy n : graded n ->
  exists m n', run_compute_stability capacity error_display prepare_clk solve_clk payload policy n = Ok (m, n')
    /\ (clean n' <-> clean n /\ computes_ready payload policy) /\ graded n'.
Proof.
  intros Hgr. unfold run_compute_stability, computes_ready. set (self := service_new.1). set (c0 := service_new.2).
  rewrite (surjective_pairing service_new). fold self c0.
  assert (Hs : shared_cache capacity DEFAULT_CAPACITY_BYTES c0) by apply shared_new.
  destruct (prepare capacity self prepare_clk payload default_options c0) as [c [pr|e|]] eqn:Ep.
  3: { exfalso. pose proof (prepare_outcome capacity DEFAULT_CAPACITY_BYTES 0 self prepare_clk payload default_options c0 Hcap default_capacity Hs) as Ho.
       by rewrite Ep in Ho. }
  2: { do 2 eexists. split; [reflexivity|]. split; [|by apply graded_item]. split; [by intros ?%dirty_item|].
       intros (_ & c' & pr & ? & ? & ? & [=] & _). }
  destruct (prepare_ok_ready capacity Hcap DEFAULT_CAPACITY_BYTES 0 self prepare_clk payload default_options c0 c pr default_capacity Hs Ep)
    as (bm & f & v & Hbm & Hf & Hg0 & _).
  set (p := {| p_factorization := f; p_b := bm_b bm; p_c := bm_c bm; p_validation := v |}) in *.
  assert (Hok : model_ok p) by (by eapply built_model_ok).
  assert (Hg : forall now, (get_ready now c (factorization_key (model_version payload) default_options)).2 = Some p).
  { intros now. rewrite <-Hg0. apply get_ready_time. }
  set (n1 := when _ _ n). set (m1 := with_validation _ _ _).
  assert (Hgr1 : graded n1) by (apply graded_when; [intros ?; by apply graded_finding|done]).
  set (l := seq 0 _).
  destruct (sample_loop_spec capacity error_display payload policy p solve_clk l [] n1 c n1 m1 Hok Hg) as (c' & n' & m' & E & Hs').
  { intros j Hj. apply elem_of_seq in Hj. unfold usize_or_default in Hj. lia. }
  { by apply sampled_start. }
  rewrite E. do 2 eexists. split; [reflexivity|]. split; [|apply graded_judged; by apply (graded_samples payload policy l (c, n1, m1) (c', n', m'))].
  rewrite (clean_judged payload policy p _ _ _ _ Hs'). unfold n1. rewrite clean_when_finding. simpl app. apply and_iff_compat_l. split.
  - intros HJ. exists c, pr, bm, f, v. split_and!; [done..|]. intros j Hj. destruct (HJ j) as (r & Hr & HR); [apply elem_of_seq; unfold usize_or_default; lia|].
    exists r. split; [|done]. unfold solved in Hr. by destruct (answer _ _ _) as [r'| |]; simplify_eq.
  - intros (c2 & pr2 & bm2 & f2 & v2 & _ & Hbm2 & Hf2 & HJ) j Hj. unfold self in Hbm. simpl in Hbm, Hf. rewrite Hbm in Hbm2. injection Hbm2 as <-.
    rewrite Hf in Hf2. injection Hf2 as <-. destruct (HJ j) as (r & Hr & HR); [apply elem_of_seq in Hj; unfold usize_or_default in Hj; lia|].
    exists r. split; [|done]. unfold solved. change (answer p) with (answer {| p_factorization := f; p_b := bm_b bm; p_c := bm_c bm; p_validation := v2 |}).
    by rewrite Hr.
Qed.
End Exact.

Section Claims.
Context `{Htext : TextLib} `{Hiter : HashMapIter} `{Hlib : UmfpackLib}.

Lemma next_action_publish blockers findings :
  next_action blockers findings = "publish_ready" <-> blockers = [] /\ Forall (fun f => fi_severity f <> Warning) findings.
Proof.
  unfold next_action. destruct blockers as [|b bs].
  - simpl. destruct (existsb _ findings) eqn:E.
    + split; [done|]. intros [_ HF]. apply existsb_exists in E as (f & Hf & Hw). apply bool_decide_eq_true in Hw.
      rewrite Forall_forall in HF. apply list_elem_of_In in Hf. by apply HF in Hf.
    + split; [|done]. intros _. split; [done|]. apply Forall_forall. intros f Hf Hw.
      assert (existsb (fun f => bool_decide (fi_severity f = Warning)) findings = true); [|congruence].
      apply existsb_exists. exists f. split; [by apply list_elem_of_In|by apply bool_decide_eq_true].
  - split; [|by intros []]. by repeat case_match.
Qed.

(** C15: the verdict on a matrix is exact.  Whatever the solver library does, the
    check answers without a panic; it says "passed" if and only if there is no
    blocker, which is if and only if the boundary policy is known, a closed
    boundary is covered as the policy demands and no demand is met by
    non-reference outputs only, the references, allocations, singular risk and
    characterization factors are in order, and, when factorization is checked,
    a fresh service prepares the matrices and the answers of that very
    factorization to the sampled unit demands all exist, are finite and, where
    the policy says so, are not negative.  Publication is proposed exactly for a
    passed matrix without warnings; blockers carry the severity of a blocker and
    findings never do. *)
Theorem readiness_verdict_exact (capacity : nat -> Z) (error_display : SolverError -> string) (f64_display : f64 -> string)
    (prepare_clk solve_clk : nat -> Z) (i : MatrixReadinessInput) :
  (forall n, 0 <= capacity n) ->
  exists rep, verify_matrix_readiness capacity error_display f64_display prepare_clk solve_clk i = Ok rep
    /\ (rr_status rep = Passed <-> rr_blockers rep = [])
    /\ (rr_status rep = Passed <->
          closure_ready i /\ graph_ready i
          /\ (run_factorization (in_policy i) = true -> computes_ready capacity prepare_clk (in_payload i) (in_policy i)))
    /\ (rr_next_action rep = "publish_ready" <-> rr_status rep = Passed /\ Forall (fun f => fi_severity f <> Warning) (rr_findings rep))
    /\ Forall (fun f => fi_severity f = Blocker) (rr_blockers rep) /\ Forall (fun f => fi_severity f <> Blocker) (rr_findings rep).
Proof.
  intros Hcap. unfold verify_matrix_readiness. cbn zeta. set (n := add_graph_findings i _).
  assert (Hn : clean n <-> closure_ready i /\ graph_ready i) by (unfold n; by rewrite clean_graph, clean_closure).
  assert (Hg : graded n) by apply graded_graph, graded_provider.
  assert (HS : exists m n', (if run_factorization (in_policy i)
      then run_compute_stability capacity error_display prepare_clk solve_clk (in_payload i) (in_policy i) n else Ok (unchecked_metrics, n)) = Ok (m, n')
    /\ (clean n' <-> clean n /\ (run_factorization (in_policy i) = true -> computes_ready capacity prepare_clk (in_payload i) (in_policy i)))
    /\ graded n').
  { destruct (run_factorization (in_policy i)); [|exists unchecked_metrics, n; naive_solver].
    destruct (run_compute_stability_spec capacity Hcap error_display prepare_clk solve_clk (in_payload i) (in_policy i) n Hg) as (m & n' & E & HC & HG).
    exists m, n'. rewrite HC. naive_solver. }
  destruct HS as (m & n' & -> & HC & HG). eexists. split; [reflexivity|]. cbn [rr_status rr_blockers rr_findings rr_next_action].
  rewrite next_action_publish.
  assert (HP : match no_blockers n' with [] => Passed | _ => Failed end = Passed <-> no_blockers n' = []) by by destruct (no_blockers n').
  rewrite !HP. unfold clean in *. rewrite HC, Hn. destruct HG. split_and!; try done; tauto.
Qed.

(** A unit demand that cannot be solved is reported as a matter of the graph,
    not of compute stability. *)
Lemma failed_sample_blames_graph message details findings :
  next_action [finding "sample_unit_solve_failed" Blocker message details] findings = "repair_graph_readiness_then_recheck".
Proof. reflexivity. Qed.
End Claims.

(** ** A verdict *)

#[local] Existing Instance example_text.
#[local] Instance example_library : UmfpackLib := upper2 0.

(** The two processes of the solver's example, fully covered. *)
Definition sample_input : MatrixReadinessInput :=
  mk_input (Some 7) None
    (mk_coverage (mk_matching 1 0 0 0 1 1 1 (f64_of_Z 100) (f64_of_Z 100)) (mk_reference_coverage 2 2 0 0)
       (mk_allocation_coverage 3 (f64_of_Z 100) 0 0 0 0 0)
       {| risk_level := "low"; prefilter_diag_ge_cutoff := 0; a_diag_ge_cutoff := 0; m_zero_diag_count := 0; m_min_abs_diag := f64_one |}
       (mk_scale 2 1 1 1 2 1 3 f64_zero))
    chain_data None default_policy.
Definition sample_verdict : result Empty_set MatrixReadinessReport :=
  verify_matrix_readiness Z.of_nat (fun _ => "error") (fun _ => "number") Z.of_nat Z.of_nat sample_input.
Lemma readiness_verdict_exact_witness :
  exists rep, sample_verdict = Ok rep /\ rr_status rep = Passed /\ rr_next_action rep = "publish_ready"
    /\ computes_ready Z.of_nat Z.of_nat chain_data default_policy.
Proof.
  destruct (readiness_verdict_exact Z.of_nat (fun _ => "error") (fun _ => "number") Z.of_nat Z.of_nat sample_input Nat2Z.is_nonneg)
    as (rep & E & _ & HR & _ & _). exists rep.
  assert (HS : exists rep, sample_verdict = Ok rep /\ rr_status rep = Passed /\ rr_next_action rep = "publish_ready").
  { eexists. split; [vm_compute; reflexivity|split; reflexivity]. }
  destruct HS as (rep' & E' & HP & HA). unfold sample_verdict in *. rewrite E in E'. injection E' as <-.
  split; [exact E|]. split; [exact HP|]. split; [exact HA|]. apply HR in HP as (_ & _ & HC). apply HC. reflexivity.
Defined.
