(* ===== verification/StudySource.v ===== *)
(** * Studies: from source documents to a normalized model

    [study/contracts.rs] and [study/source.rs]: a study names a life-cycle model
    and carries the exact documents it refers to.  [normalize] checks the
    documents, copies every process instance with its exchanges, resolves the
    connections between ports, applies the declared amount overrides and checks
    the cutoffs.  Here with the theorem that a normalized model is well formed. *)

From S2P Require Import Prelude F64 Text Json Tidas SnapshotProvider.
From stdpp Require Import pretty.

Local Open Scope string_scope.
Local Open Scope Z_scope.
Local Open Scope list_scope.

Definition SOURCE_SCHEMA : string := "lca.study-source.v1".
Definition INPUT_SCHEMA : string := "lca.study-prepared-input.v1".
Definition RESULT_SCHEMA : string := "lca.study-result.v1".
Definition PROFILE : string := "lca.study-explicit-v1".
Definition COMPILER : string := "study.compiler.v1".
Definition MAX_FUNCTIONAL_UNIT_AMOUNT : f64 := f64_of_Z (10^12).

(** ** Contracts *)

Record DatasetRef := mk_ref { ref_id : string; ref_version : string }.
#[export] Instance DatasetRef_eq_dec : EqDecision DatasetRef.
Proof. solve_decision. Defined.
Record Document := mk_document {
  doc_kind : string;
  doc_identity : DatasetRef;
  doc_state_code : Z;
  doc_owner_actor_id : option string;
  doc_sha256 : string;
  doc_json : string;
}.
Record Port := mk_study_port { po_instance_id : string; po_exchange_id : string }.
#[export] Instance Port_eq_dec : EqDecision Port.
Proof. solve_decision. Defined.
#[export] Instance Port_countable : Countable Port.
Proof. apply (inj_countable' (fun p => (po_instance_id p, po_exchange_id p)) (fun x => mk_study_port x.1 x.2)). by intros []. Defined.
Record StudyCutoff := mk_cutoff { ct_port : Port; ct_reason : string }.
Record AmountOverride := mk_override { ov_path : string; ov_value : f64 }.
Record FunctionalUnit := mk_functional_unit { fu_amount : string; fu_unit : string; fu_reference_flow_id : string }.
Record Assumption := mk_assumption { as_id : string; as_statement : string; as_evidence_ref : string }.
Record MethodRef := mk_method_ref { mr_type : string; mr_dataset_type : string; mr_id : string; mr_version : string }.
Record StudyDefinition := mk_definition {
  df_goal : string;
  df_functional_unit : FunctionalUnit;
  df_system_boundary : string;
  df_method_refs : list MethodRef;
  df_assumptions : list Assumption;
}.
Record StudyBinding := mk_binding { sb_revision_id : string; sb_revision_content_hash : string; sb_definition : StudyDefinition }.
Record CalculationRef := mk_calculation_ref { ca_kind : string; ca_schema : string; ca_sha256 : string }.
Record SourceInput := mk_source {
  so_schema_version : string;
  so_origin : DatasetRef;
  so_actor_id : option string;
  so_documents : list Document;
  so_method_refs : list DatasetRef;
  so_cutoffs : list StudyCutoff;
  so_overrides : list AmountOverride;
  so_study_binding : option StudyBinding;
  so_quality_findings : list string;
}.
Record StudyExchange := mk_study_exchange {
  ex_id : string;
  ex_flow : DatasetRef;
  ex_direction : string;
  ex_amount : f64;
  ex_kind : string;
  ex_unit : string;
  ex_unit_identity : list DatasetRef;
  ex_allocations : option Value;
}.
Record StudyInstance := mk_instance {
  is_id : string;
  is_process : DatasetRef;
  is_reference_exchange_id : string;
  is_exchanges : list StudyExchange;
}.
Record Connection := mk_connection { cn_supplier : Port; cn_consumer : Port }.
Record SourceIdentity := mk_source_identity { si_kind : string; si_identity : DatasetRef; si_state_code : Z; si_sha256 : string }.
Record NormalizedModel := mk_normalized {
  nm_schema_version : string;
  nm_origin : DatasetRef;
  nm_reference : Port;
  nm_instances : list StudyInstance;
  nm_connections : list Connection;
  nm_cutoffs : list StudyCutoff;
  nm_overrides : list AmountOverride;
  nm_source_documents : list SourceIdentity;
  nm_quality_findings : list string;
}.
Record Bounds := mk_bounds {
  bo_max_source_bytes : Z;
  bo_max_documents : Z;
  bo_max_instances : Z;
  bo_max_views : Z;
  bo_max_exchanges : Z;
  bo_max_methods : Z;
  bo_max_nonzeros : Z;
  bo_max_dense_cells : Z;
  bo_max_artifact_bytes : Z;
  bo_max_elapsed_millis : Z;
  bo_max_functional_unit_amount : f64;
  bo_max_owned_bytes : Z;
}.
Definition default_bounds : Bounds :=
  mk_bounds (4 * 1024 * 1024) 512 64 128 4096 25 32768 131072 (4 * 1024 * 1024) 30000 MAX_FUNCTIONAL_UNIT_AMOUNT (256 * 1024 * 1024).
Definition bounds_validate (b : Bounds) : result string unit :=
  let cap := default_bounds in
  let within (f : Bounds -> Z) : bool := (0 <? f b) && (f b <=? f cap) in
  _ ← ensure (forallb within [bo_max_source_bytes; bo_max_documents; bo_max_instances; bo_max_views; bo_max_exchanges; bo_max_methods;
                              bo_max_nonzeros; bo_max_dense_cells; bo_max_artifact_bytes; bo_max_owned_bytes])
        "study_unqualified_resource_bounds";
  ensure (within bo_max_elapsed_millis && is_finite (bo_max_functional_unit_amount b)
          && (f64_zero <? bo_max_functional_unit_amount b)%f64
          && (bo_max_functional_unit_amount b <=? bo_max_functional_unit_amount cap)%f64)
    "study_unqualified_resource_bounds".

(** ** Reading values *)

(** [value[key]]: [Null] when there is no such member. *)
Definition member (key : string) (v : Value) : Value := default JNull (get key v).
Definition members (path : list string) (v : Value) : Value := foldl (fun v key => member key v) v path.
Definition is_null (v : Value) : bool := match v with JNull => true | _ => false end.
Definition text (v : Value) : result string string :=
  match v with
  | JString s => Ok s
  | JNumber n => match as_i64 n with Some z => Ok (pretty z) | None => Err "study_missing_text" end
  | _ => Err "study_missing_text"
  end.
Definition items_of (v : Value) : list Value := match v with JArray l => l | JNull => [] | _ => [v] end.
Definition reference (v : Value) : result string DatasetRef :=
  id ← text (member "@refObjectId" v);
  version ← text (member "@version" v);
  Ok (mk_ref id version).
Definition Documents : Type := gmap (string * string * string) Value.
Definition lookup_document (docs : Documents) (kind : string) (identity : DatasetRef) : result string Value :=
  ok_or "study_exact_source_missing" (docs !! (kind, ref_id identity, ref_version identity)).
Definition is_ascii_alphanumeric (c : ascii) : bool :=
  let n := nat_of_ascii c in ((48 <=? n) && (n <=? 57) || (65 <=? n) && (n <=? 90) || (97 <=? n) && (n <=? 122))%nat.
Definition safe_id (value : string) : bool :=
  negb (bool_decide (value = "")) && (length (bytes value) <=? 128)%nat
  && forallb (fun b => is_ascii_alphanumeric b || bool_decide (b = "_"%char) || bool_decide (b = "-"%char)) (bytes value).
(** [if x == 0.0 { 0.0 } else { x }]. *)
Definition positive_zero (x : f64) : f64 := if (x =? f64_zero)%f64 then f64_zero else x.
Definition amount (v : Value) : result string f64 :=
  a ← ok_or "study_invalid_amount" (match v with JNumber n => as_f64 n | JString s => parse_f64 s | _ => None end);
  _ ← ensure (is_finite a) "study_nonfinite_amount";
  Ok (positive_zero a).
Definition exchange_amount (v : Value) : result string f64 :=
  match find (fun key => negb (is_null (member key v))) ["resultingAmount"; "meanAmount"; "meanValue"] with
  | Some key => amount (member key v)
  | None => Err "study_missing_exchange_amount"
  end.
(** [text(&v["@dataSetInternalID"]).ok().as_ref() == Some(&pivot)]. *)
Definition has_internal_id (pivot : string) (v : Value) : bool :=
  match text (member "@dataSetInternalID" v) with Ok id => bool_decide (id = pivot) | _ => false end.
Definition unit_of (docs : Documents) (flow : DatasetRef) : result string (string * list DatasetRef * string) :=
  document ← lookup_document docs "flow" flow;
  let data := member "flowDataSet" document in
  pivot ← text (members ["flowInformation"; "quantitativeReference"; "referenceToReferenceFlowProperty"] data);
  let props := items_of (members ["flowProperties"; "flowProperty"] data) in
  match filter (fun p => has_internal_id pivot p = true) props with
  | [selected] =>
      mean ← amount (member "meanValue" selected);
      _ ← ensure (mean =? f64_one)%f64 "study_unsupported_unit_conversion";
      prop ← reference (member "referenceToFlowPropertyDataSet" selected);
      property ← lookup_document docs "flowproperty" prop;
      group ← reference (members ["flowPropertyDataSet"; "flowPropertiesInformation"; "quantitativeReference"; "referenceToReferenceUnitGroup"] property);
      group_document ← lookup_document docs "unitgroup" group;
      let group_data := member "unitGroupDataSet" group_document in
      pivot ← text (members ["unitGroupInformation"; "quantitativeReference"; "referenceToReferenceUnit"] group_data);
      match filter (fun u => has_internal_id pivot u = true) (items_of (members ["units"; "unit"] group_data)) with
      | [selected] =>
          mean ← amount (member "meanValue" selected);
          _ ← ensure (mean =? f64_one)%f64 "study_reference_unit";
          name ← text (member "name" selected);
          kind ← text (members ["modellingAndValidation"; "LCIMethod"; "typeOfDataSet"] data);
          Ok (name, [prop; group], kind)
      | _ => Err "study_reference_unit"
      end
  | _ => Err "study_flow_reference_property"
  end.
Definition port_for_flow (i : StudyInstance) (flow_id version direction : string) : result string Port :=
  match filter (fun e => ref_id (ex_flow e) = flow_id /\ ref_version (ex_flow e) = version /\ ex_direction e = direction) (is_exchanges i) with
  | [e] => Ok (mk_study_port (is_id i) (ex_id e))
  | _ => Err "study_ambiguous_or_missing_exchange_port"
  end.

Section Normalize.
(** SHA-256 in hexadecimal, the bounded JSON decoder and the size of an
    encoded value. *)
Context (sha256 : string -> string) (from_str : string -> result string Value) (encoded_size : Value -> result string Z).

(** ** The documents *)

Definition root_of (kind : string) : result string (string * string) :=
  if decide (kind = "lifecyclemodel") then Ok ("lifeCycleModelDataSet", "lifeCycleModelInformation")
  else if decide (kind = "process") then Ok ("processDataSet", "processInformation")
  else if decide (kind = "flow") then Ok ("flowDataSet", "flowInformation")
  else if decide (kind = "flowproperty") then Ok ("flowPropertyDataSet", "flowPropertiesInformation")
  else if decide (kind = "unitgroup") then Ok ("unitGroupDataSet", "unitGroupInformation")
  else Err "study_source_kind".
Definition eligible (actor : option string) (doc : Document) : bool :=
  (doc_state_code doc =? 100)
  || (doc_state_code doc =? 0)
     && match actor with Some actor => negb (bool_decide (actor = "")) && bool_decide (doc_owner_actor_id doc = Some actor) | None => false end.
Definition add_document (actor : option string) (acc : Documents * list SourceIdentity) (doc : Document)
    : result string (Documents * list SourceIdentity) :=
  let '(docs, identities) := acc in
  _ ← ensure (eligible actor doc) "study_numerical_source_not_eligible";
  _ ← ensure (bool_decide (sha256 (doc_json doc) = doc_sha256 doc)) "study_source_document_hash";
  value ← from_str (doc_json doc);
  '(root, info) ← root_of (doc_kind doc);
  id ← text (members [root; info; "dataSetInformation"; "common:UUID"] value);
  same ← (if decide (id = ref_id (doc_identity doc)) then
            version ← text (members [root; "administrativeInformation"; "publicationAndOwnership"; "common:dataSetVersion"] value);
            Ok (bool_decide (version = ref_version (doc_identity doc)))
          else Ok false);
  _ ← ensure same "study_source_identity_mismatch";
  let key := (doc_kind doc, ref_id (doc_identity doc), ref_version (doc_identity doc)) in
  _ ← ensure (bool_decide (docs !! key = None)) "study_duplicate_source";
  Ok (<[key := value]> docs, identities ++ [mk_source_identity (doc_kind doc) (doc_identity doc) (doc_state_code doc) (doc_sha256 doc)]).

(** ** The instances *)

Definition preflight_expansion (docs : Documents) (bounds : Bounds) (base_owned_bytes : Z) (expanded : Z) (raw : Value) : result string Z :=
  process ← reference (member "referenceToProcess" raw);
  document ← lookup_document docs "process" process;
  size ← encoded_size document;
  _ ← ensure (expanded + size <=? USIZE_MAX) "study_source_expansion_overflow";
  _ ← ensure (expanded + size <=? bo_max_artifact_bytes bounds) "study_source_expansion_artifact_limit";
  _ ← ensure (saturating_add base_owned_bytes (saturating_mul (expanded + size) 32) <=? bo_max_owned_bytes bounds)
        "study_source_expansion_memory_limit";
  Ok (expanded + size).

Definition add_exchange (docs : Documents) (bounds : Bounds) (acc : list StudyExchange * gset string * Z) (raw : Value)
    : result string (list StudyExchange * gset string * Z) :=
  let '(exchanges, ids, count) := acc in
  _ ← ensure (count + 1 <=? bo_max_exchanges bounds) "study_exchange_limit";
  id ← text (member "@dataSetInternalID" raw);
  _ ← ensure (safe_id id && bool_decide (id ∉ ids)) "study_exchange_identity";
  direction ← text (member "exchangeDirection" raw);
  _ ← ensure (bool_decide (direction = "Input") || bool_decide (direction = "Output")) "study_exchange_direction";
  flow ← reference (member "referenceToFlowDataSet" raw);
  '(unit, unit_identity, kind) ← unit_of docs flow;
  _ ← ensure (bool_decide (kind = "Product flow") || bool_decide (kind = "Waste flow") || bool_decide (kind = "Elementary flow"))
        "study_unsupported_flow_kind";
  a ← exchange_amount raw;
  Ok (exchanges ++ [mk_study_exchange id flow direction a kind unit unit_identity (get "allocations" raw)], {[id]} ∪ ids, count + 1).
Definition exchange_id_cmp : StudyExchange -> StudyExchange -> comparison := cmp_by ex_id String.compare.
Definition add_instance (docs : Documents) (bounds : Bounds) (acc : list StudyInstance * gset string * Z) (raw : Value)
    : result string (list StudyInstance * gset string * Z) :=
  let '(instances, ids, count) := acc in
  id ← text (member "@dataSetInternalID" raw);
  _ ← ensure (safe_id id && bool_decide (id ∉ ids)) "study_instance_identity";
  process ← reference (member "referenceToProcess" raw);
  document ← lookup_document docs "process" process;
  let data := member "processDataSet" document in
  reference_exchange_id ← text (members ["processInformation"; "quantitativeReference"; "referenceToReferenceFlow"] data);
  '(exchanges, exchange_ids, count) ← foldM (add_exchange docs bounds) (items_of (members ["exchanges"; "exchange"] data)) ([], ∅, count);
  _ ← ensure (bool_decide (reference_exchange_id ∈ exchange_ids)) "study_reference_exchange_missing";
  Ok (instances ++ [mk_instance id process reference_exchange_id (sort_by exchange_id_cmp exchanges)], {[id]} ∪ ids, count).

(** ** The connections *)

Definition instance_named (id : string) (instances : list StudyInstance) : option StudyInstance := find (fun i => bool_decide (is_id i = id)) instances.
Definition exchange_named (id : string) (i : StudyInstance) : option StudyExchange := find (fun e => bool_decide (ex_id e = id)) (is_exchanges i).
(** The port a connection names, by exchange or by the exact flow version. *)
Definition named_port (v : Value) (i : StudyInstance) (by_flow : result string Port) : result string Port :=
  match get "@exchangeId" v with
  | Some id => id ← text id; Ok (mk_study_port (is_id i) id)
  | None => by_flow
  end.
Definition add_downstream (instances : list StudyInstance) (supplier_port : Port) (acc : list Connection * gset Port) (downstream : Value)
    : result string (list Connection * gset Port) :=
  let '(connections, consumers) := acc in
  id ← text (member "@id" downstream);
  consumer ← ok_or "study_connection_instance" (instance_named id instances);
  consumer_port ← named_port downstream consumer
    (flow ← text (member "@flowUUID" downstream); version ← text (member "@version" downstream); port_for_flow consumer flow version "Input");
  declared ← ok_or "study_consumer_exchange" (exchange_named (po_exchange_id consumer_port) consumer);
  flow ← text (member "@flowUUID" downstream);
  same ← (if decide (ref_id (ex_flow declared) = flow) then
            version ← text (member "@version" downstream); Ok (bool_decide (ref_version (ex_flow declared) = version))
          else Ok false);
  _ ← ensure same "study_declared_connection_flow_mismatch";
  _ ← ensure (bool_decide (consumer_port ∉ consumers)) "study_multiple_providers";
  Ok (connections ++ [mk_connection supplier_port consumer_port], {[consumer_port]} ∪ consumers).
Definition add_output (instances : list StudyInstance) (supplier : StudyInstance) (acc : list Connection * gset Port) (output : Value)
    : result string (list Connection * gset Port) :=
  flow ← text (member "@flowUUID" output);
  version ← text (member "@version" output);
  supplier_port ← named_port output supplier (port_for_flow supplier flow version "Output");
  declared ← ok_or "study_supplier_exchange" (exchange_named (po_exchange_id supplier_port) supplier);
  _ ← ensure (bool_decide (ref_id (ex_flow declared) = flow) && bool_decide (ref_version (ex_flow declared) = version))
        "study_declared_connection_flow_mismatch";
  foldM (add_downstream instances supplier_port) (items_of (member "downstreamProcess" output)) acc.
Definition add_connections (instances : list StudyInstance) (acc : list Connection * gset Port) (raw : Value)
    : result string (list Connection * gset Port) :=
  id ← text (member "@dataSetInternalID" raw);
  match instance_named id instances with
  | None => Panic
  | Some supplier => foldM (add_output instances supplier) (items_of (members ["connections"; "outputExchange"] raw)) acc
  end.

(** ** Overrides, cutoffs and findings *)

(** [iter_mut().find(p)] and a write through it. *)
Fixpoint update_first {A} (p : A -> bool) (f : A -> A) (l : list A) : option (list A) :=
  match l with
  | [] => None
  | a :: l => if p a then Some (f a :: l) else cons a <$> update_first p f l
  end.
Definition set_amount (a : f64) (e : StudyExchange) : StudyExchange :=
  mk_study_exchange (ex_id e) (ex_flow e) (ex_direction e) a (ex_kind e) (ex_unit e) (ex_unit_identity e) (ex_allocations e).
Definition set_exchanges (es : list StudyExchange) (i : StudyInstance) : StudyInstance :=
  mk_instance (is_id i) (is_process i) (is_reference_exchange_id i) es.
Definition override_parts (path : string) : option (string * string) :=
  match split_chars ["/"%char] path with
  | [empty; instances; i; exchanges; e; amount] =>
      if bool_decide (empty = "") && bool_decide (instances = "instances") && bool_decide (exchanges = "exchanges")
         && bool_decide (amount = "amount") && safe_id i && safe_id e
      then Some (i, e) else None
  | _ => None
  end.
Definition apply_override (acc : list StudyInstance * gset string) (change : AmountOverride) : result string (list StudyInstance * gset string) :=
  let '(instances, overridden) := acc in
  '(instance_id, exchange_id) ← ok_or "study_unsupported_override" (override_parts (ov_path change));
  _ ← ensure (is_finite (ov_value change)) "study_unsupported_override";
  _ ← ensure (bool_decide (ov_path change ∉ overridden)) "study_duplicate_override";
  i ← ok_or "study_override_instance" (instance_named instance_id instances);
  _ ← ensure (negb (bool_decide (exchange_id = is_reference_exchange_id i))) "study_reference_override_unsupported";
  exchanges ← ok_or "study_override_exchange"
    (update_first (fun e => bool_decide (ex_id e = exchange_id)) (set_amount (positive_zero (ov_value change))) (is_exchanges i));
  instances ← ok_or "study_override_instance" (update_first (fun i => bool_decide (is_id i = instance_id)) (set_exchanges exchanges) instances);
  Ok (instances, {[ov_path change]} ∪ overridden).
Definition port_cmp : Port -> Port -> comparison := cmp_then (cmp_by po_instance_id String.compare) (cmp_by po_exchange_id String.compare).
Definition connection_cmp : Connection -> Connection -> comparison := cmp_then (cmp_by cn_supplier port_cmp) (cmp_by cn_consumer port_cmp).
Definition identity_cmp3 : SourceIdentity -> SourceIdentity -> comparison :=
  cmp_then (cmp_by si_kind String.compare)
    (cmp_then (cmp_by (fun i => ref_id (si_identity i)) String.compare) (cmp_by (fun i => ref_version (si_identity i)) String.compare)).
Definition check_cutoff (instances : list StudyInstance) (seen : gset Port) (c : StudyCutoff) : result string (gset Port) :=
  _ ← ensure (negb (is_blank (ct_reason c)) && (length (bytes (ct_reason c)) <=? 4096)%nat && bool_decide (ct_port c ∉ seen))
        "study_invalid_cutoff";
  i ← ok_or "study_cutoff_instance" (instance_named (po_instance_id (ct_port c)) instances);
  _ ← ensure (existsb (fun e => bool_decide (ex_id e = po_exchange_id (ct_port c)) && negb (bool_decide (ex_kind e = "Elementary flow"))) (is_exchanges i))
        "study_cutoff_exchange";
  Ok ({[ct_port c]} ∪ seen).
(** [Vec::dedup]. *)
Fixpoint dedup (l : list string) : list string :=
  match l with
  | a :: ((b :: _) as rest) => if decide (a = b) then dedup rest else a :: dedup rest
  | _ => l
  end.

Definition normalize (source : SourceInput) (bounds : Bounds) (base_owned_bytes : Z) : result string (NormalizedModel * Z) :=
  _ ← ensure (bool_decide (so_schema_version source = SOURCE_SCHEMA)) "study_source_schema";
  _ ← ensure (Z.of_nat (length (so_documents source)) <=? bo_max_documents bounds) "study_document_limit";
  '(docs, identities) ← foldM (add_document (so_actor_id source)) (so_documents source) (∅, []);
  model ← lookup_document docs "lifecyclemodel" (so_origin source);
  let data := members ["lifeCycleModelDataSet"; "lifeCycleModelInformation"] model in
  let raw_instances := items_of (members ["technology"; "processes"; "processInstance"] data) in
  _ ← ensure (negb (bool_decide (raw_instances = [])) && (Z.of_nat (length raw_instances) <=? bo_max_instances bounds)) "study_instance_limit";
  expanded_bytes ← foldM (preflight_expansion docs bounds base_owned_bytes) raw_instances 0;
  '(instances, _, _) ← foldM (add_instance docs bounds) raw_instances ([], ∅, 0);
  ref_id ← text (members ["quantitativeReference"; "referenceToReferenceProcess"] data);
  ref_instance ← ok_or "study_reference_instance" (instance_named ref_id instances);
  let reference := mk_study_port ref_id (is_reference_exchange_id ref_instance) in
  '(connections, _) ← foldM (add_connections instances) raw_instances ([], ∅);
  '(instances, _) ← foldM apply_override (so_overrides source) (instances, ∅);
  let instances := sort_by (cmp_by is_id String.compare) instances in
  let connections := sort_by connection_cmp connections in
  let identities := sort_by identity_cmp3 identities in
  let cutoffs := sort_by (cmp_by ct_port port_cmp) (so_cutoffs source) in
  _ ← foldM (check_cutoff instances) cutoffs ∅;
  Ok (mk_normalized "lca.study-normalized-model.v1" (so_origin source) reference instances connections cutoffs
        (sort_by (cmp_by ov_path String.compare) (so_overrides source)) identities
        (dedup (sort_by String.compare (so_quality_findings source))),
      saturating_mul expanded_bytes 32).
End Normalize.

(** ** Well-formed models *)

Record exchange_ok (e : StudyExchange) : Prop := {
  eo_direction : ex_direction e = "Input" \/ ex_direction e = "Output";
  eo_kind : ex_kind e = "Product flow" \/ ex_kind e = "Waste flow" \/ ex_kind e = "Elementary flow";
  eo_amount : is_finite (ex_amount e) = true /\ ex_amount e <> f64_neg_zero;
}.
Record instance_ok (i : StudyInstance) : Prop := {
  io_exchanges : Forall exchange_ok (is_exchanges i);
  io_distinct : NoDup (ex_id <$> is_exchanges i);
  io_sorted : StronglySorted (fun a b => Prelude.not_gt exchange_id_cmp a b = true) (is_exchanges i);
  io_reference : is_reference_exchange_id i ∈ ex_id <$> is_exchanges i;
}.
Definition reference_port (i : StudyInstance) : Port := mk_study_port (is_id i) (is_reference_exchange_id i).
(** The port names exchange [e] of instance [i]. *)
Definition port_of (instances : list StudyInstance) (p : Port) (i : StudyInstance) (e : StudyExchange) : Prop :=
  i ∈ instances /\ e ∈ is_exchanges i /\ p = mk_study_port (is_id i) (ex_id e).
Definition port_exists (instances : list StudyInstance) (p : Port) : Prop := exists i e, port_of instances p i e.
Record model_wf (m : NormalizedModel) : Prop := {
  wf_instances : Forall instance_ok (nm_instances m);
  wf_instance_ids : NoDup (is_id <$> nm_instances m);
  wf_reference : exists i, i ∈ nm_instances m /\ nm_reference m = reference_port i;
  wf_connections : Forall (fun c => port_exists (nm_instances m) (cn_supplier c) /\ port_exists (nm_instances m) (cn_consumer c)) (nm_connections m);
  wf_consumers : NoDup (cn_consumer <$> nm_connections m);
  wf_cutoffs : Forall (fun c => exists i e, port_of (nm_instances m) (ct_port c) i e /\ ex_kind e <> "Elementary flow") (nm_cutoffs m);
  wf_cutoff_ports : NoDup (ct_port <$> nm_cutoffs m);
}.

Lemma positive_zero_ok x : is_finite x = true -> is_finite (positive_zero x) = true /\ positive_zero x <> f64_neg_zero.
Proof.
  intros Hx. unfold positive_zero. destruct (x =? f64_zero)%f64 eqn:E; [done|]. split; [done|]. by intros ->.
Qed.
Lemma amount_ok v a : amount v = Ok a -> is_finite a = true /\ a <> f64_neg_zero.
Proof.
  unfold amount. intros (x & _ & H)%bind_ok. apply bind_ok in H as ([] & Hf & H). apply ensure_ok in Hf. inv_result. by apply positive_zero_ok.
Qed.

Section Wf.
Context (sha256 : string -> string) (from_str : string -> result string Value) (encoded_size : Value -> result string Z).

(** The accumulators of the loops: what was added, with its identifiers. *)
Definition collected {A K} `{Countable K} (key : A -> K) (ok : A -> Prop) (l : list A) (ids : gset K) : Prop :=
  Forall ok l /\ NoDup (key <$> l) /\ forall k, k ∈ ids <-> k ∈ key <$> l.
Lemma collected_nil {A K} `{Countable K} (key : A -> K) ok : collected key ok [] ∅.
Proof. split_and!; [done|constructor|]. intros k. simpl. rewrite elem_of_nil. set_solver. Qed.
Lemma collected_snoc {A K} `{Countable K} (key : A -> K) ok l ids a :
  collected key ok l ids -> ok a -> key a ∉ ids -> collected key ok (l ++ [a]) ({[key a]} ∪ ids).
Proof.
  intros (HF & HN & Hk) Ha Hn. rewrite Hk in Hn. split_and!.
  - apply Forall_app. split; [done|by constructor].
  - rewrite fmap_app. simpl. apply NoDup_app. split_and!; [done|intros k Hin Hs; apply list_elem_of_singleton in Hs; congruence|apply NoDup_singleton].
  - intros k. rewrite elem_of_union, elem_of_singleton, Hk, fmap_app, elem_of_app. simpl. rewrite list_elem_of_singleton. naive_solver.
Qed.

Lemma add_exchange_wf docs bounds es ids n raw es' ids' n' :
  add_exchange docs bounds (es, ids, n) raw = Ok (es', ids', n') ->
  collected ex_id exchange_ok es ids -> collected ex_id exchange_ok es' ids'.
Proof.
  unfold add_exchange. intros Ha Hc. apply bind_ok in Ha as ([] & _ & Ha). apply bind_ok in Ha as (id & _ & Ha).
  apply bind_ok in Ha as ([] & Hid & Ha). apply bind_ok in Ha as (d & _ & Ha). apply bind_ok in Ha as ([] & Hd & Ha).
  apply bind_ok in Ha as (flow & _ & Ha). apply bind_ok in Ha as ([[u ui] k] & _ & Ha). apply bind_ok in Ha as ([] & Hk & Ha).
  apply bind_ok in Ha as (a & Ham & Ha). rewrite ensure_ok in Hid, Hd, Hk. apply andb_true_iff in Hid as [_ Hid%bool_decide_eq_true]. inv_result.
  apply (collected_snoc ex_id exchange_ok es ids (mk_study_exchange id flow d a k u ui (get "allocations" raw))); [done| |done].
  split; simpl.
  - apply orb_true_iff in Hd as [Hd|Hd]; apply bool_decide_eq_true in Hd; auto.
  - apply orb_true_iff in Hk as [Hk|Hk]; [apply orb_true_iff in Hk as [Hk|Hk]|]; apply bool_decide_eq_true in Hk; auto.
  - unfold exchange_amount in Ham. case_match; [by eapply amount_ok|done].
Qed.

Lemma sorted_distinct_exchanges es : NoDup (ex_id <$> es) -> NoDup (ex_id <$> sort_by exchange_id_cmp es).
Proof. intros HN. by rewrite (fmap_Permutation ex_id _ _ (sort_by_perm exchange_id_cmp es)). Qed.
Lemma add_instance_wf docs bounds ins ids n raw ins' ids' n' :
  add_instance docs bounds (ins, ids, n) raw = Ok (ins', ids', n') ->
  collected is_id instance_ok ins ids ->
  collected is_id instance_ok ins' ids' /\ exists id, text (member "@dataSetInternalID" raw) = Ok id /\ id ∈ ids'.
Proof.
  unfold add_instance. intros Ha Hc. apply bind_ok in Ha as (id & Hid & Ha). apply bind_ok in Ha as ([] & Hn & Ha).
  apply bind_ok in Ha as (p & _ & Ha). apply bind_ok in Ha as (d & _ & Ha). apply bind_ok in Ha as (r & _ & Ha).
  apply bind_ok in Ha as ([[es eids] n1] & Hes & Ha). apply bind_ok in Ha as ([] & Hr & Ha). rewrite ensure_ok in Hn, Hr.
  apply andb_true_iff in Hn as [_ Hn%bool_decide_eq_true]. apply bool_decide_eq_true in Hr. inv_result.
  assert (HE : collected ex_id exchange_ok es eids).
  { apply (foldM_ind (fun _ acc => collected ex_id exchange_ok acc.1.1 acc.1.2)) in Hes; [done|apply collected_nil|].
    intros _ raw' _ [[es0 ids0] n0] [[es1 ids1] n1'] _ Hx Hy. by eapply add_exchange_wf. }
  destruct HE as (HF & HN & Hk). split; [|exists id; split; [done|set_solver]].
  apply (collected_snoc is_id instance_ok ins ids (mk_instance id p r (sort_by exchange_id_cmp es))); [done| |done].
  split; simpl.
  - by rewrite (sort_by_perm exchange_id_cmp es).
  - by apply sorted_distinct_exchanges.
  - apply sort_by_sorted'; typeclasses eauto.
  - rewrite (fmap_Permutation ex_id _ _ (sort_by_perm exchange_id_cmp es)). by apply Hk.
Qed.

Lemma find_elem {A} (p : A -> bool) l a : find p l = Some a -> a ∈ l /\ p a = true.
Proof. intros Hf. apply find_some in Hf as [Hin Hp]. split; [by apply list_elem_of_In|done]. Qed.
Lemma instance_named_elem id ins i : instance_named id ins = Some i -> i ∈ ins /\ is_id i = id.
Proof. intros [Hi Hp]%find_elem. apply bool_decide_eq_true in Hp. done. Qed.
Lemma exchange_named_elem id i e : exchange_named id i = Some e -> e ∈ is_exchanges i /\ ex_id e = id.
Proof. intros [Hi Hp]%find_elem. apply bool_decide_eq_true in Hp. done. Qed.
Lemma port_for_flow_instance i flow version direction p : port_for_flow i flow version direction = Ok p -> po_instance_id p = is_id i.
Proof. unfold port_for_flow. repeat case_match; try done. by intros [= <-]. Qed.
Lemma named_port_exists ins i v by_flow p e :
  i ∈ ins -> (forall p, by_flow = Ok p -> po_instance_id p = is_id i) -> named_port v i by_flow = Ok p ->
  exchange_named (po_exchange_id p) i = Some e -> port_exists ins p.
Proof.
  intros Hi Hb Hp He. apply exchange_named_elem in He as [He Hx]. exists i, e. split_and!; [done..|].
  assert (Hid : po_instance_id p = is_id i).
  { unfold named_port in Hp. destruct (get "@exchangeId" v); [|by apply Hb]. by apply bind_ok in Hp as (? & _ & [= <-]). }
  destruct p as [pi pe]; simpl in *. congruence.
Qed.
Definition connection_ok (ins : list StudyInstance) (c : Connection) : Prop := port_exists ins (cn_supplier c) /\ port_exists ins (cn_consumer c).
Abbreviation connected ins acc := (collected cn_consumer (connection_ok ins) (fst acc) (snd acc)).

Lemma add_downstream_wf ins p acc v acc' :
  port_exists ins p -> add_downstream ins p acc v = Ok acc' -> connected ins acc -> connected ins acc'.
Proof.
  destruct acc as [cs consumers]. intros Hp Ha Hc. unfold add_downstream in Ha. apply bind_ok in Ha as (id & _ & Ha).
  apply bind_ok in Ha as (i & Hi & Ha). apply bind_ok in Ha as (cp & Hcp & Ha). apply bind_ok in Ha as (e & He & Ha).
  apply bind_ok in Ha as (flow & _ & Ha). apply bind_ok in Ha as (same & _ & Ha). apply bind_ok in Ha as ([] & _ & Ha).
  apply bind_ok in Ha as ([] & Hn & Ha). apply ensure_ok, bool_decide_eq_true in Hn. inv_result.
  destruct (instance_named id ins) as [i'|] eqn:Hin; [|done]. destruct (exchange_named _ i) as [e'|] eqn:Hen; [|done]. simpl in Hi, He. inv_result.
  apply instance_named_elem in Hin as [Hin _]. simpl. apply (collected_snoc cn_consumer (connection_ok ins) cs consumers (mk_connection p cp)); [done| |done].
  split; [done|]. eapply named_port_exists; [exact Hin| |exact Hcp|exact Hen]. intros q Hq.
  apply bind_ok in Hq as (? & _ & Hq). apply bind_ok in Hq as (? & _ & Hq). by eapply port_for_flow_instance.
Qed.
Lemma add_output_wf ins i acc v acc' :
  i ∈ ins -> add_output ins i acc v = Ok acc' -> connected ins acc -> connected ins acc'.
Proof.
  intros Hi Ha Hc. unfold add_output in Ha. apply bind_ok in Ha as (flow & _ & Ha). apply bind_ok in Ha as (version & _ & Ha).
  apply bind_ok in Ha as (p & Hp & Ha). apply bind_ok in Ha as (e & He & Ha). apply bind_ok in Ha as ([] & _ & Ha).
  destruct (exchange_named _ i) as [e'|] eqn:Hen; [|done].
  assert (HP : port_exists ins p) by (eapply named_port_exists; [exact Hi|intros q; apply port_for_flow_instance|exact Hp|exact Hen]).
  apply (foldM_ind (fun _ acc => connected ins acc)) in Ha; [done..|]. intros _ d _ c c' _ Hx Hy. by eapply add_downstream_wf.
Qed.
Lemma add_connections_wf ins acc v acc' : add_connections ins acc v = Ok acc' -> connected ins acc -> connected ins acc'.
Proof.
  intros Ha Hc. unfold add_connections in Ha. apply bind_ok in Ha as (id & _ & Ha). destruct (instance_named id ins) as [i|] eqn:Hi; [|done].
  apply instance_named_elem in Hi as [Hi _]. apply (foldM_ind (fun _ acc => connected ins acc)) in Ha; [done..|].
  intros _ d _ c c' _ Hx Hy. by eapply add_output_wf.
Qed.

(** ** Overrides change amounts only *)

Definition skeleton (i : StudyInstance) : StudyInstance := set_exchanges (set_amount f64_zero <$> is_exchanges i) i.
Lemma update_first_split {A} (p : A -> bool) f l l' : update_first p f l = Some l' ->
  exists l1 a l2, l = l1 ++ a :: l2 /\ l' = l1 ++ f a :: l2 /\ p a = true /\ find p l = Some a.
Proof.
  revert l'. induction l as [|a l IH]; intros l' Hu; simpl in *; [done|]. destruct (p a) eqn:Hp.
  - injection Hu as <-. by exists [], a, l.
  - destruct (update_first p f l) as [l1|]; [|done]. injection Hu as <-. destruct (IH l1 eq_refl) as (x & b & y & -> & -> & Hb & Hf).
    exists (a :: x), b, y. done.
Qed.
Definition finite_amounts (i : StudyInstance) : Prop :=
  Forall (fun e => is_finite (ex_amount e) = true /\ ex_amount e <> f64_neg_zero) (is_exchanges i).
Lemma apply_override_wf acc c acc' : apply_override acc c = Ok acc' -> Forall finite_amounts acc.1 ->
  skeleton <$> acc'.1 = skeleton <$> acc.1 /\ Forall finite_amounts acc'.1.
Proof.
  destruct acc as [ins done]. unfold apply_override. intros Ha HF. apply bind_ok in Ha as ([iid eid] & _ & Ha).
  apply bind_ok in Ha as ([] & Hv & Ha). apply ensure_ok in Hv. apply bind_ok in Ha as ([] & _ & Ha). apply bind_ok in Ha as (i & Hi & Ha).
  apply bind_ok in Ha as ([] & _ & Ha). apply bind_ok in Ha as (es & Hes & Ha). apply bind_ok in Ha as (ins' & Hins & Ha). inv_result. simpl in *.
  destruct (update_first _ _ (is_exchanges i)) as [es'|] eqn:Ee; [|done]. destruct (update_first _ _ ins) as [ins1|] eqn:Ei; [|done].
  simpl in Hes, Hins. inv_result. apply update_first_split in Ei as (l1 & j & l2 & -> & -> & _ & Hfind).
  unfold instance_named in Hi. rewrite Hfind in Hi. simpl in Hi. inv_result.
  apply update_first_split in Ee as (x & e & y & He & -> & _ & _). apply Forall_app in HF as [HF1 HF2]. apply Forall_cons in HF2 as [HFi HF2].
  split.
  - rewrite !fmap_app, !fmap_cons. f_equal. f_equal. unfold skeleton. simpl. rewrite He, !fmap_app, !fmap_cons. done.
  - apply Forall_app. split; [done|]. constructor; [|done]. unfold finite_amounts in *. simpl. rewrite He in HFi.
    apply Forall_app in HFi as [H1 H2]. apply Forall_cons in H2 as [_ H2]. apply Forall_app. split; [done|]. constructor; [|done].
    by apply positive_zero_ok.
Qed.

Lemma StronglySorted_map {A B} (R : B -> B -> Prop) (f : A -> B) l : StronglySorted R (f <$> l) <-> StronglySorted (fun a b => R (f a) (f b)) l.
Proof.
  induction l as [|a l IH]; simpl; [split; constructor|]. split; intros HS; apply StronglySorted_inv in HS as [HS HF];
    (constructor; [by apply IH|]); [exact (proj1 (Forall_fmap _ _ _) HF)|exact (proj2 (Forall_fmap _ _ _) HF)].
Qed.
Lemma same_exchanges (es es' : list StudyExchange) : set_amount f64_zero <$> es = set_amount f64_zero <$> es' ->
  forall {B} (g : StudyExchange -> B), (forall e, g (set_amount f64_zero e) = g e) -> g <$> es = g <$> es'.
Proof.
  intros E B g Hg. transitivity (g <$> (set_amount f64_zero <$> es)); [|rewrite E]; rewrite <-list_fmap_compose; apply list_fmap_ext; intros; simpl; rewrite ?Hg; reflexivity.
Qed.
Lemma skeleton_ok i j : skeleton i = skeleton j -> instance_ok i -> finite_amounts j -> instance_ok j.
Proof.
  unfold skeleton, set_exchanges. intros [= E1 E2 E3 E4] [HF HN HS HR] HA. pose proof (@same_exchanges _ _ E4) as HE. split.
  - apply Forall_forall. intros e He. unfold finite_amounts in HA. rewrite Forall_forall in HA, HF.
    pose proof (list_elem_of_fmap_2 (set_amount f64_zero) _ _ He) as Hm. rewrite <-E4 in Hm. apply list_elem_of_fmap in Hm as (e0 & Ee & He0).
    injection Ee as F1 F2 F3 F4 F5 F6 F7. destruct (HF e0 He0). split; [by rewrite F3|by rewrite F4|by apply HA].
  - rewrite <-(HE _ ex_id) by done. done.
  - apply (StronglySorted_map (fun a b => Prelude.not_gt String.compare a b = true) ex_id).
    rewrite <-(HE _ ex_id) by done. by apply StronglySorted_map.
  - rewrite <-E3, <-(HE _ ex_id) by done. done.
Qed.
Lemma skeleton_port ins ins' p i e : skeleton <$> ins = skeleton <$> ins' -> port_of ins p i e ->
  exists i' e', port_of ins' p i' e' /\ ex_kind e' = ex_kind e.
Proof.
  intros E (Hi & He & ->). apply (list_elem_of_fmap_2 skeleton) in Hi. rewrite E in Hi. apply list_elem_of_fmap in Hi as (i' & Es & Hi').
  unfold skeleton, set_exchanges in Es. injection Es as E1 E2 E3 E4. apply (list_elem_of_fmap_2 (set_amount f64_zero)) in He. rewrite E4 in He.
  apply list_elem_of_fmap in He as (e' & Ee & He'). injection Ee as F1 F2 F3 F4 F5 F6 F7. exists i', e'. split; [|done].
  split_and!; [done..|]. by rewrite E1, F1.
Qed.
Lemma overrides_wf changes ins ins' done :
  foldM apply_override changes (ins, ∅) = Ok (ins', done) -> Forall instance_ok ins ->
  Forall instance_ok ins' /\ skeleton <$> ins' = skeleton <$> ins.
Proof.
  intros Hf HO. assert (HA : Forall finite_amounts ins).
  { eapply Forall_impl; [exact HO|]. intros i [HF _ _ _]. eapply Forall_impl; [exact HF|]. by intros e []. }
  apply (foldM_ind (fun _ acc => skeleton <$> acc.1 = skeleton <$> ins /\ Forall finite_amounts acc.1)) in Hf; [|done|].
  - destruct Hf as [Hs Hf]. split; [|done]. simpl in *. apply Forall_forall. intros j Hj.
    pose proof (list_elem_of_fmap_2 skeleton _ _ Hj) as Hk. rewrite Hs in Hk. apply list_elem_of_fmap in Hk as (i & Ei & Hi).
    rewrite Forall_forall in HO, Hf. eapply skeleton_ok; [by symmetry|by apply HO|by apply Hf].
  - intros _ c _ acc acc' _ [Hs Hfin] Ha. apply apply_override_wf in Ha as [Hs' Hf']; [|done]. split; [congruence|done].
Qed.
Definition cutoff_ok (ins : list StudyInstance) (c : StudyCutoff) : Prop :=
  exists i e, port_of ins (ct_port c) i e /\ ex_kind e <> "Elementary flow".
Lemma cutoffs_wf ins cutoffs seen : foldM (check_cutoff ins) cutoffs ∅ = Ok seen -> collected ct_port (cutoff_ok ins) cutoffs seen.
Proof.
  intros Hf. apply (foldM_ind (fun pre seen => collected ct_port (cutoff_ok ins) pre seen)) in Hf; [done|apply collected_nil|].
  intros pre c _ s s' _ Hs Hc. unfold check_cutoff in Hc. apply bind_ok in Hc as ([] & Hn & Hc). apply ensure_ok in Hn.
  apply andb_true_iff in Hn as [_ Hn%bool_decide_eq_true]. apply bind_ok in Hc as (i & Hi & Hc). apply bind_ok in Hc as ([] & He & Hc). inv_result.
  apply collected_snoc; [done| |done]. destruct (instance_named _ ins) as [i'|] eqn:Hin; [|done]. simpl in Hi. inv_result.
  apply instance_named_elem in Hin as [Hi Hid]. apply ensure_ok, existsb_exists in He as (e & He & Hk). apply list_elem_of_In in He.
  apply andb_true_iff in Hk as [Hx%bool_decide_eq_true Hk]. exists i, e. split; [|by case_bool_decide]. split_and!; [done..|].
  destruct (ct_port c); simpl in *. congruence.
Qed.

Lemma instances_wf docs bounds raws ins ids n :
  foldM (add_instance docs bounds) raws ([], ∅, 0) = Ok (ins, ids, n) ->
  collected is_id instance_ok ins ids /\ forall raw, raw ∈ raws -> exists id, text (member "@dataSetInternalID" raw) = Ok id /\ id ∈ ids.
Proof.
  intros Hf. apply (foldM_ind (fun pre acc => collected is_id instance_ok acc.1.1 acc.1.2
    /\ forall raw, raw ∈ pre -> exists id, text (member "@dataSetInternalID" raw) = Ok id /\ id ∈ acc.1.2)) in Hf; [done| |].
  - split; [apply collected_nil|]. by intros raw ?%elem_of_nil.
  - intros pre raw _ [[ins0 ids0] n0] [[ins1 ids1] n1] _ [Hc Hr] Ha. assert (Hmono : forall id, id ∈ ids0 -> id ∈ ids1).
    { unfold add_instance in Ha. repeat (apply bind_ok in Ha as (? & ? & Ha)). repeat case_match. repeat (apply bind_ok in Ha as (? & ? & Ha)).
      inv_result. set_solver. }
    apply add_instance_wf in Ha as [Hc' Hi]; [|done]. split; [done|]. intros r [Hin|Hl%list_elem_of_singleton]%elem_of_app; [|by subst r].
    destruct (Hr r Hin) as (id & Hid & Hm). exists id. split; [done|]. by apply Hmono.
Qed.
Lemma collected_perm {A K} `{Countable K} (key : A -> K) ok l l' ids : l' ≡ₚ l -> collected key ok l ids -> Forall ok l' /\ NoDup (key <$> l').
Proof. intros E (HF & HN & _). by rewrite E. Qed.
Lemma port_of_perm ins ins' p i e : ins' ≡ₚ ins -> port_of ins p i e -> port_of ins' p i e.
Proof. intros E (Hi & He & ->). split_and!; [by rewrite E|done..]. Qed.

Lemma normalize_wf source bounds base m n : normalize sha256 from_str encoded_size source bounds base = Ok (m, n) -> model_wf m.
Proof.
  unfold normalize. intros Hm. apply bind_ok in Hm as ([] & _ & Hm). apply bind_ok in Hm as ([] & _ & Hm).
  apply bind_ok in Hm as ([docs identities] & _ & Hm). apply bind_ok in Hm as (mdl & _ & Hm). apply bind_ok in Hm as ([] & _ & Hm).
  apply bind_ok in Hm as (expanded & _ & Hm). apply bind_ok in Hm as ([[ins ids] cnt] & Hins & Hm). apply bind_ok in Hm as (rid & _ & Hm).
  apply bind_ok in Hm as (ri & Hri & Hm). apply bind_ok in Hm as ([cs consumers] & Hcs & Hm). apply bind_ok in Hm as ([ins' over] & Hov & Hm).
  apply bind_ok in Hm as (seen & Hcut & Hm). inv_result. apply instances_wf in Hins as [(HO & HN & _) _].
  apply (foldM_ind (fun _ acc => connected ins acc)) in Hcs; [|apply collected_nil|intros; by eapply add_connections_wf].
  destruct (overrides_wf _ _ _ _ Hov HO) as [HO' Hsk]. pose proof (sort_by_perm (cmp_by is_id String.compare) ins') as HP.
  assert (Hport : forall p, port_exists ins p -> port_exists (sort_by (cmp_by is_id String.compare) ins') p).
  { intros p (i & e & Hp). apply (skeleton_port ins ins') in Hp as (i' & e' & Hp & _); [|done]. exists i', e'. by eapply port_of_perm. }
  destruct (collected_perm cn_consumer (connection_ok ins) cs _ consumers (sort_by_perm connection_cmp cs) Hcs) as [HC HCN].
  apply cutoffs_wf in Hcut as (HK & HKN & _). split; simpl; [by rewrite HP| | | |done..].
  - rewrite (fmap_Permutation is_id _ _ HP). assert (E : is_id <$> ins' = is_id <$> ins); [|by rewrite E].
    transitivity (is_id <$> (skeleton <$> ins')); [|rewrite Hsk]; rewrite <-list_fmap_compose; by apply list_fmap_ext.
  - destruct (instance_named rid ins) as [i|] eqn:Hi; [|done]. simpl in Hri. inv_result. apply instance_named_elem in Hi as [Hi <-].
    apply (list_elem_of_fmap_2 skeleton) in Hi. rewrite <-Hsk in Hi. apply list_elem_of_fmap in Hi as (j & Ej & Hj). exists j.
    unfold skeleton, set_exchanges in Ej. injection Ej as E1 E2 E3 E4. split; [by rewrite HP|]. unfold reference_port. by rewrite E1, E3.
  - eapply Forall_impl; [exact HC|]. intros c [H1 H2]. split; by apply Hport.
Qed.

(** ** No panics *)

Lemma text_no_panic v : text v <> Panic.
Proof. unfold text. by repeat case_match. Qed.
#[local] Hint Resolve text_no_panic : lca.
Lemma reference_no_panic v : reference v <> Panic.
Proof. unfold reference. no_panic. Qed.
Lemma lookup_document_no_panic docs kind identity : lookup_document docs kind identity <> Panic.
Proof. unfold lookup_document. no_panic. Qed.
Lemma amount_no_panic v : amount v <> Panic.
Proof. unfold amount. no_panic. Qed.
#[local] Hint Resolve reference_no_panic lookup_document_no_panic amount_no_panic : lca.
Lemma exchange_amount_no_panic v : exchange_amount v <> Panic.
Proof. unfold exchange_amount. no_panic. Qed.
Lemma unit_of_no_panic docs flow : unit_of docs flow <> Panic.
Proof. unfold unit_of. no_panic. Qed.
Lemma port_for_flow_no_panic i flow version direction : port_for_flow i flow version direction <> Panic.
Proof. unfold port_for_flow. no_panic. Qed.
#[local] Hint Resolve exchange_amount_no_panic unit_of_no_panic port_for_flow_no_panic : lca.
Lemma add_instance_no_panic docs bounds acc raw : add_instance docs bounds acc raw <> Panic.
Proof. unfold add_instance, add_exchange. no_panic. Qed.
Lemma add_output_no_panic ins i acc v : add_output ins i acc v <> Panic.
Proof. unfold add_output, add_downstream, named_port. no_panic. Qed.
Lemma apply_override_no_panic acc c : apply_override acc c <> Panic.
Proof. unfold apply_override. no_panic. Qed.
Lemma check_cutoff_no_panic ins seen c : check_cutoff ins seen c <> Panic.
Proof. unfold check_cutoff. no_panic. Qed.
#[local] Hint Resolve add_instance_no_panic add_output_no_panic apply_override_no_panic check_cutoff_no_panic : lca.

Context (Hdecode : forall s, from_str s <> Panic) (Hsize : forall v, encoded_size v <> Panic).
Lemma add_document_no_panic actor acc doc : add_document sha256 from_str actor acc doc <> Panic.
Proof using Hdecode. unfold add_document, root_of. no_panic. Qed.
Lemma preflight_no_panic docs bounds base n raw : preflight_expansion encoded_size docs bounds base n raw <> Panic.
Proof using Hsize. unfold preflight_expansion. no_panic. Qed.
Lemma add_connections_no_panic ins (ids : gset string) raws acc :
  (forall k, k ∈ ids <-> k ∈ is_id <$> ins) -> (forall raw, raw ∈ raws -> exists id, text (member "@dataSetInternalID" raw) = Ok id /\ id ∈ ids) ->
  foldM (add_connections ins) raws acc <> Panic.
Proof using.
  intros Hids Hr. apply foldM_no_panic. intros raw c Hin. unfold add_connections. destruct (Hr raw Hin) as (id & -> & Hid). cbn [mbind result_bind].
  destruct (instance_named id ins) as [i|] eqn:Hi; [no_panic|]. exfalso. apply Hids, list_elem_of_fmap in Hid as (i & -> & Hini).
  apply list_elem_of_In, (find_none _ _ Hi) in Hini. simpl in Hini. by rewrite bool_decide_eq_true_2 in Hini.
Qed.
Lemma normalize_study_no_panic source bounds base : normalize sha256 from_str encoded_size source bounds base <> Panic.
Proof using Hdecode Hsize.
  pose proof add_document_no_panic. pose proof preflight_no_panic. unfold normalize.
  apply bind_no_panic; [no_panic|intros [] _]. apply bind_no_panic; [no_panic|intros [] _]. apply bind_no_panic; [no_panic|intros [docs identities] _].
  apply bind_no_panic; [no_panic|intros mdl _]. cbn zeta. apply bind_no_panic; [no_panic|intros [] _]. apply bind_no_panic; [no_panic|intros n _].
  apply bind_no_panic; [no_panic|intros [[ins ids] cnt] Hins]. apply instances_wf in Hins as [(_ & _ & Hids) Hr].
  apply bind_no_panic; [no_panic|intros rid _]. apply bind_no_panic; [no_panic|intros ri _].
  apply bind_no_panic; [by eapply add_connections_no_panic|intros [cs consumers] _].
  apply bind_no_panic; [no_panic|intros [ins' over] _]. no_panic.
Qed.

Lemma documents_checked actor docs0 docs ids :
  foldM (add_document sha256 from_str actor) docs0 (∅, []) = Ok (docs, ids) ->
  Forall (fun doc => eligible actor doc = true /\ sha256 (doc_json doc) = doc_sha256 doc) docs0.
Proof using.
  intros Hf. apply (foldM_ind (fun pre _ => Forall (fun doc => eligible actor doc = true /\ sha256 (doc_json doc) = doc_sha256 doc) pre)) in Hf; [done..|].
  intros pre doc _ [d i] [d' i'] _ HF Ha. unfold add_document in Ha. apply bind_ok in Ha as ([] & He & Ha). apply bind_ok in Ha as ([] & Hs & _).
  apply ensure_ok in He. apply ensure_ok, bool_decide_eq_true in Hs. apply Forall_app. split; [done|by repeat constructor].
Qed.
End Wf.

(** The bytes the model is charged with. *)
Lemma normalize_owned sha256 from_str encoded_size source bounds base m n : (forall v k, encoded_size v = Ok k -> 0 <= k) ->
  normalize sha256 from_str encoded_size source bounds base = Ok (m, n) -> 0 <= n.
Proof.
  intros Hs. unfold normalize. intros ([] & _ & H)%bind_ok. apply bind_ok in H as ([] & _ & H). apply bind_ok in H as ([docs ids] & _ & H).
  apply bind_ok in H as (model & _ & H). apply bind_ok in H as ([] & _ & H). apply bind_ok in H as (expanded & He & H).
  assert (Hexp : 0 <= expanded).
  { revert He. apply (foldM_ind (fun _ n => 0 <= n)); [done|]. intros pre raw post b b' _ Hb. unfold preflight_expansion.
    intros (p & _ & H')%bind_ok. apply bind_ok in H' as (d & _ & H'). apply bind_ok in H' as (size & Hsize & H'). apply bind_ok in H' as ([] & _ & H').
    apply bind_ok in H' as ([] & _ & H'). apply bind_ok in H' as ([] & _ & H'). inv_result. apply Hs in Hsize. lia. }
  apply bind_ok in H as ([[instances ids'] count] & _ & H). apply bind_ok in H as (rid & _ & H). apply bind_ok in H as (ri & _ & H).
  apply bind_ok in H as ([connections consumers] & _ & H). apply bind_ok in H as ([instances' ov] & _ & H). apply bind_ok in H as (seen & _ & H).
  inv_result. unfold saturating_mul, USIZE_MAX, U64_MAX. lia.
Qed.


(** ** A study *)

(** Two instances of one process buying from each other would be a cycle; here a
    maker supplies a user.  The documents are named by their text. *)
Definition sample_document (kind id : string) : Document := mk_document kind (mk_ref id "1") 100 None ("h" +:+ id) id.
Definition sample_set (root info id : string) (infos sections : list (string * Value)) : Value :=
  JObject [(root, JObject (("administrativeInformation",
    JObject [("publicationAndOwnership", JObject [("common:dataSetVersion", JString "1")])]) ::
    (info, JObject (("dataSetInformation", JObject [("common:UUID", JString id)]) :: infos)) :: sections))].
Definition sample_ref (id : string) : Value := JObject [("@refObjectId", JString id); ("@version", JString "1")].
Definition sample_flow (id kind : string) : Value :=
  sample_set "flowDataSet" "flowInformation" id
    [("quantitativeReference", JObject [("referenceToReferenceFlowProperty", JString "0")])]
    [("flowProperties", JObject [("flowProperty", JObject [("@dataSetInternalID", JString "0"); ("meanValue", JString "1");
        ("referenceToFlowPropertyDataSet", sample_ref "mass")])]);
     ("modellingAndValidation", JObject [("LCIMethod", JObject [("typeOfDataSet", JString kind)])])].
Definition sample_raw_exchange (id direction flow amount : string) : Value :=
  JObject [("@dataSetInternalID", JString id); ("exchangeDirection", JString direction); ("referenceToFlowDataSet", sample_ref flow);
           ("meanAmount", JString amount)].
Definition sample_process (id : string) (exchanges : list Value) : Value :=
  sample_set "processDataSet" "processInformation" id [("quantitativeReference", JObject [("referenceToReferenceFlow", JString "0")])]
    [("exchanges", JObject [("exchange", JArray exchanges)])].
Definition sample_instance (id process : string) (connections : list (string * Value)) : Value :=
  JObject ([("@dataSetInternalID", JString id); ("referenceToProcess", sample_ref process)] ++ connections).
Definition sample_decode (s : string) : result string Value :=
  match list_find (fun kv => kv.1 = s)
    [("model", sample_set "lifeCycleModelDataSet" "lifeCycleModelInformation" "model"
       [("quantitativeReference", JObject [("referenceToReferenceProcess", JString "user")]);
        ("technology", JObject [("processes", JObject [("processInstance", JArray [
           sample_instance "user" "use" [];
           sample_instance "maker" "make" [("connections", JObject [("outputExchange", JObject [
             ("@flowUUID", JString "part"); ("@version", JString "1");
             ("downstreamProcess", JObject [("@id", JString "user"); ("@flowUUID", JString "part"); ("@version", JString "1")])])])]])])])] []);
     ("use", sample_process "use" [sample_raw_exchange "0" "Output" "good" "2"; sample_raw_exchange "1" "Input" "part" "6"]);
     ("make", sample_process "make" [sample_raw_exchange "0" "Output" "part" "1"; sample_raw_exchange "1" "Output" "gas" "5"]);
     ("good", sample_flow "good" "Product flow"); ("part", sample_flow "part" "Product flow"); ("gas", sample_flow "gas" "Elementary flow");
     ("mass", sample_set "flowPropertyDataSet" "flowPropertiesInformation" "mass"
        [("quantitativeReference", JObject [("referenceToReferenceUnitGroup", sample_ref "units")])] []);
     ("units", sample_set "unitGroupDataSet" "unitGroupInformation" "units"
        [("quantitativeReference", JObject [("referenceToReferenceUnit", JString "0")])]
        [("units", JObject [("unit", JObject [("@dataSetInternalID", JString "0"); ("name", JString "kg"); ("meanValue", JString "1")])])])]
  with Some (_, (_, v)) => Ok v | None => Err "no document" end.
Definition sample_source : SourceInput :=
  mk_source SOURCE_SCHEMA (mk_ref "model" "1") None
    [sample_document "lifecyclemodel" "model"; sample_document "process" "use"; sample_document "process" "make"; sample_document "flow" "good";
     sample_document "flow" "part"; sample_document "flow" "gas"; sample_document "flowproperty" "mass"; sample_document "unitgroup" "units"]
    [mk_ref "method" "1"] [] [mk_override "/instances/maker/exchanges/1/amount" (f64_of_Z 10)] None ["b"; "a"; "b"].
Definition sample_normalized : result string (NormalizedModel * Z) :=
  normalize (fun s => "h" +:+ s) sample_decode (fun _ => Ok 100) sample_source default_bounds 0.
