(* ===== verification/StudyCompile.v ===== *)
(** * Studies: from a normalized model to matrices

    [study/compile.rs], the compiler: the reference exchanges and the supplying
    exchanges become views, the columns; every other exchange of a view's
    instance, scaled to one unit of the view's pivot and by its allocated share,
    is demanded from the view that supplies it, or belongs to the inventory, or
    was declared cut off.  Here with the theorem that each cell of the matrices
    is the sum of exactly the exchanges that belong to it. *)

From S2P Require Import Prelude F64 Text Json Tidas SignedFlow StudySource.

Local Open Scope string_scope.
Local Open Scope Z_scope.
Local Open Scope list_scope.

(** ** Data *)

Record View := mk_study_view { vi_port : Port; vi_flow : DatasetRef; vi_unit : string; vi_pivot : f64 }.
Record InventoryAxis := mk_axis { ax_flow : DatasetRef; ax_direction : string; ax_unit : string }.
Record MethodAxis := mk_method_axis { ma_id : string; ma_version : string; ma_unit : string }.
Record CoverageGap := mk_gap { gp_method : DatasetRef; gp_inventory_index : nat }.
Abbreviation Matrix := (list (list f64)).
Record NumericInput := mk_numeric {
  nu_views : list View;
  nu_inventory_axes : list InventoryAxis;
  nu_method_axes : list MethodAxis;
  nu_reference : View;
  nu_a : Matrix;
  nu_b : Matrix;
  nu_c : Matrix;
  nu_y : list f64;
}.
Record Factor := mk_factor { fc_flow : DatasetRef; fc_direction : string; fc_value : f64 }.
Record VerifiedMethods := mk_methods { vm_axes : list MethodAxis; vm_factors : list (list Factor); vm_source_hash : string }.

(** [anyhow::Error]: a code, or the error of a function called. *)
Inductive StudyError := Code (code : string) | FlowError (e : SignedFlowError) | AllocationError (e : TidasError).
Definition code {A} (r : result string A) : result StudyError A := map_err Code r.
Definition check (c : bool) (message : string) : result StudyError unit := ensure c (Code message).
(** [Option::unwrap]. *)
Definition unwrap {E A} (o : option A) : result E A := match o with Some a => Ok a | None => Panic end.
Definition position {A} (p : A -> bool) (l : list A) : option nat := fst <$> list_find (fun a => p a = true) l.

(** ** Amounts *)

(** [f64::from_bits]. *)
Definition f64_of_bits (bits : Z) : f64 :=
  let s := Z.testbit bits 63 in
  let encoded := Z.land (Z.shiftr bits 52) 2047 in
  let fraction := Z.land bits (2^52 - 1) in
  if encoded =? 2047 then if fraction =? 0 then S754_infinity s else S754_nan
  else if encoded =? 0 then match fraction with Zpos m => S754_finite s m (-1074) | _ => S754_zero s end
  else S754_finite s (Z.to_pos (fraction + 2^52)) (encoded - 1075).
Definition f64_copysign (x y : f64) : f64 :=
  let s := is_sign_negative y in
  match x with
  | S754_zero _ => S754_zero s
  | S754_infinity _ => S754_infinity s
  | S754_nan => S754_nan
  | S754_finite _ m e => S754_finite s m e
  end.
(** The mantissa in [1, 2) and the exponent of a positive number. *)
Definition binary_parts (value : f64) : f64 * Z :=
  let bits := f64_to_bits value in
  let fraction := Z.land bits (2^52 - 1) in
  let encoded := Z.land (Z.shiftr bits 52) 2047 in
  if negb (encoded =? 0) then (f64_of_bits (Z.lor (Z.shiftl 1023 52) fraction), encoded - 1023)
  else
    let highest := Z.log2 fraction in
    let normalized := Z.shiftl fraction (52 - highest) in
    (f64_of_bits (Z.lor (Z.shiftl 1023 52) (Z.land normalized (2^52 - 1))), highest - 1074).
Definition f64_half : f64 := f64_of_ratio 1 2.
Definition f64_two : f64 := f64_of_Z 2.
Definition normalized_amount (amount share pivot : f64) : result StudyError f64 :=
  _ ← check (is_finite amount && is_finite share && (f64_zero <=? share)%f64 && is_finite pivot && (f64_zero <? pivot)%f64)
        "study_invalid_normalization";
  if (amount =? f64_zero)%f64 || (share =? f64_zero)%f64 then Ok f64_zero
  else
    let '(a, ae) := binary_parts (f64_abs amount) in
    let '(b, be) := binary_parts share in
    let '(p, pe) := binary_parts pivot in
    let mantissa := ((a * b) / p)%f64 in
    let exponent := ae + be - pe in
    let '(mantissa, exponent) :=
      if (f64_two <=? mantissa)%f64 then ((mantissa * f64_half)%f64, exponent + 1)
      else if (mantissa <? f64_one)%f64 then ((mantissa * f64_two)%f64, exponent - 1)
      else (mantissa, exponent) in
    _ ← check (-1074 <=? exponent) "study_normalization_underflow";
    _ ← check (exponent <=? 1023) "study_normalization_overflow";
    let power := if -1022 <=? exponent then f64_of_bits (Z.shiftl (exponent + 1023) 52) else f64_of_bits (Z.shiftl 1 (exponent + 1074)) in
    let value := (mantissa * power)%f64 in
    _ ← check (is_finite value) "study_normalization_overflow";
    _ ← check (negb (value =? f64_zero)%f64) "study_normalization_underflow";
    Ok (f64_copysign value amount).

(** ** Ports and shares *)

Definition direction (value : string) : SignedFlowDirection := if decide (value = "Input") then Input else Output.
Definition instance_at (m : NormalizedModel) (p : Port) : result StudyError StudyInstance :=
  ok_or (Code "study_port_instance") (instance_named (po_instance_id p) (nm_instances m)).
Definition exchange_at (m : NormalizedModel) (p : Port) : result StudyError StudyExchange :=
  i ← instance_at m p;
  ok_or (Code "study_port_exchange") (exchange_named (po_exchange_id p) i).
Definition signed (d : string) (a : f64) : result StudyError f64 := map_err FlowError (signed_coefficient (direction d) a).
Definition view_of (m : NormalizedModel) (p : Port) : result StudyError View :=
  e ← exchange_at m p;
  _ ← check (negb (bool_decide (ex_kind e = "Elementary flow"))) "study_reference_kind";
  raw ← signed (ex_direction e) (ex_amount e);
  pivot ← map_err FlowError (normalize_reference_coefficient raw);
  Ok (mk_study_view p (ex_flow e) (ex_unit e) (coefficient pivot)).

Definition is_legacy_share (declaration : option Value) : bool :=
  match declaration ≫= get "allocation" with
  | None => false
  | Some allocation =>
      match allocation with
      | JArray [entry] | (JObject _ as entry) => bool_decide (is_Some (get "@allocatedFraction" entry)) && negb (bool_decide (is_Some (get "@internalReferenceToCoProduct" entry)))
      | _ => false
      end
  end.
Definition allocation_row (e : StudyExchange) : Value :=
  JObject (("@dataSetInternalID", JString (ex_id e)) ::
           match ex_allocations e with Some a => [("allocations", a)] | None => [] end ++
           [("exchangeDirection", JString (ex_direction e))]).
(** The share of one exchange in a view that does, or does not, pivot on the
    reference. *)
Definition share_in (nonreference : bool) (r : TidasAllocationResolution) : f64 :=
  match r with
  | Explicit fraction | LegacyInferredReference fraction => fraction
  | SparseZero => f64_zero
  | Undeclared | LegacyEmptyUndeclared => if nonreference then f64_zero else f64_one
  end.

Section Compile.
(** [Display] of floating-point JSON numbers. *)
Context (show_f64 : f64 -> string).

Definition fractions (i : StudyInstance) (pivot : string) : result StudyError (list f64) :=
  resolved ← map_err AllocationError (resolve_tidas_process_allocations show_f64 (allocation_row <$> is_exchanges i) pivot);
  _ ← foldM (fun _ index =>
              e ← unwrap (is_exchanges i !! index);
              check (negb (bool_decide (ex_kind e = "Elementary flow"))) "study_allocation_target_kind")
        (allocation_target_indices resolved) tt;
  let nonreference := negb (bool_decide (pivot = is_reference_exchange_id i)) in
  let has_target := negb (bool_decide (allocation_target_indices resolved = [])) in
  _ ← (if nonreference then
         let legacy_pivot := match exchange_named pivot i with
                             | Some e => bool_decide (ex_direction e = "Output") && is_legacy_share (ex_allocations e)
                             | None => false
                             end in
         check (has_target || legacy_pivot) "study_missing_product_allocation"
       else Ok tt);
  mapR (fun ir => e ← unwrap (is_exchanges i !! ir.1);
                  Ok (if decide (ex_id e = pivot) then f64_one else share_in nonreference ir.2))
    (enumerate (ta_exchanges resolved)).

(** ** The axes *)

Definition check_connection (m : NormalizedModel) (ports : gset Port) (c : Connection) : result StudyError (gset Port) :=
  supplier ← exchange_at m (cn_supplier c);
  consumer ← exchange_at m (cn_consumer c);
  _ ← check (bool_decide (ex_flow supplier = ex_flow consumer) && bool_decide (ex_unit_identity supplier = ex_unit_identity consumer)
             && bool_decide (ex_unit supplier = ex_unit consumer) && negb (bool_decide (ex_kind supplier = "Elementary flow"))
             && negb (bool_decide (ex_kind consumer = "Elementary flow"))) "study_connection_identity_mismatch";
  i ← instance_at m (cn_consumer c);
  _ ← check (negb (bool_decide (po_exchange_id (cn_consumer c) = is_reference_exchange_id i))) "study_consumed_reference_unsupported";
  s ← signed (ex_direction supplier) (ex_amount supplier);
  d ← signed (ex_direction consumer) (ex_amount consumer);
  _ ← check (negb (s =? f64_zero)%f64 && negb (Bool.eqb (is_sign_negative s) (is_sign_negative d)) || (d =? f64_zero)%f64)
        "study_connection_direction_mismatch";
  Ok ({[cn_supplier c]} ∪ ports).
(** The ports with a column, ordered by instance and exchange. *)
Definition view_ports (m : NormalizedModel) : result StudyError (list Port) :=
  ports ← foldM (check_connection m) (nm_connections m) (list_to_set (reference_port <$> nm_instances m));
  Ok (sort_by port_cmp (elements ports)).

Definition axis_key (e : StudyExchange) : string * string * string := (ref_id (ex_flow e), ref_version (ex_flow e), ex_direction e).
Definition inventory_map (m : NormalizedModel) : gmap (string * string * string) InventoryAxis :=
  foldl (fun acc e => if decide (ex_kind e = "Elementary flow")
                      then <[axis_key e := mk_axis (ex_flow e) (ex_direction e) (ex_unit e)]> acc else acc)
    ∅ (nm_instances m ≫= is_exchanges).
Definition key_cmp3 : string * string * string -> string * string * string -> comparison :=
  cmp_then (cmp_by (fun k => k.1.1) String.compare) (cmp_then (cmp_by (fun k => k.1.2) String.compare) (cmp_by snd String.compare)).
Definition inventory_axes (m : NormalizedModel) : list InventoryAxis :=
  snd <$> sort_by (cmp_by fst key_cmp3) (map_to_list (inventory_map m)).

(** ** The cells *)

(** [matrix[row][column] += x]. *)
Definition add_at (mat : Matrix) (row column : nat) (x : f64) : result StudyError Matrix :=
  r ← unwrap (mat !! row);
  old ← unwrap (r !! column);
  Ok (<[row := <[column := (old + x)%f64]> r]> mat).
Definition axis_matches (e : StudyExchange) (a : InventoryAxis) : bool := bool_decide (ax_flow a = ex_flow e) && bool_decide (ax_direction a = ex_direction e).
Definition is_cut_off (m : NormalizedModel) (p : Port) : bool := existsb (fun c => bool_decide (ct_port c = p)) (nm_cutoffs m).
Definition supplies (m : NormalizedModel) (p : Port) : bool := existsb (fun c => bool_decide (cn_supplier c = p)) (nm_connections m).
Definition connection_to (m : NormalizedModel) (p : Port) : option Connection := find (fun c => bool_decide (cn_consumer c = p)) (nm_connections m).

Definition compile_exchange (m : NormalizedModel) (views : list View) (axes : list InventoryAxis) (i : StudyInstance) (v : View)
    (pivot_amount : f64) (column : nat) (ab : Matrix * Matrix) (es : StudyExchange * f64) : result StudyError (Matrix * Matrix) :=
  let '(a, b) := ab in
  let '(e, share) := es in
  if decide (ex_id e = po_exchange_id (vi_port v)) then Ok (a, b)
  else
    value ← normalized_amount (ex_amount e) share pivot_amount;
    _ ← check (is_finite value) "study_nonfinite_coefficient";
    if decide (ex_kind e = "Elementary flow") then
      row ← unwrap (position (axis_matches e) axes);
      b ← add_at b row column value;
      Ok (a, b)
    else
      let p := mk_study_port (is_id i) (ex_id e) in
      match connection_to m p with
      | Some connection =>
          _ ← check (negb (is_cut_off m p)) "study_connected_cutoff_conflict";
          row ← unwrap (position (fun v => bool_decide (vi_port v = cn_supplier connection)) views);
          s ← signed (ex_direction e) value;
          supplier ← unwrap (views !! row);
          a ← add_at a row column (- s / vi_pivot supplier)%f64;
          Ok (a, b)
      | None =>
          _ ← (if negb (value =? f64_zero)%f64 then check (is_cut_off m p || supplies m p) ("study_undeclared_boundary:" +:+ is_id i +:+ ":" +:+ ex_id e) else Ok tt);
          Ok (a, b)
      end.
Definition compile_view (m : NormalizedModel) (views : list View) (axes : list InventoryAxis) (ab : Matrix * Matrix) (jv : nat * View)
    : result StudyError (Matrix * Matrix) :=
  i ← instance_at m (vi_port jv.2);
  pivot ← exchange_at m (vi_port jv.2);
  shares ← fractions i (po_exchange_id (vi_port jv.2));
  foldM (compile_exchange m views axes i jv.2 (f64_abs (ex_amount pivot)) jv.1) (zip (is_exchanges i) shares) ab.

Definition zeros (rows columns : nat) : Matrix := replicate rows (replicate columns f64_zero).

(** ** Demand and factors *)

Definition check_binding (bounds : Bounds) (method_refs : list DatasetRef) (reference : View) (binding : StudyBinding) : result StudyError f64 :=
  _ ← check (negb (bool_decide (sb_revision_id binding = "")) && (length (bytes (sb_revision_content_hash binding)) =? 64)%nat)
        "study_revision_binding";
  let fu := df_functional_unit (sb_definition binding) in
  amount ← ok_or (Code "invalid float literal") (parse_f64 (fu_amount fu));
  _ ← check (is_finite amount && (f64_zero <? amount)%f64 && (amount <=? bo_max_functional_unit_amount bounds)%f64
             && bool_decide (fu_reference_flow_id fu = ref_id (vi_flow reference)) && bool_decide (fu_unit fu = vi_unit reference))
        "study_functional_unit_mismatch";
  let refs := df_method_refs (sb_definition binding) in
  _ ← check (bool_decide (((fun r => mk_ref (mr_id r) (mr_version r)) <$> refs) = method_refs)
             && forallb (fun r => bool_decide (mr_type r = "datasetRevision") && bool_decide (mr_dataset_type r = "lciamethod")) refs)
        "study_definition_method_binding";
  Ok amount.

(** The demand for the reference: one unit, or the amount of the functional
    unit. *)
Definition study_demand (bounds : Bounds) (method_refs : list DatasetRef) (reference : View) (study_binding : option StudyBinding) : result StudyError f64 :=
  match study_binding with
  | None => Ok f64_one
  | Some binding => check_binding bounds method_refs reference binding
  end.

Definition factor_matches (a : InventoryAxis) (f : Factor) : bool := bool_decide (fc_flow f = ax_flow a) && bool_decide (fc_direction f = ax_direction a).
Definition set_at (mat : Matrix) (row column : nat) (x : f64) : result StudyError Matrix :=
  r ← unwrap (mat !! row);
  _ ← unwrap (r !! column);
  Ok (<[row := <[column := x]> r]> mat).
Definition compile_factor (method_refs : list DatasetRef) (row : nat) (factors : list Factor) (acc : Matrix * list CoverageGap) (ja : nat * InventoryAxis)
    : result StudyError (Matrix * list CoverageGap) :=
  let '(c, coverage) := acc in
  let matches := filter (fun f => factor_matches ja.2 f = true) factors in
  _ ← check (length matches <=? 1)%nat "study_factor_selection_not_unique";
  match matches with
  | f :: _ =>
      _ ← check (is_finite (fc_value f)) "study_nonfinite_factor";
      c ← set_at c row ja.1 (fc_value f);
      Ok (c, coverage)
  | [] =>
      method ← unwrap (method_refs !! row);
      Ok (c, coverage ++ [mk_gap method ja.1])
  end.
Definition compile_factors (method_refs : list DatasetRef) (axes : list InventoryAxis) (acc : Matrix * list CoverageGap) (rf : nat * list Factor)
    : result StudyError (Matrix * list CoverageGap) :=
  foldM (compile_factor method_refs rf.1 rf.2) (enumerate axes) acc.

(** Finite cells, and [if *value == 0.0 { *value = 0.0 }]. *)
Definition settle_matrix (mat : Matrix) : result StudyError Matrix :=
  mapR (mapR (fun x => _ ← check (is_finite x) "study_aggregate_overflow"; Ok (positive_zero x))) mat.
Definition nonzeros (mats : list Matrix) : Z := Z.of_nat (length (filter (fun x => negb (x =? f64_zero)%f64 = true) (concat (concat mats)))).
Definition dense_cells (n m k : Z) : result StudyError Z :=
  let cells := n * n + m * n + k * m in
  _ ← check ((n * n <=? USIZE_MAX) && (m * n <=? USIZE_MAX) && (n * n + m * n <=? USIZE_MAX) && (k * m <=? USIZE_MAX) && (cells <=? USIZE_MAX))
        "study_dimension_overflow";
  Ok cells.

(** The compiler, from the normalized model to the matrices and what the
    methods do not cover. *)
Definition compile_model (source_bytes : Z) (normalized_owned_bytes : Z) (method_refs : list DatasetRef) (study_binding : option StudyBinding)
    (methods : VerifiedMethods) (bounds : Bounds) (model : NormalizedModel) : result StudyError (NumericInput * list CoverageGap) :=
  ports ← view_ports model;
  _ ← check (Z.of_nat (length ports) <=? bo_max_views bounds) "study_view_limit";
  views ← mapR (view_of model) ports;
  let axes := inventory_axes model in
  _ ← check (negb (bool_decide (length axes = 0%nat))) "study_empty_inventory_unsupported";
  let n := length views in
  let m := length axes in
  let k := length (vm_axes methods) in
  cells ← dense_cells (Z.of_nat n) (Z.of_nat m) (Z.of_nat k);
  _ ← check (cells <=? bo_max_dense_cells bounds) "study_matrix_memory_limit";
  _ ← check (saturating_add (saturating_add (saturating_mul source_bytes 8) normalized_owned_bytes) (saturating_mul cells 64)
             <=? bo_max_owned_bytes bounds) "study_owned_memory_limit";
  '(a, b) ← foldM (compile_view model views axes) (enumerate views) (zeros n n, zeros m n);
  reference ← view_of model (nm_reference model);
  reference_index ← unwrap (position (fun v => bool_decide (vi_port v = nm_reference model)) views);
  demand ← study_demand bounds method_refs reference study_binding;
  let y := <[reference_index := demand]> (replicate n f64_zero) in
  '(c, coverage) ← foldM (compile_factors method_refs axes) (enumerate (vm_factors methods)) (zeros k m, []);
  a ← settle_matrix a;
  b ← settle_matrix b;
  c ← settle_matrix c;
  _ ← check (nonzeros [a; b; c] <=? bo_max_nonzeros bounds) "study_nnz_limit";
  Ok (mk_numeric views axes (vm_axes methods) reference a b c y, coverage).
End Compile.

(** ** Loops *)

(** A loop invariant of the elements seen so far, when no step panics. *)
Lemma foldM_prefix {E A B} (P : list A -> B -> Prop) (f : B -> A -> result E B) l b0 : P [] b0 ->
  (forall pre a post b, l = pre ++ a :: post -> P pre b -> match f b a with Ok b' => P (pre ++ [a]) b' | Err _ => True | Panic => False end) ->
  match foldM f l b0 with Ok b => P l b | Err _ => True | Panic => False end.
Proof.
  intros H0 HS.
  enough (HG : forall post pre b, l = pre ++ post -> P pre b -> match foldM f post b with Ok b' => P (pre ++ post) b' | Err _ => True | Panic => False end)
    by exact (HG l [] b0 eq_refl H0).
  induction post as [|a post IH]; intros pre b E' Hb; cbn [foldM]; [by rewrite app_nil_r|].
  pose proof (HS pre a post b E' Hb) as Ha. destruct (f b a) as [b'|e|]; [|done..]. cbn [mbind result_bind].
  rewrite (cons_middle a pre post), app_assoc. apply IH; [by rewrite <-app_assoc|done].
Qed.
Lemma enumerate_middle {A} (l : list A) pre j a post : enumerate l = pre ++ (j, a) :: post ->
  j = length pre /\ l !! j = Some a /\ (forall j' a', (j', a') ∈ pre -> (j' < j)%nat /\ l !! j' = Some a').
Proof.
  intros E. assert (HL : forall r w, (pre ++ (j, a) :: post) !! r = Some w -> w.1 = r /\ l !! r = Some w.2).
  { intros r w. rewrite <-E. unfold enumerate. rewrite list_lookup_imap. intros (x & Hx & ->)%fmap_Some. done. }
  destruct (HL (length pre) (j, a)) as [Hj Ha]; [by rewrite list_lookup_middle|]. simpl in Hj, Ha. subst j. split_and!; [done..|].
  intros j' a' Hin. apply list_elem_of_lookup in Hin as [r Hr]. pose proof (lookup_lt_Some _ _ _ Hr).
  destruct (HL r (j', a')) as [? ?]; [by rewrite lookup_app_l|]. naive_solver.
Qed.

(** ** Matrices as cells *)

Definition cell (mat : Matrix) (r c : nat) : option f64 := mat !! r ≫= (.!! c).
Definition shaped (rows columns : nat) (mat : Matrix) : Prop := length mat = rows /\ Forall (fun r => length r = columns) mat.
Lemma shaped_zeros rows columns : shaped rows columns (zeros rows columns).
Proof. unfold zeros. split; [apply length_replicate|]. apply Forall_replicate, length_replicate. Qed.
Lemma cell_zeros rows columns r c : (r < rows)%nat -> (c < columns)%nat -> cell (zeros rows columns) r c = Some f64_zero.
Proof. intros Hr Hc. unfold cell, zeros. rewrite lookup_replicate_2 by done. simpl. by rewrite lookup_replicate_2. Qed.
Lemma shaped_cell rows columns mat r c : shaped rows columns mat -> is_Some (cell mat r c) <-> (r < rows)%nat /\ (c < columns)%nat.
Proof.
  intros [HL HF]. unfold cell. destruct (mat !! r) as [row|] eqn:E; simpl.
  - rewrite lookup_lt_is_Some, (Forall_lookup_1 _ _ _ _ HF E). apply lookup_lt_Some in E. naive_solver lia.
  - apply lookup_ge_None in E. split; [intros [? [=]]|lia].
Qed.
(** A write at one position. *)
Lemma cell_insert mat r c row x : mat !! r = Some row -> (c < length row)%nat ->
  forall r' c', cell (<[r := <[c := x]> row]> mat) r' c' = if decide (r' = r /\ c' = c) then Some x else cell mat r' c'.
Proof.
  intros Hr Hc r' c'. unfold cell. destruct (decide (r' = r)) as [->|Hn].
  - rewrite list_lookup_insert_eq by (by eapply lookup_lt_Some). simpl. destruct (decide (c' = c)) as [->|Hn'].
    + rewrite decide_True by done. by apply list_lookup_insert_eq.
    + rewrite decide_False by naive_solver. rewrite list_lookup_insert_ne by done. by rewrite Hr.
  - rewrite decide_False by naive_solver. by rewrite list_lookup_insert_ne.
Qed.
Lemma shaped_insert rows columns mat r row row' : shaped rows columns mat -> mat !! r = Some row -> length row' = length row ->
  shaped rows columns (<[r := row']> mat).
Proof.
  intros [HL HF] Hr Hl. split; [by rewrite length_insert|]. apply Forall_insert; [done|]. rewrite Hl. exact (Forall_lookup_1 _ _ _ _ HF Hr).
Qed.
Lemma add_at_spec rows columns mat r c x : shaped rows columns mat -> (r < rows)%nat -> (c < columns)%nat ->
  exists mat', add_at mat r c x = Ok mat' /\ shaped rows columns mat'
    /\ forall r' c', cell mat' r' c' = if decide (r' = r /\ c' = c) then (fun old => (old + x)%f64) <$> cell mat r c else cell mat r' c'.
Proof.
  intros HS Hr Hc. destruct (proj2 (shaped_cell rows columns mat r c HS) (conj Hr Hc)) as [old Hold]. unfold cell in Hold.
  destruct (mat !! r) as [row|] eqn:Er; [|done]. simpl in Hold. unfold add_at. rewrite Er. simpl. rewrite Hold. simpl.
  assert (Hl : (c < length row)%nat) by (by eapply lookup_lt_Some). eexists. split; [done|]. split.
  - eapply shaped_insert; [done..|]. by rewrite length_insert.
  - intros r' c'. rewrite (cell_insert mat r c row) by done. case_decide; [|done]. unfold cell. rewrite Er. simpl. by rewrite Hold.
Qed.
Lemma set_at_spec rows columns mat r c x : shaped rows columns mat -> (r < rows)%nat -> (c < columns)%nat ->
  exists mat', set_at mat r c x = Ok mat' /\ shaped rows columns mat'
    /\ forall r' c', cell mat' r' c' = if decide (r' = r /\ c' = c) then Some x else cell mat r' c'.
Proof.
  intros HS Hr Hc. destruct (proj2 (shaped_cell rows columns mat r c HS) (conj Hr Hc)) as [old Hold]. unfold cell in Hold.
  destruct (mat !! r) as [row|] eqn:Er; [|done]. simpl in Hold. unfold set_at. rewrite Er. simpl. rewrite Hold. simpl.
  assert (Hl : (c < length row)%nat) by (by eapply lookup_lt_Some). eexists. split; [done|]. split.
  - eapply shaped_insert; [done..|]. by rewrite length_insert.
  - intros r' c'. by rewrite (cell_insert mat r c row).
Qed.
Lemma settle_matrix_spec rows columns mat mat' : shaped rows columns mat -> settle_matrix mat = Ok mat' ->
  shaped rows columns mat' /\ forall r c, cell mat' r c = positive_zero <$> cell mat r c /\ forall x, cell mat' r c = Some x -> is_finite x = true.
Proof.
  intros [HL HF] Hs. apply mapR_ok in Hs. split.
  - split; [by rewrite <-(Forall2_length _ _ _ Hs)|]. apply Forall_forall. intros row' Hin. apply list_elem_of_lookup in Hin as [r Hr].
    apply (Forall2_lookup_r _ _ _ _ _ Hs) in Hr as (row & Hrow & Hm). apply mapR_ok, Forall2_length in Hm. rewrite <-Hm. by apply (Forall_lookup_1 _ _ _ _ HF Hrow).
  - intros r c. unfold cell. destruct (mat' !! r) as [row'|] eqn:Er.
    + apply (Forall2_lookup_r _ _ _ _ _ Hs) in Er as (row & Hrow & Hm). apply mapR_ok in Hm. rewrite Hrow. simpl.
      destruct (row' !! c) as [x'|] eqn:Ec.
      * apply (Forall2_lookup_r _ _ _ _ _ Hm) in Ec as (x & Hx & Hp). apply bind_ok in Hp as ([] & Hf & Hp). apply ensure_ok in Hf. inv_result.
        rewrite Hx. split; [done|]. intros y [= <-]. by apply positive_zero_ok.
      * apply lookup_ge_None in Ec. rewrite <-(Forall2_length _ _ _ Hm) in Ec. by rewrite lookup_ge_None_2.
    + apply lookup_ge_None in Er. rewrite <-(Forall2_length _ _ _ Hs) in Er. by rewrite (lookup_ge_None_2 mat).
Qed.

(** ** The axes have no duplicates *)

Lemma position_Some {A} (p : A -> bool) l r : position p l = Some r -> exists a, l !! r = Some a /\ p a = true.
Proof.
  unfold position. destruct (list_find _ l) as [[r' a]|] eqn:E; [|done]. simpl. intros [= ->]. apply list_find_Some in E as (Hl & Hp & _). by exists a.
Qed.
Lemma position_elem {A} (p : A -> bool) l a : a ∈ l -> p a = true -> is_Some (position p l).
Proof.
  intros Hin Hp. unfold position. destruct (list_find (fun a => p a = true) l) as [[r b]|] eqn:E; [by eexists|].
  apply list_find_None in E. rewrite Forall_forall in E. by apply E in Hin.
Qed.
(** Looking for the element with a key that occurs once. *)
Lemma position_unique {A K} (key : A -> K) k (p : A -> bool) l r : NoDup (key <$> l) -> (forall a, p a = true <-> key a = k) ->
  position p l = Some r -> forall r' a, l !! r' = Some a -> p a = true <-> r' = r.
Proof.
  intros HN Hp Hr r' a Ha. apply position_Some in Hr as (b & Hb & Hpb). split; [|intros ->; by simplify_eq].
  intros Hpa. apply Hp in Hpa, Hpb. eapply NoDup_lookup; [exact HN| |].
  - rewrite list_lookup_fmap, Ha. simpl. by rewrite Hpa.
  - rewrite list_lookup_fmap, Hb. simpl. by rewrite Hpb.
Qed.

Definition key_of_axis (a : InventoryAxis) : string * string * string := (ref_id (ax_flow a), ref_version (ax_flow a), ax_direction a).
Lemma axis_matches_key e a : axis_matches e a = true <-> key_of_axis a = axis_key e.
Proof.
  unfold axis_matches, key_of_axis, axis_key. rewrite andb_true_iff, !bool_decide_eq_true.
  destruct (ax_flow a), (ex_flow e); simpl. split; [by intros [[= -> ->] ->]|by intros [= -> -> ->]].
Qed.
Definition axis_of (e : StudyExchange) : InventoryAxis := mk_axis (ex_flow e) (ex_direction e) (ex_unit e).
Lemma inventory_fold (es : list StudyExchange) (acc : gmap (string * string * string) InventoryAxis) (P : InventoryAxis -> Prop) :
  (forall k a, acc !! k = Some a -> key_of_axis a = k /\ P a) -> (forall e, e ∈ es -> ex_kind e = "Elementary flow" -> P (axis_of e)) ->
  let m := foldl (fun acc e => if decide (ex_kind e = "Elementary flow")
                      then <[axis_key e := mk_axis (ex_flow e) (ex_direction e) (ex_unit e)]> acc else acc) acc es in
  (forall k a, m !! k = Some a -> key_of_axis a = k /\ P a)
  /\ (forall k, is_Some (acc !! k) -> is_Some (m !! k))
  /\ forall e, e ∈ es -> ex_kind e = "Elementary flow" -> is_Some (m !! axis_key e).
Proof.
  revert acc. induction es as [|e es IH]; intros acc Hacc HP; simpl.
  { split_and!; [done..|]. by intros e ?%elem_of_nil. }
  assert (HP' : forall e, e ∈ es -> ex_kind e = "Elementary flow" -> P (axis_of e)) by (intros e' He'; by apply HP, list_elem_of_further).
  destruct (decide (ex_kind e = "Elementary flow")) as [He|He].
  - destruct (IH (<[axis_key e := mk_axis (ex_flow e) (ex_direction e) (ex_unit e)]> acc)) as (H1 & H2 & H3); [|done|].
    { intros k a [[<- <-]|[_ Hk]]%lookup_insert_Some; [|by apply Hacc]. split; [done|]. apply HP; [apply list_elem_of_here|done]. }
    split_and!; [done| |].
    + intros k Hk. apply H2, lookup_insert_is_Some. destruct (decide (axis_key e = k)); auto.
    + intros e' [->|Hin]%elem_of_cons Hk; [|by apply H3]. apply H2. rewrite lookup_insert_eq. by eexists.
  - destruct (IH acc Hacc HP') as (H1 & H2 & H3). split_and!; [done..|]. intros e' [->|Hin]%elem_of_cons Hk; [done|by apply H3].
Qed.
(** The elementary exchanges of a model. *)
Definition elementary (m : NormalizedModel) (e : StudyExchange) : Prop :=
  exists i, i ∈ nm_instances m /\ e ∈ is_exchanges i /\ ex_kind e = "Elementary flow".
Lemma inventory_axes_spec m :
  NoDup (key_of_axis <$> inventory_axes m)
  /\ (forall e, elementary m e -> exists a, a ∈ inventory_axes m /\ axis_matches e a = true)
  /\ (forall a, a ∈ inventory_axes m -> exists e, elementary m e /\ a = axis_of e).
Proof.
  destruct (inventory_fold (nm_instances m ≫= is_exchanges) ∅ (fun a => exists e, elementary m e /\ a = axis_of e)) as (HK & _ & HE); [by intros k a ?| |].
  { intros e (i & He & Hi)%list_elem_of_bind Hk. exists e. split; [by exists i|done]. }
  fold (inventory_map m) in HK, HE.
  assert (HL : forall x, x ∈ map_to_list (inventory_map m) -> key_of_axis x.2 = x.1) by (intros [k a] Hx; apply elem_of_map_to_list in Hx; by apply HK).
  unfold inventory_axes. pose proof (sort_by_perm (cmp_by fst key_cmp3) (map_to_list (inventory_map m))) as HP. split_and!.
  - rewrite HP, <-list_fmap_compose. rewrite (list_fmap_ext (key_of_axis ∘ snd) fst); [apply NoDup_fst_map_to_list|].
    intros r x Hx. apply HL. by eapply list_elem_of_lookup_2.
  - intros e (i & Hi & He & Hk). destruct (HE e) as [a Ha]; [apply list_elem_of_bind; by exists i|done|]. exists a. split.
    + rewrite HP. apply list_elem_of_fmap. exists (axis_key e, a). split; [done|]. by apply elem_of_map_to_list.
    + apply axis_matches_key. by apply HK.
  - intros a. rewrite HP. intros ([k a'] & -> & Hin)%list_elem_of_fmap. apply elem_of_map_to_list, HK in Hin. apply Hin.
Qed.

(** ** What each cell is *)

(** The amount of an exchange for one unit of the view's pivot. *)
Definition scaled (v : View) (pivot_amount : f64) (es : StudyExchange * f64) : option f64 :=
  if decide (ex_id es.1 = po_exchange_id (vi_port v)) then None
  else match normalized_amount (ex_amount es.1) es.2 pivot_amount with Ok x => Some x | _ => None end.
(** What the exchange demands from view [u]. *)
Definition demand_term (m : NormalizedModel) (i : StudyInstance) (v : View) (pivot_amount : f64) (u : View) (es : StudyExchange * f64) : option f64 :=
  x ← scaled v pivot_amount es;
  if decide (ex_kind es.1 = "Elementary flow") then None
  else
    c ← connection_to m (mk_study_port (is_id i) (ex_id es.1));
    if decide (vi_port u = cn_supplier c)
    then match signed (ex_direction es.1) x with Ok s => Some (- s / vi_pivot u)%f64 | _ => None end
    else None.
(** What it adds to inventory axis [a]. *)
Definition inventory_term (v : View) (pivot_amount : f64) (a : InventoryAxis) (es : StudyExchange * f64) : option f64 :=
  x ← scaled v pivot_amount es;
  if decide (ex_kind es.1 = "Elementary flow" /\ axis_matches es.1 a = true) then Some x else None.
(** It is the pivot, elementary, supplied, or its boundary was declared. *)
Definition accounted_for (m : NormalizedModel) (i : StudyInstance) (v : View) (pivot_amount : f64) (es : StudyExchange * f64) : Prop :=
  ex_id es.1 = po_exchange_id (vi_port v)
  \/ exists x, scaled v pivot_amount es = Some x /\ is_finite x = true
     /\ let p := mk_study_port (is_id i) (ex_id es.1) in
        (ex_kind es.1 = "Elementary flow" \/ (is_Some (connection_to m p) /\ is_cut_off m p = false)
         \/ (x =? f64_zero)%f64 = true \/ is_cut_off m p = true \/ supplies m p = true).

Section Cells.
Context (m : NormalizedModel) (views : list View) (axes : list InventoryAxis).
Context (Hviews : NoDup (vi_port <$> views)) (Haxes : NoDup (key_of_axis <$> axes)).
Context (Hsuppliers : forall c, c ∈ nm_connections m -> cn_supplier c ∈ vi_port <$> views).

Definition column_of (i : StudyInstance) (v : View) (pivot_amount : f64) (column : nat) (ab0 : Matrix * Matrix) (pre : list (StudyExchange * f64))
    (ab : Matrix * Matrix) : Prop :=
  shaped (length views) (length views) ab.1 /\ shaped (length axes) (length views) ab.2
  /\ (forall r c, c <> column -> cell ab.1 r c = cell ab0.1 r c /\ cell ab.2 r c = cell ab0.2 r c)
  /\ (forall r u, views !! r = Some u ->
        cell ab.1 r column = (fun x => foldl f64_add x (omap (demand_term m i v pivot_amount u) pre)) <$> cell ab0.1 r column)
  /\ (forall r a, axes !! r = Some a ->
        cell ab.2 r column = (fun x => foldl f64_add x (omap (inventory_term v pivot_amount a) pre)) <$> cell ab0.2 r column)
  /\ Forall (accounted_for m i v pivot_amount) pre.

Lemma foldl_snoc_none (f : StudyExchange * f64 -> option f64) pre es x : f es = None ->
  foldl f64_add x (omap f (pre ++ [es])) = foldl f64_add x (omap f pre).
Proof. intros E. rewrite omap_app. simpl. rewrite E. by rewrite app_nil_r. Qed.
Lemma foldl_snoc_some (f : StudyExchange * f64 -> option f64) pre es x y : f es = Some y ->
  foldl f64_add x (omap f (pre ++ [es])) = (foldl f64_add x (omap f pre) + y)%f64.
Proof. intros E. rewrite omap_app. simpl. rewrite E. simpl. by rewrite foldl_app. Qed.

(** The exchange adds nothing to the matrices. *)
Lemma column_of_skip i v pa column ab0 pre ab es : column_of i v pa column ab0 pre ab ->
  (forall u, demand_term m i v pa u es = None) -> (forall a, inventory_term v pa a es = None) -> accounted_for m i v pa es ->
  column_of i v pa column ab0 (pre ++ [es]) ab.
Proof.
  intros (HA & HB & HO & HD & HI & HF) Hd Hi Hacc. split_and!; [done..| | |].
  - intros r u Hu. rewrite (HD r u Hu). destruct (cell ab0.1 r column); simpl; [|done]. by rewrite foldl_snoc_none.
  - intros r a Ha. rewrite (HI r a Ha). destruct (cell ab0.2 r column); simpl; [|done]. by rewrite foldl_snoc_none.
  - apply Forall_app. split; [done|by constructor].
Qed.
Lemma column_of_demand i v pa column ab0 pre ab es row u x : column_of i v pa column ab0 pre ab -> (column < length views)%nat ->
  views !! row = Some u -> demand_term m i v pa u es = Some x ->
  (forall r u', views !! r = Some u' -> r <> row -> demand_term m i v pa u' es = None) -> (forall a, inventory_term v pa a es = None) ->
  accounted_for m i v pa es ->
  exists a', add_at ab.1 row column x = Ok a' /\ column_of i v pa column ab0 (pre ++ [es]) (a', ab.2).
Proof.
  intros (HA & HB & HO & HD & HI & HF) Hc Hu Hx Hothers Hi Hacc. assert (Hr : (row < length views)%nat) by (by eapply lookup_lt_Some).
  destruct (add_at_spec _ _ _ row column x HA Hr Hc) as (a' & E & HS & HC). exists a'. split; [done|]. split_and!; simpl; [done..| | | |].
  - intros r c Hne. rewrite HC, decide_False by naive_solver. by apply HO.
  - intros r u' Hu'. rewrite HC. case_decide as Hd.
    + destruct Hd as [-> _]. rewrite Hu in Hu'. injection Hu' as <-. rewrite (HD row u Hu). destruct (cell ab0.1 row column); simpl; [|done].
      by rewrite (foldl_snoc_some _ _ _ _ x).
    + rewrite (HD r u' Hu'). destruct (cell ab0.1 r column); simpl; [|done]. rewrite foldl_snoc_none; [done|]. apply (Hothers r); naive_solver.
  - intros r a Ha. rewrite (HI r a Ha). destruct (cell ab0.2 r column); simpl; [|done]. by rewrite foldl_snoc_none.
  - apply Forall_app. split; [done|by constructor].
Qed.
Lemma column_of_inventory i v pa column ab0 pre ab es row a x : column_of i v pa column ab0 pre ab -> (column < length views)%nat ->
  axes !! row = Some a -> inventory_term v pa a es = Some x ->
  (forall r a', axes !! r = Some a' -> r <> row -> inventory_term v pa a' es = None) -> (forall u, demand_term m i v pa u es = None) ->
  accounted_for m i v pa es ->
  exists b', add_at ab.2 row column x = Ok b' /\ column_of i v pa column ab0 (pre ++ [es]) (ab.1, b').
Proof.
  intros (HA & HB & HO & HD & HI & HF) Hc Hu Hx Hothers Hd Hacc. assert (Hr : (row < length axes)%nat) by (by eapply lookup_lt_Some).
  destruct (add_at_spec _ _ _ row column x HB Hr Hc) as (b' & E & HS & HC). exists b'. split; [done|]. split_and!; simpl; [done..| | | |].
  - intros r c Hne. split; [by apply HO|]. rewrite HC, decide_False by naive_solver. by apply HO.
  - intros r u Hu'. rewrite (HD r u Hu'). destruct (cell ab0.1 r column); simpl; [|done]. by rewrite foldl_snoc_none.
  - intros r a' Ha'. rewrite HC. case_decide as Hdd.
    + destruct Hdd as [-> _]. rewrite Hu in Ha'. injection Ha' as <-. rewrite (HI row a Hu). destruct (cell ab0.2 row column); simpl; [|done].
      by rewrite (foldl_snoc_some _ _ _ _ x).
    + rewrite (HI r a' Ha'). destruct (cell ab0.2 r column); simpl; [|done]. rewrite foldl_snoc_none; [done|]. apply (Hothers r); naive_solver.
  - apply Forall_app. split; [done|by constructor].
Qed.

Lemma normalized_amount_no_panic amount share pivot : normalized_amount amount share pivot <> Panic.
Proof using. unfold normalized_amount, check. no_panic. Qed.
Lemma signed_no_panic d a : signed d a <> Panic.
Proof using. apply map_err_no_panic. unfold signed_coefficient. no_panic. Qed.
Lemma connection_to_supplier p c : connection_to m p = Some c -> cn_supplier c ∈ vi_port <$> views.
Proof using Hsuppliers. intros [Hc _]%find_some. apply Hsuppliers. by apply list_elem_of_In. Qed.

(** One exchange, on every branch. *)
Lemma compile_exchange_spec i v pa column ab0 pre ab es : column_of i v pa column ab0 pre ab -> (column < length views)%nat ->
  (ex_kind es.1 = "Elementary flow" -> exists a, a ∈ axes /\ axis_matches es.1 a = true) ->
  match compile_exchange m views axes i v pa column ab es with
  | Ok ab' => column_of i v pa column ab0 (pre ++ [es]) ab'
  | Err _ => True
  | Panic => False
  end.
Proof using Hviews Haxes Hsuppliers.
  intros Hcol Hc Haxis. unfold compile_exchange. destruct ab as [a b], es as [e share]; simpl in Haxis. cbn [fst snd].
  assert (Hscaled : forall x, ex_id e <> po_exchange_id (vi_port v) -> normalized_amount (ex_amount e) share pa = Ok x -> scaled v pa (e, share) = Some x).
  { intros x Hne Hx. unfold scaled. simpl. by rewrite decide_False, Hx. }
  destruct (decide (ex_id e = po_exchange_id (vi_port v))) as [Hp|Hp].
  { apply column_of_skip; [done|intros u|intros ax|by left]; [unfold demand_term|unfold inventory_term]; unfold scaled; simpl; by rewrite decide_True. }
  pose proof (normalized_amount_no_panic (ex_amount e) share pa) as Hnp.
  destruct (normalized_amount (ex_amount e) share pa) as [x|err|] eqn:Ex; [|done..]. specialize (Hscaled x Hp eq_refl). cbn [mbind result_bind].
  unfold check at 1, ensure. destruct (is_finite x) eqn:Hf; [|done]. cbn [mbind result_bind].
  set (p := mk_study_port (is_id i) (ex_id e)).
  assert (Hacc : ex_kind e = "Elementary flow" \/ (is_Some (connection_to m p) /\ is_cut_off m p = false)
         \/ (x =? f64_zero)%f64 = true \/ is_cut_off m p = true \/ supplies m p = true -> accounted_for m i v pa (e, share)).
  { intros HH. right. exists x. done. }
  destruct (decide (ex_kind e = "Elementary flow")) as [Hk|Hk].
  - assert (Hnd : forall u, demand_term m i v pa u (e, share) = None) by (intros u; unfold demand_term; rewrite Hscaled; simpl; by rewrite decide_True).
    destruct (Haxis Hk) as (ax & Hax & Hm). destruct (position_elem _ _ _ Hax Hm) as [row Hrow]. rewrite Hrow. cbn [unwrap mbind result_bind].
    pose proof (position_unique key_of_axis (axis_key e) _ _ _ Haxes (axis_matches_key e) Hrow) as Hu. apply position_Some in Hrow as (ax' & Hl & Hm').
    destruct (column_of_inventory i v pa column ab0 pre (a, b) (e, share) row ax' x) as (b' & Eb & Hcol'); [done..| | |done|by apply Hacc; left|].
    + unfold inventory_term. rewrite Hscaled. simpl. by rewrite decide_True.
    + intros r a' Ha' Hne. unfold inventory_term. rewrite Hscaled. simpl. rewrite decide_False; [done|]. intros [_ Hx]. by apply (Hu r a' Ha') in Hx.
    + simpl in Eb. by rewrite Eb.
  - assert (Hni : forall ax, inventory_term v pa ax (e, share) = None).
    { intros ax. unfold inventory_term. rewrite Hscaled. simpl. rewrite decide_False; [done|]. by intros [? _]. }
    destruct (connection_to m p) as [c|] eqn:Hconn.
    + unfold check, ensure. destruct (is_cut_off m p) eqn:Hcut; [done|]. cbn [negb mbind result_bind].
      pose proof (connection_to_supplier p c Hconn) as Hs. apply list_elem_of_fmap in Hs as (u & Hu & Hin).
      destruct (position_elem (fun v => bool_decide (vi_port v = cn_supplier c)) views u Hin) as [row Hrow]; [by apply bool_decide_eq_true|].
      rewrite Hrow. cbn [unwrap mbind result_bind]. pose proof (signed_no_panic (ex_direction e) x) as Hsn.
      destruct (signed (ex_direction e) x) as [s|err|] eqn:Es; [|done..]. cbn [mbind result_bind].
      assert (Hun := position_unique vi_port (cn_supplier c) _ _ _ Hviews (fun a => bool_decide_eq_true _) Hrow).
      apply position_Some in Hrow as (w & Hl & Hw%bool_decide_eq_true). rewrite Hl. cbn [unwrap mbind result_bind].
      destruct (column_of_demand i v pa column ab0 pre (a, b) (e, share) row w (- s / vi_pivot w)%f64) as (a' & Ea & Hcol'); [done..| | |done|by apply Hacc; right; left|].
      * unfold demand_term. rewrite Hscaled. simpl. rewrite decide_False by done. fold p. rewrite Hconn. simpl. by rewrite decide_True, Es.
      * intros r w' Hw' Hne. unfold demand_term. rewrite Hscaled. simpl. rewrite decide_False by done. fold p. rewrite Hconn. simpl.
        rewrite decide_False; [done|]. intros Hx. apply Hne, (Hun r w' Hw'). by apply bool_decide_eq_true.
      * simpl in Ea. by rewrite Ea.
    + assert (Hnd : forall u, demand_term m i v pa u (e, share) = None).
      { intros u. unfold demand_term. rewrite Hscaled. simpl. rewrite decide_False by done. fold p. by rewrite Hconn. }
      destruct (x =? f64_zero)%f64 eqn:Hz; cbn [negb mbind result_bind]; [apply column_of_skip; auto|].
      unfold check, ensure. destruct (is_cut_off m p || supplies m p) eqn:Hb; [|done]. cbn [mbind result_bind].
      apply orb_true_iff in Hb. apply column_of_skip; [done..|]. apply Hacc. tauto.
Qed.

Context (show_f64 : f64 -> string).
Context (Hcover : forall e, elementary m e -> exists a, a ∈ axes /\ axis_matches e a = true).

Lemma fractions_spec i pivot :
  match fractions show_f64 i pivot with Ok shares => length shares = length (is_exchanges i) | Err _ => True | Panic => False end.
Proof using.
  unfold fractions. pose proof (process_allocation_no_panic show_f64 (allocation_row <$> is_exchanges i) pivot) as Hnp.
  destruct (resolve_tidas_process_allocations show_f64 (allocation_row <$> is_exchanges i) pivot) as [r|e|] eqn:Er; [|done..].
  destruct (process_allocation_ok show_f64 (allocation_row <$> is_exchanges i) pivot r Er) as (_ & _ & Hlen & _ & Hidx). rewrite length_fmap in Hlen.
  cbn [map_err mbind result_bind].
  match goal with |- match ?f ≫= ?k with _ => _ end => assert (Hf : f <> Panic) end.
  { apply foldM_no_panic. intros index [] Hin. apply Hidx in Hin as (row & id & Hrow & _). rewrite list_lookup_fmap in Hrow.
    destruct (is_exchanges i !! index); [|done]. unfold check. cbn. no_panic. }
  destruct (foldM _ _ tt) as [[]|err|]; [|done..]. cbn [mbind result_bind].
  match goal with |- match ?f ≫= ?k with _ => _ end => destruct f as [[]|err|] eqn:Ec end; [|done|by destruct (negb _) in Ec; [apply ensure_no_panic in Ec|]].
  cbn [mbind result_bind]. destruct (mapR _ _) as [shares|err|] eqn:Em; [|done|].
  - apply mapR_ok, Forall2_length in Em. unfold enumerate in Em. rewrite length_imap in Em. congruence.
  - exfalso. revert Em. apply mapR_no_panic. intros [index res] Hin. unfold enumerate in Hin. apply elem_of_lookup_imap in Hin as (k & y & [= -> ->] & Hk).
    apply lookup_lt_Some in Hk. rewrite Hlen in Hk. apply lookup_lt_is_Some in Hk as [e He]. simpl. rewrite He. done.
Qed.
Lemma instance_at_elem p i : instance_at m p = Ok i -> i ∈ nm_instances m /\ is_id i = po_instance_id p.
Proof using. unfold instance_at. destruct (instance_named _ _) as [j|] eqn:E; [|done]. intros [= <-]. by apply instance_named_elem. Qed.

(** A finished column, each cell passed through [settle]. *)
Definition column_spec (settle : f64 -> f64) (ab : Matrix * Matrix) (j : nat) (v : View) : Prop :=
  exists i pivot shares,
    instance_at m (vi_port v) = Ok i /\ exchange_at m (vi_port v) = Ok pivot
    /\ fractions show_f64 i (po_exchange_id (vi_port v)) = Ok shares /\ length shares = length (is_exchanges i)
    /\ (forall r u, views !! r = Some u ->
          cell ab.1 r j = Some (settle (foldl f64_add f64_zero (omap (demand_term m i v (f64_abs (ex_amount pivot)) u) (zip (is_exchanges i) shares)))))
    /\ (forall r a, axes !! r = Some a ->
          cell ab.2 r j = Some (settle (foldl f64_add f64_zero (omap (inventory_term v (f64_abs (ex_amount pivot)) a) (zip (is_exchanges i) shares)))))
    /\ Forall (accounted_for m i v (f64_abs (ex_amount pivot))) (zip (is_exchanges i) shares).
Definition columns_done (pre : list (nat * View)) (ab : Matrix * Matrix) : Prop :=
  shaped (length views) (length views) ab.1 /\ shaped (length axes) (length views) ab.2
  /\ (forall j v, (j, v) ∈ pre -> column_spec (fun x => x) ab j v)
  /\ (forall j, j ∉ pre.*1 -> (j < length views)%nat ->
        (forall r u, views !! r = Some u -> cell ab.1 r j = Some f64_zero) /\ (forall r a, axes !! r = Some a -> cell ab.2 r j = Some f64_zero)).

Lemma view_loop i v pa column ab0 l : i ∈ nm_instances m -> (forall es, es ∈ l -> es.1 ∈ is_exchanges i) -> (column < length views)%nat ->
  shaped (length views) (length views) ab0.1 -> shaped (length axes) (length views) ab0.2 ->
  match foldM (compile_exchange m views axes i v pa column) l ab0 with
  | Ok ab => column_of i v pa column ab0 l ab
  | Err _ => True
  | Panic => False
  end.
Proof using Hviews Haxes Hsuppliers Hcover.
  intros Hi Hl Hc HA HB. assert (H0 : column_of i v pa column ab0 [] ab0).
  { split_and!; try done; [intros r u _|intros r a _]; simpl; by rewrite option_fmap_id. }
  apply foldM_prefix; [done|]. intros pre es post ab -> Hcol. apply compile_exchange_spec; [done..|].
  intros Hk. apply Hcover. exists i. split_and!; [done|apply Hl, elem_of_app; right; apply list_elem_of_here|done].
Qed.

(** One view: its column is as specified, the others are left alone. *)
Lemma compile_view_spec pre ab j v : columns_done pre ab -> views !! j = Some v -> j ∉ pre.*1 ->
  (forall j' w, (j', w) ∈ pre -> views !! j' = Some w) ->
  match compile_view show_f64 m views axes ab (j, v) with
  | Ok ab' => columns_done (pre ++ [(j, v)]) ab'
  | Err _ => True
  | Panic => False
  end.
Proof using Hviews Haxes Hsuppliers Hcover.
  intros (HA & HB & HD & HZ) Hv Hj Hpre. unfold compile_view. cbn [fst snd]. assert (Hlt : (j < length views)%nat) by (by eapply lookup_lt_Some).
  assert (Hnp : instance_at m (vi_port v) <> Panic /\ exchange_at m (vi_port v) <> Panic).
  { unfold exchange_at, instance_at. split; no_panic. }
  destruct (instance_at m (vi_port v)) as [i|e|] eqn:Ei; [|done|by destruct Hnp]. cbn [mbind result_bind].
  destruct (exchange_at m (vi_port v)) as [pivot|e|] eqn:Ep; [|done|by destruct Hnp]. cbn [mbind result_bind].
  pose proof (fractions_spec i (po_exchange_id (vi_port v))) as Hfr.
  destruct (fractions show_f64 i (po_exchange_id (vi_port v))) as [shares|e|] eqn:Ef; [|done..]. cbn [mbind result_bind].
  destruct (instance_at_elem _ _ Ei) as [Hi _].
  pose proof (view_loop i v (f64_abs (ex_amount pivot)) j ab (zip (is_exchanges i) shares) Hi) as Hloop.
  destruct (foldM _ _ ab) as [ab'|e|]; [|done|apply Hloop; try done; intros [e s] Hin; by eapply elem_of_zip_l].
  destruct Hloop as (HA' & HB' & HO & Hdem & Hinv & Hacc); [intros [e s] Hin; by eapply elem_of_zip_l|done..|].
  destruct (HZ j Hj Hlt) as [HZa HZb]. split_and!; [done..| |].
  - intros j' w [Hin|[= -> ->]%list_elem_of_singleton]%elem_of_app.
    + assert (Hne : j' <> j) by (intros ->; apply Hj; by apply (list_elem_of_fmap_2 fst _ _ Hin)).
      destruct (HD j' w Hin) as (i' & p' & s' & H1 & H2 & H3 & H4 & H5 & H6 & H7). exists i', p', s'. split_and!; try done.
      * intros r u Hu. rewrite (proj1 (HO r j' Hne)). by apply H5.
      * intros r a Ha. rewrite (proj2 (HO r j' Hne)). by apply H6.
    + exists i, pivot, shares. split_and!; try done.
      * intros r u Hu. rewrite (Hdem r u Hu), (HZa r u Hu). done.
      * intros r a Ha. rewrite (Hinv r a Ha), (HZb r a Ha). done.
  - intros j' Hj' Hlt'. rewrite fmap_app in Hj'. assert (Hne : j' <> j) by (intros ->; apply Hj'; apply elem_of_app; right; apply list_elem_of_here).
    destruct (HZ j') as [HZa' HZb']; [intros Hin; apply Hj'; apply elem_of_app; by left|done|].
    split; [intros r u Hu; rewrite (proj1 (HO r j' Hne)); by apply (HZa' r u)|intros r a Ha; rewrite (proj2 (HO r j' Hne)); by apply (HZb' r a)].
Qed.

(** All views. *)
Lemma compile_views_spec :
  match foldM (compile_view show_f64 m views axes) (enumerate views) (zeros (length views) (length views), zeros (length axes) (length views)) with
  | Ok ab => columns_done (enumerate views) ab
  | Err _ => True
  | Panic => False
  end.
Proof using Hviews Haxes Hsuppliers Hcover.
  assert (H0 : columns_done [] (zeros (length views) (length views), zeros (length axes) (length views))).
  { split_and!; try apply shaped_zeros; [by intros j v ?%elem_of_nil|]. intros j _ Hj.
    split; [intros r u Hu|intros r a Ha]; apply cell_zeros; try done; by eapply lookup_lt_Some. }
  apply foldM_prefix; [done|]. intros pre [j v] post ab E Hdone. destruct (enumerate_middle _ _ _ _ _ E) as (Hj & Hv & Hpre).
  apply compile_view_spec; [done..| |intros j' w Hin; by apply Hpre].
  intros ([j' w] & -> & Hin)%list_elem_of_fmap. apply Hpre in Hin as [Hlt _]. simpl in Hlt. lia.
Qed.
End Cells.

(** ** The factors *)

Definition selected (factors : list Factor) (a : InventoryAxis) : list Factor := filter (fun f => factor_matches a f = true) factors.
(** The method's factor for an inventory axis. *)
Definition factor_cell (factors : list Factor) (a : InventoryAxis) : f64 :=
  match selected factors a with f :: _ => fc_value f | [] => f64_zero end.
Definition gap_at (method_refs : list DatasetRef) (row : nat) (factors : list Factor) (ja : nat * InventoryAxis) : option CoverageGap :=
  match selected factors ja.2 with f :: _ => None | [] => (fun m => mk_gap m ja.1) <$> method_refs !! row end.
(** The inventory axes a method has no factor for. *)
Definition gaps_of (method_refs : list DatasetRef) (axes : list InventoryAxis) (rf : nat * list Factor) : list CoverageGap :=
  omap (gap_at method_refs rf.1 rf.2) (enumerate axes).

Section Factors.
Context (method_refs : list DatasetRef) (axes : list InventoryAxis) (k : nat).

Definition factors_at (row : nat) (factors : list Factor) (c0 : Matrix) (cov0 : list CoverageGap) (pre : list (nat * InventoryAxis))
    (acc : Matrix * list CoverageGap) : Prop :=
  shaped k (length axes) acc.1
  /\ (forall j a, (j, a) ∈ pre -> cell acc.1 row j = Some (factor_cell factors a) /\ (length (selected factors a) <= 1)%nat)
  /\ (forall r j, r <> row \/ j ∉ pre.*1 -> cell acc.1 r j = cell c0 r j)
  /\ acc.2 = cov0 ++ omap (gap_at method_refs row factors) pre.

Lemma compile_factor_spec row factors c0 cov0 : (row < k)%nat -> (row < length method_refs)%nat -> shaped k (length axes) c0 ->
  (forall j, (j < length axes)%nat -> cell c0 row j = Some f64_zero) ->
  match compile_factors method_refs axes (c0, cov0) (row, factors) with
  | Ok acc => factors_at row factors c0 cov0 (enumerate axes) acc
  | Err _ => True
  | Panic => False
  end.
Proof using.
  intros Hr Hm HS HZ. unfold compile_factors. cbn [fst snd]. apply foldM_prefix.
  { split_and!; simpl; [done| |done|by rewrite app_nil_r]. by intros j a ?%elem_of_nil. }
  intros pre [j a] post [c cov] E (HC & HP & HO & Hcov). destruct (enumerate_middle _ _ _ _ _ E) as (Hj & Ha & Hpre).
  assert (Hlt : (j < length axes)%nat) by (by eapply lookup_lt_Some).
  assert (Hn : j ∉ pre.*1). { intros ([j' w] & -> & Hin)%list_elem_of_fmap. apply Hpre in Hin as [Hx _]. simpl in Hx. lia. }
  unfold compile_factor. cbn [fst snd]. fold (selected factors a). unfold check at 1, ensure.
  destruct (length (selected factors a) <=? 1)%nat eqn:Hle; [|done]. apply Nat.leb_le in Hle. cbn [mbind result_bind].
  simpl in Hcov, HP, HO, HC. destruct (selected factors a) as [|f fs] eqn:Es.
  - destruct (proj2 (lookup_lt_is_Some method_refs row) Hm) as [m Em]. rewrite Em. cbn [unwrap mbind result_bind]. split_and!; simpl; [done| | |].
    + intros j' a' [Hin|[= -> ->]%list_elem_of_singleton]%elem_of_app; [by apply HP|]. unfold factor_cell. rewrite Es. split; [|simpl; lia].
      rewrite HO by (by right). by apply HZ.
    + intros r j' Hne. apply HO. destruct Hne as [?|Hne]; [by left|right]. rewrite fmap_app in Hne. intros Hin. apply Hne, elem_of_app. by left.
    + rewrite omap_app, app_assoc. simpl. unfold gap_at at 2. simpl. rewrite Es, Em. simpl. by rewrite Hcov.
  - unfold check, ensure. destruct (is_finite (fc_value f)); [|done]. cbn [mbind result_bind].
    destruct (set_at_spec k (length axes) c row j (fc_value f) HC Hr Hlt) as (c' & Ec & HC' & Hcell). rewrite Ec. cbn [mbind result_bind].
    split_and!; simpl; [done| | |].
    + intros j' a' [Hin|[= -> ->]%list_elem_of_singleton]%elem_of_app.
      * rewrite Hcell, decide_False; [by apply HP|]. intros [_ ->]. apply Hn. by apply (list_elem_of_fmap_2 fst _ _ Hin).
      * rewrite Hcell, decide_True by done. unfold factor_cell. rewrite Es. split; [done|lia].
    + intros r j' Hne. rewrite fmap_app in Hne. rewrite Hcell, decide_False.
      * apply HO. destruct Hne as [?|Hne]; [by left|right]. intros Hin. apply Hne, elem_of_app. by left.
      * intros [-> ->]. destruct Hne as [Hne|Hne]; [done|]. apply Hne, elem_of_app. right. apply list_elem_of_here.
    + rewrite omap_app, app_assoc. simpl. unfold gap_at at 2. simpl. rewrite Es. by rewrite Hcov, app_nil_r.
Qed.

(** All methods: each cell is the factor, and what has none is a gap. *)
Definition methods_done (pre : list (nat * list Factor)) (acc : Matrix * list CoverageGap) : Prop :=
  shaped k (length axes) acc.1
  /\ (forall r factors j a, (r, factors) ∈ pre -> axes !! j = Some a ->
        cell acc.1 r j = Some (factor_cell factors a) /\ (length (selected factors a) <= 1)%nat)
  /\ (forall r j, r ∉ pre.*1 -> cell acc.1 r j = cell (zeros k (length axes)) r j)
  /\ acc.2 = pre ≫= gaps_of method_refs axes.
Lemma compile_methods_spec factors : length factors = k -> length method_refs = k ->
  match foldM (compile_factors method_refs axes) (enumerate factors) (zeros k (length axes), []) with
  | Ok acc => methods_done (enumerate factors) acc
  | Err _ => True
  | Panic => False
  end.
Proof using.
  intros Hk Hm. apply foldM_prefix.
  { split_and!; simpl; [apply shaped_zeros| |done|done]. by intros r fs j a ?%elem_of_nil. }
  intros pre [r fs] post [c cov] E (HC & HP & HO & Hcov). destruct (enumerate_middle _ _ _ _ _ E) as (Hr & Hf & Hpre). simpl in HC, HP, HO, Hcov.
  assert (Hlt : (r < k)%nat) by (rewrite <-Hk; by eapply lookup_lt_Some).
  assert (Hn : r ∉ pre.*1). { intros ([r' w] & -> & Hin)%list_elem_of_fmap. apply Hpre in Hin as [Hx _]. simpl in Hx. lia. }
  pose proof (compile_factor_spec r fs c cov Hlt ltac:(lia) HC) as Hrow. 
  destruct (compile_factors method_refs axes (c, cov) (r, fs)) as [acc|e|]; [|done|apply Hrow; intros j Hj; rewrite HO by done; by apply cell_zeros].
  destruct Hrow as (HC' & HP' & HO' & Hcov'); [intros j Hj; rewrite HO by done; by apply cell_zeros|]. split_and!; [done| | |].
  - intros r' fs' j a [Hin|[= -> ->]%list_elem_of_singleton]%elem_of_app Ha.
    + rewrite HO'; [by apply HP|]. left. intros ->. apply Hn. by apply (list_elem_of_fmap_2 fst _ _ Hin).
    + apply HP'. by apply elem_of_enumerate.
  - intros r' j Hne. rewrite fmap_app in Hne. rewrite HO'.
    + apply HO. intros Hin. apply Hne, elem_of_app. by left.
    + left. intros ->. apply Hne, elem_of_app. right. apply list_elem_of_here.
  - rewrite Hcov', Hcov, bind_app. simpl. by rewrite app_nil_r.
Qed.
End Factors.

(** ** The views *)

(** What a connection of a compiled study joins. *)
Definition connection_joins (m : NormalizedModel) (c : Connection) : Prop :=
  exists supplier consumer, exchange_at m (cn_supplier c) = Ok supplier /\ exchange_at m (cn_consumer c) = Ok consumer
    /\ ex_flow supplier = ex_flow consumer /\ ex_unit_identity supplier = ex_unit_identity consumer /\ ex_unit supplier = ex_unit consumer
    /\ ex_kind supplier <> "Elementary flow" /\ ex_kind consumer <> "Elementary flow".
Lemma check_connection_ok m ports c ports' : check_connection m ports c = Ok ports' -> connection_joins m c /\ ports' = {[cn_supplier c]} ∪ ports.
Proof.
  unfold check_connection. intros (supplier & Hs & H)%bind_ok. apply bind_ok in H as (consumer & Hc & H). apply bind_ok in H as ([] & Hid & H).
  apply bind_ok in H as (i & _ & H). apply bind_ok in H as ([] & _ & H). apply bind_ok in H as (s & _ & H). apply bind_ok in H as (d & _ & H).
  apply bind_ok in H as ([] & _ & H). inv_result. split; [|done]. exists supplier, consumer. apply ensure_ok in Hid.
  rewrite !andb_true_iff, !negb_true_iff, !bool_decide_eq_true, !bool_decide_eq_false in Hid. tauto.
Qed.
Lemma check_connection_no_panic m ports c : check_connection m ports c <> Panic.
Proof.
  unfold check_connection, exchange_at, instance_at, check. pose proof signed_no_panic. no_panic.
Qed.
Lemma view_of_ok m p v : view_of m p = Ok v -> vi_port v = p.
Proof.
  unfold view_of. intros (e & _ & H)%bind_ok. apply bind_ok in H as ([] & _ & H). apply bind_ok in H as (raw & _ & H).
  apply bind_ok in H as (pivot & _ & H). by inv_result.
Qed.
Lemma view_of_no_panic m p : view_of m p <> Panic.
Proof.
  unfold view_of, exchange_at, instance_at, check, normalize_reference_coefficient. pose proof signed_no_panic.
  apply bind_no_panic; [no_panic|]. intros e _. apply bind_no_panic; [no_panic|]. intros _ _. apply bind_no_panic; [done|]. intros raw _.
  apply bind_no_panic; [apply map_err_no_panic; no_panic|done].
Qed.

(** The ports with a column: every reference and every supplier, once, in order. *)
Definition ports_exact (m : NormalizedModel) (ports : list Port) : Prop :=
  NoDup ports /\ StronglySorted (fun p q => Prelude.not_gt port_cmp p q = true) ports
  /\ forall p, p ∈ ports <-> p ∈ reference_port <$> nm_instances m \/ p ∈ cn_supplier <$> nm_connections m.
Lemma view_ports_spec m :
  match view_ports m with
  | Ok ports => ports_exact m ports /\ Forall (connection_joins m) (nm_connections m)
  | Err _ => True
  | Panic => False
  end.
Proof.
  unfold view_ports. set (inv := fun pre (ports : gset Port) => Forall (connection_joins m) pre
      /\ forall p, p ∈ ports <-> p ∈ reference_port <$> nm_instances m \/ p ∈ cn_supplier <$> pre).
  assert (HF : match foldM (check_connection m) (nm_connections m) (list_to_set (reference_port <$> nm_instances m)) with
               | Ok ports => inv (nm_connections m) ports | Err _ => True | Panic => False end).
  { apply foldM_prefix.
    - split; [constructor|]. intros p. rewrite elem_of_list_to_set. simpl. rewrite elem_of_nil. tauto.
    - intros pre c post ports E [HJ HP]. pose proof (check_connection_no_panic m ports c). destruct (check_connection m ports c) as [ports'|e|] eqn:Ec; [|done..].
      apply check_connection_ok in Ec as [Hc ->]. split; [apply Forall_app; by repeat constructor|]. intros p.
      rewrite fmap_app, elem_of_union, elem_of_singleton, HP, elem_of_app. simpl. rewrite list_elem_of_singleton. naive_solver. }
  destruct (foldM _ _ _) as [ports|e|]; cbn [mbind result_bind]; [|done..]. destruct HF as [HJ HP]. split; [|done].
  pose proof (sort_by_perm port_cmp (elements ports)) as Hperm. split_and!.
  - rewrite Hperm. apply NoDup_elements.
  - apply sort_by_sorted'. apply _.
  - intros p. rewrite Hperm, elem_of_elements. apply HP.
Qed.

(** ** The matrices of a study *)

Record compiled (show_f64 : f64 -> string) (method_refs : list DatasetRef) (binding : option StudyBinding) (methods : VerifiedMethods) (bounds : Bounds)
    (m : NormalizedModel) (n : NumericInput) (coverage : list CoverageGap) : Prop := {
  cp_ports : ports_exact m (vi_port <$> nu_views n);
  cp_views : Forall (fun v => view_of m (vi_port v) = Ok v) (nu_views n);
  cp_connections : Forall (connection_joins m) (nm_connections m);
  cp_axes : nu_inventory_axes n = inventory_axes m /\ nu_inventory_axes n <> [];
  cp_method_axes : nu_method_axes n = vm_axes methods;
  cp_a : shaped (length (nu_views n)) (length (nu_views n)) (nu_a n);
  cp_b : shaped (length (nu_inventory_axes n)) (length (nu_views n)) (nu_b n);
  cp_c : shaped (length (nu_method_axes n)) (length (nu_inventory_axes n)) (nu_c n);
  cp_columns : forall j v, nu_views n !! j = Some v ->
    column_spec m (nu_views n) (nu_inventory_axes n) show_f64 positive_zero (nu_a n, nu_b n) j v;
  cp_factors : forall r factors j a, vm_factors methods !! r = Some factors -> nu_inventory_axes n !! j = Some a ->
    cell (nu_c n) r j = Some (positive_zero (factor_cell factors a)) /\ (length (selected factors a) <= 1)%nat;
  cp_coverage : coverage = enumerate (vm_factors methods) ≫= gaps_of method_refs (nu_inventory_axes n);
  cp_demand : exists j demand, nu_views n !! j = Some (nu_reference n) /\ vi_port (nu_reference n) = nm_reference m
    /\ study_demand bounds method_refs (nu_reference n) binding = Ok demand
    /\ nu_y n = <[j := demand]> (replicate (length (nu_views n)) f64_zero);
  cp_finite : forall mat r j x, mat ∈ [nu_a n; nu_b n; nu_c n] -> cell mat r j = Some x -> is_finite x = true;
  cp_cells : exists cells, dense_cells (Z.of_nat (length (nu_views n))) (Z.of_nat (length (nu_inventory_axes n))) (Z.of_nat (length (nu_method_axes n))) = Ok cells
    /\ cells <= bo_max_dense_cells bounds /\ saturating_mul cells 64 <= bo_max_owned_bytes bounds;
  cp_limits : Z.of_nat (length (nu_views n)) <= bo_max_views bounds
    /\ nonzeros [nu_a n; nu_b n; nu_c n] <= bo_max_nonzeros bounds;
}.
Lemma settled_column m views axes show_f64 a b a' b' j v :
  (forall r c, cell a' r c = positive_zero <$> cell a r c) -> (forall r c, cell b' r c = positive_zero <$> cell b r c) ->
  column_spec m views axes show_f64 (fun x => x) (a, b) j v -> column_spec m views axes show_f64 positive_zero (a', b') j v.
Proof.
  intros Ha Hb (i & pivot & shares & H1 & H2 & H3 & H4 & H5 & H6 & H7). exists i, pivot, shares. split_and!; try done; simpl.
  - intros r u Hu. rewrite Ha. specialize (H5 r u Hu). simpl in H5. by rewrite H5.
  - intros r u Hu. rewrite Hb. specialize (H6 r u Hu). simpl in H6. by rewrite H6.
Qed.
Lemma views_of_ports m ports views : mapR (view_of m) ports = Ok views -> vi_port <$> views = ports /\ Forall (fun v => view_of m (vi_port v) = Ok v) views.
Proof.
  intros Hm%mapR_ok. induction Hm as [|p v ports views Hv _ [IH1 IH2]]; [done|]. pose proof (view_of_ok _ _ _ Hv) as Hp. rewrite fmap_cons, Hp, IH1.
  split; [done|]. constructor; [by rewrite Hp|done].
Qed.
Lemma study_demand_no_panic bounds refs v b : study_demand bounds refs v b <> Panic.
Proof. unfold study_demand, check_binding, check. no_panic. Qed.
Lemma dense_cells_no_panic n m k : dense_cells n m k <> Panic.
Proof. unfold dense_cells, check. no_panic. Qed.
Lemma settle_matrix_no_panic mat : settle_matrix mat <> Panic.
Proof. apply mapR_no_panic. intros row _. apply mapR_no_panic. intros x _. unfold check. no_panic. Qed.
Lemma reference_indexed m (views : list View) : model_wf m -> ports_exact m (vi_port <$> views) ->
  exists r v, position (fun v => bool_decide (vi_port v = nm_reference m)) views = Some r /\ views !! r = Some v /\ vi_port v = nm_reference m.
Proof.
  intros Hwf (_ & _ & HP). destruct (wf_reference _ Hwf) as (i & Hi & Href).
  assert (Hin : nm_reference m ∈ vi_port <$> views) by (apply HP; left; rewrite Href; by apply list_elem_of_fmap_2).
  apply list_elem_of_fmap in Hin as (v & Hv & Hin). destruct (position_elem (fun v => bool_decide (vi_port v = nm_reference m)) views v Hin) as [r Hr]; [by apply bool_decide_eq_true|].
  destruct (position_Some _ _ _ Hr) as (w & Hw & Hb%bool_decide_eq_true). by exists r, w.
Qed.

Lemma owned_cells source_bytes owned cells limit : 0 <= source_bytes -> 0 <= owned ->
  saturating_add (saturating_add (saturating_mul source_bytes 8) owned) (saturating_mul cells 64) <= limit -> saturating_mul cells 64 <= limit.
Proof. unfold saturating_add, saturating_mul, USIZE_MAX, U64_MAX. lia. Qed.

Section Compiled.
Context (show_f64 : f64 -> string) (source_bytes owned : Z) (method_refs : list DatasetRef) (binding : option StudyBinding) (methods : VerifiedMethods) (bounds : Bounds).
Context (m : NormalizedModel) (Hwf : model_wf m) (Hsource : 0 <= source_bytes) (Howned : 0 <= owned).
Context (Hfactors : length (vm_factors methods) = length (vm_axes methods)) (Hrefs : length method_refs = length (vm_axes methods)).

(** The last steps: finite cells without negative zeros, and the limit on nonzeros. *)
Lemma compiled_intro views a b c coverage r w demand a' b' c' : let axes := inventory_axes m in
  ports_exact m (vi_port <$> views) -> Forall (fun v => view_of m (vi_port v) = Ok v) views -> Forall (connection_joins m) (nm_connections m) ->
  (exists cells, dense_cells (Z.of_nat (length views)) (Z.of_nat (length axes)) (Z.of_nat (length (vm_axes methods))) = Ok cells
    /\ cells <= bo_max_dense_cells bounds /\ saturating_mul cells 64 <= bo_max_owned_bytes bounds) ->
  Z.of_nat (length views) <= bo_max_views bounds -> axes <> [] -> columns_done m views axes show_f64 (enumerate views) (a, b) ->
  views !! r = Some w -> vi_port w = nm_reference m -> study_demand bounds method_refs w binding = Ok demand ->
  methods_done method_refs axes (length (vm_axes methods)) (enumerate (vm_factors methods)) (c, coverage) ->
  settle_matrix a = Ok a' -> settle_matrix b = Ok b' -> settle_matrix c = Ok c' -> nonzeros [a'; b'; c'] <= bo_max_nonzeros bounds ->
  compiled show_f64 method_refs binding methods bounds m
    (mk_numeric views axes (vm_axes methods) w a' b' c' (<[r := demand]> (replicate (length views) f64_zero))) coverage.
Proof using.
  intros axes Hp HV HJ Hcells Hlim Hne (HA & HB & HD & _) Hw Hwp Hdem (HC & HF & _ & HG) Ea Eb Ec Hnz.
  destruct (settle_matrix_spec _ _ _ _ HA Ea) as [HA' Ha']. destruct (settle_matrix_spec _ _ _ _ HB Eb) as [HB' Hb']. destruct (settle_matrix_spec _ _ _ _ HC Ec) as [HC' Hc'].
  split; simpl; try done.
  - intros j v Hv. eapply settled_column; [intros; apply Ha'|intros; apply Hb'|]. by apply HD, elem_of_enumerate.
  - intros rr factors j ax Hf Hax. rewrite (proj1 (Hc' rr j)). destruct (HF rr factors j ax) as [Hcell Hlen]; [by apply elem_of_enumerate|done|].
    rewrite Hcell. done.
  - by exists r, demand.
  - intros mat rr j x Hin. rewrite !elem_of_cons in Hin. destruct Hin as [-> |[-> |[-> |Hin]]]; [apply Ha'|apply Hb'|apply Hc'|by apply elem_of_nil in Hin].
Qed.
Lemma compile_model_spec :
  match compile_model show_f64 source_bytes owned method_refs binding methods bounds m with
  | Ok (n, coverage) => compiled show_f64 method_refs binding methods bounds m n coverage
  | Err _ => True
  | Panic => False
  end.
Proof using Hwf Hfactors Hrefs Hsource Howned.
  unfold compile_model. pose proof (view_ports_spec m) as Hp. destruct (view_ports m) as [ports|e|]; [|done..]. destruct Hp as [Hp HJ]. cbn [mbind result_bind].
  unfold check at 1, ensure. destruct (Z.of_nat (length ports) <=? bo_max_views bounds) eqn:Hlim; [|done]. cbn [mbind result_bind].
  assert (Hvn : mapR (view_of m) ports <> Panic) by (apply mapR_no_panic; intros p _; apply view_of_no_panic).
  destruct (mapR (view_of m) ports) as [views|e|] eqn:Ev; [|done..]. cbn [mbind result_bind]. apply views_of_ports in Ev as [Hports HV]. subst ports.
  destruct (inventory_axes_spec m) as (HN & Hcov & _). set (axes := inventory_axes m) in *.
  unfold check at 1, ensure. destruct (bool_decide (length axes = 0%nat)) eqn:Hne; [done|]. apply bool_decide_eq_false in Hne. cbn [negb mbind result_bind].
  pose proof (dense_cells_no_panic (Z.of_nat (length views)) (Z.of_nat (length axes)) (Z.of_nat (length (vm_axes methods)))).
  destruct (dense_cells _ _ _) as [cells|e|] eqn:Ecells; [|done..]. cbn [mbind result_bind]. unfold check, ensure.
  destruct (cells <=? _) eqn:Hdense; [|done]. cbn [mbind result_bind]. destruct (saturating_add _ _ <=? _) eqn:Hmem; [|done]. cbn [mbind result_bind].
  pose proof (compile_views_spec m views axes (proj1 Hp) HN) as Hloop. specialize (Hloop ltac:(intros c Hc; apply Hp; right; by apply list_elem_of_fmap_2) show_f64 Hcov).
  destruct (foldM (compile_view show_f64 m views axes) _ _) as [[a b]|e|]; [|done..]. cbn [mbind result_bind]. 
  destruct (reference_indexed m views Hwf Hp) as (r & w & Hr & Hw & Hwp). pose proof (Forall_lookup_1 _ _ _ _ HV Hw) as Hview. simpl in Hview.
  rewrite Hwp in Hview. rewrite Hview, Hr. cbn [unwrap mbind result_bind].
  pose proof (study_demand_no_panic bounds method_refs w binding). destruct (study_demand bounds method_refs w binding) as [demand|e|] eqn:Hdem; [|done..].
  cbn [mbind result_bind]. pose proof (compile_methods_spec method_refs axes (length (vm_axes methods)) (vm_factors methods) Hfactors Hrefs) as Hmeth.
  destruct (foldM (compile_factors _ _) _ _) as [[c coverage]|e|]; [|done..]. cbn [mbind result_bind].
  pose proof (settle_matrix_no_panic a). destruct (settle_matrix a) as [a'|e|] eqn:Ea; [|done..]. cbn [mbind result_bind].
  pose proof (settle_matrix_no_panic b). destruct (settle_matrix b) as [b'|e|] eqn:Eb; [|done..]. cbn [mbind result_bind].
  pose proof (settle_matrix_no_panic c). destruct (settle_matrix c) as [c'|e|] eqn:Ec; [|done..]. cbn [mbind result_bind].
  destruct (nonzeros [a'; b'; c'] <=? bo_max_nonzeros bounds) eqn:Hnz; [|done]. cbn [mbind result_bind].
  rewrite length_fmap in Hlim. apply (compiled_intro views a b c); try done; [|lia|intros Hx; apply Hne; unfold axes; by rewrite Hx|lia].
  exists cells. split_and!; [done|lia|]. eapply owned_cells; [exact Hsource|exact Howned|]. lia.
Qed.
End Compiled.
