(* ===== verification/StudyExecute.v ===== *)
(** * Studies: preparing and executing

    [study/compile.rs] with [study/identity.rs]: the whole of [prepare], from the
    source bytes to the prepared input with its identities; the artifact it is
    stored as; [execute], which checks the input again, solves it on a service
    of its own without pruning, and refuses an answer that is not finite, not
    nonnegative or does not balance; and the methods recovered from a prepared
    input.

    What [serde_json] and [sha2] compute are arguments, and so are the clock, the
    fresh version of the model and what the linear solver returns. *)

From stdpp Require Import pretty.
From S2P Require Import Prelude F64 Text Json Csc Umfpack DataBuilder Validator Cache Service Tidas SignedFlow Assemble StudySource StudyCompile.

Local Open Scope string_scope.
Local Open Scope Z_scope.
Local Open Scope list_scope.

(** ** Data *)

#[export] Instance CalculationRef_eq_dec : EqDecision CalculationRef.
Proof. solve_decision. Defined.
Record PreparedInput := mk_prepared {
  pi_schema_version : string;
  pi_profile_id : string;
  pi_compiler_version : string;
  pi_calculation_contract_ref : CalculationRef;
  pi_source_hash : string;
  pi_model_hash : string;
  pi_input_hash : option string;
  pi_study_binding : option StudyBinding;
  pi_model : NormalizedModel;
  pi_numeric : NumericInput;
  pi_coverage : list CoverageGap;
  pi_method_source_hash : string;
  pi_limits : Bounds;
}.
Record StudyResult := mk_study_result {
  st_schema_version : string;
  st_profile_id : string;
  st_compiler_version : string;
  st_calculation_contract_ref : CalculationRef;
  st_model_hash : string;
  st_input_hash : option string;
  st_prepared_artifact_sha256 : string;
  st_x : list f64;
  st_g : list f64;
  st_h : list f64;
  st_coverage : list CoverageGap;
  st_quality_findings : list string;
  st_max_residual : f64;
  st_elapsed_millis : Z;
  st_business_pilot_qualified : bool;
  st_complete_lcia_scores : bool;
}.
(** The values whose hashes identify a prepared input. *)
Inductive Identified :=
| ModelIdentity (profile_id compiler_version : string) (calculation_contract_ref : CalculationRef) (model : NormalizedModel) (numeric : NumericInput)
    (coverage : list CoverageGap) (method_source_hash : string)
| InputIdentity (study_binding : StudyBinding) (model_hash profile_id compiler_version : string) (calculation_contract_ref : CalculationRef).
(** [anyhow::Error] of the executor. *)
Inductive ExecuteError := StudyFailed (e : StudyError) | SolverFailed (e : SolverError).

Section Execute.
(** [serde_json::to_vec] of identified values and prepared inputs, its decoder
    of sources and prepared inputs, SHA-256 in hexadecimal, the sizes and the
    hashes the normalizer takes, and [Display] of numbers. *)
Context (value_bytes : Identified -> result StudyError string) (input_bytes : PreparedInput -> result StudyError string).
Context (decode_source : string -> result StudyError SourceInput) (decode_input : string -> result StudyError PreparedInput).
Context (sha256 : string -> string) (fingerprint : string).
Context (from_str : string -> result string Value) (encoded_size : Value -> result string Z) (show_f64 : f64 -> string).

(** ** Identities *)

Definition calc_ref : CalculationRef := mk_calculation_ref "calculation_contract" "lca.calculation-contract.v1" fingerprint.
Definition semantic_hash (domain : string) (value : Identified) : result StudyError string :=
  text ← value_bytes value;
  Ok (sha256 (domain +:+ String.String Ascii.zero text)).
Definition identities (input : PreparedInput) : result StudyError (string * option string) :=
  model ← semantic_hash "study.model.v1"
    (ModelIdentity (pi_profile_id input) (pi_compiler_version input) (pi_calculation_contract_ref input) (pi_model input) (pi_numeric input)
       (pi_coverage input) (pi_method_source_hash input));
  hash ← (match pi_study_binding input with
          | None => Ok None
          | Some b => h ← semantic_hash "study.input.v1"
                        (InputIdentity b model (pi_profile_id input) (pi_compiler_version input) (pi_calculation_contract_ref input));
                      Ok (Some h)
          end);
  Ok (model, hash).
Definition verify_identities (input : PreparedInput) : result StudyError unit :=
  '(model, hash) ← identities input;
  check (bool_decide (model = pi_model_hash input) && bool_decide (hash = pi_input_hash input)) "study_semantic_hash_mismatch".
Definition artifact_bytes (input : PreparedInput) : result StudyError string :=
  data ← input_bytes input;
  _ ← check (Z.of_nat (String.length data) <=? bo_max_artifact_bytes (pi_limits input)) "study_artifact_limit";
  Ok data.
Definition decode_prepared (data expected_sha256 : string) (bounds : Bounds) : result StudyError PreparedInput :=
  _ ← check (Z.of_nat (String.length data) <=? bo_max_artifact_bytes bounds) "study_artifact_limit";
  _ ← check (bool_decide (sha256 data = expected_sha256)) "study_artifact_hash_mismatch";
  value ← decode_input data;
  _ ← check (bool_decide (pi_schema_version value = INPUT_SCHEMA) && bool_decide (pi_compiler_version value = COMPILER)
             && bool_decide (pi_profile_id value = PROFILE)) "study_artifact_schema";
  _ ← check (bool_decide (ca_sha256 (pi_calculation_contract_ref value) = fingerprint)) "study_calculation_contract_mismatch";
  _ ← verify_identities value;
  Ok value.

(** ** Preparing *)

Definition axis_ref (a : MethodAxis) : DatasetRef := mk_ref (ma_id a) (ma_version a).
(** The input of a study; the hashes are filled in from the rest. *)
Definition with_hashes (input : PreparedInput) (hashes : string * option string) : PreparedInput :=
  mk_prepared (pi_schema_version input) (pi_profile_id input) (pi_compiler_version input) (pi_calculation_contract_ref input) (pi_source_hash input)
    hashes.1 hashes.2 (pi_study_binding input) (pi_model input) (pi_numeric input) (pi_coverage input) (pi_method_source_hash input) (pi_limits input).
Definition prepare (elapsed_millis : Z) (data : string) (methods : VerifiedMethods) (bounds : Bounds) : result StudyError PreparedInput :=
  _ ← code (bounds_validate bounds);
  let size := Z.of_nat (String.length data) in
  _ ← check (size <=? bo_max_source_bytes bounds) "study_source_bytes_limit";
  _ ← check (saturating_mul size 8 <=? bo_max_owned_bytes bounds) "study_owned_memory_limit";
  source ← decode_source data;
  _ ← check (negb (bool_decide (vm_axes methods = [])) && (Z.of_nat (length (vm_axes methods)) <=? bo_max_methods bounds)) "study_method_limit";
  _ ← check (bool_decide ((axis_ref <$> vm_axes methods) = so_method_refs source)) "study_method_binding";
  _ ← check (bool_decide (base.size (list_to_set (ref_id <$> so_method_refs source) : gset string) = length (so_method_refs source))) "study_duplicate_method";
  '(model, normalized_owned_bytes) ← code (normalize sha256 from_str encoded_size source bounds (saturating_mul size 8));
  '(numeric, coverage) ← compile_model show_f64 size normalized_owned_bytes (so_method_refs source) (so_study_binding source) methods bounds model;
  let input := mk_prepared INPUT_SCHEMA PROFILE COMPILER calc_ref (sha256 data) "" None (so_study_binding source) model numeric coverage
                 (vm_source_hash methods) bounds in
  hashes ← identities input;
  let input := with_hashes input hashes in
  _ ← artifact_bytes input;
  _ ← check (elapsed_millis <=? bo_max_elapsed_millis bounds) "study_compile_time_limit";
  Ok input.

(** ** Executing *)

Definition validate_execution (input : PreparedInput) : result StudyError unit :=
  _ ← code (bounds_validate (pi_limits input));
  _ ← artifact_bytes input;
  _ ← verify_identities input;
  _ ← check (bool_decide (pi_schema_version input = INPUT_SCHEMA) && bool_decide (pi_profile_id input = PROFILE)
             && bool_decide (pi_compiler_version input = COMPILER) && bool_decide (pi_calculation_contract_ref input = calc_ref)) "study_execution_contract";
  let n := pi_numeric input in
  let size := length (nu_views n) in
  let rows := length (nu_inventory_axes n) in
  let methods := length (nu_method_axes n) in
  _ ← check ((0 <? size)%nat && (Z.of_nat size <=? bo_max_views (pi_limits input)) && (0 <? rows)%nat && (0 <? methods)%nat
             && (Z.of_nat methods <=? bo_max_methods (pi_limits input))) "study_execution_dimensions";
  _ ← check ((length (nu_a n) =? size)%nat && forallb (fun r => length r =? size)%nat (nu_a n)
             && (length (nu_b n) =? rows)%nat && forallb (fun r => length r =? size)%nat (nu_b n)
             && (length (nu_c n) =? methods)%nat && forallb (fun r => length r =? rows)%nat (nu_c n)
             && (length (nu_y n) =? size)%nat) "study_matrix_dimensions";
  cells ← dense_cells (Z.of_nat size) (Z.of_nat rows) (Z.of_nat methods);
  _ ← check ((cells <=? bo_max_dense_cells (pi_limits input)) && (saturating_mul cells 64 <=? bo_max_owned_bytes (pi_limits input)))
        "study_execution_memory_limit";
  _ ← check (nonzeros [nu_a n; nu_b n; nu_c n] <=? bo_max_nonzeros (pi_limits input)) "study_nnz_limit";
  check (forallb (fun v => is_finite v && (f64_zero <=? v)%f64 && (v <=? bo_max_functional_unit_amount (pi_limits input))%f64) (nu_y n))
    "study_invalid_demand".

(** [i32::try_from] of a length or an index. *)
Definition to_i32 (n : nat) : result StudyError Z :=
  if Z.of_nat n <=? I32_MAX then Ok (Z.of_nat n) else Err (Code "out of range integral type conversion attempted").
Definition triplet_at (row : nat) (result : list SparseTriplet) (jx : nat * f64) : Prelude.result StudyError (list SparseTriplet) :=
  _ ← check (is_finite jx.2) "study_nonfinite_matrix";
  if negb (jx.2 =? f64_zero)%f64 then
    r ← to_i32 row;
    c ← to_i32 jx.1;
    Ok (result ++ [mk_sparse r c jx.2])
  else Ok result.
Definition triplets (matrix : Matrix) : result StudyError (list SparseTriplet) :=
  foldM (fun result rv => foldM (triplet_at rv.1) (enumerate rv.2) result) (enumerate matrix) [].

(** [f64::from(1e-12)]. *)
Definition residual_tolerance : f64 := f64_of_ratio 1 (10^12).
(** What the activities leave of the demand in one row. *)
Definition row_residual (x a_row : list f64) (xi demand : f64) : f64 := (xi - f64_sum (zip_with f64_mul a_row x) - demand)%f64.
Definition worst_residual (a : Matrix) (x y : list f64) : result StudyError f64 :=
  foldM (fun worst rd =>
    xi ← unwrap (x !! rd.1);
    a_row ← unwrap (a !! rd.1);
    Ok (f64_max worst (f64_abs (row_residual x a_row xi rd.2)))) (enumerate y) f64_zero.

Context `{Htext : TextLib} `{Hiter : HashMapIter} `{Hlib : UmfpackLib} (capacity : nat -> Z).

Definition sparse_data (model_version : Uuid) (n : NumericInput) : result StudyError ModelSparseData :=
  process_count ← to_i32 (length (nu_views n));
  flow_count ← to_i32 (length (nu_inventory_axes n));
  impact_count ← to_i32 (length (nu_method_axes n));
  technosphere_entries ← triplets (nu_a n);
  biosphere_entries ← triplets (nu_b n);
  characterization_factors ← triplets (nu_c n);
  Ok {| model_version := model_version; process_count := process_count; flow_count := flow_count; impact_count := impact_count;
        technosphere_entries := technosphere_entries; biosphere_entries := biosphere_entries; characterization_factors := characterization_factors |}.
(** One service of the study's own: prepare, then solve. *)
Definition solve_study (clk : nat -> Z) (now : Z) (limit : Z) (data : ModelSparseData) (y : list f64) : result SolverError SolveResult :=
  let '(service, cache) := with_exact_zero_policy limit (f64_of_Z 8) in
  ((_ ← Service.prepare capacity service clk data default_options;
    solve_one now (model_version data) default_options y default_solve_options) cache).2.
Definition execute (clk : nat -> Z) (now : Z) (version : Uuid) (elapsed : Z) (input : PreparedInput) : result ExecuteError StudyResult :=
  _ ← map_err StudyFailed (validate_execution input);
  let n := pi_numeric input in
  data ← map_err StudyFailed (sparse_data version n);
  answer ← map_err SolverFailed (solve_study clk now (bo_max_owned_bytes (pi_limits input)) data (nu_y n));
  x ← ok_or (StudyFailed (Code "study_missing_x")) (sr_x answer);
  g ← ok_or (StudyFailed (Code "study_missing_g")) (sr_g answer);
  h ← ok_or (StudyFailed (Code "study_missing_h")) (sr_h answer);
  _ ← map_err StudyFailed (check (forallb is_finite (x ++ g ++ h)) "study_nonfinite_result");
  let scale := foldl (fun a b => f64_max a (f64_abs b)) f64_one (x ++ nu_y n) in
  _ ← map_err StudyFailed (check (forallb (fun v => f64_zero <=? v)%f64 x) "study_negative_activity");
  max_residual ← map_err StudyFailed (worst_residual (nu_a n) x (nu_y n));
  _ ← map_err StudyFailed (check (max_residual <=? residual_tolerance * scale)%f64 "study_balance_residual");
  _ ← map_err StudyFailed (check (elapsed <=? U64_MAX) "out of range integral type conversion attempted");
  _ ← map_err StudyFailed (check (elapsed <=? bo_max_elapsed_millis (pi_limits input)) "study_execution_time_limit");
  artifact ← map_err StudyFailed (artifact_bytes input);
  Ok (mk_study_result RESULT_SCHEMA PROFILE COMPILER calc_ref (pi_model_hash input) (pi_input_hash input) (sha256 artifact) x g h (pi_coverage input)
        (nm_quality_findings (pi_model input)) max_residual elapsed false (bool_decide (pi_coverage input = []))).

(** ** Methods of a prepared input *)

Definition frozen_method (input : PreparedInput) (acc : list MethodAxis * list (list Factor) * gset string) (reference : DatasetRef)
    : result StudyError (list MethodAxis * list (list Factor) * gset string) :=
  let '(axes, factors, seen) := acc in
  _ ← check (bool_decide (ref_id reference ∉ seen)) "study_duplicate_method";
  '(index, metadata) ← ok_or (Code "study_frozen_method_unavailable")
    (list_find (fun a => ma_id a = ref_id reference /\ ma_version a = ref_version reference) (nu_method_axes (pi_numeric input)));
  selected ← foldM (fun selected ca =>
                if existsb (fun gap => bool_decide (gp_method gap = reference) && (gp_inventory_index gap =? ca.1)%nat) (pi_coverage input)
                then Ok selected
                else
                  row ← unwrap (nu_c (pi_numeric input) !! index);
                  value ← unwrap (row !! ca.1);
                  Ok (selected ++ [mk_factor (ax_flow ca.2) (ax_direction ca.2) value]))
              (enumerate (nu_inventory_axes (pi_numeric input))) [];
  Ok (axes ++ [metadata], factors ++ [selected], {[ref_id reference]} ∪ seen).
Definition from_frozen (input : PreparedInput) (refs : list DatasetRef) : result StudyError VerifiedMethods :=
  _ ← validate_execution input;
  '(axes, factors, _) ← foldM (frozen_method input) refs ([], [], ∅);
  _ ← check (negb (bool_decide (refs = [])) && (Z.of_nat (length refs) <=? bo_max_methods (pi_limits input))) "study_method_limit";
  Ok (mk_methods axes factors (pi_method_source_hash input)).
End Execute.

(** ** What preparing guarantees *)

Lemma distinct_by_size `{Countable A} (l : list A) : size (list_to_set l : gset A) = length l -> NoDup l.
Proof.
  assert (Hle : forall l : list A, (size (list_to_set l : gset A) <= length l)%nat).
  { induction l0 as [|a l0 IH]; [done|]. rewrite list_to_set_cons, length_cons. pose proof (size_union_alt ({[a]} : gset A) (list_to_set l0)) as E.
    rewrite size_singleton in E. pose proof (subseteq_size (list_to_set l0 ∖ {[a]} : gset A) (list_to_set l0) ltac:(set_solver)). lia. }
  induction l as [|a l IH]; [constructor|]. rewrite list_to_set_cons, length_cons. intros E. destruct (decide (a ∈ l)) as [Hin|Hin].
  - replace ({[a]} ∪ list_to_set l : gset A) with (list_to_set l : gset A) in E by set_solver. specialize (Hle l). lia.
  - constructor; [done|]. apply IH. rewrite size_union in E by set_solver. rewrite size_singleton in E. lia.
Qed.

Section Prepared.
Context (value_bytes : Identified -> result StudyError string) (input_bytes : PreparedInput -> result StudyError string).
Context (decode_source : string -> result StudyError SourceInput) (sha256 : string -> string) (fingerprint : string).
Context (from_str : string -> result string Value) (encoded_size : Value -> result string Z) (show_f64 : f64 -> string).
Context (Hvalue : forall v, value_bytes v <> Panic) (Hinput : forall i, input_bytes i <> Panic) (Hsource : forall s, decode_source s <> Panic).
Context (Hfrom : forall s, from_str s <> Panic) (Hsize : forall v, encoded_size v <> Panic) (Hsize' : forall v k, encoded_size v = Ok k -> 0 <= k).

Local Abbreviation hashes := (identities value_bytes sha256).
Local Abbreviation validated := (validate_execution value_bytes input_bytes sha256 fingerprint).
Local Abbreviation prepared := (prepare value_bytes input_bytes decode_source sha256 fingerprint from_str encoded_size show_f64).

Lemma identities_no_panic input : hashes input <> Panic.
Proof using Hvalue.
  unfold identities, semantic_hash. apply bind_no_panic; [no_panic|]. intros model _. apply bind_no_panic; [|done].
  destruct (pi_study_binding input); [|done]. no_panic.
Qed.
Lemma artifact_bytes_no_panic input : artifact_bytes input_bytes input <> Panic.
Proof using Hinput. unfold artifact_bytes, check. no_panic. Qed.
Lemma bounds_validate_no_panic bounds : code (bounds_validate bounds) <> Panic.
Proof using. apply map_err_no_panic. unfold bounds_validate. no_panic. Qed.

(** The steps of a successful [prepare]. *)
Lemma prepare_steps elapsed data methods bounds input : prepared elapsed data methods bounds = Ok input ->
  exists source model owned numeric coverage hs,
    bounds_validate bounds = Ok tt /\ decode_source data = Ok source
    /\ vm_axes methods <> [] /\ Z.of_nat (length (vm_axes methods)) <= bo_max_methods bounds /\ axis_ref <$> vm_axes methods = so_method_refs source
    /\ NoDup (ref_id <$> so_method_refs source)
    /\ normalize sha256 from_str encoded_size source bounds (saturating_mul (Z.of_nat (String.length data)) 8) = Ok (model, owned)
    /\ compile_model show_f64 (Z.of_nat (String.length data)) owned (so_method_refs source) (so_study_binding source) methods bounds model = Ok (numeric, coverage)
    /\ hashes (mk_prepared INPUT_SCHEMA PROFILE COMPILER (calc_ref fingerprint) (sha256 data) "" None (so_study_binding source) model numeric coverage
                 (vm_source_hash methods) bounds) = Ok hs
    /\ input = mk_prepared INPUT_SCHEMA PROFILE COMPILER (calc_ref fingerprint) (sha256 data) hs.1 hs.2 (so_study_binding source) model numeric coverage
                 (vm_source_hash methods) bounds
    /\ is_Some (match artifact_bytes input_bytes input with Ok b => Some b | _ => None end).
Proof using.
  unfold prepare. intros ([] & Hb & H)%bind_ok. apply map_err_ok in Hb. apply bind_ok in H as ([] & _ & H). apply bind_ok in H as ([] & _ & H).
  apply bind_ok in H as (source & Hs & H). apply bind_ok in H as ([] & Hm & H). apply bind_ok in H as ([] & Hr & H). apply bind_ok in H as ([] & Hd & H).
  apply bind_ok in H as ([model owned] & Hn & H). apply map_err_ok in Hn. apply bind_ok in H as ([numeric coverage] & Hc & H). apply bind_ok in H as (hs & Hh & H).
  apply bind_ok in H as (art & Ha & H). apply bind_ok in H as ([] & _ & H). inv_result.
  apply ensure_ok in Hm, Hr, Hd. rewrite andb_true_iff, negb_true_iff, bool_decide_eq_false in Hm. apply bool_decide_eq_true in Hr, Hd.
  exists source, model, owned, numeric, coverage, hs. split_and!; try done; [by destruct Hm|destruct Hm; lia| |].
  - apply distinct_by_size. by rewrite Hd, length_fmap.
  - unfold with_hashes in Ha |- *. simpl in Ha |- *. rewrite Ha. by eexists.
Qed.

(** The demand vector of a compiled study is acceptable. *)
Lemma compiled_demand refs binding methods bounds m n coverage : compiled show_f64 refs binding methods bounds m n coverage -> bounds_validate bounds = Ok tt ->
  (binding = None -> (f64_one <=? bo_max_functional_unit_amount bounds)%f64 = true) ->
  length (nu_y n) = length (nu_views n)
  /\ forallb (fun v => is_finite v && (f64_zero <=? v)%f64 && (v <=? bo_max_functional_unit_amount bounds)%f64) (nu_y n) = true.
Proof using.
  intros HC Hb Hone. destruct (cp_demand _ _ _ _ _ _ _ _ HC) as (j & demand & _ & _ & Hd & ->). rewrite length_insert, length_replicate. split; [done|].
  unfold bounds_validate in Hb. apply bind_ok in Hb as ([] & _ & Hb). apply ensure_ok in Hb. rewrite !andb_true_iff in Hb. destruct Hb as [[_ Hpos] _].
  apply forallb_forall. intros x Hx%list_elem_of_In. apply list_elem_of_lookup in Hx as [r Hr].
  assert (Hcase : x = demand \/ x = f64_zero).
  { destruct (decide (j = r)) as [->|Hne].
    - rewrite list_lookup_insert_eq in Hr; [injection Hr as <-; by left|]. apply lookup_lt_Some in Hr. by rewrite length_insert in Hr.
    - rewrite list_lookup_insert_ne in Hr by done. apply lookup_replicate in Hr as [-> _]. by right. }
  rewrite !andb_true_iff. destruct Hcase as [-> | ->]; [|split_and!; [done..|by apply SFltb_leb]]. unfold study_demand in Hd. destruct binding as [b|].
  - unfold check_binding in Hd. apply bind_ok in Hd as ([] & _ & Hd). apply bind_ok in Hd as (a & _ & Hd). apply bind_ok in Hd as ([] & Ha & Hd).
    apply bind_ok in Hd as ([] & _ & Hd). inv_result. apply ensure_ok in Ha. rewrite !andb_true_iff in Ha. split_and!; [by apply Ha|apply SFltb_leb; by apply Ha|by apply Ha].
  - injection Hd as <-. split_and!; [done..|by apply Hone].
Qed.
Lemma nil_length_pos {A} (l : list A) : l <> [] -> (0 < length l)%nat.
Proof using. destruct l; simpl; [done|lia]. Qed.
Lemma shaped_forallb rows columns mat : shaped rows columns mat -> (length mat =? rows)%nat = true /\ forallb (fun r => length r =? columns)%nat mat = true.
Proof using.
  intros [HL HF]. split; [by apply Nat.eqb_eq|]. apply forallb_forall. intros r Hr%list_elem_of_In. rewrite Forall_forall in HF. by apply Nat.eqb_eq, HF.
Qed.

Section Study.
Context (elapsed : Z) (data : string) (methods : VerifiedMethods) (bounds : Bounds).
Context (Hfactors : length (vm_factors methods) = length (vm_axes methods)).

Lemma compile_normalized source model owned :
  axis_ref <$> vm_axes methods = so_method_refs source ->
  normalize sha256 from_str encoded_size source bounds (saturating_mul (Z.of_nat (String.length data)) 8) = Ok (model, owned) ->
  match compile_model show_f64 (Z.of_nat (String.length data)) owned (so_method_refs source) (so_study_binding source) methods bounds model with
  | Ok (n, coverage) => compiled show_f64 (so_method_refs source) (so_study_binding source) methods bounds model n coverage
  | Err _ => True
  | Panic => False
  end.
Proof using Hfactors Hsize'.
  intros Hr Hn. apply compile_model_spec; [by eapply normalize_wf|lia|by eapply normalize_owned|done|]. rewrite <-Hr. apply length_fmap.
Qed.
Lemma prepare_no_panic : prepared elapsed data methods bounds <> Panic.
Proof using Hvalue Hinput Hsource Hfrom Hsize Hsize' Hfactors.
  unfold prepare. apply bind_no_panic; [apply bounds_validate_no_panic|intros _ _].
  do 2 (apply bind_no_panic; [unfold check; no_panic|intros _ _]). apply bind_no_panic; [done|intros source _].
  apply bind_no_panic; [unfold check; no_panic|intros _ _]. apply bind_no_panic; [unfold check; no_panic|intros [] Hr]. apply ensure_ok, bool_decide_eq_true in Hr.
  apply bind_no_panic; [unfold check; no_panic|intros _ _]. apply bind_no_panic; [by apply map_err_no_panic, normalize_study_no_panic|].
  intros [model owned] Hn. apply map_err_ok in Hn. pose proof (compile_normalized source model owned Hr Hn) as Hc.
  apply bind_no_panic; [by destruct (compile_model _ _ _ _ _ _ _ _) as [[]| |]|]. intros [numeric coverage] _.
  apply bind_no_panic; [apply identities_no_panic|]. intros hs _. apply bind_no_panic; [apply artifact_bytes_no_panic|]. intros art _. unfold check. no_panic.
Qed.
Lemma prepared_compiled input : prepared elapsed data methods bounds = Ok input ->
  exists source, decode_source data = Ok source /\ pi_study_binding input = so_study_binding source
    /\ axis_ref <$> vm_axes methods = so_method_refs source /\ NoDup (ref_id <$> so_method_refs source)
    /\ model_wf (pi_model input)
    /\ compiled show_f64 (so_method_refs source) (so_study_binding source) methods bounds (pi_model input) (pi_numeric input) (pi_coverage input)
    /\ verify_identities value_bytes sha256 input = Ok tt.
Proof using Hsize' Hfactors.
  intros (source & model & owned & numeric & coverage & hs & _ & Hs & _ & _ & Hr & Hd & Hn & Hc & Hh & -> & _)%prepare_steps.
  pose proof (compile_normalized source model owned Hr Hn) as HC. rewrite Hc in HC. exists source. simpl. split_and!; [done..|by eapply normalize_wf|done|].
  unfold verify_identities. replace (hashes _) with (Ok (E:=StudyError) hs) by (rewrite <-Hh; done). destruct hs as [h1 h2]. cbn [mbind result_bind fst snd].
  unfold check, ensure. by rewrite !bool_decide_true.
Qed.
Lemma prepared_validates input : prepared elapsed data methods bounds = Ok input ->
  (pi_study_binding input = None -> (f64_one <=? bo_max_functional_unit_amount bounds)%f64 = true) -> validated input = Ok tt.
Proof using Hsize' Hfactors.
  intros Hp Hone. destruct (prepared_compiled input Hp) as (source & _ & Hbind & _ & _ & _ & HC & Hv).
  destruct (prepare_steps _ _ _ _ _ Hp) as (source' & model & owned & numeric & coverage & hs & Hb & _ & Hne & Hmax & _ & _ & _ & _ & _ & E & [art Ha]).
  rewrite Hbind in Hone. destruct (compiled_demand _ _ _ _ _ _ _ HC Hb Hone) as [Hlen Hy].
  destruct (cp_cells _ _ _ _ _ _ _ _ HC) as (cells & Hcells & Hdense & Hmem). destruct (cp_limits _ _ _ _ _ _ _ _ HC) as [Hviews Hnz].
  destruct (shaped_forallb _ _ _ (cp_a _ _ _ _ _ _ _ _ HC)) as [Ha1 Ha2]. destruct (shaped_forallb _ _ _ (cp_b _ _ _ _ _ _ _ _ HC)) as [Hb1 Hb2].
  destruct (shaped_forallb _ _ _ (cp_c _ _ _ _ _ _ _ _ HC)) as [Hc1 Hc2]. destruct (cp_axes _ _ _ _ _ _ _ _ HC) as [_ Hax].
  pose proof (cp_method_axes _ _ _ _ _ _ _ _ HC) as Hma. destruct (cp_demand _ _ _ _ _ _ _ _ HC) as (j & _ & Hj & _). apply lookup_lt_Some in Hj.
  assert (Hfix : pi_limits input = bounds /\ pi_schema_version input = INPUT_SCHEMA /\ pi_profile_id input = PROFILE
    /\ pi_compiler_version input = COMPILER /\ pi_calculation_contract_ref input = calc_ref fingerprint) by (rewrite E; done).
  clear E. unfold validate_execution. destruct Hfix as (-> & -> & -> & -> & ->).
  destruct (artifact_bytes input_bytes input) as [art'|e|]; [|done..]. rewrite Hv, Hb, Hcells. rewrite <-Hma in Hne, Hmax.
  unfold code, check, ensure. cbn [map_err mbind result_bind]. rewrite !bool_decide_true by done. cbn [andb mbind result_bind].
  rewrite Ha1, Ha2, Hb1, Hb2, Hc1, Hc2, (proj2 (Nat.eqb_eq _ _) Hlen), Hy. cbn [andb mbind result_bind].
  rewrite !(proj2 (Z.leb_le _ _)) by done. rewrite !(proj2 (Nat.ltb_lt _ _)); [done|by apply nil_length_pos..|lia].
Qed.
End Study.
End Prepared.

(** ** The sparse form of a dense matrix *)

(** The nonzero cells, row by row. *)
Definition dense_keyed (mat : Matrix) : list (Z * Z * f64) :=
  enumerate mat ≫= fun rv =>
    omap (fun jx => if (jx.2 =? f64_zero)%f64 then None else Some (Z.of_nat rv.1, Z.of_nat jx.1, jx.2)) (enumerate rv.2).
Definition sparse_of (kv : Z * Z * f64) : SparseTriplet := mk_sparse kv.1.1 kv.1.2 kv.2.
Definition finite_cells (mat : Matrix) : Prop := Forall (Forall (fun x => is_finite x = true)) mat.

Lemma elem_of_dense_keyed mat i j x :
  (i, j, x) ∈ dense_keyed mat <-> exists r c, i = Z.of_nat r /\ j = Z.of_nat c /\ StudyCompile.cell mat r c = Some x /\ (x =? f64_zero)%f64 = false.
Proof.
  unfold dense_keyed, StudyCompile.cell. rewrite list_elem_of_bind. split.
  - intros ([r row] & Hin & Hr%elem_of_enumerate). apply list_elem_of_omap in Hin as ([c y] & Hc%elem_of_enumerate & E). simpl in E.
    destruct (y =? f64_zero)%f64 eqn:Ey; [done|]. injection E as <- <- <-. exists r, c. rewrite Hr. simpl. done.
  - intros (r & c & -> & -> & Hc & Hx). destruct (mat !! r) as [row|] eqn:Hr; [|done]. exists (r, row). split; [|by apply elem_of_enumerate].
    apply list_elem_of_omap. exists (c, x). split; [by apply elem_of_enumerate|]. simpl. by rewrite Hx.
Qed.
Lemma NoDup_enumerate {A} (l : list A) : NoDup (enumerate l).
Proof.
  apply (NoDup_fmap_1 fst). unfold enumerate. rewrite fmap_imap. apply NoDup_alt. intros i j x. rewrite !list_lookup_imap.
  intros (a & _ & ->)%fmap_Some (b & _ & E)%fmap_Some. exact E.
Qed.
Lemma NoDup_omap_inj {A B} (f : A -> option B) l : (forall x y b, f x = Some b -> f y = Some b -> x = y) -> NoDup l -> NoDup (omap f l).
Proof.
  intros Hf. induction 1 as [|a l Ha _ IH]; [constructor|]. simpl. destruct (f a) as [b|] eqn:E; [|done]. constructor; [|done].
  intros (a' & Hin & E')%list_elem_of_omap. by rewrite (Hf a a' b E E') in Ha.
Qed.
Lemma dense_keyed_NoDup mat : NoDup (dense_keyed mat).*1.
Proof.
  apply NoDup_fmap_2_strong.
  - intros [[i j] x] [[i' j'] y] Hx Hy [= <- <-]. apply elem_of_dense_keyed in Hx as (r & c & -> & -> & Hx & _), Hy as (r' & c' & Hr & Hc & Hy & _).
    apply Nat2Z.inj in Hr, Hc. subst. congruence.
  - unfold dense_keyed. apply NoDup_bind; [| |apply NoDup_enumerate].
    + intros [r row] [r' row'] k Hr%elem_of_enumerate Hr'%elem_of_enumerate (a & _ & Ha)%list_elem_of_omap (b & _ & Hb)%list_elem_of_omap. simpl in Ha, Hb.
      destruct (a.2 =? f64_zero)%f64; [done|]. destruct (b.2 =? f64_zero)%f64; [done|]. injection Ha as <-. injection Hb as Hb _ _. apply Nat2Z.inj in Hb. subst. congruence.
    + intros [r row] _. apply NoDup_omap_inj; [|apply NoDup_enumerate]. intros [a x] [b y] k Ha Hb. simpl in Ha, Hb.
      destruct (x =? f64_zero)%f64; [done|]. destruct (y =? f64_zero)%f64; [done|]. injection Ha as <-. injection Hb as Hb <-. apply Nat2Z.inj in Hb. by subst.
Qed.
Definition keyed_entry (row : nat) (jx : nat * f64) : option (Z * Z * f64) :=
  if (jx.2 =? f64_zero)%f64 then None else Some (Z.of_nat row, Z.of_nat jx.1, jx.2).
Lemma triplet_at_ok row acc jx ts : triplet_at row acc jx = Ok ts -> is_finite jx.2 = true /\ ts = acc ++ (sparse_of <$> option_list (keyed_entry row jx)).
Proof.
  unfold triplet_at, keyed_entry, to_i32. intros ([] & Hf & H)%bind_ok. apply ensure_ok in Hf. split; [done|]. destruct (jx.2 =? f64_zero)%f64; cbn [negb] in H.
  - inv_result. simpl. by rewrite app_nil_r.
  - apply bind_ok in H as (r & Hr & H). apply bind_ok in H as (c & Hc & H). destruct (_ <=? _) in Hr; [|done]. destruct (_ <=? _) in Hc; [|done]. by inv_result.
Qed.
Lemma option_list_omap {A B} (f : A -> option B) pre a : omap f (pre ++ [a]) = omap f pre ++ option_list (f a).
Proof. rewrite omap_app. simpl. by destruct (f a). Qed.
Lemma triplets_row row values acc ts : foldM (triplet_at row) (enumerate values) acc = Ok ts ->
  Forall (fun x => is_finite x = true) values /\ ts = acc ++ (sparse_of <$> omap (keyed_entry row) (enumerate values)).
Proof.
  intros H. enough (HG : Forall (fun jx : nat * f64 => is_finite jx.2 = true) (enumerate values) /\ ts = acc ++ (sparse_of <$> omap (keyed_entry row) (enumerate values))).
  { destruct HG as [HF ->]. split; [|done]. apply Forall_forall. intros x Hx. apply list_elem_of_lookup in Hx as [j Hj]. rewrite Forall_forall in HF.
    apply (HF (j, x)). by apply elem_of_enumerate. }
  revert H. apply (foldM_ind (fun pre ts => Forall (fun jx : nat * f64 => is_finite jx.2 = true) pre /\ ts = acc ++ (sparse_of <$> omap (keyed_entry row) pre))).
  { split; [constructor|]. by rewrite app_nil_r. }
  intros pre jx post c c' _ [HF ->] [Hf ->]%triplet_at_ok. split; [apply Forall_app; by repeat constructor|]. by rewrite option_list_omap, fmap_app, app_assoc.
Qed.
(** The triplets of a matrix are its nonzero cells. *)
Lemma triplets_ok mat ts : triplets mat = Ok ts -> finite_cells mat /\ ts = sparse_of <$> dense_keyed mat.
Proof.
  intros H. enough (HG : Forall (fun rv : nat * list f64 => Forall (fun x => is_finite x = true) rv.2) (enumerate mat) /\ ts = sparse_of <$> dense_keyed mat).
  { destruct HG as [HF ->]. split; [|done]. apply Forall_forall. intros x Hx. apply list_elem_of_lookup in Hx as [j Hj]. rewrite Forall_forall in HF.
    apply (HF (j, x)). by apply elem_of_enumerate. }
  revert H. apply (foldM_ind (fun pre ts => Forall (fun rv : nat * list f64 => Forall (fun x => is_finite x = true) rv.2) pre
      /\ ts = sparse_of <$> (pre ≫= fun rv => omap (keyed_entry rv.1) (enumerate rv.2)))); [by split; [constructor|]|].
  intros pre [row values] post c c' _ [HF ->] [Hf ->]%triplets_row. split; [apply Forall_app; by repeat constructor|].
  rewrite bind_app, fmap_app. simpl. by rewrite app_nil_r.
Qed.
Lemma triplets_no_panic mat : triplets mat <> Panic.
Proof.
  apply foldM_no_panic. intros [row values] acc _. apply foldM_no_panic. intros jx acc' _. unfold triplet_at, check, to_i32. no_panic.
Qed.
Lemma dense_in_range rows columns mat : shaped rows columns mat -> Forall (sparse_in_range (Z.of_nat rows) (Z.of_nat columns)) (sparse_of <$> dense_keyed mat).
Proof.
  intros HS. apply Forall_fmap, Forall_forall. intros [[i j] x] (r & c & -> & -> & Hx & _)%elem_of_dense_keyed. unfold sparse_in_range. simpl.
  destruct (proj1 (shaped_cell _ _ _ r c HS) (mk_is_Some _ _ Hx)). lia.
Qed.
Lemma length_bind_le {A B} (f : A -> list B) l k : (forall x, x ∈ l -> (length (f x) <= k)%nat) -> (length (l ≫= f) <= length l * k)%nat.
Proof.
  induction l as [|a l IH]; intros Hf; [simpl; lia|]. rewrite bind_cons, length_app, length_cons, Nat.mul_succ_l.
  pose proof (Hf a (list_elem_of_here a l)). specialize (IH (fun x Hx => Hf x (list_elem_of_further x a l Hx))). lia.
Qed.
Lemma omap_length_le {A B} (f : A -> option B) l : (length (omap f l) <= length l)%nat.
Proof. induction l as [|a l IH]; [done|]. csimpl. destruct (f a); csimpl; lia. Qed.
Lemma length_enumerate {A} (l : list A) : length (enumerate l) = length l.
Proof. apply length_imap. Qed.
Lemma dense_keyed_length rows columns mat : shaped rows columns mat -> (length (dense_keyed mat) <= rows * columns)%nat.
Proof.
  intros [<- HF]. rewrite <-(length_enumerate mat). apply length_bind_le. intros [r row] Hr%elem_of_enumerate.
  etrans; [apply omap_length_le|]. rewrite length_enumerate. simpl. by rewrite (Forall_lookup_1 _ _ _ _ HF Hr).
Qed.

(** ** The matrices that are solved *)

(** A cell of the sparse form: the dense one unless it is zero. *)
Definition dense_entry (mat : Matrix) (i j : Z) : option f64 :=
  if decide (0 <= i /\ 0 <= j) then
    x ← StudyCompile.cell mat (Z.to_nat i) (Z.to_nat j);
    if (x =? f64_zero)%f64 then None else Some x
  else None.
Lemma dense_entry_elem mat i j x : dense_entry mat i j = Some x <-> (i, j, x) ∈ dense_keyed mat.
Proof.
  unfold dense_entry. rewrite elem_of_dense_keyed. split.
  - case_decide as Hd; [|done]. destruct (StudyCompile.cell mat (Z.to_nat i) (Z.to_nat j)) as [y|] eqn:E; [|done]. simpl.
    destruct (y =? f64_zero)%f64 eqn:Ey; [done|]. intros [= <-]. exists (Z.to_nat i), (Z.to_nat j). split_and!; [lia|lia|done|done].
  - intros (r & c & -> & -> & Hx & Hz). rewrite decide_True by lia. rewrite !Nat2Z.id, Hx. simpl. by rewrite Hz.
Qed.
Lemma f64_add_zero_l x : is_finite x = true -> (x =? f64_zero)%f64 = false -> (f64_zero + x)%f64 = x.
Proof. by destruct x as [[]| | |[]]. Qed.
Lemma not_pruned x : is_finite x = true -> (x =? f64_zero)%f64 = false -> (f64_abs x <=? f64_zero)%f64 = false.
Proof. by destruct x as [[]| | |[]]. Qed.
Lemma neg_not_zero x : (x =? f64_zero)%f64 = false -> (- x =? f64_zero)%f64 = false.
Proof. by destruct x as [[]|[]| |[]]. Qed.
(** The cells the builder sums, of a sparse form read with [g]. *)
Lemma dense_cell (g : f64 -> f64) mat i j : finite_cells mat -> (forall x, is_finite (g x) = is_finite x) ->
  (forall x, (x =? f64_zero)%f64 = false -> (g x =? f64_zero)%f64 = false) ->
  Csc.cell f64_zero (triplets_of g (dense_keyed mat)) (i, j) = g <$> dense_entry mat i j.
Proof.
  intros HF Hg1 Hg2. destruct (dense_entry mat i j) as [x|] eqn:E; simpl.
  - apply dense_entry_elem in E. rewrite (cell_present f64_zero g _ (i, j) x (dense_keyed_NoDup mat) E).
    apply elem_of_dense_keyed in E as (r & c & -> & -> & Hx & Hz). assert (Hfin : is_finite (g x) = true).
    { rewrite Hg1. unfold StudyCompile.cell in Hx. destruct (mat !! r) as [row|] eqn:Er; [|done]. simpl in Hx.
      exact (Forall_lookup_1 _ _ _ _ (Forall_lookup_1 _ _ _ _ HF Er) Hx). }
    rewrite not_pruned, f64_add_zero_l by auto. done.
  - unfold Csc.cell. rewrite cell_absent; [done|]. intros ([[i' j'] x] & [= -> ->] & Hin)%list_elem_of_fmap. apply dense_entry_elem in Hin. congruence.
Qed.
(** [I - A] of the study. *)
Definition study_m (a : Matrix) (i j : Z) : option f64 :=
  let e := (fun x => - x)%f64 <$> dense_entry a i j in
  if decide (i = j) then Some (default f64_zero e + f64_one)%f64 else e.
Record execution_shapes (n : NumericInput) : Prop := {
  es_a : shaped (length (nu_views n)) (length (nu_views n)) (nu_a n);
  es_b : shaped (length (nu_inventory_axes n)) (length (nu_views n)) (nu_b n);
  es_c : shaped (length (nu_method_axes n)) (length (nu_inventory_axes n)) (nu_c n);
  es_y : length (nu_y n) = length (nu_views n);
  es_positive : (0 < length (nu_views n) /\ 0 < length (nu_inventory_axes n) /\ 0 < length (nu_method_axes n))%nat;
  es_cells : Z.of_nat (length (nu_views n)) * Z.of_nat (length (nu_views n)) + Z.of_nat (length (nu_inventory_axes n)) * Z.of_nat (length (nu_views n))
    + Z.of_nat (length (nu_method_axes n)) * Z.of_nat (length (nu_inventory_axes n)) <= 131072;
}.
Lemma agrees_ext eps m nr nc ref ref' : (forall i j, ref i j = ref' i j) -> agrees eps m nr nc ref -> agrees eps m nr nc ref'.
Proof. intros He (Hw & Hr & Hc & Hg). split_and!; try done. intros i j Hj. by rewrite Hg, He. Qed.
Lemma sparse_data_ok version n data : sparse_data version n = Ok data ->
  data = {| model_version := version; process_count := Z.of_nat (length (nu_views n)); flow_count := Z.of_nat (length (nu_inventory_axes n));
            impact_count := Z.of_nat (length (nu_method_axes n)); technosphere_entries := sparse_of <$> dense_keyed (nu_a n);
            biosphere_entries := sparse_of <$> dense_keyed (nu_b n); characterization_factors := sparse_of <$> dense_keyed (nu_c n) |}
  /\ finite_cells (nu_a n) /\ finite_cells (nu_b n) /\ finite_cells (nu_c n).
Proof.
  unfold sparse_data. intros (p & Hp & H)%bind_ok. apply bind_ok in H as (f & Hf & H). apply bind_ok in H as (i & Hi & H).
  apply bind_ok in H as (ta & [Ha ->]%triplets_ok & H). apply bind_ok in H as (tb & [Hb ->]%triplets_ok & H). apply bind_ok in H as (tc & [Hc ->]%triplets_ok & H).
  unfold to_i32 in Hp, Hf, Hi. destruct (_ <=? _) in Hp; [|done]. destruct (_ <=? _) in Hf; [|done]. destruct (_ <=? _) in Hi; [|done]. by inv_result.
Qed.
Lemma small_data_in_range version n data : execution_shapes n -> sparse_data version n = Ok data -> data_in_range data.
Proof.
  intros [HA HB HC HY (Hp1 & Hp2 & Hp3) HN] (-> & _)%sparse_data_ok. pose proof (dense_keyed_length _ _ _ HA). pose proof (dense_keyed_length _ _ _ HB).
  pose proof (dense_keyed_length _ _ _ HC). split; simpl; [lia..|by apply dense_in_range|by apply dense_in_range|by apply dense_in_range| | |];
    rewrite length_fmap; unfold I32_MAX; nia.
Qed.
Lemma study_built version n data : execution_shapes n -> sparse_data version n = Ok data ->
  exists bm, build f64_zero data = Ok bm
    /\ agrees f64_zero (bm_m bm) (Z.of_nat (length (nu_views n))) (Z.of_nat (length (nu_views n))) (study_m (nu_a n))
    /\ agrees f64_zero (bm_b bm) (Z.of_nat (length (nu_inventory_axes n))) (Z.of_nat (length (nu_views n))) (dense_entry (nu_b n))
    /\ agrees f64_zero (bm_c bm) (Z.of_nat (length (nu_method_axes n))) (Z.of_nat (length (nu_inventory_axes n))) (dense_entry (nu_c n)).
Proof.
  intros HS Hd. pose proof (small_data_in_range _ _ _ HS Hd) as HR. destruct (build_ok f64_zero data HR eq_refl) as (bm & Hb & HM & HB & HC & _).
  apply sparse_data_ok in Hd as (-> & Fa & Fb & Fc). exists bm. split; [done|]. simpl in HM, HB, HC.
  assert (Hsparse : forall mat i j, finite_cells mat -> sparse_cell f64_zero (sparse_of <$> dense_keyed mat) (i, j) = dense_entry mat i j).
  { intros mat i j HF. rewrite <-(option_fmap_id (dense_entry mat i j)), <-(dense_cell (fun x => x)) by done.
    unfold sparse_cell. by rewrite <-list_fmap_compose. }
  split_and!; [eapply agrees_ext; [|exact HM]|eapply agrees_ext; [|exact HB]|eapply agrees_ext; [|exact HC]]; intros i j; [|by apply Hsparse..].
  unfold i_minus_a, study_m. simpl. unfold negated_cell.
  rewrite <-(dense_cell (fun x => (- x)%f64)); [|done|apply is_finite_neg|apply neg_not_zero]. by rewrite <-list_fmap_compose.
Qed.

(** ** What executing guarantees *)

(** The residual of one row of the study. *)
Definition residual_at (a : Matrix) (x y : list f64) (r : nat) : option f64 :=
  a_row ← a !! r;
  xi ← x !! r;
  demand ← y !! r;
  Some (row_residual x a_row xi demand).
Lemma worst_residual_spec a x y : length a = length y -> length x = length y ->
  exists worst, worst_residual a x y = Ok worst /\ is_nan worst = false
    /\ forall r res, residual_at a x y r = Some res -> is_nan res = true \/ (f64_abs res <=? worst)%f64 = true.
Proof.
  intros Ha Hx. unfold worst_residual.
  destruct (foldM_total_ind (fun pre worst => is_nan worst = false /\ forall r d res, (r, d) ∈ pre -> residual_at a x y r = Some res ->
       is_nan res = true \/ (f64_abs res <=? worst)%f64 = true)
    (fun worst rd => xi ← unwrap (x !! rd.1); a_row ← unwrap (a !! rd.1); Ok (E:=StudyError) (f64_max worst (f64_abs (row_residual x a_row xi rd.2))))
    (enumerate y) f64_zero) as (worst & Hw & Hn & HP).
  - split; [done|]. by intros r d res ?%elem_of_nil.
  - intros pre [r d] post worst E [Hn HP]. destruct (enumerate_middle _ _ _ _ _ E) as (_ & Hr & _). pose proof (lookup_lt_Some _ _ _ Hr) as Hlt. simpl.
    destruct (proj2 (lookup_lt_is_Some x r)) as [xi Hxi]; [lia|]. destruct (proj2 (lookup_lt_is_Some a r)) as [row Hrow]; [lia|].
    rewrite Hxi, Hrow. simpl. eexists. split; [done|]. split.
    + unfold f64_max. rewrite Hn. destruct (is_nan (f64_abs _)) eqn:E'; [done|]. by destruct (SFltb _ _).
    + intros r' d' res [Hin|[= -> ->]%list_elem_of_singleton]%elem_of_app Hres.
      * destruct (HP r' d' res Hin Hres) as [?|Hle]; [by left|right]. eapply SFleb_trans; [exact Hle|]. by apply f64_max_ge_l.
      * unfold residual_at in Hres. rewrite Hrow, Hxi, Hr in Hres. simpl in Hres. injection Hres as <-.
        destruct (is_nan (row_residual x row xi d)) eqn:En; [by left|right]. apply f64_max_ge_r. by destruct (row_residual x row xi d).
  - exists worst. split_and!; [done..|]. intros r res Hres. assert (Hd : is_Some (y !! r)).
    { unfold residual_at in Hres. destruct (a !! r); [|done]. destruct (x !! r); [|done]. destruct (y !! r); [by eexists|done]. }
    destruct Hd as [d Hd]. apply (HP r d); [by apply elem_of_enumerate|done].
Qed.

Section Executed.
Context (value_bytes : Identified -> result StudyError string) (input_bytes : PreparedInput -> result StudyError string) (sha256 : string -> string) (fingerprint : string).
Context (Hvalue : forall v, value_bytes v <> Panic) (Hinput : forall i, input_bytes i <> Panic).
Context `{Htext : TextLib} `{Hiter : HashMapIter} `{Hlib : UmfpackLib} (capacity : nat -> Z) (Hcap : forall n, 0 <= capacity n).

Local Abbreviation validated := (validate_execution value_bytes input_bytes sha256 fingerprint).
Local Abbreviation executed := (execute value_bytes input_bytes sha256 fingerprint capacity).

Lemma verify_identities_no_panic input : verify_identities value_bytes sha256 input <> Panic.
Proof using Hvalue.
  unfold verify_identities. apply bind_no_panic; [by apply identities_no_panic|]. intros [h1 h2] _. unfold check. no_panic.
Qed.
Lemma validate_execution_no_panic input : validated input <> Panic.
Proof using Hvalue Hinput.
  unfold validate_execution. apply bind_no_panic; [apply bounds_validate_no_panic|intros _ _]. apply bind_no_panic; [by apply artifact_bytes_no_panic|intros _ _].
  apply bind_no_panic; [apply verify_identities_no_panic|intros _ _]. do 3 (apply bind_no_panic; [unfold check; no_panic|intros _ _]).
  apply bind_no_panic; [apply dense_cells_no_panic|intros cells _]. unfold check. no_panic.
Qed.
(** A valid input has the shapes its matrices need, and a budget the cache accepts. *)
Lemma validated_shapes input : validated input = Ok tt -> execution_shapes (pi_numeric input) /\ 0 <= bo_max_owned_bytes (pi_limits input) < USIZE_MAX.
Proof using.
  unfold validate_execution. intros ([] & Hb & H)%bind_ok. apply map_err_ok in Hb. apply bind_ok in H as (art & _ & H). apply bind_ok in H as ([] & _ & H).
  apply bind_ok in H as ([] & _ & H). apply bind_ok in H as ([] & Hd & H). apply bind_ok in H as ([] & Hm & H). apply bind_ok in H as (cells & Hc & H).
  apply bind_ok in H as ([] & Hl & H). unfold bounds_validate in Hb. apply bind_ok in Hb as ([] & Hb & _). apply ensure_ok in Hd, Hm, Hl, Hb.
  simpl in Hb. rewrite !andb_true_iff in Hd. rewrite !andb_true_iff in Hm. rewrite !andb_true_iff in Hl. rewrite !andb_true_iff in Hb. destruct Hm as [[[[[[Ha1 Ha2] Hb1] Hb2] Hc1] Hc2] Hy].
  rewrite forallb_forall in Ha2. rewrite forallb_forall in Hb2. rewrite forallb_forall in Hc2.
  unfold dense_cells in Hc. apply bind_ok in Hc as ([] & _ & Hc). inv_result. split; [split|].
  - split; [by apply Nat.eqb_eq|]. apply Forall_forall. intros r Hr%list_elem_of_In. by apply Nat.eqb_eq, Ha2.
  - split; [by apply Nat.eqb_eq|]. apply Forall_forall. intros r Hr%list_elem_of_In. by apply Nat.eqb_eq, Hb2.
  - split; [by apply Nat.eqb_eq|]. apply Forall_forall. intros r Hr%list_elem_of_In. by apply Nat.eqb_eq, Hc2.
  - by apply Nat.eqb_eq.
  - rewrite !Nat.ltb_lt in Hd. tauto.
  - unfold default_bounds in Hb. simpl in Hb. lia.
  - unfold default_bounds in Hb. simpl in Hb. unfold USIZE_MAX, U64_MAX. lia.
Qed.
(** The study's service: prepared, then the reference answer. *)
Lemma solve_study_spec clk now limit data y : 0 <= limit < USIZE_MAX ->
  match solve_study capacity clk now limit data y with
  | Ok r => exists bm f v, build f64_zero data = Ok bm /\ (factorize (bm_m bm) {| print_level := f64_zero |}).1 = Ok f
      /\ model_ok {| p_factorization := f; p_b := bm_b bm; p_c := bm_c bm; p_validation := v |}
      /\ answer {| p_factorization := f; p_b := bm_b bm; p_c := bm_c bm; p_validation := v |} default_solve_options y = Ok r
  | Err _ => True
  | Panic => False
  end.
Proof using Hcap.
  intros Hl. unfold solve_study, with_exact_zero_policy. unfold mbind at 1, svc_bind at 1.
  set (service := {| builder_zero_epsilon := f64_zero; admission_fill_in_multiplier := _ |}).
  pose proof (prepare_outcome capacity limit now service clk data default_options (with_capacity limit) Hcap Hl (shared_new _ _)) as Ho. cbn zeta in Ho.
  destruct (Service.prepare capacity service clk data default_options (with_capacity limit)) as [c' [pr|e|]]; simpl; [|done..].
  destruct Ho as (bm & f & v & Hb & Hf & _ & Hg & _). assert (Hok := built_model_ok f64_zero data bm _ f v Hb Hf).
  rewrite (solve_one_answer _ _ _ _ _ _ _ Hg Hok). simpl. pose proof (answer_no_panic _ default_solve_options y Hok) as Hn.
  destruct (answer _ default_solve_options y) as [r|e|] eqn:Ea; [|done..]. by exists bm, f, v.
Qed.

(** The matrices of the study, factorized and solved. *)
Definition solved_exactly (n : NumericInput) (x g h : list f64) : Prop :=
  exists bm f,
    agrees f64_zero (bm_m bm) (Z.of_nat (length (nu_views n))) (Z.of_nat (length (nu_views n))) (study_m (nu_a n))
    /\ agrees f64_zero (bm_b bm) (Z.of_nat (length (nu_inventory_axes n))) (Z.of_nat (length (nu_views n))) (dense_entry (nu_b n))
    /\ agrees f64_zero (bm_c bm) (Z.of_nat (length (nu_method_axes n))) (Z.of_nat (length (nu_inventory_axes n))) (dense_entry (nu_c n))
    /\ (factorize (bm_m bm) {| print_level := f64_zero |}).1 = Ok f /\ solve f (nu_y n) = Ok x
    /\ g = times (bm_b bm) x /\ h = times (bm_c bm) g /\ length x = length (nu_views n).
Definition demand_scale (x y : list f64) : f64 := foldl (fun a b => f64_max a (f64_abs b)) f64_one (x ++ y).
(** What a result of [execute] guarantees. *)
Record sound_result (input : PreparedInput) (r : StudyResult) : Prop := {
  so_solved : solved_exactly (pi_numeric input) (st_x r) (st_g r) (st_h r);
  so_finite : Forall (fun v => is_finite v = true) (st_x r ++ st_g r ++ st_h r);
  so_nonnegative : Forall (fun v => (f64_zero <=? v)%f64 = true) (st_x r);
  so_balanced : forall row res, residual_at (nu_a (pi_numeric input)) (st_x r) (nu_y (pi_numeric input)) row = Some res ->
    is_nan res = true \/ (f64_abs res <=? residual_tolerance * demand_scale (st_x r) (nu_y (pi_numeric input)))%f64 = true;
  so_coverage : st_coverage r = pi_coverage input /\ (st_complete_lcia_scores r = true <-> pi_coverage input = []);
  so_identity : st_model_hash r = pi_model_hash input /\ st_input_hash r = pi_input_hash input /\ st_business_pilot_qualified r = false;
}.
Lemma solve_study_exact clk now version input data ans : validated input = Ok tt -> sparse_data version (pi_numeric input) = Ok data ->
  solve_study capacity clk now (bo_max_owned_bytes (pi_limits input)) data (nu_y (pi_numeric input)) = Ok ans ->
  exists x g h, sr_x ans = Some x /\ sr_g ans = Some g /\ sr_h ans = Some h /\ solved_exactly (pi_numeric input) x g h.
Proof using Hcap.
  intros Hv Hd Hs. destruct (validated_shapes input Hv) as [HS Hl]. pose proof (solve_study_spec clk now _ data (nu_y (pi_numeric input)) Hl) as Hspec.
  rewrite Hs in Hspec. destruct Hspec as (bm & f & v & Hb & Hf & Hok & Ha). destruct (study_built version _ data HS Hd) as (bm' & Hb' & HM & HB & HC).
  rewrite Hb in Hb'. injection Hb' as <-. unfold answer in Ha. simpl in Ha. destruct (_ =? _)%nat in Ha; [|done].
  destruct (solve f (nu_y (pi_numeric input))) as [x|e|] eqn:Ex; [|done..]. injection Ha as <-. simpl. eexists _, _, _. split_and!; [done..|].
  exists bm, f. destruct Hok as [Hsol _]. destruct (solve_ok_inv f _ x Hsol Ex) as (_ & Hlen & _). split_and!; try done. rewrite Hlen. apply es_y. done.
Qed.
Lemma execute_study_spec clk now version elapsed input :
  match executed clk now version elapsed input with
  | Ok r => validated input = Ok tt /\ sound_result input r
  | Err _ => True
  | Panic => False
  end.
Proof using Hvalue Hinput Hcap.
  unfold execute. pose proof (validate_execution_no_panic input) as Hvn. destruct (validated input) as [[]|e|] eqn:Hv; [|done..]. cbn [map_err mbind result_bind].
  destruct (validated_shapes input Hv) as [HS Hl].
  assert (Hdn : sparse_data version (pi_numeric input) <> Panic) by (unfold sparse_data, to_i32; pose proof triplets_no_panic; no_panic).
  destruct (sparse_data version (pi_numeric input)) as [data|e|] eqn:Hd; [|done..]. cbn [map_err mbind result_bind].
  pose proof (solve_study_spec clk now _ data (nu_y (pi_numeric input)) Hl) as Hspec.
  destruct (solve_study capacity clk now (bo_max_owned_bytes (pi_limits input)) data (nu_y (pi_numeric input))) as [ans|e|] eqn:Hs; [|done..]. clear Hspec. cbn [map_err mbind result_bind].
  destruct (solve_study_exact _ _ _ _ _ _ Hv Hd Hs) as (x & g & h & -> & -> & -> & Hsol). cbn [mbind result_bind ok_or].
  destruct (worst_residual_spec (nu_a (pi_numeric input)) x (nu_y (pi_numeric input))) as (worst & Hw & _ & Hres).
  { rewrite (es_y _ HS). apply (es_a _ HS). }
  { rewrite (es_y _ HS). by destruct Hsol as (? & ? & _ & _ & _ & _ & _ & _ & _ & ?). }
  unfold check, ensure. destruct (forallb is_finite (x ++ g ++ h)) eqn:Hfin; [|exact I]. cbn [map_err mbind result_bind].
  destruct (forallb _ x) eqn:Hpos; [|exact I]. cbn [map_err mbind result_bind]. rewrite Hw. cbn [map_err mbind result_bind].
  fold (demand_scale x (nu_y (pi_numeric input))). destruct (worst <=? _)%f64 eqn:Hbal; [|exact I]. cbn [map_err mbind result_bind].
  destruct (elapsed <=? U64_MAX); [|exact I]. cbn [map_err mbind result_bind]. destruct (elapsed <=? _); [|exact I]. cbn [map_err mbind result_bind].
  pose proof (artifact_bytes_no_panic input_bytes Hinput input). destruct (artifact_bytes input_bytes input) as [art|e|]; [|exact I|by apply H]. cbn [map_err mbind result_bind].
  split; [done|]. split; cbn [st_x st_g st_h st_coverage st_complete_lcia_scores st_model_hash st_input_hash st_business_pilot_qualified]; [exact Hsol| | | | |by split_and!].
  - apply Forall_forall. intros v Hin. rewrite forallb_forall in Hfin. by apply Hfin, list_elem_of_In.
  - apply Forall_forall. intros v Hin. rewrite forallb_forall in Hpos. by apply Hpos, list_elem_of_In.
  - intros row res Hr. destruct (Hres row res Hr) as [?|Hle]; [by left|right]. by eapply SFleb_trans.
  - split; [done|]. apply bool_decide_eq_true.
Qed.
End Executed.

(** ** Methods recovered from a prepared input *)

Lemma bind_enumerate_ext {A B C} (l1 : list A) (l2 : list B) (f : nat * A -> list C) (g : nat * B -> list C) : length l1 = length l2 ->
  (forall r x y, l1 !! r = Some x -> l2 !! r = Some y -> f (r, x) = g (r, y)) -> enumerate l1 ≫= f = enumerate l2 ≫= g.
Proof.
  intros Hl Hfg. assert (Hb : forall A' (h : A' -> list C) l, l ≫= h = concat (h <$> l)) by (intros A' h; induction l as [|a l IH]; [done|]; rewrite bind_cons, IH; done).
  rewrite !Hb. f_equal. apply list_eq_same_length with (n := length l1); [rewrite length_fmap, length_enumerate; done..|].
  intros r x y _. rewrite !list_lookup_fmap. unfold enumerate. rewrite !list_lookup_imap. destruct (l1 !! r) eqn:E1, (l2 !! r) eqn:E2; simpl; try done.
  intros [= <-] [= <-]. by apply Hfg.
Qed.

Section Frozen.
Context (show_f64 : f64 -> string) (refs : list DatasetRef) (binding : option StudyBinding) (methods : VerifiedMethods) (bounds : Bounds).
Context (m : NormalizedModel) (n : NumericInput) (coverage : list CoverageGap).
Context (HC : compiled show_f64 refs binding methods bounds m n coverage).
Context (Hrefs : axis_ref <$> vm_axes methods = refs) (Hids : NoDup (ref_id <$> refs)) (Hfactors : length (vm_factors methods) = length (vm_axes methods)).

Local Abbreviation axes := (nu_inventory_axes n).
Definition is_gap (reference : DatasetRef) (column : nat) : bool :=
  existsb (fun gap => bool_decide (gp_method gap = reference) && (gp_inventory_index gap =? column)%nat) coverage.
Definition frozen_factor (reference : DatasetRef) (row : nat) (ca : nat * InventoryAxis) : option Factor :=
  if is_gap reference ca.1 then None
  else mk_factor (ax_flow ca.2) (ax_direction ca.2) <$> StudyCompile.cell (nu_c n) row ca.1.
Definition frozen_factors (row : nat) (reference : DatasetRef) : list Factor := omap (frozen_factor reference row) (enumerate axes).

Lemma method_at row reference : refs !! row = Some reference -> exists a factors, vm_axes methods !! row = Some a /\ axis_ref a = reference /\ vm_factors methods !! row = Some factors.
Proof using Hrefs Hfactors.
  intros Hr. rewrite <-Hrefs, list_lookup_fmap in Hr. destruct (vm_axes methods !! row) as [a|] eqn:Ha; [|done]. injection Hr as <-.
  pose proof (lookup_lt_Some _ _ _ Ha) as Hlt. rewrite <-Hfactors in Hlt. apply lookup_lt_is_Some in Hlt as [factors Hf]. by exists a, factors.
Qed.
(** A gap is an axis the method has no factor for. *)
Lemma is_gap_iff row reference factors j a : refs !! row = Some reference -> vm_factors methods !! row = Some factors -> axes !! j = Some a ->
  is_gap reference j = true <-> selected factors a = [].
Proof using HC Hids.
  intros Hr Hf Ha. unfold is_gap. rewrite existsb_exists, (cp_coverage _ _ _ _ _ _ _ _ HC). split.
  - intros (gap & Hin%list_elem_of_In & [Hm%bool_decide_eq_true Hj%Nat.eqb_eq]%andb_true_iff). apply list_elem_of_bind in Hin as ([r' fs] & Hg & Hr'%elem_of_enumerate).
    apply list_elem_of_omap in Hg as ([j' a'] & Hj'%elem_of_enumerate & Hgap). unfold gap_at in Hgap. simpl in Hgap. destruct (selected fs a') eqn:Es; [|done].
    apply fmap_Some in Hgap as (m' & Hm' & ->). simpl in Hm, Hj. subst m' j'.
    assert (row = r') as -> by (eapply NoDup_lookup; [exact Hids|by rewrite list_lookup_fmap, Hr|by rewrite list_lookup_fmap, Hm']). congruence.
  - intros Hs. exists (mk_gap reference j). split; [|simpl; by rewrite bool_decide_true, Nat.eqb_refl]. apply list_elem_of_In, list_elem_of_bind.
    exists (row, factors). split; [|by apply elem_of_enumerate]. apply list_elem_of_omap. exists (j, a). split; [by apply elem_of_enumerate|].
    unfold gap_at. simpl. by rewrite Hs, Hr.
Qed.
Lemma no_other_factor row reference (a : InventoryAxis) l : (forall ca, ca ∈ l -> key_of_axis ca.2 <> key_of_axis a) -> selected (omap (frozen_factor reference row) l) a = [].
Proof using.
  intros Hk. unfold selected. destruct (filter _ _) as [|f fs] eqn:E; [done|]. exfalso.
  assert (Hin : f ∈ filter (fun f => factor_matches a f = true) (omap (frozen_factor reference row) l)) by (rewrite E; apply list_elem_of_here).
  apply list_elem_of_filter in Hin as [Hm Hin]. apply list_elem_of_omap in Hin as (ca & Hca & Hf). apply (Hk ca Hca). unfold frozen_factor in Hf.
  destruct (is_gap _ _); [done|]. apply fmap_Some in Hf as (x & _ & ->). unfold factor_matches in Hm. simpl in Hm.
  apply andb_true_iff in Hm as [H1%bool_decide_eq_true H2%bool_decide_eq_true]. unfold key_of_axis. by rewrite H1, H2.
Qed.
Lemma selected_frozen row reference j a : axes !! j = Some a -> selected (frozen_factors row reference) a = option_list (frozen_factor reference row (j, a)).
Proof using HC.
  intros Ha. pose proof (proj1 (inventory_axes_spec m)) as HN. rewrite <-(proj1 (cp_axes _ _ _ _ _ _ _ _ HC)) in HN.
  assert (Hin : (j, a) ∈ enumerate axes) by (by apply elem_of_enumerate). apply list_elem_of_split in Hin as (pre & post & E).
  pose proof (NoDup_enumerate axes) as HE. rewrite E in HE. apply NoDup_app in HE as (_ & Hpre & HE). apply NoDup_cons in HE as [Hpost _].
  assert (Hkey : forall j' a', (j', a') ∈ enumerate axes -> key_of_axis a' = key_of_axis a -> (j', a') = (j, a)).
  { intros j' a' Hj'%elem_of_enumerate Hk. assert (j' = j) as -> by (eapply NoDup_lookup; [exact HN|by rewrite list_lookup_fmap, Hj'|by rewrite list_lookup_fmap, Ha; simpl; rewrite Hk]).
    congruence. }
  unfold frozen_factors, selected. rewrite E, omap_app, filter_app. fold (selected (omap (frozen_factor reference row) pre) a).
  rewrite no_other_factor.
  2: { intros [j' a'] Hin Hk. rewrite (Hkey j' a') in Hin; [|rewrite E; apply elem_of_app; by left|done]. apply (Hpre _ Hin), list_elem_of_here. }
  rewrite app_nil_l. csimpl. assert (HP : selected (omap (frozen_factor reference row) post) a = []).
  { apply no_other_factor. intros [j' a'] Hin Hk. rewrite (Hkey j' a') in Hin; [done|rewrite E; apply elem_of_app; right; by apply list_elem_of_further|done]. }
  destruct (frozen_factor reference row (j, a)) as [f|] eqn:Ef; [|exact HP]. rewrite filter_cons_True; [by fold (selected (omap (frozen_factor reference row) post) a); rewrite HP|].
  unfold frozen_factor in Ef. destruct (is_gap _ _); [done|]. apply fmap_Some in Ef as (x & _ & ->). unfold factor_matches. simpl. by rewrite !bool_decide_true.
Qed.

(** The recovered factors compile to the same cells and the same gaps. *)
Lemma frozen_row row reference factors j a : refs !! row = Some reference -> vm_factors methods !! row = Some factors -> axes !! j = Some a ->
  StudyCompile.cell (nu_c n) row j = Some (positive_zero (factor_cell (frozen_factors row reference) a))
  /\ (length (selected (frozen_factors row reference) a) <= 1)%nat
  /\ (selected (frozen_factors row reference) a = [] <-> selected factors a = []).
Proof using HC Hids.
  intros Hr Hf Ha. destruct (cp_factors _ _ _ _ _ _ _ _ HC row factors j a Hf Ha) as [Hcell _]. unfold factor_cell at 1. rewrite (selected_frozen row reference j a Ha).
  pose proof (is_gap_iff row reference factors j a Hr Hf Ha) as Hg. unfold frozen_factor. simpl. destruct (is_gap reference j).
  - simpl. rewrite Hcell. unfold factor_cell. rewrite (proj1 Hg eq_refl). split_and!; [done|by apply Nat.leb_le|tauto].
  - rewrite Hcell. simpl. split_and!; [|by apply Nat.leb_le|].
    + f_equal. unfold positive_zero. by destruct (factor_cell factors a =? f64_zero)%f64 eqn:E; rewrite ?E.
    + split; [done|]. intros Hs. by apply Hg in Hs.
Qed.
Lemma frozen_gaps row reference factors : refs !! row = Some reference -> vm_factors methods !! row = Some factors ->
  gaps_of refs axes (row, frozen_factors row reference) = gaps_of refs axes (row, factors).
Proof using HC Hids.
  intros Hr Hf. unfold gaps_of. cbn [fst snd]. apply list_omap_ext, Forall_Forall2_diag, Forall_forall. intros [j a] Ha%elem_of_enumerate.
  destruct (frozen_row row reference factors j a Hr Hf Ha) as (_ & _ & Hs). unfold gap_at. simpl.
  destruct (selected (frozen_factors row reference) a), (selected factors a); [done|discriminate (proj1 Hs eq_refl)|discriminate (proj2 Hs eq_refl)|done].
Qed.
Definition frozen : VerifiedMethods := mk_methods (vm_axes methods) (imap frozen_factors refs) (vm_source_hash methods).
Lemma frozen_compiled : compiled show_f64 refs binding frozen bounds m n coverage.
Proof using HC Hids Hrefs Hfactors.
  split; try apply HC.
  - intros r factors j a Hf Ha. simpl in Hf. rewrite list_lookup_imap in Hf. apply fmap_Some in Hf as (reference & Hr & ->).
    destruct (method_at r reference Hr) as (ax & fs & _ & _ & Hfs). destruct (frozen_row r reference fs j a Hr Hfs Ha) as (H1 & H2 & _). done.
  - etrans; [exact (cp_coverage _ _ _ _ _ _ _ _ HC)|]. simpl. apply bind_enumerate_ext.
    + by rewrite length_imap, <-Hrefs, length_fmap.
    + intros r fs fs' Hfs Hfs'. rewrite list_lookup_imap in Hfs'. apply fmap_Some in Hfs' as (reference & Hr & ->). symmetry. by apply frozen_gaps.
Qed.

(** The loop recovers them. *)
Lemma frozen_method_row input row reference : pi_numeric input = n -> pi_coverage input = coverage -> refs !! row = Some reference ->
  exists a, vm_axes methods !! row = Some a /\ forall axs fs seen, ref_id reference ∉ seen ->
    frozen_method input (axs, fs, seen) reference = Ok (axs ++ [a], fs ++ [frozen_factors row reference], {[ref_id reference]} ∪ seen).
Proof using HC Hids Hrefs Hfactors.
  intros Hn Hc Hr. destruct (method_at row reference Hr) as (a & factors & Ha & Hax & Hf). exists a. split; [done|]. intros axs fs seen Hseen.
  unfold frozen_method, check, ensure. rewrite Hn, Hc, (cp_method_axes _ _ _ _ _ _ _ _ HC), bool_decide_true by done. cbn [mbind result_bind].
  assert (Hfind : list_find (fun a => ma_id a = ref_id reference /\ ma_version a = ref_version reference) (vm_axes methods) = Some (row, a)).
  { apply list_find_Some. split_and!; [done|by rewrite <-Hax|by rewrite <-Hax|]. intros j a' Ha' Hlt [Hid _].
    enough (j = row) by lia. eapply NoDup_lookup; [exact Hids|by rewrite list_lookup_fmap, <-Hrefs, list_lookup_fmap, Ha'|].
    rewrite list_lookup_fmap, Hr. simpl. by rewrite <-Hid. }
  rewrite Hfind. cbn [ok_or mbind result_bind].
  match goal with |- context [foldM ?f ?l []] => assert (HF : foldM f l [] = Ok (frozen_factors row reference)) end; [|by rewrite HF].
  destruct (foldM_total_ind (fun pre acc => acc = omap (frozen_factor reference row) pre)
    (fun selected (ca : nat * InventoryAxis) => if is_gap reference ca.1 then Ok selected
       else r ← unwrap (nu_c n !! row); value ← unwrap (r !! ca.1); Ok (E:=StudyError) (selected ++ [mk_factor (ax_flow ca.2) (ax_direction ca.2) value]))
    (enumerate axes) []) as (acc & Hacc & ->); [done| |exact Hacc].
  intros pre [j ax] post acc E ->. destruct (enumerate_middle _ _ _ _ _ E) as (_ & Hj & _). rewrite option_list_omap. cbn [fst snd].
  replace (frozen_factor reference row (j, ax)) with (if is_gap reference j then None else mk_factor (ax_flow ax) (ax_direction ax) <$> StudyCompile.cell (nu_c n) row j) by done.
  destruct (is_gap reference j); [eexists; split; [done|by rewrite app_nil_r]|].
  destruct (frozen_row row reference factors j ax Hr Hf Hj) as (Hcell & _). unfold StudyCompile.cell in Hcell |- *. destruct (nu_c n !! row) as [r|]; [|done].
  simpl in Hcell |- *. rewrite Hcell. simpl. by eexists.
Qed.
Lemma frozen_methods_loop input : pi_numeric input = n -> pi_coverage input = coverage ->
  exists seen, foldM (frozen_method input) refs ([], [], ∅) = Ok (vm_axes methods, imap frozen_factors refs, seen).
Proof using HC Hids Hrefs Hfactors.
  intros Hn Hc.
  destruct (foldM_total_ind (fun pre acc => acc = (take (length pre) (vm_axes methods), imap frozen_factors pre, list_to_set (ref_id <$> pre)))
    (frozen_method input) refs ([], [], ∅)) as (acc & Hacc & ->); [done| |].
  - intros pre reference post acc E ->. assert (Hr : refs !! length pre = Some reference) by (rewrite E; by apply list_lookup_middle).
    destruct (frozen_method_row input (length pre) reference Hn Hc Hr) as (a & Ha & ->).
    + eexists. split; [done|]. rewrite length_app, imap_app. simpl. rewrite Nat.add_0_r, Nat.add_1_r, (take_S_r _ _ a Ha), fmap_app, list_to_set_app_L. simpl.
      f_equal. by rewrite (right_id_L ∅ (∪)), (comm_L (∪)).
    + rewrite elem_of_list_to_set. intros Hin. pose proof Hids as HN. rewrite E, fmap_app in HN. apply NoDup_app in HN as (_ & HN & _).
      apply (HN _ Hin). apply list_elem_of_here.
  - rewrite Hacc. rewrite take_ge; [by eexists|]. rewrite <-Hrefs, length_fmap. done.
Qed.
End Frozen.

(** ** Properties *)

(** C17: preparing is total and exact.  When the decoders and encoders do not
    panic, [prepare] does not panic either.  What it returns has a well formed
    model and the matrices that model describes: one column per reference or
    supplying exchange; each cell of A and B the sum of exactly the exchanges
    that belong to it, each scaled to its column's pivot and share, in order;
    each cell of C the one factor of its method, and a gap where there is none;
    the demand on the reference.  Its identities verify, and the executor
    accepts it unless the study has no functional unit and the limit on amounts
    is below one. *)
Theorem prepared_study_exact (value_bytes : Identified -> result StudyError string) (input_bytes : PreparedInput -> result StudyError string)
    (decode_source : string -> result StudyError SourceInput) (sha256 : string -> string) (fingerprint : string)
    (from_str : string -> result string Value) (encoded_size : Value -> result string Z) (show_f64 : f64 -> string)
    (elapsed : Z) (data : string) (methods : VerifiedMethods) (bounds : Bounds) :
  (forall v, value_bytes v <> Panic) -> (forall i, input_bytes i <> Panic) -> (forall s, decode_source s <> Panic) ->
  (forall s, from_str s <> Panic) -> (forall v, encoded_size v <> Panic) -> (forall v k, encoded_size v = Ok k -> 0 <= k) ->
  length (vm_factors methods) = length (vm_axes methods) ->
  let prepared := prepare value_bytes input_bytes decode_source sha256 fingerprint from_str encoded_size show_f64 elapsed data methods bounds in
  prepared <> Panic
  /\ forall input, prepared = Ok input ->
       exists source, decode_source data = Ok source /\ pi_study_binding input = so_study_binding source /\ model_wf (pi_model input)
         /\ compiled show_f64 (so_method_refs source) (so_study_binding source) methods bounds (pi_model input) (pi_numeric input) (pi_coverage input)
         /\ verify_identities value_bytes sha256 input = Ok tt
         /\ ((pi_study_binding input = None -> (f64_one <=? bo_max_functional_unit_amount bounds)%f64 = true) ->
             validate_execution value_bytes input_bytes sha256 fingerprint input = Ok tt).
Proof.
  intros Hv Hi Hs Hf He He' Hl prepared. split; [by apply prepare_no_panic|]. intros input Hp.
  destruct (prepared_compiled _ _ _ _ _ _ _ _ He' elapsed data methods bounds Hl input Hp) as (source & H1 & H2 & _ & _ & H3 & H4 & H5).
  exists source. split_and!; try done. intros Hone. by eapply prepared_validates.
Qed.

(** C18: executing is total and its results are sound.  [execute] does not
    panic, and a result comes from an input that validates: its activities are
    the solver's for the factorization of exactly [I - A] of the study, its
    inventory and impacts are the products with exactly B and C; all numbers are
    finite, the activities nonnegative, and what they leave of the demand is in
    every row within the tolerance or not a number; the scores are called
    complete exactly when no factor is missing. *)
Theorem study_execution_sound (value_bytes : Identified -> result StudyError string) (input_bytes : PreparedInput -> result StudyError string)
    (sha256 : string -> string) (fingerprint : string) `{TextLib} `{HashMapIter} `{UmfpackLib} (capacity : nat -> Z)
    (clk : nat -> Z) (now : Z) (version : Uuid) (elapsed : Z) (input : PreparedInput) :
  (forall v, value_bytes v <> Panic) -> (forall i, input_bytes i <> Panic) -> (forall n, 0 <= capacity n) ->
  let executed := execute value_bytes input_bytes sha256 fingerprint capacity clk now version elapsed input in
  executed <> Panic
  /\ forall r, executed = Ok r ->
       validate_execution value_bytes input_bytes sha256 fingerprint input = Ok tt /\ sound_result input r.
Proof.
  intros Hv Hi Hc executed.
  pose proof (execute_study_spec value_bytes input_bytes sha256 fingerprint Hv Hi capacity Hc clk now version elapsed input) as HE. fold executed in HE.
  split; [by intros E; rewrite E in HE|]. intros r E. by rewrite E in HE.
Qed.

(** C22: the methods of a prepared input survive freezing.  Recovering from an
    input that [prepare] returned the methods it was prepared with succeeds, and
    the input is exactly what the recovered methods compile to: the same cells
    of C and the same gaps. *)
Theorem frozen_methods_recompile (value_bytes : Identified -> result StudyError string) (input_bytes : PreparedInput -> result StudyError string)
    (decode_source : string -> result StudyError SourceInput) (sha256 : string -> string) (fingerprint : string)
    (from_str : string -> result string Value) (encoded_size : Value -> result string Z) (show_f64 : f64 -> string)
    (elapsed : Z) (data : string) (methods : VerifiedMethods) (bounds : Bounds) (source : SourceInput) (input : PreparedInput) :
  (forall v k, encoded_size v = Ok k -> 0 <= k) -> length (vm_factors methods) = length (vm_axes methods) -> decode_source data = Ok source ->
  prepare value_bytes input_bytes decode_source sha256 fingerprint from_str encoded_size show_f64 elapsed data methods bounds = Ok input ->
  (pi_study_binding input = None -> (f64_one <=? bo_max_functional_unit_amount bounds)%f64 = true) ->
  exists recovered, from_frozen value_bytes input_bytes sha256 fingerprint input (so_method_refs source) = Ok recovered
    /\ vm_axes recovered = vm_axes methods /\ vm_source_hash recovered = vm_source_hash methods
    /\ compiled show_f64 (so_method_refs source) (so_study_binding source) recovered bounds (pi_model input) (pi_numeric input) (pi_coverage input).
Proof.
  intros He Hl Hs Hp Hone. pose proof (prepared_validates _ _ _ _ _ _ _ _ He elapsed data methods bounds Hl input Hp Hone) as Hv.
  destruct (prepared_compiled _ _ _ _ _ _ _ _ He elapsed data methods bounds Hl input Hp) as (source' & Hs' & _ & Hr & Hids & _ & HC & _).
  rewrite Hs in Hs'. injection Hs' as <-.
  destruct (prepare_steps _ _ _ _ _ _ _ _ _ _ _ _ _ Hp) as (src & model & owned & numeric & coverage & hs & _ & _ & Hne & Hmax & _ & _ & _ & _ & _ & E & _).
  exists (frozen (so_method_refs source) methods (pi_numeric input) (pi_coverage input)). split_and!; [|done..|by apply frozen_compiled].
  unfold from_frozen. rewrite Hv. cbn [mbind result_bind].
  destruct (frozen_methods_loop _ _ _ _ _ _ _ _ HC Hr Hids Hl input eq_refl eq_refl) as (seen & ->). cbn [mbind result_bind]. unfold check, ensure.
  assert (Hlim : pi_limits input = bounds /\ pi_method_source_hash input = vm_source_hash methods) by (rewrite E; done). destruct Hlim as [-> ->].
  rewrite bool_decide_false; [|rewrite <-Hr; by destruct (vm_axes methods)]. replace (_ <=? _) with true; [done|].
  symmetry. apply Z.leb_le. by rewrite <-Hr, length_fmap.
Qed.

(** ** A study from its source to its result *)

#[local] Existing Instance example_text.
#[local] Instance study_umfpack : UmfpackLib := upper2 0.

Definition sample_methods : VerifiedMethods :=
  mk_methods [mk_method_axis "method" "1" "kg"] [[mk_factor (mk_ref "gas" "1") "Output" (f64_of_Z 3); mk_factor (mk_ref "gas" "1") "Input" f64_one]] "methods".
Definition sample_prepare : result StudyError PreparedInput :=
  prepare (fun _ => Ok "value") (fun _ => Ok "input") (fun _ => Ok sample_source) (fun s => "h" +:+ s) "f" sample_decode (fun _ => Ok 100)
    (fun _ => "") 10 "source" sample_methods default_bounds.
Definition sample_execute (input : PreparedInput) : result ExecuteError StudyResult :=
  execute (fun _ => Ok "value") (fun _ => Ok "input") (fun s => "h" +:+ s) "f" Z.of_nat Z.of_nat 9 7 10 input.
Lemma sample_decode_no_panic s : sample_decode s <> Panic.
Proof. unfold sample_decode. destruct (list_find _ _) as [[? []]|]; discriminate. Qed.
Lemma sample_size : forall (v : Value) k, Ok (E:=string) 100 = Ok k -> 0 <= k.
Proof. intros v k [= <-]. lia. Qed.

Lemma prepared_study_exact_witness :
  exists input, sample_prepare = Ok input /\ nu_a (pi_numeric input) = [[f64_zero; f64_of_Z 3]; [f64_zero; f64_zero]]
    /\ compiled (fun _ => "") [mk_ref "method" "1"] None sample_methods default_bounds (pi_model input) (pi_numeric input) (pi_coverage input)
    /\ validate_execution (fun _ => Ok "value") (fun _ => Ok "input") (fun s => "h" +:+ s) "f" input = Ok tt.
Proof.
  destruct (prepared_study_exact (fun _ => Ok "value") (fun _ => Ok "input") (fun _ => Ok sample_source) (fun s => "h" +:+ s) "f" sample_decode (fun _ => Ok 100)
    (fun _ => "") 10 "source" sample_methods default_bounds) as [_ HW]; [discriminate..|exact sample_decode_no_panic|discriminate|exact sample_size|reflexivity|].
  assert (E : exists input, sample_prepare = Ok input /\ nu_a (pi_numeric input) = [[f64_zero; f64_of_Z 3]; [f64_zero; f64_zero]]).
  { eexists. split; vm_compute; reflexivity. }
  destruct E as (input & E & Ha). exists input. destruct (HW input E) as (source & Hs & Hb & _ & HC & _ & Hv). injection Hs as <-.
  split; [exact E|]. split; [exact Ha|]. split; [exact HC|]. apply Hv. intros _. vm_compute. reflexivity.
Defined.
Lemma study_execution_sound_witness :
  exists input r, sample_prepare = Ok input /\ sample_execute input = Ok r /\ st_h r = [f64_of_Z 90] /\ sound_result input r.
Proof.
  assert (E : exists input r, sample_prepare = Ok input /\ sample_execute input = Ok r /\ st_h r = [f64_of_Z 90]).
  { eexists. eexists. split; [vm_compute; reflexivity|]. split; vm_compute; reflexivity. }
  destruct E as (input & r & E & Er & Hh). exists input, r. split; [exact E|]. split; [exact Er|]. split; [exact Hh|].
  destruct (study_execution_sound (fun _ => Ok "value") (fun _ => Ok "input") (fun s => "h" +:+ s) "f" Z.of_nat Z.of_nat 9 7 10 input) as [_ HW];
    [discriminate..|exact Nat2Z.is_nonneg|]. exact (proj2 (HW r Er)).
Defined.
Lemma frozen_methods_recompile_witness :
  exists input recovered, sample_prepare = Ok input
    /\ from_frozen (fun _ => Ok "value") (fun _ => Ok "input") (fun s => "h" +:+ s) "f" input [mk_ref "method" "1"] = Ok recovered
    /\ vm_factors recovered = [[mk_factor (mk_ref "gas" "1") "Output" (f64_of_Z 3)]]
    /\ compiled (fun _ => "") [mk_ref "method" "1"] None recovered default_bounds (pi_model input) (pi_numeric input) (pi_coverage input).
Proof.
  assert (E : exists input recovered, sample_prepare = Ok input
    /\ from_frozen (fun _ => Ok "value") (fun _ => Ok "input") (fun s => "h" +:+ s) "f" input [mk_ref "method" "1"] = Ok recovered
    /\ vm_factors recovered = [[mk_factor (mk_ref "gas" "1") "Output" (f64_of_Z 3)]]).
  { eexists. eexists. split; [vm_compute; reflexivity|]. split; vm_compute; reflexivity. }
  destruct E as (input & recovered & E & Er & Hf). exists input, recovered. split; [exact E|]. split; [exact Er|]. split; [exact Hf|].
  destruct (frozen_methods_recompile (fun _ => Ok "value") (fun _ => Ok "input") (fun _ => Ok sample_source) (fun s => "h" +:+ s) "f" sample_decode (fun _ => Ok 100)
    (fun _ => "") 10 "source" sample_methods default_bounds sample_source input sample_size eq_refl eq_refl E) as (recovered' & Er' & _ & _ & HC).
  - intros _. vm_compute. reflexivity.
  - assert (recovered' = recovered) as <- by (assert (X : Ok recovered' = Ok recovered) by (rewrite <- Er'; exact Er); congruence). exact HC.
Defined.

(** A row whose residual is not a number does not count: [f64::max] passes it
    over, and the worst residual stays zero. *)
Lemma nan_residual_ignored :
  let huge := f64_of_Z (10^300) in
  let x := [huge; huge] in
  let a := [[huge; - huge]; [f64_zero; f64_zero]]%f64 in
  residual_at a x x 0 = Some f64_nan /\ worst_residual a x x = Ok f64_zero.
Proof. by vm_compute. Qed.
