(* ===== verification/StaticFactors.v ===== *)
(** * Factors of static methods

    [lcia_nonregional.rs]: a method's source may hold several records for one
    flow and direction, one per region; the prepared defaults say which of them
    the nonregional calculation uses.  With [VerifiedMethods::from_static] of
    [study/compile.rs], which turns a verified bundle into the methods of a
    study.  The theorems say that exactly one record of every family is kept,
    whatever their order, so that a study never finds two factors for one axis.

    The parsed defaults file, the bundle, and parsing and printing of UUIDs are
    arguments. *)

From stdpp Require Import pretty.
From S2P Require Import Prelude F64 Text Json DataBuilder StudySource StudyCompile.

Local Open Scope string_scope.
Local Open Scope Z_scope.
Local Open Scope list_scope.

(** ** Data *)

Inductive StaticLciaDirection := StaticInput | StaticOutput.
#[export] Instance StaticLciaDirection_eq_dec : EqDecision StaticLciaDirection.
Proof. solve_decision. Defined.
#[export] Instance StaticLciaDirection_countable : Countable StaticLciaDirection.
Proof.
  refine (inj_countable' (fun d => match d with StaticInput => true | StaticOutput => false end) (fun b : bool => if b then StaticInput else StaticOutput) _).
  by intros [].
Defined.
Record StaticLciaFactor := mk_static_factor { sf_flow_id : Uuid; sf_flow_version : string; sf_direction : StaticLciaDirection; sf_value : f64 }.
Record StaticLciaMethod := mk_static_method {
  sm_method_id : Uuid;
  sm_method_version : string;
  sm_artifact_locator_id : Uuid;
  sm_artifact_filename : string;
  sm_name : string;
  sm_unit : string;
}.
(** The fields of the source evidence the factors are bound to. *)
Record LcaMethodFactorSourceSnapshot := mk_source_snapshot {
  sn_schema_version : string;
  sn_source_kind : string;
  sn_bundle_manifest_path : string;
  bundle_manifest_sha256 : string;
  sn_bundle_version : string;
  sn_source_snapshot_sha256 : string;
  sn_method_manifest_sha256 : string;
  factor_manifest_sha256 : string;
  sn_method_identity_manifest_sha256 : string;
  sn_method_count : Z;
}.
Record VerifiedStaticLciaBundle := mk_bundle {
  bu_source_evidence : LcaMethodFactorSourceSnapshot;
  bu_methods : list StaticLciaMethod;
  bu_factors_by_method : gmap Uuid (list StaticLciaFactor);
}.
Record PreparedAlternative := mk_alternative {
  al_flow_id : Uuid;
  al_flow_version : string;
  al_direction : string;
  al_value_bits : string;
  al_alternative_count : nat;
}.
Record PreparedMethod := mk_prepared_method {
  pm_method_id : Uuid;
  pm_method_version : string;
  pm_factor_count : nat;
  pm_default_count : nat;
  pm_alternatives : list PreparedAlternative;
}.
Record PreparedDefaults := mk_defaults {
  de_schema : string;
  de_static_bundle_manifest_sha256 : string;
  de_static_factor_manifest_sha256 : string;
  de_methods : list PreparedMethod;
}.
Definition RELEASE_BUNDLE_MANIFEST_SHA256 : string := "e9b4e7f9a5125bb921efbffba9a4b50711f9ea982e22b500f35211884a0479c5".
Definition RELEASE_FACTOR_MANIFEST_SHA256 : string := "40ffd33323c9882dbd0b0d9c99982bad1752e311062231bcf1f490ee96f92e96".

(** ** Families of records *)

Abbreviation FamilyKey := (Uuid * string * StaticLciaDirection)%type.
Definition family (f : StaticLciaFactor) : FamilyKey := (sf_flow_id f, sf_flow_version f, sf_direction f).
(** [BTreeMap<_, Vec<_>>] of the records by family. *)
Abbreviation Groups := (gmap FamilyKey (list StaticLciaFactor)).
Definition group_record (groups : Groups) (record : StaticLciaFactor) : Groups :=
  <[family record := default [] (groups !! family record) ++ [record]]> groups.
Definition group_records (records : list StaticLciaFactor) : Groups := foldl group_record ∅ records.
Definition direction_cmp (a b : StaticLciaDirection) : comparison :=
  match a, b with StaticInput, StaticOutput => Lt | StaticOutput, StaticInput => Gt | _, _ => Eq end.
Definition family_cmp : FamilyKey -> FamilyKey -> comparison :=
  cmp_then (cmp_by (fun k => k.1.1) Z.compare) (cmp_then (cmp_by (fun k => k.1.2) String.compare) (cmp_by snd direction_cmp)).
(** [groups.into_values()], in the order of the keys. *)
Definition into_values (groups : Groups) : list (list StaticLciaFactor) := omap (groups !!.) (sort_by family_cmp (elements (dom groups))).

(** ** Bits in hexadecimal *)

(** [char::to_digit(16)]. *)
Definition hex_digit (c : ascii) : option Z :=
  let n := Z.of_N (N_of_ascii c) in
  if (48 <=? n) && (n <=? 57) then Some (n - 48)
  else if (97 <=? n) && (n <=? 102) then Some (n - 87)
  else if (65 <=? n) && (n <=? 70) then Some (n - 55)
  else None.
Definition push_hex (acc : Z) (c : ascii) : result string Z :=
  match hex_digit c with
  | None => Err "invalid digit found in string"
  | Some d => if acc * 16 <=? U64_MAX then Ok (acc * 16 + d) else Err "number too large to fit in target type"
  end.
(** [u64::from_str_radix(text, 16)]. *)
Definition u64_from_hex (s : string) : result string Z :=
  match bytes s with
  | [] => Err "cannot parse integer from empty string"
  | [c] => if decide (c = "+"%char \/ c = "-"%char) then Err "invalid digit found in string" else push_hex 0 c
  | c :: rest => if decide (c = "+"%char) then foldM push_hex rest 0 else foldM push_hex (c :: rest) 0
  end.

(** ** The defaults of one method *)

Definition direction_of (direction : string) : result string StaticLciaDirection :=
  if decide (direction = "INPUT") then Ok StaticInput
  else if decide (direction = "OUTPUT") then Ok StaticOutput
  else Err "invalid prepared factor direction".
(** One prepared alternative takes its family out of the groups. *)
Definition take_alternative (acc : Groups * list StaticLciaFactor) (prepared : PreparedAlternative) : result string (Groups * list StaticLciaFactor) :=
  let '(groups, output) := acc in
  direction ← direction_of (al_direction prepared);
  let key := (al_flow_id prepared, al_flow_version prepared, direction) in
  records ← ok_or "nonregional prepared family missing" (groups !! key);
  bits ← u64_from_hex (al_value_bits prepared);
  _ ← ensure ((length records =? al_alternative_count prepared)%nat && existsb (fun r => f64_to_bits (sf_value r) =? bits) records)
        "nonregional default differs from bound source";
  Ok (delete key groups, output ++ [mk_static_factor (al_flow_id prepared) (al_flow_version prepared) direction (f64_of_bits bits)]).
(** A family without alternatives has one record. *)
Definition take_single (output : list StaticLciaFactor) (records : list StaticLciaFactor) : result string (list StaticLciaFactor) :=
  _ ← ensure (length records =? 1)%nat "regional alternatives lack prepared default";
  match records with
  | r :: _ => Ok (output ++ [r])
  | [] => Panic
  end.
Definition prepare_records (method : PreparedMethod) (records : list StaticLciaFactor) : result string (list StaticLciaFactor) :=
  _ ← ensure (length records =? pm_factor_count method)%nat "nonregional factor count drift";
  let groups := group_records records in
  _ ← ensure (size groups =? pm_default_count method)%nat "nonregional family count drift";
  '(groups, output) ← foldM take_alternative (pm_alternatives method) (groups, []);
  foldM take_single (into_values groups) output.

(** [defaults()]: the parsed file, bound to the released sources. *)
Definition defaults (parsed : result string PreparedDefaults) : result string PreparedDefaults :=
  value ← parsed;
  _ ← ensure (bool_decide (de_schema value = "lcia.nonregional-defaults.v1")
              && bool_decide (de_static_bundle_manifest_sha256 value = RELEASE_BUNDLE_MANIFEST_SHA256)
              && bool_decide (de_static_factor_manifest_sha256 value = RELEASE_FACTOR_MANIFEST_SHA256))
        "nonregional defaults source binding mismatch";
  Ok value.
Definition prepare_static_method (parsed : result string PreparedDefaults) (bundle : VerifiedStaticLciaBundle) (method_id : Uuid) (version : string)
    : result string (list StaticLciaFactor) :=
  _ ← ensure (bool_decide (bundle_manifest_sha256 (bu_source_evidence bundle) = RELEASE_BUNDLE_MANIFEST_SHA256)
              && bool_decide (factor_manifest_sha256 (bu_source_evidence bundle) = RELEASE_FACTOR_MANIFEST_SHA256))
        "nonregional defaults require the pinned source bundle";
  value ← defaults parsed;
  method ← ok_or "nonregional method defaults missing"
    (find (fun m => bool_decide (pm_method_id m = method_id) && bool_decide (pm_method_version m = version)) (de_methods value));
  records ← ok_or "nonregional factor source missing" (bu_factors_by_method bundle !! method_id);
  prepare_records method records.
Definition is_default_location (value : option Value) : bool :=
  match value with
  | None => true
  | Some (JString v) => bool_decide (trim v = "") || bool_decide (v = "GLO")
  | _ => false
  end.

(** ** The methods of a study *)

Section FromStatic.
(** [Uuid::parse_str] and [Display], and the hash of the source evidence. *)
Context (parse_uuid : string -> result string Uuid) (uuid_text : Uuid -> string) (evidence_hash : LcaMethodFactorSourceSnapshot -> result StudyError string).
Context (parsed : result string PreparedDefaults).

Definition factor_of (f : StaticLciaFactor) : Factor :=
  mk_factor (mk_ref (uuid_text (sf_flow_id f)) (sf_flow_version f)) (match sf_direction f with StaticInput => "Input" | StaticOutput => "Output" end) (sf_value f).
Definition static_method (bundle : VerifiedStaticLciaBundle) (acc : list MethodAxis * list (list Factor) * gset string) (r : DatasetRef)
    : result StudyError (list MethodAxis * list (list Factor) * gset string) :=
  let '(axes, factors, seen) := acc in
  _ ← check (bool_decide (ref_id r ∉ seen)) "study_duplicate_method";
  id ← code (parse_uuid (ref_id r));
  metadata ← ok_or (Code "study_exact_method_missing")
    (find (fun m => bool_decide (sm_method_id m = id) && bool_decide (sm_method_version m = ref_version r)) (bu_methods bundle));
  records ← code (prepare_static_method parsed bundle id (ref_version r));
  Ok (axes ++ [mk_method_axis (ref_id r) (ref_version r) (sm_unit metadata)], factors ++ [factor_of <$> records], {[ref_id r]} ∪ seen).
Definition from_static (bundle : VerifiedStaticLciaBundle) (refs : list DatasetRef) : result StudyError VerifiedMethods :=
  _ ← check (negb (bool_decide (refs = [])) && (Z.of_nat (length refs) <=? bo_max_methods default_bounds)) "study_method_limit";
  '(axes, factors, _) ← foldM (static_method bundle) refs ([], [], ∅);
  source_hash ← evidence_hash (bu_source_evidence bundle);
  Ok (mk_methods axes factors source_hash).
End FromStatic.

(** ** Bits and back *)

Lemma bits_fields (s : bool) E F : 0 <= E < 2048 -> 0 <= F < 2^52 ->
  let b := (if s then 2^63 else 0) + (E * 2^52 + F) in
  Z.testbit b 63 = s /\ Z.land (Z.shiftr b 52) 2047 = E /\ Z.land b (2^52 - 1) = F.
Proof.
  intros HE HF b. assert (Hs : b = Z.b2z s * 2^63 + (E * 2^52 + F)) by (unfold b; destruct s; simpl Z.b2z; lia). split_and!.
  - apply Z.b2z_inj. rewrite Z.testbit_spec' by lia. rewrite Hs, Z.div_add_l by lia. rewrite Z.div_small by lia. rewrite Z.add_0_r. by destruct s.
  - change 2047 with (Z.ones 11). rewrite Z.land_ones, Z.shiftr_div_pow2 by lia. rewrite Hs.
    replace (Z.b2z s * 2^63 + (E * 2^52 + F)) with ((Z.b2z s * 2048 + E) * 2^52 + F) by lia.
    rewrite Z.div_add_l, (Z.div_small F), Z.add_0_r by lia. rewrite Z.add_comm, Z.mod_add by lia. apply Z.mod_small. lia.
  - change (2^52 - 1) with (Z.ones 52). rewrite Z.land_ones by lia. rewrite Hs.
    replace (Z.b2z s * 2^63 + (E * 2^52 + F)) with (F + (Z.b2z s * 2048 + E) * 2^52) by lia. rewrite Z.mod_add by lia. apply Z.mod_small. lia.
Qed.
Lemma of_bits_fields (s : bool) E F : 0 <= E < 2048 -> 0 <= F < 2^52 ->
  f64_of_bits ((if s then 2^63 else 0) + (E * 2^52 + F)) =
    if E =? 2047 then if F =? 0 then S754_infinity s else S754_nan
    else if E =? 0 then match F with Zpos m => S754_finite s m (-1074) | _ => S754_zero s end
    else S754_finite s (Z.to_pos (F + 2^52)) (E - 1075).
Proof. intros HE HF. destruct (bits_fields s E F HE HF) as (H1 & H2 & H3). unfold f64_of_bits. by rewrite H1, H2, H3. Qed.
Lemma digits2_bounds m : 2^(Z.pos (digits2_pos m) - 1) <= Z.pos m < 2^(Z.pos (digits2_pos m)).
Proof.
  induction m as [p IH|p IH|]; cbn [digits2_pos]; [| |by vm_compute].
  all: rewrite Pos2Z.inj_succ; replace (Z.succ (Z.pos (digits2_pos p)) - 1) with (Z.succ (Z.pos (digits2_pos p) - 1)) by lia;
    rewrite !Z.pow_succ_r by lia; lia.
Qed.
(** Valid numbers survive [to_bits] and [from_bits]. *)
Lemma f64_bits_roundtrip x : f64_valid x = true -> f64_of_bits (f64_to_bits x) = x.
Proof.
  unfold f64_valid, valid_binary. destruct x as [s|s| |s m e]; intros Hv; try (destruct s; reflexivity); [reflexivity|].
  unfold bounded, canonical_mantissa, fexp, SpecFloat.emin in Hv. apply andb_true_iff in Hv as [He%Z.eqb_eq Hmax%Z.leb_le].
  pose proof (digits2_bounds m) as Hd. set (d := Z.pos (digits2_pos m)) in *. assert (Hd' : 0 < d) by lia. unfold f64_to_bits. destruct (Z.ltb_spec (Z.pos m) (2^52)) as [Hs|Hs].
  - assert (Hle : d - 1 < 52) by (apply (Z.pow_lt_mono_r_iff 2); lia). assert (e = -1074) as -> by lia.
    replace (Z.pos m) with (0 * 2^52 + Z.pos m) at 1 by lia. rewrite of_bits_fields by lia. done.
  - assert (Hgt : 52 < d) by (apply (Z.pow_lt_mono_r_iff 2); lia). assert (d = 53) as Hd53 by lia. rewrite Hd53 in Hd.
    rewrite of_bits_fields by lia. rewrite (proj2 (Z.eqb_neq _ _)) by lia. rewrite (proj2 (Z.eqb_neq _ _)) by lia.
    replace (Z.pos m - 2^52 + 2^52) with (Z.pos m) by lia. simpl Z.to_pos. f_equal. lia.
Qed.

(** ** Families *)

Definition family_records (records : list StaticLciaFactor) (k : FamilyKey) : list StaticLciaFactor := filter (fun r => family r = k) records.
Lemma group_lookup records k :
  group_records records !! k = match family_records records k with [] => None | l => Some l end.
Proof.
  unfold group_records, family_records. induction records as [|r records IH] using rev_ind; [cbn [foldl]; by rewrite lookup_empty|].
  rewrite foldl_app, filter_app. cbn [foldl]. unfold group_record at 1. destruct (decide (family r = k)) as [<-|Hne].
  - rewrite lookup_insert_eq, IH, filter_cons_True, filter_nil by done. by destruct (filter _ records).
  - rewrite lookup_insert_ne, IH, filter_cons_False, filter_nil, app_nil_r by done. done.
Qed.
Lemma group_some records k l : group_records records !! k = Some l <-> l = family_records records k /\ l <> [].
Proof. rewrite group_lookup. destruct (family_records records k); naive_solver. Qed.

(** ** The order of the records does not matter *)

(** The same families, each with the same records in some order. *)
Definition same_groups (g g' : Groups) : Prop := forall k, option_Forall2 Permutation (g !! k) (g' !! k).
Lemma group_permutation records records' : records ≡ₚ records' -> same_groups (group_records records) (group_records records').
Proof.
  intros Hp k. rewrite !group_lookup. assert (HF : family_records records k ≡ₚ family_records records' k) by (unfold family_records; by rewrite Hp).
  destruct (family_records records k) as [|a l] eqn:E1; destruct (family_records records' k) as [|b l'] eqn:E2; try (by constructor).
  - by apply Permutation_nil_cons in HF.
  - by apply Permutation_nil_r in HF.
Qed.
Lemma same_groups_dom g g' : same_groups g g' -> dom g = dom g'.
Proof. intros HS. apply set_eq. intros k. rewrite !elem_of_dom. specialize (HS k). split; intros [l E]; rewrite E in HS; inversion HS; by eexists. Qed.
Lemma same_groups_delete g g' k : same_groups g g' -> same_groups (delete k g) (delete k g').
Proof.
  intros HS k'. destruct (decide (k = k')) as [->|Hne]; [rewrite !lookup_delete_eq; constructor|]. rewrite !lookup_delete_ne by done. apply HS.
Qed.
Lemma existsb_permutation {A} (p : A -> bool) l l' : l ≡ₚ l' -> existsb p l = existsb p l'.
Proof.
  intros HP. apply eq_true_iff_eq. rewrite !existsb_exists. split; intros (x & Hx%list_elem_of_In & Hp); exists x; (split; [|done]); apply list_elem_of_In; by rewrite <-HP || rewrite HP.
Qed.
(** Related results: equal outputs over the same groups. *)
Definition same_step (r r' : result string (Groups * list StaticLciaFactor)) : Prop :=
  match r, r' with
  | Ok (g, out), Ok (g', out') => same_groups g g' /\ out = out'
  | Err e, Err e' => e = e'
  | Panic, Panic => True
  | _, _ => False
  end.
Lemma take_alternative_same g g' out a : same_groups g g' -> same_step (take_alternative (g, out) a) (take_alternative (g', out) a).
Proof.
  intros HS. unfold take_alternative. destruct (direction_of (al_direction a)) as [d|e|]; [|done..]. cbn [mbind result_bind].
  pose proof (HS (al_flow_id a, al_flow_version a, d)) as Hk. destruct (g !! _) as [l|], (g' !! _) as [l'|]; inversion Hk as [x y HP|]; subst; [|done]. cbn [ok_or mbind result_bind].
  destruct (u64_from_hex (al_value_bits a)) as [bits|e|]; [|done..]. cbn [mbind result_bind]. rewrite (Permutation_length HP), (existsb_permutation _ _ _ HP).
  unfold ensure. destruct (_ && _); [|done]. cbn. split; [by apply same_groups_delete|done].
Qed.
Lemma alternatives_same alternatives g g' out : same_groups g g' ->
  same_step (foldM take_alternative alternatives (g, out)) (foldM take_alternative alternatives (g', out)).
Proof.
  revert g g' out. induction alternatives as [|a alternatives IH]; intros g g' out HS; cbn [foldM]; [done|].
  pose proof (take_alternative_same g g' out a HS) as Ha. destruct (take_alternative (g, out) a) as [[g1 o1]|e|], (take_alternative (g', out) a) as [[g1' o1']|e'|]; try done.
  destruct Ha as [HS' <-]. by apply IH.
Qed.
Lemma into_values_same g g' : same_groups g g' -> Forall2 Permutation (into_values g) (into_values g').
Proof.
  intros HS. unfold into_values. rewrite <-(same_groups_dom g g' HS). induction (sort_by family_cmp (elements (dom g))) as [|k ks IH]; csimpl; [constructor|].
  specialize (HS k). destruct (g !! k), (g' !! k); inversion HS; subst; [by constructor|done].
Qed.
Lemma singles_same groups groups' out : Forall2 Permutation groups groups' -> foldM take_single groups out = foldM take_single groups' out.
Proof.
  intros HF. revert out. induction HF as [|l l' groups groups' HP _ IH]; intros out; cbn [foldM]; [done|].
  assert (Hs : take_single out l = take_single out l').
  { unfold take_single, ensure. rewrite (Permutation_length HP). destruct (Nat.eqb_spec (length l') 1) as [H1|]; [|done]. destruct l' as [|b []]; try done.
    by apply Permutation_singleton_r in HP as ->. }
  rewrite Hs. by destruct (take_single out l').
Qed.
Lemma prepare_records_permutation method records records' : records ≡ₚ records' -> prepare_records method records = prepare_records method records'.
Proof.
  intros HP. unfold prepare_records. pose proof (group_permutation _ _ HP) as HS. rewrite (Permutation_length HP).
  replace (size (group_records records)) with (size (group_records records')) by (rewrite <-!size_dom; by rewrite (same_groups_dom _ _ HS)).
  unfold ensure. destruct (length records' =? _)%nat; [|done]. cbn [mbind result_bind]. destruct (size _ =? _)%nat; [|done]. cbn [mbind result_bind].
  pose proof (alternatives_same (pm_alternatives method) _ _ [] HS) as HA.
  destruct (foldM take_alternative _ (group_records records, [])) as [[g o]|e|], (foldM take_alternative _ (group_records records', [])) as [[g' o']|e'|]; try done.
  - destruct HA as [HS' <-]. apply singles_same. by apply into_values_same.
  - simpl in HA. by subst.
Qed.

(** ** One factor per family *)

(** The factor stands for one record of its family, bit for bit. *)
Definition stands_for (records : list StaticLciaFactor) (f : StaticLciaFactor) : Prop :=
  exists r, r ∈ records /\ family r = family f /\ (f = r \/ sf_value f = f64_of_bits (f64_to_bits (sf_value r))).
Section Exact.
Context (records : list StaticLciaFactor).

(** The families taken so far are out of the groups. *)
Definition taken (acc : Groups * list StaticLciaFactor) : Prop :=
  NoDup (family <$> acc.2) /\ Forall (stands_for records) acc.2
  /\ forall k, acc.1 !! k = if decide (k ∈ family <$> acc.2) then None else group_records records !! k.
Lemma family_records_elem k r : r ∈ family_records records k <-> family r = k /\ r ∈ records.
Proof. unfold family_records. by rewrite list_elem_of_filter. Qed.
Lemma take_alternative_taken acc a acc' : taken acc -> take_alternative acc a = Ok acc' -> taken acc'.
Proof.
  destruct acc as [g out]. intros (HN & HF & HG) H. unfold take_alternative in H. apply bind_ok in H as (d & _ & H). apply bind_ok in H as (l & Hl & H).
  destruct (g !! _) as [l0|] eqn:Eg; [|done]. injection Hl as ->. rename Eg into Hl. apply bind_ok in H as (bits & _ & H). apply bind_ok in H as ([] & Hc & H). inv_result. apply ensure_ok, andb_true_iff in Hc as [_ Hc].
  apply existsb_exists in Hc as (r & Hr%list_elem_of_In & Hb%Z.eqb_eq). set (k := (al_flow_id a, al_flow_version a, d)) in *. pose proof (HG k) as Hk. simpl in Hk.
  rewrite Hl in Hk. destruct (decide (k ∈ family <$> out)) as [|Hni]; [done|]. symmetry in Hk. apply group_some in Hk as [-> _].
  apply family_records_elem in Hr as [Hfam Hin]. split_and!; simpl.
  - rewrite fmap_app. apply NoDup_app. split_and!; [done| |apply NoDup_singleton]. intros x Hx ->%list_elem_of_singleton. done.
  - apply Forall_app. split; [done|]. constructor; [|constructor]. exists r. split_and!; [done|done|]. right. simpl. by rewrite <-Hb.
  - intros k'. rewrite fmap_app. destruct (decide (k' = k)) as [->|Hne].
    + rewrite lookup_delete_eq, decide_True; [done|]. apply elem_of_app. right. apply list_elem_of_here.
    + rewrite lookup_delete_ne by done. rewrite HG. simpl. apply decide_ext. rewrite elem_of_app, list_elem_of_singleton. fold k. naive_solver.
Qed.
(** The families left over are those not taken. *)
Lemma singles_taken ks g out output : taken (g, out) -> NoDup ks -> (forall k, k ∈ ks -> k ∉ family <$> out) ->
  foldM take_single (omap (g !!.) ks) out = Ok output ->
  NoDup (family <$> output) /\ Forall (stands_for records) output
  /\ forall k, k ∈ family <$> output <-> k ∈ family <$> out \/ (k ∈ ks /\ is_Some (g !! k)).
Proof.
  intros (HN & HF & HG) Hks. simpl in HN, HF. assert (HG' : forall k, k ∉ family <$> out -> g !! k = group_records records !! k).
  { intros k Hk. specialize (HG k). simpl in HG. by rewrite decide_False in HG. }
  clear HG. revert out HN HF HG'. induction Hks as [|k ks Hk Hks IH]; intros out HN HF HG Hdis H; csimpl in H.
  { inv_result. split_and!; [done..|]. intros k. rewrite elem_of_nil. tauto. }
  destruct (g !! k) as [l|] eqn:El.
  - cbn [foldM] in H. destruct (take_single out l) as [out1|e|] eqn:E1; [|done..]. cbn [mbind result_bind] in H. unfold take_single in E1.
    apply bind_ok in E1 as ([] & H1 & E1). apply ensure_ok, Nat.eqb_eq in H1. destruct l as [|r []]; try done. inv_result.
    pose proof (HG k (Hdis k (list_elem_of_here k ks))) as Hgk. rewrite El in Hgk. symmetry in Hgk. apply group_some in Hgk as [Hr _].
    assert (Hin : r ∈ family_records records k) by (rewrite <-Hr; apply list_elem_of_here). apply family_records_elem in Hin as [Hfam Hin].
    destruct (IH (out ++ [r])) as (I1 & I2 & I3); [| | | |done|].
    + rewrite fmap_app. apply NoDup_app. split_and!; [done| |apply NoDup_singleton]. intros x Hx ->%list_elem_of_singleton. rewrite Hfam in Hx.
      by apply (Hdis k (list_elem_of_here k ks)).
    + apply Forall_app. split; [done|]. constructor; [|constructor]. exists r. split_and!; auto.
    + intros k' Hk'. apply HG. rewrite fmap_app in Hk'. intros Hx. apply Hk', elem_of_app. by left.
    + intros k' Hk' Hx. rewrite fmap_app in Hx. apply elem_of_app in Hx as [Hx|Hx%list_elem_of_singleton]; [by apply (Hdis k'); [apply list_elem_of_further|]|].
      rewrite Hx, Hfam in Hk'. done.
    + split_and!; [done..|]. intros k'. rewrite I3, fmap_app, elem_of_app. simpl. rewrite list_elem_of_singleton, Hfam, elem_of_cons. split.
      * intros [[?| ->]|[? ?]]; [by left|right; split; [by left|by rewrite El]|by right; split; [right|]].
      * intros [?|[[-> |?] ?]]; [by left; left|by left; right|by right].
  - destruct (IH out) as (I1 & I2 & I3); [done..| |done|]; [intros k' Hk'; by apply Hdis, list_elem_of_further|]. split_and!; [done..|].
    intros k'. rewrite I3, elem_of_cons. split; [intros [?|[? ?]]; [by left|by right; split; [right|]]|]. intros [?|[[-> |?] Hs]]; [by left| |by right].
    rewrite El in Hs. by destruct Hs.
Qed.
End Exact.

Lemma prepare_records_exact method records output : prepare_records method records = Ok output ->
  NoDup (family <$> output) /\ Forall (stands_for records) output /\ forall k, k ∈ family <$> output <-> k ∈ family <$> records.
Proof.
  unfold prepare_records. intros ([] & _ & H)%bind_ok. apply bind_ok in H as ([] & _ & H). apply bind_ok in H as ([g out] & Hg & H).
  assert (HT : taken records (g, out)).
  { revert Hg. apply (foldM_ind (fun _ acc => taken records acc)); [|intros pre a post c c' _; apply take_alternative_taken].
    split_and!; [constructor|constructor|]. intros k. rewrite decide_False; [done|apply not_elem_of_nil]. }
  pose proof HT as (_ & HF & HG). pose proof (sort_by_perm family_cmp (elements (dom g))) as HP. unfold into_values in H.
  destruct (singles_taken records (sort_by family_cmp (elements (dom g))) g out output HT) as (H1 & H2 & H3); [rewrite HP; apply NoDup_elements| |done|].
  { intros k Hk Hx. rewrite HP, elem_of_elements, elem_of_dom, HG in Hk. simpl in Hk. rewrite decide_True in Hk by done. by destruct Hk. }
  split_and!; [done..|]. intros k. rewrite H3, HP, elem_of_elements, elem_of_dom. split.
  - intros [Hx|[[l Hl] _]].
    + apply list_elem_of_fmap in Hx as (f & -> & Hf). rewrite Forall_forall in HF. destruct (HF f Hf) as (r & Hr & <- & _). by apply list_elem_of_fmap_2.
    + rewrite HG in Hl. simpl in Hl. case_decide; [done|]. apply group_some in Hl as [-> Hl]. destruct (family_records records k) as [|r l] eqn:E; [done|].
      assert (Hr : r ∈ family_records records k) by (rewrite E; apply list_elem_of_here). apply family_records_elem in Hr as [<- Hr]. by apply list_elem_of_fmap_2.
  - intros (r & -> & Hr)%list_elem_of_fmap. destruct (decide (family r ∈ family <$> out)) as [|Hni]; [by left|right].
    assert (Hs : is_Some (g !! family r)).
    { rewrite HG. simpl. rewrite decide_False by done. rewrite group_lookup. destruct (family_records records (family r)) eqn:E; [|by eexists].
      assert (Hx : r ∈ family_records records (family r)) by (by apply family_records_elem). rewrite E in Hx. by apply elem_of_nil in Hx. }
    done.
Qed.
Lemma u64_from_hex_no_panic s : u64_from_hex s <> Panic.
Proof.
  assert (Hp : forall acc c, push_hex acc c <> Panic) by (intros acc c; unfold push_hex; destruct (hex_digit c); [destruct (_ <=? _)|]; done).
  unfold u64_from_hex. destruct (bytes s) as [|c [|c' rest]]; [done|destruct (decide _); [done|apply Hp]|]. destruct (decide _); apply foldM_no_panic; auto.
Qed.
Lemma prepare_records_no_panic method records : prepare_records method records <> Panic.
Proof.
  unfold prepare_records. apply bind_no_panic; [apply ensure_no_panic|intros _ _]. apply bind_no_panic; [apply ensure_no_panic|intros _ _]. apply bind_no_panic.
  - apply foldM_no_panic. intros a [g out] _. unfold take_alternative, direction_of. pose proof u64_from_hex_no_panic. no_panic.
  - intros [g out] _. apply foldM_no_panic. intros l out' _. unfold take_single, ensure. destruct (Nat.eqb_spec (length l) 1) as [H1|]; [|done]. by destruct l.
Qed.

(** ** Properties *)

(** C23: the nonregional defaults of a method.  Preparing them never panics and
    does not depend on the order of the records; the factors it returns have
    exactly the families of the records, each once, and every factor is one of
    the records, when their values are proper binary64 numbers. *)
Theorem static_defaults_exact (method : PreparedMethod) (records : list StaticLciaFactor) :
  prepare_records method records <> Panic
  /\ (forall records', records ≡ₚ records' -> prepare_records method records' = prepare_records method records)
  /\ forall output, prepare_records method records = Ok output ->
       NoDup (family <$> output) /\ (forall k, k ∈ family <$> output <-> k ∈ family <$> records)
       /\ (Forall (fun r => f64_valid (sf_value r) = true) records -> forall f, f ∈ output -> f ∈ records).
Proof.
  split_and!; [apply prepare_records_no_panic|intros records' HP; by rewrite (prepare_records_permutation _ _ _ HP)|].
  intros output (H1 & H2 & H3)%prepare_records_exact. split_and!; [done..|]. intros HV f Hf. rewrite Forall_forall in H2, HV.
  destruct (H2 f Hf) as (r & Hr & Hfam & Hv). enough (f = r) as -> by done. destruct Hv as [?|Hv]; [done|].
  rewrite (f64_bits_roundtrip _ (HV r Hr)) in Hv. destruct f, r. unfold family in Hfam. simpl in *. congruence.
Qed.

Section Methods.
Context (parse_uuid : string -> result string Uuid) (uuid_text : Uuid -> string) (evidence_hash : LcaMethodFactorSourceSnapshot -> result StudyError string).
Context (parsed : result string PreparedDefaults) (bundle : VerifiedStaticLciaBundle).
Context (Hinj : forall u v, 0 <= u < 2^128 -> 0 <= v < 2^128 -> uuid_text u = uuid_text v -> u = v).
Context (Hids : forall id records r, bu_factors_by_method bundle !! id = Some records -> r ∈ records -> 0 <= sf_flow_id r < 2^128).

Lemma factor_of_matches a f g : 0 <= sf_flow_id f < 2^128 -> 0 <= sf_flow_id g < 2^128 ->
  factor_matches a (factor_of uuid_text f) = true -> factor_matches a (factor_of uuid_text g) = true -> family f = family g.
Proof using Hinj.
  intros Hf Hg. unfold factor_matches, factor_of. simpl. rewrite !andb_true_iff, !bool_decide_eq_true. intros [H1 H2] [H3 H4]. rewrite <-H1 in H3. rewrite <-H2 in H4.
  injection H3 as Ht Hv. unfold family. rewrite (Hinj _ _ Hg Hf Ht), Hv. destruct (sf_direction f), (sf_direction g); congruence.
Qed.
(** At most one factor for an axis. *)
Lemma selected_once output a : NoDup (family <$> output) -> Forall (fun f => 0 <= sf_flow_id f < 2^128) output -> (length (selected (factor_of uuid_text <$> output) a) <= 1)%nat.
Proof using Hinj.
  intros HN HV. destruct (selected (factor_of uuid_text <$> output) a) as [|x [|y l]] eqn:E; simpl; [lia..|]. exfalso. unfold selected in E.
  assert (Hsub : [x; y] `sublist_of` filter (fun f => factor_matches a f = true) (factor_of uuid_text <$> output)) by (rewrite E; repeat apply sublist_skip; apply sublist_nil_l).
  induction HV as [|f output Hf HV IH]; [done|]. rewrite fmap_cons in HN. apply NoDup_cons in HN as [Hni HN]. rewrite fmap_cons, filter_cons in E, Hsub.
  destruct (decide (factor_matches a (factor_of uuid_text f) = true)) as [Hm|Hm]; [|by apply IH]. injection E as Ex Ey. apply Hni.
  assert (Hy : y ∈ filter (fun f => factor_matches a f = true) (factor_of uuid_text <$> output)) by (rewrite Ey; apply list_elem_of_here).
  apply list_elem_of_filter in Hy as [Hmy Hy]. apply list_elem_of_fmap in Hy as (g & -> & Hg). rewrite Forall_forall in HV.
  rewrite (factor_of_matches a f g Hf (HV g Hg) Hm Hmy). by apply list_elem_of_fmap_2.
Qed.
Lemma static_method_once id version output : prepare_static_method parsed bundle id version = Ok output ->
  forall a, (length (selected (factor_of uuid_text <$> output) a) <= 1)%nat.
Proof using Hinj Hids.
  unfold prepare_static_method. intros ([] & _ & H)%bind_ok a. apply bind_ok in H as (value & _ & H). apply bind_ok in H as (method & _ & H).
  apply bind_ok in H as (records & Hr & H). destruct (bu_factors_by_method bundle !! id) as [rs|] eqn:Eb; [|done]. injection Hr as ->.
  apply prepare_records_exact in H as (HN & HF & _). apply selected_once; [done|]. eapply Forall_impl; [exact HF|].
  intros f (r & Hr & Hfam & _). injection Hfam as <- _ _. by eapply Hids.
Qed.
Lemma from_static_spec refs methods : from_static parse_uuid uuid_text evidence_hash parsed bundle refs = Ok methods ->
  length (vm_factors methods) = length (vm_axes methods) /\ (fun a => mk_ref (ma_id a) (ma_version a)) <$> vm_axes methods = refs
  /\ Forall (fun factors => forall a, (length (selected factors a) <= 1)%nat) (vm_factors methods).
Proof using Hinj Hids.
  unfold from_static. intros ([] & _ & H)%bind_ok. apply bind_ok in H as ([[axes factors] seen] & Hl & H). apply bind_ok in H as (h & _ & H). inv_result. simpl.
  revert Hl. apply (foldM_ind (fun pre (acc : list MethodAxis * list (list Factor) * gset string) => length acc.1.2 = length acc.1.1
      /\ (fun a => mk_ref (ma_id a) (ma_version a)) <$> acc.1.1 = pre /\ Forall (fun factors => forall a, (length (selected factors a) <= 1)%nat) acc.1.2)).
  { split_and!; [done..|constructor]. }
  intros pre r post [[axs fs] sn] c' _ (H1 & H2 & H3) Hs. unfold static_method in Hs. apply bind_ok in Hs as ([] & _ & Hs). apply bind_ok in Hs as (id & _ & Hs).
  apply bind_ok in Hs as (metadata & _ & Hs). apply bind_ok in Hs as (records & Hr & Hs). apply map_err_ok in Hr. inv_result. simpl in *. split_and!.
  - rewrite !length_app. simpl. lia.
  - rewrite fmap_app. simpl. by destruct r.
  - apply Forall_app. split; [done|]. constructor; [|constructor]. by eapply static_method_once.
Qed.
End Methods.

(** The methods of a static bundle fit a study.  They have one list of
    factors per axis, the axes are those of the references in order, and no
    inventory axis ever matches two factors of one method; distinct UUIDs are
    taken to print differently. *)
Theorem static_methods_select_once (parse_uuid : string -> result string Uuid) (uuid_text : Uuid -> string)
    (evidence_hash : LcaMethodFactorSourceSnapshot -> result StudyError string) (parsed : result string PreparedDefaults) (bundle : VerifiedStaticLciaBundle)
    (refs : list DatasetRef) (methods : VerifiedMethods) :
  (forall u v, 0 <= u < 2^128 -> 0 <= v < 2^128 -> uuid_text u = uuid_text v -> u = v) ->
  (forall id records r, bu_factors_by_method bundle !! id = Some records -> r ∈ records -> 0 <= sf_flow_id r < 2^128) ->
  from_static parse_uuid uuid_text evidence_hash parsed bundle refs = Ok methods ->
  length (vm_factors methods) = length (vm_axes methods) /\ (fun a => mk_ref (ma_id a) (ma_version a)) <$> vm_axes methods = refs
  /\ Forall (fun factors => forall a, (length (selected factors a) <= 1)%nat) (vm_factors methods).
Proof. intros Hinj Hids. by apply from_static_spec. Qed.

(** ** Witnesses *)

(** A family with three regional records and one without alternatives; the
    default is the third. *)
Definition sample_record (flow : Z) (value : Z) : StaticLciaFactor := mk_static_factor flow "1" StaticOutput (f64_of_Z value).
Definition sample_records : list StaticLciaFactor := [sample_record 7 4; sample_record 9 5; sample_record 7 11; sample_record 7 3].
Definition sample_defaults : PreparedMethod := mk_prepared_method 1 "1" 4 2 [mk_alternative 7 "1" "OUTPUT" "4008000000000000" 3].
Lemma static_defaults_exact_witness :
  prepare_records sample_defaults sample_records = Ok [sample_record 7 3; sample_record 9 5] /\ sample_record 7 3 ∈ sample_records
  /\ prepare_records sample_defaults (reverse sample_records) = Ok [sample_record 7 3; sample_record 9 5].
Proof.
  destruct (static_defaults_exact sample_defaults sample_records) as (_ & HP & HO).
  assert (E : prepare_records sample_defaults sample_records = Ok [sample_record 7 3; sample_record 9 5]) by (vm_compute; reflexivity).
  split; [exact E|]. destruct (HO _ E) as (_ & _ & Hin). split.
  - apply Hin; [repeat constructor|apply list_elem_of_here].
  - rewrite HP; [exact E|]. symmetry. apply reverse_Permutation.
Defined.
Definition sample_bundle : VerifiedStaticLciaBundle :=
  mk_bundle (mk_source_snapshot "v1" "static" "manifest.json" RELEASE_BUNDLE_MANIFEST_SHA256 "1" "snapshot" "methods" RELEASE_FACTOR_MANIFEST_SHA256 "identities" 1) [mk_static_method 1 "1" 1 "m.json" "method" "kg"] {[1 := sample_records]}.
Definition sample_parsed : result string PreparedDefaults :=
  Ok (mk_defaults "lcia.nonregional-defaults.v1" RELEASE_BUNDLE_MANIFEST_SHA256 RELEASE_FACTOR_MANIFEST_SHA256 [sample_defaults]).
Lemma static_methods_select_once_witness :
  exists methods, from_static (fun _ => Ok 1) pretty (fun _ => Ok "hash") sample_parsed sample_bundle [mk_ref "one" "1"] = Ok methods
    /\ vm_factors methods = [[mk_factor (mk_ref "7" "1") "Output" (f64_of_Z 3); mk_factor (mk_ref "9" "1") "Output" (f64_of_Z 5)]]
    /\ Forall (fun factors => forall a, (length (selected factors a) <= 1)%nat) (vm_factors methods).
Proof.
  eexists. split; [vm_compute; reflexivity|]. split; [vm_compute; reflexivity|].
  eapply (static_methods_select_once (fun _ => Ok 1) pretty (fun _ => Ok "hash") sample_parsed sample_bundle [mk_ref "one" "1"]).
  - intros u v _ _ Huv. by apply (inj pretty).
  - intros id records r Hr Hin. unfold sample_bundle in Hr. simpl in Hr. apply lookup_singleton_Some in Hr as [_ <-].
    repeat (apply elem_of_cons in Hin as [-> |Hin]; [simpl; lia|]). by apply elem_of_nil in Hin.
  - vm_compute. reflexivity.
Defined.
