(* ===== verification/FactorSets.v ===== *)
(** * Impact factor sets and their coverage

    [load_impact_factor_sets], [build_lcia_factor_coverage], [visit_lcia_gaps] and
    [build_snapshot_impact_map] of [bin/snapshot_builder.rs], with the names and
    units of [lcia_method_metadata.rs]: the characterization factors a snapshot
    uses, from the rows of method documents or from a static bundle, and the
    evidence of what they do not cover.  The theorems say that the sets hold
    exactly the default factors of each method, and that the coverage, which
    counts groups of like observations once per method, is what counting every
    observation gives.

    Parsing and printing of UUIDs, the parsed defaults of static methods and the
    iteration order of the groups are arguments. *)

From S2P Require Import Prelude F64 Text Json DataBuilder Tidas ProviderLink Balance Exchange Assemble StudyCompile StaticFactors.

Local Open Scope string_scope.
Local Open Scope Z_scope.
Local Open Scope list_scope.

(** ** Data *)

Record ResolvedLciaMethodIdentity := mk_method_identity { ri_method_id : Uuid; ri_method_version : string; ri_artifact_locator_id : Uuid }.
Record ResolvedLciaMethodRow := mk_method_row { rr_identity : ResolvedLciaMethodIdentity; rr_json : Value }.
Record MethodSelection := mk_selection {
  ms_has_lcia : bool;
  ms_method_id : option Uuid;
  ms_method_version : option string;
  ms_method_count : Z;
  ms_factor_count : Z;
  ms_source_evidence : option LcaMethodFactorSourceSnapshot;
  ms_rows : list ResolvedLciaMethodRow;
  ms_static_bundle : option VerifiedStaticLciaBundle;
}.
Record LciaFactorCoverageCounts := mk_counts { cc_matched : Z; cc_unmatched : Z; cc_invalid : Z; cc_unsupported_direction : Z }.
#[export] Instance LciaFactorCoverageCounts_eq_dec : EqDecision LciaFactorCoverageCounts.
Proof. solve_decision. Defined.
Record LciaMethodFactorCoverage := mk_method_coverage {
  mc_method_id : Uuid;
  mc_method_version : string;
  mc_artifact_locator_id : Uuid;
  mc_counts : LciaFactorCoverageCounts;
}.
Record LciaFactorCoverageBuild := mk_coverage_build {
  cb_counts : LciaFactorCoverageCounts;
  cb_by_method : list LciaMethodFactorCoverage;
  cb_observations : list LciaExchangeObservation;
  cb_record_count : Z;
}.
Record LciaUncharacterizedRecord := mk_uncharacterized {
  ur_method_id : Uuid;
  ur_method_version : string;
  ur_artifact_locator_id : Uuid;
  ur_flow_uuid : Uuid;
  ur_flow_version : string;
  ur_direction : string;
  ur_exchange_id : string;
  ur_amount : option f64;
  ur_reason : string;
}.
Record SnapshotImpactMapEntry := mk_impact_entry {
  ie_impact_id : Uuid;
  ie_impact_index : Z;
  ie_impact_version : option string;
  ie_impact_key : string;
  ie_impact_name : string;
  ie_unit : string;
}.

(** ** Names and units of a method document *)

Definition INFORMATION_PATHS : list (string * string) :=
  [("LCIAMethodInformation", "dataSetInformation"); ("methodInformation", "dataSetInformation"); ("methodInfo", "dataSetInformation"); ("methodInfo", "dataSetInfo")].
Definition or_else {A} (a b : option A) : option A := match a with Some _ => a | None => b end.
Definition is_english (v : Value) : bool :=
  match or_else (get "@xml:lang" v) (get "@lang" v) ≫= as_str with Some language => eq_ignore_ascii_case language "en" | None => false end.
Fixpoint localized (value : Value) : option string :=
  match value with
  | JString s => nonempty (trim s)
  | JObject _ => trimmed_text (or_else (get "#text" value) (get "value" value))
  | JArray values =>
      or_else ((fix first_english l := match l with [] => None | v :: l => if is_english v then localized v else first_english l end) values)
        (find_map localized values)
  | _ => None
  end.
Definition localized_text (value : option Value) : option string := value ≫= localized.
Definition readable (value : option Value) : option Value :=
  v ← value;
  if decide (is_Some (localized_text (Some v))) then Some v else None.
Definition name_value (document : Value) : option Value :=
  root ← get "LCIAMethodDataSet" document;
  find_map (fun path =>
    data ← (get path.1 root ≫= get path.2);
    or_else (readable (get "common:name" data))
      (readable ((fun name => default name (get "baseName" name)) <$> get "name" data))) INFORMATION_PATHS.
Definition name (document : Value) : option string := localized_text (name_value document).
(** [Some] when the search stops at this path. *)
Definition unit_at (root : Value) (information : string) : option (option string) :=
  reference ← (get information root ≫= get "quantitativeReference");
  match get "referenceQuantity" reference with
  | Some quantity =>
      match get "@type" quantity with
      | Some kind => if decide (as_str kind = Some "flow property data set") then Some (localized_text (get "common:shortDescription" quantity)) else Some None
      | None => Some (localized_text (get "common:shortDescription" quantity))
      end
  | None => (fun unit_group => localized_text (get "common:shortDescription" unit_group)) <$> get "referenceToReferenceUnitGroup" reference
  end.
Definition result_unit (document : Value) : option string :=
  root ← get "LCIAMethodDataSet" document;
  mjoin (find_map (fun path => unit_at root path.1) INFORMATION_PATHS).

(** ** Factors *)

Abbreviation FlowFactors := (gmap FlowLinkIdentity f64).
Abbreviation DirectionalFactors := (gmap (FlowLinkIdentity * ExchangeDirection) f64).

Section Load.
Context (parse_uuid : string -> option Uuid) (show_uuid : Uuid -> string) (parsed : result string PreparedDefaults).

Definition not_finite (method_id : Uuid) : string := "LCIA factor for method " +:+ show_uuid method_id +:+ " is non-finite".
Definition multiple_defaults (method_id : Uuid) : string := "multiple nonregional default factors for method " +:+ show_uuid method_id.
Definition insert_default_factor (factors : DirectionalFactors) (key : FlowLinkIdentity * ExchangeDirection) (value : f64) (method_id : Uuid)
    : result string DirectionalFactors :=
  _ ← ensure (is_finite value) (not_finite method_id);
  _ ← ensure (bool_decide (factors !! key = None)) (multiple_defaults method_id);
  Ok (<[key := value]> factors).
Definition accumulate_flow_factor (factors : FlowFactors) (key : FlowLinkIdentity) (value : f64) (method_id : Uuid) : result string FlowFactors :=
  _ ← ensure (is_finite value) (not_finite method_id);
  let total := (default f64_zero (factors !! key) + value)%f64 in
  _ ← ensure (is_finite total) ("LCIA factor aggregation overflow for method " +:+ show_uuid method_id);
  Ok (<[key := total]> factors).

Definition exchange_direction (d : StaticLciaDirection) : ExchangeDirection := match d with StaticInput => DirInput | StaticOutput => DirOutput end.
Definition add_static_factor (method_id : Uuid) (acc : DirectionalFactors * FlowFactors) (factor : StaticLciaFactor)
    : result string (DirectionalFactors * FlowFactors) :=
  let '(directional, factors) := acc in
  let flow := mk_flow (sf_flow_id factor) (sf_flow_version factor) in
  directional ← insert_default_factor directional (flow, exchange_direction (sf_direction factor)) (sf_value factor) method_id;
  factors ← accumulate_flow_factor factors flow (sf_value factor) method_id;
  Ok (directional, factors).
Definition static_factor_set (bundle : VerifiedStaticLciaBundle) (m : StaticLciaMethod) : result string ImpactFactorSet :=
  records ← prepare_static_method parsed bundle (sm_method_id m) (sm_method_version m);
  '(directional, factors) ← foldM (add_static_factor (sm_method_id m)) records (∅, ∅);
  Ok {| if_impact_id := sm_method_id m; if_method_version := sm_method_version m; if_artifact_locator_id := sm_artifact_locator_id m;
        if_impact_key := "method:" +:+ show_uuid (sm_method_id m); if_impact_name := sm_name m; if_unit := sm_unit m;
        factors_by_flow := filter (fun kv => negb (kv.2 =? f64_zero)%f64 = true) (factors : FlowFactors); factors_by_flow_direction := directional |}.

Definition method_factor_items (method_json : Value) : list Value :=
  match pointer ["LCIAMethodDataSet"; "characterisationFactors"; "factor"] method_json with
  | Some (JArray items) => items
  | Some (JObject _ as factor) => [factor]
  | _ => []
  end.
Definition valid_source_dataset_version (value : string) : bool :=
  let b := bytes value in
  (length b =? 9)%nat && bool_decide (b !! 2%nat = Some "."%char) && bool_decide (b !! 5%nat = Some "."%char)
  && forallb (fun ic => bool_decide (ic.1 = 2%nat) || bool_decide (ic.1 = 5%nat) || bool_decide (is_Some (digit_of ic.2))) (enumerate b).
(** The flow, direction and value of a factor item, unless the loop skips it. *)
Definition row_factor (factor : Value) : option (FlowLinkIdentity * option ExchangeDirection * f64) :=
  if negb (is_default_location (get "location" factor)) then None
  else
    flow_id ← parse_uuid_at parse_uuid factor ["referenceToFlowDataSet"; "@refObjectId"];
    version ← (pointer ["referenceToFlowDataSet"; "@version"] factor ≫= as_str);
    if negb (valid_source_dataset_version version) then None
    else
      value ← parse_number (or_else (get "meanValue" factor) (or_else (get "meanAmount" factor) (get "resultingAmount" factor)));
      Some (mk_flow flow_id version, parse_exchange_direction (get "exchangeDirection" factor ≫= as_str), value).
Definition add_row_factor (method_id : Uuid) (acc : DirectionalFactors * FlowFactors * gset (FlowLinkIdentity * option ExchangeDirection)) (item : Value)
    : result string (DirectionalFactors * FlowFactors * gset (FlowLinkIdentity * option ExchangeDirection)) :=
  match row_factor item with
  | None => Ok acc
  | Some (flow, direction, value) =>
      let '(directional, factors, default_keys) := acc in
      _ ← ensure (bool_decide ((flow, direction) ∉ default_keys)) (multiple_defaults method_id);
      directional ← (match direction with
                     | Some d => insert_default_factor directional (flow, d) value method_id
                     | None => Ok directional
                     end);
      factors ← accumulate_flow_factor factors flow value method_id;
      Ok (directional, factors, {[(flow, direction)]} ∪ default_keys)
  end.
Definition row_factor_set (row : ResolvedLciaMethodRow) : result string ImpactFactorSet :=
  let identity := rr_identity row in
  '(directional, factors, _) ← foldM (add_row_factor (ri_method_id identity)) (method_factor_items (rr_json row)) (∅, ∅, ∅);
  Ok {| if_impact_id := ri_method_id identity; if_method_version := ri_method_version identity; if_artifact_locator_id := ri_artifact_locator_id identity;
        if_impact_key := "method:" +:+ show_uuid (ri_method_id identity);
        if_impact_name := default ("LCIA Method " +:+ show_uuid (ri_method_id identity)) (name (rr_json row));
        if_unit := default "unknown" (result_unit (rr_json row));
        factors_by_flow := filter (fun kv => (f64_abs kv.2 >? f64_epsilon)%f64 = true) (factors : FlowFactors); factors_by_flow_direction := directional |}.

(** [sort_unstable_by_key] leaves the order of equal ids open; here it is the stable one. *)
Definition load_impact_factor_sets (method : MethodSelection) : result string (list ImpactFactorSet) :=
  if negb (ms_has_lcia method) then Ok []
  else
    match ms_static_bundle method with
    | Some bundle => out ← mapR (static_factor_set bundle) (bu_methods bundle); Ok (sort_by (cmp_by if_impact_id Z.compare) out)
    | None =>
        _ ← ensure (negb (bool_decide (length (ms_rows method) = 0%nat))) "no lciamethods found for selected scope";
        out ← mapR row_factor_set (ms_rows method);
        Ok (sort_by (cmp_by if_impact_id Z.compare) out)
    end.
End Load.

(** ** Coverage *)

Definition no_counts : LciaFactorCoverageCounts := mk_counts 0 0 0 0.
Definition checked_count (a b : Z) (message : string) : result string Z :=
  _ ← ensure (a + b <=? U64_MAX) message;
  Ok (a + b).
(** Matching depends on the flow, the direction and whether the amount is finite. *)
Abbreviation GroupKey := (FlowLinkIdentity * option ExchangeDirection * bool)%type.
Abbreviation ObservationGroups := (gmap GroupKey (LciaExchangeObservation * Z)).
Definition finite_amount (o : LciaExchangeObservation) : bool := match ob_amount o with Some v => is_finite v | None => false end.
Definition group_key (o : LciaExchangeObservation) : GroupKey := (mk_flow (ob_flow_id o) (ob_flow_version o), ob_direction o, finite_amount o).
Definition group_observation (groups : ObservationGroups) (o : LciaExchangeObservation) : result string ObservationGroups :=
  let '(first, n) := default (o, 0) (groups !! group_key o) in
  n ← checked_count n 1 "LCIA observation count overflow";
  Ok (<[group_key o := (first, n)]> groups).

Definition coverage_overflow : string := "LCIA coverage count overflow".
Definition count_group (directions : gmap Uuid (option ExchangeDirection)) (method : ImpactFactorSet) (counts : LciaFactorCoverageCounts)
    (group : LciaExchangeObservation * Z) : result string LciaFactorCoverageCounts :=
  let '(mk_counts matched unmatched invalid unsupported) := counts in
  match lcia_gap_reason group.1 method directions with
  | None => matched ← checked_count matched group.2 coverage_overflow; Ok (mk_counts matched unmatched invalid unsupported)
  | Some reason =>
      if decide (reason = "invalid_exchange_amount") then
        invalid ← checked_count invalid group.2 coverage_overflow; Ok (mk_counts matched unmatched invalid unsupported)
      else if decide (reason = "no_lcia_factor_for_flow_direction") then
        unmatched ← checked_count unmatched group.2 coverage_overflow; Ok (mk_counts matched unmatched invalid unsupported)
      else unsupported ← checked_count unsupported group.2 coverage_overflow; Ok (mk_counts matched unmatched invalid unsupported)
  end.
Definition add_counts (a b : LciaFactorCoverageCounts) : result string LciaFactorCoverageCounts :=
  matched ← checked_count (cc_matched a) (cc_matched b) coverage_overflow;
  unmatched ← checked_count (cc_unmatched a) (cc_unmatched b) coverage_overflow;
  invalid ← checked_count (cc_invalid a) (cc_invalid b) coverage_overflow;
  unsupported ← checked_count (cc_unsupported_direction a) (cc_unsupported_direction b) coverage_overflow;
  Ok (mk_counts matched unmatched invalid unsupported).
Definition method_cmp : ImpactFactorSet -> ImpactFactorSet -> comparison :=
  cmp_then (cmp_by if_impact_id Z.compare) (cmp_by if_method_version String.compare).

Section Coverage.
(** [groups.values()]. *)
Context (values : ObservationGroups -> list (LciaExchangeObservation * Z)).

Definition cover_method (directions : gmap Uuid (option ExchangeDirection)) (groups : ObservationGroups)
    (acc : LciaFactorCoverageCounts * list LciaMethodFactorCoverage) (method : ImpactFactorSet)
    : result string (LciaFactorCoverageCounts * list LciaMethodFactorCoverage) :=
  let '(counts, by_method) := acc in
  method_counts ← foldM (count_group directions method) (values groups) no_counts;
  counts ← add_counts counts method_counts;
  Ok (counts, by_method ++ [mk_method_coverage (if_impact_id method) (if_method_version method) (if_artifact_locator_id method) method_counts]).
Definition build_lcia_factor_coverage (observations : list LciaExchangeObservation) (impact_factor_sets : list ImpactFactorSet)
    (directions : gmap Uuid (option ExchangeDirection)) : result string LciaFactorCoverageBuild :=
  groups ← foldM group_observation observations ∅;
  '(counts, by_method) ← foldM (cover_method directions groups) (sort_by method_cmp impact_factor_sets) (no_counts, []);
  n ← checked_count (cc_unmatched counts) (cc_invalid counts) "LCIA gap count overflow";
  record_count ← checked_count n (cc_unsupported_direction counts) "LCIA gap count overflow";
  Ok (mk_coverage_build counts by_method observations record_count).
End Coverage.

Definition observation_cmp : LciaExchangeObservation -> LciaExchangeObservation -> comparison :=
  cmp_then (cmp_by ob_flow_id Z.compare) (cmp_then (cmp_by ob_direction_label String.compare) (cmp_by ob_exchange_id String.compare)).
Definition direction_label (d : ExchangeDirection) : string := match d with DirInput => "Input" | DirOutput => "Output" end.
Definition gap_record (method : ImpactFactorSet) (o : LciaExchangeObservation) (reason : string) : LciaUncharacterizedRecord :=
  mk_uncharacterized (if_impact_id method) (if_method_version method) (if_artifact_locator_id method) (ob_flow_id o) (ob_flow_version o)
    (match ob_direction o with Some d => direction_label d | None => ob_direction_label o end) (ob_exchange_id o)
    (v ← ob_amount o; if is_finite v then Some v else None) reason.
(** The visitor is a function on a state of its own. *)
Definition visit_gap {S} (visit : S -> LciaUncharacterizedRecord -> result string S) (directions : gmap Uuid (option ExchangeDirection))
    (method : ImpactFactorSet) (acc : S * Z) (o : LciaExchangeObservation) : result string (S * Z) :=
  match lcia_gap_reason o method directions with
  | Some reason => state ← visit acc.1 (gap_record method o reason); Ok (state, acc.2 + 1)
  | None => Ok acc
  end.
Definition visit_lcia_gaps {S} (observations : list LciaExchangeObservation) (methods : list ImpactFactorSet)
    (visit : S -> LciaUncharacterizedRecord -> result string S) (s : S) : result string (S * Z) :=
  let directions := unique_supported_direction_by_flow observations in
  let sorted := sort_by observation_cmp observations in
  foldM (fun acc method => foldM (visit_gap visit directions method) sorted acc) (sort_by method_cmp methods) (s, 0).

Definition build_snapshot_impact_map (snapshot_id : Uuid) (method : MethodSelection) (impact_factor_sets : list ImpactFactorSet)
    : result string (list SnapshotImpactMapEntry) :=
  if negb (ms_has_lcia method)
  then Ok [mk_impact_entry snapshot_id 0 None "lcia-disabled" "LCIA disabled (placeholder impact)" "unknown"]
  else
    _ ← ensure (negb (bool_decide (length impact_factor_sets = 0%nat))) "LCIA is enabled but no impact factors were loaded";
    mapR (fun ii => index ← ok_or "impact index overflow" (i32_of_usize ii.1);
                    Ok (mk_impact_entry (if_impact_id ii.2) index (Some (if_method_version ii.2)) (if_impact_key ii.2) (if_impact_name ii.2) (if_unit ii.2)))
      (enumerate impact_factor_sets).

(** ** What a factor set holds *)

(** A default factor: its flow and direction, and its value. *)
Abbreviation DefaultFactor := (FlowLinkIdentity * option ExchangeDirection * f64)%type.
Definition flow_values (fs : list DefaultFactor) (flow : FlowLinkIdentity) : list f64 := snd <$> filter (fun f => f.1.1 = flow) fs.
Definition flow_total (fs : list DefaultFactor) (flow : FlowLinkIdentity) : option f64 :=
  match flow_values fs flow with [] => None | vs => Some (foldl f64_add f64_zero vs) end.
Definition gathered (fs : list DefaultFactor) (directional : DirectionalFactors) (factors : FlowFactors) : Prop :=
  NoDup fs.*1 /\ (forall flow d v, directional !! (flow, d) = Some v <-> (flow, Some d, v) ∈ fs)
  /\ (forall flow, factors !! flow = flow_total fs flow) /\ Forall (fun f => is_finite f.2 = true) fs.
(** The set has the default factors: one value per direction, and their totals
    per flow as far as they are kept. *)
Definition holds (keep : f64 -> bool) (fs : list DefaultFactor) (s : ImpactFactorSet) : Prop :=
  NoDup fs.*1 /\ (forall flow d v, factors_by_flow_direction s !! (flow, d) = Some v <-> (flow, Some d, v) ∈ fs)
  /\ (forall flow v, factors_by_flow s !! flow = Some v <-> flow_total fs flow = Some v /\ keep v = true).

Lemma gathered_nil : gathered [] ∅ ∅.
Proof.
  split_and!; [constructor| | |constructor].
  - intros flow d v. rewrite lookup_empty, elem_of_nil. done.
  - intros flow. by rewrite lookup_empty.
Qed.
Lemma flow_total_snoc fs flow key v :
  flow_total (fs ++ [(key, v)]) flow = if decide (key.1 = flow) then Some (default f64_zero (flow_total fs flow) + v)%f64 else flow_total fs flow.
Proof.
  unfold flow_total, flow_values. rewrite filter_app, fmap_app. case_decide as Hk.
  - rewrite filter_cons_True by done. rewrite filter_nil. simpl. destruct (snd <$> filter _ fs) as [|x vs] eqn:E; [done|]. simpl. by rewrite foldl_app.
  - rewrite filter_cons_False by done. rewrite filter_nil, app_nil_r. done.
Qed.
Lemma gathered_step show_uuid fs directional factors method_id flow d v directional' factors' : gathered fs directional factors ->
  (flow, d) ∉ fs.*1 -> is_finite v = true ->
  directional' = match d with Some d => <[(flow, d) := v]> directional | None => directional end ->
  accumulate_flow_factor show_uuid factors flow v method_id = Ok factors' -> gathered (fs ++ [(flow, d, v)]) directional' factors'.
Proof.
  intros (HN & HD & HT & HF) Hni Hv -> Ha. unfold accumulate_flow_factor in Ha. apply bind_ok in Ha as ([] & _ & Ha). apply bind_ok in Ha as ([] & _ & Ha). inv_result.
  split_and!.
  - rewrite fmap_app. apply NoDup_app. split_and!; [done| |apply NoDup_singleton]. intros x Hx ->%list_elem_of_singleton. done.
  - intros flow' d' v'. rewrite elem_of_app, list_elem_of_singleton. destruct d as [d|].
    + rewrite lookup_insert_Some. split.
      * intros [[[= -> ->] ->]|[_ Hx%HD]]; [by right|by left].
      * intros [Hx|[= -> -> ->]]; [|by left]. right. split; [|by apply HD]. intros [= -> ->]. apply Hni. by apply (list_elem_of_fmap_2 fst _ _ Hx).
    + rewrite HD. split; [by left|]. intros [?|?]; [done|congruence].
  - intros flow'. rewrite flow_total_snoc. simpl. rewrite lookup_insert. repeat case_decide; subst; try done; rewrite ?HT; done.
  - apply Forall_app. split; [done|by repeat constructor].
Qed.
Lemma gathered_holds keep fs directional factors s : gathered fs directional factors -> factors_by_flow_direction s = directional ->
  factors_by_flow s = filter (fun kv => keep kv.2 = true) factors -> holds keep fs s.
Proof.
  intros (HN & HD & HT & _) <- Hf. split_and!; [done..|]. intros flow v. rewrite Hf, map_lookup_filter_Some. simpl. by rewrite HT.
Qed.

Section Loaded.
Context (parse_uuid : string -> option Uuid) (show_uuid : Uuid -> string) (parsed : result string PreparedDefaults).

(** The default factors of a document and of a static method. *)
Definition row_defaults (row : ResolvedLciaMethodRow) : list DefaultFactor := omap (row_factor parse_uuid) (method_factor_items (rr_json row)).
Definition static_default (f : StaticLciaFactor) : DefaultFactor :=
  (mk_flow (sf_flow_id f) (sf_flow_version f), Some (exchange_direction (sf_direction f)), sf_value f).
Definition over_epsilon (v : f64) : bool := (f64_abs v >? f64_epsilon)%f64.
Definition not_zero (v : f64) : bool := negb (v =? f64_zero)%f64.

Lemma insert_default_ok (factors : DirectionalFactors) (key : FlowLinkIdentity * ExchangeDirection) (value : f64) (method_id : Uuid) (factors' : DirectionalFactors) :
  insert_default_factor show_uuid factors key value method_id = Ok factors' -> is_finite value = true /\ factors !! key = None /\ factors' = <[key := value]> factors.
Proof using.
  unfold insert_default_factor. intros ([] & Hf & H)%bind_ok. apply bind_ok in H as ([] & Hn & H). apply ensure_ok in Hf, Hn. apply bool_decide_eq_true in Hn. by inv_result.
Qed.
Lemma accumulate_finite (factors : FlowFactors) (flow : FlowLinkIdentity) (v : f64) (method_id : Uuid) (factors' : FlowFactors) : accumulate_flow_factor show_uuid factors flow v method_id = Ok factors' -> is_finite v = true.
Proof using. unfold accumulate_flow_factor. intros ([] & Hf & _)%bind_ok. by apply ensure_ok in Hf. Qed.
Lemma row_factor_set_holds row s : row_factor_set parse_uuid show_uuid row = Ok s ->
  if_impact_id s = ri_method_id (rr_identity row) /\ if_method_version s = ri_method_version (rr_identity row) /\ holds over_epsilon (row_defaults row) s.
Proof using.
  unfold row_factor_set. intros ([[directional factors] keys] & H & Hs)%bind_ok. inv_result. cbn [if_impact_id if_method_version]. split_and!; [done..|].
  enough (HG : gathered (row_defaults row) directional factors) by (eapply gathered_holds; [exact HG|done|done]).
  enough (HI : gathered (row_defaults row) directional factors /\ keys = list_to_set (row_defaults row).*1) by apply HI.
  unfold row_defaults. revert H.
  apply (foldM_ind (fun pre (acc : DirectionalFactors * FlowFactors * gset (FlowLinkIdentity * option ExchangeDirection)) =>
    gathered (omap (row_factor parse_uuid) pre) acc.1.1 acc.1.2 /\ acc.2 = list_to_set (omap (row_factor parse_uuid) pre).*1)); [by split; [apply gathered_nil|]|].
  intros pre item post [[dirs facs] ks] acc' _ [HG Hk] H. cbn [fst snd] in HG, Hk. unfold add_row_factor in H. rewrite omap_app. csimpl.
  destruct (row_factor parse_uuid item) as [[[flow d] v]|]; [|injection H as <-; by rewrite app_nil_r].
  apply bind_ok in H as ([] & Hni & H). apply ensure_ok, bool_decide_eq_true in Hni. apply bind_ok in H as (dirs' & Hd & H). apply bind_ok in H as (facs' & Hf & H). inv_result.
  cbn [fst snd]. split.
  - eapply gathered_step; [exact HG|by rewrite <-(elem_of_list_to_set (C:=gset _))|by eapply accumulate_finite| |exact Hf].
    destruct d as [d|]; [by apply insert_default_ok in Hd as (_ & _ & ->)|by injection Hd as ->].
  - rewrite fmap_app, list_to_set_app_L. simpl. set_solver.
Qed.
Lemma static_factor_set_holds bundle m s : static_factor_set show_uuid parsed bundle m = Ok s ->
  exists records, prepare_static_method parsed bundle (sm_method_id m) (sm_method_version m) = Ok records
    /\ if_impact_id s = sm_method_id m /\ if_method_version s = sm_method_version m /\ holds not_zero (static_default <$> records) s.
Proof using.
  unfold static_factor_set. intros (records & Hr & H)%bind_ok. apply bind_ok in H as ([directional factors] & H & Hs). inv_result. exists records. split; [done|].
  cbn [if_impact_id if_method_version]. split_and!; [done..|]. enough (HG : gathered (static_default <$> records) directional factors) by (eapply gathered_holds; [exact HG|done|done]).
  revert H. apply (foldM_ind (fun pre (acc : DirectionalFactors * FlowFactors) => gathered (static_default <$> pre) acc.1 acc.2)); [apply gathered_nil|].
  intros pre f post [dirs facs] acc' _ HG H. cbn [fst snd] in HG. unfold add_static_factor in H. apply bind_ok in H as (dirs' & Hd & H). apply bind_ok in H as (facs' & Hf & H). inv_result.
  apply insert_default_ok in Hd as (Hv & Hnone & ->). cbn [fst snd]. rewrite fmap_app. eapply gathered_step; [exact HG| |exact Hv|done|exact Hf].
  intros ([k v] & Hk & Hin)%list_elem_of_fmap. simpl in Hk. subst k. destruct HG as (_ & HD & _). apply HD in Hin. congruence.
Qed.
End Loaded.

(** ** Counting every observation *)

(** The four outcomes of matching an observation. *)
Definition matched_reason (r : option string) : bool := bool_decide (r = None).
Definition invalid_reason (r : option string) : bool := bool_decide (r = Some "invalid_exchange_amount").
Definition unmatched_reason (r : option string) : bool := bool_decide (r = Some "no_lcia_factor_for_flow_direction").
Definition unsupported_reason (r : option string) : bool := negb (matched_reason r) && negb (invalid_reason r) && negb (unmatched_reason r).
Definition count_if {A} (p : A -> bool) (l : list A) : Z := Z.of_nat (length (filter (fun a => p a = true) l)).
(** The counts of one method, observation by observation. *)
Definition counted (directions : gmap Uuid (option ExchangeDirection)) (observations : list LciaExchangeObservation) (method : ImpactFactorSet) : LciaFactorCoverageCounts :=
  let count p := count_if (fun o => p (lcia_gap_reason o method directions)) observations in
  mk_counts (count matched_reason) (count unmatched_reason) (count invalid_reason) (count unsupported_reason).

Lemma count_if_cons {A} (p : A -> bool) a l : count_if p (a :: l) = (if p a then 1 else 0) + count_if p l.
Proof. unfold count_if. rewrite filter_cons. destruct (p a); [rewrite decide_True by done|rewrite decide_False by done]; simpl length; lia. Qed.
Lemma count_if_app {A} (p : A -> bool) l l' : count_if p (l ++ l') = count_if p l + count_if p l'.
Proof. unfold count_if. rewrite filter_app, length_app. lia. Qed.
Lemma count_if_bounds {A} (p : A -> bool) l : 0 <= count_if p l <= Z.of_nat (length l).
Proof. unfold count_if. pose proof (length_filter (fun a => p a = true) l). lia. Qed.
(** Observations of one group match alike. *)
Lemma gap_reason_by_group o o' method directions : group_key o = group_key o' -> lcia_gap_reason o method directions = lcia_gap_reason o' method directions.
Proof.
  unfold group_key, lcia_gap_reason, finite_amount. intros [= Hi Hv Hd Hf]. rewrite Hi, Hv, Hd.
  destruct (ob_direction o'); [|done]. repeat case_decide; try done; destruct (ob_amount o) as [x|], (ob_amount o') as [y|]; simpl in *; rewrite ?Hf; done || (rewrite <-?Hf; done).
Qed.

(** What groups weigh under a predicate on their observations. *)
Definition weight (p : LciaExchangeObservation -> bool) (l : list (LciaExchangeObservation * Z)) : Z :=
  foldr (fun g acc => (if p g.1 then g.2 else 0) + acc) 0 l.
Lemma weight_permutation (p : LciaExchangeObservation -> bool) (l l' : list (LciaExchangeObservation * Z)) : l ≡ₚ l' -> weight p l = weight p l'.
Proof. induction 1; simpl; lia. Qed.
Definition by_group (p : LciaExchangeObservation -> bool) : Prop := forall o o', group_key o = group_key o' -> p o = p o'.
Definition group_values (groups : ObservationGroups) : list (LciaExchangeObservation * Z) := (map_to_list groups).*2.
Lemma weight_insert (p : LciaExchangeObservation -> bool) (groups : ObservationGroups) (k : GroupKey) (g : LciaExchangeObservation * Z) :
  weight p (group_values (<[k := g]> groups)) =
    weight p (group_values groups) + (if p g.1 then g.2 else 0) - match groups !! k with Some g' => if p g'.1 then g'.2 else 0 | None => 0 end.
Proof.
  unfold group_values. destruct (groups !! k) as [g'|] eqn:E.
  - rewrite <-insert_delete_eq, (weight_permutation p (map_to_list (<[k:=g]> (delete k groups))).*2 (g :: (map_to_list (delete k groups)).*2)).
    2: { rewrite map_to_list_insert by apply lookup_delete_eq. done. }
    rewrite (weight_permutation p (map_to_list groups).*2 (g' :: (map_to_list (delete k groups)).*2)); [simpl; lia|].
    rewrite <-(map_to_list_delete _ _ _ E). done.
  - rewrite (weight_permutation p (map_to_list (<[k:=g]> groups)).*2 (g :: (map_to_list groups).*2)); [simpl; lia|].
    rewrite map_to_list_insert by done. done.
Qed.
Definition grouped (pre : list LciaExchangeObservation) (groups : ObservationGroups) : Prop :=
  (forall (k : GroupKey) (g : LciaExchangeObservation * Z), groups !! k = Some g -> group_key g.1 = k /\ 0 <= g.2 <= Z.of_nat (length pre))
  /\ forall p, by_group p -> weight p (group_values groups) = count_if p pre.
Lemma checked_count_ok (a b : Z) (message : string) : a + b <= U64_MAX -> checked_count a b message = Ok (a + b).
Proof. intros H. unfold checked_count, ensure. by rewrite (proj2 (Z.leb_le (a + b) U64_MAX) H). Qed.
Lemma group_step (pre : list LciaExchangeObservation) (o : LciaExchangeObservation) (groups : ObservationGroups) :
  grouped pre groups -> Z.of_nat (length pre) < U64_MAX -> exists groups', group_observation groups o = Ok groups' /\ grouped (pre ++ [o]) groups'.
Proof.
  intros [HG HW] Hb. unfold group_observation.
  assert (exists f n, default (o, 0) (groups !! group_key o) = (f, n) /\ group_key f = group_key o /\ 0 <= n <= Z.of_nat (length pre)
    /\ forall p : LciaExchangeObservation -> bool, match groups !! group_key o with Some g' => if p g'.1 then g'.2 else 0 | None => 0 end = if p f then n else 0)
    as (f & n & -> & Hf & Hn & Hw).
  { destruct (groups !! group_key o) as [[f n]|] eqn:Ek; [exists f, n|exists o, 0].
    - destruct (HG _ _ Ek). simpl in *. split_and!; [done|done|lia|lia|done].
    - split_and!; [done..|lia|]. intros p. by destruct (p o). }
  rewrite checked_count_ok by lia. cbn [mbind result_bind]. eexists. split; [done|]. split.
  - intros k g. rewrite length_app. simpl. intros [[<- <-]|[_ Hk]]%lookup_insert_Some; [simpl; split; [done|lia]|]. destruct (HG k g Hk). split; [done|lia].
  - intros p Hp. rewrite weight_insert, Hw, HW, count_if_app, count_if_cons by done. simpl. rewrite (Hp f o Hf). unfold count_if at 3. simpl. destruct (p o); lia.
Qed.
Lemma group_observations_spec (observations : list LciaExchangeObservation) : Z.of_nat (length observations) <= U64_MAX ->
  exists groups, foldM group_observation observations ∅ = Ok groups /\ grouped observations groups.
Proof.
  intros Hb. apply foldM_total_ind; [split; [by intros k g Hk|]; intros p _; unfold group_values; by rewrite map_to_list_empty|].
  intros pre o post groups E HG. apply group_step; [done|]. rewrite E, length_app in Hb. simpl in Hb. lia.
Qed.
Lemma weight_app (p : LciaExchangeObservation -> bool) (l l' : list (LciaExchangeObservation * Z)) : weight p (l ++ l') = weight p l + weight p l'.
Proof. induction l as [|g l IH]; simpl; lia. Qed.
Definition nonneg_groups (l : list (LciaExchangeObservation * Z)) : Prop := Forall (fun g => 0 <= g.2) l.
Lemma weight_bounds (p : LciaExchangeObservation -> bool) (l : list (LciaExchangeObservation * Z)) : nonneg_groups l -> 0 <= weight p l <= weight (fun _ => true) l.
Proof. induction 1 as [|g l Hg _ IH]; simpl; [lia|]. destruct (p g.1); lia. Qed.
(** The counts of one method, group by group. *)
Definition weighed (directions : gmap Uuid (option ExchangeDirection)) (method : ImpactFactorSet) (l : list (LciaExchangeObservation * Z)) : LciaFactorCoverageCounts :=
  let w p := weight (fun o => p (lcia_gap_reason o method directions)) l in
  mk_counts (w matched_reason) (w unmatched_reason) (w invalid_reason) (w unsupported_reason).
Lemma reason_cases (r : option string) :
  (r = None /\ matched_reason r = true /\ invalid_reason r = false /\ unmatched_reason r = false /\ unsupported_reason r = false)
  \/ exists reason, r = Some reason /\ matched_reason r = false
    /\ ((reason = "invalid_exchange_amount" /\ invalid_reason r = true /\ unmatched_reason r = false /\ unsupported_reason r = false)
        \/ (reason <> "invalid_exchange_amount" /\ reason = "no_lcia_factor_for_flow_direction" /\ invalid_reason r = false /\ unmatched_reason r = true /\ unsupported_reason r = false)
        \/ (reason <> "invalid_exchange_amount" /\ reason <> "no_lcia_factor_for_flow_direction" /\ invalid_reason r = false /\ unmatched_reason r = false /\ unsupported_reason r = true)).
Proof.
  unfold unsupported_reason, matched_reason, invalid_reason, unmatched_reason. destruct r as [reason|]; [right|by left]. exists reason. split_and!; [done..|].
  destruct (decide (reason = "invalid_exchange_amount")) as [->|Hi]; [by left|]. right.
  destruct (decide (reason = "no_lcia_factor_for_flow_direction")) as [->|Hu]; [by left|]. right.
  rewrite !bool_decide_eq_false_2 by congruence. done.
Qed.
Lemma count_groups_weighed (directions : gmap Uuid (option ExchangeDirection)) (method : ImpactFactorSet) (l : list (LciaExchangeObservation * Z)) :
  nonneg_groups l -> weight (fun _ => true) l <= U64_MAX -> foldM (count_group directions method) l no_counts = Ok (weighed directions method l).
Proof.
  intros Hl Hb. destruct (foldM_total_ind (fun pre acc => acc = weighed directions method pre) (count_group directions method) l no_counts) as (b & -> & ->); [done| |done].
  intros pre g post acc E ->. assert (Hw : forall p : LciaExchangeObservation -> bool, weight p (pre ++ [g]) <= U64_MAX).
  { intros p. subst l. unfold nonneg_groups in Hl. replace (pre ++ g :: post) with ((pre ++ [g]) ++ post) in Hl, Hb by by rewrite <-app_assoc.
    apply Forall_app in Hl as [Hl1 Hl2]. rewrite weight_app in Hb. pose proof (weight_bounds p _ Hl1). pose proof (weight_bounds (fun _ => true) _ Hl2). lia. }
  eexists. split; [|done]. unfold weighed, count_group. setoid_rewrite weight_app in Hw. rewrite !weight_app. cbn [weight foldr] in Hw |- *.
  pose proof (Hw (fun o => matched_reason (lcia_gap_reason o method directions))) as H1. pose proof (Hw (fun o => unmatched_reason (lcia_gap_reason o method directions))) as H2.
  pose proof (Hw (fun o => invalid_reason (lcia_gap_reason o method directions))) as H3. pose proof (Hw (fun o => unsupported_reason (lcia_gap_reason o method directions))) as H4. cbn beta in H1, H2, H3, H4.
  destruct (reason_cases (lcia_gap_reason g.1 method directions)) as [(E1 & Hm & Hi & Hu & Hs)|(reason & E1 & Hm & [(Er & Hi & Hu & Hs)|[(Er & Er' & Hi & Hu & Hs)|(Er & Er' & Hi & Hu & Hs)]])];
    rewrite Hm, Hi, Hu, Hs in *; rewrite E1; repeat first [rewrite decide_True by done|rewrite decide_False by done];
    rewrite checked_count_ok by lia; cbn [mbind result_bind]; do 2 f_equal; lia.
Qed.

(** ** The evidence of a build *)

Definition plus_counts (a b : LciaFactorCoverageCounts) : LciaFactorCoverageCounts :=
  mk_counts (cc_matched a + cc_matched b) (cc_unmatched a + cc_unmatched b) (cc_invalid a + cc_invalid b) (cc_unsupported_direction a + cc_unsupported_direction b).
Definition sum_counts (l : list LciaFactorCoverageCounts) : LciaFactorCoverageCounts := foldr plus_counts no_counts l.
Definition gap_count (c : LciaFactorCoverageCounts) : Z := cc_unmatched c + cc_invalid c + cc_unsupported_direction c.
Definition nonneg_counts (c : LciaFactorCoverageCounts) : Prop := 0 <= cc_matched c /\ 0 <= cc_unmatched c /\ 0 <= cc_invalid c /\ 0 <= cc_unsupported_direction c.
Definition coverage_of (directions : gmap Uuid (option ExchangeDirection)) (observations : list LciaExchangeObservation) (method : ImpactFactorSet) : LciaMethodFactorCoverage :=
  mk_method_coverage (if_impact_id method) (if_method_version method) (if_artifact_locator_id method) (counted directions observations method).

Lemma sum_counts_permutation (l l' : list LciaFactorCoverageCounts) : l ≡ₚ l' -> sum_counts l = sum_counts l'.
Proof. induction 1 as [|c l l' _ IH|c c' l|? ? ? _ IH1 _ IH2]; simpl; [done|by rewrite IH|unfold plus_counts; simpl; f_equal; lia|by rewrite IH1]. Qed.
Lemma sum_counts_snoc (l : list LciaFactorCoverageCounts) (c : LciaFactorCoverageCounts) : sum_counts (l ++ [c]) = plus_counts (sum_counts l) c.
Proof. rewrite (sum_counts_permutation _ (c :: l)) by solve_Permutation. unfold sum_counts at 1; simpl; fold (sum_counts l); unfold plus_counts; f_equal; apply Z.add_comm. Qed.
Lemma counted_total (directions : gmap Uuid (option ExchangeDirection)) (observations : list LciaExchangeObservation) (method : ImpactFactorSet) :
  cc_matched (counted directions observations method) + gap_count (counted directions observations method) = Z.of_nat (length observations).
Proof.
  unfold gap_count, counted. simpl. induction observations as [|o l IH]; [done|]. rewrite !count_if_cons. simpl length.
  destruct (reason_cases (lcia_gap_reason o method directions)) as [(_ & -> & -> & -> & ->)|(r & _ & -> & [(_ & -> & -> & ->)|[(_ & _ & -> & -> & ->)|(_ & _ & -> & -> & ->)]])]; lia.
Qed.
Lemma counted_nonneg (directions : gmap Uuid (option ExchangeDirection)) (observations : list LciaExchangeObservation) (method : ImpactFactorSet) :
  nonneg_counts (counted directions observations method).
Proof. unfold nonneg_counts, counted. simpl. split_and!; apply count_if_bounds. Qed.
Lemma sum_counted (directions : gmap Uuid (option ExchangeDirection)) (observations : list LciaExchangeObservation) (methods : list ImpactFactorSet) :
  let c := sum_counts (counted directions observations <$> methods) in
  nonneg_counts c /\ cc_matched c + gap_count c = Z.of_nat (length observations) * Z.of_nat (length methods).
Proof.
  induction methods as [|m l [IHn IHt]]; [by unfold nonneg_counts, gap_count; simpl; lia|]. rewrite fmap_cons. cbn [sum_counts foldr length]. fold (sum_counts (counted directions observations <$> l)). pose proof (counted_nonneg directions observations m).
  pose proof (counted_total directions observations m). unfold nonneg_counts, gap_count, plus_counts in *. cbn [cc_matched cc_unmatched cc_invalid cc_unsupported_direction] in *. cbv zeta in *. rewrite Nat2Z.inj_succ. split_and!; nia.
Qed.
(** Groups weigh what their observations count. *)
Lemma weighed_counted (directions : gmap Uuid (option ExchangeDirection)) (observations : list LciaExchangeObservation) (groups : ObservationGroups) (l : list (LciaExchangeObservation * Z)) (method : ImpactFactorSet) :
  grouped observations groups -> l ≡ₚ group_values groups ->
  nonneg_groups l /\ weight (fun _ => true) l = Z.of_nat (length observations) /\ weighed directions method l = counted directions observations method.
Proof.
  intros [HG HW] Hl. split_and!.
  - unfold nonneg_groups. rewrite Hl. apply Forall_fmap, Forall_forall. intros [k g] Hk%elem_of_map_to_list. simpl. by apply (HG k g).
  - rewrite (weight_permutation _ _ _ Hl), HW by done. clear. induction observations; [done|]. rewrite count_if_cons. simpl length. lia.
  - unfold weighed, counted. f_equal; rewrite (weight_permutation _ _ _ Hl), HW; try done; intros o o' Ho; f_equal; by apply gap_reason_by_group.
Qed.
Lemma add_counts_ok (a b : LciaFactorCoverageCounts) : nonneg_counts (plus_counts a b) ->
  cc_matched (plus_counts a b) + gap_count (plus_counts a b) <= U64_MAX -> add_counts a b = Ok (plus_counts a b).
Proof.
  unfold nonneg_counts, gap_count, add_counts, plus_counts. cbn [cc_matched cc_unmatched cc_invalid cc_unsupported_direction]. intros Hn Hb.
  repeat (rewrite checked_count_ok by lia; cbn [mbind result_bind]). done.
Qed.
Lemma cover_methods_ok (values : ObservationGroups -> list (LciaExchangeObservation * Z)) (directions : gmap Uuid (option ExchangeDirection)) (observations : list LciaExchangeObservation) (groups : ObservationGroups) (methods : list ImpactFactorSet) :
  grouped observations groups -> values groups ≡ₚ group_values groups -> Z.of_nat (length observations) * (1 + Z.of_nat (length methods)) <= U64_MAX ->
  foldM (cover_method values directions groups) methods (no_counts, []) = Ok (sum_counts (counted directions observations <$> methods), coverage_of directions observations <$> methods).
Proof.
  intros HG Hv Hb. destruct (foldM_total_ind (fun pre acc => acc = (sum_counts (counted directions observations <$> pre), coverage_of directions observations <$> pre))
    (cover_method values directions groups) methods (no_counts, [])) as (b & -> & ->); [done| |done].
  intros pre m post acc E ->. eexists. split; [|done]. unfold cover_method. destruct (weighed_counted directions observations groups (values groups) m HG Hv) as (Hn & Hw & Hc).
  rewrite count_groups_weighed by (done || nia). cbn [mbind result_bind]. rewrite Hc, !fmap_app, !list_fmap_singleton, sum_counts_snoc.
  destruct (sum_counted directions observations (pre ++ [m])) as [H1 H2]. rewrite fmap_app, list_fmap_singleton, sum_counts_snoc in H1, H2.
  rewrite add_counts_ok; [done|done|]. rewrite H2. subst methods. rewrite length_app in Hb |- *. simpl in Hb |- *. nia.
Qed.

(** The visitor that keeps every record. *)
Definition keep_record (l : list LciaUncharacterizedRecord) (r : LciaUncharacterizedRecord) : result string (list LciaUncharacterizedRecord) := Ok (l ++ [r]).
Definition gaps (directions : gmap Uuid (option ExchangeDirection)) (observations : list LciaExchangeObservation) (method : ImpactFactorSet) : list LciaUncharacterizedRecord :=
  omap (fun o => gap_record method o <$> lcia_gap_reason o method directions) observations.
Lemma count_if_permutation {A} (p : A -> bool) (l l' : list A) : l ≡ₚ l' -> count_if p l = count_if p l'.
Proof. intros H. unfold count_if. by rewrite H. Qed.
Lemma gaps_counted (directions : gmap Uuid (option ExchangeDirection)) (observations : list LciaExchangeObservation) (method : ImpactFactorSet) :
  Z.of_nat (length (gaps directions observations method)) = gap_count (counted directions observations method).
Proof.
  pose proof (counted_total directions observations method) as Ht. enough (Z.of_nat (length (gaps directions observations method)) + cc_matched (counted directions observations method) = Z.of_nat (length observations)) by lia.
  clear Ht. unfold gaps, counted. cbn [cc_matched]. induction observations as [|o l IH]; [done|]. rewrite count_if_cons. csimpl. unfold matched_reason at 1.
  destruct (lcia_gap_reason o method directions); simpl; lia.
Qed.
Lemma visit_method_gaps (directions : gmap Uuid (option ExchangeDirection)) (method : ImpactFactorSet) (observations : list LciaExchangeObservation) (l : list LciaUncharacterizedRecord) (n : Z) :
  foldM (visit_gap keep_record directions method) observations (l, n)
  = Ok (l ++ gaps directions observations method, n + Z.of_nat (length (gaps directions observations method))).
Proof.
  revert l n. induction observations as [|o os IH]; intros l n; cbn [foldM]; [simpl; by rewrite app_nil_r, Z.add_0_r|].
  unfold visit_gap at 1, gaps. csimpl. destruct (lcia_gap_reason o method directions) as [reason|]; cbn [mbind result_bind keep_record fst snd fmap option_fmap option_map].
  - rewrite IH. rewrite <-app_assoc. simpl length. do 2 f_equal. unfold gaps. lia.
  - by rewrite IH.
Qed.
Lemma visit_lcia_gaps_exact (observations : list LciaExchangeObservation) (methods : list ImpactFactorSet) :
  let directions := unique_supported_direction_by_flow observations in
  let records := sort_by method_cmp methods ≫= gaps directions (sort_by observation_cmp observations) in
  visit_lcia_gaps observations methods keep_record [] = Ok (records, Z.of_nat (length records)).
Proof.
  cbv zeta. unfold visit_lcia_gaps. generalize (sort_by method_cmp methods) as ms. intros ms.
  destruct (foldM_total_ind (fun pre acc => acc = (pre ≫= gaps (unique_supported_direction_by_flow observations) (sort_by observation_cmp observations),
      Z.of_nat (length (pre ≫= gaps (unique_supported_direction_by_flow observations) (sort_by observation_cmp observations)))))
    (fun acc method => foldM (visit_gap keep_record (unique_supported_direction_by_flow observations) method) (sort_by observation_cmp observations) acc) ms ([], 0)) as (b & -> & ->); [done| |done].
  intros pre m post acc _ ->. eexists. split; [apply visit_method_gaps|]. rewrite bind_app, length_app. csimpl. rewrite app_nil_r. f_equal. lia.
Qed.
Lemma gaps_total (directions : gmap Uuid (option ExchangeDirection)) (observations : list LciaExchangeObservation) (methods : list ImpactFactorSet) :
  Z.of_nat (length (methods ≫= gaps directions observations)) = gap_count (sum_counts (counted directions observations <$> methods)).
Proof.
  induction methods as [|m l IH]; [done|]. rewrite fmap_cons, bind_cons, length_app, Nat2Z.inj_add, IH, gaps_counted.
  cbn [sum_counts foldr]. fold (sum_counts (counted directions observations <$> l)). unfold gap_count, plus_counts. simpl. lia.
Qed.
Lemma counted_permutation (directions : gmap Uuid (option ExchangeDirection)) (l l' : list LciaExchangeObservation) (method : ImpactFactorSet) :
  l ≡ₚ l' -> counted directions l method = counted directions l' method.
Proof. intros H. unfold counted. f_equal; by apply count_if_permutation. Qed.

(** C24: Coverage evidence is exact: although like observations are counted once
    as a group, every method's counts are those of matching each observation,
    the totals add them up, every observation is counted once per method, and
    the number of records announced is the number of records the gaps, visited
    later, produce, which are those of the observations a method leaves
    uncharacterized. *)
Theorem factor_coverage_exact (values : ObservationGroups -> list (LciaExchangeObservation * Z)) (observations : list LciaExchangeObservation) (methods : list ImpactFactorSet) :
  (forall groups : ObservationGroups, values groups ≡ₚ group_values groups) ->
  Z.of_nat (length observations) * (1 + Z.of_nat (length methods)) <= U64_MAX ->
  let directions := unique_supported_direction_by_flow observations in
  exists b records, build_lcia_factor_coverage values observations methods directions = Ok b
    /\ cb_by_method b = coverage_of directions observations <$> sort_by method_cmp methods
    /\ cb_counts b = sum_counts (counted directions observations <$> methods)
    /\ cc_matched (cb_counts b) + cb_record_count b = Z.of_nat (length observations) * Z.of_nat (length methods)
    /\ visit_lcia_gaps observations methods keep_record [] = Ok (records, cb_record_count b)
    /\ (forall r, r ∈ records <-> exists m o reason, m ∈ methods /\ o ∈ observations /\ lcia_gap_reason o m directions = Some reason /\ r = gap_record m o reason).
Proof.
  intros Hv Hb directions. pose proof (sort_by_perm method_cmp methods) as Hm. pose proof (sort_by_perm observation_cmp observations) as Ho.
  destruct (group_observations_spec observations) as (groups & Hg & HG); [nia|]. unfold build_lcia_factor_coverage. rewrite Hg. cbn [mbind result_bind].
  rewrite (cover_methods_ok values directions observations groups) by (done || by rewrite Hm). cbn [mbind result_bind].
  assert (Hs : sum_counts (counted directions observations <$> sort_by method_cmp methods) = sum_counts (counted directions observations <$> methods)).
  { apply sum_counts_permutation. by rewrite Hm. }
  destruct (sum_counted directions observations methods) as [Hn Ht]. rewrite Hs. unfold nonneg_counts, gap_count in Hn, Ht.
  rewrite !checked_count_ok by nia. cbn [mbind result_bind]. rewrite checked_count_ok by nia. cbn [mbind result_bind].
  eexists _, _. split; [done|]. cbn [cb_by_method cb_counts cb_record_count]. split_and!; [done|done|lia| |].
  - rewrite visit_lcia_gaps_exact. fold directions. rewrite gaps_total. do 2 f_equal. unfold gap_count.
    rewrite (list_fmap_ext _ (counted directions observations)), Hs; [done|]. intros i m _. by apply counted_permutation.
  - intros r. unfold gaps. rewrite list_elem_of_bind. setoid_rewrite list_elem_of_omap. setoid_rewrite fmap_Some. setoid_rewrite Hm. setoid_rewrite Ho.
    split; [intros (m & (o & ? & reason & ? & ->) & ?)|intros (m & o & reason & ? & ? & ? & ->)]; naive_solver.
Qed.
Definition sample_observation (exchange : string) (flow : Uuid) (direction : option ExchangeDirection) (amount : option f64) : LciaExchangeObservation :=
  {| ob_flow_id := flow; ob_flow_version := "01.00.000"; ob_direction := direction; ob_direction_label := "Output"; ob_exchange_id := exchange; ob_amount := amount |}.
Definition sample_observations : list LciaExchangeObservation :=
  [sample_observation "1" 7 (Some DirOutput) (Some f64_one); sample_observation "2" 7 (Some DirOutput) (Some f64_epsilon);
   sample_observation "3" 8 (Some DirOutput) (Some f64_one); sample_observation "4" 8 (Some DirOutput) None; sample_observation "5" 9 None (Some f64_one)].
Definition sample_factor_set : ImpactFactorSet :=
  {| if_impact_id := 1; if_method_version := "01.00.000"; if_artifact_locator_id := 1; if_impact_key := "method:1"; if_impact_name := "m"; if_unit := "kg";
     factors_by_flow := {[mk_flow 7 "01.00.000" := f64_one]}; factors_by_flow_direction := {[(mk_flow 7 "01.00.000", DirOutput) := f64_one]} |}.
Lemma factor_coverage_exact_witness :
  cb_counts <$> (match build_lcia_factor_coverage group_values sample_observations [sample_factor_set] (unique_supported_direction_by_flow sample_observations) with Ok b => Some b | _ => None end)
    = Some (mk_counts 2 1 1 1)
  /\ exists records, visit_lcia_gaps sample_observations [sample_factor_set] keep_record [] = Ok (records, 3).
Proof.
  destruct (factor_coverage_exact group_values sample_observations [sample_factor_set] (fun _ => reflexivity _)) as (b & records & Hb & _ & Hc & _ & Hv & _); [vm_compute; discriminate|].
  assert (E : match build_lcia_factor_coverage group_values sample_observations [sample_factor_set] (unique_supported_direction_by_flow sample_observations) with Ok b => (cb_counts b, cb_record_count b) | _ => (no_counts, 0) end
    = (mk_counts 2 1 1 1, 3)) by (vm_compute; reflexivity).
  rewrite Hb in E |- *. injection E as E1 E2. split; [simpl; by rewrite E1|]. exists records. by rewrite <-E2.
Defined.

(** C25: Loaded factor sets are exact: without LCIA there is none; otherwise there
    is one per method, in order of id.  A set holds one value for each default
    factor with a direction and no other; a method that gives a flow and
    direction two defaults is rejected, and the totals per flow are those of the
    default factors, without the ones that vanish. *)
Theorem loaded_factor_sets_exact (parse_uuid : string -> option Uuid) (show_uuid : Uuid -> string) (parsed : result string PreparedDefaults)
    (method : MethodSelection) (sets : list ImpactFactorSet) :
  load_impact_factor_sets parse_uuid show_uuid parsed method = Ok sets ->
  if ms_has_lcia method then
    StronglySorted (fun a b => if_impact_id a <= if_impact_id b) sets
    /\ exists out, sets ≡ₚ out
      /\ match ms_static_bundle method with
         | Some bundle => Forall2 (fun m s => exists records, prepare_static_method parsed bundle (sm_method_id m) (sm_method_version m) = Ok records
             /\ if_impact_id s = sm_method_id m /\ if_method_version s = sm_method_version m /\ holds not_zero (static_default <$> records) s) (bu_methods bundle) out
         | None => ms_rows method <> [] /\ Forall2 (fun row s => if_impact_id s = ri_method_id (rr_identity row) /\ if_method_version s = ri_method_version (rr_identity row)
             /\ holds over_epsilon (row_defaults parse_uuid row) s) (ms_rows method) out
         end
  else sets = [].
Proof.
  unfold load_impact_factor_sets. destruct (ms_has_lcia method); simpl; [|by intros [=]].
  assert (HS : forall out, StronglySorted (fun a b => if_impact_id a <= if_impact_id b) (sort_by (cmp_by if_impact_id Z.compare) out)).
  { intros out. eapply StronglySorted_impl; [|apply sort_by_sorted'; apply _]. intros a b H. unfold Prelude.not_gt, cmp_by in H. destruct (Z.compare_spec (if_impact_id a) (if_impact_id b)); done || lia. }
  destruct (ms_static_bundle method) as [bundle|].
  - intros (out & Hm & Hs)%bind_ok. inv_result. apply mapR_ok in Hm. split; [apply HS|]. exists out. split; [apply sort_by_perm|].
    eapply Forall2_impl; [exact Hm|]. intros m s H. by apply static_factor_set_holds in H.
  - intros ([] & He & H)%bind_ok. apply bind_ok in H as (out & Hm & Hs). inv_result. apply mapR_ok in Hm. split; [apply HS|]. exists out. split; [apply sort_by_perm|]. split.
    + apply ensure_ok in He. apply negb_true_iff, bool_decide_eq_false in He. by destruct (ms_rows method).
    + eapply Forall2_impl; [exact Hm|]. intros row s H. by apply (row_factor_set_holds parse_uuid show_uuid).
Qed.
Definition sample_factor (direction value location : string) : Value :=
  JObject [("referenceToFlowDataSet", JObject [("@refObjectId", JString "f7"); ("@version", JString "01.00.000")]);
           ("exchangeDirection", JString direction); ("meanValue", JString value); ("location", JString location)].
Definition sample_row : ResolvedLciaMethodRow :=
  mk_method_row (mk_method_identity 1 "01.00.000" 1)
    (JObject [("LCIAMethodDataSet", JObject [("characterisationFactors", JObject [("factor",
      JArray [sample_factor "Output" "3" "GLO"; sample_factor "Input" "5" "GLO"; sample_factor "Output" "9" "FR"])])])]).
Definition sample_method_selection : MethodSelection := mk_selection true None None 1 3 None [sample_row] None.
Lemma loaded_factor_sets_exact_witness :
  exists s, load_impact_factor_sets (fun text => if decide (text = "f7") then Some 7 else None) (fun _ => "id") (Err "none") sample_method_selection = Ok [s]
    /\ factors_by_flow_direction s !! (mk_flow 7 "01.00.000", DirOutput) = Some (f64_of_Z 3)
    /\ factors_by_flow s !! mk_flow 7 "01.00.000" = Some (f64_of_Z 8).
Proof.
  destruct (load_impact_factor_sets (fun text => if decide (text = "f7") then Some 7 else None) (fun _ => "id") (Err "none") sample_method_selection) as [sets|e|] eqn:E.
  2, 3: vm_compute in E; discriminate.
  pose proof (loaded_factor_sets_exact _ _ _ _ _ E) as H. cbn [ms_has_lcia ms_static_bundle ms_rows sample_method_selection] in H.
  destruct H as (_ & out & Hout & _ & HF). inversion HF as [|row s rows ss (_ & _ & Hs) HF' E1 E2]. subst. inversion HF'. subst.
  symmetry in Hout. apply Permutation_singleton_l in Hout. subst sets. exists s. split; [done|].
  destruct Hs as (_ & HD & HT). split.
  - apply HD. vm_compute. apply list_elem_of_here.
  - apply HT. split; vm_compute; reflexivity.
Defined.
