(* ===== verification/StudyRun.v ===== *)
(** * Studies: verifying a frozen run

    [study/analysis.rs] up to [verify_run], with the formats of
    [study/analysis_contracts.rs]: before a run is analysed, its documents are
    bound to each other, its two artifacts are decoded and hashed again, and the
    result is checked against the matrices it claims to solve.  The theorem says
    that this never panics and what a run it accepts satisfies.

    Parsing and printing of UUIDs, the encoders and decoders of [serde_json] and
    SHA-256 are arguments. *)

From S2P Require Import Prelude F64 Text Json DataBuilder Tidas References StudySource StudyCompile StudyExecute.

Local Open Scope string_scope.
Local Open Scope Z_scope.
Local Open Scope list_scope.

(** ** Data *)

Definition CONFIG_SCHEMA : string := "lca.study-analysis-config.v1".
Definition ANALYSIS_INPUT_SCHEMA : string := "lca.study-analysis-input.v1".
Definition FACTS_SCHEMA : string := "lca.study-analysis-facts.v1".
Definition ANALYSIS_PROFILE : string := "lca.study-analysis-explicit-v1".
Definition ANALYZER : string := "study.analysis.v1".
Definition MAX_FACTS : Z := 8192.

Inductive AnalysisKind := Contribution | Comparison.
Record AnalysisConfig := mk_config { cf_schema_version : string; cf_kind : AnalysisKind; cf_run_ids : list Uuid }.
Record Execution := mk_execution { xe_job_id : Uuid; xe_status : string }.
Record AnalysisRecord := mk_analysis {
  an_analysis_id : Uuid;
  an_study_id : Uuid;
  an_profile_id : string;
  an_config : AnalysisConfig;
  an_config_hash : string;
  an_execution : Execution;
}.
Record ArtifactRef := mk_artifact_ref {
  ar_type : string;
  ar_id : Uuid;
  ar_content_hash : string;
  ar_digest_scope : string;
  ar_byte_size : Z;
  ar_media_type : string;
  ar_schema_version : string;
}.
Record PrivateArtifact := mk_private_artifact {
  pa_study_id : Uuid;
  pa_artifact_ref : ArtifactRef;
  pa_storage_bucket : string;
  pa_storage_object_path : string;
}.
Record RunInput := mk_run_input {
  ru_run : Value;
  ru_revision : Value;
  ru_scenario : Value;
  ru_preparation : Value;
  ru_prepared_artifact : PrivateArtifact;
  ru_result_artifact : PrivateArtifact;
}.
Record ServiceInput := mk_service_input { sv_schema_version : string; sv_analysis : AnalysisRecord; sv_runs : list RunInput }.
Record VerifiedRun := mk_verified { vr_input : RunInput; vr_prepared : PreparedInput; vr_result : StudyResult }.

#[export] Instance CoverageGap_eq_dec : EqDecision CoverageGap.
Proof. solve_decision. Defined.

(** ** JSON values *)

(** [Value]'s [==]: numbers of one kind by value, floats as floats; the members
    of an object in the order of its keys. *)
Definition number_eqb (a b : Number) : bool :=
  match a, b with
  | PosInt m, PosInt n | NegInt m, NegInt n => m =? n
  | Float x, Float y => (x =? y)%f64
  | _, _ => false
  end.
Fixpoint value_eqb (a b : Value) {struct a} : bool :=
  match a, b with
  | JNull, JNull => true
  | JBool p, JBool q => Bool.eqb p q
  | JNumber m, JNumber n => number_eqb m n
  | JString s, JString t => bool_decide (s = t)
  | JArray l, JArray r =>
      (fix items l r := match l, r with
                        | [], [] => true
                        | x :: l, y :: r => value_eqb x y && items l r
                        | _, _ => false
                        end) l r
  | JObject l, JObject r =>
      (fix entries l r := match l, r with
                          | [], [] => true
                          | (k, x) :: l, (k', y) :: r => bool_decide (k = k') && value_eqb x y && entries l r
                          | _, _ => false
                          end) l r
  | _, _ => false
  end.
(** [Value]'s [==] with a string. *)
Definition text_is (v : Value) (s : string) : bool := bool_decide (as_str v = Some s).
Definition as_u64 (v : Value) : option Z := match v with JNumber (PosInt n) => Some n | _ => None end.

(** ** Values of records: the members in the order of their names *)

Definition json_of_calculation (c : CalculationRef) : Value :=
  JObject [("kind", JString (ca_kind c)); ("schema", JString (ca_schema c)); ("sha256", JString (ca_sha256 c))].
Definition json_of_method_ref (m : MethodRef) : Value :=
  JObject [("datasetType", JString (mr_dataset_type m)); ("id", JString (mr_id m)); ("type", JString (mr_type m)); ("version", JString (mr_version m))].
Definition json_of_definition (d : StudyDefinition) : Value :=
  let u := df_functional_unit d in
  JObject [("assumptions", JArray ((fun a => JObject [("evidenceRef", JString (as_evidence_ref a)); ("id", JString (as_id a)); ("statement", JString (as_statement a))])
                                   <$> df_assumptions d));
           ("functionalUnit", JObject [("amount", JString (fu_amount u)); ("referenceFlowId", JString (fu_reference_flow_id u)); ("unit", JString (fu_unit u))]);
           ("goal", JString (df_goal d)); ("methodRefs", JArray (json_of_method_ref <$> df_method_refs d)); ("systemBoundary", JString (df_system_boundary d))].
Definition json_of_hash (h : option string) : Value := match h with Some h => JString h | None => JNull end.

Section Run.
Context (parse_uuid : string -> option Uuid) (show_uuid : Uuid -> string).
(** [serde_json::to_vec] of a configuration and what [prepare] and [execute] take. *)
Context (config_bytes : AnalysisConfig -> result StudyError string).
Context (value_bytes : Identified -> result StudyError string) (input_bytes : PreparedInput -> result StudyError string).
Context (decode_input : string -> result StudyError PreparedInput) (decode_result : string -> result StudyError StudyResult).
Context (sha256 : string -> string) (fingerprint : string).

Definition json_of_artifact_ref (a : ArtifactRef) : Value :=
  JObject [("byteSize", JNumber (PosInt (ar_byte_size a))); ("contentHash", JString (ar_content_hash a)); ("digestScope", JString (ar_digest_scope a));
           ("id", JString (show_uuid (ar_id a))); ("mediaType", JString (ar_media_type a)); ("schemaVersion", JString (ar_schema_version a)); ("type", JString (ar_type a))].
Definition json_of_artifact (a : PrivateArtifact) : Value :=
  JObject [("artifactRef", json_of_artifact_ref (pa_artifact_ref a)); ("storageBucket", JString (pa_storage_bucket a));
           ("storageObjectPath", JString (pa_storage_object_path a)); ("studyId", JString (show_uuid (pa_study_id a)))].
Definition json_of_run (r : RunInput) : Value :=
  JObject [("preparation", ru_preparation r); ("preparedArtifact", json_of_artifact (ru_prepared_artifact r)); ("resultArtifact", json_of_artifact (ru_result_artifact r));
           ("revision", ru_revision r); ("run", ru_run r); ("scenario", ru_scenario r)].

(** ** Configurations and identities *)

Definition validate_config (config : AnalysisConfig) : result StudyError unit :=
  _ ← check (bool_decide (cf_schema_version config = CONFIG_SCHEMA)
             && (length (cf_run_ids config) =? match cf_kind config with Contribution => 1 | Comparison => 2 end)%nat) "study_analysis_config";
  check (bool_decide (size (list_to_set (cf_run_ids config) : gset Uuid) = length (cf_run_ids config))) "study_analysis_duplicate_runs".
Definition config_hash (config : AnalysisConfig) : result StudyError string :=
  _ ← validate_config config;
  text ← config_bytes config;
  Ok (sha256 ("study.analysis-config.v1" +:+ String.String Ascii.zero text)).
Definition id_at (value : Value) (key : string) : result StudyError Uuid :=
  ok_or (Code "study_analysis_identity") (as_str (member key value) ≫= parse_uuid).
Definition same (a b : Value) : result StudyError unit := check (value_eqb a b) "study_analysis_binding".
(** [a && b] where the conditions may fail. *)
Definition and_also (a b : result StudyError bool) : result StudyError bool :=
  c ← a;
  if c : bool then b else Ok false.
Definition id_is (value : Value) (key : string) (expected : Uuid) : result StudyError bool :=
  i ← id_at value key;
  Ok (bool_decide (i = expected)).
Definition ids_equal (a : Value) (key : string) (b : Value) (key' : string) : result StudyError bool :=
  i ← id_at a key;
  j ← id_at b key';
  Ok (bool_decide (i = j)).
Definition demand_that (c : result StudyError bool) (message : string) : result StudyError unit :=
  c ← c;
  check c message.

(** ** The request *)

Definition frozen (row : RunInput) : bool :=
  text_is (members ["execution"; "status"] (ru_run row)) "completed"
  && text_is (members ["execution"; "status"] (ru_preparation row)) "completed"
  && text_is (member "status" (ru_revision row)) "frozen"
  && text_is (member "validation" (ru_revision row)) "passed"
  && text_is (member "status" (ru_scenario row)) "frozen".
Definition check_artifact (study_id : Uuid) (a : PrivateArtifact) (kind schema : string) : result StudyError unit :=
  let r := pa_artifact_ref a in
  check (bool_decide (pa_study_id a = study_id) && bool_decide (ar_type r = kind) && bool_decide (ar_schema_version r = schema)
         && bool_decide (ar_digest_scope r = "artifact_bytes_sha256") && bool_decide (ar_media_type r = "application/json")
         && (0 <? ar_byte_size r) && (ar_byte_size r <=? 4 * 1024 * 1024)) "study_analysis_artifact_binding".
Definition check_documents (row : RunInput) : result StudyError unit :=
  let run := ru_run row in
  _ ← same (member "resultRef" run) (json_of_artifact_ref (pa_artifact_ref (ru_result_artifact row)));
  _ ← same (member "inputArtifactRef" (ru_preparation row)) (json_of_artifact_ref (pa_artifact_ref (ru_prepared_artifact row)));
  _ ← same (member "effectiveModelRef" run) (member "effectiveModelRef" (ru_scenario row));
  _ ← same (member "effectiveModelRef" run) (member "modelRef" (ru_preparation row));
  check (text_is (members ["effectiveModelRef"; "type"] run) "modelRevision"
         && text_is (members ["effectiveModelRef"; "digestScope"] run) "worker_prepared_model"
         && text_is (member "engineId" run) "solver-worker") "study_analysis_model_domain".
Definition check_domain (row : RunInput) : result StudyError unit :=
  _ ← demand_that
    (and_also (ids_equal (ru_run row) "studyRevisionId" (ru_revision row) "revisionId")
      (and_also (ids_equal (ru_scenario row) "studyRevisionId" (ru_revision row) "revisionId")
        (and_also (ids_equal (ru_run row) "scenarioRevisionId" (ru_scenario row) "scenarioRevisionId")
          (and_also (ids_equal (ru_run row) "modelPreparationId" (ru_preparation row) "preparationId")
            (ids_equal (ru_scenario row) "modelPreparationId" (ru_preparation row) "preparationId")))))
    "study_analysis_domain_binding";
  let source := member "source" (ru_preparation row) in
  demand_that
    (and_also (Ok (text_is (member "type" source) "scenarioRevision"))
      (and_also (ids_equal source "scenarioRevisionId" (ru_scenario row) "scenarioRevisionId")
        (Ok (value_eqb (member "contentHash" source) (member "contentHash" (ru_scenario row))
             && bool_decide ((n ← as_u64 (member "expectedRevision" source); if n + 1 <=? U64_MAX then Some (n + 1) else None)
                             = as_u64 (member "revision" (ru_scenario row)))))))
    "study_analysis_scenario_preparation_binding".
Definition check_row (study_id : Uuid) (row_expected : RunInput * Uuid) : result StudyError unit :=
  let '(row, expected) := row_expected in
  _ ← demand_that (and_also (id_is (ru_run row) "runId" expected) (id_is (ru_run row) "studyId" study_id)) "study_analysis_run_binding";
  _ ← foldM (fun _ doc => demand_that (id_is doc "studyId" study_id) "study_analysis_cross_study") [ru_revision row; ru_scenario row; ru_preparation row] tt;
  _ ← check (frozen row) "study_analysis_unfrozen_run";
  _ ← check_artifact study_id (ru_prepared_artifact row) "modelInput" INPUT_SCHEMA;
  _ ← check_artifact study_id (ru_result_artifact row) "runResult" RESULT_SCHEMA;
  _ ← check_documents row;
  check_domain row.
Definition validate_input (input : ServiceInput) : result StudyError unit :=
  let analysis := sv_analysis input in
  _ ← demand_that
    (and_also (Ok (bool_decide (sv_schema_version input = ANALYSIS_INPUT_SCHEMA) && bool_decide (an_profile_id analysis = ANALYSIS_PROFILE)
                   && bool_decide (xe_status (an_execution analysis) = "running")))
      (and_also (h ← config_hash (an_config analysis); Ok (bool_decide (an_config_hash analysis = h)))
        (Ok (length (sv_runs input) =? length (cf_run_ids (an_config analysis)))%nat)))
    "study_analysis_input_binding";
  foldM (fun _ => check_row (an_study_id analysis)) (zip (sv_runs input) (cf_run_ids (an_config analysis))) tt.

(** ** The run *)

(** [PartialEq] of views: their pivots compare as floats. *)
Definition view_eqb (a b : View) : bool :=
  bool_decide (vi_port a = vi_port b) && bool_decide (vi_flow a = vi_flow b) && bool_decide (vi_unit a = vi_unit b) && (vi_pivot a =? vi_pivot b)%f64.
(** [to_bits() == to_bits()], where neither is a NaN. *)
Definition same_bits (x y : f64) : bool := bool_decide (x = y).
Definition close (actual expected : f64) : result StudyError unit :=
  _ ← check (is_finite actual && is_finite expected) "study_analysis_nonfinite";
  check (same_bits actual expected
         || (f64_abs (actual - expected) <=? residual_tolerance * f64_max (f64_abs actual) (f64_abs expected))%f64) "study_analysis_result_numeric".
Definition check_bindings (input : RunInput) (prepared : PreparedInput) (binding : StudyBinding) : result StudyError unit :=
  _ ← same (member "definition" (ru_revision input)) (json_of_definition (sb_definition binding));
  let run := ru_run input in
  let preparation := ru_preparation input in
  _ ← check (text_is (member "revisionId" (ru_revision input)) (sb_revision_id binding)
             && text_is (member "contentHash" (ru_revision input)) (sb_revision_content_hash binding)
             && value_eqb (member "inputHash" run) (json_of_hash (pi_input_hash prepared))
             && value_eqb (member "inputHash" preparation) (member "inputHash" run)
             && text_is (members ["effectiveModelRef"; "contentHash"] run) (pi_model_hash prepared)) "study_analysis_input_identity";
  let calculation := json_of_calculation (pi_calculation_contract_ref prepared) in
  _ ← same (member "calculationContractRef" run) calculation;
  _ ← same (member "calculationContractRef" preparation) calculation;
  check (text_is (member "profileId" run) (pi_profile_id prepared) && text_is (member "profileId" preparation) (pi_profile_id prepared)
         && value_eqb (member "methodRefs" preparation) (JArray (json_of_method_ref <$> df_method_refs (sb_definition binding)))) "study_analysis_profile_binding".
Definition check_result_binding (input : RunInput) (prepared : PreparedInput) (result : StudyResult) : Prelude.result StudyError unit :=
  check (bool_decide (st_schema_version result = RESULT_SCHEMA) && bool_decide (st_compiler_version result = COMPILER)
         && bool_decide (st_profile_id result = pi_profile_id prepared) && bool_decide (st_calculation_contract_ref result = pi_calculation_contract_ref prepared)
         && bool_decide (st_model_hash result = pi_model_hash prepared) && bool_decide (st_input_hash result = pi_input_hash prepared)
         && bool_decide (st_prepared_artifact_sha256 result = ar_content_hash (pa_artifact_ref (ru_prepared_artifact input)))
         && bool_decide (st_coverage result = pi_coverage prepared) && bool_decide (st_quality_findings result = nm_quality_findings (pi_model prepared))
         && negb (st_business_pilot_qualified result) && Bool.eqb (st_complete_lcia_scores result) (bool_decide (pi_coverage prepared = [])))
    "study_analysis_result_binding".
Definition check_axes (n : NumericInput) (model : NormalizedModel) (d : StudyDefinition) : result StudyError unit :=
  _ ← check (bool_decide (vi_port (nu_reference n) = nm_reference model)
             && bool_decide (ref_id (vi_flow (nu_reference n)) = fu_reference_flow_id (df_functional_unit d))
             && bool_decide (vi_unit (nu_reference n) = fu_unit (df_functional_unit d))) "study_analysis_functional_unit";
  check ((length (nu_method_axes n) =? length (df_method_refs d))%nat
         && forallb (fun ar => bool_decide (ma_id ar.1 = mr_id ar.2) && bool_decide (ma_version ar.1 = mr_version ar.2)
                               && bool_decide (mr_type ar.2 = "datasetRevision") && bool_decide (mr_dataset_type ar.2 = "lciamethod"))
              (zip (nu_method_axes n) (df_method_refs d))) "study_analysis_method_axis".
Definition check_demand (n : NumericInput) (d : StudyDefinition) : result StudyError unit :=
  reference_index ← ok_or (Code "study_analysis_reference_view") (position (fun v => view_eqb v (nu_reference n)) (nu_views n));
  demand ← ok_or (Code "invalid float literal") (parse_f64 (fu_amount (df_functional_unit d)));
  foldM (fun _ iv => check (if (iv.1 =? reference_index)%nat then same_bits iv.2 demand else (iv.2 =? f64_zero)%f64) "study_analysis_reference_demand") (enumerate (nu_y n)) tt.
Definition check_solution (n : NumericInput) (result : StudyResult) : Prelude.result StudyError unit :=
  let x := st_x result in
  _ ← check ((length x =? length (nu_views n))%nat && (length (st_g result) =? length (nu_inventory_axes n))%nat
             && (length (st_h result) =? length (nu_method_axes n))%nat
             && forallb (fun v => is_finite v && (f64_zero <=? v)%f64) x) "study_analysis_result_axes";
  let scale := foldl (fun a b => f64_max a (f64_abs b)) f64_one (x ++ nu_y n) in
  _ ← foldM (fun _ ir =>
          xi ← unwrap (x !! ir.1);
          yi ← unwrap (nu_y n !! ir.1);
          let residual := row_residual x ir.2 xi yi in
          check (is_finite residual && (f64_abs residual <=? residual_tolerance * scale)%f64) "study_analysis_result_residual") (enumerate (nu_a n)) tt;
  _ ← foldM (fun _ rg => close rg.2 (f64_sum (zip_with f64_mul rg.1 x))) (zip (nu_b n) (st_g result)) tt;
  foldM (fun _ rh => close rh.2 (f64_sum (zip_with f64_mul rh.1 (st_g result)))) (zip (nu_c n) (st_h result)) tt.
Definition is_method (r : DatasetRef) (m : MethodAxis) : bool := bool_decide (ma_id m = ref_id r) && bool_decide (ma_version m = ref_version r).
Definition check_gap (n : NumericInput) (gap : CoverageGap) : result StudyError unit :=
  _ ← check ((gp_inventory_index gap <? length (nu_inventory_axes n))%nat && existsb (is_method (gp_method gap)) (nu_method_axes n)) "study_analysis_coverage_axis";
  method ← ok_or (Code "study_analysis_coverage_axis") (position (is_method (gp_method gap)) (nu_method_axes n));
  row ← unwrap (nu_c n !! method);
  c ← unwrap (row !! gp_inventory_index gap);
  check (c =? f64_zero)%f64 "study_analysis_gap_has_factor".
Definition check_units (n : NumericInput) (model : NormalizedModel) : result StudyError unit :=
  _ ← foldM (fun _ axis =>
          check (existsb (fun e => bool_decide (ex_kind e = "Elementary flow") && bool_decide (ex_flow e = ax_flow axis)
                                   && bool_decide (ex_direction e = ax_direction axis) && bool_decide (ex_unit e = ax_unit axis))
                   (nm_instances model ≫= is_exchanges)) "study_analysis_inventory_unit") (nu_inventory_axes n) tt;
  foldM (fun _ view =>
      check (match instance_named (po_instance_id (vi_port view)) (nm_instances model) ≫= exchange_named (po_exchange_id (vi_port view)) with
             | Some e => bool_decide (ex_flow e = vi_flow view) && bool_decide (ex_unit e = vi_unit view)
             | None => false
             end) "study_analysis_view_unit") (nu_views n) tt.
Definition verify_run (input : RunInput) (prepared_bytes result_bytes : string) (bounds : Bounds) : result StudyError VerifiedRun :=
  let prepared_ref := pa_artifact_ref (ru_prepared_artifact input) in
  let result_ref := pa_artifact_ref (ru_result_artifact input) in
  _ ← check ((Z.of_nat (String.length prepared_bytes) =? ar_byte_size prepared_ref) && (Z.of_nat (String.length result_bytes) =? ar_byte_size result_ref)
             && bool_decide (sha256 result_bytes = ar_content_hash result_ref)) "study_analysis_artifact_integrity";
  prepared ← decode_prepared value_bytes decode_input sha256 fingerprint prepared_bytes (ar_content_hash prepared_ref) bounds;
  _ ← validate_execution value_bytes input_bytes sha256 fingerprint prepared;
  result ← decode_result result_bytes;
  binding ← ok_or (Code "study_analysis_study_binding") (pi_study_binding prepared);
  let n := pi_numeric prepared in
  _ ← check_bindings input prepared binding;
  _ ← check_result_binding input prepared result;
  _ ← check_axes n (pi_model prepared) (sb_definition binding);
  _ ← check_demand n (sb_definition binding);
  _ ← check_solution n result;
  _ ← foldM (fun _ => check_gap n) (pi_coverage prepared) tt;
  _ ← check_units n (pi_model prepared);
  Ok (mk_verified input prepared result).
End Run.

(** ** Equality of values *)

Lemma value_eqb_array l r : value_eqb (JArray l) (JArray r) = true <-> Forall2 (fun x y => value_eqb x y = true) l r.
Proof.
  revert r. induction l as [|x l IH]; intros [|y r]; simpl; [by split; [constructor|]|by split; [|inversion 1]..|].
  rewrite andb_true_iff, Forall2_cons. specialize (IH r). simpl in IH. by rewrite IH.
Qed.
Lemma value_eqb_object l r : value_eqb (JObject l) (JObject r) = true <-> Forall2 (fun x y => x.1 = y.1 /\ value_eqb x.2 y.2 = true) l r.
Proof.
  revert r. induction l as [|[k x] l IH]; intros [|[k' y] r]; simpl; [by split; [constructor|]|by split; [|inversion 1]..|].
  rewrite !andb_true_iff, bool_decide_eq_true, Forall2_cons. specialize (IH r). simpl in IH. by rewrite IH.
Qed.
(** Equal floats are the same, or zeros. *)
Lemma SFeqb_spec x y : (x =? y)%f64 = true <-> (x = y /\ is_nan x = false) \/ exists s t, x = S754_zero s /\ y = S754_zero t.
Proof.
  split.
  - unfold SFeqb. destruct x as [sx|sx| |sx mx ex], y as [sy|sy| |sy my ey]; simpl; try (by destruct sx, sy); try (by destruct sx); try (by destruct sy); try done.
    + intros _. right. by exists sx, sy.
    + destruct sx, sy; try done; intros _; by left.
    + change (Pos.compare_cont Eq mx my) with (Pos.compare mx my). destruct sx, sy; try done; destruct (Z.compare_spec ex ey); try done; subst;
        destruct (Pos.compare_spec mx my); try done; subst; intros _; by left.
  - intros [[-> Hn]|(s & t & -> & ->)]; [|done]. unfold SFeqb. destruct y as [s|s| |s m e]; try done; [by destruct s|]. simpl. rewrite Z.compare_refl, Pos.compare_cont_refl. by destruct s.
Qed.
Lemma number_eqb_sym m n : number_eqb m n = true -> number_eqb n m = true.
Proof.
  destruct m, n; simpl; try done; rewrite ?Z.eqb_eq; [done..|]. rewrite !SFeqb_spec. intros [[-> Hn]|(s & t & -> & ->)]; [by left|right; by exists t, s].
Qed.
Lemma number_eqb_trans l m n : number_eqb l m = true -> number_eqb m n = true -> number_eqb l n = true.
Proof.
  destruct l, m, n; simpl; try done; rewrite ?Z.eqb_eq; try lia. rewrite !SFeqb_spec. intros [[-> Hn]|(s & t & -> & ->)]; [done|].
  intros [[<- _]|(s' & t' & _ & ->)]; right; eauto.
Qed.
#[export] Instance value_eqb_symmetric : Symmetric (fun a b => value_eqb a b = true).
Proof.
  intros a. induction a as [|p|m|s|l IH|l IH] using value_induction; intros [|q|n|t|r|r]; try done.
  - simpl. rewrite !Bool.eqb_true_iff. done.
  - apply number_eqb_sym.
  - simpl. rewrite !bool_decide_eq_true. done.
  - rewrite !value_eqb_array. revert r. induction IH as [|x l Hx _ IHl]; intros r; inversion 1; subst; constructor; auto.
  - rewrite !value_eqb_object. revert r. induction IH as [|x l Hx _ IHl]; intros r; inversion 1 as [|? y ? ? [Hk Hv]]; subst; constructor; auto.
Qed.
#[export] Instance value_eqb_transitive : Transitive (fun a b => value_eqb a b = true).
Proof.
  intros a. induction a as [|p|m|s|l IH|l IH] using value_induction; intros [|q|n|t|r|r] [|u|k|w|z|z]; try done.
  - simpl. rewrite !Bool.eqb_true_iff. congruence.
  - apply number_eqb_trans.
  - simpl. rewrite !bool_decide_eq_true. congruence.
  - rewrite !value_eqb_array. revert r z. induction IH as [|x l Hx _ IHl]; intros r z; inversion 1; subst; inversion 1; subst; constructor; eauto.
  - rewrite !value_eqb_object. revert r z. induction IH as [|x l Hx _ IHl]; intros r z; inversion 1 as [|? y ? ? [Hk Hv]]; subst; inversion 1 as [|? y' ? ? [Hk' Hv']]; subst; constructor; eauto.
    split; [congruence|eauto].
Qed.
(** Equal values have equal members. *)
Lemma value_eqb_member k a b : value_eqb a b = true -> value_eqb (member k a) (member k b) = true.
Proof.
  destruct a as [| | | | |l], b as [| | | | |r]; try done. rewrite value_eqb_object. unfold member, get. induction 1 as [|[x v] [y w] l r [Hk Hv] _ IH]; [done|].
  simpl in Hk, Hv. subst y. simpl. repeat case_decide; try done. destruct (list_find _ l) as [[? ?]|], (list_find _ r) as [[? ?]|]; done.
Qed.
Lemma value_eqb_str a b : value_eqb a b = true -> as_str a = as_str b.
Proof. destruct a, b; try done. simpl. rewrite bool_decide_eq_true. congruence. Qed.

(** ** What a verified run satisfies *)

Lemma foldM_each {E A} (f : A -> result E unit) l u : foldM (fun _ => f) l tt = Ok u -> Forall (fun a => f a = Ok tt) l.
Proof.
  induction l as [|a l IH]; cbn [foldM]; [constructor|]. intros ([] & Ha & H)%bind_ok. constructor; [done|by apply IH].
Qed.
Lemma foldM_each_no_panic {E A} (f : A -> result E unit) l u : (forall a, a ∈ l -> f a <> Panic) -> foldM (fun _ => f) l u <> Panic.
Proof. intros H. apply foldM_no_panic. intros a _ Ha. by apply H. Qed.

(** Equal up to the tolerance of the checks. *)
Definition near (actual expected : f64) : Prop :=
  is_finite actual = true /\ is_finite expected = true
  /\ (actual = expected \/ (f64_abs (actual - expected) <=? residual_tolerance * f64_max (f64_abs actual) (f64_abs expected))%f64 = true).
Lemma close_near a e : close a e = Ok tt -> near a e.
Proof.
  unfold close. intros ([] & Hf & H)%bind_ok. apply ensure_ok in Hf, H. apply andb_true_iff in Hf as [Ha He].
  split_and!; [done..|]. unfold same_bits in H. apply orb_true_iff in H as [H|H]; [left; by apply bool_decide_eq_true in H|by right].
Qed.

Record solution_verified (n : NumericInput) (result : StudyResult) : Prop := {
  sv_x : length (st_x result) = length (nu_views n);
  sv_g : length (st_g result) = length (nu_inventory_axes n);
  sv_h : length (st_h result) = length (nu_method_axes n);
  sv_activity : Forall (fun v => is_finite v = true /\ (f64_zero <=? v)%f64 = true) (st_x result);
  (** x - A x is the demand *)
  sv_balance : forall i row xi yi, nu_a n !! i = Some row -> st_x result !! i = Some xi -> nu_y n !! i = Some yi ->
    let residual := row_residual (st_x result) row xi yi in
    is_finite residual = true /\ (f64_abs residual <=? residual_tolerance * foldl (fun a b => f64_max a (f64_abs b)) f64_one (st_x result ++ nu_y n))%f64 = true;
  (** g is B x, and h is C g *)
  sv_inventory : forall i row g, nu_b n !! i = Some row -> st_g result !! i = Some g -> near g (f64_sum (zip_with f64_mul row (st_x result)));
  sv_impact : forall i row h, nu_c n !! i = Some row -> st_h result !! i = Some h -> near h (f64_sum (zip_with f64_mul row (st_g result)));
}.
(** The demand is the functional unit's amount at the reference view. *)
Definition demands_functional_unit (n : NumericInput) (d : StudyDefinition) : Prop :=
  exists j v demand, nu_views n !! j = Some v /\ view_eqb v (nu_reference n) = true /\ parse_f64 (fu_amount (df_functional_unit d)) = Some demand
    /\ forall i y, nu_y n !! i = Some y -> if decide (i = j) then y = demand else (y =? f64_zero)%f64 = true.
(** A gap names a method and an axis without a factor. *)
Definition gap_verified (n : NumericInput) (gap : CoverageGap) : Prop :=
  (gp_inventory_index gap < length (nu_inventory_axes n))%nat
  /\ exists m axis c, nu_method_axes n !! m = Some axis /\ is_method (gp_method gap) axis = true /\ cell (nu_c n) m (gp_inventory_index gap) = Some c /\ (c =? f64_zero)%f64 = true.

Lemma check_solution_spec n result : execution_shapes n ->
  match check_solution n result with Ok _ => solution_verified n result | Err _ => True | Panic => False end.
Proof.
  intros HS. unfold check_solution. destruct (check _ "study_analysis_result_axes") as [[]| |] eqn:Ec; cbn [mbind result_bind]; [|done|by apply (ensure_no_panic _ _ Ec)].
  apply ensure_ok in Ec. rewrite !andb_true_iff, !Nat.eqb_eq in Ec. destruct Ec as [[[Hx Hg] Hh] Hf].
  destruct (foldM _ (enumerate (nu_a n)) tt) as [[]| |] eqn:Ea; cbn [mbind result_bind]; [|done|].
  2: { revert Ea. apply foldM_no_panic. intros [i row] _ Hin%elem_of_enumerate. cbn [fst snd]. assert (Hi : (i < length (nu_views n))%nat).
       { apply lookup_lt_Some in Hin. by rewrite (proj1 (es_a _ HS)) in Hin. }
       destruct (lookup_lt_is_Some_2 (st_x result) i ltac:(lia)) as [xi ->]. destruct (lookup_lt_is_Some_2 (nu_y n) i ltac:(rewrite (es_y _ HS); lia)) as [yi ->].
       cbn [unwrap mbind result_bind]. apply ensure_no_panic. }
  destruct (foldM _ (zip (nu_b n) (st_g result)) tt) as [[]| |] eqn:Eb; cbn [mbind result_bind]; [|done|].
  2: { revert Eb. apply foldM_each_no_panic. intros rg _. unfold close, check. no_panic. }
  destruct (foldM _ (zip (nu_c n) (st_h result)) tt) as [[]| |] eqn:Eh; [|done|].
  2: { revert Eh. apply foldM_each_no_panic. intros rg _. unfold close, check. no_panic. }
  apply foldM_each in Ea. apply foldM_each in Eb. apply foldM_each in Eh. rewrite Forall_forall in Ea. rewrite Forall_lookup in Eb. rewrite Forall_lookup in Eh.
  split; [done..| | | |].
  - apply Forall_forall. intros v Hv%list_elem_of_In. rewrite forallb_forall in Hf. by apply andb_true_iff, Hf.
  - intros i row xi yi Ha Hxi Hyi. specialize (Ea (i, row) (proj2 (elem_of_enumerate _ _ _) Ha)). cbn [fst snd] in Ea. rewrite Hxi, Hyi in Ea.
    cbn [unwrap mbind result_bind] in Ea. apply ensure_ok, andb_true_iff in Ea. exact Ea.
  - intros i row g Hb' Hg'. eapply close_near, (Eb i (row, g)). by rewrite lookup_zip_with, Hb', Hg'.
  - intros i row h Hc' Hh'. eapply close_near, (Eh i (row, h)). by rewrite lookup_zip_with, Hc', Hh'.
Qed.
Lemma check_demand_spec n d : match check_demand n d with Ok _ => demands_functional_unit n d | Err _ => True | Panic => False end.
Proof.
  unfold check_demand. destruct (position _ _) as [j|] eqn:Ep; cbn [ok_or mbind result_bind]; [|done].
  destruct (parse_f64 _) as [demand|] eqn:Ed; cbn [ok_or mbind result_bind]; [|done].
  destruct (foldM _ _ tt) as [[]| |] eqn:E; [|done|by revert E; apply foldM_each_no_panic; intros; apply ensure_no_panic].
  apply foldM_each in E. rewrite Forall_forall in E. destruct (position_Some _ _ _ Ep) as (v & Hv & Hp). exists j, v, demand. split_and!; [done..|].
  intros i y Hy. specialize (E (i, y) (proj2 (elem_of_enumerate _ _ _) Hy)). apply ensure_ok in E. cbn [fst snd] in E.
  case_decide as Hij; [subst; rewrite Nat.eqb_refl in E; by apply bool_decide_eq_true in E|]. by rewrite (proj2 (Nat.eqb_neq i j)) in E.
Qed.
Lemma check_gap_spec n gap : execution_shapes n -> match check_gap n gap with Ok _ => gap_verified n gap | Err _ => True | Panic => False end.
Proof.
  intros HS. unfold check_gap. destruct (check _ _) as [[]| |] eqn:Ec; cbn [mbind result_bind]; [|done|by apply (ensure_no_panic _ _ Ec)].
  apply ensure_ok in Ec. rewrite andb_true_iff, Nat.ltb_lt in Ec. destruct Ec as [Hi _].
  destruct (position _ _) as [m|] eqn:Ep; cbn [ok_or mbind result_bind]; [|done]. destruct (position_Some _ _ _ Ep) as (axis & Hm & Hp).
  destruct (es_c _ HS) as [HL HF]. destruct (lookup_lt_is_Some_2 (nu_c n) m) as [row Hr]; [rewrite HL; by apply lookup_lt_Some in Hm|]. rewrite Hr. cbn [unwrap mbind result_bind].
  rewrite Forall_lookup in HF. destruct (lookup_lt_is_Some_2 row (gp_inventory_index gap)) as [c Hc]; [by rewrite (HF m row Hr)|]. rewrite Hc. cbn [unwrap mbind result_bind].
  destruct (check _ _) as [[]| |] eqn:Ez; [|done|by apply (ensure_no_panic _ _ Ez)]. apply ensure_ok in Ez. split; [done|]. exists m, axis, c. split_and!; [done..| |done].
  unfold cell. by rewrite Hr.
Qed.

Record run_verified (run : VerifiedRun) : Prop := {
  rv_shapes : execution_shapes (pi_numeric (vr_prepared run));
  rv_solution : solution_verified (pi_numeric (vr_prepared run)) (vr_result run);
  rv_gaps : Forall (gap_verified (pi_numeric (vr_prepared run))) (pi_coverage (vr_prepared run));
  rv_binding : exists binding, pi_study_binding (vr_prepared run) = Some binding
    /\ demands_functional_unit (pi_numeric (vr_prepared run)) (sb_definition binding)
    /\ Forall2 (fun axis r => ma_id axis = mr_id r /\ ma_version axis = mr_version r) (nu_method_axes (pi_numeric (vr_prepared run))) (df_method_refs (sb_definition binding));
  rv_input_hash : value_eqb (member "inputHash" (ru_run (vr_input run))) (json_of_hash (pi_input_hash (vr_prepared run))) = true;
  rv_calculation : value_eqb (member "calculationContractRef" (ru_run (vr_input run))) (json_of_calculation (pi_calculation_contract_ref (vr_prepared run))) = true;
  rv_scores : st_coverage (vr_result run) = pi_coverage (vr_prepared run) /\ (st_complete_lcia_scores (vr_result run) = true <-> pi_coverage (vr_prepared run) = []);
}.

Section Verified.
Context (value_bytes : Identified -> result StudyError string) (input_bytes : PreparedInput -> result StudyError string).
Context (decode_input : string -> result StudyError PreparedInput) (decode_result : string -> result StudyError StudyResult).
Context (sha256 : string -> string) (fingerprint : string).
Context (Hvalue : forall v, value_bytes v <> Panic) (Hinput : forall i, input_bytes i <> Panic).
Context (Hdecode : forall s, decode_input s <> Panic) (Hresult : forall s, decode_result s <> Panic).

Lemma decode_prepared_no_panic data expected bounds : decode_prepared value_bytes decode_input sha256 fingerprint data expected bounds <> Panic.
Proof using Hvalue Hdecode.
  unfold decode_prepared. do 2 (apply bind_no_panic; [apply ensure_no_panic|intros _ _]). apply bind_no_panic; [apply Hdecode|intros value _].
  do 2 (apply bind_no_panic; [apply ensure_no_panic|intros _ _]). apply bind_no_panic; [by apply verify_identities_no_panic|done].
Qed.
Lemma check_axes_methods n model d : check_axes n model d = Ok tt ->
  Forall2 (fun axis r => ma_id axis = mr_id r /\ ma_version axis = mr_version r) (nu_method_axes n) (df_method_refs d).
Proof using.
  unfold check_axes. intros ([] & _ & H)%bind_ok. apply ensure_ok in H. rewrite andb_true_iff, Nat.eqb_eq, forallb_forall in H. destruct H as [HL HF].
  apply Forall2_same_length_lookup_2; [done|]. intros i axis r Ha Hr. specialize (HF (axis, r)). rewrite !andb_true_iff, !bool_decide_eq_true in HF.
  destruct HF as [[[? ?] _] _]; [|done]. apply list_elem_of_In, (list_elem_of_lookup_2 _ i). by rewrite lookup_zip_with, Ha, Hr.
Qed.
Lemma verify_run_spec input prepared_bytes result_bytes bounds :
  match verify_run value_bytes input_bytes decode_input decode_result sha256 fingerprint input prepared_bytes result_bytes bounds with
  | Ok run => vr_input run = input /\ decode_input prepared_bytes = Ok (vr_prepared run) /\ decode_result result_bytes = Ok (vr_result run)
      /\ sha256 prepared_bytes = ar_content_hash (pa_artifact_ref (ru_prepared_artifact input))
      /\ sha256 result_bytes = ar_content_hash (pa_artifact_ref (ru_result_artifact input)) /\ run_verified run
  | Err _ => True
  | Panic => False
  end.
Proof using Hvalue Hinput Hdecode Hresult.
  unfold verify_run. destruct (check _ _) as [[]| |] eqn:E1; cbn [mbind result_bind]; [|done|by apply (ensure_no_panic _ _ E1)].
  destruct (decode_prepared _ _ _ _ _ _ _) as [prepared| |] eqn:E2; cbn [mbind result_bind]; [|done|by apply decode_prepared_no_panic in E2].
  destruct (validate_execution _ _ _ _ _) as [[]| |] eqn:E3; cbn [mbind result_bind]; [|done|by apply validate_execution_no_panic in E3].
  destruct (decode_result result_bytes) as [result| |] eqn:E4; cbn [mbind result_bind]; [|done|by apply Hresult in E4].
  destruct (pi_study_binding prepared) as [binding|] eqn:E5; cbn [ok_or mbind result_bind]; [|done].
  destruct (check_bindings _ _ _) as [[]| |] eqn:E6; cbn [mbind result_bind]; [|done|by revert E6; unfold check_bindings, same, check; no_panic].
  destruct (check_result_binding _ _ _) as [[]| |] eqn:E7; cbn [mbind result_bind]; [|done|by apply (ensure_no_panic _ _ E7)].
  destruct (check_axes _ _ _) as [[]| |] eqn:E8; cbn [mbind result_bind]; [|done|by revert E8; unfold check_axes, check; no_panic].
  destruct (validated_shapes _ _ _ _ _ E3) as [HS _].
  pose proof (check_demand_spec (pi_numeric prepared) (sb_definition binding)) as H9. destruct (check_demand _ _) as [[]| |]; cbn [mbind result_bind]; [|done..].
  pose proof (check_solution_spec (pi_numeric prepared) result HS) as H10. destruct (check_solution _ _) as [[]| |]; cbn [mbind result_bind]; [|done..].
  destruct (foldM _ (pi_coverage prepared) tt) as [[]| |] eqn:E11; cbn [mbind result_bind]; [|done|].
  2: { revert E11. apply foldM_each_no_panic. intros gap _ Hp. pose proof (check_gap_spec (pi_numeric prepared) gap HS) as Hg. by rewrite Hp in Hg. }
  destruct (check_units _ _) as [[]| |] eqn:E12; cbn [mbind result_bind]; [|done|by revert E12; unfold check_units, check; no_panic].
  apply foldM_each in E11. unfold decode_prepared in E2. apply bind_ok in E2 as ([] & _ & E2). apply bind_ok in E2 as ([] & Hh & E2). apply bind_ok in E2 as (p & Hp & E2).
  apply bind_ok in E2 as ([] & _ & E2). apply bind_ok in E2 as ([] & _ & E2). apply bind_ok in E2 as ([] & _ & E2). injection E2 as ->.
  apply ensure_ok in E1, Hh, E7. rewrite !andb_true_iff in E1. rewrite !andb_true_iff, !bool_decide_eq_true in E7. apply bool_decide_eq_true in Hh.
  unfold check_bindings in E6. apply bind_ok in E6 as ([] & _ & E6). apply bind_ok in E6 as ([] & Hi & E6). apply bind_ok in E6 as ([] & Hc & E6).
  apply ensure_ok in Hi, Hc. rewrite !andb_true_iff in Hi.
  cbn [vr_input vr_prepared vr_result]. split_and!; try done; [by destruct E1 as [_ E1]; apply bool_decide_eq_true in E1|]. split; cbn [vr_input vr_prepared vr_result]; [done..| | |apply Hi|done|].
  - eapply Forall_impl; [exact E11|]. intros gap Hg. pose proof (check_gap_spec (pi_numeric prepared) gap HS) as Hs. by rewrite Hg in Hs.
  - exists binding. split_and!; [done..|]. by eapply check_axes_methods.
  - destruct E7 as [[[[_ Hcov] _] _] Hs]. apply Bool.eqb_prop in Hs. by rewrite Hs, bool_decide_eq_true.
Qed.
End Verified.

(** C20: A run accepted for analysis is genuine and consistent: its bytes have the
    hashes its documents state and decode to the prepared input and the result;
    the demand is the functional unit's amount at the reference view; the
    activities are finite, nonnegative and balance every row within the
    tolerance; the inventory is B x and the impacts are C g within theirs; and
    every coverage gap names a method and an axis without a factor.  Verification
    never panics, whatever was stored. *)
Theorem verified_run_sound (value_bytes : Identified -> result StudyError string) (input_bytes : PreparedInput -> result StudyError string)
    (decode_input : string -> result StudyError PreparedInput) (decode_result : string -> result StudyError StudyResult) (sha256 : string -> string)
    (fingerprint : string) (input : RunInput) (prepared_bytes result_bytes : string) (bounds : Bounds) :
  (forall v, value_bytes v <> Panic) -> (forall i, input_bytes i <> Panic) -> (forall s, decode_input s <> Panic) -> (forall s, decode_result s <> Panic) ->
  match verify_run value_bytes input_bytes decode_input decode_result sha256 fingerprint input prepared_bytes result_bytes bounds with
  | Ok run => vr_input run = input /\ decode_input prepared_bytes = Ok (vr_prepared run) /\ decode_result result_bytes = Ok (vr_result run)
      /\ sha256 prepared_bytes = ar_content_hash (pa_artifact_ref (ru_prepared_artifact input))
      /\ sha256 result_bytes = ar_content_hash (pa_artifact_ref (ru_result_artifact input)) /\ run_verified run
  | Err _ => True
  | Panic => False
  end.
Proof. intros Hv Hi Hd Hr. exact (verify_run_spec value_bytes input_bytes decode_input decode_result sha256 fingerprint Hv Hi Hd Hr input prepared_bytes result_bytes bounds). Qed.

(** The run of the sample study. *)
Definition sample_uuid (s : string) : option Uuid := parse_i32 s.
Definition sample_definition : StudyDefinition :=
  mk_definition "goal" (mk_functional_unit "1" "kg" "good") "boundary" [mk_method_ref "datasetRevision" "lciamethod" "method" "1"] [].
Definition sample_bound : PreparedInput :=
  match sample_prepare with
  | Ok i =>
      let i := mk_prepared (pi_schema_version i) (pi_profile_id i) (pi_compiler_version i) (pi_calculation_contract_ref i) (pi_source_hash i) "" None
                 (Some (mk_binding "2" "content" sample_definition)) (pi_model i) (pi_numeric i) (pi_coverage i) (pi_method_source_hash i) (pi_limits i) in
      match identities (fun _ => Ok "value") (fun s => "h" +:+ s) i with Ok hs => with_hashes i hs | _ => i end
  | _ => mk_prepared "" "" "" (calc_ref "") "" "" None None (mk_normalized "" (mk_ref "" "") (mk_study_port "" "") [] [] [] [] [] [])
           (mk_numeric [] [] [] (mk_study_view (mk_study_port "" "") (mk_ref "" "") "" f64_zero) [] [] [] []) [] "" default_bounds
  end.
Definition sample_result : StudyResult :=
  mk_study_result RESULT_SCHEMA PROFILE COMPILER (calc_ref "f") (pi_model_hash sample_bound) (pi_input_hash sample_bound) "hinput"
    [f64_of_Z 3; f64_one] [f64_of_Z 30] [f64_of_Z 90] [] ["a"; "b"] f64_zero 1 false true.
Definition sample_artifact (kind schema hash : string) (size : Z) : PrivateArtifact :=
  mk_private_artifact 5 (mk_artifact_ref kind 6 hash "artifact_bytes_sha256" size "application/json" schema) "bucket" "path".
Definition sample_completed : string * Value := ("execution", JObject [("status", JString "completed")]).
Definition sample_model_ref : Value :=
  JObject [("contentHash", JString (pi_model_hash sample_bound)); ("digestScope", JString "worker_prepared_model"); ("type", JString "modelRevision")].
Definition sample_common : list (string * Value) :=
  [("calculationContractRef", json_of_calculation (calc_ref "f")); sample_completed; ("inputHash", json_of_hash (pi_input_hash sample_bound)); ("profileId", JString PROFILE);
   ("studyId", JString "5")].
Definition sample_run (show_uuid : Uuid -> string) : RunInput :=
  let prepared := sample_artifact "modelInput" INPUT_SCHEMA "hinput" 5 in
  let result := sample_artifact "runResult" RESULT_SCHEMA "hresult" 6 in
  mk_run_input
    (JObject (sample_common ++ [("effectiveModelRef", sample_model_ref); ("engineId", JString "solver-worker"); ("modelPreparationId", JString "4");
       ("resultRef", json_of_artifact_ref show_uuid (pa_artifact_ref result)); ("runId", JString "1"); ("scenarioRevisionId", JString "3"); ("studyRevisionId", JString "2");
       ("validity", JObject [("status", JString "current")])]))
    (JObject [("contentHash", JString "content"); ("definition", json_of_definition sample_definition); ("revisionId", JString "2"); ("status", JString "frozen");
       ("studyId", JString "5"); ("validation", JString "passed")])
    (JObject [("contentHash", JString "s"); ("effectiveModelRef", sample_model_ref); ("modelPreparationId", JString "4"); ("overrides", JArray []);
       ("revision", JNumber (PosInt 2)); ("scenarioRevisionId", JString "3"); ("status", JString "frozen"); ("studyId", JString "5"); ("studyRevisionId", JString "2")])
    (JObject (sample_common ++ [("inputArtifactRef", json_of_artifact_ref show_uuid (pa_artifact_ref prepared));
       ("methodRefs", JArray (json_of_method_ref <$> df_method_refs sample_definition)); ("modelRef", sample_model_ref); ("preparationId", JString "4");
       ("source", JObject [("contentHash", JString "s"); ("expectedRevision", JNumber (PosInt 1)); ("scenarioRevisionId", JString "3"); ("type", JString "scenarioRevision")])]))
    prepared result.
Definition sample_verify (input : RunInput) : result StudyError VerifiedRun :=
  verify_run (fun _ => Ok "value") (fun _ => Ok "input") (fun _ => Ok sample_bound) (fun _ => Ok sample_result) (fun s => "h" +:+ s) "f" input "input" "result" default_bounds.
Lemma verified_run_sound_witness :
  exists run, sample_verify (sample_run (fun _ => "6")) = Ok run /\ st_x (vr_result run) = [f64_of_Z 3; f64_one] /\ run_verified run.
Proof.
  assert (E : sample_verify (sample_run (fun _ => "6")) = Ok (mk_verified (sample_run (fun _ => "6")) sample_bound sample_result)) by (vm_compute; reflexivity).
  eexists. split; [exact E|]. split; [reflexivity|].
  pose proof (verified_run_sound (fun _ => Ok "value") (fun _ => Ok "input") (fun _ => Ok sample_bound) (fun _ => Ok sample_result) (fun s => "h" +:+ s) "f"
    (sample_run (fun _ => "6")) "input" "result" default_bounds) as H.
  unfold sample_verify in E. rewrite E in H. apply H; discriminate.
Defined.

(** A preparation and a scenario that both lack their revision agree on it. *)
Definition sample_unversioned : RunInput :=
  let r := sample_run (fun _ => "6") in
  mk_run_input (ru_run r) (ru_revision r)
    (JObject [("contentHash", JString "s"); ("modelPreparationId", JString "4"); ("scenarioRevisionId", JString "3"); ("studyRevisionId", JString "2")])
    (JObject [("preparationId", JString "4"); ("source", JObject [("contentHash", JString "s"); ("scenarioRevisionId", JString "3"); ("type", JString "scenarioRevision")])])
    (ru_prepared_artifact r) (ru_result_artifact r).
Lemma absent_revisions_accepted : check_domain sample_uuid sample_unversioned = Ok tt.
Proof. vm_compute. reflexivity. Qed.
