(* ===== verification/StudyAnalysis.v ===== *)
(** * Studies: analysing frozen runs

    The rest of [study/analysis.rs]: the canonical spelling of numbers, the facts
    of one run or of two compared runs (activities, inventories, impacts, the
    contributions of views and inventory terms, the deltas), their ranking, and
    the check of the finished bundle.  The theorem says that the analysis of
    verified runs never panics and that what it returns passes that check, but
    for the length of texts it takes over.

    Parsing and printing of UUIDs, the printing of numbers, the encoded size of a
    bundle, SHA-256 and the clock are arguments. *)

From stdpp Require Import pretty.
From S2P Require Import Prelude F64 Text Partitions Json DataBuilder ContributionPath Tidas StudySource StudyCompile StudyExecute StudyRun.

Local Open Scope string_scope.
Local Open Scope Z_scope.
Local Open Scope list_scope.

(** ** Data *)

Record InputBinding := mk_input_binding {
  ib_run_id : Uuid;
  ib_study_revision_id : Uuid;
  ib_scenario_revision_id : Uuid;
  ib_model_preparation_id : Uuid;
  ib_input_hash : string;
  ib_effective_model_ref : Value;
  ib_prepared_artifact_ref : ArtifactRef;
  ib_result_ref : ArtifactRef;
  ib_calculation_contract_ref : CalculationRef;
  ib_method_source_hash : string;
  ib_validity : Value;
}.
Record Check := mk_check { ck_rule_id : string; ck_status : string }.
Record Comparability := mk_comparability {
  co_status : string;
  co_reason_codes : list string;
  co_scope : string;
  co_ranking_allowed : bool;
  co_checks : list Check;
}.
Record UnitIdentity := mk_unit_identity {
  ui_kind : string;
  ui_flow : option DatasetRef;
  ui_method : option DatasetRef;
  ui_support : list DatasetRef;
  ui_view : option Port;
}.
Record Subject := mk_subject { su_view : option Port; su_inventory : option InventoryAxis }.
Record Fact := mk_fact {
  fa_fact_id : string;
  fa_kind : string;
  fa_label : string;
  fa_run_ids : list Uuid;
  fa_method_ref : option DatasetRef;
  fa_canonical_value : option string;
  fa_unit : string;
  fa_unit_identity : UnitIdentity;
  fa_coverage : string;
  fa_scope : string;
  fa_reason_codes : list string;
  fa_subject : Subject;
}.
Record RunCoverage := mk_run_coverage { rc_run_id : Uuid; rc_gaps : list CoverageGap; rc_quality_findings : list string; rc_complete_lcia_scores : bool }.
Record CanonicalOverride := mk_canonical_override { cv_path : string; cv_value : string }.
Record ScenarioEvidence := mk_scenario_evidence { sc_run_id : Uuid; sc_scenario_revision_id : Uuid; sc_content_hash : string; sc_overrides : list CanonicalOverride }.
Record Hotspots := mk_hotspots { hs_run_id : Uuid; hs_method_ref : DatasetRef; hs_coverage : string; hs_ordering : string; hs_fact_ids : list string }.
Record FactsBundle := mk_facts_bundle {
  fb_schema_version : string;
  fb_profile_id : string;
  fb_analyzer_version : string;
  fb_study_id : Uuid;
  fb_analysis_id : Uuid;
  fb_config : AnalysisConfig;
  fb_config_hash : string;
  fb_inputs : list InputBinding;
  fb_comparability : Comparability;
  fb_facts : list Fact;
  fb_coverage : list RunCoverage;
  fb_scenario_evidence : list ScenarioEvidence;
  fb_hotspots : list Hotspots;
  fb_business_pilot_qualified : bool;
  fb_scientific_ranking_qualified : bool;
}.
#[export] Instance FunctionalUnit_eq_dec : EqDecision FunctionalUnit.
Proof. solve_decision. Defined.
#[export] Instance Assumption_eq_dec : EqDecision Assumption.
Proof. solve_decision. Defined.
#[export] Instance StudyCutoff_eq_dec : EqDecision StudyCutoff.
Proof. solve_decision. Defined.
#[export] Instance MethodAxis_eq_dec : EqDecision MethodAxis.
Proof. solve_decision. Defined.
#[export] Instance SourceIdentity_eq_dec : EqDecision SourceIdentity.
Proof. solve_decision. Defined.

(** ** Texts *)

(** [text.split_once(c)] and [text.trim_end_matches(c)]. *)
Fixpoint split_once_bytes (c : ascii) (l : list ascii) : option (list ascii * list ascii) :=
  match l with
  | [] => None
  | d :: l => if (d =? c)%char then Some ([], l) else (fun parts => (d :: parts.1, parts.2)) <$> split_once_bytes c l
  end.
Fixpoint drop_bytes (c : ascii) (l : list ascii) : list ascii := match l with d :: r => if (d =? c)%char then drop_bytes c r else l | [] => [] end.
Definition trim_end_matches (c : ascii) (l : list ascii) : list ascii := reverse (drop_bytes c (reverse l)).
(** [text.parse::<usize>()]. *)
Definition parse_usize (l : list ascii) : option Z :=
  match take_digits (match l with "+"%char :: r => r | _ => l end) with
  | ((_ :: _) as ds, []) => let n := digits_value ds in if n <=? USIZE_MAX then Some n else None
  | _ => None
  end.

(** The identities of facts and their spelling. *)
Inductive FactKey :=
| ActivityKey (run i : nat) | InventoryKey (run i : nat) | ImpactKey (run method : nat)
| ViewKey (run method view : nat) | TermKey (run method axis : nat)
| DeltaKey (method : nat) | RelativeKey (method : nat).
Definition fact_id (key : FactKey) : string :=
  match key with
  | ActivityKey ri i => "r" +:+ pretty ri +:+ ":x:" +:+ pretty i
  | InventoryKey ri i => "r" +:+ pretty ri +:+ ":g:" +:+ pretty i
  | ImpactKey ri mi => "r" +:+ pretty ri +:+ ":h:" +:+ pretty mi
  | ViewKey ri mi vi => "r" +:+ pretty ri +:+ ":v:" +:+ pretty mi +:+ ":" +:+ pretty vi
  | TermKey ri mi ii => "r" +:+ pretty ri +:+ ":i:" +:+ pretty mi +:+ ":" +:+ pretty ii
  | DeltaKey mi => "comparison:delta:" +:+ pretty mi
  | RelativeKey mi => "comparison:relative:" +:+ pretty mi
  end.

Section Analysis.
Context (parse_uuid : string -> option Uuid) (show_uuid : Uuid -> string).
(** [serde_json::to_string] of a number; [to_vec] of a configuration, and of a
    bundle with its length. *)
Context (show_f64 : f64 -> string) (config_bytes : AnalysisConfig -> result StudyError string) (bundle_size : FactsBundle -> result StudyError Z).
Context (sha256 : string -> string).

Definition canonical_number (value : f64) : result StudyError string :=
  _ ← check (is_finite value) "study_analysis_nonfinite";
  if (value =? f64_zero)%f64 then Ok "0"
  else
    let token := bytes (show_f64 value) in
    let '(mantissa, exponent) := match split_once_bytes "e"%char token with Some (m, e) => (m, Some e) | None => (token, None) end in
    let mantissa := if contains "."%char (of_bytes mantissa) then trim_end_matches "."%char (trim_end_matches "0"%char mantissa) else mantissa in
    output ← (match exponent with
              | Some e => exponent ← ok_or (Code "invalid digit found in string") (parse_i32 (of_bytes e));
                          Ok (if exponent =? 0 then of_bytes mantissa else of_bytes mantissa +:+ "e" +:+ pretty exponent)
              | None => Ok (of_bytes mantissa)
              end);
    _ ← demand_that (and_also (Ok (String.length output <=? 64)%nat)
                       (v ← ok_or (Code "invalid float literal") (parse_f64 output); Ok (same_bits v value))) "study_analysis_number_spelling";
    Ok output.

(** ** Contributions *)

Definition product (a b : f64) : result StudyError f64 :=
  let value := (a * b)%f64 in
  _ ← check (is_finite value) "study_analysis_nonfinite";
  _ ← check (negb (value =? f64_zero)%f64 || (a =? f64_zero)%f64 || (b =? f64_zero)%f64) "study_analysis_arithmetic_underflow";
  Ok value.
Definition contribution (b : Matrix) (c : list f64) (x : f64) (view : nat) : result StudyError f64 :=
  foldM (fun sum rc =>
    cell ← unwrap (rc.1 !! view);
    p ← product cell x;
    p ← product p rc.2;
    let value := (sum + p)%f64 in
    _ ← check (is_finite value) "study_analysis_nonfinite";
    Ok value) (zip b c) f64_zero.

(** ** Facts *)

Definition unit_identity (flow method : option DatasetRef) : UnitIdentity :=
  mk_unit_identity (match method, flow with Some _, _ => "lcia_method_quantity" | None, Some _ => "flow_reference_unit" | None, None => "dimensionless" end)
    flow method [] None.
Definition no_subject : Subject := mk_subject None None.
Definition run_label (id : string) : string :=
  match bytes id with
  | "r"%char :: rest => match parse_usize (first_token [":"%char] rest) with Some v => "Run " +:+ pretty (v + 1) | None => "Comparison" end
  | _ => "Comparison"
  end.
Definition fact_label (id kind : string) (method_ref : option DatasetRef) (u : UnitIdentity) (subject : Subject) : string :=
  let of_option (o : option string) := match o with Some s => [s] | None => [] end in
  let method_label := (fun m => "LCIA " +:+ ref_id m +:+ "@" +:+ ref_version m) <$> method_ref in
  let view_label := (fun v => "instance " +:+ po_instance_id v +:+ " / exchange " +:+ po_exchange_id v) <$> su_view subject in
  let flow_label := match su_inventory subject with
                    | Some i => Some (ref_id (ax_flow i) +:+ "@" +:+ ref_version (ax_flow i) +:+ " (" +:+ ax_direction i +:+ ")")
                    | None => (fun f => ref_id f +:+ "@" +:+ ref_version f) <$> ui_flow u
                    end in
  String.concat " — " ([run_label id +:+ " " +:+ kind] ++ of_option method_label ++ of_option view_label ++ of_option flow_label
    ++ (if decide (kind = "comparisonDelta") then ["alternative minus baseline"] else [])
    ++ (if decide (kind = "relativeDelta") then ["signed delta / absolute baseline"] else [])).
Definition reason_codes (kind coverage : string) (value : option f64) : list string :=
  if decide (coverage = "partial") then ["partial_characterization"]
  else match value with
       | None => [if decide (kind = "inventoryContribution") then "missing_characterization_factor" else "value_not_defined"]
       | Some _ => []
       end.
Definition fact (key : FactKey) (kind : string) (run_ids : list Uuid) (method_ref : option DatasetRef) (value : option f64) (unit_text : string)
    (u : UnitIdentity) (coverage scope : string) (subject : Subject) : result StudyError Fact :=
  canonical_value ← (match value with Some v => s ← canonical_number v; Ok (Some s) | None => Ok None end);
  Ok (mk_fact (fact_id key) kind (fact_label (fact_id key) kind method_ref u subject) run_ids method_ref canonical_value unit_text u coverage scope
        (reason_codes kind coverage value) subject).

Definition method_of (run : VerifiedRun) (index : nat) : result StudyError DatasetRef :=
  m ← unwrap (nu_method_axes (pi_numeric (vr_prepared run)) !! index);
  Ok (mk_ref (ma_id m) (ma_version m)).
Definition coverage_at (run : VerifiedRun) (index : nat) : result StudyError string :=
  method ← method_of run index;
  let gaps := size (list_to_set (gp_inventory_index <$> filter (fun g => gp_method g = method) (pi_coverage (vr_prepared run))) : gset nat) in
  Ok (if (gaps =? 0)%nat then "complete"
      else if (gaps =? length (nu_inventory_axes (pi_numeric (vr_prepared run))))%nat then "unknown" else "partial").
Definition then_some {A} (b : bool) (a : A) : option A := if b then Some a else None.

Definition activity_fact (ri : nat) (run_id : Uuid) (run : VerifiedRun) (facts : list Fact) (iv : nat * View) : result StudyError (list Fact) :=
  let '(i, v) := iv in
  let support := match instance_named (po_instance_id (vi_port v)) (nm_instances (pi_model (vr_prepared run))) ≫= exchange_named (po_exchange_id (vi_port v)) with
                 | Some e => ex_unit_identity e
                 | None => []
                 end in
  let u := mk_unit_identity "model_view_reference_unit" (Some (vi_flow v)) None support (Some (vi_port v)) in
  x ← unwrap (st_x (vr_result run) !! i);
  f ← fact (ActivityKey ri i) "activity" [run_id] None (Some x) (vi_unit v) u "complete" "declared_model_activity" (mk_subject (Some (vi_port v)) None);
  Ok (facts ++ [f]).
Definition inventory_fact (ri : nat) (run_id : Uuid) (run : VerifiedRun) (facts : list Fact) (ia : nat * InventoryAxis) : result StudyError (list Fact) :=
  let '(i, axis) := ia in
  let support := match find (fun e => bool_decide (ex_flow e = ax_flow axis) && bool_decide (ex_direction e = ax_direction axis))
                         (nm_instances (pi_model (vr_prepared run)) ≫= is_exchanges) with
                 | Some e => ex_unit_identity e
                 | None => []
                 end in
  let u := mk_unit_identity "flow_reference_unit" (Some (ax_flow axis)) None support None in
  g ← unwrap (st_g (vr_result run) !! i);
  f ← fact (InventoryKey ri i) "inventory" [run_id] None (Some g) (ax_unit axis) u "complete" "declared_inventory" (mk_subject None (Some axis));
  Ok (facts ++ [f]).

(** The view contributions of a method: their sum, their magnitude and the
    entries to rank. *)
Definition view_fact (ri : nat) (run_id : Uuid) (run : VerifiedRun) (mi : nat) (m : MethodAxis) (mr : DatasetRef) (coverage : string) (known : bool)
    (acc : f64 * f64 * list (string * f64) * list Fact) (viv : nat * View) : result StudyError (f64 * f64 * list (string * f64) * list Fact) :=
  let '(sum, magnitude, ordered, facts) := acc in
  let '(vi, v) := viv in
  let n := pi_numeric (vr_prepared run) in
  c ← unwrap (nu_c n !! mi);
  x ← unwrap (st_x (vr_result run) !! vi);
  value ← contribution (nu_b n) c x vi;
  let u := mk_unit_identity "lcia_method_quantity" None (Some mr) [] (Some (vi_port v)) in
  f ← fact (ViewKey ri mi vi) "viewContribution" [run_id] (Some mr) (then_some known value) (ma_unit m) u coverage "characterized_subtotal"
        (mk_subject (Some (vi_port v)) None);
  Ok ((sum + value)%f64, (magnitude + f64_abs value)%f64, if known then ordered ++ [(fact_id (ViewKey ri mi vi), f64_abs value)] else ordered, facts ++ [f]).
Definition term_fact (ri : nat) (run_id : Uuid) (run : VerifiedRun) (mi : nat) (m : MethodAxis) (mr : DatasetRef) (coverage : string)
    (facts : list Fact) (iia : nat * InventoryAxis) : result StudyError (list Fact) :=
  let '(ii, axis) := iia in
  let missing := existsb (fun g => bool_decide (gp_method g = mr) && (gp_inventory_index g =? ii)%nat) (pi_coverage (vr_prepared run)) in
  value ← (if missing then Ok None
           else row ← unwrap (nu_c (pi_numeric (vr_prepared run)) !! mi);
                c ← unwrap (row !! ii);
                g ← unwrap (st_g (vr_result run) !! ii);
                p ← product c g;
                Ok (Some p));
  f ← fact (TermKey ri mi ii) "inventoryContribution" [run_id] (Some mr) value (ma_unit m) (unit_identity None (Some mr)) (if missing then "unknown" else coverage)
        "characterized_inventory_term" (mk_subject None (Some axis));
  Ok (facts ++ [f]).
(** Larger contributions first, then by fact. *)
Definition hotspot_cmp : string * f64 -> string * f64 -> comparison := cmp_then (cmp_rev (cmp_by snd total_cmp)) (cmp_by fst String.compare).
Definition method_facts (elapsed : nat -> Z) (ri : nat) (run_id : Uuid) (run : VerifiedRun) (acc : list Fact * list Hotspots) (mim : nat * MethodAxis)
    : result StudyError (list Fact * list Hotspots) :=
  let '(facts, hotspots) := acc in
  let '(mi, m) := mim in
  let n := pi_numeric (vr_prepared run) in
  _ ← check (elapsed mi <=? bo_max_elapsed_millis (pi_limits (vr_prepared run))) "study_analysis_time_limit";
  mr ← method_of run mi;
  coverage ← coverage_at run mi;
  let known := negb (bool_decide (coverage = "unknown")) in
  h ← unwrap (st_h (vr_result run) !! mi);
  f ← fact (ImpactKey ri mi) "impact" [run_id] (Some mr) (then_some known h) (ma_unit m) (unit_identity None (Some mr)) coverage "characterized_subtotal" no_subject;
  '(sum, magnitude, ordered, facts) ← foldM (view_fact ri run_id run mi m mr coverage known) (enumerate (nu_views n)) (f64_zero, f64_zero, [], facts ++ [f]);
  _ ← check (is_finite sum && is_finite magnitude && (f64_abs (sum - h) <=? residual_tolerance * f64_max magnitude (f64_abs h))%f64)
        "study_analysis_contribution_balance";
  let ranked := mk_hotspots run_id mr coverage "absolute_characterized_contribution_desc_then_fact_id" (fst <$> sort_by hotspot_cmp ordered) in
  facts ← foldM (term_fact ri run_id run mi m mr coverage) (enumerate (nu_inventory_axes n)) facts;
  Ok (facts, hotspots ++ [ranked]).
Definition run_facts (elapsed : nat -> nat -> Z) (input : ServiceInput) (acc : list Fact * list Hotspots) (rir : nat * VerifiedRun)
    : result StudyError (list Fact * list Hotspots) :=
  let '(facts, hotspots) := acc in
  let '(ri, run) := rir in
  row ← unwrap (sv_runs input !! ri);
  _ ← same (json_of_run show_uuid (vr_input run)) (json_of_run show_uuid row);
  id ← id_at parse_uuid (ru_run (vr_input run)) "runId";
  run_id ← unwrap (cf_run_ids (an_config (sv_analysis input)) !! ri);
  _ ← check (bool_decide (id = run_id)) "study_analysis_run_order";
  let n := pi_numeric (vr_prepared run) in
  facts ← foldM (activity_fact ri run_id run) (enumerate (nu_views n)) facts;
  facts ← foldM (inventory_fact ri run_id run) (enumerate (nu_inventory_axes n)) facts;
  foldM (method_facts (elapsed ri) ri run_id run) (enumerate (nu_method_axes n)) (facts, hotspots).

(** ** Comparing two runs *)

Definition apply_rules (rules : list (string * bool)) (unmet suffix : string) (acc : list Check * list string) : list Check * list string :=
  foldl (fun acc rule => (acc.1 ++ [mk_check rule.1 (if rule.2 : bool then "passed" else unmet)],
                          if rule.2 : bool then acc.2 else acc.2 ++ [rule.1 +:+ suffix])) acc rules.
Definition comparability (runs : list VerifiedRun) : result StudyError Comparability :=
  let make (status : string) (reasons : list string) (checks : list Check) := mk_comparability status reasons "frozen_numerical_inputs_only" false checks in
  if (length runs =? 1)%nat then Ok (make "not_assessed" ["comparison_not_requested"] [])
  else
    ra ← unwrap (runs !! 0%nat);
    rb ← unwrap (runs !! 1%nat);
    let a := vr_prepared ra in
    let b := vr_prepared rb in
    ba ← unwrap (pi_study_binding a);
    bb ← unwrap (pi_study_binding b);
    let da := sb_definition ba in
    let db := sb_definition bb in
    let '(checks, reasons) := apply_rules
      [("functional_unit", bool_decide (df_functional_unit da = df_functional_unit db));
       ("system_boundary", bool_decide (df_system_boundary da = df_system_boundary db));
       ("method_axes", bool_decide (nu_method_axes (pi_numeric a) = nu_method_axes (pi_numeric b)));
       ("calculation_profile", bool_decide (pi_profile_id a = pi_profile_id b) && bool_decide (pi_compiler_version a = pi_compiler_version b)
                               && bool_decide (pi_calculation_contract_ref a = pi_calculation_contract_ref b));
       ("method_source", bool_decide (pi_method_source_hash a = pi_method_source_hash b));
       ("declared_assumptions", bool_decide (df_assumptions da = df_assumptions db));
       ("declared_cutoffs", bool_decide (nm_cutoffs (pi_model a) = nm_cutoffs (pi_model b)))] "failed" "_mismatch" ([], []) in
    if negb (bool_decide (reasons = [])) then Ok (make "not_comparable" reasons checks)
    else
      let '(checks, reasons) := apply_rules
        [("complete_characterization", forallb (fun r => bool_decide (pi_coverage (vr_prepared r) = [])) runs);
         ("source_quality", forallb (fun r => bool_decide (nm_quality_findings (pi_model (vr_prepared r)) = [])) runs);
         ("current_run_validity", forallb (fun r => text_is (members ["validity"; "status"] (ru_run (vr_input r))) "current") runs);
         ("source_identity", bool_decide (nm_source_documents (pi_model a) = nm_source_documents (pi_model b)))] "unknown" "_not_qualified" (checks, reasons) in
      Ok (make (if bool_decide (reasons = []) then "comparable" else "not_assessed") reasons checks).

(** [coverage(a) != "unknown"] and the like, evaluated only when it is reached. *)
Definition usable_method (status : string) (a b : VerifiedRun) (mi : nat) : result StudyError bool :=
  and_also (Ok (negb (bool_decide (status = "not_comparable"))))
    (and_also (c ← coverage_at a mi; Ok (negb (bool_decide (c = "unknown")))) (c ← coverage_at b mi; Ok (negb (bool_decide (c = "unknown"))))).
Definition comparison_facts (status : string) (run_ids : list Uuid) (a b : VerifiedRun) (facts : list Fact) (mim : nat * MethodAxis)
    : result StudyError (list Fact) :=
  let '(mi, m) := mim in
  mr ← method_of a mi;
  usable ← usable_method status a b mi;
  coverage ← (if negb (usable : bool) then Ok "unknown"
              else complete ← and_also (c ← coverage_at a mi; Ok (bool_decide (c = "complete"))) (c ← coverage_at b mi; Ok (bool_decide (c = "complete")));
                   Ok (if complete : bool then "complete" else "partial"));
  delta ← (if (usable : bool) then hb ← unwrap (st_h (vr_result b) !! mi); ha ← unwrap (st_h (vr_result a) !! mi); Ok (Some (hb - ha)%f64) else Ok None);
  f ← fact (DeltaKey mi) "comparisonDelta" run_ids (Some mr) delta (ma_unit m) (unit_identity None (Some mr)) coverage "numeric_delta_of_characterized_subtotals" no_subject;
  relative ← (match delta with
              | Some v => ha ← unwrap (st_h (vr_result a) !! mi); Ok (if negb (ha =? f64_zero)%f64 then Some (v / f64_abs ha)%f64 else None)
              | None => Ok None
              end);
  f' ← fact (RelativeKey mi) "relativeDelta" run_ids (Some mr) relative "1" (unit_identity None None) (match relative with Some _ => coverage | None => "unknown" end)
         "delta_divided_by_absolute_baseline" no_subject;
  Ok (facts ++ [f] ++ [f']).

(** ** The analysis *)

Definition binding_of (run : VerifiedRun) : result StudyError InputBinding :=
  let row := vr_input run in
  run_id ← id_at parse_uuid (ru_run row) "runId";
  study_revision_id ← id_at parse_uuid (ru_run row) "studyRevisionId";
  scenario_revision_id ← id_at parse_uuid (ru_run row) "scenarioRevisionId";
  model_preparation_id ← id_at parse_uuid (ru_run row) "modelPreparationId";
  input_hash ← ok_or (Code "study_analysis_input_identity") (pi_input_hash (vr_prepared run));
  Ok (mk_input_binding run_id study_revision_id scenario_revision_id model_preparation_id input_hash (member "effectiveModelRef" (ru_run row))
        (pa_artifact_ref (ru_prepared_artifact row)) (pa_artifact_ref (ru_result_artifact row)) (pi_calculation_contract_ref (vr_prepared run))
        (pi_method_source_hash (vr_prepared run)) (member "validity" (ru_run row))).
Definition run_coverage (run : VerifiedRun) : result StudyError RunCoverage :=
  run_id ← id_at parse_uuid (ru_run (vr_input run)) "runId";
  Ok (mk_run_coverage run_id (pi_coverage (vr_prepared run)) (nm_quality_findings (pi_model (vr_prepared run))) (st_complete_lcia_scores (vr_result run))).
Definition canonical_override (v : Value) : result StudyError CanonicalOverride :=
  path ← ok_or (Code "study_analysis_override_path") (as_str (member "path" v));
  number ← ok_or (Code "study_analysis_override_value") (match member "value" v with JNumber n => as_f64 n | _ => None end);
  value ← canonical_number number;
  Ok (mk_canonical_override path value).
Definition scenario_evidence (run : VerifiedRun) : result StudyError ScenarioEvidence :=
  run_id ← id_at parse_uuid (ru_run (vr_input run)) "runId";
  scenario_revision_id ← id_at parse_uuid (ru_run (vr_input run)) "scenarioRevisionId";
  content_hash ← ok_or (Code "study_analysis_scenario_hash") (as_str (member "contentHash" (ru_scenario (vr_input run))));
  overrides ← ok_or (Code "study_analysis_scenario_overrides") (match member "overrides" (ru_scenario (vr_input run)) with JArray l => Some l | _ => None end);
  overrides ← mapR canonical_override overrides;
  Ok (mk_scenario_evidence run_id scenario_revision_id content_hash overrides).
(** The number of facts of a run; the lengths are far below the range of [usize]. *)
Definition fact_count (run : VerifiedRun) : Z :=
  let n := pi_numeric (vr_prepared run) in
  let nv := Z.of_nat (length (nu_views n)) in
  let ni := Z.of_nat (length (nu_inventory_axes n)) in
  nv + ni + saturating_mul (Z.of_nat (length (nu_method_axes n))) (1 + nv + ni).
Definition analyze (elapsed : nat -> nat -> Z) (input : ServiceInput) (runs : list VerifiedRun) : result StudyError FactsBundle :=
  let analysis := sv_analysis input in
  _ ← validate_input parse_uuid show_uuid config_bytes sha256 input;
  _ ← check (length runs =? length (sv_runs input))%nat "study_analysis_runs";
  estimate ← foldM (fun total r => _ ← check (total + fact_count r <=? USIZE_MAX) "study_analysis_fact_limit"; Ok (total + fact_count r)) runs 0;
  first ← unwrap (runs !! 0%nat);
  _ ← check (saturating_add estimate (2 * Z.of_nat (length (nu_method_axes (pi_numeric (vr_prepared first))))) <=? MAX_FACTS) "study_analysis_fact_limit";
  comp ← comparability runs;
  '(facts, hotspots) ← foldM (run_facts elapsed input) (enumerate runs) ([], []);
  facts ← (if (length runs =? 2)%nat then
             a ← unwrap (runs !! 0%nat);
             b ← unwrap (runs !! 1%nat);
             foldM (comparison_facts (co_status comp) (cf_run_ids (an_config analysis)) a b) (enumerate (nu_method_axes (pi_numeric (vr_prepared a)))) facts
           else Ok facts);
  inputs ← mapR binding_of runs;
  coverage ← mapR run_coverage runs;
  scenario_evidence ← mapR scenario_evidence runs;
  let bundle := mk_facts_bundle FACTS_SCHEMA ANALYSIS_PROFILE ANALYZER (an_study_id analysis) (an_analysis_id analysis) (an_config analysis) (an_config_hash analysis)
                  inputs comp facts coverage scenario_evidence hotspots false false in
  n ← bundle_size bundle;
  _ ← check (n <=? bo_max_artifact_bytes default_bounds) "study_analysis_artifact_limit";
  Ok bundle.

(** ** Checking the bundle *)

Definition json_of_config (c : AnalysisConfig) : Value :=
  JObject [("kind", JString (match cf_kind c with Contribution => "contribution" | Comparison => "comparison" end));
           ("runIds", JArray ((fun i => JString (show_uuid i)) <$> cf_run_ids c)); ("schemaVersion", JString (cf_schema_version c))].
Definition value_coverage_agree (f : Fact) : bool :=
  Bool.eqb (bool_decide (fa_canonical_value f = None)) (bool_decide (fa_coverage f = "unknown"))
  && bool_decide (fa_coverage f ∈ ["complete"; "partial"; "unknown"]).
Definition validate_fact_codec (f : Fact) : result StudyError unit :=
  _ ← check (value_coverage_agree f) "study_analysis_output_value_coverage";
  check (match fa_canonical_value f with
         | Some s => bool_decide ((v ← parse_f64 s; match canonical_number v with Ok t => Some t | _ => None end) = Some s)
         | None => true
         end) "study_analysis_output_number".
Definition validate_fact (run_ids : list Uuid) (f : Fact) : result StudyError unit :=
  _ ← validate_fact_codec f;
  check (value_coverage_agree f && (String.length (fa_label f) <=? 1024)%nat && negb (bool_decide (fa_label f = ""))
         && (String.length (fa_unit f) <=? 128)%nat && negb (bool_decide (fa_unit f = ""))
         && negb (bool_decide (fa_run_ids f = [])) && (length (fa_run_ids f) <=? 2)%nat
         && forallb (fun id => bool_decide (id ∈ run_ids)) (fa_run_ids f)) "study_analysis_output_fact_shape".
Definition validate_binding (br : InputBinding * RunInput) : result StudyError unit :=
  let '(binding, row) := br in
  let run := ru_run row in
  _ ← demand_that
    (and_also (id_is parse_uuid run "runId" (ib_run_id binding))
      (and_also (id_is parse_uuid run "studyRevisionId" (ib_study_revision_id binding))
        (and_also (id_is parse_uuid run "scenarioRevisionId" (ib_scenario_revision_id binding))
          (and_also (Ok (value_eqb (json_of_artifact_ref show_uuid (ib_prepared_artifact_ref binding)) (json_of_artifact_ref show_uuid (pa_artifact_ref (ru_prepared_artifact row)))
                         && value_eqb (json_of_artifact_ref show_uuid (ib_result_ref binding)) (member "resultRef" run)))
            (h ← ok_or (Code "study_analysis_input_hash") (as_str (member "inputHash" run)); Ok (bool_decide (ib_input_hash binding = h)))))))
    "study_analysis_output_run_binding";
  demand_that
    (and_also (id_is parse_uuid run "modelPreparationId" (ib_model_preparation_id binding))
      (Ok (value_eqb (ib_effective_model_ref binding) (member "effectiveModelRef" run)
           && value_eqb (json_of_calculation (ib_calculation_contract_ref binding)) (member "calculationContractRef" run)
           && value_eqb (ib_validity binding) (member "validity" run))))
    "study_analysis_output_identity_binding".
Definition validate_output (output : FactsBundle) (input : ServiceInput) : result StudyError unit :=
  let analysis := sv_analysis input in
  let run_ids := cf_run_ids (an_config analysis) in
  _ ← check (bool_decide (fb_schema_version output = FACTS_SCHEMA) && bool_decide (fb_profile_id output = ANALYSIS_PROFILE) && bool_decide (fb_analyzer_version output = ANALYZER)
             && bool_decide (fb_study_id output = an_study_id analysis) && bool_decide (fb_analysis_id output = an_analysis_id analysis)
             && bool_decide (fb_config_hash output = an_config_hash analysis)
             && value_eqb (json_of_config (fb_config output)) (json_of_config (an_config analysis))
             && (length (fb_inputs output) =? length (sv_runs input))%nat && negb (fb_business_pilot_qualified output)
             && negb (fb_scientific_ranking_qualified output) && negb (co_ranking_allowed (fb_comparability output))
             && negb (bool_decide (fb_facts output = [])) && (Z.of_nat (length (fb_facts output)) <=? MAX_FACTS)) "study_analysis_output_binding";
  _ ← foldM (fun _ => validate_binding) (zip (fb_inputs output) (sv_runs input)) tt;
  _ ← check (bool_decide (size (list_to_set (fa_fact_id <$> fb_facts output) : gset string) = length (fb_facts output))
             && bool_decide (rc_run_id <$> fb_coverage output = run_ids)) "study_analysis_output_fact_identity";
  foldM (fun _ => validate_fact run_ids) (fb_facts output) tt.
End Analysis.

Definition summary (bundle : FactsBundle) : Value :=
  JObject [("reasonCodes", JArray (JString <$> co_reason_codes (fb_comparability bundle))); ("status", JString (co_status (fb_comparability bundle)))].

(** ** Analysis of files *)

Record NativeFiles := mk_native_files { nf_run_id : Uuid; nf_prepared_path : string; nf_result_path : string }.
Record NativeInput := mk_native_input { ni_schema_version : string; ni_input : ServiceInput; ni_files : list NativeFiles }.

Section Native.
Context (parse_uuid : string -> option Uuid) (show_uuid : Uuid -> string) (show_f64 : f64 -> string) (config_bytes : AnalysisConfig -> result StudyError string).
(** Encoders and decoders, and reading a file of bounded length by its absolute path. *)
Context (bundle_bytes : FactsBundle -> result StudyError string) (decode_request : string -> result StudyError NativeInput).
Context (value_bytes : Identified -> result StudyError string) (input_bytes : PreparedInput -> result StudyError string).
Context (decode_input : string -> result StudyError PreparedInput) (decode_result : string -> result StudyError StudyResult).
Context (sha256 : string -> string) (fingerprint : string) (read : string -> Z -> result StudyError string).

Definition bundle_length (b : FactsBundle) : result StudyError Z :=
  data ← bundle_bytes b;
  Ok (Z.of_nat (String.length data)).
Definition verify_files (limits : Bounds) (acc : Z * list VerifiedRun) (fi : NativeFiles * RunInput) : result StudyError (Z * list VerifiedRun) :=
  let '(owned, runs) := acc in
  let '(files, input) := fi in
  _ ← demand_that (id_is parse_uuid (ru_run input) "runId" (nf_run_id files)) "study_analysis_native_run_order";
  prepared ← read (nf_prepared_path files) (bo_max_artifact_bytes limits);
  result ← read (nf_result_path files) (bo_max_artifact_bytes limits);
  let owned := owned + Z.of_nat (String.length prepared) + Z.of_nat (String.length result) in
  _ ← check (owned <=? USIZE_MAX) "study_analysis_memory_limit";
  _ ← check (saturating_mul owned 8 <=? bo_max_owned_bytes limits) "study_analysis_memory_limit";
  run ← verify_run value_bytes input_bytes decode_input decode_result sha256 fingerprint input prepared result limits;
  Ok (owned, runs ++ [run]).
Definition execute_native (elapsed : nat -> nat -> Z) (path : string) (limits : Bounds) : result StudyError string :=
  data ← read path (bo_max_artifact_bytes limits);
  request ← decode_request data;
  _ ← check (bool_decide (ni_schema_version request = "lca.study-analysis-native.v1") && (length (ni_files request) =? length (sv_runs (ni_input request)))%nat)
        "study_analysis_native_schema";
  _ ← validate_input parse_uuid show_uuid config_bytes sha256 (ni_input request);
  '(_, runs) ← foldM (verify_files limits) (zip (ni_files request) (sv_runs (ni_input request))) (0, []);
  bundle ← analyze parse_uuid show_uuid show_f64 config_bytes bundle_length sha256 elapsed (ni_input request) runs;
  _ ← validate_output parse_uuid show_uuid show_f64 bundle (ni_input request);
  bundle_bytes bundle.
End Native.

(** ** Numbers and identities *)

Section Canonical.
Context (show_f64 : f64 -> string).

Lemma canonical_number_codec v s : canonical_number show_f64 v = Ok s -> exists v', parse_f64 s = Some v' /\ canonical_number show_f64 v' = Ok s.
Proof using.
  intros H. pose proof H as H'. unfold canonical_number in H. apply bind_ok in H as ([] & Hf & H). destruct (v =? f64_zero)%f64.
  - injection H as <-. exists f64_zero. split; vm_compute; reflexivity.
  - destruct (match split_once_bytes _ _ with Some _ => _ | None => _ end) as [m e]. apply bind_ok in H as (output & _ & H). apply bind_ok in H as ([] & Hs & H). injection H as ->.
    unfold demand_that, and_also in Hs. cbn [mbind result_bind] in Hs. destruct (String.length s <=? 64)%nat; [|done]. destruct (parse_f64 s) as [v'|]; [|done].
    cbn [ok_or mbind result_bind] in Hs. apply ensure_ok, bool_decide_eq_true in Hs. subst v'. by exists v.
Qed.
Lemma canonical_number_no_panic v : canonical_number show_f64 v <> Panic.
Proof using.
  unfold canonical_number. apply bind_no_panic; [apply ensure_no_panic|intros _ _]. destruct (v =? f64_zero)%f64; [done|]. destruct (match split_once_bytes _ _ with Some _ => _ | None => _ end) as [m e].
  apply bind_no_panic; [destruct e; no_panic|intros output _]. apply bind_no_panic; [|done]. unfold demand_that, and_also, check. cbn [mbind result_bind].
  destruct (String.length output <=? 64)%nat; no_panic.
Qed.
End Canonical.

(** Pieces without the separator are recovered by splitting. *)
Definition no_colon (s : string) : Prop := ":"%char ∉ bytes s.
Lemma split_piece p rest : ":"%char ∉ p -> split_bytes [":"%char] (p ++ ":"%char :: rest) = p :: split_bytes [":"%char] rest.
Proof.
  induction p as [|c p IH]; intros Hp; [done|]. apply not_elem_of_cons in Hp as [Hc Hp]. cbn [app split_bytes existsb]. rewrite (proj2 (Ascii.eqb_neq ":"%char c)) by done.
  cbn [orb]. by rewrite IH.
Qed.
Lemma split_last p : ":"%char ∉ p -> split_bytes [":"%char] p = [p].
Proof.
  induction p as [|c p IH]; intros Hp; [done|]. apply not_elem_of_cons in Hp as [Hc Hp]. cbn [split_bytes existsb]. rewrite (proj2 (Ascii.eqb_neq ":"%char c)) by done. cbn [orb]. by rewrite IH.
Qed.
Lemma pretty_no_colon (n : nat) : no_colon (pretty n).
Proof.
  unfold no_colon. change (pretty n) with (pretty (N.of_nat n)). destruct (pretty_numeral (N.of_nat n)) as [_ H]. rewrite Forall_forall in H.
  intros Hc%H. unfold is_digit in Hc. vm_compute in Hc. destruct Hc as [_ Hc]. by apply Hc.
Qed.
(** The pieces an identity consists of. *)
Definition key_pieces (key : FactKey) : list string :=
  match key with
  | ActivityKey ri i => ["r" +:+ pretty ri; "x"; pretty i]
  | InventoryKey ri i => ["r" +:+ pretty ri; "g"; pretty i]
  | ImpactKey ri mi => ["r" +:+ pretty ri; "h"; pretty mi]
  | ViewKey ri mi vi => ["r" +:+ pretty ri; "v"; pretty mi; pretty vi]
  | TermKey ri mi ii => ["r" +:+ pretty ri; "i"; pretty mi; pretty ii]
  | DeltaKey mi => ["comparison"; "delta"; pretty mi]
  | RelativeKey mi => ["comparison"; "relative"; pretty mi]
  end.
Fixpoint join_pieces (ps : list (list ascii)) : list ascii := match ps with [] => [] | [p] => p | p :: ps => p ++ ":"%char :: join_pieces ps end.
Lemma split_join ps : ps <> [] -> Forall (fun p => ":"%char ∉ p) ps -> split_bytes [":"%char] (join_pieces ps) = ps.
Proof.
  intros Hne HF. induction HF as [|p ps Hp HF IH]; [done|]. destruct ps as [|q ps]; [by apply split_last|].
  change (join_pieces (p :: q :: ps)) with (p ++ ":"%char :: join_pieces (q :: ps)). rewrite split_piece by done. by rewrite IH.
Qed.
Lemma fact_id_join key : bytes (fact_id key) = join_pieces (bytes <$> key_pieces key).
Proof. destruct key; cbn [fact_id key_pieces fmap list_fmap join_pieces]; rewrite !bytes_app; simpl; rewrite <-?app_assoc; done. Qed.
Lemma key_pieces_no_colon key : Forall (fun p => ":"%char ∉ p) (bytes <$> key_pieces key).
Proof.
  assert (Hr : forall n : nat, ":"%char ∉ bytes ("r" +:+ pretty n)).
  { intros n. rewrite bytes_app. intros [Hc|Hc]%elem_of_app; [|by apply (pretty_no_colon n)]. by apply list_elem_of_singleton in Hc. }
  assert (Hb : forall s, forallb (fun c => negb (":" =? c)%char) (bytes s) = true -> ":"%char ∉ bytes s).
  { intros s Hs Hc%list_elem_of_In. rewrite forallb_forall in Hs. by specialize (Hs _ Hc). }
  destruct key; cbn [key_pieces fmap list_fmap]; repeat constructor; first [apply Hr|apply pretty_no_colon|apply Hb; reflexivity].
Qed.
(** No two facts share an identity. *)
#[export] Instance fact_id_inj : Inj (=) (=) fact_id.
Proof.
  intros k k' E. assert (Hp : key_pieces k = key_pieces k').
  { apply (f_equal bytes), (f_equal (split_bytes [":"%char])) in E. rewrite !fact_id_join in E.
    rewrite (split_join (bytes <$> key_pieces k)) in E by (apply key_pieces_no_colon || by destruct k).
    rewrite (split_join (bytes <$> key_pieces k')) in E by (apply key_pieces_no_colon || by destruct k'). revert E. apply list_fmap_eq_inj. exact bytes_inj. }
  destruct k, k'; simplify_eq/=; try done; repeat match goal with H : pretty _ = pretty _ |- _ => apply (inj pretty) in H end; by subst.
Qed.

(** ** The facts of a run *)

Definition accepted {E A} (P : A -> Prop) (r : result E A) : Prop := outcome P (fun _ => True) r.
Lemma accepted_enumerate {E A B} (I : nat -> B -> Prop) (f : B -> nat * A -> result E B) (l : list A) b :
  I O b -> (forall i a c, l !! i = Some a -> I i c -> accepted (I (S i)) (f c (i, a))) -> accepted (I (length l)) (foldM f (enumerate l) b).
Proof.
  intros H0 Hs. assert (HL : length (enumerate l) = length l) by (unfold enumerate; apply length_imap). rewrite <-HL.
  apply (outcome_foldM (fun _ => True) (fun pre => I (length pre))); [done|]. intros pre [i a] post c Hl Hc. destruct (enumerate_middle l pre i a post Hl) as (-> & Ha & _).
  rewrite length_app, Nat.add_1_r. by apply Hs.
Qed.
Lemma accepted_check c message : accepted (fun _ => c = true) (check c message).
Proof. by apply outcome_ensure. Qed.
Lemma accepted_ok_or {E A} (e : E) (o : option A) : accepted (fun a => o = Some a) (ok_or e o).
Proof. by destruct o. Qed.
Lemma accepted_no_panic {E A} (r : result E A) : r <> Panic -> accepted (fun a => r = Ok a) r.
Proof. by destruct r. Qed.
Ltac step H := first [eapply outcome_bind; [apply accepted_check|intros _ _ H] | eapply outcome_bind; [apply accepted_ok_or|intros ? _ H]].

Section Facts.
Context (parse_uuid : string -> option Uuid) (show_uuid : Uuid -> string) (show_f64 : f64 -> string).
Context (config_bytes : AnalysisConfig -> result StudyError string) (bundle_size : FactsBundle -> result StudyError Z) (sha256 : string -> string).

(** What the final check asks of a fact, but for the length of its texts. *)
Record fact_good (allowed : list Uuid) (f : Fact) : Prop := {
  fg_codec : validate_fact_codec show_f64 f = Ok tt;
  fg_agree : value_coverage_agree f = true;
  fg_label : fa_label f <> "";
  fg_runs : fa_run_ids f <> [] /\ (length (fa_run_ids f) <= 2)%nat /\ forall id, id ∈ fa_run_ids f -> id ∈ allowed;
}.
Definition reported (allowed : list Uuid) (keys : list FactKey) (facts : list Fact) : Prop :=
  fa_fact_id <$> facts = fact_id <$> keys /\ Forall (fact_good allowed) facts.
Definition known_coverage (c : string) : Prop := c ∈ ["complete"; "partial"; "unknown"].

Lemma reported_app allowed keys facts keys' facts' : reported allowed keys facts -> reported allowed keys' facts' -> reported allowed (keys ++ keys') (facts ++ facts').
Proof using. intros [Hi HF] [Hi' HF']. split; [by rewrite !fmap_app, Hi, Hi'|by apply Forall_app]. Qed.
Lemma fact_label_nonempty id kind method_ref u subject : fact_label id kind method_ref u subject <> "".
Proof using.
  unfold fact_label. cbn [app]. set (rest := _ ++ _). assert (Hr : run_label id <> "").
  { unfold run_label. destruct (bytes id) as [|c l]; [done|]. repeat (case_match; try done). }
  destruct (run_label id) as [|c s] eqn:E; [done|]. destruct rest; simpl; done.
Qed.
Lemma fact_spec allowed key kind run_ids method_ref value unit_text u coverage scope subject :
  (value = None <-> coverage = "unknown") -> known_coverage coverage ->
  run_ids <> [] -> (length run_ids <= 2)%nat -> (forall id, id ∈ run_ids -> id ∈ allowed) ->
  accepted (fun f => reported allowed [key] [f]) (fact show_f64 key kind run_ids method_ref value unit_text u coverage scope subject).
Proof using.
  intros Hv Hc Hne Hl Ha. unfold fact. eapply (outcome_bind _ (fun s => match value, s with Some v, Some t => canonical_number show_f64 v = Ok t | None, None => True | _, _ => False end)).
  { destruct value as [v|]; [|done]. eapply outcome_bind; [apply accepted_no_panic, canonical_number_no_panic|]. done. }
  intros s _ Hs. assert (Hn : (s = None) <-> coverage = "unknown") by (rewrite <-Hv; destruct value, s; done).
  split; [done|]. apply Forall_singleton. assert (Hagree : value_coverage_agree (mk_fact (fact_id key) kind (fact_label (fact_id key) kind method_ref u subject) run_ids method_ref s unit_text u
    coverage scope (reason_codes kind coverage value) subject) = true).
  { unfold value_coverage_agree. cbn [fa_canonical_value fa_coverage]. rewrite (bool_decide_eq_true_2 (coverage ∈ _)) by done. rewrite andb_true_r. apply Bool.eqb_true_iff. by apply bool_decide_ext. }
  split; [|done|apply fact_label_nonempty|done]. unfold validate_fact_codec. rewrite Hagree. cbn [check ensure mbind result_bind fa_canonical_value].
  destruct s as [t|]; [|done]. destruct value as [v|]; [|done]. destruct (canonical_number_codec _ _ _ Hs) as (v' & Hp & Hcan). rewrite Hp. cbn [mbind option_bind]. rewrite Hcan. by rewrite bool_decide_eq_true_2.
Qed.
(** A fact appended to those reported. *)
Lemma reported_fact allowed keys facts key kind run_ids method_ref value unit_text u coverage scope subject :
  reported allowed keys facts -> (value = None <-> coverage = "unknown") -> known_coverage coverage ->
  run_ids <> [] -> (length run_ids <= 2)%nat -> (forall id, id ∈ run_ids -> id ∈ allowed) ->
  accepted (fun f => reported allowed (keys ++ [key]) (facts ++ [f])) (fact show_f64 key kind run_ids method_ref value unit_text u coverage scope subject).
Proof using.
  intros Hr Hv Hc Hne Hl Ha. eapply outcome_mono; [by apply (fact_spec allowed)|]. intros f _ Hf. by apply reported_app.
Qed.

Section OneRun.
Context (allowed : list Uuid) (ri : nat) (run_id : Uuid) (run : VerifiedRun) (Hid : run_id ∈ allowed) (Hrun : run_verified run).
Local Abbreviation n := (pi_numeric (vr_prepared run)).

Lemma single_run : [run_id] <> [] /\ (length [run_id] <= 2)%nat /\ (forall id, id ∈ [run_id] -> id ∈ allowed).
Proof using Hid. split_and!; [done|simpl; lia|]. by intros id ->%list_elem_of_singleton. Qed.
Lemma keys_snoc {A} (keys : list A) (key : nat -> A) (i : nat) : (keys ++ (key <$> seq 0 i)) ++ [key i] = keys ++ (key <$> seq 0 (S i)).
Proof using. by rewrite seq_S, fmap_app, <-app_assoc. Qed.
Lemma activity_facts_spec keys facts : reported allowed keys facts ->
  accepted (reported allowed (keys ++ (ActivityKey ri <$> seq 0 (length (nu_views n))))) (foldM (activity_fact show_f64 ri run_id run) (enumerate (nu_views n)) facts).
Proof using Hid Hrun.
  intros Hk. destruct single_run as (H1 & H2 & H3). apply (accepted_enumerate (fun i => reported allowed (keys ++ (ActivityKey ri <$> seq 0 i)))); [by rewrite app_nil_r|].
  intros i v fs Hv Hf. destruct (lookup_lt_is_Some_2 (st_x (vr_result run)) i) as [x Hx]; [rewrite (sv_x _ _ (rv_solution _ Hrun)); by apply lookup_lt_Some in Hv|].
  unfold activity_fact. rewrite Hx. cbn [unwrap mbind result_bind]. eapply outcome_bind; [by apply (reported_fact allowed _ _ _ _ _ _ _ _ _ _ _ _ Hf); [done|left|..]|].
  intros f _ HF. rewrite keys_snoc in HF. exact HF.
Qed.
Lemma inventory_facts_spec keys facts : reported allowed keys facts ->
  accepted (reported allowed (keys ++ (InventoryKey ri <$> seq 0 (length (nu_inventory_axes n))))) (foldM (inventory_fact show_f64 ri run_id run) (enumerate (nu_inventory_axes n)) facts).
Proof using Hid Hrun.
  intros Hk. destruct single_run as (H1 & H2 & H3). apply (accepted_enumerate (fun i => reported allowed (keys ++ (InventoryKey ri <$> seq 0 i)))); [by rewrite app_nil_r|].
  intros i v fs Hv Hf. destruct (lookup_lt_is_Some_2 (st_g (vr_result run)) i) as [g Hg]; [rewrite (sv_g _ _ (rv_solution _ Hrun)); by apply lookup_lt_Some in Hv|].
  unfold inventory_fact. rewrite Hg. cbn [unwrap mbind result_bind]. eapply outcome_bind; [by apply (reported_fact allowed _ _ _ _ _ _ _ _ _ _ _ _ Hf); [done|left|..]|].
  intros f _ HF. rewrite keys_snoc in HF. exact HF.
Qed.

(** A method without any factor misses every axis. *)
Definition missing (mr : DatasetRef) (ii : nat) : bool := existsb (fun g => bool_decide (gp_method g = mr) && (gp_inventory_index g =? ii)%nat) (pi_coverage (vr_prepared run)).
Lemma coverage_at_spec mi m : nu_method_axes n !! mi = Some m ->
  exists c, coverage_at run mi = Ok c /\ known_coverage c /\ (c = "unknown" -> forall ii, (ii < length (nu_inventory_axes n))%nat -> missing (mk_ref (ma_id m) (ma_version m)) ii = true).
Proof using Hrun.
  intros Hm. unfold coverage_at, method_of. rewrite Hm. cbn [unwrap mbind result_bind]. set (mr := mk_ref _ _).
  set (gaps := list_to_set _ : gset nat). eexists. split; [done|]. split; [by unfold known_coverage; apply list_elem_of_In; repeat case_match; simpl; auto|].
  intros Hc ii Hii. destruct (size gaps =? 0)%nat; [done|]. destruct (Nat.eqb_spec (size gaps) (length (nu_inventory_axes n))) as [Hs|]; [|done].
  assert (Hsub : gaps ⊆ list_to_set (seq 0 (length (nu_inventory_axes n)))).
  { intros i. unfold gaps. rewrite !elem_of_list_to_set. intros (g & -> & [_ Hg]%list_elem_of_filter)%list_elem_of_fmap. pose proof (rv_gaps _ Hrun) as HF. rewrite Forall_forall in HF.
    apply elem_of_seq. destruct (HF g Hg) as [Hi _]. lia. }
  assert (Hin : ii ∈ gaps).
  { rewrite (set_subseteq_size_eq _ _ Hsub); [apply elem_of_list_to_set, elem_of_seq; lia|]. rewrite Hs, size_list_to_set by apply NoDup_seq. by rewrite length_seq. }
  unfold gaps in Hin. apply elem_of_list_to_set, list_elem_of_fmap in Hin as (g & -> & [Hgm Hg]%list_elem_of_filter). unfold missing. apply existsb_exists. exists g.
  split; [by apply list_elem_of_In|]. rewrite (bool_decide_eq_true_2 (gp_method g = mr)) by done. apply Nat.eqb_refl.
Qed.
Lemma product_no_panic a b : product a b <> Panic.
Proof using. unfold product, check. no_panic. Qed.
Lemma contribution_no_panic mi c x vi : nu_c n !! mi = Some c -> (vi < length (nu_views n))%nat -> contribution (nu_b n) c x vi <> Panic.
Proof using Hrun.
  intros Hc Hv. unfold contribution. apply foldM_no_panic. intros [row cell] sum [i Hin]%list_elem_of_lookup. apply lookup_zip_Some in Hin as [Hrow _]. cbn [fst snd].
  destruct (es_b _ (rv_shapes _ Hrun)) as [_ HF]. rewrite Forall_lookup in HF. destruct (lookup_lt_is_Some_2 row vi) as [b ->]; [by rewrite (HF i row Hrow)|].
  cbn [unwrap mbind result_bind]. apply bind_no_panic; [apply product_no_panic|intros p _]. apply bind_no_panic; [apply product_no_panic|intros q _]. unfold check. no_panic.
Qed.
Lemma known_value {A} (c : string) (a : A) : then_some (negb (bool_decide (c = "unknown"))) a = None <-> c = "unknown".
Proof using. case_bool_decide; simpl; split; done. Qed.
Lemma view_facts_spec mi m mr coverage keys facts : nu_method_axes n !! mi = Some m -> known_coverage coverage -> reported allowed keys facts ->
  accepted (fun acc => reported allowed (keys ++ (ViewKey ri mi <$> seq 0 (length (nu_views n)))) acc.2)
    (foldM (view_fact show_f64 ri run_id run mi m mr coverage (negb (bool_decide (coverage = "unknown")))) (enumerate (nu_views n)) (f64_zero, f64_zero, [], facts)).
Proof using Hid Hrun.
  intros Hm Hc Hk. destruct single_run as (H1 & H2 & H3).
  apply (accepted_enumerate (fun i (acc : f64 * f64 * list (string * f64) * list Fact) => reported allowed (keys ++ (ViewKey ri mi <$> seq 0 i)) acc.2)); [by rewrite app_nil_r|].
  intros i v [[[sum magnitude] ordered] fs] Hv Hf. cbn [snd] in Hf. unfold view_fact. destruct (es_c _ (rv_shapes _ Hrun)) as [HL _].
  assert (Hi := lookup_lt_Some _ _ _ Hv). assert (Hmi := lookup_lt_Some _ _ _ Hm).
  destruct (lookup_lt_is_Some_2 (nu_c n) mi ltac:(lia)) as [c Hrow]. rewrite Hrow. cbn [unwrap mbind result_bind].
  destruct (lookup_lt_is_Some_2 (st_x (vr_result run)) i) as [x ->]; [by rewrite (sv_x _ _ (rv_solution _ Hrun))|]. cbn [unwrap mbind result_bind].
  eapply outcome_bind; [by apply accepted_no_panic, (contribution_no_panic mi)|]. intros value _ _.
  eapply outcome_bind; [by apply (reported_fact allowed _ _ _ _ _ _ _ _ _ _ _ _ Hf); [apply known_value|..]|]. intros f _ HF. rewrite keys_snoc in HF. exact HF.
Qed.
Lemma term_facts_spec mi m coverage keys facts : nu_method_axes n !! mi = Some m -> known_coverage coverage ->
  (coverage = "unknown" -> forall ii, (ii < length (nu_inventory_axes n))%nat -> missing (mk_ref (ma_id m) (ma_version m)) ii = true) -> reported allowed keys facts ->
  accepted (reported allowed (keys ++ (TermKey ri mi <$> seq 0 (length (nu_inventory_axes n)))))
    (foldM (term_fact show_f64 ri run_id run mi m (mk_ref (ma_id m) (ma_version m)) coverage) (enumerate (nu_inventory_axes n)) facts).
Proof using Hid Hrun.
  intros Hm Hc Hall Hk. destruct single_run as (H1 & H2 & H3). apply (accepted_enumerate (fun i => reported allowed (keys ++ (TermKey ri mi <$> seq 0 i)))); [by rewrite app_nil_r|].
  intros i v fs Hv Hf. unfold term_fact. fold (missing (mk_ref (ma_id m) (ma_version m)) i). assert (Hi := lookup_lt_Some _ _ _ Hv). assert (Hmi := lookup_lt_Some _ _ _ Hm).
  destruct (missing (mk_ref (ma_id m) (ma_version m)) i) eqn:Em.
  - cbn [mbind result_bind]. eapply outcome_bind; [by apply (reported_fact allowed _ _ _ _ _ _ _ _ _ _ _ _ Hf); [done|right; right; left|..]|].
    intros f _ HF. rewrite keys_snoc in HF. exact HF.
  - destruct (es_c _ (rv_shapes _ Hrun)) as [HL HF]. destruct (lookup_lt_is_Some_2 (nu_c n) mi ltac:(lia)) as [row Hrow]. rewrite Hrow. cbn [unwrap mbind result_bind].
    rewrite Forall_lookup in HF. destruct (lookup_lt_is_Some_2 row i) as [c ->]; [by rewrite (HF mi row Hrow)|]. cbn [unwrap mbind result_bind].
    destruct (lookup_lt_is_Some_2 (st_g (vr_result run)) i) as [g ->]; [by rewrite (sv_g _ _ (rv_solution _ Hrun))|]. cbn [unwrap mbind result_bind].
    destruct (product c g) as [p| |] eqn:Ep; cbn [mbind result_bind]; [|done|by apply product_no_panic in Ep].
    eapply outcome_bind; [apply (reported_fact allowed _ _ _ _ _ _ _ _ _ _ _ _ Hf); try done|].
    + split; [done|]. intros Hu. rewrite (Hall Hu i Hi) in Em. done.
    + intros f _ HF'. rewrite keys_snoc in HF'. exact HF'.
Qed.
Definition method_keys (mi : nat) : list FactKey :=
  [ImpactKey ri mi] ++ (ViewKey ri mi <$> seq 0 (length (nu_views n))) ++ (TermKey ri mi <$> seq 0 (length (nu_inventory_axes n))).
Definition run_keys : list FactKey :=
  (ActivityKey ri <$> seq 0 (length (nu_views n))) ++ (InventoryKey ri <$> seq 0 (length (nu_inventory_axes n)))
  ++ (seq 0 (length (nu_method_axes n)) ≫= method_keys).
Lemma method_facts_spec elapsed mi m keys acc : nu_method_axes n !! mi = Some m -> reported allowed keys acc.1 ->
  accepted (fun acc' => reported allowed (keys ++ method_keys mi) acc'.1) (method_facts show_f64 elapsed ri run_id run acc (mi, m)).
Proof using Hid Hrun.
  intros Hm Hk. destruct single_run as (H1 & H2 & H3). destruct acc as [facts hotspots]. cbn [fst] in Hk. unfold method_facts.
  eapply outcome_bind; [apply accepted_check|intros _ _ _]. unfold method_of at 1. rewrite Hm. cbn [unwrap mbind result_bind].
  destruct (coverage_at_spec mi m Hm) as (c & Hc & Hkc & Hall). rewrite Hc. cbn [mbind result_bind].
  destruct (lookup_lt_is_Some_2 (st_h (vr_result run)) mi) as [h ->]; [rewrite (sv_h _ _ (rv_solution _ Hrun)); by apply lookup_lt_Some in Hm|]. cbn [unwrap mbind result_bind].
  eapply outcome_bind; [by apply (reported_fact allowed _ _ _ _ _ _ _ _ _ _ _ _ Hk); [apply known_value|..]|]. intros f _ HF.
  eapply outcome_bind; [exact (view_facts_spec mi m _ c _ _ Hm Hkc HF)|]. intros [[[sum magnitude] ordered] fs] _ HV. cbn [snd] in HV.
  eapply outcome_bind; [apply accepted_check|intros _ _ _].
  eapply outcome_bind; [exact (term_facts_spec mi m c _ _ Hm Hkc Hall HV)|]. intros fs' _ HT. unfold method_keys. by rewrite !app_assoc.
Qed.
Lemma run_facts_spec elapsed input keys acc row : sv_runs input !! ri = Some row -> cf_run_ids (an_config (sv_analysis input)) !! ri = Some run_id -> reported allowed keys acc.1 ->
  accepted (fun acc' => reported allowed (keys ++ run_keys) acc'.1 /\ value_eqb (json_of_run show_uuid (vr_input run)) (json_of_run show_uuid row) = true
      /\ id_at parse_uuid (ru_run (vr_input run)) "runId" = Ok run_id) (run_facts parse_uuid show_uuid show_f64 elapsed input acc (ri, run)).
Proof using Hid Hrun.
  intros Hrow Hri Hk. destruct acc as [facts hotspots]. cbn [fst] in Hk. unfold run_facts. rewrite Hrow, Hri. cbn [unwrap mbind result_bind].
  eapply outcome_bind; [apply accepted_check|intros u _ Hs]. destruct (id_at parse_uuid (ru_run (vr_input run)) "runId") as [id| |] eqn:Ei; [|done|by apply ok_or_no_panic in Ei].
  cbn [mbind result_bind]. eapply outcome_bind; [apply accepted_check|intros u' _ Hi%bool_decide_eq_true]. subst id.
  eapply outcome_bind; [by apply activity_facts_spec|]. intros fs _ HA. eapply outcome_bind; [by apply inventory_facts_spec|]. intros fs' _ HI.
  eapply (outcome_mono _ (fun acc => reported allowed (keys ++ run_keys) acc.1)); [|done]. unfold run_keys. rewrite !app_assoc.
  apply (accepted_enumerate (fun i (acc : list Fact * list Hotspots) => reported allowed
    (((keys ++ (ActivityKey ri <$> seq 0 (length (nu_views n)))) ++ (InventoryKey ri <$> seq 0 (length (nu_inventory_axes n)))) ++ (seq 0 i ≫= method_keys)) acc.1)); [by rewrite app_nil_r|].
  intros i m acc Hm Hacc. rewrite seq_S, bind_app. cbn [mbind list_bind app]. rewrite app_nil_r, app_assoc. by apply method_facts_spec.
Qed.
End OneRun.

Lemma apply_rules_met rules unmet suffix acc : (apply_rules rules unmet suffix acc).2 = [] -> acc.2 = [] /\ Forall (fun rule => rule.2 = true) rules.
Proof using.
  unfold apply_rules. revert acc. induction rules as [|[name []] rules IH]; intros acc; cbn [foldl]; [done|..]; intros [Hacc HF]%IH; cbn [snd fst] in Hacc.
  - split; [done|by constructor].
  - by destruct acc.2.
Qed.
Lemma comparability_spec runs : Forall run_verified runs -> (length runs = 1 \/ length runs = 2)%nat ->
  exists comp, comparability runs = Ok comp /\ co_ranking_allowed comp = false
    /\ forall a b, runs = [a; b] -> co_status comp <> "not_comparable" -> nu_method_axes (pi_numeric (vr_prepared a)) = nu_method_axes (pi_numeric (vr_prepared b)).
Proof using.
  intros HF HL. destruct runs as [|ra [|rb [|]]]; [simpl in HL; lia|eexists; split_and!; [done..|]; by intros ??| |simpl in HL; lia]. unfold comparability. cbn [length Nat.eqb lookup list_lookup unwrap mbind result_bind].
  rewrite !Forall_cons in HF. destruct HF as (Ha & Hb & _). destruct (rv_binding _ Ha) as (ba & -> & _). destruct (rv_binding _ Hb) as (bb & -> & _). cbn [unwrap mbind result_bind].
  match goal with |- context [apply_rules ?rules "failed" _ _] => pose proof (apply_rules_met rules "failed" "_mismatch" ([], [])) as Hmet; destruct (apply_rules rules "failed" "_mismatch" ([], [])) as [checks reasons] end.
  destruct (bool_decide_reflect (reasons = [])) as [Hr|Hr]; cbn [negb]; [|eexists; split; [reflexivity|]; split; [reflexivity|]; intros a b _ Hne; by destruct Hne].
  destruct (apply_rules _ "unknown" _ _) as [checks' reasons']. eexists. split; [reflexivity|]. split; [reflexivity|]. intros a b [= <- <-] _.
  destruct (Hmet Hr) as [_ HF]. rewrite !Forall_cons in HF. by destruct HF as (_ & _ & H%bool_decide_eq_true & _).
Qed.

Section Compared.
Context (run_ids : list Uuid) (a b : VerifiedRun) (status : string) (Ha : run_verified a) (Hb : run_verified b) (Hids : length run_ids = 2%nat).
Context (Haxes : status <> "not_comparable" -> nu_method_axes (pi_numeric (vr_prepared a)) = nu_method_axes (pi_numeric (vr_prepared b))).
Local Abbreviation axes := (nu_method_axes (pi_numeric (vr_prepared a))).

(** Both runs have the method and the impact when the comparison uses them. *)
Lemma usable_spec mi m : axes !! mi = Some m ->
  exists usable, usable_method status a b mi = Ok usable
    /\ (usable = true -> exists ha hb ca cb, st_h (vr_result a) !! mi = Some ha /\ st_h (vr_result b) !! mi = Some hb /\ coverage_at a mi = Ok ca /\ coverage_at b mi = Ok cb).
Proof using Ha Hb Haxes.
  intros Hm. unfold usable_method, and_also. cbn [mbind result_bind]. case_bool_decide as Hs; cbn [negb]; [by exists false|]. specialize (Haxes Hs).
  destruct (coverage_at_spec a Ha mi m Hm) as (ca & Hca & _ & _). assert (Hm' := Hm). rewrite Haxes in Hm'. destruct (coverage_at_spec b Hb mi m Hm') as (cb & Hcb & _ & _).
  rewrite Hca. cbn [mbind result_bind]. destruct (lookup_lt_is_Some_2 (st_h (vr_result a)) mi) as [ha Hha]; [rewrite (sv_h _ _ (rv_solution _ Ha)); by apply lookup_lt_Some in Hm|].
  destruct (lookup_lt_is_Some_2 (st_h (vr_result b)) mi) as [hb Hhb]; [rewrite (sv_h _ _ (rv_solution _ Hb)); by apply lookup_lt_Some in Hm'|].
  destruct (negb (bool_decide (ca = "unknown"))); [|by exists false]. rewrite Hcb. cbn [mbind result_bind]. eexists. split; [done|]. intros _. by exists ha, hb, ca, cb.
Qed.
Lemma comparison_facts_spec mi m keys facts : axes !! mi = Some m -> reported run_ids keys facts ->
  accepted (reported run_ids (keys ++ [DeltaKey mi; RelativeKey mi])) (comparison_facts show_f64 status run_ids a b facts (mi, m)).
Proof using Ha Hb Hids Haxes.
  intros Hm Hk. assert (Hr : run_ids <> [] /\ (length run_ids <= 2)%nat /\ forall id, id ∈ run_ids -> id ∈ run_ids) by (split_and!; [by intros ->|lia|done]). destruct Hr as (H1 & H2 & H3).
  assert (Hunknown : known_coverage "unknown") by (apply list_elem_of_In; simpl; auto).
  unfold comparison_facts, method_of. rewrite Hm. cbn [unwrap mbind result_bind]. destruct (usable_spec mi m Hm) as (usable & -> & Hu). cbn [mbind result_bind].
  replace (keys ++ [DeltaKey mi; RelativeKey mi]) with ((keys ++ [DeltaKey mi]) ++ [RelativeKey mi]) by by rewrite <-app_assoc. destruct usable; cbn [negb].
  - destruct (Hu eq_refl) as (ha & hb & ca & cb & Hha & Hhb & Hca & Hcb). unfold and_also. rewrite Hca, Hha, Hhb. cbn [unwrap mbind result_bind].
    assert (Hc : exists c, (complete ← (if bool_decide (ca = "complete") then c ← coverage_at b mi; Ok (bool_decide (c = "complete")) else Ok false);
      Ok (if complete : bool then "complete" else "partial")) = Ok (E:=StudyError) c /\ known_coverage c /\ c <> "unknown").
    { rewrite Hcb. cbn [mbind result_bind]. repeat case_bool_decide; eexists; (split; [done|]); (split; [by apply list_elem_of_In; simpl; auto|done]). }
    destruct Hc as (c & -> & Hc & Hcu). cbn [mbind result_bind]. eapply outcome_bind; [by apply (reported_fact run_ids _ _ _ _ _ _ _ _ _ _ _ _ Hk)|]. intros f _ HF.
    destruct (negb (ha =? f64_zero)%f64); cbn [mbind result_bind].
    + eapply outcome_bind; [by apply (reported_fact run_ids _ _ _ _ _ _ _ _ _ _ _ _ HF)|]. intros f' _ HF'. cbn beta in HF'. rewrite <-(app_assoc facts) in HF'. exact HF'.
    + eapply outcome_bind; [by apply (reported_fact run_ids _ _ _ _ _ _ _ _ _ _ _ _ HF)|]. intros f' _ HF'. cbn beta in HF'. rewrite <-(app_assoc facts) in HF'. exact HF'.
  - cbn [mbind result_bind].
    eapply outcome_bind; [by apply (reported_fact run_ids _ _ _ _ _ _ _ _ _ _ _ _ Hk)|]. intros f _ HF.
    cbn [mbind result_bind]. eapply outcome_bind; [by apply (reported_fact run_ids _ _ _ _ _ _ _ _ _ _ _ _ HF)|]. intros f' _ HF'. cbn beta in HF'. rewrite <-(app_assoc facts) in HF'. exact HF'.
Qed.
End Compared.
End Facts.

(** ** The keys of a bundle *)

Definition key_run (key : FactKey) : option nat :=
  match key with ActivityKey ri _ | InventoryKey ri _ | ImpactKey ri _ | ViewKey ri _ _ | TermKey ri _ _ => Some ri | _ => None end.
Definition key_method (key : FactKey) : option nat :=
  match key with ImpactKey _ mi | ViewKey _ mi _ | TermKey _ mi _ | DeltaKey mi | RelativeKey mi => Some mi | _ => None end.
Definition runs_keys (runs : list (nat * VerifiedRun)) : list FactKey := runs ≫= fun ir => run_keys ir.1 ir.2.
Definition comparison_keys (run : VerifiedRun) : list FactKey :=
  seq 0 (length (nu_method_axes (pi_numeric (vr_prepared run)))) ≫= fun mi => [DeltaKey mi; RelativeKey mi].
Definition bundle_keys (runs : list VerifiedRun) : list FactKey :=
  runs_keys (enumerate runs) ++ match runs with [a; _] => comparison_keys a | _ => [] end.

Lemma method_keys_elem ri run mi key : key ∈ method_keys ri run mi -> key_run key = Some ri /\ key_method key = Some mi.
Proof.
  unfold method_keys. rewrite !elem_of_app, list_elem_of_singleton. intros [->|[(i & -> & _)%list_elem_of_fmap|(i & -> & _)%list_elem_of_fmap]]; done.
Qed.
Lemma method_keys_NoDup ri run mi : NoDup (method_keys ri run mi).
Proof.
  unfold method_keys. apply NoDup_app. split_and!; [apply NoDup_singleton| |].
  - intros k ->%list_elem_of_singleton. by intros [(i & H & _)%list_elem_of_fmap|(i & H & _)%list_elem_of_fmap]%elem_of_app.
  - apply NoDup_app. split_and!; [apply NoDup_fmap; [by intros ?? [=]|apply NoDup_seq]| |apply NoDup_fmap; [by intros ?? [=]|apply NoDup_seq]].
    intros k (i & -> & _)%list_elem_of_fmap. by intros (j & H & _)%list_elem_of_fmap.
Qed.
Lemma run_keys_elem ri run key : key ∈ run_keys ri run -> key_run key = Some ri.
Proof.
  unfold run_keys. rewrite !elem_of_app, list_elem_of_bind. intros [(i & -> & _)%list_elem_of_fmap|[(i & -> & _)%list_elem_of_fmap|(mi & H & _)]]; [done..|by apply method_keys_elem in H as [H _]].
Qed.
Lemma run_keys_NoDup ri run : NoDup (run_keys ri run).
Proof.
  unfold run_keys. apply NoDup_app. split_and!; [apply NoDup_fmap; [by intros ?? [=]|apply NoDup_seq]| |apply NoDup_app; split_and!].
  - intros k (i & -> & _)%list_elem_of_fmap. intros [(j & H & _)%list_elem_of_fmap|(mi & H & _)%list_elem_of_bind]%elem_of_app; [done|]. apply method_keys_elem in H as [_ H]. discriminate H.
  - apply NoDup_fmap; [by intros ?? [=]|apply NoDup_seq].
  - intros k (i & -> & _)%list_elem_of_fmap. intros (mi & H & _)%list_elem_of_bind. apply method_keys_elem in H as [_ H]. discriminate H.
  - apply NoDup_bind; [|intros; apply method_keys_NoDup|apply NoDup_seq]. intros m m' k _ _ [_ H]%method_keys_elem [_ H']%method_keys_elem. congruence.
Qed.
Lemma enumerate_NoDup {A} (l : list A) : NoDup (enumerate l).
Proof.
  apply NoDup_alt. intros i j [k a]. unfold enumerate. rewrite !list_lookup_imap. intros (x & _ & [= -> ->])%fmap_Some (y & _ & [= -> _])%fmap_Some. done.
Qed.
(** No two facts of a bundle share a key. *)
Lemma bundle_keys_NoDup runs : NoDup (bundle_keys runs).
Proof.
  unfold bundle_keys. apply NoDup_app. split_and!.
  - apply NoDup_bind; [|intros; apply run_keys_NoDup|apply enumerate_NoDup]. intros [i r] [j r'] k Hi Hj H%run_keys_elem H'%run_keys_elem. cbn [fst snd] in H, H'.
    assert (j = i) as -> by congruence. apply elem_of_enumerate in Hi, Hj. congruence.
  - intros k ([i r] & H%run_keys_elem & _)%list_elem_of_bind Hk. cbn [fst] in H. destruct runs as [|a [|b [|]]]; try by apply elem_of_nil in Hk.
    apply list_elem_of_bind in Hk as (mi & [-> |[-> |[]%elem_of_nil]%elem_of_cons]%elem_of_cons & _); done.
  - destruct runs as [|a [|b [|]]]; try constructor. apply NoDup_bind; [| |apply NoDup_seq].
    + intros m m' k _ _ H H'. assert (key_method k = Some m /\ key_method k = Some m') as [? ?]; [|congruence].
      split; [apply elem_of_cons in H as [-> |[-> |[]%elem_of_nil]%elem_of_cons]|apply elem_of_cons in H' as [-> |[-> |[]%elem_of_nil]%elem_of_cons]]; done.
    + intros m _. apply NoDup_cons. split; [|apply NoDup_singleton]. by intros ?%list_elem_of_singleton.
Qed.
Lemma run_keys_length ri run : run_verified run -> Z.of_nat (length (run_keys ri run)) = fact_count run.
Proof.
  intros Hrun. unfold run_keys, fact_count. rewrite !length_app, !length_fmap, !length_seq. set (n := pi_numeric (vr_prepared run)).
  assert (HL : forall l, Z.of_nat (length (l ≫= method_keys ri run)) = Z.of_nat (length l) * (1 + Z.of_nat (length (nu_views n)) + Z.of_nat (length (nu_inventory_axes n)))).
  { induction l as [|m l IH]; [done|]. rewrite bind_cons, length_app. unfold method_keys at 1. rewrite !length_app, !length_fmap, !length_seq. fold n. cbn [length]. lia. }
  rewrite !Nat2Z.inj_add, HL, length_seq. unfold saturating_mul. rewrite Z.min_l; [lia|]. pose proof (es_cells _ (rv_shapes _ Hrun)) as Hc. pose proof (es_positive _ (rv_shapes _ Hrun)) as Hp.
  fold n in Hc, Hp. unfold USIZE_MAX, U64_MAX. nia.
Qed.

(** ** The whole analysis *)

Section Whole.
Context (parse_uuid : string -> option Uuid) (show_uuid : Uuid -> string) (show_f64 : f64 -> string).
Context (config_bytes : AnalysisConfig -> result StudyError string) (bundle_size : FactsBundle -> result StudyError Z) (sha256 : string -> string).
Context (Hconfig : forall c, config_bytes c <> Panic) (Hsize : forall b, bundle_size b <> Panic).
Local Abbreviation valid := (validate_input parse_uuid show_uuid config_bytes sha256).
Local Abbreviation ids input := (cf_run_ids (an_config (sv_analysis input))).

Lemma id_at_no_panic v k : id_at parse_uuid v k <> Panic.
Proof using. apply ok_or_no_panic. Qed.
Lemma and_also_no_panic a b : a <> Panic -> b <> Panic -> and_also a b <> Panic.
Proof using. intros Ha Hb. unfold and_also. apply bind_no_panic; [done|]. intros [] _; [done|discriminate]. Qed.
Lemma demand_that_no_panic c message : c <> Panic -> demand_that c message <> Panic.
Proof using. intros Hc. unfold demand_that. apply bind_no_panic; [done|]. intros; apply ensure_no_panic. Qed.
Lemma ids_equal_no_panic a k b k' : ids_equal parse_uuid a k b k' <> Panic.
Proof using. unfold ids_equal. apply bind_no_panic; [apply id_at_no_panic|intros i _]. apply bind_no_panic; [apply id_at_no_panic|discriminate]. Qed.
Lemma id_is_no_panic a k i : id_is parse_uuid a k i <> Panic.
Proof using. unfold id_is. apply bind_no_panic; [apply id_at_no_panic|discriminate]. Qed.
Lemma check_row_no_panic study_id re : check_row parse_uuid show_uuid study_id re <> Panic.
Proof using.
  destruct re as [row expected]. unfold check_row. apply bind_no_panic; [apply demand_that_no_panic, and_also_no_panic; apply id_is_no_panic|intros _ _].
  apply bind_no_panic; [apply foldM_each_no_panic; intros; apply demand_that_no_panic, id_is_no_panic|intros _ _]. do 3 (apply bind_no_panic; [apply ensure_no_panic|intros _ _]).
  apply bind_no_panic; [unfold check_documents, same, check; no_panic|intros _ _]. unfold check_domain. apply bind_no_panic; [|intros _ _].
  - apply demand_that_no_panic. repeat (apply and_also_no_panic; [apply ids_equal_no_panic|]). apply ids_equal_no_panic.
  - apply demand_that_no_panic, and_also_no_panic; [discriminate|]. apply and_also_no_panic; [apply ids_equal_no_panic|discriminate].
Qed.
Lemma validate_input_no_panic input : valid input <> Panic.
Proof using Hconfig.
  unfold validate_input. apply bind_no_panic; [|intros _ _; apply foldM_each_no_panic; intros; apply check_row_no_panic].
  apply demand_that_no_panic, and_also_no_panic; [discriminate|]. apply and_also_no_panic; [|discriminate]. apply bind_no_panic; [|discriminate]. unfold config_hash.
  apply bind_no_panic; [unfold validate_config, check; no_panic|intros _ _]. apply bind_no_panic; [apply Hconfig|discriminate].
Qed.
(** A valid request has one run or two, and each names its result. *)
Lemma validate_input_spec input : valid input = Ok tt ->
  (length (ids input) = 1 \/ length (ids input) = 2)%nat /\ length (sv_runs input) = length (ids input)
  /\ Forall (fun row => value_eqb (member "resultRef" (ru_run row)) (json_of_artifact_ref show_uuid (pa_artifact_ref (ru_result_artifact row))) = true) (sv_runs input).
Proof using.
  unfold validate_input. intros ([] & Hb & H)%bind_ok. unfold demand_that in Hb. apply bind_ok in Hb as (ok & Hb & Hok). apply ensure_ok in Hok. subst ok.
  unfold and_also in Hb. cbn [mbind result_bind] in Hb. destruct (_ && _ && _); [|done]. apply bind_ok in Hb as (ok & Hb & Hb'). destruct ok; [|done]. injection Hb' as Hb'. apply Nat.eqb_eq in Hb'.
  apply bind_ok in Hb as (h & Hb & _). unfold config_hash in Hb. apply bind_ok in Hb as ([] & Hb & _). unfold validate_config in Hb. apply bind_ok in Hb as ([] & Hb & _).
  apply ensure_ok in Hb. rewrite andb_true_iff, Nat.eqb_eq in Hb. destruct Hb as [_ Hl]. split_and!; [destruct (cf_kind _); auto|done|].
  apply foldM_each in H. rewrite Forall_lookup in H. apply Forall_lookup. intros i row Hrow. destruct (lookup_lt_is_Some_2 (ids input) i) as [e He]; [rewrite <-Hb'; by apply lookup_lt_Some in Hrow|].
  specialize (H i (row, e) ltac:(by rewrite lookup_zip_with, Hrow, He)). unfold check_row in H. apply bind_ok in H as ([] & _ & H). apply bind_ok in H as ([] & _ & H).
  do 3 apply bind_ok in H as ([] & _ & H). apply bind_ok in H as ([] & H & _). unfold check_documents in H. apply bind_ok in H as ([] & H & _). by apply ensure_ok in H.
Qed.

(** The run is the one the request states at its position. *)
Definition linked (input : ServiceInput) (ir : nat * VerifiedRun) : Prop :=
  exists row id, sv_runs input !! ir.1 = Some row /\ ids input !! ir.1 = Some id
    /\ value_eqb (json_of_run show_uuid (vr_input ir.2)) (json_of_run show_uuid row) = true /\ id_at parse_uuid (ru_run (vr_input ir.2)) "runId" = Ok id.
Record analysed (input : ServiceInput) (runs : list VerifiedRun) (bundle : FactsBundle) : Prop := {
  az_valid : valid input = Ok tt;
  az_length : length runs = length (sv_runs input);
  az_linked : Forall (linked input) (enumerate runs);
  az_header : fb_schema_version bundle = FACTS_SCHEMA /\ fb_profile_id bundle = ANALYSIS_PROFILE /\ fb_analyzer_version bundle = ANALYZER
    /\ fb_study_id bundle = an_study_id (sv_analysis input) /\ fb_analysis_id bundle = an_analysis_id (sv_analysis input)
    /\ fb_config bundle = an_config (sv_analysis input) /\ fb_config_hash bundle = an_config_hash (sv_analysis input)
    /\ fb_business_pilot_qualified bundle = false /\ fb_scientific_ranking_qualified bundle = false /\ co_ranking_allowed (fb_comparability bundle) = false;
  az_facts : reported show_f64 (ids input) (bundle_keys runs) (fb_facts bundle);
  az_limit : Z.of_nat (length (bundle_keys runs)) <= MAX_FACTS;
  az_inputs : Forall2 (fun run b => binding_of parse_uuid run = Ok b) runs (fb_inputs bundle);
  az_coverage : Forall2 (fun run c => run_coverage parse_uuid run = Ok c) runs (fb_coverage bundle);
}.
Lemma runs_keys_length (runs : list VerifiedRun) total : Forall run_verified runs ->
  foldM (fun total r => _ ← check (total + fact_count r <=? USIZE_MAX) "study_analysis_fact_limit"; Ok (total + fact_count r)) runs 0 = Ok total ->
  total = Z.of_nat (length (runs_keys (enumerate runs))).
Proof using.
  intros HF H. enough (HG : forall rs t k, Forall run_verified rs -> foldM (fun total r => _ ← check (total + fact_count r <=? USIZE_MAX) "study_analysis_fact_limit"; Ok (total + fact_count r)) rs t = Ok total ->
    total = t + Z.of_nat (length (imap (fun i r => ((k + i)%nat, r)) rs ≫= fun ir => run_keys ir.1 ir.2))) by (specialize (HG runs 0 O HF H); exact HG).
  clear HF H. induction rs as [|r rs IH]; intros t k HF H; cbn [foldM] in H; [injection H as <-; simpl; lia|]. apply bind_ok in H as (t' & Ht & H). apply bind_ok in Ht as ([] & _ & [= <-]).
  apply Forall_cons in HF as [Hr HF]. rewrite (IH _ (S k) HF H). rewrite imap_cons, bind_cons, length_app, Nat2Z.inj_add. cbn [fst snd]. rewrite (run_keys_length _ r Hr).
  replace (imap ((fun i r => ((k + i)%nat, r)) ∘ S) rs) with (imap (fun i r => ((S k + i)%nat, r)) rs) by (apply imap_ext; intros; unfold compose; f_equal; lia). lia.
Qed.

Lemma all_run_facts_spec elapsed input runs : valid input = Ok tt -> Forall run_verified runs -> length runs = length (sv_runs input) ->
  accepted (fun acc => reported show_f64 (ids input) (runs_keys (enumerate runs)) acc.1 /\ Forall (linked input) (enumerate runs))
    (foldM (run_facts parse_uuid show_uuid show_f64 elapsed input) (enumerate runs) ([], [])).
Proof using.
  intros Hv HF HL. destruct (validate_input_spec input Hv) as (_ & Hlen & _).
  apply (outcome_foldM (fun _ => True) (fun pre (acc : list Fact * list Hotspots) => reported show_f64 (ids input) (runs_keys pre) acc.1 /\ Forall (linked input) pre)); [by repeat split|].
  intros pre [ri run] post acc E [Hk Hl]. assert (Hrun : runs !! ri = Some run) by (apply elem_of_enumerate; rewrite E; apply elem_of_app; right; apply list_elem_of_here).
  assert (Hri := lookup_lt_Some _ _ _ Hrun). destruct (lookup_lt_is_Some_2 (sv_runs input) ri ltac:(lia)) as [row Hrow]. destruct (lookup_lt_is_Some_2 (ids input) ri ltac:(lia)) as [id Hid].
  rewrite Forall_lookup in HF. eapply outcome_mono; [exact (run_facts_spec parse_uuid show_uuid show_f64 (ids input) ri id run (list_elem_of_lookup_2 _ _ _ Hid) (HF _ _ Hrun) elapsed input _ acc row Hrow Hid Hk)|].
  intros acc' _ (Hk' & Hs & Hi). split.
  - unfold runs_keys in Hk' |- *. rewrite bind_app. cbn [mbind list_bind app fst snd]. by rewrite app_nil_r.
  - apply Forall_app. split; [done|]. apply Forall_singleton. by exists row, id.
Qed.
Lemma comparison_spec input comp runs facts : Forall run_verified runs -> length runs = length (ids input) ->
  (forall a b, runs = [a; b] -> co_status comp <> "not_comparable" -> nu_method_axes (pi_numeric (vr_prepared a)) = nu_method_axes (pi_numeric (vr_prepared b))) ->
  reported show_f64 (ids input) (runs_keys (enumerate runs)) facts ->
  accepted (reported show_f64 (ids input) (bundle_keys runs))
    (if (length runs =? 2)%nat then
       a ← unwrap (runs !! 0%nat);
       b ← unwrap (runs !! 1%nat);
       foldM (comparison_facts show_f64 (co_status comp) (ids input) a b) (enumerate (nu_method_axes (pi_numeric (vr_prepared a)))) facts
     else Ok facts).
Proof using.
  intros HF HL Hc Hk. unfold bundle_keys. destruct runs as [|a [|b [|]]]; cbn [length Nat.eqb]; [by rewrite app_nil_r in *..| |by rewrite app_nil_r].
  cbn [lookup list_lookup unwrap mbind result_bind]. rewrite !Forall_cons in HF. destruct HF as (Ha & Hb & _).
  apply (accepted_enumerate (fun i => reported show_f64 (ids input) (runs_keys (enumerate [a; b]) ++ (seq 0 i ≫= fun mi => [DeltaKey mi; RelativeKey mi])))); [by rewrite app_nil_r|].
  intros i m fs Hm Hf. rewrite seq_S, bind_app. cbn [mbind list_bind app]. rewrite app_assoc. apply comparison_facts_spec; try done. by apply Hc.
Qed.
Lemma bundle_limit runs first estimate : Forall run_verified runs -> runs !! 0%nat = Some first -> estimate = Z.of_nat (length (runs_keys (enumerate runs))) ->
  saturating_add estimate (2 * Z.of_nat (length (nu_method_axes (pi_numeric (vr_prepared first))))) <= MAX_FACTS -> Z.of_nat (length (bundle_keys runs)) <= MAX_FACTS.
Proof using.
  intros HF Hf -> Hb. unfold bundle_keys. rewrite length_app, Nat2Z.inj_add. unfold saturating_add, MAX_FACTS, USIZE_MAX, U64_MAX in *.
  destruct runs as [|a [|b [|]]]; cbn [length]; try lia. cbn [lookup list_lookup] in Hf. injection Hf as <-. unfold comparison_keys.
  assert (HL : forall l, Z.of_nat (length (l ≫= fun mi : nat => [DeltaKey mi; RelativeKey mi])) = 2 * Z.of_nat (length l)) by (induction l as [|x l IH]; [done|]; rewrite bind_cons, length_app; simpl length; lia).
  rewrite HL, length_seq. lia.
Qed.
Lemma analyze_spec elapsed input runs : Forall run_verified runs ->
  accepted (analysed input runs) (analyze parse_uuid show_uuid show_f64 config_bytes bundle_size sha256 elapsed input runs).
Proof using Hconfig Hsize.
  intros HF. unfold analyze. eapply outcome_bind; [apply accepted_no_panic, validate_input_no_panic|]. intros [] _ Hv. destruct (validate_input_spec input Hv) as (Hids & Hlen & _).
  eapply outcome_bind; [apply accepted_check|]. intros u _ HL%Nat.eqb_eq.
  eapply outcome_bind; [apply accepted_no_panic, foldM_no_panic; intros; apply bind_no_panic; [apply ensure_no_panic|discriminate]|]. intros estimate _ Hest.
  eapply (outcome_bind _ (fun r => runs !! 0%nat = Some r)); [destruct (lookup_lt_is_Some_2 runs 0%nat ltac:(lia)) as [r ->]; done|]. intros first _ Hfirst.
  eapply outcome_bind; [apply accepted_check|]. intros u' _ Hlim%Z.leb_le.
  destruct (comparability_spec runs HF ltac:(lia)) as (comp & -> & Hrank & Hsame). cbn [mbind result_bind].
  eapply outcome_bind; [by apply all_run_facts_spec|]. intros [facts hotspots] _ [Hfacts Hlinked]. cbn [fst] in Hfacts.
  eapply outcome_bind; [apply (comparison_spec input comp runs facts); [done|lia|done..]|]. intros facts' _ Hfacts'.
  eapply outcome_bind; [apply (outcome_mapR _ (fun run b => binding_of parse_uuid run = Ok b)); intros run _; apply accepted_no_panic; unfold binding_of; repeat (apply bind_no_panic; [apply ok_or_no_panic|intros ? _]); discriminate|].
  intros inputs _ Hinputs.
  eapply outcome_bind; [apply (outcome_mapR _ (fun run c => run_coverage parse_uuid run = Ok c)); intros run _; apply accepted_no_panic; unfold run_coverage; apply bind_no_panic; [apply ok_or_no_panic|discriminate]|].
  intros coverage _ Hcoverage.
  eapply outcome_bind; [apply accepted_no_panic, mapR_no_panic; intros run _; unfold scenario_evidence; do 4 (apply bind_no_panic; [apply ok_or_no_panic|intros ? _]);
    apply bind_no_panic; [|discriminate]; apply mapR_no_panic; intros v _; unfold canonical_override; do 2 (apply bind_no_panic; [apply ok_or_no_panic|intros ? _]);
    apply bind_no_panic; [apply canonical_number_no_panic|discriminate]|].
  intros evidence _ _. eapply outcome_bind; [apply accepted_no_panic, Hsize|]. intros size _ _. eapply outcome_bind; [apply accepted_check|]. intros u'' _ _.
  split; try done. by eapply bundle_limit; [exact HF|exact Hfirst|apply (runs_keys_length runs estimate HF Hest)|].
Qed.

(** *** The final check *)

Lemma json_of_run_eqb a b : value_eqb (json_of_run show_uuid a) (json_of_run show_uuid b) = true ->
  value_eqb (ru_run a) (ru_run b) = true
  /\ value_eqb (json_of_artifact_ref show_uuid (pa_artifact_ref (ru_prepared_artifact a))) (json_of_artifact_ref show_uuid (pa_artifact_ref (ru_prepared_artifact b))) = true
  /\ value_eqb (json_of_artifact_ref show_uuid (pa_artifact_ref (ru_result_artifact a))) (json_of_artifact_ref show_uuid (pa_artifact_ref (ru_result_artifact b))) = true.
Proof using.
  intros H. split_and!.
  - apply (value_eqb_member "run") in H. exact H.
  - apply (value_eqb_member "preparedArtifact"), (value_eqb_member "artifactRef") in H. exact H.
  - apply (value_eqb_member "resultArtifact"), (value_eqb_member "artifactRef") in H. exact H.
Qed.
Lemma id_at_eqb a b k : value_eqb a b = true -> id_at parse_uuid a k = id_at parse_uuid b k.
Proof using. intros H. unfold id_at. by rewrite (value_eqb_str _ _ (value_eqb_member k a b H)). Qed.
Lemma id_is_ok v k i : id_at parse_uuid v k = Ok i -> id_is parse_uuid v k i = Ok true.
Proof using. intros H. unfold id_is. rewrite H. cbn [mbind result_bind]. by rewrite bool_decide_eq_true_2. Qed.
Lemma binding_accepted input i run row b : linked input (i, run) -> sv_runs input !! i = Some row -> run_verified run ->
  value_eqb (member "resultRef" (ru_run row)) (json_of_artifact_ref show_uuid (pa_artifact_ref (ru_result_artifact row))) = true ->
  binding_of parse_uuid run = Ok b -> validate_binding parse_uuid show_uuid (b, row) = Ok tt.
Proof using.
  intros (row' & id & Hrow' & _ & Hs & _) Hrow Hrun Hres Hb. cbn [fst snd] in *. assert (row' = row) as -> by congruence. apply json_of_run_eqb in Hs as (Hr & Hp & Ho).
  unfold binding_of in Hb. apply bind_ok in Hb as (i1 & H1 & Hb). apply bind_ok in Hb as (i2 & H2 & Hb). apply bind_ok in Hb as (i3 & H3 & Hb). apply bind_ok in Hb as (i4 & H4 & Hb).
  apply bind_ok in Hb as (h & Hh & [= <-]). rewrite (id_at_eqb _ _ _ Hr) in H1. rewrite (id_at_eqb _ _ _ Hr) in H2. rewrite (id_at_eqb _ _ _ Hr) in H3. rewrite (id_at_eqb _ _ _ Hr) in H4.
  assert (Hhash : as_str (member "inputHash" (ru_run row)) = Some h).
  { rewrite <-(value_eqb_str _ _ (value_eqb_member "inputHash" _ _ Hr)), (value_eqb_str _ _ (rv_input_hash _ Hrun)). by destruct (pi_input_hash (vr_prepared run)); inversion Hh. }
  assert (Hcalc : value_eqb (json_of_calculation (pi_calculation_contract_ref (vr_prepared run))) (member "calculationContractRef" (ru_run row)) = true).
  { eapply value_eqb_transitive; [apply value_eqb_symmetric, (rv_calculation _ Hrun)|]. by apply value_eqb_member. }
  assert (Hout : value_eqb (json_of_artifact_ref show_uuid (pa_artifact_ref (ru_result_artifact (vr_input run)))) (member "resultRef" (ru_run row)) = true).
  { eapply value_eqb_transitive; [exact Ho|]. by apply value_eqb_symmetric. }
  unfold validate_binding, demand_that, and_also. cbn [ib_run_id ib_study_revision_id ib_scenario_revision_id ib_model_preparation_id ib_prepared_artifact_ref ib_result_ref ib_input_hash
    ib_effective_model_ref ib_calculation_contract_ref ib_validity].
  rewrite (id_is_ok _ _ _ H1), (id_is_ok _ _ _ H2), (id_is_ok _ _ _ H3), (id_is_ok _ _ _ H4), Hp, Hout, Hhash, Hcalc, (value_eqb_member "effectiveModelRef" _ _ Hr), (value_eqb_member "validity" _ _ Hr).
  cbn [mbind result_bind andb ok_or]. by rewrite bool_decide_eq_true_2.
Qed.
Lemma foldM_each_ok {E A} (f : A -> result E unit) l : Forall (fun a => f a = Ok tt) l -> foldM (fun _ => f) l tt = Ok tt.
Proof using. induction 1 as [|a l Ha _ IH]; [done|]. cbn [foldM]. by rewrite Ha. Qed.
Lemma json_of_config_refl c : value_eqb (json_of_config show_uuid c) (json_of_config show_uuid c) = true.
Proof using.
  unfold json_of_config. apply value_eqb_object. repeat constructor; cbn [fst snd]; try (by apply bool_decide_eq_true_2). apply value_eqb_array.
  induction (cf_run_ids c); [constructor|]. constructor; [by apply bool_decide_eq_true_2|done].
Qed.
(** The texts of a fact that come from the documents. *)
Definition texts_fit (f : Fact) : bool := (String.length (fa_label f) <=? 1024)%nat && (String.length (fa_unit f) <=? 128)%nat && negb (bool_decide (fa_unit f = "")).
Lemma validate_fact_good allowed f : fact_good show_f64 allowed f ->
  validate_fact show_f64 allowed f = if texts_fit f then Ok tt else Err (Code "study_analysis_output_fact_shape").
Proof using.
  intros [Hc Ha Hl (H1 & H2 & H3)]. unfold validate_fact. rewrite Hc. cbn [mbind result_bind]. rewrite Ha, (bool_decide_eq_false_2 _ Hl), (bool_decide_eq_false_2 _ H1), (proj2 (Nat.leb_le _ 2) H2).
  assert (Hin : forallb (fun id => bool_decide (id ∈ allowed)) (fa_run_ids f) = true) by (apply forallb_forall; intros id Hid%list_elem_of_In; apply bool_decide_eq_true_2, H3, Hid).
  rewrite Hin. unfold texts_fit, check, ensure. destruct (String.length (fa_label f) <=? 1024)%nat, (String.length (fa_unit f) <=? 128)%nat, (bool_decide (fa_unit f = "")); done.
Qed.
Lemma validate_facts_good allowed facts : Forall (fact_good show_f64 allowed) facts ->
  foldM (fun _ => validate_fact show_f64 allowed) facts tt = if forallb texts_fit facts then Ok tt else Err (Code "study_analysis_output_fact_shape").
Proof using.
  induction 1 as [|f fs Hf _ IH]; [done|]. cbn [foldM forallb]. rewrite (validate_fact_good _ _ Hf). destruct (texts_fit f); cbn [mbind result_bind andb]; done.
Qed.
End Whole.

Section Accepted.
Context (parse_uuid : string -> option Uuid) (show_uuid : Uuid -> string) (show_f64 : f64 -> string).
Context (config_bytes : AnalysisConfig -> result StudyError string) (sha256 : string -> string).

Lemma coverage_ids input runs coverage : Forall (linked parse_uuid show_uuid input) (enumerate runs) -> length runs = length (cf_run_ids (an_config (sv_analysis input))) ->
  Forall2 (fun run c => run_coverage parse_uuid run = Ok c) runs coverage -> rc_run_id <$> coverage = cf_run_ids (an_config (sv_analysis input)).
Proof using.
  intros HF HL H2. apply list_eq_same_length with (length runs); [done|by rewrite length_fmap, (Forall2_length _ _ _ H2)|]. intros i x y Hi Hx Hy.
  rewrite list_lookup_fmap in Hx. apply fmap_Some in Hx as (c & Hc & ->). destruct (Forall2_lookup_r _ _ _ _ _ H2 Hc) as (run & Hrun & Hcov).
  rewrite Forall_forall in HF. destruct (HF (i, run) (proj2 (elem_of_enumerate _ _ _) Hrun)) as (row & id & _ & Hid & _ & Hat). cbn [fst snd] in Hid, Hat.
  unfold run_coverage in Hcov. rewrite Hat in Hcov. injection Hcov as <-. cbn [rc_run_id]. congruence.
Qed.
Lemma bindings_accepted input runs bundle : analysed parse_uuid show_uuid show_f64 config_bytes sha256 input runs bundle -> Forall run_verified runs ->
  foldM (fun _ => validate_binding parse_uuid show_uuid) (zip (fb_inputs bundle) (sv_runs input)) tt = Ok tt.
Proof using.
  intros HA HF. apply foldM_each_ok, Forall_lookup. intros i [b row] [Hb Hrow]%lookup_zip_Some. destruct (Forall2_lookup_r _ _ _ _ _ (az_inputs _ _ _ _ _ _ _ _ HA) Hb) as (run & Hrun & Hbind).
  pose proof (az_linked _ _ _ _ _ _ _ _ HA) as Hl. rewrite Forall_forall in Hl. specialize (Hl (i, run) (proj2 (elem_of_enumerate _ _ _) Hrun)). rewrite Forall_lookup in HF.
  destruct (validate_input_spec _ _ _ _ _ (az_valid _ _ _ _ _ _ _ _ HA)) as (_ & _ & Hres). rewrite Forall_lookup in Hres. by eapply binding_accepted; eauto.
Qed.
Lemma bool_decide_refl {A} (x : A) `{!Decision (x = x)} : bool_decide (x = x) = true.
Proof using. by apply bool_decide_eq_true_2. Qed.
Lemma analysed_output input runs bundle : analysed parse_uuid show_uuid show_f64 config_bytes sha256 input runs bundle -> Forall run_verified runs ->
  NoDup (fa_fact_id <$> fb_facts bundle)
  /\ validate_output parse_uuid show_uuid show_f64 bundle input = if forallb texts_fit (fb_facts bundle) then Ok tt else Err (Code "study_analysis_output_fact_shape").
Proof using.
  intros HA HF. pose proof HA as [Hv HL Hlink Hhead [Hkeys Hgood] Hlim Hin Hcov]. destruct (validate_input_spec _ _ _ _ _ Hv) as (Hids & Hlen & _).
  assert (HN : NoDup (fa_fact_id <$> fb_facts bundle)) by (rewrite Hkeys; apply NoDup_fmap_2; [apply _|apply bundle_keys_NoDup]). split; [done|].
  assert (Hfl : length (fb_facts bundle) = length (bundle_keys runs)) by (rewrite <-(length_fmap fa_fact_id), Hkeys; apply length_fmap).
  assert (Hne : fb_facts bundle <> []).
  { intros E. rewrite E in Hfl. destruct runs as [|run runs]; [simpl in HL; lia|]. apply Forall_cons in HF as [Hr _]. destruct (es_positive _ (rv_shapes _ Hr)) as [Hp _].
    revert Hfl. unfold bundle_keys, runs_keys, enumerate. rewrite imap_cons, bind_cons, !length_app. cbn [fst snd length]. unfold run_keys at 1. rewrite !length_app, length_fmap, length_seq. lia. }
  destruct Hhead as (H1 & H2 & H3 & H4 & H5 & H6 & H7 & H8 & H9 & H10). unfold validate_output. rewrite H1, H2, H3, H4, H5, H6, H7, H8, H9, H10, json_of_config_refl.
  rewrite !bool_decide_refl, (bool_decide_eq_false_2 _ Hne), <-(Forall2_length _ _ _ Hin), HL, Nat.eqb_refl, Hfl, (proj2 (Z.leb_le _ _) Hlim). cbn [andb negb check ensure mbind result_bind].
  rewrite (bindings_accepted input runs bundle HA HF). cbn [mbind result_bind]. rewrite size_list_to_set, length_fmap, Hfl by done. rewrite (coverage_ids input runs (fb_coverage bundle)) by (done || lia).
  rewrite !bool_decide_refl. cbn [andb check ensure mbind result_bind]. by apply validate_facts_good.
Qed.
End Accepted.

(** C19: The analysis of verified runs never panics, and what it returns it also
    accepts: there is exactly one fact for every activity, inventory, impact,
    view contribution, inventory term and, of two runs, every delta; no two
    facts share an identity; and the final check, which binds the bundle to the
    request and re-reads every number, can only object to the length of a label
    or to a unit taken from the documents. *)
Theorem analysis_output_accepted (parse_uuid : string -> option Uuid) (show_uuid : Uuid -> string) (show_f64 : f64 -> string)
    (config_bytes : AnalysisConfig -> result StudyError string) (bundle_size : FactsBundle -> result StudyError Z)
    (value_bytes : Identified -> result StudyError string) (input_bytes : PreparedInput -> result StudyError string)
    (decode_input : string -> result StudyError PreparedInput) (decode_result : string -> result StudyError StudyResult) (sha256 : string -> string)
    (fingerprint : string) (elapsed : nat -> nat -> Z) (input : ServiceInput) (runs : list VerifiedRun) :
  (forall c, config_bytes c <> Panic) -> (forall b, bundle_size b <> Panic) -> (forall v, value_bytes v <> Panic) -> (forall i, input_bytes i <> Panic) ->
  (forall s, decode_input s <> Panic) -> (forall s, decode_result s <> Panic) ->
  Forall (fun run => exists row prepared_bytes result_bytes bounds,
    verify_run value_bytes input_bytes decode_input decode_result sha256 fingerprint row prepared_bytes result_bytes bounds = Ok run) runs ->
  match analyze parse_uuid show_uuid show_f64 config_bytes bundle_size sha256 elapsed input runs with
  | Ok bundle => fa_fact_id <$> fb_facts bundle = fact_id <$> bundle_keys runs /\ NoDup (fa_fact_id <$> fb_facts bundle)
      /\ validate_output parse_uuid show_uuid show_f64 bundle input = if forallb texts_fit (fb_facts bundle) then Ok tt else Err (Code "study_analysis_output_fact_shape")
  | Err _ => True
  | Panic => False
  end.
Proof.
  intros Hc Hb Hv Hi Hd Hr HF. assert (HV : Forall run_verified runs).
  { eapply Forall_impl; [exact HF|]. intros run (row & p & r & bounds & E). pose proof (verify_run_spec _ _ _ _ sha256 fingerprint Hv Hi Hd Hr row p r bounds) as H. rewrite E in H. apply H. }
  pose proof (analyze_spec parse_uuid show_uuid show_f64 config_bytes bundle_size sha256 Hc Hb elapsed input runs HV) as HA.
  destruct (analyze _ _ _ _ _ _ _ _ _) as [bundle| |]; [|done..]. split; [apply (az_facts _ _ _ _ _ _ _ _ HA)|]. exact (analysed_output _ _ _ _ _ input runs bundle HA HV).
Qed.

(** Analysing files is safe too: it verifies every run it analyses. *)
Lemma execute_native_no_panic parse_uuid show_uuid show_f64 config_bytes bundle_bytes decode_request value_bytes input_bytes decode_input decode_result sha256 fingerprint read elapsed path limits :
  (forall c, config_bytes c <> Panic) -> (forall b, bundle_bytes b <> Panic) -> (forall s, decode_request s <> Panic) -> (forall v, value_bytes v <> Panic) ->
  (forall i, input_bytes i <> Panic) -> (forall s, decode_input s <> Panic) -> (forall s, decode_result s <> Panic) -> (forall p n, read p n <> Panic) ->
  execute_native parse_uuid show_uuid show_f64 config_bytes bundle_bytes decode_request value_bytes input_bytes decode_input decode_result sha256 fingerprint read elapsed path limits <> Panic.
Proof.
  intros Hc Hb Hq Hv Hi Hd Hr Hread. unfold execute_native. apply bind_no_panic; [apply Hread|intros data _]. apply bind_no_panic; [apply Hq|intros request _].
  apply bind_no_panic; [apply ensure_no_panic|intros _ _]. apply bind_no_panic; [by apply validate_input_no_panic|intros _ _].
  assert (HV : accepted (fun acc => Forall run_verified acc.2) (foldM (verify_files parse_uuid value_bytes input_bytes decode_input decode_result sha256 fingerprint read limits)
    (zip (ni_files request) (sv_runs (ni_input request))) (0, []))).
  { apply (outcome_foldM (fun _ => True) (fun _ (acc : Z * list VerifiedRun) => Forall run_verified acc.2)); [constructor|]. intros pre [files row] post [owned runs] _ HF. cbn [snd] in HF. unfold verify_files.
    eapply outcome_bind; [apply accepted_no_panic, demand_that_no_panic, id_is_no_panic|intros u _ _]. eapply outcome_bind; [apply accepted_no_panic, Hread|intros p _ _].
    eapply outcome_bind; [apply accepted_no_panic, Hread|intros r _ _]. do 2 (eapply outcome_bind; [apply accepted_check|intros ? _ _]).
    eapply outcome_bind; [exact (verify_run_spec _ _ _ _ sha256 fingerprint Hv Hi Hd Hr row p r limits)|]. intros run _ (_ & _ & _ & _ & _ & Hrun). apply Forall_app. by split; [|apply Forall_singleton]. }
  destruct (foldM _ _ _) as [[owned runs]| |]; [|done..]. cbn [mbind result_bind]. cbn [snd] in HV.
  assert (Hlen : forall b, bundle_length bundle_bytes b <> Panic) by (intros b; unfold bundle_length; apply bind_no_panic; [apply Hb|discriminate]).
  pose proof (analyze_spec parse_uuid show_uuid show_f64 config_bytes (bundle_length bundle_bytes) sha256 Hc Hlen elapsed (ni_input request) runs HV) as HA.
  destruct (analyze _ _ _ _ _ _ _ _ _) as [bundle| |]; [|done..]. cbn [mbind result_bind]. destruct (analysed_output _ _ _ _ _ _ runs bundle HA HV) as [_ ->].
  apply bind_no_panic; [by destruct (forallb texts_fit (fb_facts bundle))|]. intros _ _. apply Hb.
Qed.

Definition sample_show (x : f64) : string :=
  if decide (x = f64_of_Z 3) then "3.0" else if decide (x = f64_of_Z 30) then "30.0" else if decide (x = f64_of_Z 90) then "9e1" else "1.0".
Definition sample_service : ServiceInput :=
  mk_service_input ANALYSIS_INPUT_SCHEMA
    (mk_analysis 7 5 ANALYSIS_PROFILE (mk_config CONFIG_SCHEMA Contribution [1])
       ("h" +:+ ("study.analysis-config.v1" +:+ String.String Ascii.zero "config")) (mk_execution 8 "running"))
    [sample_run (fun _ => "6")].
Definition sample_analyze (runs : list VerifiedRun) : result StudyError FactsBundle :=
  analyze sample_uuid (fun _ => "6") sample_show (fun _ => Ok "config") (fun _ => Ok 100) (fun s => "h" +:+ s) (fun _ _ => 0) sample_service runs.
Definition sample_verified : VerifiedRun := mk_verified (sample_run (fun _ => "6")) sample_bound sample_result.
Lemma analysis_output_accepted_witness :
  sample_verify (sample_run (fun _ => "6")) = Ok sample_verified
  /\ exists bundle, sample_analyze [sample_verified] = Ok bundle
    /\ fa_fact_id <$> fb_facts bundle = ["r0:x:0"; "r0:x:1"; "r0:g:0"; "r0:h:0"; "r0:v:0:0"; "r0:v:0:1"; "r0:i:0:0"]
    /\ validate_output sample_uuid (fun _ => "6") sample_show bundle sample_service = Ok tt.
Proof.
  assert (E : sample_verify (sample_run (fun _ => "6")) = Ok sample_verified) by (vm_compute; reflexivity). split; [exact E|].
  assert (HF : match sample_analyze [sample_verified] with Ok b => forallb texts_fit (fb_facts b) | _ => false end = true) by (vm_compute; reflexivity).
  pose proof (analysis_output_accepted sample_uuid (fun _ => "6") sample_show (fun _ => Ok "config") (fun _ => Ok 100) (fun _ => Ok "value") (fun _ => Ok "input")
    (fun _ => Ok sample_bound) (fun _ => Ok sample_result) (fun s => "h" +:+ s) "f" (fun _ _ => 0) sample_service [sample_verified]) as H.
  unfold sample_analyze in *. destruct (analyze _ _ _ _ _ _ _ _ _) as [bundle| |]; [|discriminate HF..]. exists bundle. split; [reflexivity|].
  destruct H as (Hids & _ & Hv); [discriminate..| |].
  - apply Forall_singleton. exists (sample_run (fun _ => "6")), "input", "result", default_bounds. exact E.
  - split; [rewrite Hids; vm_compute; reflexivity|]. rewrite Hv, HF. reflexivity.
Defined.
